(* ===== verification/_CoqProject ===== *)
-Q . S2P
Prelude.v
Str.v
ParserError.v
OkfPath.v
Serde.v
Frontmatter.v
Links.v
Concept.v
Package.v
BTree.v
Discover.v
Plan.v
SyncDelta.v
Documents.v
Civil.v
CatalogError.v
Security.v
Neighbors.v
PluginFreshness.v
Staging.v
Catalog.v
Freshness.v
Config.v
FreshnessWalk.v
FreshnessEval.v
FreshnessApi.v
Outbox.v
Relationships.v
Lifecycle.v
Content.v
CatalogWf.v
CatalogApi.v
CatalogHistory.v
CatalogSafety.v
CatalogRefresh.v
Publication.v
Provenance.v
Projection.v
ProjectionSteps.v
ProjectionProps.v
BundleSync.v
Net.v
WebState.v
WebAuth.v
WebUsers.v
WebProps.v
WebPeople.v
WebThrottle.v
WebSettings.v
WebSignIn.v
WebExamples.v
WebUrl.v
Oidc.v
OidcProps.v
WebProviders.v
OidcExamples.v
TypedWalk.v
Selection.v
SelectionProps.v
SelectionExamples.v
PluginTree.v
PluginTreeProps.v
PluginText.v
PluginTextProps.v
PluginBuild.v
PluginBuildProps.v
PluginExamples.v
Archive.v
ArchiveProps.v
ArchiveWrites.v
ArchiveExamples.v
Build.v
BuildExamples.v
