(* ===== verification/Prelude.v ===== *)
(** * pgokf, verified: root of the development

    pgokf keeps bundles of OKF documents (Markdown files with a YAML
    frontmatter, and Agent Skills packages) in a PostgreSQL catalog.  A parser
    library reads the documents, a sync library scans a bundle and plans what
    changed, a PostgreSQL extension stores and serves the catalog and tracks
    which derived bundles are still current, and companion programs build
    plugins and edit documents on top.  This library models the core of each
    part in pure functions and states what makes it correct.

    ** How the parts meet

    A sync discovers a snapshot of files ([Discover]), classifies it against
    the stored projection ([SyncDelta]) with the package index of the snapshot
    ([Package]), parses what changed ([Concept], over [OkfPath],
    [Frontmatter], [Links]) and stages it ([Staging]).  What is staged is
    written to the tables of the stored projection ([Projection]): concept
    rows, metadata, the link graph, the typed rows of skills and their
    resources, provenance ([Provenance]), source bytes and activity logs.  Its
    last part is a transaction on the catalog ([Lifecycle]): the bundle's generation moves,
    the relationships staged for that generation become active
    ([Relationships]), one event is appended to the outbox ([Outbox]), and the
    dependencies registered on the bundle are evaluated ([Freshness]), which
    marks dependents stale, transitively, and raises their invalidation
    epochs.  A producer that rebuilds a dependent claims the epoch, works, and
    completes by a compare-and-set ([FreshnessApi]); its relationships are
    published behind a fence ([FreshnessApi], [Relationships]).  Dispatchers
    claim events and acknowledge them ([Outbox]).

    Beside that, the web console decides who a request is from: people sign in
    with a password or through an identity provider ([WebUsers], [Oidc]), get a
    session sealed into a cookie and listed in a table ([WebAuth]), and every
    later request is resolved against the tables as they are then.

    A plugin is built from what a session sees in the catalog: a selection
    names concepts by search, by hand and as seeds; the seeds bring along what
    the typed relationships reach from them ([TypedWalk]); the freshness of
    every record decides what may ship; and what ships is loaded and checked
    against its digests ([Selection]).  What is loaded is laid out as a tree of
    files for a harness, with a lockfile that accounts for it ([PluginTree],
    [PluginText], [PluginBuild]; [Build] runs it all), and the tree is written
    below a directory ([Archive]).

    ** Files and sources

    The parser, [crates/okf-parser/src]:
    - [Str]: the operations of [std::str] on bytes; [ParserError]: error.rs;
    - [OkfPath]: normalize.rs; [Frontmatter]: frontmatter.rs; [Links]:
      links.rs and markdown.rs; [Concept]: lib.rs, model.rs, skill.rs,
      version.rs, limits.rs;
    - [Serde]: the interface of serde_yaml and serde_json the parser uses.

    The sync library, [crates/okf-sync/src]:
    - [Package]: package.rs; [Discover]: discover.rs, config.rs, hash.rs,
      error.rs; [Plan]: plan.rs, report.rs; [BTree]: [BTreeMap] and [Ord].

    The extension, [crates/extension/src]:
    - [CatalogError]: errors.rs; [Security]: security.rs; [Civil]:
      catalog/iso8601.rs (and the writer of the companion);
    - [SyncDelta] and [Staging]: the parts of catalog/sync.rs and
      catalog/packages.rs before the catalog is written;
    - [Neighbors]: catalog/neighbors.rs;
    - [Catalog]: the tables (catalog/schema.rs and the DDL of the modules
      below), the transaction monad, sessions, and catalog/audit.rs;
    - [Config]: catalog/config.rs, the configuration row and its setters;
    - [Freshness], [FreshnessApi]: catalog/freshness.rs;
    - [Outbox]: catalog/change_event.rs;
    - [Relationships]: the write side of catalog/relationships.rs;
      [TypedWalk]: its view of the current relationships and the typed
      traversal, with its theorem;
    - [Lifecycle]: catalog/admin.rs and the tail of catalog/sync.rs;
      [Content]: the bundles of catalog/content.rs, whose files are submitted
      and not scanned;
    - [Provenance]: catalog/provenance.rs and catalog/bundle_log.rs, up to the
      rows;
    - [Projection]: the statements of catalog/sync.rs, catalog/batch.rs,
      catalog/links.rs, catalog/packages.rs, catalog/provenance.rs,
      catalog/source.rs and catalog/bundle_log.rs that write the stored
      projection, over [Projection.Store], one record of tables per bundle;
      [ProjectionSteps] and [ProjectionProps] have its lemmas and theorems;
    - [BundleSync]: [run_bundle_sync] of catalog/sync.rs as a whole, the
      projection and the catalog transaction in one.

    The companions: [Documents] is pgokf-companion/src/documents.rs,
    [PluginFreshness] is pgokf-workspace/src/freshness.rs, [Selection] is
    pgokf-workspace/src/selection.rs ([SelectionProps] has its theorems,
    [SelectionExamples] a build to try them on).  Building a plugin is
    pgokf-workspace/src/plugin.rs and profile.rs: [PluginTree] has names,
    directories, paths, profiles and layouts, [PluginText] the texts something
    reads back (addresses and commands, banners and warnings, the system
    prompt, the helper script), [PluginBuild] the tree and its lockfile;
    [PluginTreeProps], [PluginTextProps] and [PluginBuildProps] have their
    theorems, [PluginExamples] a plugin.  [Build] is lib.rs with the snapshot
    of selection.rs, and its theorem; [BuildExamples] a build end to end.
    [Archive] is archive.rs without the zip, [ArchiveProps] and
    [ArchiveWrites] have its theorems, [ArchiveExamples] two disks.

    The web console, [crates/pgokf-web/src]:
    - [Net]: IP addresses as [std::net] reads them, CIDR ranges, trusted
      proxies and URL checks of auth.rs and oidc.rs;
    - [WebState]: the tables of catalog/web_identity.rs, the memory of one
      instance, programs and their interleaving;
    - [WebAuth]: roles, subjects, header identities, sealed cookies and the
      statements of auth.rs, session_store.rs and user_store.rs;
    - [WebUsers]: people, providers in memory, the throttle and the sign-in
      handlers (auth.rs, provider.rs, provider_settings.rs, seal.rs, and the
      handlers of routes.rs); [WebProviders]: the provider form (provider.rs);
    - [WebUrl]: percent encoding and redirects of routes.rs, the addresses of
      oidc.rs; [Oidc]: a sign-in through a provider, the rest of oidc.rs;
    - [WebProps], [WebPeople], [WebThrottle], [WebSignIn], [WebSettings],
      [OidcProps]: their theorems; [WebExamples], [OidcExamples]: a concrete
      console and provider.

    ** The console as interleaved programs

    A handler is a [WebState.prog]: a tree of atomic actions, each one SQL
    statement or one critical section of a lock.  [WebState.reaches] lets
    requests arrive, proceed action by action in any order, lose a statement
    or its answer, and lets clocks move.  [WebProps.effect] lists what an
    action of a request may do, [WebProps.program_effects] shows that nothing
    else happens, so an invariant of the effects is an invariant of every
    interleaving ([WebProps.reaches_keeps], [WebProps.in_flight_answers]).

    ** The catalog as a state machine

    [Catalog.Db] holds the tables; an entry point is a transaction
    [M A = Db -> tx A] that commits ([Done]), refuses with a [CatalogError]
    ([Fail]) or is aborted by PostgreSQL ([Raise]: a [bigint] overflow, a
    broken constraint).  Only a commit changes the state.  [CatalogApi.api]
    has one constructor for every entry point that writes a table of [Db], those
    of the configuration and of submitted content included, and
    [CatalogHistory.hist] is a sequence of committed calls of any sessions,
    which is how the advisory locks and row locks of the source let them
    interleave; what another open transaction holds locked appears as the
    argument of [SKIP LOCKED] in [Outbox.claim_events].  [CatalogWf.eff] lists
    what one statement may do to the tables; [CatalogApi.api_effects] shows
    that every committed call is a sequence of such effects within the call's
    permissions, so an invariant of the effects is an invariant of every
    history.

    ** What the theorems show

    - Containment: a link target, a symbolic link, a server path stay inside
      ([OkfPath.resolve_link_target_contained],
      [Discover.discover_links_contained], [Security.contained_path_exact]).
    - Parsing: what is accepted and what it becomes ([Concept], [Frontmatter],
      [Links]); what a document renders to parses back ([Documents]).
    - Sync: the package index, the selection of files and the delta are
      exactly what they should be ([Package], [Discover], [SyncDelta]),
      staging accounts for every file ([Staging]), replaying a plan reaches
      the current content ([Plan]).
    - Access: roles and tenants ([Security]); resolving relationships tells
      nothing about bundles a session cannot see ([Publication]).
    - Freshness: the walk over dependencies ends and covers what it must
      ([FreshnessWalk], [CatalogRefresh.propagate_exact]); evaluation is exact
      and idempotent ([FreshnessEval], [CatalogRefresh]); overtaken attempts,
      superseded fences and retired bundles stay so over every history
      ([CatalogSafety]); a refresh defeats the attempts in flight
      ([CatalogRefresh.refresh_defeats_attempts]).
    - Configuration: what a setter accepts is within the checks of the row, and
      stays so over every history ([Config.coerce_checks],
      [CatalogHistory.hist_config]).
    - Events: what a summary holds, that claims drain the outbox, what an
      acknowledgement answers ([Outbox]), that nothing unacknowledged is lost
      ([CatalogSafety.events_kept_until_acknowledged]).
    - Relationships: canonical form, activation, retries ([Publication]).
    - Traversal: distances and paths are shortest ([Neighbors],
      [TypedWalk.typed_neighbors_exact]).
    - Selection: what a selection resolves to, picks never cut off
      ([SelectionProps.resolve_exact]); the closure of the seeds is what is
      visible of what the relationships reach ([SelectionProps.closure_exact]); what each stale
      policy keeps, drops and refuses ([SelectionProps.stale_policy_exact]);
      the build as a whole ([SelectionProps.resolved_build]); and what is
      loaded ([SelectionProps.load_sources_intact]).
    - Plugins: slugs are names of Agent Skills and packages get directories of
      their own ([PluginTreeProps]); a Modelfile ends where it should, an
      address in a script is data, a banner goes below the frontmatter
      ([PluginTextProps]); an assembled tree can be written everywhere, has
      every record at its place with its bytes, and links that lead to them
      ([PluginBuildProps.assembled_tree]); the lockfile accounts for all of it
      ([PluginBuildProps.lockfile_accounts]); and a build from a selection
      holds what the session may see and the catalog has
      ([Build.built_plugin]).
    - Writing a plugin: all of it or nothing that was there is touched, and
      never through a link ([ArchiveProps.write_all_or_nothing]); below an
      empty directory an assembled tree is written whole
      ([ArchiveWrites.built_plugin_writes]).  Both for the harnesses of the
      registry and those described by a user whose directory has no segment of
      dots alone ([PluginBuildProps.harness_new_rooted]).
    - Provenance: nobody types a verification into a document ([Documents]);
      the trust tier a concept is shown with says exactly what its recorded
      verifications say ([Provenance.provenance_rows_exact]).
    - The stored projection: a sync reaches the snapshot and a second one has
      nothing to do ([ProjectionProps.sync_reaches_snapshot]), every staged
      concept is stored as it was read, the link graph agrees with the
      concepts that exist, and the catalog agrees with the store
      ([BundleSync.run_bundle_sync_agrees]).

    - The console: sessions that ended stay ended, names keep their way in,
      a provider takes nobody's name, the throttle is bounded and exact
      ([WebProps], [WebPeople], [WebThrottle]); whom a request is from, and
      that a sign-in leads to it ([WebSignIn]); what a completed provider
      sign-in was checked for and where its token went ([OidcProps]); what the
      provider form lets through ([WebProviders]); that a slug is always found
      ([WebSettings]); that redirects stay on the site and queries hold what
      was written ([WebUrl]); that a forwarded address cannot be spoofed
      ([Net]).

    ** Interfaces

    Code that is not in the repository is a class whose operations a client
    uses and whose laws, where a theorem needs them, are a class of their own:
    [Serde.Serde] (YAML, JSON), [Discover.Host] (file system, globs, BLAKE3),
    [Security.Roots] and [Security.Backend], [Neighbors.LinkCatalog],
    [Staging.StagingHost], [Provenance.RowHost] (JSON texts, epochs),
    [Documents] (YAML), [PluginFreshness.Json] and
    [PluginCatalog], [Catalog.Session] (time, user, roles, tenant),
    [Catalog.PgText] with [PgTextLaws] (the order and the distinct
    aggregation of PostgreSQL texts, the order in which an [UPDATE] returns its
    rows), [Relationships.RowJson] (JSON, [f64],
    BLAKE3), [Outbox.ContextJson], [TypedWalk.EdgeOrder] with
    [EdgeOrderLaws] (the collation of the edge queries), [Selection.Reader]
    with [SelectionProps.ReaderLaws] (a connection: the rows of its snapshot,
    the answers of the audited readers, the statements that fail),
    [PluginTree.Unicode] (composition and case folding), [PluginText.Evidence]
    and [PluginBuild.Texts] (JSON, SHA-256, the prose of a plugin),
    [Archive.Disk] (which system calls fail),
    [Net.HeaderMap] (HTTP headers),
    [WebAuth.Crypto] with [CryptoLaws] (HMAC, base64, Argon2, AEAD, the JSON of
    claims) and, for the lengths and letters of what is sealed,
    [WebProviders.SealLaws], [WebAuth.Collation] with [CollationLaws] ([lower]
    of the database), [Oidc.FlowCodec] with [FlowLaws], [Oidc.World] (network, clocks,
    JWT library; every consultation has a number of its own).  Each has a concrete instance in a witness.

    ** Bounds and fuel

    Loops with fuel return what they return for any larger amount, and the
    theorems prove the given amount is enough: [Package.owner_go] and
    [Str.show_go] by the length of the input, [Neighbors.bfs_loop] by the
    number of nodes and hops, [TypedWalk.typed_loop] by the number of hops,
    which the loop of the code counts, [Freshness.walk] by
    [walk_fuel roots = length roots + TRANSITIVE_INVALIDATION_ROW_CAP], since
    each node is pushed once, and [Projection.chunks_go] by the length of the
    list; [WebUsers.find_free] tries one candidate more than there are names
    taken, which [WebSettings.find_free_total] shows is enough, and
    [PluginTree.free_dir] three more, which [PluginTreeProps.free_dir_spec]
    shows is enough; the pages of
    [Oidc.github_pages] are the bound of the code itself.  Machine integers are [Z] with their range
    checks written out: [i32] and [i64] arithmetic that could overflow panics
    or raises in the model as it does in the code, and theorems that need room
    say so ([CatalogRefresh.room]).

    ** Not modelled

    The texts of parser diagnostics and of log messages; the text-search
    vectors, embeddings (but for their invalidation) and version history a
    sync also writes; read-only listings; packing into SQL composites;
    search, export and statistics entry points; of the web
    console the templates, the pages that only read and everything behind a
    signed-in person; the MCP server.  Of a plugin build: the savepoints around
    the readers, the texts of refusals and descriptions, the prose of the
    index, the guide, the freshness report and the manifests, how a
    configuration or a lockfile is written as JSON, TOML or YAML, and the zip
    archive.  The statements of one build see one snapshot, which is how the
    code runs them (one REPEATABLE READ transaction).  The directory a plugin
    is written to is changed by nobody else meanwhile, and a system call fails
    or succeeds as [Archive.Disk] says; what a call would do through a
    symbolic link is outside the model, and is shown not to happen. *)
From stdpp Require Import prelude strings gmap list sorting.
From Stdlib Require Import ZArith Lia.

(** ** Rust's [Result] *)

Inductive result (A E : Type) : Type :=
| Ok (a : A)
| Err (e : E).
Arguments Ok {A E} a.
Arguments Err {A E} e.

Definition rbind {A B E} (m : result A E) (k : A -> result B E) : result B E :=
  match m with
  | Ok a => k a
  | Err e => Err e
  end.

Definition rmap {A B E} (f : A -> B) (m : result A E) : result B E :=
  match m with
  | Ok a => Ok (f a)
  | Err e => Err e
  end.

Definition rmap_err {A E F} (f : E -> F) (m : result A E) : result A F :=
  match m with
  | Ok a => Ok a
  | Err e => Err (f e)
  end.

(** [Option::ok_or]. *)
Definition ok_or {A E} (e : E) (o : option A) : result A E :=
  match o with
  | Some a => Ok a
  | None => Err e
  end.

(** [Result::ok]. *)
Definition r_ok {A E} (m : result A E) : option A :=
  match m with
  | Ok a => Some a
  | Err _ => None
  end.

Definition is_ok {A E} (m : result A E) : bool :=
  match m with
  | Ok _ => true
  | Err _ => false
  end.

(** [iter.map(f).collect::<Result<Vec<_>, _>>()]: the first error wins. *)
Fixpoint rmap_list {A B E} (f : A -> result B E) (l : list A) : result (list B) E :=
  match l with
  | [] => Ok []
  | x :: l' => rbind (f x) (fun y => rmap (cons y) (rmap_list f l'))
  end.

(** A loop that stops at its first error. *)
Fixpoint rfold {A S E} (f : S -> A -> result S E) (l : list A) (s : S) : result S E :=
  match l with
  | [] => Ok s
  | x :: l' => rbind (f s x) (rfold f l')
  end.

(** A stable sort by a boolean order ([sort_by], [sort_by_key]). *)
Fixpoint insert_by {A} (le : A -> A -> bool) (x : A) (l : list A) : list A :=
  match l with
  | [] => [x]
  | y :: l' => if le x y then x :: l else y :: insert_by le x l'
  end.
Definition sort_by {A} (le : A -> A -> bool) (l : list A) : list A := foldr (insert_by le) [] l.

Declare Scope result_scope.
Delimit Scope result_scope with result.
Notation "'let?' x ':=' m 'in' k" := (rbind m (fun x => k))
  (at level 10, x pattern, m at level 100, k at level 200,
   format "'let?'  x  ':='  m  'in' '//' k") : result_scope.
Open Scope result_scope.

(** ** Panics

    Rust code that slices a string off a character boundary or indexes past
    the end unwinds; [outcome] keeps that apart from an ordinary value. *)

Inductive outcome (A : Type) : Type :=
| Panic
| Ret (a : A).
Arguments Panic {A}.
Arguments Ret {A} a.

Definition obind {A B} (m : outcome A) (k : A -> outcome B) : outcome B :=
  match m with
  | Panic => Panic
  | Ret a => k a
  end.

(** The [?] operator of a function that returns [Option] and may panic. *)
Definition qbind {A B} (m : outcome (option A)) (k : A -> outcome (option B))
  : outcome (option B) :=
  match m with
  | Panic => Panic
  | Ret None => Ret None
  | Ret (Some a) => k a
  end.

Notation "'try?' x ':=' m 'in' k" := (qbind m (fun x => k))
  (at level 10, x pattern, m at level 100, k at level 200,
   format "'try?'  x  ':='  m  'in' '//' k") : result_scope.

(** ** Decidable equality of the generic types *)

#[export] Instance result_eq_dec {A E} `{EqDecision A, EqDecision E} : EqDecision (result A E).
Proof. solve_decision. Defined.

#[export] Instance outcome_eq_dec {A} `{EqDecision A} : EqDecision (outcome A).
Proof. solve_decision. Defined.

(** ** Automation *)

Create HintDb okf.

(** Case on the first [match]/[if] of the goal or of a hypothesis, keeping
    the equation, until nothing is left to split. *)
Ltac split_match :=
  match goal with
  | |- context [match ?x with _ => _ end] => destruct x eqn:?
  end.
Ltac split_match_in H :=
  match type of H with
  | context [match ?x with _ => _ end] => destruct x eqn:?
  end.

(** Invert every equation between constructors of [result] and friends. *)
Ltac inv_res :=
  repeat match goal with
  | H : Ok _ = Ok _ |- _ => injection H as H; try subst
  | H : Err _ = Err _ |- _ => injection H as H; try subst
  | H : Ok _ = Err _ |- _ => discriminate H
  | H : Err _ = Ok _ |- _ => discriminate H
  | H : Ret _ = Ret _ |- _ => injection H as H; try subst
  | H : Ret _ = Panic |- _ => discriminate H
  | H : Panic = Ret _ |- _ => discriminate H
  | H : Some _ = Some _ |- _ => injection H as H; try subst
  | H : Some _ = None |- _ => discriminate H
  | H : None = Some _ |- _ => discriminate H
  end.

(** Peel the successful runs of a monadic definition off a hypothesis. *)
Ltac run_ok H :=
  repeat (cbn [rbind rmap rmap_err ok_or] in H;
          match type of H with
          | rbind ?m _ = Ok _ =>
              let E := fresh "Hrun" in
              destruct m eqn:E; [| discriminate H]
          | (if ?c then _ else _) = Ok _ =>
              let E := fresh "Hif" in
              destruct c eqn:E; try discriminate H
          end);
  cbn [rbind rmap rmap_err ok_or] in H; inv_res.

(** Booleans of the code as propositions. *)
Ltac bool_prop :=
  repeat match goal with
  | H : (_ && _)%bool = true |- _ => apply andb_prop in H as [? ?]
  | H : (_ || _)%bool = false |- _ => apply orb_false_elim in H as [? ?]
  | H : negb _ = true |- _ => apply negb_true_iff in H
  | H : negb _ = false |- _ => apply negb_false_iff in H
  | H : bool_decide _ = true |- _ => apply bool_decide_eq_true in H
  | H : bool_decide _ = false |- _ => apply bool_decide_eq_false in H
  | H : (_ =? _)%nat = true |- _ => apply Nat.eqb_eq in H
  | H : (_ <=? _)%nat = true |- _ => apply Nat.leb_le in H
  | H : (_ <=? _)%nat = false |- _ => apply Nat.leb_gt in H
  | H : (_ <? _)%nat = true |- _ => apply Nat.ltb_lt in H
  | H : (_ <? _)%nat = false |- _ => apply Nat.ltb_ge in H
  | H : (_ <=? _)%Z = true |- _ => apply Z.leb_le in H
  | H : (_ <=? _)%Z = false |- _ => apply Z.leb_gt in H
  | H : (_ <? _)%Z = true |- _ => apply Z.ltb_lt in H
  | H : (_ <? _)%Z = false |- _ => apply Z.ltb_ge in H
  end.

(** Close a decidable goal about concrete data by evaluation. *)
Ltac by_decide := apply (bool_decide_unpack _); vm_compute; exact I.

(** Close an equation between closed terms by evaluating both sides. *)
Ltac by_eval :=
  match goal with |- ?a = ?b => exact (eq_refl b <: a = b) end.

(** ** Lemmas on lists, options and results shared by the components *)

Lemma Ok_inj {A E} (a b : A) : @Ok A E a = Ok b -> a = b.
Proof. by intros [=]. Qed.

Lemma rbind_ok {A B E} (m : result A E) (k : A -> result B E) b :
  rbind m k = Ok b <-> exists a, m = Ok a /\ k a = Ok b.
Proof. destruct m; simpl; naive_solver. Qed.

Lemma rmap_ok {A B E} (f : A -> B) (m : result A E) b :
  rmap f m = Ok b <-> exists a, m = Ok a /\ f a = b.
Proof. destruct m; simpl; naive_solver. Qed.

Lemma rmap_list_ok {A B E} (f : A -> result B E) l l' :
  rmap_list f l = Ok l' <-> Forall2 (fun x y => f x = Ok y) l l'.
Proof.
  revert l'. induction l as [|x l IH]; intros l'; simpl.
  - split; [by intros [= <-] | by intros ->%Forall2_nil_inv_l].
  - rewrite rbind_ok. setoid_rewrite rmap_ok. setoid_rewrite IH. split.
    + intros (y & Hy & ys & Hys & <-). by constructor.
    + intros (y & ys & Hy & Hys & ->)%Forall2_cons_inv_l. eauto.
Qed.

Lemma length_filter_le {A} (P : A -> Prop) `{!forall x, Decision (P x)} (l : list A) :
  (length (filter P l) <= length l)%nat.
Proof. apply length_filter. Qed.

Lemma head_app_ne {A} (l k : list A) : l <> [] -> head (l ++ k) = head l.
Proof. by destruct l. Qed.

Lemma Forall_last {A} (P : A -> Prop) l x : Forall P l -> last l = Some x -> P x.
Proof. rewrite Forall_forall. intros H Hl. apply H, last_Some_elem_of, Hl. Qed.

Lemma list_filter_all {A} (P : A -> Prop) `{!forall x, Decision (P x)} (l : list A) :
  Forall P l -> filter P l = l.
Proof. induction 1; [done|]. rewrite filter_cons_True by done. congruence. Qed.

(** In a list without duplicate keys a key has one value. *)
Lemma NoDup_fst_unique {A B} (l : list (A * B)) k v w :
  NoDup l.*1 -> (k, v) ∈ l -> (k, w) ∈ l -> v = w.
Proof.
  induction l as [|[k' v'] l IH]; [by intros _ ?%not_elem_of_nil|].
  cbn. intros [Hk Hnd]%NoDup_cons Hv Hw.
  assert (forall u, (k', u) ∉ l) as Hno.
  { intros u Hu. apply Hk, list_elem_of_fmap. by exists (k', u). }
  apply elem_of_cons in Hv as [Hv|Hv], Hw as [Hw|Hw]; simplify_eq; [done|..|eauto];
    exfalso; by eapply Hno.
Qed.

Lemma Forall2_elem_l {A B} (P : A -> B -> Prop) l k x :
  Forall2 P l k -> x ∈ l -> exists y, y ∈ k /\ P x y.
Proof.
  intros HF [i Hi]%list_elem_of_lookup.
  destruct (Forall2_lookup_l _ _ _ _ _ HF Hi) as (y & Hy & HP).
  eauto using list_elem_of_lookup_2.
Qed.

Lemma Forall2_elem_r {A B} (P : A -> B -> Prop) l k y :
  Forall2 P l k -> y ∈ k -> exists x, x ∈ l /\ P x y.
Proof.
  intros HF [i Hi]%list_elem_of_lookup.
  destruct (Forall2_lookup_r _ _ _ _ _ HF Hi) as (x & Hx & HP).
  eauto using list_elem_of_lookup_2.
Qed.

Lemma list_elem_of_join_map {A B} (f : A -> list B) l x y :
  x ∈ l -> y ∈ f x -> y ∈ concat (map f l).
Proof.
  intros Hx Hy. apply list_elem_of_In, in_concat. exists (f x).
  split; [apply in_map|]; by apply list_elem_of_In.
Qed.

Lemma insert_by_perm {A} (le : A -> A -> bool) x l : insert_by le x l ≡ₚ x :: l.
Proof. induction l as [|y l IH]; simpl; [done|]. case_match; [done|]. rewrite IH. constructor. Qed.

Lemma sort_by_perm {A} (le : A -> A -> bool) l : sort_by le l ≡ₚ l.
Proof. induction l as [|x l IH]; simpl; [done|]. by rewrite insert_by_perm, IH. Qed.

Lemma sort_by_sorted {A} (le : A -> A -> bool) (R : A -> A -> Prop) `{!Transitive R} l :
  (forall x y, le x y = true -> R x y) -> (forall x y, le x y = false -> R y x) ->
  StronglySorted R (sort_by le l).
Proof.
  intros Ht Hf. induction l as [|x l IH]; simpl; [constructor|].
  induction IH as [|y k Hs IH HF]; simpl; [repeat constructor|].
  destruct (le x y) eqn:E.
  - constructor; [by constructor|]. constructor; [auto|].
    eapply Forall_impl; [done|]. intros z. apply transitivity. auto.
  - constructor; [done|]. rewrite insert_by_perm. constructor; auto.
Qed.

(** Loop invariant: what holds at the start and survives a step holds at the
    end; the invariant may speak of the part already done. *)
Lemma rfold_inv {A S E} (f : S -> A -> result S E) (I : list A -> S -> Prop) l s s' :
  I [] s ->
  (forall pre x post t t', l = pre ++ x :: post -> I pre t -> f t x = Ok t' -> I (pre ++ [x]) t') ->
  rfold f l s = Ok s' -> I l s'.
Proof.
  intros H0 Hstep. enough (forall pre t, I pre t -> forall post, l = pre ++ post ->
    rfold f post t = Ok s' -> I l s') as Hall by (intros; by eapply (Hall [] s H0 l)).
  intros pre t Hpre post. revert pre t Hpre. induction post as [|x post IH]; intros pre t Hpre Hl.
  - rewrite app_nil_r in Hl. subst pre. by intros [= <-].
  - cbn [rfold]. intros (t' & Ht & Hrest)%rbind_ok.
    eapply (IH (pre ++ [x]) t'); [by eapply Hstep| |done]. by rewrite <- app_assoc.
Qed.

Lemma StronglySorted_on {A B} (f : A -> B) (R : B -> B -> Prop) l :
  StronglySorted (fun x y => R (f x) (f y)) l <-> StronglySorted R (f <$> l).
Proof.
  induction l as [|x l IH]; cbn; [by split; constructor|].
  split; intros Hs; inversion Hs as [|? ? Hs' HF]; subst; constructor;
    [by apply IH|by rewrite Forall_fmap|by apply IH|by rewrite Forall_fmap in HF].
Qed.

(** ** [List.filter] and [concat] *)

Lemma elem_of_filter_list {A} (p : A -> bool) (l : list A) x : x ∈ List.filter p l <-> x ∈ l /\ p x = true.
Proof. by rewrite !list_elem_of_In, filter_In. Qed.

Lemma filter_list_sublist {A} (p : A -> bool) l : List.filter p l `sublist_of` l.
Proof. induction l as [|x l IH]; cbn; [constructor|]. destruct (p x); by constructor. Qed.

Lemma elem_of_concat_map {A B} (f : A -> list B) (l : list A) y : y ∈ concat (map f l) <-> exists x, x ∈ l /\ y ∈ f x.
Proof. rewrite list_elem_of_In, in_concat. setoid_rewrite in_map_iff. setoid_rewrite list_elem_of_In. naive_solver. Qed.

Lemma concat_map_nil {A B} (f : A -> list B) (l : list A) : concat (map f l) = [] <-> forall x, x ∈ l -> f x = [].
Proof.
  split.
  - intros H x Hx. destruct (f x) as [|y ys] eqn:E; [done|]. exfalso. apply (not_elem_of_nil y).
    rewrite <- H, elem_of_concat_map. exists x. split; [done|]. rewrite E. by left.
  - intros H. destruct (concat (map f l)) as [|y ys] eqn:E; [done|]. exfalso.
    assert (y ∈ concat (map f l)) as (x & Hx & Hy)%elem_of_concat_map by (rewrite E; by left).
    rewrite (H x Hx) in Hy. by apply not_elem_of_nil in Hy.
Qed.
