(* ===== verification/Str.v ===== *)
(** * Rust strings and slices

    A Rust [String], [&str] or byte slice is the list of its bytes; the
    functions below are the parts of [std::str] the program calls, on those
    bytes.  [utf8_valid] is the check of [str::from_utf8]; a value of type
    [&str] satisfies it.  Operations on ASCII separators, prefixes and
    suffixes act on bytes exactly as they do on characters, since no byte of
    a multi-byte character is an ASCII byte. *)
From stdpp Require Import prelude strings list.
From Stdlib Require Import ZArith Ascii Lia.
From Stdlib Require String.
From S2P Require Import Prelude.

Abbreviation str := (list ascii).

(** A string literal of the source. *)
Definition lit (x : string) : str := String.list_ascii_of_string x.

Definition slash : ascii := "/"%char.
Definition dot : ascii := "."%char.
Definition nl : ascii := "010"%char.
Definition cr : ascii := "013"%char.

(** ** Bytes *)

Definition byte (c : ascii) : N := N_of_ascii c.
Definition in_range (lo hi : N) (c : ascii) : bool := ((lo <=? byte c) && (byte c <=? hi))%N.
Definition is_ascii_digit (c : ascii) : bool := in_range 48 57 c.
Definition is_ascii_lowercase (c : ascii) : bool := in_range 97 122 c.
Definition is_ascii_uppercase (c : ascii) : bool := in_range 65 90 c.
Definition is_ascii_alphabetic (c : ascii) : bool := is_ascii_lowercase c || is_ascii_uppercase c.
Definition is_ascii_alphanumeric (c : ascii) : bool := is_ascii_alphabetic c || is_ascii_digit c.
Definition to_ascii_lowercase (c : ascii) : ascii :=
  if is_ascii_uppercase c then ascii_of_N (byte c + 32) else c.
Definition eq_ignore_ascii_case (s t : str) : bool :=
  bool_decide (map to_ascii_lowercase s = map to_ascii_lowercase t).

(** ** UTF-8 *)

(** A continuation byte: not the first byte of a character. *)
Definition is_cont (c : ascii) : bool := in_range 128 191 c.

(** The admissible ranges of the bytes that must follow a first byte. *)
Definition utf8_lead (c : ascii) : option (list (N * N)) :=
  let b := byte c in
  let k := (128, 191)%N in
  (if b <=? 127 then Some []
   else if (194 <=? b) && (b <=? 223) then Some [k]
   else if b =? 224 then Some [(160, 191); k]
   else if b =? 237 then Some [(128, 159); k]
   else if (225 <=? b) && (b <=? 239) then Some [k; k]
   else if b =? 240 then Some [(144, 191); k; k]
   else if (241 <=? b) && (b <=? 243) then Some [k; k; k]
   else if b =? 244 then Some [(128, 143); k; k]
   else None)%N.

Fixpoint utf8_run (pending : list (N * N)) (s : str) : bool :=
  match s with
  | [] => match pending with [] => true | _ => false end
  | c :: s' =>
      match pending with
      | (lo, hi) :: p => in_range lo hi c && utf8_run p s'
      | [] => match utf8_lead c with
              | Some p => utf8_run p s'
              | None => false
              end
      end
  end.

(** [std::str::from_utf8(bytes).is_ok()]. *)
Definition utf8_valid (s : str) : bool := utf8_run [] s.

(** U+FFFD. *)
Definition replacement : str := [ascii_of_N 239; ascii_of_N 191; ascii_of_N 189].

(** [String::from_utf8_lossy]: each maximal ill-formed prefix becomes U+FFFD. *)
Fixpoint lossy_run (acc : str) (pending : list (N * N)) (s : str) : str :=
  let start (c : ascii) (s' : str) :=
    match utf8_lead c with
    | Some [] => c :: lossy_run [] [] s'
    | Some p => lossy_run [c] p s'
    | None => replacement ++ lossy_run [] [] s'
    end in
  match s with
  | [] => match pending with [] => [] | _ => replacement end
  | c :: s' =>
      match pending with
      | [] => start c s'
      | (lo, hi) :: p =>
          if in_range lo hi c then
            match p with
            | [] => acc ++ c :: lossy_run [] [] s'
            | _ => lossy_run (acc ++ [c]) p s'
            end
          else replacement ++ start c s'
      end
  end.
Definition to_string_lossy (s : str) : str := lossy_run [] [] s.

(** [s.chars().count()]. *)
Definition char_count (s : str) : nat := length (List.filter (fun c => negb (is_cont c)) s).

(** [s.chars().take(n).collect()]. *)
Fixpoint take_chars (n : nat) (s : str) : str :=
  match s with
  | [] => []
  | c :: s' =>
      if is_cont c then c :: take_chars n s'
      else match n with
           | O => []
           | S n' => c :: take_chars n' s'
           end
  end.

(** [s.is_char_boundary(i)]. *)
Definition is_char_boundary (s : str) (i : nat) : bool :=
  match i with
  | O => true
  | _ => match s !! i with
         | Some c => negb (is_cont c)
         | None => Nat.eqb i (length s)
         end
  end.

(** [s.get(i..j)]. *)
Definition str_get (s : str) (i j : nat) : option str :=
  if (Nat.leb i j && is_char_boundary s i && is_char_boundary s j)%bool
  then Some (take (j - i) (drop i s)) else None.

(** [&s[..i]] and [&s[i..]]: a panic off a character boundary. *)
Definition slice_to (s : str) (i : nat) : outcome str :=
  if is_char_boundary s i then Ret (take i s) else Panic.
Definition slice_from (s : str) (i : nat) : outcome str :=
  if is_char_boundary s i then Ret (drop i s) else Panic.

(** ** Prefixes, suffixes, splitting *)

Fixpoint strip_prefix (p s : str) : option str :=
  match p, s with
  | [], _ => Some s
  | a :: p', b :: s' => if decide (a = b) then strip_prefix p' s' else None
  | _ :: _, [] => None
  end.
Definition starts_with (p s : str) : bool :=
  match strip_prefix p s with Some _ => true | None => false end.
Definition strip_suffix (p s : str) : option str :=
  reverse <$> strip_prefix (reverse p) (reverse s).
Definition ends_with (p s : str) : bool :=
  match strip_suffix p s with Some _ => true | None => false end.

(** [s.contains(p)] for a string pattern. *)
Fixpoint contains (p s : str) : bool :=
  starts_with p s || match s with [] => false | _ :: s' => contains p s' end.

Definition contains_char (c : ascii) (s : str) : bool := bool_decide (c ∈ s).

(** [s.split(c)]: never empty. *)
Fixpoint split_on (c : ascii) (s : str) : list str :=
  match s with
  | [] => [[]]
  | x :: s' =>
      if decide (x = c) then [] :: split_on c s'
      else match split_on c s' with
           | [] => [[x]]
           | p :: ps => (x :: p) :: ps
           end
  end.

(** [s.split_inclusive(c)]: the separator stays with the segment it ends. *)
Fixpoint split_inclusive (c : ascii) (s : str) : list str :=
  match s with
  | [] => []
  | x :: s' =>
      if decide (x = c) then [x] :: split_inclusive c s'
      else match split_inclusive c s' with
           | [] => [[x]]
           | p :: ps => (x :: p) :: ps
           end
  end.

(** [s.lines()]: the line terminator, [\n] or [\r\n], is dropped. *)
Definition lines (s : str) : list str :=
  map (fun l => match strip_suffix [nl] l with
                | Some l' => default l' (strip_suffix [cr] l')
                | None => l
                end) (split_inclusive nl s).

Fixpoint split_once (c : ascii) (s : str) : option (str * str) :=
  match s with
  | [] => None
  | x :: s' =>
      if decide (x = c) then Some ([], s')
      else match split_once c s' with
           | Some (a, b) => Some (x :: a, b)
           | None => None
           end
  end.

Fixpoint rsplit_once (c : ascii) (s : str) : option (str * str) :=
  match s with
  | [] => None
  | x :: s' =>
      match rsplit_once c s' with
      | Some (a, b) => Some (x :: a, b)
      | None => if decide (x = c) then Some ([], s') else None
      end
  end.

(** [parts.join(sep)]. *)
Fixpoint join (sep : str) (parts : list str) : str :=
  match parts with
  | [] => []
  | [p] => p
  | p :: ps => p ++ sep ++ join sep ps
  end.

(** [s.replace(a, b)] for single characters. *)
Definition replace_char (a b : ascii) (s : str) : str :=
  map (fun c => if decide (c = a) then b else c) s.

(** [s.trim_start_matches(set)] and [s.trim_end_matches(set)]. *)
Fixpoint trim_start_matches (p : ascii -> bool) (s : str) : str :=
  match s with
  | [] => []
  | c :: s' => if p c then trim_start_matches p s' else s
  end.
Definition trim_end_matches (p : ascii -> bool) (s : str) : str :=
  reverse (trim_start_matches p (reverse s)).

(** ** Unicode white space ([char::is_whitespace]) *)

Definition ws1 (c : ascii) : bool := in_range 9 13 c || in_range 32 32 c.
Definition ws2 (a b : ascii) : bool :=
  in_range 194 194 a && (in_range 133 133 b || in_range 160 160 b).
Definition ws3 (a b c : ascii) : bool :=
  (in_range 225 225 a && in_range 154 154 b && in_range 128 128 c)
  || (in_range 226 226 a && in_range 128 128 b
      && (in_range 128 138 c || in_range 168 169 c || in_range 175 175 c))
  || (in_range 226 226 a && in_range 129 129 b && in_range 159 159 c)
  || (in_range 227 227 a && in_range 128 128 b && in_range 128 128 c).

(** [trim_start]; with [rev = true] the bytes of each character are read
    last to first, which gives [trim_end] on the reversed string. *)
Fixpoint trim_go (rev : bool) (s : str) : str :=
  match s with
  | [] => []
  | c0 :: r0 =>
      if ws1 c0 then trim_go rev r0
      else match r0 with
           | [] => s
           | c1 :: r1 =>
               if (if rev then ws2 c1 c0 else ws2 c0 c1) then trim_go rev r1
               else match r1 with
                    | [] => s
                    | c2 :: r2 =>
                        if (if rev then ws3 c2 c1 c0 else ws3 c0 c1 c2)
                        then trim_go rev r2 else s
                    end
           end
  end.
Definition trim_start (s : str) : str := trim_go false s.
Definition trim_end (s : str) : str := reverse (trim_go true (reverse s)).
Definition trim (s : str) : str := trim_end (trim_start s).

(** [split_whitespace]: the words between runs of white space. *)
Fixpoint words_go (word : str) (s : str) : list str :=
  let flush := match word with [] => [] | _ => [word] end in
  match s with
  | [] => flush
  | c0 :: r0 =>
      if ws1 c0 then flush ++ words_go [] r0
      else match r0 with
           | [] => words_go (word ++ [c0]) r0
           | c1 :: r1 =>
               if ws2 c0 c1 then flush ++ words_go [] r1
               else match r1 with
                    | [] => words_go (word ++ [c0]) r0
                    | c2 :: r2 =>
                        if ws3 c0 c1 c2 then flush ++ words_go [] r2
                        else words_go (word ++ [c0]) r0
                    end
           end
  end.
Definition split_whitespace (s : str) : list str := words_go [] s.

(** ** Decimal numbers *)

Definition digit_value (c : ascii) : option Z :=
  if is_ascii_digit c then Some (Z.of_N (byte c) - 48)%Z else None.

Fixpoint digits_value (acc : Z) (s : str) : option Z :=
  match s with
  | [] => Some acc
  | c :: s' => d ← digit_value c; digits_value (acc * 10 + d)%Z s'
  end.

Definition i64_min : Z := (-(2 ^ 63))%Z.
Definition i64_max : Z := (2 ^ 63 - 1)%Z.
Definition u32_max : Z := (2 ^ 32 - 1)%Z.

(** [s.parse::<i64>().ok()]: an optional sign, then one or more digits. *)
Definition parse_i64 (s : str) : option Z :=
  let '(sign, ds) :=
    match s with
    | c :: r => if decide (c = "+"%char) then (1%Z, r)
                else if decide (c = "-"%char) then ((-1)%Z, r) else (1%Z, s)
    | [] => (1%Z, [])
    end in
  match ds with
  | [] => None
  | _ => v ← digits_value 0 ds;
         let z := (sign * v)%Z in
         if ((i64_min <=? z) && (z <=? i64_max))%Z then Some z else None
  end.

(** [s.parse::<u32>().ok()]: a leading [+] is accepted, a [-] is not a digit. *)
Definition parse_u32 (s : str) : option Z :=
  let ds := match s with
            | c :: r => if decide (c = "+"%char) then r else s
            | [] => []
            end in
  match ds with
  | [] => None
  | _ => v ← digits_value 0 ds; if (v <=? u32_max)%Z then Some v else None
  end.

Definition digit_char (d : Z) : ascii := ascii_of_N (Z.to_N (d + 48)).

(** Decimal digits of a natural number, most significant first. *)
Fixpoint show_go (fuel : nat) (n : Z) (acc : str) : str :=
  match fuel with
  | O => acc
  | S f => let acc' := digit_char (n mod 10) :: acc in
           if (n <? 10)%Z then acc' else show_go f (n / 10)%Z acc'
  end.
Definition show_digits (n : Z) : str := show_go (S (Z.to_nat (Z.log2 n))) n [].

(** [format!("{z}")]. *)
Definition show_Z (z : Z) : str :=
  if (z <? 0)%Z then "-"%char :: show_digits (- z) else show_digits z.

(** [format!("{n:0w$}")] for a non-negative number. *)
Definition show_pad (w : nat) (n : Z) : str :=
  let ds := show_digits n in replicate (w - length ds) "0"%char ++ ds.

(** ** Byte order of strings: [str: Ord] *)

Fixpoint str_cmp (s t : str) : comparison :=
  match s, t with
  | [], [] => Eq
  | [], _ :: _ => Lt
  | _ :: _, [] => Gt
  | a :: s', b :: t' =>
      match N.compare (byte a) (byte b) with
      | Eq => str_cmp s' t'
      | c => c
      end
  end.

(** * Laws of the string functions *)

(** ** Prefixes and suffixes *)

Lemma strip_prefix_Some p s r : strip_prefix p s = Some r <-> s = p ++ r.
Proof.
  revert s. induction p as [|a p IH]; intros s; simpl; [naive_solver|].
  destruct s as [|b s]; [naive_solver|]. case_decide; subst; [|naive_solver].
  rewrite IH. naive_solver.
Qed.

Lemma strip_prefix_app p r : strip_prefix p (p ++ r) = Some r.
Proof. by apply strip_prefix_Some. Qed.

Lemma strip_suffix_Some p s r : strip_suffix p s = Some r <-> s = r ++ p.
Proof.
  unfold strip_suffix. rewrite fmap_Some. setoid_rewrite strip_prefix_Some. split.
  - intros (x & Hx & ->). apply (f_equal reverse) in Hx.
    by rewrite reverse_involutive, reverse_app, reverse_involutive in Hx.
  - intros ->. exists (reverse r). by rewrite reverse_app, reverse_involutive.
Qed.

Lemma strip_suffix_app p r : strip_suffix p (r ++ p) = Some r.
Proof. by apply strip_suffix_Some. Qed.

Lemma strip_suffix_None p s : strip_suffix p s = None <-> ~ exists r, s = r ++ p.
Proof.
  split.
  - intros H (r & ->). by rewrite strip_suffix_app in H.
  - intros H. destruct (strip_suffix p s) as [r|] eqn:E; [|done].
    apply strip_suffix_Some in E. naive_solver.
Qed.

Lemma starts_with_spec p s : starts_with p s = true <-> exists r, s = p ++ r.
Proof.
  unfold starts_with. split.
  - destruct (strip_prefix p s) as [r|] eqn:E; [|done].
    apply strip_prefix_Some in E. eauto.
  - intros (r & ->). by rewrite strip_prefix_app.
Qed.

Lemma ends_with_spec p s : ends_with p s = true <-> exists r, s = r ++ p.
Proof.
  unfold ends_with. split.
  - destruct (strip_suffix p s) as [r|] eqn:E; [|done].
    apply strip_suffix_Some in E. eauto.
  - intros (r & ->). by rewrite strip_suffix_app.
Qed.

(** ** Splitting and joining *)

Lemma split_on_not_nil c s : split_on c s <> [].
Proof. destruct s; simpl; [done|]. case_decide; [done|]. by destruct (split_on c s). Qed.

Lemma split_on_head_notin c s p ps : split_on c s = p :: ps -> c ∉ p.
Proof.
  revert p ps. induction s as [|x s IH]; intros p ps; simpl.
  - intros [= <- <-]. by apply not_elem_of_nil.
  - case_decide; [intros [= <- <-]; by apply not_elem_of_nil|].
    destruct (split_on c s) as [|q qs] eqn:E; [by apply split_on_not_nil in E|].
    intros [= <- <-]. apply not_elem_of_cons. split; [congruence|eauto].
Qed.

Lemma split_on_notin c s : Forall (fun p => c ∉ p) (split_on c s).
Proof.
  induction s as [|x s IH]; simpl; [repeat constructor; by apply not_elem_of_nil|].
  case_decide; [constructor; [by apply not_elem_of_nil|done]|].
  destruct (split_on c s) as [|q qs] eqn:E; [by apply split_on_not_nil in E|].
  inversion IH; subst. constructor; [|done]. apply not_elem_of_cons. split; congruence.
Qed.

Lemma join_cons2 sep p q ps : join sep (p :: q :: ps) = p ++ sep ++ join sep (q :: ps).
Proof. done. Qed.

Lemma join_cons_ne sep p ps : ps <> [] -> join sep (p :: ps) = p ++ sep ++ join sep ps.
Proof. by destruct ps. Qed.

Lemma join_snoc sep ps p : ps <> [] -> join sep (ps ++ [p]) = join sep ps ++ sep ++ p.
Proof.
  induction ps as [|q ps IH]; intros Hne; [done|].
  destruct ps as [|r ps]; [done|].
  rewrite join_cons2. cbn [app]. rewrite join_cons2.
  change (r :: ps ++ [p]) with ((r :: ps) ++ [p]). rewrite IH by done.
  by rewrite <- !app_assoc.
Qed.

Lemma join_split_on c s : join [c] (split_on c s) = s.
Proof.
  induction s as [|x s IH]; [done|]. simpl. case_decide as Hx.
  - rewrite join_cons_ne by apply split_on_not_nil. subst. by rewrite IH.
  - destruct (split_on c s) as [|q qs] eqn:E; [by apply split_on_not_nil in E|].
    destruct qs; simpl in *; by rewrite <- IH.
Qed.

Lemma split_on_plain c p : c ∉ p -> split_on c p = [p].
Proof.
  induction p as [|x p IH]; [done|]. intros [Hx Hp]%not_elem_of_cons. simpl.
  rewrite decide_False by congruence. by rewrite IH.
Qed.

Lemma split_on_app c p s : c ∉ p -> split_on c (p ++ c :: s) = p :: split_on c s.
Proof.
  induction p as [|x p IH]; intros Hp; simpl; [by rewrite decide_True|].
  apply not_elem_of_cons in Hp as [Hx Hp]. rewrite decide_False by congruence.
  by rewrite IH.
Qed.

Lemma split_on_join c ps :
  ps <> [] -> Forall (fun p => c ∉ p) ps -> split_on c (join [c] ps) = ps.
Proof.
  induction ps as [|p ps IH]; intros Hne HF; [done|].
  inversion HF; subst. destruct ps as [|q ps]; [by apply split_on_plain|].
  rewrite join_cons2. cbn [app]. rewrite split_on_app by done. by rewrite IH.
Qed.

Lemma split_inclusive_concat c s : concat (split_inclusive c s) = s.
Proof.
  induction s as [|x s IH]; [done|]. simpl. case_decide; [by rewrite concat_cons, IH|].
  destruct (split_inclusive c s) as [|q qs]; simpl in *; by rewrite <- IH.
Qed.

Lemma split_once_Some c s a b : split_once c s = Some (a, b) <-> s = a ++ c :: b /\ c ∉ a.
Proof.
  revert a b. induction s as [|x s IH]; intros a b; simpl.
  { split; [done|]. by intros [[]%app_cons_not_nil _]. }
  case_decide; subst.
  - split; [intros [= <- <-]; split; [done|by apply not_elem_of_nil]|].
    intros [Hs Ha]. destruct a as [|y a]; simplify_eq/=; [done|].
    by apply not_elem_of_cons in Ha as [? _].
  - destruct (split_once c s) as [[a' b']|] eqn:E.
    + pose proof (proj1 (IH a' b') eq_refl) as [-> Ha']. split.
      * intros [= <- <-]. split; [done|]. apply not_elem_of_cons. naive_solver.
      * intros [Hs Ha]. destruct a as [|y a]; simplify_eq/=.
        apply not_elem_of_cons in Ha as [_ Ha].
        assert (Some (a', b') = Some (a, b)) as [= -> ->]; [|done].
        by apply IH.
    + split; [done|]. intros [Hs Ha]. destruct a as [|y a]; simplify_eq/=.
      apply not_elem_of_cons in Ha as [_ Ha].
      assert (None = Some (a, b)) as [=]. by apply IH.
Qed.

Lemma split_once_None c s : split_once c s = None <-> c ∉ s.
Proof.
  induction s as [|x s IH]; simpl; [split; [intros _; apply not_elem_of_nil|done]|].
  rewrite not_elem_of_cons. case_decide; subst; [naive_solver|].
  destruct (split_once c s) as [[??]|]; naive_solver.
Qed.

Lemma rsplit_once_None c s : rsplit_once c s = None <-> c ∉ s.
Proof.
  induction s as [|x s IH]; simpl; [split; [intros _; apply not_elem_of_nil|done]|].
  rewrite not_elem_of_cons. destruct (rsplit_once c s) as [[??]|]; [naive_solver|].
  case_decide; naive_solver.
Qed.

Lemma rsplit_once_Some c s a b : rsplit_once c s = Some (a, b) <-> s = a ++ c :: b /\ c ∉ b.
Proof.
  revert a b. induction s as [|x s IH]; intros a b; simpl.
  { split; [done|]. by intros [[]%app_cons_not_nil _]. }
  destruct (rsplit_once c s) as [[a' b']|] eqn:E.
  - pose proof (proj1 (IH a' b') eq_refl) as [-> Hb']. split.
    + by intros [= <- <-].
    + intros [Hs Hb]. destruct a as [|y a]; simplify_eq/=.
      * destruct Hb. set_solver.
      * assert (Some (a', b') = Some (a, b)) as [= -> ->]; [|done]. by apply IH.
  - apply rsplit_once_None in E. case_decide; subst.
    + split; [by intros [= <- <-]|]. intros [Hs Hb].
      destruct a as [|y a]; simplify_eq/=; [done|]. set_solver.
    + split; [done|]. intros [Hs Hb]. destruct a as [|y a]; simplify_eq/=. set_solver.
Qed.

Lemma rsplit_once_app c a b : c ∉ b -> rsplit_once c (a ++ c :: b) = Some (a, b).
Proof. intros. by apply rsplit_once_Some. Qed.

(** ** Trimming *)

Lemma trim_start_matches_spec p s :
  exists w, s = w ++ trim_start_matches p s /\ Forall (fun c => p c = true) w.
Proof.
  induction s as [|c s (w & Hw & HF)]; [by exists []|]. simpl.
  destruct (p c) eqn:E; [|by exists []]. exists (c :: w). split; [by rewrite Hw at 1|auto].
Qed.

Lemma trim_end_matches_spec p s :
  exists w, s = trim_end_matches p s ++ w /\ Forall (fun c => p c = true) w.
Proof.
  destruct (trim_start_matches_spec p (reverse s)) as (w & Hw & HF).
  exists (reverse w). split; [|by apply Forall_reverse].
  unfold trim_end_matches. by rewrite <- reverse_app, <- Hw, reverse_involutive.
Qed.

Lemma trim_go_suffix rev s : exists w, s = w ++ trim_go rev s.
Proof.
  remember (length s) as n eqn:Hn. revert s Hn.
  induction n as [n IH] using (well_founded_induction lt_wf). intros s ->.
  destruct s as [|c0 r0]; [by exists []|]. simpl.
  destruct (ws1 c0).
  { destruct (IH (length r0)) with r0 as (w & Hw); [simpl; lia|done|].
    exists (c0 :: w). by rewrite Hw at 1. }
  destruct r0 as [|c1 r1]; [by exists []|].
  destruct (if rev then ws2 c1 c0 else ws2 c0 c1).
  { destruct (IH (length r1)) with r1 as (w & Hw); [simpl; lia|done|].
    exists (c0 :: c1 :: w). by rewrite Hw at 1. }
  destruct r1 as [|c2 r2]; [by exists []|].
  destruct (if rev then ws3 c2 c1 c0 else ws3 c0 c1 c2); [|by exists []].
  destruct (IH (length r2)) with r2 as (w & Hw); [simpl; lia|done|].
  exists (c0 :: c1 :: c2 :: w). by rewrite Hw at 1.
Qed.

Lemma trim_start_suffix s : exists w, s = w ++ trim_start s.
Proof. apply trim_go_suffix. Qed.

Lemma trim_end_prefix s : exists w, s = trim_end s ++ w.
Proof.
  destruct (trim_go_suffix true (reverse s)) as (w & Hw).
  exists (reverse w). unfold trim_end. by rewrite <- reverse_app, <- Hw, reverse_involutive.
Qed.

Lemma trim_infix s : exists a b, s = a ++ trim s ++ b.
Proof.
  destruct (trim_start_suffix s) as (a & Ha).
  destruct (trim_end_prefix (trim_start s)) as (b & Hb).
  exists a, b. unfold trim. by rewrite <- Hb.
Qed.

(** The white space check of [trim_go] on the first character. *)
Definition ws_head (rev : bool) (s : str) : bool :=
  match s with
  | c0 :: r0 =>
      ws1 c0 || match r0 with
                | c1 :: r1 =>
                    (if rev then ws2 c1 c0 else ws2 c0 c1)
                    || match r1 with
                       | c2 :: _ => if rev then ws3 c2 c1 c0 else ws3 c0 c1 c2
                       | [] => false
                       end
                | [] => false
                end
  | [] => false
  end.

Lemma trim_go_fix rev s : ws_head rev s = false -> trim_go rev s = s.
Proof.
  destruct s as [|c0 [|c1 [|c2 r]]]; simpl; intros H; bool_prop; repeat case_match; try done; congruence.
Qed.

Lemma trim_go_head rev s : ws_head rev (trim_go rev s) = false.
Proof.
  remember (length s) as n eqn:Hn. revert s Hn.
  induction n as [n IH] using (well_founded_induction lt_wf). intros s ->.
  destruct s as [|c0 r0]; [done|]. simpl.
  destruct (ws1 c0) eqn:E1; [eapply IH; [|done]; simpl; lia|].
  destruct r0 as [|c1 r1]; [simpl; by rewrite E1|].
  destruct (if rev then ws2 c1 c0 else ws2 c0 c1) eqn:E2; [eapply IH; [|done]; simpl; lia|].
  destruct r1 as [|c2 r2]; [simpl; by rewrite E1, E2|].
  destruct (if rev then ws3 c2 c1 c0 else ws3 c0 c1 c2) eqn:E3; [eapply IH; [|done]; simpl; lia|].
  simpl. by rewrite E1, E2, E3.
Qed.

(** A prefix of a string that starts with no white space starts with none. *)
Lemma ws_head_app rev s t : ws_head rev (s ++ t) = false -> ws_head rev s = false.
Proof. destruct s as [|c0 [|c1 [|c2 s]]]; simpl; intros H; bool_prop; by repeat (rewrite orb_false_r || f_equal || match goal with H : _ = false |- _ => rewrite H; clear H end). Qed.

Lemma trim_idem s : trim (trim s) = trim s.
Proof.
  destruct (trim_end_prefix (trim_start s)) as (w & Hw).
  assert (trim_start (trim s) = trim s) as Hs.
  { apply trim_go_fix. unfold trim. eapply ws_head_app. rewrite <- Hw. apply trim_go_head. }
  unfold trim at 1. rewrite Hs. unfold trim, trim_end. rewrite reverse_involutive.
  rewrite trim_go_fix; [done|]. apply trim_go_head.
Qed.

Lemma trim_sub c s : c ∈ trim s -> c ∈ s.
Proof. destruct (trim_infix s) as (a & b & H). rewrite H at 2. set_solver. Qed.

(** An ASCII character that is not white space is not trimmed. *)
Lemma ws_head_ascii rev c s : (byte c <= 127)%N -> ws1 c = false -> ws_head rev (c :: s) = false.
Proof.
  intros Hc H1. assert (forall lo hi, (128 <= lo)%N -> in_range lo hi c = false) as Hr.
  { intros lo hi Hlo. unfold in_range. by rewrite (proj2 (N.leb_gt _ _)) by lia. }
  unfold ws_head. rewrite H1. cbn [orb]. destruct s as [|c1 s]; [done|].
  unfold ws2, ws3. destruct rev, s as [|c2 s]; rewrite !Hr by done; cbn;
    rewrite ?andb_false_r; cbn; rewrite ?andb_false_r; done.
Qed.

Lemma trim_plain c s e :
  (byte c <= 127)%N -> ws1 c = false -> (byte e <= 127)%N -> ws1 e = false ->
  trim (c :: s ++ [e]) = c :: s ++ [e].
Proof.
  intros Hc Hc1 He He1. unfold trim, trim_start.
  rewrite trim_go_fix by (by apply ws_head_ascii). unfold trim_end.
  change (c :: s ++ [e]) with ((c :: s) ++ [e]). rewrite reverse_snoc.
  rewrite trim_go_fix by (by apply ws_head_ascii). by rewrite reverse_cons, reverse_involutive.
Qed.

(** A text of visible ASCII characters is not trimmed. *)
Definition visible (c : ascii) : bool := (byte c <=? 127)%N && negb (ws1 c).

Lemma trim_visible s : forallb visible s = true -> trim s = s.
Proof.
  intros H. assert (forall rev t, forallb visible t = true -> ws_head rev t = false) as Hw.
  { intros rev [|c t]; [done|]. cbn [forallb]. unfold visible at 1. rewrite !andb_true_iff, negb_true_iff, N.leb_le. intros [[H1 H2] _].
    by apply ws_head_ascii. }
  unfold trim, trim_start, trim_end. rewrite (trim_go_fix false s) by by apply Hw.
  rewrite trim_go_fix; [apply reverse_involutive|]. apply Hw. rewrite forallb_forall in *.
  intros c Hc. apply H. rewrite <- list_elem_of_In in *. by apply elem_of_reverse.
Qed.

(** ** UTF-8 validity across ASCII separators *)

Definition above_ascii (p : list (N * N)) : Prop := Forall (fun r => (128 <= r.1)%N) p.

Lemma utf8_lead_above c p : utf8_lead c = Some p -> above_ascii p.
Proof.
  unfold utf8_lead, above_ascii. intros H.
  repeat case_match; simplify_eq/=; repeat constructor; simpl; lia.
Qed.

Lemma utf8_lead_ascii c : (byte c <= 127)%N -> utf8_lead c = Some [].
Proof. unfold utf8_lead. intros H. by apply N.leb_le in H as ->. Qed.

Lemma utf8_run_app_ascii pend a c b :
  above_ascii pend -> (byte c <= 127)%N ->
  utf8_run pend (a ++ c :: b) = utf8_run pend a && utf8_valid b.
Proof.
  revert pend. induction a as [|x a IH]; intros pend Hp Hc; simpl.
  - destruct pend as [|[lo hi] pend].
    + by rewrite utf8_lead_ascii.
    + inversion Hp; subst. simpl in *. unfold in_range.
      by replace (lo <=? byte c)%N with false by (symmetry; apply N.leb_gt; lia).
  - destruct pend as [|[lo hi] pend].
    + destruct (utf8_lead x) as [p|] eqn:E; [|done]. apply IH; [|done].
      by eapply utf8_lead_above.
    + inversion Hp; subst. rewrite IH by done. by rewrite andb_assoc.
Qed.

Lemma utf8_valid_app_ascii a c b :
  (byte c <= 127)%N -> utf8_valid (a ++ c :: b) = utf8_valid a && utf8_valid b.
Proof. intros. by apply utf8_run_app_ascii; [constructor|]. Qed.

Lemma utf8_valid_split c s :
  (byte c <= 127)%N -> utf8_valid s = true ->
  Forall (fun p => utf8_valid p = true) (split_on c s).
Proof.
  intros Hc. rewrite <- (join_split_on c s) at 1.
  generalize (split_on_not_nil c s). generalize (split_on c s).
  induction l as [|p [|q l] IH]; intros Hne Hv; [done|by repeat constructor|].
  rewrite join_cons2 in Hv. cbn [app] in Hv. rewrite utf8_valid_app_ascii in Hv by done.
  bool_prop. constructor; [done|]. by apply IH.
Qed.

Lemma utf8_valid_join c ps :
  (byte c <= 127)%N -> Forall (fun p => utf8_valid p = true) ps ->
  utf8_valid (join [c] ps) = true.
Proof.
  intros Hc. induction ps as [|p [|q ps] IH]; intros HF; [done| |].
  - by inversion HF.
  - inversion HF; subst. rewrite join_cons2. cbn [app].
    rewrite utf8_valid_app_ascii by done. apply andb_true_intro. auto.
Qed.

Lemma join_snoc_app sep ps a b : join sep (ps ++ [a ++ b]) = join sep (ps ++ [a]) ++ b.
Proof.
  destruct ps as [|p ps]; [done|]. rewrite !join_snoc by done. by rewrite <- !app_assoc.
Qed.

(** ** Lossy decoding *)

Lemma lossy_run_valid acc pend s :
  utf8_run pend s = true -> (pend = [] -> acc = []) -> lossy_run acc pend s = acc ++ s.
Proof.
  revert acc pend. induction s as [|c s IH]; intros acc pend; cbn.
  { destruct pend; [|done]. intros _ ->; done. }
  destruct pend as [|[lo hi] p]; intros Hv Hacc.
  - rewrite Hacc by done. destruct (utf8_lead c) as [[|r p]|]; [|by rewrite IH|done].
    cbn. by rewrite IH.
  - apply andb_prop in Hv as [-> Hv]. destruct p as [|r p]; [by rewrite IH|].
    rewrite IH by done. by rewrite <- app_assoc.
Qed.

(** Valid text decodes to itself. *)
Lemma lossy_valid s : utf8_valid s = true -> to_string_lossy s = s.
Proof. intros Hv. unfold to_string_lossy. by rewrite lossy_run_valid. Qed.

(** Text of ASCII bytes. *)
Definition ascii_text (s : str) : Prop := Forall (fun c => (byte c < 128)%N) s.

Lemma ascii_sub s t : (forall c, c ∈ t -> c ∈ s) -> ascii_text s -> ascii_text t.
Proof. unfold ascii_text. rewrite !Forall_forall. eauto. Qed.

Lemma ascii_utf8 s : ascii_text s -> utf8_valid s = true.
Proof.
  unfold utf8_valid. induction 1 as [|c s Hc _ IH]; [done|]. cbn.
  by rewrite utf8_lead_ascii by lia.
Qed.

(** Words and lines are pieces of the text. *)
Lemma words_go_sub word s w c : w ∈ words_go word s -> c ∈ w -> c ∈ word \/ c ∈ s.
Proof.
  remember (length s) as n eqn:Hn. revert word s Hn.
  induction n as [n IH] using (well_founded_induction lt_wf). intros word s ->.
  assert (forall flush : list str, flush = match word with [] => [] | _ => [word] end ->
            w ∈ flush -> c ∈ w -> c ∈ word \/ c ∈ s) as Hflush.
  { intros flush ->. destruct word; [by intros ?%not_elem_of_nil|].
    intros ->%list_elem_of_singleton. by left. }
  assert (forall s', (length s' < length s)%nat -> (forall x, x ∈ s' -> x ∈ s) ->
            (w ∈ words_go [] s' \/ exists c0, c0 ∈ s /\ w ∈ words_go (word ++ [c0]) s') ->
            c ∈ w -> c ∈ word \/ c ∈ s) as Hstep.
  { intros s' Hlen Hsub [Hw|(c0 & Hc0 & Hw)] Hc; eapply IH in Hw; try done.
    - destruct Hw as [?%not_elem_of_nil|?]; [done|right; auto].
    - rewrite elem_of_app, list_elem_of_singleton in Hw. destruct Hw as [[?| ->]|?]; auto. }
  destruct s as [|c0 r0]; [apply Hflush; done|]. cbn [words_go].
  destruct (ws1 c0).
  { intros [Hw|Hw]%elem_of_app; [by eapply Hflush|]. eapply (Hstep r0); [cbn; lia|set_solver|by left]. }
  destruct r0 as [|c1 r1].
  { intros Hw. eapply (Hstep []); [cbn; lia|set_solver|right; exists c0; split; [set_solver|done]]. }
  destruct (ws2 c0 c1).
  { intros [Hw|Hw]%elem_of_app; [by eapply Hflush|]. eapply (Hstep r1); [cbn; lia|set_solver|by left]. }
  destruct r1 as [|c2 r2].
  { intros Hw. eapply (Hstep [c1]); [cbn; lia|set_solver|right; exists c0; split; [set_solver|done]]. }
  destruct (ws3 c0 c1 c2).
  { intros [Hw|Hw]%elem_of_app; [by eapply Hflush|]. eapply (Hstep r2); [cbn; lia|set_solver|by left]. }
  intros Hw. eapply (Hstep (c1 :: c2 :: r2)); [cbn; lia|set_solver|right; exists c0; split; [set_solver|done]].
Qed.

Lemma split_whitespace_sub s w c : w ∈ split_whitespace s -> c ∈ w -> c ∈ s.
Proof. intros Hw Hc. eapply words_go_sub in Hw as [?%not_elem_of_nil|?]; done. Qed.

Lemma strip_suffix_sub p s t c : strip_suffix p s = Some t -> c ∈ t -> c ∈ s.
Proof.
  unfold strip_suffix. destruct (strip_prefix (reverse p) (reverse s)) as [r|] eqn:E; [|done].
  intros [= <-] Hc. apply strip_prefix_Some in E.
  rewrite <- (reverse_involutive s), E, elem_of_reverse, elem_of_app. right. by rewrite <- elem_of_reverse.
Qed.

Lemma lines_sub s l c : l ∈ lines s -> c ∈ l -> c ∈ s.
Proof.
  unfold lines. intros (p & -> & Hp)%list_elem_of_fmap Hc.
  assert (c ∈ p) as Hcp.
  { destruct (strip_suffix [nl] p) as [q|] eqn:E; [|done].
    destruct (strip_suffix [cr] q) as [r|] eqn:E2; cbn in Hc; eauto using strip_suffix_sub. }
  rewrite <- (split_inclusive_concat nl s). apply list_elem_of_In, in_concat.
  exists p. by rewrite <- !list_elem_of_In.
Qed.

(** ** Control characters *)

(** [chars().any(char::is_control)]: C0, delete, and C1 as UTF-8. *)
Fixpoint has_control (s : str) : bool :=
  match s with
  | [] => false
  | c :: s' =>
      in_range 0 31 c || bool_decide (c = "127"%char)
      || match s' with d :: _ => bool_decide (c = "194"%char) && in_range 128 159 d | [] => false end
      || has_control s'
  end.

(** ** Decimal numbers *)

Lemma digit_of_facts d : (0 <= d < 10)%Z ->
  is_ascii_digit (digit_char d) = true /\ forall v s, digits_value v (digit_char d :: s) = digits_value (v * 10 + d) s.
Proof.
  intros H. assert (d = 0 \/ d = 1 \/ d = 2 \/ d = 3 \/ d = 4 \/ d = 5 \/ d = 6 \/ d = 7 \/ d = 8 \/ d = 9)%Z as Hd by lia.
  destruct_or!; subst d; (split; [by_eval|by intros v s]).
Qed.

Lemma mod_digit n : (0 <= n -> 0 <= n mod 10 < 10)%Z.
Proof. intros _. by apply Z.mod_pos_bound. Qed.

Lemma show_go_value fuel n acc :
  (0 <= n < 2 ^ Z.of_nat fuel)%Z -> digits_value 0 (show_go fuel n acc) = digits_value n acc.
Proof.
  revert n acc. induction fuel as [|f IH]; intros n acc Hn; [by replace n with 0%Z by (cbn in Hn; lia)|].
  cbn [show_go]. destruct (digit_of_facts (n mod 10)) as [_ Hd]; [apply mod_digit; lia|].
  destruct (Z.ltb_spec n 10).
  - rewrite Hd, Z.mod_small by lia. by rewrite Z.mul_0_l.
  - rewrite IH, Hd.
    + f_equal. pose proof (Z.div_mod n 10). lia.
    + split; [apply Z.div_pos; lia|]. apply Z.div_lt_upper_bound; [lia|].
      rewrite Nat2Z.inj_succ, Z.pow_succ_r in Hn by lia. lia.
Qed.

Lemma show_go_digits fuel n acc :
  (0 <= n)%Z -> forallb is_ascii_digit acc = true -> forallb is_ascii_digit (show_go fuel n acc) = true.
Proof.
  revert n acc. induction fuel as [|f IH]; intros n acc Hn Ha; [done|]. cbn [show_go].
  destruct (digit_of_facts (n mod 10)) as [Hd _]; [by apply mod_digit|].
  case_match; [by cbn; rewrite Hd|].
  apply IH; [apply Z.div_pos; lia|]. by cbn; rewrite Hd.
Qed.

Lemma show_go_length fuel n acc k :
  (0 <= n < 10 ^ Z.of_nat (Datatypes.S k))%Z -> length (show_go fuel n acc) <= Datatypes.S k + length acc.
Proof.
  revert n acc k. induction fuel as [|f IH]; intros n acc k Hn; [cbn; lia|]. cbn [show_go].
  destruct (Z.ltb_spec n 10); [cbn; lia|]. destruct k as [|k]; [cbn in Hn; lia|].
  etrans; [apply (IH _ _ k)|cbn; lia]. split; [apply Z.div_pos; lia|].
  apply Z.div_lt_upper_bound; [lia|]. rewrite (Nat2Z.inj_succ (Datatypes.S k)), Z.pow_succ_r in Hn by lia. lia.
Qed.

Lemma show_Z_value n : (0 <= n)%Z -> digits_value 0 (show_Z n) = Some n.
Proof.
  intros Hn. unfold show_Z. rewrite (proj2 (Z.ltb_ge _ _)) by done. apply (show_go_value _ n []).
  split; [done|]. destruct (Z.eq_dec n 0) as [->|]; [done|].
  rewrite Nat2Z.inj_succ, Z2Nat.id by apply Z.log2_nonneg. apply Z.log2_spec. lia.
Qed.

Lemma show_Z_digits n : (0 <= n)%Z -> forallb is_ascii_digit (show_Z n) = true.
Proof. intros Hn. unfold show_Z. rewrite (proj2 (Z.ltb_ge _ _)) by done. by apply show_go_digits. Qed.

Lemma show_Z_inj a b : (0 <= a)%Z -> (0 <= b)%Z -> show_Z a = show_Z b -> a = b.
Proof. intros Ha Hb H. apply show_Z_value in Ha, Hb. congruence. Qed.
