(* ===== verification/ParserError.v ===== *)
(** * Parse failures and their categories ([okf-parser/src/error.rs])

    [Error] has the source's constructors.  The failures of [serde_yaml] and
    [serde_json] that two of them carry are type parameters; the position
    inside [std::str::Utf8Error] is not kept. *)
From stdpp Require Import prelude.
From S2P Require Import Prelude Str.

Inductive ErrorCategory : Type :=
| Limit
| Encoding
| FrontmatterCategory
| MetadataCategory
| PathCategory
| ReservedCategory.

#[export] Instance ErrorCategory_eq_dec : EqDecision ErrorCategory.
Proof. solve_decision. Defined.

Inductive Error (Y J : Type) : Type :=
| FileTooLarge (path : str) (actual limit : nat)
| FrontmatterTooLarge (path : str) (actual limit : nat)
| MissingFrontmatter (path : str)
| UnterminatedFrontmatter (path : str)
| InvalidFrontmatter (path : str) (source : Y)
| InvalidMetadata (path : str) (source : J)
| InvalidSkillManifest (path : str) (reason : str)
| InvalidUtf8 (path : str)
| EmptyPath
| AbsolutePath (path : str)
| PathTraversal (path : str)
| UnsupportedExtension (path : str)
| NonUtf8Path (path : str)
| ReservedPath (path : str).
Arguments FileTooLarge {Y J}.
Arguments FrontmatterTooLarge {Y J}.
Arguments MissingFrontmatter {Y J}.
Arguments UnterminatedFrontmatter {Y J}.
Arguments InvalidFrontmatter {Y J}.
Arguments InvalidMetadata {Y J}.
Arguments InvalidSkillManifest {Y J}.
Arguments InvalidUtf8 {Y J}.
Arguments EmptyPath {Y J}.
Arguments AbsolutePath {Y J}.
Arguments PathTraversal {Y J}.
Arguments UnsupportedExtension {Y J}.
Arguments NonUtf8Path {Y J}.
Arguments ReservedPath {Y J}.

#[export] Instance Error_eq_dec {Y J} `{EqDecision Y, EqDecision J} : EqDecision (Error Y J).
Proof. solve_decision. Defined.

(** [Error::category]. *)
Definition category {Y J} (e : Error Y J) : ErrorCategory :=
  match e with
  | FileTooLarge _ _ _ | FrontmatterTooLarge _ _ _ => Limit
  | InvalidUtf8 _ => Encoding
  | MissingFrontmatter _ | UnterminatedFrontmatter _ | InvalidFrontmatter _ _
  | InvalidSkillManifest _ _ => FrontmatterCategory
  | InvalidMetadata _ _ => MetadataCategory
  | EmptyPath | AbsolutePath _ | PathTraversal _ | UnsupportedExtension _
  | NonUtf8Path _ => PathCategory
  | ReservedPath _ => ReservedCategory
  end.

(** [Error::path]. *)
Definition error_path {Y J} (e : Error Y J) : str :=
  match e with
  | EmptyPath => []
  | FileTooLarge p _ _ | FrontmatterTooLarge p _ _ | MissingFrontmatter p
  | UnterminatedFrontmatter p | InvalidFrontmatter p _ | InvalidMetadata p _
  | InvalidSkillManifest p _ | InvalidUtf8 p | AbsolutePath p | PathTraversal p
  | UnsupportedExtension p | NonUtf8Path p | ReservedPath p => p
  end.
