(* ===== verification/OkfPath.v ===== *)
(** * Bundle-relative paths ([okf-parser/src/normalize.rs])

    The POSIX reading of [std::path::Path] the module relies on, and its
    functions: normalization of a concept path, the concept id, reserved
    names, and resolution of a link destination against its source document.
    The theorems say that what comes out is always a plain relative path
    that cannot leave the bundle. *)
From stdpp Require Import prelude strings list.
From Stdlib Require Import Ascii Lia.
From S2P Require Import Prelude Str ParserError.

(** ** [std::path::Path] on POSIX *)

Inductive component : Type :=
| RootDir
| CurDir
| ParentDir
| Normal (part : str).

#[export] Instance component_eq_dec : EqDecision component.
Proof. solve_decision. Defined.

Definition dotdot : str := [dot; dot].

(** The component of one segment: empty and [.] segments vanish. *)
Definition segment_component (s : str) : option component :=
  if decide (s = []) then None
  else if decide (s = [dot]) then None
  else if decide (s = dotdot) then Some ParentDir
  else Some (Normal s).

(** [Path::components]: a leading [/] is [RootDir], a leading [.] of a
    relative path is [CurDir]. *)
Definition components (p : str) : list component :=
  let segments := split_on slash p in
  let lead :=
    if starts_with [slash] p then [RootDir]
    else match segments with
         | s :: _ => if decide (s = [dot]) then [CurDir] else []
         | [] => []
         end in
  lead ++ omap segment_component segments.

(** [Path::is_absolute] on POSIX. *)
Definition is_absolute (p : str) : bool := starts_with [slash] p.

(** [Path::file_name]. *)
Definition file_name (p : str) : option str :=
  match last (components p) with
  | Some (Normal f) => Some f
  | _ => None
  end.

(** The part of a file name after its last dot; a leading dot starts a
    hidden name, not an extension. *)
Definition name_extension (f : str) : option str :=
  if decide (f = dotdot) then None
  else match rsplit_once dot f with
       | Some (before, after) => if decide (before = []) then None else Some after
       | None => None
       end.

(** [Path::extension]. *)
Definition extension (p : str) : option str := f ← file_name p; name_extension f.

(** ** The module's functions *)

Definition md : str := lit "md".
Definition dot_md : str := lit ".md".
Definition RESERVED_FILE_NAMES : list str := [lit "index.md"; lit "log.md"].

Section normalize.
Context {Y J : Type}.
Abbreviation Error := (Error Y J).

Definition apply_markdown_extension (normalized : str) : result str Error :=
  match extension normalized with
  | None => Ok (normalized ++ dot_md)
  | Some ext =>
      if eq_ignore_ascii_case ext md
      then Ok (take (length normalized - length ext) normalized ++ md)
      else Err (UnsupportedExtension normalized)
  end.

(** The loop of [normalize_path] over the components. *)
Fixpoint collect_parts (raw : str) (cs : list component) (parts : list str)
  : result (list str) Error :=
  match cs with
  | [] => Ok parts
  | Normal part :: cs' => collect_parts raw cs' (parts ++ [part])
  | CurDir :: cs' => collect_parts raw cs' parts
  | ParentDir :: _ => Err (PathTraversal raw)
  | RootDir :: _ => Err (AbsolutePath raw)
  end.

(** [normalize_path] (the [cfg(not(windows))] separator fold is the identity). *)
Definition normalize_path (path : str) : result str Error :=
  if utf8_valid path then
    if decide (path = []) then Err EmptyPath
    else
      let? parts := collect_parts path (components path) [] in
      match parts with
      | [] => Err EmptyPath
      | _ => apply_markdown_extension (join [slash] parts)
      end
  else Err (NonUtf8Path (to_string_lossy path)).

End normalize.

Definition concept_id (normalized_path : str) : str :=
  default normalized_path (strip_suffix dot_md normalized_path).

(** The part after the last [/]. *)
Definition base_name (p : str) : str :=
  match rsplit_once slash p with Some (_, name) => name | None => p end.

Definition is_reserved_path (normalized_path : str) : bool :=
  bool_decide (base_name normalized_path ∈ RESERVED_FILE_NAMES).

Definition is_reserved_log (normalized_path : str) : bool :=
  bool_decide (base_name normalized_path = lit "log.md").

Definition parent_directory (normalized_path : str) : str :=
  match rsplit_once slash normalized_path with Some (dir, _) => dir | None => [] end.

Definition parent_components (normalized_path : str) : list str :=
  match rsplit_once slash normalized_path with
  | Some (dir, _) => split_on slash dir
  | None => []
  end.

(** [Vec::pop] as a value: the vector without its last element. *)
Definition vec_pop {A} (l : list A) : option (list A) :=
  match reverse l with
  | [] => None
  | _ :: r => Some (reverse r)
  end.

(** The component loop of [resolve_link_path]. *)
Fixpoint resolve_components (cs : list str) (parts : list str) : option (list str) :=
  match cs with
  | [] => Some parts
  | c :: cs' =>
      if decide (c = [] \/ c = [dot]) then resolve_components cs' parts
      else if decide (c = dotdot) then parts' ← vec_pop parts; resolve_components cs' parts'
      else resolve_components cs' (parts ++ [c])
  end.

Definition hash : ascii := "#"%char.
Definition backslash : ascii := "\"%char.

Definition resolve_link_path (target source_path : str) : option str :=
  let folded := replace_char backslash slash target in
  let without_fragment := default [] (head (split_on hash folded)) in
  if decide (without_fragment = []) then
    if starts_with [hash] folded then Some source_path else None
  else
    let '(parts, remainder) :=
      match strip_prefix [slash] without_fragment with
      | Some rooted => ([], rooted)
      | None => (parent_components source_path, without_fragment)
      end in
    parts' ← resolve_components (split_on slash remainder) parts;
    if decide (parts' = []) then None else Some (join [slash] parts').

Definition resolve_link_target (target source_path : str) : option str :=
  resolved ← resolve_link_path target source_path;
  r_ok (apply_markdown_extension (Y := Empty_set) (J := Empty_set) resolved).

(** * What a normalized path is *)

Definition plain_segment (s : str) : Prop := s <> [] /\ s <> [dot] /\ s <> dotdot.

(** A relative path of plain segments: no root, no empty, [.] or [..] segment. *)
Definition normal_path (q : str) : Prop := Forall plain_segment (split_on slash q).

(** A normalized concept path: a plain relative path to an [.md] file. *)
Definition concept_path (q : str) : Prop := normal_path q /\ extension q = Some md.

#[export] Instance normal_path_dec q : Decision (normal_path q).
Proof. unfold normal_path, plain_segment. apply _. Defined.
#[export] Instance concept_path_dec q : Decision (concept_path q).
Proof. unfold concept_path. apply _. Defined.

(** The segments [normalize_path] keeps. *)
Definition kept_segments (p : str) : list str :=
  filter (fun s => s <> [] /\ s <> [dot]) (split_on slash p).

(** [normalize_path] as a decision list over the whole path. *)
Definition normalize_spec {Y J} (p : str) : result str (Error Y J) :=
  if negb (utf8_valid p) then Err (NonUtf8Path (to_string_lossy p))
  else if decide (p = []) then Err EmptyPath
  else if is_absolute p then Err (AbsolutePath p)
  else if decide (dotdot ∈ split_on slash p) then Err (PathTraversal p)
  else if decide (kept_segments p = []) then Err EmptyPath
  else apply_markdown_extension (join [slash] (kept_segments p)).

(** ** Lemmas *)

Lemma slash_ascii : (byte slash <= 127)%N.
Proof. vm_compute. done. Qed.

Lemma normal_join ps :
  ps <> [] -> Forall plain_segment ps -> Forall (fun p => slash ∉ p) ps ->
  normal_path (join [slash] ps).
Proof. intros. unfold normal_path. by rewrite split_on_join. Qed.

Lemma omap_plain l : Forall plain_segment l -> omap segment_component l = Normal <$> l.
Proof.
  induction 1 as [|s l (H1 & H2 & H3) _ IH]; [done|]. csimpl.
  replace (segment_component s) with (Some (Normal s)).
  - by rewrite IH.
  - unfold segment_component. by rewrite !decide_False.
Qed.

Lemma normal_not_rooted q : normal_path q -> starts_with [slash] q = false.
Proof.
  intros H. destruct (starts_with [slash] q) eqn:E; [|done].
  apply starts_with_spec in E as (r & ->). unfold normal_path in H. simpl in H.
  inversion H; subst. by destruct H2.
Qed.

Lemma components_normal q : normal_path q -> components q = Normal <$> split_on slash q.
Proof.
  intros H. unfold components. rewrite normal_not_rooted, omap_plain by done.
  unfold normal_path in H. destruct (split_on slash q) as [|s l]; [done|].
  inversion H as [|? ? (?&?&?)]; subst. by rewrite decide_False.
Qed.

Lemma extension_join ps f :
  Forall plain_segment (ps ++ [f]) -> Forall (fun p => slash ∉ p) (ps ++ [f]) ->
  extension (join [slash] (ps ++ [f])) = name_extension f.
Proof.
  intros H1 H2. unfold extension, file_name.
  rewrite components_normal by (apply normal_join; by destruct ps).
  rewrite split_on_join by (done || by destruct ps).
  by rewrite fmap_app, last_app.
Qed.

Lemma name_extension_Some f e :
  name_extension f = Some e -> exists b, f = b ++ dot :: e /\ b <> [] /\ dot ∉ e.
Proof.
  unfold name_extension. case_decide; [done|].
  destruct (rsplit_once dot f) as [[b a]|] eqn:E; [|done].
  case_decide; [done|]. intros [= <-]. apply rsplit_once_Some in E as [-> ?]. eauto.
Qed.

Lemma name_extension_md b : b <> [] -> name_extension (b ++ dot_md) = Some md.
Proof.
  intros Hb. unfold name_extension, dot_md. change (lit ".md") with (dot :: md).
  rewrite decide_False.
  - rewrite rsplit_once_app by (vm_compute; intros ?%list_elem_of_In; naive_solver).
    by rewrite decide_False.
  - intros H. apply (f_equal last) in H. rewrite last_app in H. vm_compute in H. done.
Qed.

Lemma md_segment_plain b : b <> [] -> plain_segment (b ++ dot_md).
Proof.
  intros Hb. repeat split; intros H; apply (f_equal last) in H;
    rewrite last_app in H; vm_compute in H; done.
Qed.

Lemma md_no_slash b : slash ∉ b -> slash ∉ b ++ dot_md.
Proof.
  rewrite not_elem_of_app. intros. split; [done|]. vm_compute.
  intros ?%list_elem_of_In. naive_solver.
Qed.

(** A list of at least one element has a last one. *)
Lemma split_last_segment q : exists ps f, split_on slash q = ps ++ [f].
Proof.
  destruct (split_on slash q) as [|s l] eqn:E using rev_ind; [by apply split_on_not_nil in E|].
  eauto.
Qed.

(** What [apply_markdown_extension] does to the last segment. *)
Lemma apply_extension_shape {Y J} q r :
  normal_path q -> apply_markdown_extension (Y:=Y) (J:=J) q = Ok r ->
  exists ps f b, q = join [slash] (ps ++ [f]) /\ r = join [slash] (ps ++ [b ++ dot_md])
    /\ split_on slash q = ps ++ [f] /\ b <> [] /\ (f = b \/ exists e, f = b ++ dot :: e).
Proof.
  intros Hq. destruct (split_last_segment q) as (ps & f & Hs).
  assert (Hj : q = join [slash] (ps ++ [f])) by (by rewrite <- Hs, join_split_on).
  pose proof (split_on_notin slash q) as Hn. unfold normal_path in Hq. rewrite Hs in Hq, Hn.
  unfold apply_markdown_extension. rewrite Hj at 1. rewrite extension_join by done.
  destruct (name_extension f) as [e|] eqn:E.
  - destruct (eq_ignore_ascii_case e md); [|done]. intros [= <-].
    apply name_extension_Some in E as (b & -> & Hb & _).
    exists ps, (b ++ dot :: e), b. repeat split; eauto.
    rewrite Hj. replace (b ++ dot :: e) with ((b ++ [dot]) ++ e) by (by rewrite <- app_assoc).
    rewrite join_snoc_app, length_app.
    replace (length _ + length e - length e) with (length (join [slash] (ps ++ [b ++ [dot]]))) by lia.
    rewrite take_app_length, <- join_snoc_app, <- app_assoc. done.
  - intros [= <-]. exists ps, f, f. repeat split; eauto.
    + rewrite Hj at 1. by rewrite join_snoc_app.
    + apply Forall_app in Hq as [_ Hq]. inversion Hq; subst. by destruct H1.
Qed.

Lemma apply_extension_sound {Y J} q r :
  normal_path q -> apply_markdown_extension (Y:=Y) (J:=J) q = Ok r -> concept_path r.
Proof.
  intros Hq Hr. destruct (apply_extension_shape _ _ Hq Hr) as (ps & f & b & _ & -> & Hs & Hb & Hf).
  pose proof (split_on_notin slash q) as Hn. unfold normal_path in Hq. rewrite Hs in Hq, Hn.
  apply Forall_app in Hq as [Hps _]. apply Forall_app in Hn as [Hns Hnf].
  assert (slash ∉ b) as Hbs.
  { inversion Hnf; subst. destruct Hf as [->|(e & ->)]; [done|]. set_solver. }
  assert (Forall plain_segment (ps ++ [b ++ dot_md])) as HA.
  { apply Forall_app; split; [done|]. apply Forall_singleton. by apply md_segment_plain. }
  assert (Forall (fun p => slash ∉ p) (ps ++ [b ++ dot_md])) as HB.
  { apply Forall_app; split; [done|]. apply Forall_singleton. by apply md_no_slash. }
  split; [apply normal_join; by destruct ps|]. rewrite extension_join by done.
  by apply name_extension_md.
Qed.

Lemma apply_extension_fix {Y J} q :
  concept_path q -> apply_markdown_extension (Y:=Y) (J:=J) q = Ok q.
Proof.
  intros [Hq He]. unfold apply_markdown_extension. rewrite He.
  change (eq_ignore_ascii_case md md) with true. cbv iota.
  destruct (split_last_segment q) as (ps & f & Hs).
  assert (Hj : q = join [slash] (ps ++ [f])) by (by rewrite <- Hs, join_split_on).
  pose proof (split_on_notin slash q) as Hn. unfold normal_path in Hq. rewrite Hs in Hq, Hn.
  rewrite Hj in He. rewrite extension_join in He by done.
  apply name_extension_Some in He as (b & -> & Hb & _).
  assert (q = join [slash] (ps ++ [b ++ [dot]]) ++ md) as ->.
  { rewrite Hj, <- join_snoc_app, <- app_assoc. done. }
  rewrite length_app, Nat.add_sub, take_app_length. done.
Qed.

Lemma segment_component_cases s :
  (segment_component s = None /\ (s = [] \/ s = [dot])) \/
  (segment_component s = Some ParentDir /\ s = dotdot) \/
  (segment_component s = Some (Normal s) /\ plain_segment s).
Proof. unfold segment_component, plain_segment. repeat case_decide; naive_solver. Qed.

Lemma collect_parts_segments {Y J} raw segs acc :
  collect_parts (Y:=Y) (J:=J) raw (omap segment_component segs) acc =
  if decide (dotdot ∈ segs) then Err (PathTraversal raw)
  else Ok (acc ++ filter (fun s => s <> [] /\ s <> [dot]) segs).
Proof.
  revert acc. induction segs as [|s segs IH]; intros acc.
  { rewrite decide_False by apply not_elem_of_nil. cbn. by rewrite app_nil_r. }
  cbn [omap list_omap].
  destruct (segment_component_cases s) as [[-> Hs]|[[-> ->]|[-> (?&?&?)]]]; cbn [collect_parts].
  - rewrite IH, filter_cons_False by naive_solver. apply decide_ext.
    rewrite elem_of_cons. destruct Hs as [->| ->]; naive_solver.
  - by rewrite decide_True by left.
  - rewrite IH, filter_cons_True by done. rewrite <- app_assoc. apply decide_ext.
    rewrite elem_of_cons. naive_solver.
Qed.

Lemma kept_segments_good p :
  dotdot ∉ split_on slash p ->
  Forall plain_segment (kept_segments p) /\ Forall (fun s => slash ∉ s) (kept_segments p).
Proof.
  intros Hd. pose proof (split_on_notin slash p) as Hn. rewrite Forall_forall in Hn.
  split; apply Forall_forall; intros s [[??] Hs]%list_elem_of_filter; [|by apply Hn].
  repeat split; [done..|]. by intros ->.
Qed.

Lemma normalize_lead p :
  p <> [] -> exists lead, components p = lead ++ omap segment_component (split_on slash p) /\
    ((is_absolute p = true /\ lead = [RootDir]) \/
     (is_absolute p = false /\ (lead = [] \/ lead = [CurDir]))).
Proof.
  intros _. unfold components, is_absolute. eexists. split; [done|].
  destruct (starts_with [slash] p); [by left|right]. split; [done|].
  destruct (split_on slash p); [by left|]. case_decide; auto.
Qed.

Lemma normalize_path_eq_spec {Y J} (p : str) :
  normalize_path (Y:=Y) (J:=J) p = normalize_spec p.
Proof.
  unfold normalize_path, normalize_spec, kept_segments.
  destruct (utf8_valid p); [|done]. simpl negb. cbv iota.
  case_decide as Hp; [done|].
  destruct (normalize_lead p Hp) as (lead & -> & [[-> ->]|[-> Hl]]); [done|].
  assert (collect_parts (Y:=Y) (J:=J) p (lead ++ omap segment_component (split_on slash p)) []
          = collect_parts p (omap segment_component (split_on slash p)) []) as ->.
  { by destruct Hl as [ -> | -> ]. }
  rewrite collect_parts_segments. cbv iota. case_decide; [done|].
  cbn [rbind app]. by destruct (filter _ _).
Qed.

(** [normalize_path] is the decision list of its documentation: not
    UTF-8, empty, absolute, traversing, nothing left, and only then the
    extension rule on the kept segments joined by [/]. *)
Theorem normalize_path_equiv {Y J} (p : str) :
  normalize_path (Y:=Y) (J:=J) p = normalize_spec p.
Proof. apply normalize_path_eq_spec. Qed.

Lemma normalize_path_ok {Y J} p q :
  normalize_path (Y:=Y) (J:=J) p = Ok q ->
  utf8_valid p = true /\ p <> [] /\ (dotdot ∉ split_on slash p) /\ kept_segments p <> [] /\
  apply_markdown_extension (Y:=Y) (J:=J) (join [slash] (kept_segments p)) = Ok q.
Proof.
  rewrite normalize_path_eq_spec. unfold normalize_spec.
  destruct (utf8_valid p); simpl; [|done]. repeat (case_decide || case_match); naive_solver.
Qed.

Lemma apply_extension_utf8 {Y J} q r :
  normal_path q -> utf8_valid q = true ->
  apply_markdown_extension (Y:=Y) (J:=J) q = Ok r -> utf8_valid r = true.
Proof.
  intros Hq Hv Hr. pose proof (utf8_valid_split slash q slash_ascii Hv) as HF.
  destruct (apply_extension_shape _ _ Hq Hr) as (ps & f & b & _ & -> & Hs & _ & Hf).
  rewrite Hs in HF. apply Forall_app in HF as [Hps Hl]. rewrite Forall_singleton in Hl.
  apply utf8_valid_join; [exact slash_ascii|]. apply Forall_app. split; [done|].
  apply Forall_singleton. change dot_md with (dot :: md).
  rewrite utf8_valid_app_ascii by (vm_compute; done). rewrite andb_true_r.
  destruct Hf as [-> | (e & ->)]; [done|].
  rewrite utf8_valid_app_ascii in Hl by (vm_compute; done). by bool_prop.
Qed.

Lemma normalize_concept_path {Y J} q :
  concept_path q -> utf8_valid q = true -> normalize_path (Y:=Y) (J:=J) q = Ok q.
Proof.
  intros Hc Hv. pose proof Hc as [Hn _]. rewrite normalize_path_eq_spec. unfold normalize_spec.
  rewrite Hv. simpl negb. cbv iota. rewrite decide_False.
  2:{ intros ->. inversion Hn as [|? ? [? _]]. done. }
  unfold is_absolute. rewrite normal_not_rooted by done.
  unfold normal_path in Hn. rewrite Forall_forall in Hn.
  rewrite decide_False by (intros Hd; by apply Hn in Hd as (_&_&?)).
  unfold kept_segments. rewrite list_filter_all.
  - rewrite decide_False by apply split_on_not_nil. rewrite join_split_on.
    by apply apply_extension_fix.
  - apply Forall_forall. intros s Hs. apply Hn in Hs as (?&?&_). done.
Qed.

(** A normalized path is a plain relative path to an [.md] file (it has
    no root, no empty, [.] or [..] segment, so joined to the bundle root it
    stays below it), and normalizing it again changes nothing. *)
Theorem normalize_path_sound {Y J} (p q : str) :
  normalize_path (Y:=Y) (J:=J) p = Ok q ->
  concept_path q /\ normalize_path (Y:=Y) (J:=J) q = Ok q.
Proof.
  intros (Hv & _ & Hd & Hk & Ha)%normalize_path_ok.
  destruct (kept_segments_good p Hd) as [HA HB].
  pose proof (normal_join _ Hk HA HB) as Hn.
  assert (utf8_valid (join [slash] (kept_segments p)) = true) as Hvk.
  { apply utf8_valid_join; [exact slash_ascii|].
    pose proof (utf8_valid_split slash p slash_ascii Hv) as HF. rewrite Forall_forall in HF.
    apply Forall_forall. intros s [_ Hs]%list_elem_of_filter. by apply HF. }
  split; [by eapply apply_extension_sound|].
  apply normalize_concept_path; [by eapply apply_extension_sound|by eapply apply_extension_utf8].
Qed.

Lemma normalize_path_sound_witness :
  normalize_path (Y:=unit) (J:=unit) (lit "./runbooks//Failover.MD") = Ok (lit "runbooks/Failover.md")
  /\ concept_path (lit "runbooks/Failover.md")
  /\ normalize_path (Y:=unit) (J:=unit) (lit "runbooks/Failover.md") = Ok (lit "runbooks/Failover.md").
Proof.
  split; [vm_compute; reflexivity|].
  apply (normalize_path_sound (lit "./runbooks//Failover.MD")). vm_compute. reflexivity.
Defined.

(** ** Link destinations *)

Definition good_segments (ps : list str) : Prop :=
  Forall plain_segment ps /\ Forall (fun p => slash ∉ p) ps.

Lemma vec_pop_spec {A} (l l' : list A) : vec_pop l = Some l' <-> exists x, l = l' ++ [x].
Proof.
  unfold vec_pop. destruct l as [|x l _] using rev_ind.
  - simpl. split; [done|]. intros (x & []%app_cons_not_nil).
  - rewrite reverse_snoc, reverse_involutive. split.
    + intros [= <-]. eauto.
    + intros (y & [-> _]%app_inj_tail). done.
Qed.

Lemma resolve_components_good cs parts parts' :
  Forall (fun p => slash ∉ p) cs -> good_segments parts ->
  resolve_components cs parts = Some parts' -> good_segments parts'.
Proof.
  revert parts. induction cs as [|c cs IH]; intros parts Hcs [H1 H2]; simpl; [by intros [= <-]|].
  inversion Hcs; subst. case_decide as Hd; [intros; by eapply IH|]. case_decide as Hdd.
  - destruct (vec_pop parts) as [l|] eqn:E; [|done]. simpl.
    apply vec_pop_spec in E as (x & ->). apply Forall_app in H1 as [? _], H2 as [? _].
    intros; by eapply IH.
  - apply IH; [done|]. split; apply Forall_app; split; try done; apply Forall_singleton; [|done].
    repeat split; naive_solver.
Qed.

Lemma parent_components_good q : normal_path q -> good_segments (parent_components q).
Proof.
  unfold normal_path, parent_components. intros Hn.
  destruct (rsplit_once slash q) as [[d n]|] eqn:E; [|by split; constructor].
  apply rsplit_once_Some in E as [-> Hnn].
  split; [|apply split_on_notin].
  assert (split_on slash (d ++ slash :: n) = split_on slash d ++ [n]) as Hs.
  { rewrite <- (join_split_on slash d) at 1. rewrite <- (app_nil_r (slash :: n)).
    change (slash :: n) with ([slash] ++ n). rewrite app_nil_r, <- join_snoc by apply split_on_not_nil.
    apply split_on_join; [by destruct (split_on slash d)|]. apply Forall_app.
    split; [apply split_on_notin|by apply Forall_singleton]. }
  rewrite Hs in Hn. by apply Forall_app in Hn as [? _].
Qed.

Lemma resolve_link_path_normal t src q :
  normal_path src -> resolve_link_path t src = Some q -> normal_path q.
Proof.
  intros Hsrc. unfold resolve_link_path. case_decide as Hw.
  { destruct (starts_with _ _); [|done]. by intros [= <-]. }
  destruct (strip_prefix [slash] _) as [rooted|] eqn:Ep; cbn beta iota zeta;
  match goal with |- context [resolve_components ?cs ?ps] =>
    destruct (resolve_components cs ps) as [l|] eqn:E; [|done] end; simpl;
  (case_decide as Hl; [done|]; intros [= <-]);
  (eapply resolve_components_good in E as [HA HB]; [by apply normal_join|apply split_on_notin|]).
  - by split; constructor.
  - by apply parent_components_good.
Qed.

Lemma resolve_link_target_concept target source_path q :
  concept_path source_path -> resolve_link_target target source_path = Some q ->
  concept_path q.
Proof.
  intros [Hn _] H. unfold resolve_link_target in H.
  destruct (resolve_link_path target source_path) as [r|] eqn:E; [|done]. simpl in H.
  destruct (apply_markdown_extension r) eqn:Ea; [|done]. simplify_eq/=.
  eapply apply_extension_sound; [|done]. by eapply resolve_link_path_normal.
Qed.

(** C21: Whatever a document links to, a resolved destination is a plain
    relative path to an [.md] file of the same bundle: no link escapes. *)
Theorem resolve_link_target_contained (target source_path q : str) :
  concept_path source_path -> resolve_link_target target source_path = Some q ->
  concept_path q.
Proof. apply resolve_link_target_concept. Qed.

Lemma resolve_link_target_contained_witness :
  concept_path (lit "services/pg.md") /\
  resolve_link_target (lit "../services\pg#top") (lit "dashboards/health.md") = Some (lit "services/pg.md").
Proof.
  assert (resolve_link_target (lit "../services\pg#top") (lit "dashboards/health.md")
          = Some (lit "services/pg.md")) as H by (vm_compute; reflexivity).
  split; [|exact H].
  refine (resolve_link_target_contained _ (lit "dashboards/health.md") _ _ H). by_decide.
Defined.

Lemma resolve_components_plain cs parts :
  Forall plain_segment cs -> resolve_components cs parts = Some (parts ++ cs).
Proof.
  revert parts. induction cs as [|c cs IH]; intros parts HF; simpl; [by rewrite app_nil_r|].
  inversion HF as [|? ? (?&?&?)]; subst. rewrite !decide_False by naive_solver.
  by rewrite IH, <- app_assoc.
Qed.

Lemma replace_char_id a b s : a ∉ s -> replace_char a b s = s.
Proof.
  induction s as [|c s IH]; [done|]. intros [Hc Hs]%not_elem_of_cons. simpl.
  rewrite decide_False by congruence. by rewrite IH.
Qed.

(** Every concept of a bundle is reachable by a rooted link: a
    destination of [/] and its path (without [#] or a backslash) resolves
    from any document to exactly that path. *)
Theorem resolve_rooted_roundtrip (q source_path : str) :
  concept_path q -> hash ∉ q -> backslash ∉ q ->
  resolve_link_target (slash :: q) source_path = Some q.
Proof.
  intros Hc Hh Hb. pose proof Hc as [Hn _].
  unfold resolve_link_target, resolve_link_path.
  rewrite replace_char_id by (rewrite not_elem_of_cons; done).
  rewrite split_on_plain by (rewrite not_elem_of_cons; done). cbn [head default from_option id].
  rewrite decide_False by done. cbn [strip_prefix]. rewrite decide_True by done.
  cbn beta iota zeta. rewrite resolve_components_plain by done. simpl app.
  cbn [mbind option_bind].
  rewrite decide_False by apply split_on_not_nil. rewrite join_split_on.
  cbn [mbind option_bind]. by rewrite apply_extension_fix.
Qed.

Lemma resolve_rooted_roundtrip_witness :
  resolve_link_target (slash :: lit "services/pg.md") (lit "a/b.md") = Some (lit "services/pg.md").
Proof.
  apply resolve_rooted_roundtrip; by_decide.
Defined.

Lemma concept_id_md q : concept_path q -> concept_id q ++ dot_md = q.
Proof.
  intros [Hn He]. destruct (split_last_segment q) as (ps & f & Hs).
  assert (Hj : q = join [slash] (ps ++ [f])) by (by rewrite <- Hs, join_split_on).
  pose proof (split_on_notin slash q) as Hns. unfold normal_path in Hn. rewrite Hs in Hn, Hns.
  rewrite Hj in He. rewrite extension_join in He by done.
  apply name_extension_Some in He as (b & -> & Hb & _).
  assert (q = join [slash] (ps ++ [b]) ++ dot_md) as ->.
  { rewrite Hj. change (dot :: md) with dot_md. by rewrite join_snoc_app. }
  unfold concept_id. by rewrite strip_suffix_app.
Qed.

(** The concept id identifies the file: it is the path without [.md],
    and two normalized paths with one id are the same path. *)
Theorem concept_id_injective (p q : str) :
  concept_path p -> concept_path q -> concept_id p = concept_id q -> p = q.
Proof. intros Hp Hq H. by rewrite <- (concept_id_md p), <- (concept_id_md q), H. Qed.

Lemma concept_id_injective_witness :
  lit "notes/hello.md" = lit "notes/hello.md" /\ concept_id (lit "notes/hello.md") = lit "notes/hello".
Proof.
  split; [|vm_compute; reflexivity].
  apply concept_id_injective; [by_decide..|reflexivity].
Defined.
