(* ===== verification/Serde.v ===== *)
(** * The YAML and JSON libraries the parser calls

    [serde_yaml] and [serde_json] are not part of the repository.  A client
    is written against the class [Serde]: the carriers, the deserializers and
    the operations on [serde_json::Map] the code uses; [SerdeLaws] states
    their documented behaviour.  A value is inspected through a view whose
    constructors are those of the public enums.

    [Toy] is one concrete instance (a block of [key: value] lines), so that
    statements over the interface can be evaluated. *)
From stdpp Require Import prelude strings list.
From Stdlib Require Import Ascii.
From S2P Require Import Prelude Str.

(** [serde_json::Value], one layer deep. *)
Inductive json_view (V M : Type) : Type :=
| JNull
| JBool (b : bool)
| JNumber
| JString (s : str)
| JArray (l : list V)
| JObject (m : M).
Arguments JNull {V M}.
Arguments JBool {V M} b.
Arguments JNumber {V M}.
Arguments JString {V M} s.
Arguments JArray {V M} l.
Arguments JObject {V M} m.

(** [serde_yaml::Value] as far as the parser looks into it; a number carries
    its [to_string]. *)
Inductive yaml_view : Type :=
| YString (s : str)
| YNumber (repr : str)
| YOther.

(** [RawFrontmatter]: the derived deserialization target. *)
Record RawFrontmatter (Y : Type) : Type := {
  raw_id : option str;
  raw_concept_type : str;
  raw_title : str;
  raw_description : option str;
  raw_tags : list str;
  raw_resource : option Y;
  raw_extra : list (str * Y)
}.
Arguments raw_id {Y} _.
Arguments raw_concept_type {Y} _.
Arguments raw_title {Y} _.
Arguments raw_description {Y} _.
Arguments raw_tags {Y} _.
Arguments raw_resource {Y} _.
Arguments raw_extra {Y} _.
Arguments Build_RawFrontmatter {Y}.

(** [IndexFrontmatter]. *)
Record IndexFrontmatter (Y : Type) : Type := { okf_version : option Y }.
Arguments okf_version {Y} _.
Arguments Build_IndexFrontmatter {Y}.

Class Serde : Type := {
  yvalue : Type;
  yerror : Type;
  jvalue : Type;
  jerror : Type;
  jmap : Type;
  (** [serde_yaml::from_str] at its three result types *)
  yaml_from_str : str -> result yvalue yerror;
  yaml_raw : str -> result (RawFrontmatter yvalue) yerror;
  yaml_index : str -> result (IndexFrontmatter yvalue) yerror;
  yaml_look : yvalue -> yaml_view;
  (** [serde_json::to_value] of a YAML value *)
  to_value : yvalue -> result jvalue jerror;
  json_look : jvalue -> json_view jvalue jmap;
  json_string : str -> jvalue;
  json_object : jmap -> jvalue;
  (** [serde_json::Map] *)
  map_new : jmap;
  map_get : jmap -> str -> option jvalue;
  map_insert : str -> jvalue -> jmap -> jmap
}.

Class SerdeLaws (S : Serde) : Prop := {
  look_string s : json_look (json_string s) = JString s;
  look_object m : json_look (json_object m) = JObject m;
  get_new k : map_get map_new k = None;
  get_insert k v m : map_get (map_insert k v m) k = Some v;
  get_insert_ne k k' v m : k <> k' -> map_get (map_insert k v m) k' = map_get m k'
}.

(** [collect::<Map<_, _>>()]: later entries of one key win. *)
Definition map_collect {S : Serde} (l : list (str * jvalue)) : jmap :=
  fold_left (fun m '(k, v) => map_insert k v m) l map_new.

(** ** A concrete instance *)

Module Toy.

Inductive value : Type :=
| Scalar (s : str)
| Object (m : list (str * value)).

Fixpoint lookup (m : list (str * value)) (k : str) : option value :=
  match m with
  | [] => None
  | (k', v) :: m' => if decide (k = k') then Some v else lookup m' k
  end.

(** One [key: value] line. *)
Definition line_entry (l : str) : option (str * value) :=
  let '(k, v) := default ([], []) (split_once ":"%char l) in
  if decide (k = []) then None else Some (trim k, Scalar (trim v)).

Definition entries (s : str) : result (list (str * value)) unit :=
  rmap_list (fun l => ok_or tt (line_entry l)) (List.filter (fun l => negb (bool_decide (l = []))) (split_on nl s)).

Definition scalar (o : option value) : option str :=
  match o with Some (Scalar s) => Some s | _ => None end.

Definition known : list str := [lit "id"; lit "type"; lit "title"; lit "description"].

Definition raw (s : str) : result (RawFrontmatter value) unit :=
  rbind (entries s) (fun m =>
    match scalar (lookup m (lit "type")), scalar (lookup m (lit "title")) with
    | Some ty, Some ti =>
        Ok (Build_RawFrontmatter (scalar (lookup m (lit "id"))) ty ti
              (scalar (lookup m (lit "description"))) [] None
              (List.filter (fun '(k, _) => negb (bool_decide (k ∈ known))) m))
    | _, _ => Err tt
    end).

#[export] Instance toy : Serde := {
  yvalue := value; yerror := unit; jvalue := value; jerror := unit;
  jmap := list (str * value);
  yaml_from_str s := rmap Object (entries s);
  yaml_raw := raw;
  yaml_index s := rmap (fun m => Build_IndexFrontmatter (lookup m (lit "okf_version"))) (entries s);
  yaml_look v := match v with Scalar s => YString s | Object _ => YOther end;
  to_value v := Ok v;
  json_look v := match v with Scalar s => JString s | Object m => JObject m end;
  json_string := Scalar;
  json_object := Object;
  map_new := [];
  map_get := lookup;
  map_insert k v m := (k, v) :: m
}.

#[export] Instance toy_laws : SerdeLaws toy.
Proof.
  split; cbn; try done.
  - intros k v m. by rewrite decide_True.
  - intros k k' v m Hk. by rewrite decide_False by congruence.
Qed.

End Toy.
