(* ===== verification/Frontmatter.v ===== *)
(** * Frontmatter blocks ([okf-parser/src/frontmatter.rs])

    [split] cuts a source into the YAML text of its leading [---] block and
    the body after it; [parse] and [index_okf_version] deserialize that text.
    [frontmatter_block] says what the block is without the scan, and
    [split_exact] that the scan finds it and nothing else. *)
From stdpp Require Import prelude strings list.
From Stdlib Require Import Ascii Lia.
From S2P Require Import Prelude Str ParserError Serde.

(** ** Operations *)

Definition fence : str := lit "---".
Definition open_lf : str := fence ++ [nl].
Definition open_crlf : str := fence ++ [cr; nl].

Definition is_crlf (c : ascii) : bool := bool_decide (c = cr \/ c = nl).

(** [segment.trim_end_matches(['\r', '\n']) == "---"]. *)
Definition is_delimiter (segment : str) : bool :=
  bool_decide (trim_end_matches is_crlf segment = fence).

(** [strip_prefix("---\n").or_else(|| strip_prefix("---\r\n"))]. *)
Definition strip_open (source : str) : option str :=
  match strip_prefix open_lf source with
  | Some rest => Some rest
  | None => strip_prefix open_crlf source
  end.

(** The loop over the lines: [Ok (Some (yaml_end, body_start))] at the
    delimiter, [Ok None] at the end of the text, [Err consumed] when the
    lines before it outgrow [max_bytes]. *)
Fixpoint scan (max_bytes : nat) (segments : list str) (consumed : nat)
  : result (option (nat * nat)) nat :=
  match segments with
  | [] => Ok None
  | segment :: rest =>
      if is_delimiter segment then Ok (Some (consumed, consumed + length segment))
      else let consumed' := consumed + length segment in
           if max_bytes <? consumed' then Err consumed'
           else scan max_bytes rest consumed'
  end.

Definition split {Y J} (source path : str) (max_bytes : nat) : result (str * str) (Error Y J) :=
  let? after_open := ok_or (MissingFrontmatter path) (strip_open source) in
  let? found := rmap_err (fun n => FrontmatterTooLarge path n max_bytes)
                  (scan max_bytes (split_inclusive nl after_open) 0) in
  let? (yaml_end, body_start) := ok_or (UnterminatedFrontmatter path) found in
  if max_bytes <? yaml_end then Err (FrontmatterTooLarge path yaml_end max_bytes)
  else Ok (take yaml_end after_open, drop body_start after_open).

(** U+FEFF. *)
Definition bom : str := [ascii_of_N 239; ascii_of_N 187; ascii_of_N 191].
Definition strip_bom (s : str) : str := default s (strip_prefix bom s).

Section serde.
Context `{S : Serde}.

Record Frontmatter : Type := {
  fm_id : option str;
  fm_concept_type : str;
  fm_title : str;
  fm_description : option str;
  fm_tags : list str;
  fm_resource : option jvalue;
  fm_metadata : jmap
}.

Definition parse (source path : str) (max_bytes : nat)
  : result (Frontmatter * str) (Error yerror jerror) :=
  let? (yaml, body) := split source path max_bytes in
  let? raw := rmap_err (InvalidFrontmatter path) (yaml_raw yaml) in
  let? resource :=
    match raw_resource raw with
    | None => Ok None
    | Some v => rmap Some (rmap_err (InvalidMetadata path) (to_value v))
    end in
  let? metadata :=
    rmap_list (fun '(key, value) =>
                 rmap (pair key) (rmap_err (InvalidMetadata path) (to_value value)))
              (raw_extra raw) in
  Ok ({| fm_id := raw_id raw;
         fm_concept_type := raw_concept_type raw;
         fm_title := raw_title raw;
         fm_description := raw_description raw;
         fm_tags := raw_tags raw;
         fm_resource := resource;
         fm_metadata := map_collect metadata |}, body).

Definition index_okf_version (source : str) (max_bytes : nat) : option str :=
  if negb (utf8_valid source) then None
  else
    after_open ← strip_open (strip_bom source);
    found ← r_ok (scan max_bytes (split_inclusive nl after_open) 0);
    '(yaml_end, _) ← found;
    parsed ← r_ok (yaml_index (take yaml_end after_open));
    version ← okf_version parsed;
    match yaml_look version with
    | YString text => let trimmed := trim text in
                      if decide (trimmed = []) then None else Some trimmed
    | YNumber repr => Some repr
    | YOther => None
    end.

End serde.
Arguments Frontmatter {S}.

(** ** What a frontmatter block is *)

Definition whole_lines (s : str) : Prop := s = [] \/ last s = Some nl.

(** One line: text without a newline, and the newline unless the input ends. *)
Definition one_line (l : str) (at_end : Prop) : Prop :=
  exists t, (nl ∉ t) /\ (l = t ++ [nl] \/ (l = t /\ t <> [] /\ at_end)).

Definition no_delimiter (s : str) : Prop :=
  Forall (fun l => is_delimiter l = false) (split_inclusive nl s).

Definition frontmatter_block (source yaml close body : str) : Prop :=
  (source = open_lf ++ yaml ++ close ++ body \/ source = open_crlf ++ yaml ++ close ++ body)
  /\ whole_lines yaml /\ no_delimiter yaml
  /\ one_line close (body = []) /\ is_delimiter close = true.

(** ** Lines *)

Lemma split_inclusive_plain t : nl ∉ t -> t <> [] -> split_inclusive nl t = [t].
Proof.
  induction t as [|c t IH]; [done|]. intros [Hc Ht]%not_elem_of_cons _. simpl.
  rewrite decide_False by congruence. destruct t; [done|]. by rewrite IH.
Qed.

Lemma split_inclusive_line t s :
  nl ∉ t -> split_inclusive nl (t ++ nl :: s) = (t ++ [nl]) :: split_inclusive nl s.
Proof.
  induction t as [|c t IH]; intros Ht; [done|]. simpl.
  apply not_elem_of_cons in Ht as [Hc Ht]. rewrite decide_False by congruence.
  by rewrite IH.
Qed.

(** The lines of a string, as an induction principle. *)
Lemma lines_ind (P : str -> Prop) :
  P [] -> (forall t, (nl ∉ t) -> t <> [] -> P t) ->
  (forall t s, (nl ∉ t) -> P s -> P (t ++ nl :: s)) -> forall s, P s.
Proof.
  intros H0 H1 H2 s. remember (length s) as n eqn:Hn. revert s Hn.
  induction n as [n IH] using (well_founded_induction lt_wf). intros s ->.
  destruct (split_once nl s) as [[a b]|] eqn:E.
  - apply split_once_Some in E as [-> Ha]. apply H2; [done|].
    eapply IH; [|done]. rewrite length_app. simpl. lia.
  - apply split_once_None in E. destruct s; [done|]. by apply H1.
Qed.

Lemma split_inclusive_app y s :
  whole_lines y -> split_inclusive nl (y ++ s) = split_inclusive nl y ++ split_inclusive nl s.
Proof.
  induction y as [|t Ht Hne|t y Ht IH] using lines_ind; intros Hw; [done| |].
  - destruct Hw as [->|Hl]; [done|]. destruct Ht. by apply last_Some_elem_of.
  - rewrite <- app_assoc. cbn [app]. rewrite !split_inclusive_line by done.
    cbn [app]. f_equal. apply IH. destruct Hw as [Hn|Hl]; [by destruct t|].
    rewrite last_app_cons in Hl. destruct y; [by left|right]. done.
Qed.

(** Each segment is a line, and only the last may lack its newline. *)
Lemma split_inclusive_cut s pre seg post :
  split_inclusive nl s = pre ++ seg :: post ->
  whole_lines (concat pre) /\ split_inclusive nl (concat pre) = pre /\
  one_line seg (concat post = []) /\ s = concat pre ++ seg ++ concat post.
Proof.
  revert pre. induction s as [|t Ht Hne|t s Ht IH] using lines_ind; intros pre H.
  - by destruct pre.
  - rewrite split_inclusive_plain in H by done. destruct pre as [|? [|]]; simplify_eq/=.
    split; [by left|]. split; [done|]. split; [|by rewrite app_nil_r]. exists seg. naive_solver.
  - rewrite split_inclusive_line in H by done. destruct pre as [|p pre]; simplify_eq/=.
    + split; [by left|]. split; [done|]. split; [exists t; naive_solver|].
      by rewrite split_inclusive_concat, <- app_assoc.
    + destruct (IH pre) as (Hw & Hs & Hl & He); [done|]. split; [|split; [|split; [done|]]].
      * right. rewrite <- app_assoc. cbn [app]. rewrite last_app_cons.
        destruct Hw as [->|Hw]; [done|]. by destruct (concat pre).
      * rewrite <- app_assoc. cbn [app]. rewrite split_inclusive_line by done. by rewrite Hs.
      * rewrite He at 1. by rewrite <- !app_assoc.
Qed.

Lemma one_line_segments l s : one_line l (s = []) -> split_inclusive nl (l ++ s) = l :: split_inclusive nl s.
Proof.
  intros (t & Ht & [->|(-> & Hne & ->)]).
  - rewrite <- app_assoc. by apply split_inclusive_line.
  - rewrite app_nil_r. by apply split_inclusive_plain.
Qed.

(** ** The scan *)

Definition total (ls : list str) : nat := length (concat ls).

Lemma total_cons l ls : total (l :: ls) = length l + total ls.
Proof. unfold total. simpl. by rewrite length_app. Qed.

Lemma scan_found max segs c a b :
  c <= max ->
  scan max segs c = Ok (Some (a, b)) <->
  exists pre seg post, segs = pre ++ seg :: post /\ is_delimiter seg = true /\
    Forall (fun l => is_delimiter l = false) pre /\
    a = c + total pre /\ b = a + length seg /\ a <= max.
Proof.
  revert c. induction segs as [|s segs IH]; intros c Hc; simpl.
  { split; [done|]. intros (pre & ? & ? & []%app_cons_not_nil & _). }
  destruct (is_delimiter s) eqn:Es; [|case_match; bool_prop].
  - split.
    + intros [= <- <-]. exists [], s, segs. unfold total. simpl. repeat split; auto; lia.
    + intros (pre & seg & post & Hs & Hd & Hp & -> & -> & _).
      destruct pre as [|p pre]; simplify_eq/=; [unfold total; simpl; by rewrite Nat.add_0_r|].
      inversion Hp; congruence.
  - split; [done|]. intros (pre & seg & post & Hs & Hd & Hp & -> & -> & Ha).
    destruct pre as [|p pre]; simplify_eq/=; [congruence|]. rewrite total_cons in Ha. lia.
  - rewrite IH by lia. split.
    + intros (pre & seg & post & -> & Hd & Hp & -> & -> & Ha).
      exists (s :: pre), seg, post. rewrite total_cons. repeat split; auto; lia.
    + intros (pre & seg & post & Hs & Hd & Hp & -> & -> & Ha).
      destruct pre as [|p pre]; simplify_eq/=; [congruence|].
      inversion Hp; subst. rewrite total_cons in *. exists pre, seg, post. repeat split; auto; lia.
Qed.

Lemma scan_none max segs c :
  c <= max ->
  scan max segs c = Ok None <->
  Forall (fun l => is_delimiter l = false) segs /\ c + total segs <= max.
Proof.
  revert c. induction segs as [|s segs IH]; intros c Hc; simpl.
  { unfold total. simpl. split; [split; [auto|lia]|done]. }
  rewrite Forall_cons, total_cons. destruct (is_delimiter s) eqn:Es; [naive_solver|].
  case_match; bool_prop; [split; [done|lia]|]. rewrite IH by lia. naive_solver lia.
Qed.

(** An oversized scan read whole lines, all of them before any delimiter. *)
Lemma scan_too_large max segs c n :
  scan max segs c = Err n ->
  max < n /\ exists pre post, segs = pre ++ post /\ n = c + total pre /\
    Forall (fun l => is_delimiter l = false) pre.
Proof.
  revert c. induction segs as [|s segs IH]; intros c; simpl; [done|].
  destruct (is_delimiter s) eqn:Es; [done|]. case_match; bool_prop.
  - intros [= <-]. split; [done|]. exists [s], segs. unfold total. simpl.
    rewrite app_nil_r. auto.
  - intros (Hn & pre & post & -> & -> & HF)%IH. split; [done|].
    exists (s :: pre), post. rewrite total_cons. split; [done|]. split; [lia|auto].
Qed.

Lemma strip_open_Some s r :
  strip_open s = Some r <-> s = open_lf ++ r \/ s = open_crlf ++ r.
Proof.
  unfold strip_open. destruct (strip_prefix open_lf s) as [r'|] eqn:E.
  - apply strip_prefix_Some in E as ->. split; [naive_solver|].
    intros [->%app_inv_head|H]; [done|]. by vm_compute in H.
  - rewrite strip_prefix_Some. split; [auto|]. intros [->|]; [|done].
    by rewrite strip_prefix_app in E.
Qed.

Lemma split_exact_helper {Y J} (source path : str) (max_bytes : nat) (yaml body : str) :
  split (Y:=Y) (J:=J) source path max_bytes = Ok (yaml, body) <->
  length yaml <= max_bytes /\ exists close, frontmatter_block source yaml close body.
Proof.
  unfold split. rewrite rbind_ok. split.
  - intros (rest & Hopen & Hrun).
    destruct (strip_open source) as [r|] eqn:Eo; simplify_eq/=.
    destruct (scan _ _ _) as [found|] eqn:Es; [|done]. cbn [rmap_err rbind] in Hrun.
    destruct found as [[a b]|]; [|done]. cbn [ok_or rbind] in Hrun.
    apply scan_found in Es as (pre & seg & post & Hseg & Hd & HF & -> & -> & Hle); [|lia].
    apply split_inclusive_cut in Hseg as (Hw & Hpre & Hl & He).
    case_match; bool_prop; [done|]. simpl in Hrun. injection Hrun as <- <-.
    unfold total in *. cbn [Nat.add] in *. rewrite He, take_app_length. split; [done|].
    exists seg. replace (drop _ _) with (concat post).
    2:{ by rewrite app_assoc, <- length_app, drop_app_length. }
    rewrite He in Eo. apply strip_open_Some in Eo. repeat split; try done.
    unfold no_delimiter. by rewrite Hpre.
  - intros (Hle & close & Hsrc & Hw & Hnd & Hl & Hd).
    exists (yaml ++ close ++ body). split; [by rewrite (proj2 (strip_open_Some _ _) Hsrc)|].
    assert (scan max_bytes (split_inclusive nl (yaml ++ close ++ body)) 0
            = Ok (Some (length yaml, length yaml + length close))) as ->.
    { apply scan_found; [lia|]. rewrite split_inclusive_app, one_line_segments by done.
      exists (split_inclusive nl yaml), close, (split_inclusive nl body).
      unfold total. rewrite split_inclusive_concat. repeat split; try done; lia. }
    cbn [rmap_err rbind ok_or]. rewrite (proj2 (Nat.ltb_ge _ _)) by done.
    rewrite take_app_length, app_assoc, <- length_app, drop_app_length. done.
Qed.

(** [split] is exact.  It returns a YAML text and a body precisely when
    the source is an opening fence, whole lines none of which is a delimiter
    (the YAML text, at most [max_bytes] long), the first delimiter line, and
    the body, in this order and with nothing lost. *)
Theorem split_exact {Y J} (source path : str) (max_bytes : nat) (yaml body : str) :
  split (Y:=Y) (J:=J) source path max_bytes = Ok (yaml, body) <->
  length yaml <= max_bytes /\ exists close, frontmatter_block source yaml close body.
Proof. apply split_exact_helper. Qed.

(** ** The readers of the block *)

Section readers.
Context `{S : Serde}.

(** The version a bundle-root block declares. *)
Definition version_of (yaml : str) : option str :=
  parsed ← r_ok (yaml_index yaml);
  version ← okf_version parsed;
  match yaml_look version with
  | YString text => if decide (trim text = []) then None else Some (trim text)
  | YNumber repr => Some repr
  | YOther => None
  end.

(** The second scanner agrees with the first: on any bytes,
    [index_okf_version] reads exactly the YAML text [split] would cut, and
    every failure of [split] (no fence, unterminated, too large) and every
    non-UTF-8 input yields [None]. *)
Theorem index_okf_version_split (source path : str) (max_bytes : nat) :
  index_okf_version source max_bytes =
  if utf8_valid source then
    match split (Y:=yerror) (J:=jerror) (strip_bom source) path max_bytes with
    | Ok (yaml, _) => version_of yaml
    | Err _ => None
    end
  else None.
Proof.
  unfold index_okf_version, split, version_of. destruct (utf8_valid source); [|done]. simpl negb.
  cbv iota. destruct (strip_open (strip_bom source)) as [rest|]; [|done]. simpl.
  destruct (scan _ _ _) as [[[a b]|]|] eqn:E; [|done..]. simpl.
  apply scan_found in E as (_ & _ & _ & _ & _ & _ & _ & _ & Ha); [|lia].
  rewrite (proj2 (Nat.ltb_ge _ _)) by done. done.
Qed.

Context `{L : !SerdeLaws S}.

Lemma map_collect_go l m k :
  NoDup l.*1 ->
  map_get (fold_left (fun m '(k, v) => map_insert k v m) l m) k =
  match list_find (fun '(k', _) => k = k') l with
  | Some (_, (_, v)) => Some v
  | None => map_get m k
  end.
Proof.
  revert m. induction l as [|[k' v] l IH]; intros m; [done|].
  cbn [fmap list_fmap fst fold_left]. intros [Hk Hl]%NoDup_cons. rewrite IH by done.
  cbn [list_find]. destruct (decide (k = k')) as [->|Hne].
  - rewrite get_insert. destruct (list_find _ l) as [[i [k2 v2]]|] eqn:E; [|done].
    apply list_find_Some in E as (Hi & -> & _). destruct Hk.
    apply list_elem_of_fmap. exists (k2, v2). split; [done|]. by eapply list_elem_of_lookup_2.
  - destruct (list_find _ l) as [[i [k2 v2]]|] eqn:E; cbn; [done|]. by rewrite get_insert_ne.
Qed.

(** With distinct keys, collecting keeps every entry and adds none. *)
Lemma map_collect_get l k v :
  NoDup l.*1 -> map_get (map_collect l) k = Some v <-> (k, v) ∈ l.
Proof.
  intros Hnd. unfold map_collect. rewrite map_collect_go, get_new by done.
  destruct (list_find _ l) as [[i [k2 v2]]|] eqn:E.
  - apply list_find_Some in E as (Hi & -> & _). apply list_elem_of_lookup_2 in Hi.
    split; [by intros [= ->]|]. intros Hkv. f_equal.
    by eapply NoDup_fst_unique.
  - split; [done|]. intros Hkv. apply list_find_None in E.
    rewrite Forall_forall in E. destruct (E _ Hkv). done.
Qed.

End readers.
