(* ===== verification/Links.v ===== *)
(** * Links and plain text of a Markdown body
      ([okf-parser/src/links.rs], [okf-parser/src/markdown.rs])

    Both modules fold over the event stream of [pulldown_cmark], which is not
    part of the repository: the stream is an argument, and the theorems hold
    for every stream, balanced or not. *)
From stdpp Require Import prelude strings list sorting.
From Stdlib Require Import Ascii Lia.
From S2P Require Import Prelude Str ParserError OkfPath.

(** ** The events of [pulldown_cmark] the two modules tell apart *)

Inductive LinkType : Type :=
| LtInline
| LtReference
| LtReferenceUnknown
| LtCollapsed
| LtCollapsedUnknown
| LtShortcut
| LtShortcutUnknown
| LtAutolink
| LtEmail
| LtWikiLink.

Inductive Tag : Type :=
| TagLink (link_type : LinkType) (dest_url : str)
| TagImage (dest_url : str)
| TagItem
| TagOther.

Inductive TagEnd : Type :=
| EndLink
| EndImage
| EndParagraph
| EndHeading
| EndItem
| EndBlockQuote
| EndCodeBlock
| EndTableHead
| EndTableRow
| EndTableCell
| EndOther.

Inductive Event : Type :=
| Start (tag : Tag)
| End_ (tag : TagEnd)
| Text (text : str)
| Code (text : str)
| SoftBreak
| HardBreak
| Rule
| EventOther.

(** ** [links.rs] *)

Inductive LinkKind : Type :=
| Inline
| Reference
| Autolink
| Email
| Image.

#[export] Instance LinkKind_eq_dec : EqDecision LinkKind.
Proof. solve_decision. Defined.

Record Link : Type := {
  target : str;
  label : str;
  kind : LinkKind;
  ordinal : nat;
  is_external : bool;
  target_path : option str;
  target_id : option str
}.

Record PendingLink : Type := {
  p_target : str;
  p_label : str;
  p_kind : LinkKind;
  p_ordinal : nat
}.

Definition is_scheme_char (c : ascii) : bool :=
  is_ascii_alphanumeric c || bool_decide (c = "+"%char \/ c = "."%char \/ c = "-"%char).

Definition is_external_target (t : str) : bool :=
  starts_with (lit "//") t ||
  match split_once ":"%char t with
  | Some (first :: rest, _) => is_ascii_alphabetic first && forallb is_scheme_char rest
  | _ => false
  end.

Definition into_link (p : PendingLink) (source_path : str) : Link :=
  let external := bool_decide (p_kind p = Email) || is_external_target (p_target p) in
  let path := if external then None else resolve_link_target (p_target p) source_path in
  {| target := p_target p;
     label := trim (p_label p);
     kind := p_kind p;
     ordinal := p_ordinal p;
     is_external := external;
     target_path := path;
     target_id := concept_id <$> path |}.

Record ResolvedReference : Type := {
  rr_is_external : bool;
  rr_target_path : option str;
  rr_target_id : option str
}.

Definition resolve_reference (reference source_path : str) : ResolvedReference :=
  let external := is_external_target reference in
  let path := if external then None else resolve_link_target reference source_path in
  {| rr_is_external := external;
     rr_target_path := path;
     rr_target_id := concept_id <$> path |}.

Definition classify (link_type : LinkType) : LinkKind :=
  match link_type with
  | LtAutolink => Autolink
  | LtEmail => Email
  | LtReference | LtReferenceUnknown | LtCollapsed | LtCollapsedUnknown
  | LtShortcut | LtShortcutUnknown | LtWikiLink => Reference
  | LtInline => Inline
  end.

Definition append_label (text : str) (p : PendingLink) : PendingLink :=
  {| p_target := p_target p; p_label := p_label p ++ text;
     p_kind := p_kind p; p_ordinal := p_ordinal p |}.

(** [iter().rposition(P)]. *)
Fixpoint rposition {A} (P : A -> bool) (l : list A) : option nat :=
  match l with
  | [] => None
  | x :: l' => match rposition P l' with
               | Some i => Some (S i)
               | None => if P x then Some 0 else None
               end
  end.

(** The locals of [extract]. *)
Record extract_state : Type := {
  links : list Link;
  pending : list PendingLink;
  next_ordinal : nat
}.

Definition push_pending (st : extract_state) (dest : str) (k : LinkKind) : extract_state :=
  {| links := links st;
     pending := pending st ++ [{| p_target := dest; p_label := []; p_kind := k;
                                  p_ordinal := next_ordinal st |}];
     next_ordinal := S (next_ordinal st) |}.

Definition label_all (st : extract_state) (text : str) : extract_state :=
  {| links := links st; pending := map (append_label text) (pending st);
     next_ordinal := next_ordinal st |}.

(** The end of a link or image closes the innermost open one of its sort. *)
Definition close_link (source_path : str) (expected_image : bool) (st : extract_state)
  : extract_state :=
  match rposition (fun l => Bool.eqb (bool_decide (p_kind l = Image)) expected_image) (pending st) with
  | Some i =>
      match pending st !! i with
      | Some p => {| links := links st ++ [into_link p source_path];
                     pending := delete i (pending st);
                     next_ordinal := next_ordinal st |}
      | None => st
      end
  | None => st
  end.

Definition extract_step (source_path : str) (st : extract_state) (e : Event) : extract_state :=
  match e with
  | Start (TagLink link_type dest_url) => push_pending st dest_url (classify link_type)
  | Start (TagImage dest_url) => push_pending st dest_url Image
  | Text text | Code text => label_all st text
  | SoftBreak | HardBreak => label_all st [" "%char]
  | End_ EndLink => close_link source_path false st
  | End_ EndImage => close_link source_path true st
  | _ => st
  end.

Definition extract_run (source_path : str) (events : list Event) : extract_state :=
  fold_left (extract_step source_path) events
    {| links := []; pending := []; next_ordinal := 0 |}.

(** [links.sort_by_key(|link| link.ordinal)], a stable sort. *)
Definition sort_by_ordinal (ls : list Link) : list Link :=
  sort_by (fun a b => ordinal a <=? ordinal b) ls.

Definition extract (events : list Event) (source_path : str) : list Link :=
  sort_by_ordinal (links (extract_run source_path events)).

(** ** [markdown.rs] *)

Definition push_newline (out : str) : str :=
  if decide (out = []) then out
  else if ends_with [nl] out then out else out ++ [nl].

Definition plain_step (out : str) (e : Event) : str :=
  match e with
  | Text text | Code text => out ++ text
  | SoftBreak | HardBreak
  | End_ (EndParagraph | EndHeading | EndItem | EndBlockQuote | EndCodeBlock
         | EndTableHead | EndTableRow) => push_newline out
  | End_ EndTableCell => out ++ [" "%char]
  | Rule => push_newline (push_newline out ++ lit "---")
  | Start TagItem =>
      if negb (ends_with [nl] out) && negb (bool_decide (out = [])) then push_newline out else out
  | _ => out
  end.

Definition plain_text (events : list Event) : str :=
  join [nl] (List.filter (fun l => negb (bool_decide (l = [])))
               (map trim (lines (fold_left plain_step events [])))).

(** ** What a link may say *)

(** Document order, and no destination outside the bundle. *)
Definition link_ok (l : Link) : Prop :=
  target_id l = concept_id <$> target_path l /\
  (is_external l = true -> target_path l = None) /\
  (forall q, target_path l = Some q -> concept_path q).


Lemma into_link_ok p src : concept_path src -> link_ok (into_link p src).
Proof.
  intros Hs. unfold into_link, link_ok. cbn [target_id target_path is_external]. split; [done|].
  destruct (_ || _); split; try done. intros q Hq. by eapply resolve_link_target_concept.
Qed.

Lemma rposition_lt {A} (P : A -> bool) l i : rposition P l = Some i -> i < length l.
Proof.
  revert i. induction l as [|x l IH]; intros i; simpl; [done|].
  destruct (rposition P l) as [j|]; [intros [= <-]; specialize (IH j eq_refl); lia|].
  destruct (P x); [intros [= <-]; lia|done].
Qed.

(** Every ordinal handed out is either closed or still open, and only once. *)
Definition ordinals_inv (src : str) (st : extract_state) : Prop :=
  (ordinal <$> links st) ++ (p_ordinal <$> pending st) ≡ₚ seq 0 (next_ordinal st) /\
  Forall (fun l => exists p, l = into_link p src) (links st).

Lemma extract_step_inv src st e : ordinals_inv src st -> ordinals_inv src (extract_step src st e).
Proof.
  intros [HP HF].
  assert (forall d k, ordinals_inv src (push_pending st d k)) as Hpush.
  { intros d k. split; [|done]. unfold push_pending. cbn [links pending next_ordinal].
    rewrite fmap_app, app_assoc, HP, seq_S. done. }
  assert (forall t, ordinals_inv src (label_all st t)) as Hlab.
  { intros t. split; [|done]. unfold label_all. cbn [links pending next_ordinal].
    rewrite <- HP. f_equiv. change (map (append_label t)) with (fmap (M := list) (append_label t)). by rewrite <- list_fmap_compose. }
  assert (forall b, ordinals_inv src (close_link src b st)) as Hclose.
  { intros b. unfold close_link. destruct (rposition _ _) as [i|] eqn:Ei; [|done].
    destruct (pending st !! i) as [p|] eqn:Ep; [|done]. split; cbn [links pending next_ordinal].
    - rewrite <- HP, fmap_app. cbn [fmap list_fmap]. rewrite <- app_assoc. f_equiv.
      rewrite (delete_Permutation _ _ _ Ep) at 2. done.
    - apply Forall_app. split; [done|]. apply Forall_singleton. eauto. }
  destruct e as [[]|[]| | | | | |]; cbn [extract_step]; done || apply Hpush || apply Hlab || apply Hclose.
Qed.

Lemma extract_run_inv src events : ordinals_inv src (extract_run src events).
Proof.
  unfold extract_run.
  assert (ordinals_inv src {| links := []; pending := []; next_ordinal := 0 |}) as H0
    by (split; [done|constructor]).
  revert H0. generalize ({| links := []; pending := []; next_ordinal := 0 |}).
  induction events as [|e events IH]; intros st H; simpl; [done|].
  by apply IH, extract_step_inv.
Qed.

Lemma sort_by_ordinal_perm ls : sort_by_ordinal ls ≡ₚ ls.
Proof. apply sort_by_perm. Qed.

Lemma sort_by_ordinal_sorted ls : StronglySorted le (ordinal <$> sort_by_ordinal ls).
Proof.
  apply (StronglySorted_on ordinal le), sort_by_sorted; [intros a b c; lia|..];
    intros a b Hab; bool_prop; lia.
Qed.

Lemma sorted_le_lt l : StronglySorted le l -> NoDup l -> StronglySorted lt l.
Proof.
  induction 1 as [|x l Hl IH HF]; intros Hnd; [constructor|].
  apply NoDup_cons in Hnd as [Hx Hnd]. constructor; [auto|].
  rewrite Forall_forall in HF |- *. intros y Hy. specialize (HF y Hy).
  destruct (decide (x = y)) as [->|]; [done|lia].
Qed.

Lemma seq_sorted a n : StronglySorted le (seq a n).
Proof.
  revert a. induction n as [|n IH]; intros a; simpl; constructor; [done|].
  apply Forall_forall. intros x Hx%elem_of_seq. lia.
Qed.

Lemma extract_forall_ok events src : concept_path src -> Forall link_ok (extract events src).
Proof.
  intros Hs. destruct (extract_run_inv src events) as [_ HF].
  unfold extract. rewrite sort_by_ordinal_perm. eapply Forall_impl; [done|].
  intros l (p & ->). by apply into_link_ok.
Qed.

(** Whatever events the Markdown parser produces, the links come out in
    document order with distinct ordinals, every one of them is either
    external without a target or resolves inside the bundle, and when no
    link is left open at the end the ordinals are [0, 1, ..., n-1]. *)
Theorem extract_links_ok (events : list Event) (source_path : str) :
  concept_path source_path ->
  StronglySorted lt (ordinal <$> extract events source_path) /\
  Forall link_ok (extract events source_path) /\
  (pending (extract_run source_path events) = [] ->
   ordinal <$> extract events source_path
   = seq 0 (next_ordinal (extract_run source_path events))).
Proof.
  intros Hs. destruct (extract_run_inv source_path events) as [HP HF].
  unfold extract. set (st := extract_run source_path events) in *.
  assert (StronglySorted lt (ordinal <$> sort_by_ordinal (links st))) as Hlt.
  { apply sorted_le_lt; [apply sort_by_ordinal_sorted|]. rewrite sort_by_ordinal_perm.
    assert (NoDup ((ordinal <$> links st) ++ (p_ordinal <$> pending st))) as Hnd
      by (rewrite HP; apply NoDup_seq). by apply NoDup_app in Hnd as [? _]. }
  split; [done|]. split.
  - by apply extract_forall_ok.
  - intros Hp. rewrite Hp, app_nil_r in HP.
    apply (StronglySorted_unique le); [apply sort_by_ordinal_sorted|apply seq_sorted|].
    by rewrite sort_by_ordinal_perm.
Qed.

Lemma extract_links_ok_witness :
  extract [Start (TagLink LtInline (lit "../b.md")); Text (lit " B ");
           Start (TagImage (lit "https://x/y.png")); End_ EndImage; End_ EndLink] (lit "a/a.md")
  = [{| target := lit "../b.md"; label := lit "B"; kind := Inline; ordinal := 0;
        is_external := false; target_path := Some (lit "b.md"); target_id := Some (lit "b") |};
     {| target := lit "https://x/y.png"; label := []; kind := Image; ordinal := 1;
        is_external := true; target_path := None; target_id := None |}]
  /\ StronglySorted lt (ordinal <$> extract [Start (TagImage (lit "i.md"))] (lit "a/a.md")).
Proof.
  split; [vm_compute; reflexivity|]. apply extract_links_ok. by_decide.
Defined.

(** ** Plain text *)

Lemma lines_no_nl s : Forall (fun l => nl ∉ l) (lines s).
Proof.
  unfold lines. apply Forall_forall. intros l (l0 & -> & Hl0)%list_elem_of_fmap.
  assert (exists t, (nl ∉ t) /\ (l0 = t \/ l0 = t ++ [nl])) as (t & Ht & Hl).
  { revert Hl0. clear. induction s as [|c s IH] in l0 |- *; simpl; [by intros ?%not_elem_of_nil|].
    case_decide; subst.
    - intros [->|?]%elem_of_cons; [exists []; split; [apply not_elem_of_nil|by right]|eauto].
    - destruct (split_inclusive nl s) as [|p ps].
      + intros ->%list_elem_of_singleton. exists [c]. split; [set_solver|by left].
      + intros [->|?]%elem_of_cons; [|apply IH; by right].
        destruct (IH p) as (t & Ht & Hp); [by left|]. exists (c :: t).
        split; [set_solver|]. destruct Hp as [->| ->]; auto. }
  destruct Hl as [->| ->].
  - destruct (strip_suffix [nl] t) as [t'|] eqn:E; [|done].
    apply strip_suffix_Some in E as ->. set_solver.
  - rewrite strip_suffix_app. destruct (strip_suffix [cr] t) as [t'|] eqn:E; cbn; [|done].
    apply strip_suffix_Some in E as ->. set_solver.
Qed.

(** The rendered text is compact for every event stream: it is empty, or
    each of its lines is non-empty and carries no surrounding white space. *)
Theorem plain_text_compact (events : list Event) :
  plain_text events = [] \/
  Forall (fun l => l <> [] /\ trim l = l) (split_on nl (plain_text events)).
Proof.
  unfold plain_text. set (ls := List.filter _ _).
  assert (Forall (fun l => (l <> [] /\ trim l = l) /\ (nl ∉ l)) ls) as HF.
  { apply Forall_forall. intros l [Hl Hne]%list_elem_of_In%filter_In.
    apply list_elem_of_In, list_elem_of_fmap in Hl as (l0 & -> & Hl0). bool_prop.
    split; [split; [done|apply trim_idem]|]. intros Hn%trim_sub.
    pose proof (lines_no_nl (fold_left plain_step events [])) as Hnl.
    rewrite Forall_forall in Hnl. by apply (Hnl l0). }
  apply Forall_and in HF as [H1 H2]. destruct ls as [|l ls]; [by left|right].
  by rewrite split_on_join.
Qed.
