(* ===== verification/Concept.v ===== *)
(** * Parsed concepts ([okf-parser/src/lib.rs], [limits.rs], [model.rs],
      [version.rs], [skill.rs])

    [parse_concept] reads an OKF document, [parse_skill_manifest] an Agent
    Skills [SKILL.md] as a virtual concept of type [Skill].  Both are written
    over the [Serde] interface and a Markdown event stream [events]. *)
From stdpp Require Import prelude strings list.
From Stdlib Require Import Ascii Lia.
From S2P Require Import Prelude Str ParserError OkfPath Serde Frontmatter Links.

(** ** [limits.rs], [version.rs] *)

Record ParserLimits : Type := {
  max_file_bytes : nat;
  max_frontmatter_bytes : nat
}.

Definition SUPPORTED_OKF_VERSIONS : list str := [lit "0.2"].

Definition is_supported_okf_version (version : str) : bool :=
  let trimmed := trim_start_matches (fun c => bool_decide (c = "v"%char \/ c = "V"%char))
                   (trim version) in
  match split_on dot trimmed with
  | major :: minor :: _ =>
      if bool_decide (major = []) || bool_decide (minor = []) then false
      else existsb (fun supported =>
             match split_on dot supported with
             | maj :: min :: _ => bool_decide (maj = major) && bool_decide (min = minor)
             | _ => false
             end) SUPPORTED_OKF_VERSIONS
  | _ => false
  end.

(** ** [skill.rs]: constants, diagnostics, names *)

Definition SKILL_TYPE : str := lit "Skill".
Definition AGENT_SKILL_KEY : str := lit "agent_skill".
Definition NAME_MAX_LEN : nat := 64.
Definition DESCRIPTION_MAX_LEN : nat := 1024.
Definition RESOURCE_DIRECTORIES : list str := [lit "scripts"; lit "references"; lit "assets"].

Inductive SkillDiagnostic : Type :=
| NameInvalid (name : str)
| NameDirectoryMismatch (name directory : str)
| DescriptionTooLong (length : nat).

#[export] Instance SkillDiagnostic_eq_dec : EqDecision SkillDiagnostic.
Proof. solve_decision. Defined.

Definition diagnostic_code (d : SkillDiagnostic) : str :=
  match d with
  | NameInvalid _ => lit "skill_name_invalid"
  | NameDirectoryMismatch _ _ => lit "skill_name_directory_mismatch"
  | DescriptionTooLong _ => lit "skill_description_invalid"
  end.

Definition hyphen : ascii := "-"%char.

Definition name_byte (b : ascii) : bool :=
  is_ascii_lowercase b || is_ascii_digit b || bool_decide (b = hyphen).

Definition is_valid_name (name : str) : bool :=
  negb (bool_decide (name = []))
  && (length name <=? NAME_MAX_LEN)
  && negb (starts_with [hyphen] name)
  && negb (ends_with [hyphen] name)
  && negb (contains [hyphen; hyphen] name)
  && forallb name_byte name.

Definition is_package_resource (path package_root : str) : bool :=
  let relative :=
    if decide (package_root = []) then Some path
    else rest ← strip_prefix package_root path; strip_prefix [slash] rest in
  match rest ← relative; split_once slash rest with
  | Some (directory, file) =>
      bool_decide (directory ∈ RESOURCE_DIRECTORIES) && negb (bool_decide (file = []))
  | None => false
  end.

Definition resolve_resource_link (source_path package_root : str) (link : Link) : Link :=
  if is_external link then link
  else match resolve_link_path (target link) source_path with
       | None => link
       | Some resolved =>
           if is_package_resource resolved package_root
           then {| target := target link; label := label link; kind := kind link;
                   ordinal := ordinal link; is_external := is_external link;
                   target_path := Some resolved; target_id := Some resolved |}
           else link
       end.

Section concept.
Context `{S : Serde}.

(** ** [model.rs] *)

Record ParsedConcept : Type := {
  pc_id : str;
  pc_declared_id : option str;
  pc_path : str;
  pc_type : str;
  pc_title : str;
  pc_description : option str;
  pc_tags : list str;
  pc_resource : option jvalue;
  pc_body_text : str;
  pc_links : list Link;
  pc_metadata : jmap
}.

Abbreviation PError := (Error yerror jerror).
Context (events : str -> list Event).

(** ** [lib.rs] *)

Definition parse_concept (source relative_path : str) (limits : ParserLimits)
  : result ParsedConcept PError :=
  let? path := normalize_path relative_path in
  if is_reserved_path path then Err (ReservedPath path)
  else if max_file_bytes limits <? length source
  then Err (FileTooLarge path (length source) (max_file_bytes limits))
  else if negb (utf8_valid source) then Err (InvalidUtf8 path)
  else
    let? (fm, body) := parse (strip_bom source) path (max_frontmatter_bytes limits) in
    Ok {| pc_id := concept_id path;
          pc_declared_id := fm_id fm;
          pc_path := path;
          pc_type := fm_concept_type fm;
          pc_title := fm_title fm;
          pc_description := fm_description fm;
          pc_tags := fm_tags fm;
          pc_resource := fm_resource fm;
          pc_body_text := plain_text (events body);
          pc_links := extract (events body) path;
          pc_metadata := fm_metadata fm |}.

(** ** [skill.rs]: the manifest *)

Definition parse_frontmatter (yaml path : str) : result jmap PError :=
  let? value := rmap_err (InvalidFrontmatter path) (yaml_from_str yaml) in
  let? json := rmap_err (InvalidMetadata path) (to_value value) in
  match json_look json with
  | JObject map => Ok map
  | _ => Err (InvalidSkillManifest path
                (lit "frontmatter must be a YAML mapping with name and description"))
  end.

Definition required_string (frontmatter : jmap) (key path : str) : result str PError :=
  match json_look <$> map_get frontmatter key with
  | Some (JString text) =>
      if decide (trim text = [])
      then Err (InvalidSkillManifest path (lit "`" ++ key ++ lit "` must not be empty"))
      else Ok text
  | Some _ => Err (InvalidSkillManifest path (lit "`" ++ key ++ lit "` must be a string"))
  | None => Err (InvalidSkillManifest path (lit "`" ++ key ++ lit "` is required"))
  end.

(** [Value::as_str]. *)
Definition as_str (v : jvalue) : option str :=
  match json_look v with JString s => Some s | _ => None end.

Definition skill_tags (frontmatter : jmap) : list str :=
  match json_look <$> map_get frontmatter (lit "tags") with
  | Some (JArray items) => omap as_str items
  | _ => []
  end.

Definition skill_metadata (frontmatter : jmap) : jmap :=
  let m := match v ← map_get frontmatter (lit "license"); as_str v with
           | Some license => map_insert (lit "license") (json_string license) map_new
           | None => map_new
           end in
  map_insert AGENT_SKILL_KEY (json_object frontmatter) m.

Definition parse_skill_manifest (source relative_path : str) (limits : ParserLimits)
  : result ParsedConcept PError :=
  let? path := normalize_path relative_path in
  if max_file_bytes limits <? length source
  then Err (FileTooLarge path (length source) (max_file_bytes limits))
  else if negb (utf8_valid source) then Err (InvalidUtf8 path)
  else
    let? (yaml, body) := split (strip_bom source) path (max_frontmatter_bytes limits) in
    let? frontmatter := parse_frontmatter yaml path in
    let? name := required_string frontmatter (lit "name") path in
    let? description := required_string frontmatter (lit "description") path in
    Ok {| pc_id := concept_id path;
          pc_declared_id := None;
          pc_path := path;
          pc_type := SKILL_TYPE;
          pc_title := name;
          pc_description := Some description;
          pc_tags := skill_tags frontmatter;
          pc_resource := None;
          pc_body_text := plain_text (events body);
          pc_links := map (resolve_resource_link path (parent_directory path))
                        (extract (events body) path);
          pc_metadata := skill_metadata frontmatter |}.

Definition validate_skill (concept : ParsedConcept) (package_directory : str)
  : list SkillDiagnostic :=
  let name := pc_title concept in
  let basename := base_name package_directory in
  let description_len := match pc_description concept with
                         | Some d => char_count d
                         | None => 0
                         end in
  (if is_valid_name name then [] else [NameInvalid name])
  ++ (if negb (bool_decide (basename = [])) && negb (bool_decide (basename = name))
      then [NameDirectoryMismatch name basename] else [])
  ++ (if DESCRIPTION_MAX_LEN <? description_len then [DescriptionTooLong description_len] else []).

End concept.

Definition default_limits : ParserLimits :=
  {| max_file_bytes := 4 * 1024 * 1024; max_frontmatter_bytes := 256 * 1024 |}.

(** * Properties *)

(** ** Names and versions *)

(** The shape the skill standard documents: words of lowercase letters and
    digits, separated by single hyphens. *)
Definition name_word (w : str) : Prop :=
  w <> [] /\ Forall (fun c => is_ascii_lowercase c || is_ascii_digit c = true) w.

Definition hyphen_words (s : str) : bool :=
  negb (bool_decide (s = [])) && negb (starts_with [hyphen] s)
  && negb (ends_with [hyphen] s) && negb (contains [hyphen; hyphen] s).

Lemma ends_with_last c s : ends_with [c] s = true <-> last s = Some c.
Proof.
  rewrite ends_with_spec. split.
  - intros (r & ->). by rewrite last_snoc.
  - intros H. destruct s as [|x s _] using rev_ind; [done|].
    rewrite last_snoc in H. simplify_eq. eauto.
Qed.

Lemma starts_with_single c s : starts_with [c] s = true <-> head s = Some c.
Proof.
  rewrite starts_with_spec. split; [by intros (r & ->)|].
  destruct s as [|x s]; [done|]. intros [= ->]. by exists s.
Qed.

Lemma contains_double_skip c p s :
  c ∉ p -> contains [c; c] (p ++ c :: s) = starts_with [c] s || contains [c; c] s.
Proof.
  induction p as [|x p IH]; intros Hp.
  - cbn [app contains]. unfold starts_with. cbn [strip_prefix].
    rewrite decide_True by done. by destruct (strip_prefix [c] s).
  - apply not_elem_of_cons in Hp as [Hx Hp]. cbn [app contains].
    rewrite IH by done. unfold starts_with at 1. cbn [strip_prefix].
    by rewrite decide_False by congruence.
Qed.

Lemma contains_double_plain c p : c ∉ p -> contains [c; c] p = false.
Proof.
  induction p as [|x p IH]; intros Hp; [done|]. apply not_elem_of_cons in Hp as [Hx Hp].
  cbn [contains]. rewrite IH by done. unfold starts_with. cbn [strip_prefix].
  by rewrite decide_False by congruence.
Qed.

Lemma hyphen_words_app p s :
  hyphen ∉ p -> hyphen_words (p ++ hyphen :: s) = negb (bool_decide (p = [])) && hyphen_words s.
Proof.
  intros Hp. unfold hyphen_words. rewrite contains_double_skip by done.
  apply eq_bool_prop_intro. rewrite !Is_true_true, !andb_true_iff, !negb_true_iff.
  rewrite !orb_false_iff, <- !not_true_iff_false, !ends_with_last, !starts_with_single.
  rewrite !bool_decide_eq_true, last_app_cons.
  destruct p as [|x p]; [naive_solver|]. apply not_elem_of_cons in Hp as [Hx _].
  destruct s as [|y s]; cbn [app head last]; naive_solver.
Qed.

Lemma hyphen_words_plain p : hyphen ∉ p -> hyphen_words p = negb (bool_decide (p = [])).
Proof.
  intros Hp. unfold hyphen_words. rewrite contains_double_plain by done.
  apply eq_bool_prop_intro. rewrite !Is_true_true, !andb_true_iff, !negb_true_iff.
  rewrite <- !not_true_iff_false, !ends_with_last, !starts_with_single, !bool_decide_eq_true.
  split; [naive_solver|]. intros Hne. repeat split; try done.
  - intros Hh%head_Some_elem_of. done.
  - intros Hl%last_Some_elem_of. done.
Qed.

Lemma hyphen_words_split s :
  hyphen_words s = true <-> Forall (fun w => w <> []) (split_on hyphen s).
Proof.
  remember (length s) as n eqn:Hn. revert s Hn.
  induction n as [n IH] using (well_founded_induction lt_wf). intros s ->.
  destruct (split_once hyphen s) as [[p r]|] eqn:E.
  - apply split_once_Some in E as [-> Hp]. rewrite hyphen_words_app, split_on_app by done.
    rewrite andb_true_iff, negb_true_iff, bool_decide_eq_false, Forall_cons.
    rewrite (IH (length r)); [done| |done]. rewrite length_app. simpl. lia.
  - apply split_once_None in E. rewrite hyphen_words_plain, split_on_plain by done.
    rewrite negb_true_iff, bool_decide_eq_false, Forall_singleton. done.
Qed.

Lemma forallb_name_byte s :
  forallb name_byte s = true <->
  Forall (fun w => Forall (fun c => is_ascii_lowercase c || is_ascii_digit c = true) w)
    (split_on hyphen s).
Proof.
  assert (forall w, hyphen ∉ w -> forallb name_byte w = true <->
            Forall (fun c => is_ascii_lowercase c || is_ascii_digit c = true) w) as Hw.
  { intros w Hw. rewrite forallb_forall, Forall_forall. unfold name_byte.
    setoid_rewrite list_elem_of_In. split; intros H c Hc; specialize (H c Hc).
    - apply orb_true_iff in H as [?|H]; [done|]. bool_prop. subst. by apply list_elem_of_In in Hc.
    - by rewrite H. }
  pose proof (split_on_notin hyphen s) as Hn.
  pose proof (split_on_not_nil hyphen s) as Hne.
  rewrite <- (join_split_on hyphen s) at 1. revert Hn Hne.
  generalize (split_on hyphen s). induction l as [|p [|q l] IH]; intros Hn Hne; [done| |];
    inversion Hn; subst.
  - rewrite Forall_singleton. by apply Hw.
  - rewrite join_cons2, Forall_cons. cbn [app]. rewrite forallb_app, andb_true_iff, Hw by done.
    cbn [forallb]. rewrite andb_true_iff, IH by done.
    change (name_byte hyphen) with true. naive_solver.
Qed.

(** The name check is the documented shape: at most 64 bytes, words of
    lowercase ASCII letters and digits joined by single hyphens (so no
    leading, trailing or doubled hyphen, and not empty). *)
Theorem is_valid_name_exact (name : str) :
  is_valid_name name = true <->
  length name <= NAME_MAX_LEN /\ Forall name_word (split_on hyphen name).
Proof.
  assert (is_valid_name name = hyphen_words name && (length name <=? NAME_MAX_LEN)
          && forallb name_byte name) as ->.
  { unfold is_valid_name, hyphen_words.
    destruct (negb (bool_decide (name = []))), (length name <=? NAME_MAX_LEN),
      (negb (starts_with [hyphen] name)), (negb (ends_with [hyphen] name)); simpl;
      by rewrite ?andb_false_r, ?andb_true_r. }
  rewrite !andb_true_iff, hyphen_words_split, forallb_name_byte, Nat.leb_le.
  unfold name_word. rewrite Forall_and. tauto.
Qed.

Lemma split_on_two c s a b ps :
  split_on c s = a :: b :: ps <->
  exists r, s = a ++ c :: r /\ (c ∉ a) /\ split_on c r = b :: ps.
Proof.
  split.
  - destruct (split_once c s) as [[p r]|] eqn:E.
    + apply split_once_Some in E as [-> Hp]. rewrite split_on_app by done.
      intros [= <- Hr]. eauto.
    + apply split_once_None in E. by rewrite split_on_plain.
  - intros (r & -> & Ha & Hr). rewrite split_on_app by done. by rewrite Hr.
Qed.

Lemma split_on_head c s a ps :
  split_on c s = a :: ps ->  (c ∉ a) /\ ((s = a /\ ps = []) \/ exists r, s = a ++ c :: r).
Proof.
  intros H. split; [by eapply split_on_head_notin|].
  destruct ps as [|b ps].
  - left. split; [|done]. by rewrite <- (join_split_on c s), H.
  - right. apply split_on_two in H as (r & -> & _). eauto.
Qed.

(** A version is supported exactly when, after trimming and any number of
    leading [v]/[V], it is [0.2] or [0.2.] followed by anything. *)
Theorem is_supported_okf_version_exact (version : str) :
  is_supported_okf_version version = true <->
  exists core, core = trim_start_matches (fun c => bool_decide (c = "v"%char \/ c = "V"%char))
                        (trim version) /\
    (core = lit "0.2" \/ exists patch, core = lit "0.2." ++ patch).
Proof.
  unfold is_supported_okf_version. set (core := trim_start_matches _ _).
  split.
  - destruct (split_on dot core) as [|maj [|min ps]] eqn:E; [done..|]. case_match; [done|].
    unfold SUPPORTED_OKF_VERSIONS. cbn [existsb]. rewrite orb_false_r.
    change (split_on dot (lit "0.2")) with [lit "0"; lit "2"]. cbv iota.
    intros Hb. bool_prop. subst maj min. exists core. split; [done|].
    apply split_on_two in E as (r & -> & _ & Hr).
    apply split_on_head in Hr as [_ [[-> _]|(p & ->)]]; [by left|right; by exists p].
  - intros (c & -> & [->|(p & ->)]); [done|].
    change (lit "0.2." ++ p) with (lit "0" ++ dot :: lit "2" ++ dot :: p).
    rewrite !split_on_app by by_decide. vm_compute. done.
Qed.

(** The comment allows a single leading [v]; the code strips them all. *)
Example repeated_v_supported : is_supported_okf_version (lit "vVv0.2") = true.
Proof. vm_compute. reflexivity. Qed.

(** ** Documents *)

Section concept_props.
Context `{S : Serde} (events : str -> list Event).

Lemma normalize_path_concept {Y J} p q :
  normalize_path (Y:=Y) (J:=J) p = Ok q -> concept_path q.
Proof.
  intros (_ & _ & Hd & Hk & Ha)%normalize_path_ok.
  destruct (kept_segments_good p Hd). eapply apply_extension_sound; [|done]. by apply normal_join.
Qed.

(** The failures [parse] and [split] report name the file they were given. *)
Lemma split_error_path {Y J} src path max e :
  split (Y:=Y) (J:=J) src path max = Err e -> error_path e = path.
Proof.
  unfold split. destruct (strip_open src); cbn; [|by intros [= <-]].
  destruct (scan _ _ _) as [[[a b]|]|]; cbn; try by intros [= <-].
  case_match; by intros [= <-].
Qed.

Lemma metadata_error_path path (l : list (str * yvalue)) (e : Error yerror jerror) :
  rmap_list (fun '(key, value) =>
      rmap (pair key) (rmap_err (InvalidMetadata path) (to_value value))) l = Err e ->
  error_path e = path.
Proof.
  induction l as [|[k v] l IH]; [done|]. cbn. destruct (to_value v); cbn; [|by intros [= <-]].
  destruct (rmap_list _ l); cbn; [done|]. intros [= <-]. by apply IH.
Qed.

Lemma parse_error_path src path max e :
  parse src path max = Err e -> error_path e = path.
Proof.
  unfold parse. destruct (split src path max) as [[yaml body]|] eqn:Es; cbn.
  2:{ intros [= <-]. by eapply split_error_path. }
  destruct (yaml_raw yaml) as [raw|]; cbn; [|by intros [= <-]].
  destruct (match raw_resource raw with Some _ => _ | None => _ end) as [res|] eqn:Er; cbn.
  2:{ intros [= <-]. destruct (raw_resource raw) as [v|]; [|done].
      destruct (to_value v); simplify_eq/=; done. }
  destruct (rmap_list _ _) eqn:Em; cbn; [done|]. intros [= <-]. by eapply metadata_error_path.
Qed.

(** Every parse error is attributable: it is the rejection of the given
    path itself, or it carries the normalized path of the file. *)
Theorem parse_concept_error_path (source relative_path : str) (limits : ParserLimits)
    (e : Error yerror jerror) :
  parse_concept events source relative_path limits = Err e ->
  normalize_path relative_path = Err e \/
  normalize_path (Y:=yerror) (J:=jerror) relative_path = Ok (error_path e).
Proof.
  unfold parse_concept. destruct (normalize_path relative_path) as [path|e'] eqn:En;
    cbn [rbind]; [|intros [= ->]; by left]. right.
  repeat case_match; try (by simplify_eq/=); revert H.
  - destruct (parse _ _ _) as [[fm body]|] eqn:Ep; cbn; [done|]. intros [= ->].
    f_equal. symmetry. by eapply parse_error_path.
Qed.

Lemma parse_ok src path max fm body :
  parse src path max = Ok (fm, body) ->
  exists yaml raw meta,
    split (Y:=yerror) (J:=jerror) src path max = Ok (yaml, body) /\ yaml_raw yaml = Ok raw /\
    fm_id fm = raw_id raw /\ fm_concept_type fm = raw_concept_type raw /\
    fm_title fm = raw_title raw /\
    Forall2 (fun kv kj => kj.1 = kv.1 /\ to_value kv.2 = Ok kj.2) (raw_extra raw) meta /\
    fm_metadata fm = map_collect meta.
Proof.
  unfold parse. intros ([yaml body'] & Hs & H)%rbind_ok.
  apply rbind_ok in H as (raw & Hraw & H). apply rbind_ok in H as (res & _ & H).
  apply rbind_ok in H as (meta & Hmeta & H). apply rmap_list_ok in Hmeta. simplify_eq/=.
  exists yaml, raw, meta. destruct (yaml_raw yaml) as [raw'|]; [|done]. simplify_eq/=.
  repeat split; try done.
  eapply Forall2_impl; [done|]. intros [k v] kj. cbn. intros (j & Hj & <-)%rmap_ok.
  by destruct (to_value v); simplify_eq/=.
Qed.

Lemma parse_concept_ok source relative_path limits c :
  parse_concept events source relative_path limits = Ok c ->
  exists fm body, normalize_path (Y:=yerror) (J:=jerror) relative_path = Ok (pc_path c) /\
    is_reserved_path (pc_path c) = false /\ length source <= max_file_bytes limits /\
    utf8_valid source = true /\
    parse (strip_bom source) (pc_path c) (max_frontmatter_bytes limits) = Ok (fm, body) /\
    pc_id c = concept_id (pc_path c) /\ pc_declared_id c = fm_id fm /\
    pc_type c = fm_concept_type fm /\ pc_title c = fm_title fm /\
    pc_links c = extract (events body) (pc_path c) /\ pc_metadata c = fm_metadata fm.
Proof.
  unfold parse_concept. intros (path & Hn & H)%rbind_ok. do 3 (case_match; [done|]).
  apply rbind_ok in H as ([fm body] & Hp & H). simplify_eq/=. bool_prop.
  exists fm, body. repeat split; done.
Qed.

(** What [parse_concept] accepts: the limits held, the bytes are UTF-8,
    the path is the normalized, non-reserved path of an [.md] file inside the
    bundle, the id is that path without [.md] (the declared id is kept apart),
    and no link leaves the bundle. *)
Theorem parse_concept_sound (source relative_path : str) (limits : ParserLimits)
    (c : ParsedConcept) :
  parse_concept events source relative_path limits = Ok c ->
  normalize_path (Y:=yerror) (J:=jerror) relative_path = Ok (pc_path c) /\
  concept_path (pc_path c) /\ is_reserved_path (pc_path c) = false /\
  pc_id c ++ dot_md = pc_path c /\
  length source <= max_file_bytes limits /\ utf8_valid source = true /\
  Forall link_ok (pc_links c).
Proof.
  intros (fm & body & Hn & Hr & Hl & Hu & _ & Hid & _ & _ & _ & Hlinks & _)%parse_concept_ok.
  pose proof (normalize_path_concept _ _ Hn) as Hc.
  repeat split; try done; try (by destruct Hc); [by rewrite Hid; apply concept_id_md|].
  rewrite Hlinks. by apply extract_forall_ok.
Qed.

(** Producer metadata survives: the id, type and title are the ones the
    block declares, and (its keys being distinct, as in a [BTreeMap]) the
    metadata maps exactly the unknown keys to the JSON of their values. *)
Theorem parse_concept_metadata `{!SerdeLaws S} (source relative_path : str)
    (limits : ParserLimits) (c : ParsedConcept) :
  parse_concept events source relative_path limits = Ok c ->
  exists yaml close body raw,
    frontmatter_block (strip_bom source) yaml close body /\
    length yaml <= max_frontmatter_bytes limits /\ yaml_raw yaml = Ok raw /\
    pc_declared_id c = raw_id raw /\ pc_type c = raw_concept_type raw /\
    pc_title c = raw_title raw /\
    (NoDup (raw_extra raw).*1 -> forall k j,
       map_get (pc_metadata c) k = Some j <->
       exists v, (k, v) ∈ raw_extra raw /\ to_value v = Ok j).
Proof.
  intros (fm & body & _ & _ & _ & _ & Hp & _ & Hid & Hty & Hti & _ & Hm)%parse_concept_ok.
  apply parse_ok in Hp as (yaml & raw & meta & Hs & Hraw & H1 & H2 & H3 & HF & Hmeta).
  apply split_exact_helper in Hs as (Hle & close & Hb).
  exists yaml, close, body, raw. repeat (split; [congruence || done|]). intros Hnd k j.
  assert (meta.*1 = (raw_extra raw).*1) as Hkeys.
  { symmetry. clear -HF. induction HF as [|x y l l' [Hk _] _ IH]; [done|]. cbn. congruence. }
  rewrite Hm, Hmeta, map_collect_get by (by rewrite Hkeys). split.
  - intros Hin. apply (Forall2_elem_r _ _ _ _ HF) in Hin as ([k' v] & Hin & Hk & Hv).
    simpl in Hk. subst. eauto.
  - intros (v & Hin & Hv). apply (Forall2_elem_l _ _ _ _ HF) in Hin as ([k' j'] & Hin & Hk & Hv').
    simpl in *. congruence.
Qed.

End concept_props.

Definition sample_source : str :=
  lit "---" ++ [nl] ++ lit "type: Service" ++ [nl] ++ lit "title: Pg" ++ [nl]
  ++ lit "owner: dba" ++ [nl] ++ lit "---" ++ [nl] ++ lit "body".

Definition sample_limits : ParserLimits :=
  {| max_file_bytes := 100; max_frontmatter_bytes := 50 |}.

(** A one-link body, whatever the text. *)
Definition sample_events (_ : str) : list Event :=
  [Start (TagLink LtInline (lit "b")); Text (lit "B"); End_ EndLink].

Definition sample_concept : ParsedConcept (S := Toy.toy) :=
  Build_ParsedConcept (S := Toy.toy) (lit "notes/pg") None (lit "notes/pg.md")
    (lit "Service") (lit "Pg") None [] None (lit "B")
    [{| target := lit "b"; label := lit "B"; kind := Inline; ordinal := 0;
        is_external := false; target_path := Some (lit "notes/b.md");
        target_id := Some (lit "notes/b") |}]
    [(lit "owner", Toy.Scalar (lit "dba"))].

Lemma sample_parse :
  parse_concept (S := Toy.toy) sample_events sample_source (lit "./notes/pg") sample_limits
  = Ok sample_concept.
Proof. by_eval. Qed.

Lemma parse_concept_sound_witness :
  Forall link_ok (pc_links sample_concept) /\ concept_path (lit "notes/pg.md").
Proof.
  destruct (parse_concept_sound sample_events _ _ _ _ sample_parse) as (_ & Hc & _ & _ & _ & _ & HF).
  exact (conj HF Hc).
Defined.

Lemma parse_concept_metadata_witness :
  exists yaml close body raw, frontmatter_block (strip_bom sample_source) yaml close body /\
    yaml_raw (Serde := Toy.toy) yaml = Ok raw /\ pc_title sample_concept = raw_title raw.
Proof.
  destruct (parse_concept_metadata (SerdeLaws0 := Toy.toy_laws) sample_events _ _ _ _ sample_parse)
    as (yaml & close & body & raw & Hb & _ & Hr & _ & _ & Ht & _).
  exists yaml, close, body, raw. exact (conj Hb (conj Hr Ht)).
Defined.

Lemma parse_concept_error_path_witness :
  normalize_path (Y:=unit) (J:=unit) (lit "../x") = Err (PathTraversal (lit "../x")) \/
  normalize_path (Y:=unit) (J:=unit) (lit "../x") = Ok (lit "../x").
Proof.
  apply (parse_concept_error_path (S := Toy.toy) sample_events sample_source (lit "../x") sample_limits
           (PathTraversal (lit "../x"))).
  by_eval.
Defined.

(** ** Skill manifests *)

(** A file below a resource directory of the package at [root]. *)
Definition package_resource (root q : str) : Prop :=
  exists directory file, directory ∈ RESOURCE_DIRECTORIES /\ file <> [] /\
    q = (if decide (root = []) then [] else root ++ [slash]) ++ directory ++ slash :: file.

Lemma is_package_resource_spec q root :
  is_package_resource q root = true <-> package_resource root q.
Proof.
  unfold is_package_resource, package_resource. split.
  - intros H. destruct (rest ← _; split_once slash rest) as [[d f]|] eqn:E; [|done]. bool_prop.
    exists d, f. split; [done|]. split; [done|].
    destruct (decide (root = [])); simpl in E.
    + by apply split_once_Some in E as [-> _].
    + destruct (strip_prefix root q) as [r|] eqn:E1; [|done]. simpl in E.
      destruct r as [|c r]; [done|]. case_decide; [|done]. simpl in E. subst c.
      apply strip_prefix_Some in E1 as ->. apply split_once_Some in E as [-> _].
      by rewrite <- app_assoc.
  - intros (d & f & Hd & Hf & ->).
    assert (slash ∉ d) as Hs.
    { assert (Forall (fun d => slash ∉ d) RESOURCE_DIRECTORIES) as HF by by_decide.
      rewrite Forall_forall in HF. by apply HF. }
    assert (split_once slash (d ++ slash :: f) = Some (d, f)) as Hsp by (by apply split_once_Some).
    destruct (decide (root = [])).
    + cbn [app mbind option_bind]. rewrite Hsp.
      rewrite bool_decide_eq_true_2, bool_decide_eq_false_2 by done. done.
    + rewrite <- app_assoc. rewrite strip_prefix_app. cbn [mbind option_bind app strip_prefix].
      rewrite decide_True by done. cbn [mbind option_bind]. rewrite Hsp.
      rewrite bool_decide_eq_true_2, bool_decide_eq_false_2 by done. done.
Qed.

(** A manifest's link: an ordinary one, or one re-pointed at a resource. *)
Definition skill_link_ok (root : str) (l : Link) : Prop :=
  link_ok l \/
  (is_external l = false /\
   exists q, target_path l = Some q /\ target_id l = Some q /\ normal_path q /\
     package_resource root q).

Lemma resolve_resource_link_ok path l :
  concept_path path -> link_ok l ->
  skill_link_ok (parent_directory path) (resolve_resource_link path (parent_directory path) l).
Proof.
  intros [Hn _] Hl. unfold resolve_resource_link. destruct (is_external l) eqn:He; [by left|].
  destruct (resolve_link_path _ _) as [q|] eqn:E; [|by left].
  destruct (is_package_resource q _) eqn:Er; [|by left]. right. split; [done|].
  exists q. repeat split; [by eapply resolve_link_path_normal|].
  by apply is_package_resource_spec.
Qed.

Section skill_props.
Context `{S : Serde} `{!SerdeLaws S} (events : str -> list Event).

Lemma required_string_ok fm key path text :
  required_string fm key path = Ok text ->
  (exists v, map_get fm key = Some v /\ json_look v = JString text) /\ trim text <> [].
Proof.
  unfold required_string. destruct (map_get fm key) as [v|]; [|done]. cbn.
  destruct (json_look v) eqn:E; try done. case_decide; [done|]. intros [= ->]. eauto.
Qed.

Lemma skill_metadata_get fm :
  map_get (skill_metadata fm) AGENT_SKILL_KEY = Some (json_object fm).
Proof. apply get_insert. Qed.

(** What [parse_skill_manifest] accepts: a concept of type [Skill] with
    the path-derived id, whose title and description are the non-blank [name]
    and [description] strings of the frontmatter, which is kept whole under
    [metadata.agent_skill]; each link is a bundle-internal document, external,
    or a file in one of the package's resource directories. *)
Theorem parse_skill_manifest_sound (source relative_path : str) (limits : ParserLimits)
    (c : ParsedConcept) :
  parse_skill_manifest events source relative_path limits = Ok c ->
  concept_path (pc_path c) /\ pc_id c ++ dot_md = pc_path c /\ pc_type c = SKILL_TYPE /\
  pc_declared_id c = None /\
  Forall (skill_link_ok (parent_directory (pc_path c))) (pc_links c) /\
  exists fm name description,
    (json_look <$> map_get (pc_metadata c) AGENT_SKILL_KEY) = Some (JObject fm) /\
    (json_look <$> map_get fm (lit "name")) = Some (JString name) /\
    (json_look <$> map_get fm (lit "description")) = Some (JString description) /\
    pc_title c = name /\ trim name <> [] /\
    pc_description c = Some description /\ trim description <> [].
Proof.
  unfold parse_skill_manifest. intros (path & Hn & H)%rbind_ok. do 2 (case_match; [done|]).
  apply rbind_ok in H as ([yaml body] & Hsp & H). apply rbind_ok in H as (fm & Hfm & H).
  apply rbind_ok in H as (name & Hname & H). apply rbind_ok in H as (descr & Hdescr & H).
  apply required_string_ok in Hname as [(v1 & Hv1 & Hl1) Ht1].
  apply required_string_ok in Hdescr as [(v2 & Hv2 & Hl2) Ht2]. simplify_eq/=.
  pose proof (normalize_path_concept _ _ Hn) as Hc.
  split; [done|]. split; [by apply concept_id_md|]. split; [done|]. split; [done|]. split.
  - change (map ?f) with (fmap (M:=list) f). apply Forall_map.
    eapply Forall_impl; [by apply extract_forall_ok|]. intros l. by apply resolve_resource_link_ok.
  - exists fm, name, descr. rewrite skill_metadata_get, Hv1, Hv2. cbn.
    rewrite look_object, Hl1, Hl2. done.
Qed.

End skill_props.

Definition sample_skill : str :=
  lit "---" ++ [nl] ++ lit "name: deploy" ++ [nl] ++ lit "description: Ship it" ++ [nl]
  ++ lit "---" ++ [nl].

(** A link to one of the package's scripts. *)
Definition script_events (_ : str) : list Event :=
  [Start (TagLink LtInline (lit "scripts/run.sh")); Text (lit "run"); End_ EndLink].

Lemma parse_skill_manifest_sound_witness :
  exists c, parse_skill_manifest (S := Toy.toy) script_events sample_skill
              (lit "skills/deploy/SKILL.md") sample_limits = Ok c /\
    pc_type c = SKILL_TYPE /\
    (target_id <$> pc_links c) = [Some (lit "skills/deploy/scripts/run.sh")].
Proof.
  destruct (parse_skill_manifest (S := Toy.toy) script_events sample_skill
              (lit "skills/deploy/SKILL.md") sample_limits) as [c|e] eqn:E.
  - exists c. split; [reflexivity|].
    destruct (parse_skill_manifest_sound (SerdeLaws0 := Toy.toy_laws) script_events _ _ _ _ E)
      as (_ & _ & Ht & _).
    split; [exact Ht|]. apply (f_equal (rmap pc_links)) in E.
    assert (rmap (fmap (M:=list) target_id)
              (rmap pc_links (parse_skill_manifest (S := Toy.toy) script_events sample_skill
                 (lit "skills/deploy/SKILL.md") sample_limits))
            = Ok [Some (lit "skills/deploy/scripts/run.sh")]) as Hv by by_eval.
    rewrite E in Hv. cbn [rmap] in Hv. injection Hv as Hv. exact Hv.
  - exfalso. apply (f_equal is_ok) in E.
    assert (is_ok (parse_skill_manifest (S := Toy.toy) script_events sample_skill
              (lit "skills/deploy/SKILL.md") sample_limits) = true) as Hv by by_eval.
    rewrite E in Hv. discriminate Hv.
Defined.
