(* ===== verification/Package.v ===== *)
(** * Skill packages ([okf-sync/src/package.rs])

    [PackageIndex] holds the package roots of a snapshot.  [encloses] is the
    directory order without the loop of [owner_of]; [owner_of_nearest] says
    the loop finds the nearest enclosing root, and [from_paths_exact] which
    directories become roots, whatever the order of the paths. *)
From stdpp Require Import prelude strings gmap list sorting.
From Stdlib Require Import Ascii Lia.
From S2P Require Import Prelude Str ParserError OkfPath Concept.

(** ** Data *)

Definition SKILL_MANIFEST : str := lit "SKILL.md".

Inductive FileClass : Type :=
| OkfDocument
| SkillManifest
| SkillScript
| SkillReference
| SkillAsset
| Reserved.

#[export] Instance FileClass_eq_dec : EqDecision FileClass.
Proof. solve_decision. Defined.

Definition is_resource (c : FileClass) : bool :=
  match c with
  | SkillScript | SkillReference | SkillAsset => true
  | _ => false
  end.

Definition class_label (c : FileClass) : str :=
  match c with
  | OkfDocument => lit "document"
  | SkillManifest => lit "skill"
  | SkillScript => lit "script"
  | SkillReference => lit "reference"
  | SkillAsset => lit "asset"
  | Reserved => lit "reserved"
  end.

Definition class_concept_id (c : FileClass) (normalized_path : str) : str :=
  if is_resource c then normalized_path
  else default normalized_path (strip_suffix dot_md normalized_path).

(** [PackageIndex]: the set of its roots. *)
Abbreviation PackageIndex := (gset (list ascii)).

(** ** Operations *)

Definition split_parent (path : str) : str * str := default ([], path) (rsplit_once slash path).

Definition strip_root (root path : str) : option str :=
  if decide (root = []) then Some path
  else rest ← strip_prefix root path; strip_prefix [slash] rest.

Definition resource_class (root path : str) : option FileClass :=
  relative ← strip_root root path;
  '(directory, _) ← split_once slash relative;
  if decide (directory = lit "scripts") then Some SkillScript
  else if decide (directory = lit "references") then Some SkillReference
  else if decide (directory = lit "assets") then Some SkillAsset
  else None.

Definition is_markdown (name : str) : bool := bool_decide (extension name = Some md).

(** The loop of [owner_of]; each round shortens the directory. *)
Fixpoint owner_go (fuel : nat) (roots : PackageIndex) (directory : str) : option str :=
  match fuel with
  | O => None
  | S f =>
      if decide (directory ∈ roots) then Some directory
      else if decide (directory = []) then None
      else owner_go f roots (split_parent directory).1
  end.

Definition owner_of (roots : PackageIndex) (path : str) : option str :=
  let directory := (split_parent path).1 in
  owner_go (S (length directory)) roots directory.

Arguments owner_of : simpl never.

Definition manifest_directory (path : str) : option str :=
  let '(directory, name) := split_parent path in
  if decide (name = SKILL_MANIFEST) then Some directory else None.

Definition resource_of_indexed_package (roots : PackageIndex) (path : str) : bool :=
  match owner_of roots path with
  | Some root => match resource_class root path with Some _ => true | None => false end
  | None => false
  end.

(** The index after the call, and the returned flag. *)
Definition insert_manifest (roots : PackageIndex) (path : str) : PackageIndex * bool :=
  match manifest_directory path with
  | None => (roots, false)
  | Some directory =>
      if resource_of_indexed_package roots path then (roots, false)
      else ({[directory]} ∪ roots, true)
  end.

(** [sort_unstable_by_key(|path| (path.len(), *path))]; equal keys are equal paths. *)
Definition key_le (a b : str) : bool :=
  (length a <? length b)
  || (Nat.eqb (length a) (length b) && match str_cmp a b with Gt => false | _ => true end).

Definition sort_paths (l : list str) : list str := sort_by key_le l.

Definition from_paths (paths : list str) : PackageIndex :=
  let manifests := List.filter
    (fun p => match manifest_directory p with Some _ => true | None => false end) paths in
  fold_left (fun index path => (insert_manifest index path).1) (sort_paths manifests) ∅.

Definition classify_path (roots : PackageIndex) (path : str) : option FileClass :=
  match root ← owner_of roots path; resource_class root path with
  | Some class => Some class
  | None =>
      let name := (split_parent path).2 in
      if decide (name ∈ RESERVED_FILE_NAMES) then Some Reserved
      else if decide (name = SKILL_MANIFEST) then Some SkillManifest
      else if is_markdown name then Some OkfDocument else None
  end.

Definition package_relative (roots : PackageIndex) (path : str) : option str :=
  root ← owner_of roots path;
  relative ← strip_root root path;
  _ ← resource_class root path;
  Some relative.

(** ** Enclosing directories *)

(** [r] is [d] or a directory above it; the empty string is the bundle root. *)
Definition encloses (r d : str) : Prop := r = [] \/ r = d \/ exists t, d = r ++ slash :: t.

Lemma split_parent_cases p :
  ((slash ∉ p) /\ split_parent p = ([], p)) \/
  exists d n, p = d ++ slash :: n /\ (slash ∉ n) /\ split_parent p = (d, n).
Proof.
  unfold split_parent. destruct (rsplit_once slash p) as [[d n]|] eqn:E.
  - apply rsplit_once_Some in E as [-> Hn]. right. exists d, n. done.
  - left. by apply rsplit_once_None in E.
Qed.

Lemma split_parent_app d n : slash ∉ n -> split_parent (d ++ slash :: n) = (d, n).
Proof. intros. unfold split_parent. by rewrite rsplit_once_app. Qed.

Lemma split_parent_shorter d : d <> [] -> length (split_parent d).1 < length d.
Proof.
  intros Hd. destruct (split_parent_cases d) as [[_ ->]|(a & b & -> & _ & ->)]; simpl.
  - destruct d; [done|]. simpl. lia.
  - rewrite length_app. simpl. lia.
Qed.

Lemma encloses_nil r : encloses r [] <-> r = [].
Proof.
  unfold encloses. split; [|auto]. intros [|[|(t & H)]]; [done..|]. by destruct r.
Qed.

Lemma encloses_parent r d :
  d <> [] -> encloses r d <-> r = d \/ encloses r (split_parent d).1.
Proof.
  intros Hd. unfold encloses. destruct (split_parent_cases d) as [[Hn ->]|(a & b & -> & Hb & ->)]; cbn.
  - split.
    + intros [|[|(t & ->)]]; [auto..|]. destruct Hn. set_solver.
    + intros [|[|[|(t & Ht)]]]; [auto..|]. by destruct r.
  - split.
    + intros [|[|(t & Ht)]]; [auto..|]. right.
      destruct (split_parent_cases t) as [[Hs _]|(t1 & t2 & -> & Hs & _)].
      * pose proof (rsplit_once_app slash r t Hs) as H1.
        rewrite <- Ht, rsplit_once_app in H1 by done. naive_solver.
      * pose proof (rsplit_once_app slash (r ++ slash :: t1) t2 Hs) as H1.
        rewrite <- app_assoc in H1. cbn [app] in H1.
        rewrite <- Ht, rsplit_once_app in H1 by done. naive_solver.
    + intros [->|[->|[->|(t & ->)]]]; [auto..|eauto|].
      right; right. exists (t ++ slash :: b). by rewrite <- app_assoc.
Qed.

Lemma encloses_shorter r d : encloses r d -> length r <= length d.
Proof. intros [->|[->|(t & ->)]]; [simpl; lia..|]. rewrite length_app. lia. Qed.

(** Directories above one directory are told apart by their length. *)
Lemma encloses_unique r r' d :
  encloses r d -> encloses r' d -> length r = length r' -> r = r'.
Proof.
  assert (forall x, encloses x d -> x = take (length x) d) as H.
  { intros x [->|[->|(t & ->)]]; [done|by rewrite firstn_all|by rewrite take_app_length]. }
  intros H1%H H2%H Hl. by rewrite H1, H2, Hl.
Qed.

Definition nearest (roots : PackageIndex) (d r : str) : Prop :=
  r ∈ roots /\ encloses r d /\ forall r', r' ∈ roots -> encloses r' d -> length r' <= length r.

Lemma owner_go_spec fuel roots d :
  length d < fuel ->
  match owner_go fuel roots d with
  | Some r => nearest roots d r
  | None => forall r, r ∈ roots -> ~ encloses r d
  end.
Proof.
  revert d. induction fuel as [|f IH]; intros d Hf; [lia|]. simpl.
  case_decide as Hin.
  { split; [done|]. split; [by right; left|]. intros r' _. apply encloses_shorter. }
  case_decide as Hd.
  { subst. intros r Hr ->%encloses_nil. done. }
  pose proof (split_parent_shorter d Hd). specialize (IH (split_parent d).1 ltac:(lia)).
  destruct (owner_go f roots _) as [r|].
  - destruct IH as (Hr & He & Hmax). split; [done|].
    split; [apply encloses_parent; auto|]. intros r' Hr'.
    rewrite encloses_parent by done. intros [->|]; [done|auto].
  - intros r Hr [->|He]%encloses_parent; [done| |done]. by eapply IH.
Qed.

Lemma nearest_unique roots d r r' : nearest roots d r -> nearest roots d r' -> r = r'.
Proof.
  intros (Hr & He & Hm) (Hr' & He' & Hm'). eapply encloses_unique; [done..|].
  specialize (Hm _ Hr' He'). specialize (Hm' _ Hr He). lia.
Qed.

Lemma owner_of_Some roots path r :
  owner_of roots path = Some r <-> nearest roots (split_parent path).1 r.
Proof.
  unfold owner_of. pose proof (owner_go_spec (S (length (split_parent path).1)) roots
                                 (split_parent path).1 ltac:(lia)) as H.
  destruct (owner_go _ _ _) as [r'|].
  - split; [by intros [= ->]|]. intros H'. f_equal. by eapply nearest_unique.
  - split; [done|]. intros (Hr & He & _). by eapply H in He.
Qed.

Lemma owner_of_None roots path :
  owner_of roots path = None <-> forall r, r ∈ roots -> ~ encloses r (split_parent path).1.
Proof.
  unfold owner_of. pose proof (owner_go_spec (S (length (split_parent path).1)) roots
                                 (split_parent path).1 ltac:(lia)) as H.
  destruct (owner_go _ _ _) as [r'|]; [|done].
  split; [done|]. intros H'. destruct H as (Hr & He & _). by eapply H' in He.
Qed.

(** [owner_of] finds the nearest enclosing package: the returned root is
    an indexed directory enclosing the path's directory, no indexed root in
    between is longer, and [None] means no root encloses it.  A path never
    has two owners. *)
Theorem owner_of_nearest (roots : PackageIndex) (path : str) :
  (forall r, owner_of roots path = Some r <-> nearest roots (split_parent path).1 r) /\
  (owner_of roots path = None <-> forall r, r ∈ roots -> ~ encloses r (split_parent path).1).
Proof. split; [intros r; apply owner_of_Some|apply owner_of_None]. Qed.

(** ** Resources *)

Lemma strip_root_spec root path rel :
  strip_root root path = Some rel <->
  path = (if decide (root = []) then [] else root ++ [slash]) ++ rel.
Proof.
  unfold strip_root. case_decide; [naive_solver|].
  destruct (strip_prefix root path) as [r|] eqn:E; cbn [mbind option_bind].
  - apply strip_prefix_Some in E as ->. rewrite strip_prefix_Some, <- app_assoc.
    split; [by intros -> | by intros ?%app_inv_head].
  - split; [done|]. intros ->. by rewrite <- app_assoc, strip_prefix_app in E.
Qed.

Definition class_directory (c : FileClass) : option str :=
  match c with
  | SkillScript => Some (lit "scripts")
  | SkillReference => Some (lit "references")
  | SkillAsset => Some (lit "assets")
  | _ => None
  end.

Lemma resource_class_spec root path c :
  resource_class root path = Some c <->
  exists dir file, class_directory c = Some dir /\
    path = (if decide (root = []) then [] else root ++ [slash]) ++ dir ++ slash :: file.
Proof.
  unfold resource_class. rewrite bind_Some. setoid_rewrite strip_root_spec. split.
  - intros (rel & -> & ([d f] & Hs & Hc)%bind_Some). apply split_once_Some in Hs as [-> Hd].
    exists d, f. split; [|done]. repeat case_decide; simplify_eq; done.
  - intros (d & f & Hc & ->). eexists. split; [done|]. rewrite bind_Some. exists (d, f).
    split; [|destruct c; simplify_eq/=; repeat case_decide; done].
    apply split_once_Some. split; [done|]. destruct c; simplify_eq/=; by_decide.
Qed.

Lemma resource_class_is_resource root path c : resource_class root path = Some c -> is_resource c = true.
Proof. intros (d & f & Hc & _)%resource_class_spec. by destruct c. Qed.

(** Ownership comes first: a path is classified as a resource exactly
    when its nearest enclosing package has it below the resource directory
    of that class, whatever its name; no other path becomes a resource. *)
Theorem classify_resource_iff (roots : PackageIndex) (path : str) (c : FileClass) :
  (classify_path roots path = Some c /\ is_resource c = true) <->
  exists root dir file, nearest roots (split_parent path).1 root /\
    class_directory c = Some dir /\
    path = (if decide (root = []) then [] else root ++ [slash]) ++ dir ++ slash :: file.
Proof.
  unfold classify_path. split.
  - intros [Hc Hr]. destruct (root ← _; _) as [c'|] eqn:E.
    + simplify_eq. apply bind_Some in E as (root & Ho & Hrc).
      apply resource_class_spec in Hrc as (dir & file & Hd & ->).
      exists root, dir, file. split; [by apply owner_of_Some|done].
    + repeat case_match; simplify_eq/=.
  - intros (root & dir & file & Hn%owner_of_Some & Hd & Hp).
    rewrite Hn. cbn [mbind option_bind].
    rewrite (proj2 (resource_class_spec root path c)) by eauto. split; [done|by destruct c].
Qed.

(** Documents and manifests have the id of their path without [.md];
    resources keep the whole path, so their ids cannot collide. *)
Lemma class_concept_id_resource c p q :
  is_resource c = true -> class_concept_id c p = class_concept_id c q -> p = q.
Proof. unfold class_concept_id. by intros ->. Qed.

(** ** Which directories become packages *)

Lemma key_le_length p q : key_le p q = true -> length p <= length q.
Proof.
  unfold key_le. intros [H|H]%orb_true_iff; bool_prop; lia.
Qed.
Lemma key_le_false p q : key_le p q = false -> length q <= length p.
Proof. unfold key_le. intros H. bool_prop. lia. Qed.

Lemma sort_paths_perm l : sort_paths l ≡ₚ l.
Proof. apply sort_by_perm. Qed.

Definition shorter_first (p q : str) : Prop := length p <= length q.
#[export] Instance shorter_first_trans : Transitive shorter_first.
Proof. intros p q r. unfold shorter_first. lia. Qed.

Lemma sort_paths_sorted l : StronglySorted shorter_first (sort_paths l).
Proof. apply sort_by_sorted; [apply _|apply key_le_length|apply key_le_false]. Qed.

Lemma manifest_directory_Some m d :
  manifest_directory m = Some d <-> split_parent m = (d, SKILL_MANIFEST).
Proof.
  unfold manifest_directory. destruct (split_parent m) as [d' n]. case_decide; naive_solver.
Qed.

(** The manifest of a directory other than the bundle root. *)
Lemma manifest_path m d :
  manifest_directory m = Some d -> d <> [] -> m = d ++ slash :: SKILL_MANIFEST.
Proof.
  intros Hm%manifest_directory_Some Hd.
  destruct (split_parent_cases m) as [[_ H]|(a & b & -> & _ & H)];
    rewrite H in Hm; by simplify_eq.
Qed.

(** No package strictly above [d] claims the manifest [m] as a resource;
    [owner_of roots d] looks only at the directories above [d]. *)
Definition opens_package (roots : PackageIndex) (m d : str) : Prop :=
  d = [] \/ forall r, owner_of roots d = Some r -> resource_class r m = None.

(** Roots no shorter than [d] do not change who is above [d]. *)
Lemma owner_of_insert_longer roots d d0 :
  length d <= length d0 -> d <> [] -> owner_of ({[d0]} ∪ roots) d = owner_of roots d.
Proof.
  intros Hl Hd. pose proof (split_parent_shorter d Hd) as Hs.
  assert (forall r, encloses r (split_parent d).1 -> r ∈ ({[d0]} ∪ roots : PackageIndex) <-> r ∈ roots) as Hr.
  { intros r He%encloses_shorter. rewrite elem_of_union, elem_of_singleton. split; [|auto].
    intros [->|]; [lia|done]. }
  destruct (owner_of roots d) as [r|] eqn:E.
  - apply owner_of_Some in E as (Hin & He & Hm). apply owner_of_Some.
    split; [by apply Hr|]. split; [done|]. intros r' Hr' He'. apply Hm; [by apply Hr|done].
  - rewrite owner_of_None in *. intros r Hin He. eapply E; [by apply Hr|done].
Qed.

Lemma opens_package_insert_longer roots m d d0 :
  length d <= length d0 -> opens_package ({[d0]} ∪ roots) m d <-> opens_package roots m d.
Proof.
  intros Hl. unfold opens_package. destruct (decide (d = [])); [by split; left|].
  by rewrite owner_of_insert_longer.
Qed.

Lemma manifest_own_resource m d : manifest_directory m = Some d -> resource_class d m = None.
Proof.
  intros Hm. destruct (resource_class d m) as [c|] eqn:E; [|done].
  apply resource_class_spec in E as (dir & f & Hc & ->).
  apply manifest_directory_Some in Hm. exfalso.
  destruct (split_parent_cases ((if decide (d = []) then [] else d ++ [slash]) ++ dir ++ slash :: f))
    as [[Hn _]|(a & b & He & Hb & Hs)]; [set_solver|]. rewrite Hs in Hm. simplify_eq.
  destruct (decide (d = [])) as [->|].
  - cbn [app] in He. destruct c; by simplify_eq/=.
  - rewrite <- app_assoc in He. apply app_inv_head in He. injection He as He.
    rewrite <- He in Hb. set_solver.
Qed.

(** What [insert_manifest] decides for a directory not yet indexed. *)
Lemma resource_of_indexed_spec roots m d :
  manifest_directory m = Some d -> d ∉ roots ->
  resource_of_indexed_package roots m = false <-> opens_package roots m d.
Proof.
  intros Hm Hd. unfold resource_of_indexed_package, opens_package.
  assert (owner_of roots m = if decide (d = []) then None else owner_of roots d) as ->.
  { pose proof (proj1 (manifest_directory_Some _ _) Hm) as Hs. case_decide as Hn.
    - subst. apply owner_of_None. rewrite Hs. cbn. intros r Hr ->%encloses_nil. done.
    - destruct (owner_of roots d) as [r|] eqn:E.
      + apply owner_of_Some in E as (Hr & He & Hmax). apply owner_of_Some. rewrite Hs. cbn.
        split; [done|]. split; [apply encloses_parent; auto|].
        intros r' Hr' [->|]%encloses_parent; [done|auto|done].
      + rewrite owner_of_None in E. apply owner_of_None. rewrite Hs. cbn.
        intros r' Hr' [->|]%encloses_parent; [done| |done]. by eapply E. }
  case_decide; [naive_solver|].
  destruct (owner_of roots d) as [r|]; [|naive_solver].
  destruct (resource_class r m) eqn:E; split; naive_solver.
Qed.

(** The roots are the directories whose manifest opens a package. *)
Definition index_exact (paths : list str) (roots : PackageIndex) : Prop :=
  forall d, d ∈ roots <->
    exists m, m ∈ paths /\ manifest_directory m = Some d /\ opens_package roots m d.

Lemma manifest_length m d :
  manifest_directory m = Some d -> d <> [] -> length m = length d + 9.
Proof. intros Hm Hd. rewrite (manifest_path _ _ Hm Hd), length_app. done. Qed.

(** Adding a manifest no shorter than the ones before it. *)
Lemma insert_manifest_exact done_ m roots :
  index_exact done_ roots -> Forall (fun p => length p <= length m) done_ ->
  Forall (fun p => manifest_directory p <> None) (done_ ++ [m]) ->
  index_exact (done_ ++ [m]) (insert_manifest roots m).1.
Proof.
  intros Hex Hlen Hman. unfold insert_manifest.
  destruct (manifest_directory m) as [d0|] eqn:Hm.
  2:{ apply Forall_app in Hman as [_ Hman]. inversion Hman; by subst. }
  assert (forall m' d, m' ∈ done_ -> manifest_directory m' = Some d -> length d <= length d0) as Hle.
  { intros m' d Hin Hd. destruct (decide (d = [])) as [->|Hdn]; [simpl; lia|].
    rewrite Forall_forall in Hlen. specialize (Hlen _ Hin). rewrite (manifest_length _ _ Hd Hdn) in Hlen.
    destruct (decide (d0 = [])) as [->|]; [|rewrite (manifest_length _ _ Hm) in Hlen by done; lia].
    destruct (split_parent_cases m) as [[_ H]|(a & b & -> & _ & H)];
      apply manifest_directory_Some in Hm; rewrite H in Hm; simplify_eq.
    - change (length SKILL_MANIFEST) with 8 in Hlen. lia.
    - cbn in Hlen. destruct d; [done|]. simpl in *. lia. }
  destruct (decide (d0 ∈ roots)) as [Hin0|Hnin0].
  - assert (resource_of_indexed_package roots m = false) as ->.
    { unfold resource_of_indexed_package.
      assert (owner_of roots m = Some d0) as ->.
      { apply owner_of_Some. rewrite (proj1 (manifest_directory_Some _ _) Hm). cbn.
        split; [done|]. split; [by right; left|]. intros r _. apply encloses_shorter. }
      by rewrite (manifest_own_resource _ _ Hm). }
    cbn [fst]. assert ({[d0]} ∪ roots = roots) as -> by set_solver. intros d. split.
    + intros (m' & Hm' & Hd & Ho)%Hex. exists m'. split; [set_solver|done].
    + intros (m' & [Hm'| ->%list_elem_of_singleton]%elem_of_app & Hd & Ho); [apply Hex; eauto|congruence].
  - pose proof (resource_of_indexed_spec roots m d0 Hm Hnin0) as Hspec.
    destruct (resource_of_indexed_package roots m); cbn [fst]; intros d.
    + split.
      * intros (m' & Hm' & Hd & Ho)%Hex. exists m'. split; [set_solver|done].
      * intros (m' & [Hm'| ->%list_elem_of_singleton]%elem_of_app & Hd & Ho); [apply Hex; eauto|].
        rewrite Hm in Hd. simplify_eq. naive_solver.
    + pose proof (Hex d) as Hexd. rewrite elem_of_union, elem_of_singleton, Hexd. split.
      * intros [->|(m' & Hm' & Hd & Ho)].
        -- exists m. split; [set_solver|]. split; [done|]. apply opens_package_insert_longer; [lia|naive_solver].
        -- exists m'. split; [set_solver|]. split; [done|]. apply opens_package_insert_longer; eauto.
      * intros (m' & [Hm'| ->%list_elem_of_singleton]%elem_of_app & Hd & Ho); [right|left; congruence].
        exists m'. split; [done|]. split; [done|]. eapply opens_package_insert_longer; [|done]. eauto.
Qed.

Lemma index_exact_perm l l' roots : (forall m, m ∈ l <-> m ∈ l') -> index_exact l roots -> index_exact l' roots.
Proof. intros Hp H d. rewrite (H d). by setoid_rewrite Hp. Qed.

Lemma fold_insert_exact todo done_ roots :
  index_exact done_ roots -> StronglySorted shorter_first (done_ ++ todo) ->
  Forall (fun p => manifest_directory p <> None) (done_ ++ todo) ->
  index_exact (done_ ++ todo) (fold_left (fun index path => (insert_manifest index path).1) todo roots).
Proof.
  revert done_ roots. induction todo as [|m todo IH]; intros done_ roots Hex Hs Hm; cbn.
  { by rewrite app_nil_r. }
  rewrite cons_middle, app_assoc in Hs, Hm |- *. apply IH; [|done..].
  apply insert_manifest_exact; [done| |by apply Forall_app in Hm as [? _]].
  apply StronglySorted_app in Hs as (_ & H1 & _). apply StronglySorted_app in H1 as (Hx & _ & _).
  apply Forall_forall. intros p Hp. apply (Hx p m); [done|set_solver].
Qed.

Lemma from_paths_index_exact paths : index_exact paths (from_paths paths).
Proof.
  unfold from_paths. set (ms := List.filter _ paths).
  assert (forall m, m ∈ ms <-> m ∈ paths /\ manifest_directory m <> None) as Hms.
  { intros m. unfold ms. rewrite !list_elem_of_In, filter_In. case_match; naive_solver. }
  assert (index_exact ms (fold_left (fun i p => (insert_manifest i p).1) (sort_paths ms) ∅)) as H.
  { eapply (index_exact_perm (sort_paths ms)); [intros m; by rewrite sort_paths_perm|].
    apply (fold_insert_exact (sort_paths ms) []).
    - intros d. split; [set_solver|]. intros (m & Hm%not_elem_of_nil & _). done.
    - apply sort_paths_sorted.
    - cbn [app]. rewrite sort_paths_perm. apply Forall_forall. intros m Hm. by apply Hms. }
  intros d. rewrite (H d). split; intros (m & Hm & Hd & Ho).
  - exists m. split; [by apply Hms|done].
  - exists m. split; [apply Hms; split; [done|congruence]|done].
Qed.

(** An exact index is determined by its paths: shorter directories first. *)
Lemma index_exact_unique paths r1 r2 : index_exact paths r1 -> index_exact paths r2 -> r1 = r2.
Proof.
  intros H1 H2. apply set_eq. intros d. remember (length d) as n eqn:Hn. revert d Hn.
  induction n as [n IH] using (well_founded_induction lt_wf). intros d ->.
  assert (d <> [] -> owner_of r1 d = owner_of r2 d) as Ho.
  { intros Hd. pose proof (split_parent_shorter d Hd) as Hs.
    assert (forall r, encloses r (split_parent d).1 -> r ∈ r1 <-> r ∈ r2) as Hr.
    { intros r He%encloses_shorter. eapply IH; [|done]. lia. }
    destruct (owner_of r2 d) as [r|] eqn:E.
    - apply owner_of_Some in E as (Hin & He & Hm). apply owner_of_Some.
      split; [by apply Hr|]. split; [done|]. intros r' Hr' He'. apply Hm; [by apply Hr|done].
    - rewrite owner_of_None in *. intros r Hin He. eapply E; [by apply Hr|done]. }
  rewrite (H1 d), (H2 d). unfold opens_package. destruct (decide (d = [])) as [->|Hd]; [naive_solver|].
  by rewrite Ho.
Qed.

(** [from_paths] indexes exactly the packages of the snapshot: a
    directory is a root if and only if its [SKILL.md] is among the paths and
    the nearest package strictly above it does not own that file as a
    resource; and this determines the index, so neither the order nor the
    repetition of the paths matters. *)
Theorem from_paths_exact (paths : list str) :
  index_exact paths (from_paths paths) /\
  (forall roots, index_exact paths roots -> roots = from_paths paths) /\
  (forall paths', (forall m, m ∈ paths <-> m ∈ paths') -> from_paths paths' = from_paths paths).
Proof.
  split; [apply from_paths_index_exact|]. split.
  - intros roots H. eapply index_exact_unique; [done|apply from_paths_index_exact].
  - intros paths' Hp. eapply index_exact_unique; [|apply from_paths_index_exact].
    eapply index_exact_perm; [|apply from_paths_index_exact]. intros m. by rewrite Hp.
Qed.

(** A directory of the final index has its manifest classified as one,
    and a [SKILL.md] that opened no package is a resource of its owner. *)
Theorem manifest_classes (paths : list str) (m d : str) :
  m ∈ paths -> manifest_directory m = Some d ->
  if decide (d ∈ from_paths paths)
  then classify_path (from_paths paths) m = Some SkillManifest
  else exists c, classify_path (from_paths paths) m = Some c /\ is_resource c = true.
Proof.
  intros Hin Hm. pose proof (from_paths_index_exact paths) as Hex.
  set (roots := from_paths paths) in *. pose proof (proj1 (manifest_directory_Some _ _) Hm) as Hs.
  case_decide as Hd.
  - unfold classify_path. assert (owner_of roots m = Some d) as ->.
    { apply owner_of_Some. rewrite Hs. cbn. split; [done|]. split; [by right; left|].
      intros r _. apply encloses_shorter. }
    cbn [mbind option_bind]. rewrite (manifest_own_resource _ _ Hm), Hs. cbn [snd].
    rewrite decide_False by by_decide. by rewrite decide_True.
  - pose proof (resource_of_indexed_spec roots m d Hm Hd) as Hspec.
    destruct (resource_of_indexed_package roots m) eqn:E.
    2:{ destruct Hd. apply Hex. exists m. naive_solver. }
    unfold resource_of_indexed_package in E. unfold classify_path.
    destruct (owner_of roots m) as [r|]; [|done]. cbn [mbind option_bind].
    destruct (resource_class r m) as [c|] eqn:Ec; [|done]. exists c. split; [done|].
    by eapply resource_class_is_resource.
Qed.

Definition nested_manifests : list str := [lit "p/SKILL.md"; lit "p/references/SKILL.md"].

Lemma manifest_classes_witness :
  exists c, classify_path (from_paths nested_manifests) (lit "p/references/SKILL.md") = Some c
            /\ is_resource c = true.
Proof.
  pose proof (manifest_classes nested_manifests (lit "p/references/SKILL.md") (lit "p/references")
                ltac:(by_decide) ltac:(by_eval)) as H.
  rewrite decide_False in H by by_decide. exact H.
Defined.
