(* ===== verification/BTree.v ===== *)
(** * Ordered maps ([std::collections::BTreeMap])

    A [BTreeMap] is the list of its entries in strictly increasing key order.
    [OrdKey] is Rust's [Ord] for a key type; strings order by bytes and
    paths by their components. *)
From stdpp Require Import prelude strings list sorting.
From Stdlib Require Import Ascii Lia.
From S2P Require Import Prelude Str OkfPath.

(** ** Ordered keys *)

Class OrdKey (K : Type) : Type := {
  kcmp : K -> K -> comparison;
  kcmp_eq x y : kcmp x y = Eq <-> x = y;
  kcmp_antisym x y : kcmp y x = CompOpp (kcmp x y);
  kcmp_trans x y z : kcmp x y = Lt -> kcmp y z = Lt -> kcmp x z = Lt
}.

Definition klt {K} `{OrdKey K} (x y : K) : Prop := kcmp x y = Lt.

Section order.
Context {K : Type} `{OrdKey K}.

Lemma klt_irrefl x : ~ klt x x.
Proof. unfold klt. by rewrite (proj2 (kcmp_eq x x) eq_refl). Qed.

Lemma kcmp_gt x y : kcmp x y = Gt <-> klt y x.
Proof. unfold klt. rewrite (kcmp_antisym x y). destruct (kcmp x y); simpl; naive_solver. Qed.

#[export] Instance klt_trans : Transitive klt.
Proof. intros x y z. apply kcmp_trans. Qed.

#[export] Instance ordkey_eq_dec : EqDecision K | 100.
Proof.
  intros x y. destruct (kcmp x y) eqn:E;
    [left; by apply kcmp_eq|right; intros ->; by rewrite (proj2 (kcmp_eq y y) eq_refl) in E..].
Defined.

End order.

(** Lexicographic order of lists over an ordered type. *)
Fixpoint list_cmp {K} (cmp : K -> K -> comparison) (l k : list K) : comparison :=
  match l, k with
  | [], [] => Eq
  | [], _ :: _ => Lt
  | _ :: _, [] => Gt
  | x :: l', y :: k' => match cmp x y with Eq => list_cmp cmp l' k' | c => c end
  end.

Section list_order.
Context {K : Type} `{OrdKey K}.

Lemma list_cmp_eq (x y : list K) : list_cmp kcmp x y = Eq <-> x = y.
Proof.
  revert y. induction x as [|a x IH]; intros [|b y]; simpl; [done..|].
  destruct (kcmp a b) eqn:E; [apply kcmp_eq in E as ->; rewrite IH; naive_solver| |];
    split; try done; intros [= <- <-]; by rewrite (proj2 (kcmp_eq a a) eq_refl) in E.
Qed.

Lemma list_cmp_antisym (x y : list K) : list_cmp kcmp y x = CompOpp (list_cmp kcmp x y).
Proof.
  revert y. induction x as [|a x IH]; intros [|b y]; simpl; [done..|].
  rewrite (kcmp_antisym a b). destruct (kcmp a b); simpl; auto.
Qed.

Lemma list_cmp_trans (x y z : list K) :
  list_cmp kcmp x y = Lt -> list_cmp kcmp y z = Lt -> list_cmp kcmp x z = Lt.
Proof.
  revert y z. induction x as [|a x IH]; intros [|b y] [|c z]; simpl; try done.
  destruct (kcmp a b) eqn:E1, (kcmp b c) eqn:E2; try done.
  - apply kcmp_eq in E1 as ->, E2 as ->. rewrite (proj2 (kcmp_eq c c) eq_refl). apply IH.
  - apply kcmp_eq in E1 as ->. by rewrite E2.
  - apply kcmp_eq in E2 as ->. by rewrite E1.
  - by rewrite (kcmp_trans _ _ _ E1 E2).
Qed.

#[export] Instance list_ordkey : OrdKey (list K) := {|
  kcmp := list_cmp kcmp;
  kcmp_eq := list_cmp_eq;
  kcmp_antisym := list_cmp_antisym;
  kcmp_trans := list_cmp_trans
|}.

End list_order.

#[export] Instance ascii_ordkey : OrdKey ascii.
Proof.
  refine {| kcmp a b := N.compare (byte a) (byte b) |}; unfold byte.
  - intros x y. rewrite N.compare_eq_iff. split; [|by intros ->].
    intros He. by rewrite <- (ascii_N_embedding x), He, ascii_N_embedding.
  - intros x y. apply N.compare_antisym.
  - intros x y z. rewrite !N.compare_lt_iff. lia.
Defined.

#[export] Instance Z_ordkey : OrdKey Z.
Proof.
  refine {| kcmp := Z.compare |}.
  - apply Z.compare_eq_iff.
  - intros x y. apply Z.compare_antisym.
  - intros x y z. rewrite !Z.compare_lt_iff. lia.
Defined.

(** The derived orders: [None] before [Some], tuples component by
    component. *)
Definition option_cmp {K} (cmp : K -> K -> comparison) (a b : option K) : comparison :=
  match a, b with
  | None, None => Eq
  | None, Some _ => Lt
  | Some _, None => Gt
  | Some x, Some y => cmp x y
  end.
Definition pair_cmp {K L} (cmp : K -> K -> comparison) (cmp' : L -> L -> comparison) (a b : K * L)
  : comparison :=
  match cmp a.1 b.1 with Eq => cmp' a.2 b.2 | c => c end.

#[export] Instance option_ordkey {K} `{OrdKey K} : OrdKey (option K).
Proof.
  refine {| kcmp := option_cmp kcmp |}.
  - intros [x|] [y|]; cbn; [rewrite kcmp_eq; naive_solver|done..].
  - intros [x|] [y|]; cbn; [apply kcmp_antisym|done..].
  - intros [x|] [y|] [z|]; cbn; try done. apply kcmp_trans.
Defined.

#[export] Instance pair_ordkey {K L} `{OrdKey K, OrdKey L} : OrdKey (K * L).
Proof.
  refine {| kcmp := pair_cmp kcmp kcmp |}; unfold pair_cmp.
  - intros [x x'] [y y']; cbn. destruct (kcmp x y) eqn:E.
    + apply kcmp_eq in E as ->. rewrite kcmp_eq. naive_solver.
    + split; [done|]. intros [= -> _]. by rewrite (proj2 (kcmp_eq y y) eq_refl) in E.
    + split; [done|]. intros [= -> _]. by rewrite (proj2 (kcmp_eq y y) eq_refl) in E.
  - intros [x x'] [y y']; cbn. rewrite (kcmp_antisym x y). destruct (kcmp x y); cbn; auto using kcmp_antisym.
  - intros [x x'] [y y'] [z z']; cbn. destruct (kcmp x y) eqn:E1, (kcmp y z) eqn:E2; try done.
    + apply kcmp_eq in E1 as ->, E2 as ->. rewrite (proj2 (kcmp_eq z z) eq_refl). apply kcmp_trans.
    + apply kcmp_eq in E1 as ->. by rewrite E2.
    + apply kcmp_eq in E2 as ->. by rewrite E1.
    + by rewrite (kcmp_trans _ _ _ E1 E2).
Defined.

(** [Ord for Component]: the derived order of the enum. *)
Definition component_cmp (a b : component) : comparison :=
  match a, b with
  | Normal s, Normal t => list_cmp kcmp s t
  | Normal _, _ => Gt
  | _, Normal _ => Lt
  | _, _ =>
      let rank c := match c with RootDir => 0 | CurDir => 1 | _ => 2 end in
      Nat.compare (rank a) (rank b)
  end.

#[export] Instance component_ordkey : OrdKey component.
Proof.
  refine {| kcmp := component_cmp |}.
  - intros [| | |s] [| | |t]; cbn [component_cmp]; try done.
    rewrite list_cmp_eq. naive_solver.
  - intros [| | |s] [| | |t]; cbn [component_cmp]; try done. apply list_cmp_antisym.
  - intros [| | |s] [| | |t] [| | |u]; cbn [component_cmp]; try done. apply list_cmp_trans.
Defined.

(** ** The map *)

Section btree.
Context {K V : Type} `{OrdKey K}.
Abbreviation btree := (list (K * V)).

Fixpoint bt_get (k : K) (m : btree) : option V :=
  match m with
  | [] => None
  | (k', v) :: m' => match kcmp k k' with Eq => Some v | Lt => None | Gt => bt_get k m' end
  end.

Fixpoint bt_insert (k : K) (v : V) (m : btree) : btree :=
  match m with
  | [] => [(k, v)]
  | (k', v') :: m' =>
      match kcmp k k' with
      | Eq => (k, v) :: m'
      | Lt => (k, v) :: m
      | Gt => (k', v') :: bt_insert k v m'
      end
  end.

Fixpoint bt_remove (k : K) (m : btree) : btree :=
  match m with
  | [] => []
  | (k', v) :: m' =>
      match kcmp k k' with Eq => m' | Lt => m | Gt => (k', v) :: bt_remove k m' end
  end.

Definition bt_sorted (m : btree) : Prop := StronglySorted klt m.*1.

Lemma bt_sorted_cons k v m :
  bt_sorted ((k, v) :: m) <-> bt_sorted m /\ forall k' v', (k', v') ∈ m -> klt k k'.
Proof.
  unfold bt_sorted. cbn. split.
  - intros Hs. inversion Hs as [|? ? Hs' HF]; subst. split; [done|]. intros k' v' Hin.
    rewrite Forall_forall in HF. apply HF, list_elem_of_fmap. by exists (k', v').
  - intros [Hs HF]. constructor; [done|]. apply Forall_forall.
    intros k' ([k1 v1] & -> & Hin)%list_elem_of_fmap. eauto.
Qed.

Lemma bt_get_elem m k v : bt_sorted m -> bt_get k m = Some v <-> (k, v) ∈ m.
Proof.
  induction m as [|[k' v'] m IH]; intros Hs; simpl; [split; [done|by intros ?%not_elem_of_nil]|].
  apply bt_sorted_cons in Hs as [Hs HF]. rewrite elem_of_cons.
  destruct (kcmp k k') eqn:E.
  - apply kcmp_eq in E as ->. split; [naive_solver|]. intros [[= ->]|Hin]; [done|].
    by apply HF, klt_irrefl in Hin.
  - split; [done|]. intros [[= -> ->]|Hin]; [by apply klt_irrefl in E|].
    destruct (klt_irrefl k). etrans; [exact E|by eapply HF].
  - rewrite IH by done. split; [auto|]. intros [[= -> ->]|?]; [|done].
    by rewrite (proj2 (kcmp_eq k' k') eq_refl) in E.
Qed.

Lemma bt_insert_elem k v m k' v' : (k', v') ∈ bt_insert k v m -> (k', v') = (k, v) \/ (k', v') ∈ m.
Proof.
  induction m as [|[k1 v1] m IH]; simpl; [set_solver|].
  destruct (kcmp k k1) eqn:E; rewrite !elem_of_cons; naive_solver.
Qed.

Lemma bt_insert_sorted k v m : bt_sorted m -> bt_sorted (bt_insert k v m).
Proof.
  induction m as [|[k1 v1] m IH]; intros Hs; [repeat constructor|].
  pose proof Hs as [Hs' HF]%bt_sorted_cons. simpl. destruct (kcmp k k1) eqn:E.
  - apply kcmp_eq in E as ->. by apply bt_sorted_cons.
  - apply bt_sorted_cons. split; [done|]. intros k' v' [[= -> ->]|Hin]%elem_of_cons; [done|].
    etrans; [exact E|eauto].
  - apply bt_sorted_cons. split; [auto|]. intros k' v' [[= -> ->]|Hin]%bt_insert_elem; [|eauto].
    by apply kcmp_gt.
Qed.

Lemma bt_get_insert k v m : bt_sorted m -> bt_get k (bt_insert k v m) = Some v.
Proof.
  induction m as [|[k1 v1] m IH]; intros Hs; simpl;
    [by rewrite (proj2 (kcmp_eq k k) eq_refl)|].
  apply bt_sorted_cons in Hs as [Hs' HF].
  destruct (kcmp k k1) eqn:E; simpl; rewrite ?(proj2 (kcmp_eq k k) eq_refl); [done..|].
  rewrite E. auto.
Qed.

Lemma bt_get_insert_ne k k' v m : bt_sorted m -> k <> k' -> bt_get k' (bt_insert k v m) = bt_get k' m.
Proof.
  intros Hs Hne. apply option_eq. intros w.
  rewrite !bt_get_elem by (try apply bt_insert_sorted; done). split.
  - intros [?|?]%bt_insert_elem; naive_solver.
  - clear Hs. induction m as [|[k1 v1] m IH]; simpl; [set_solver|].
    intros Hin. destruct (kcmp k k1) eqn:E; rewrite !elem_of_cons in *; [|naive_solver..].
    apply kcmp_eq in E as ->. naive_solver.
Qed.

Lemma bt_remove_elem k m k' v' : bt_sorted m -> (k', v') ∈ bt_remove k m <-> k' <> k /\ (k', v') ∈ m.
Proof.
  induction m as [|[k1 v1] m IH]; intros Hs; simpl; [set_solver|].
  apply bt_sorted_cons in Hs as [Hs' HF]. destruct (kcmp k k1) eqn:E; rewrite ?elem_of_cons.
  - apply kcmp_eq in E as ->. split; [|naive_solver]. intros Hin. split; [|auto].
    intros ->. by apply HF, klt_irrefl in Hin.
  - split; [|naive_solver]. intros Hin. split; [|done]. intros ->.
    destruct Hin as [[= -> ->]|Hin]; [by apply klt_irrefl in E|].
    destruct (klt_irrefl k). etrans; [exact E|eauto].
  - rewrite IH by done. split; [|naive_solver]. intros [[= -> ->]|?]; [|naive_solver].
    split; [|auto]. intros ->. by rewrite (proj2 (kcmp_eq k k) eq_refl) in E.
Qed.

Lemma bt_remove_sorted k m : bt_sorted m -> bt_sorted (bt_remove k m).
Proof.
  induction m as [|[k1 v1] m IH]; intros Hs; [done|]. simpl.
  pose proof Hs as [Hs' HF]%bt_sorted_cons. destruct (kcmp k k1); [done..|].
  apply bt_sorted_cons. split; [auto|]. intros k' v' [_ Hin]%bt_remove_elem; eauto.
Qed.

Lemma bt_get_remove k k' m :
  bt_sorted m -> bt_get k' (bt_remove k m) = if decide (k' = k) then None else bt_get k' m.
Proof.
  intros Hs. apply option_eq. intros v.
  rewrite bt_get_elem, bt_remove_elem by (try apply bt_remove_sorted; done).
  case_decide; [naive_solver|]. rewrite bt_get_elem by done. naive_solver.
Qed.

Lemma bt_get_insert_decide k k' v m :
  bt_sorted m -> bt_get k' (bt_insert k v m) = if decide (k' = k) then Some v else bt_get k' m.
Proof. intros Hs. case_decide; subst; [by apply bt_get_insert|by apply bt_get_insert_ne]. Qed.

(** Two sorted maps with the same lookups are the same map. *)
Lemma bt_ext m1 m2 :
  bt_sorted m1 -> bt_sorted m2 -> (forall k, bt_get k m1 = bt_get k m2) -> m1 = m2.
Proof.
  intros H1 H2 He.
  assert (forall k v, (k, v) ∈ m1 <-> (k, v) ∈ m2) as Hel.
  { intros k v. rewrite <- !bt_get_elem by done. by rewrite He. }
  clear He. revert m2 H2 Hel. induction m1 as [|[k v] m1 IH]; intros m2 H2 Hel.
  { destruct m2 as [|[k v] m2]; [done|]. exfalso. eapply not_elem_of_nil, (Hel k v). by left. }
  destruct m2 as [|[k' v'] m2]; [exfalso; eapply not_elem_of_nil, (Hel k v); by left|].
  apply bt_sorted_cons in H1 as [H1 HF1], H2 as [H2 HF2].
  assert ((k, v) = (k', v')) as [= <- <-].
  { assert ((k, v) ∈ (k', v') :: m2) as [|Hin]%elem_of_cons by (apply Hel; by left); [done|].
    assert ((k', v') ∈ (k, v) :: m1) as [|Hin']%elem_of_cons by (apply Hel; by left); [done|].
    destruct (klt_irrefl k). etrans; [by eapply HF1|by eapply HF2]. }
  f_equal. apply IH; [done..|]. intros k1 v1. specialize (Hel k1 v1).
  rewrite !elem_of_cons in Hel. split; intros Hin.
  - destruct (proj1 Hel) as [[= -> ->]|]; [by right| |done]. by apply HF1, klt_irrefl in Hin.
  - destruct (proj2 Hel) as [[= -> ->]|]; [by right| |done]. by apply HF2, klt_irrefl in Hin.
Qed.

End btree.

(** ** Sets: [BTreeSet] as the sorted list of its elements *)

Section bset.
Context {K : Type} `{OrdKey K}.

Fixpoint bs_insert (k : K) (s : list K) : list K :=
  match s with
  | [] => [k]
  | k' :: s' => match kcmp k k' with Eq => s | Lt => k :: s | Gt => k' :: bs_insert k s' end
  end.

(** [iter.collect::<BTreeSet<_>>()]. *)
Definition bs_collect (l : list K) : list K := foldr bs_insert [] l.

Lemma elem_of_bs_insert k s x : x ∈ bs_insert k s <-> x = k \/ x ∈ s.
Proof.
  induction s as [|k' s IH]; simpl; [set_solver|]. destruct (kcmp k k') eqn:E.
  - apply kcmp_eq in E as ->. set_solver.
  - set_solver.
  - rewrite !elem_of_cons, IH. tauto.
Qed.

Lemma bs_insert_sorted k s : StronglySorted klt s -> StronglySorted klt (bs_insert k s).
Proof.
  induction 1 as [|k' s Hs IH HF]; simpl; [repeat constructor|]. destruct (kcmp k k') eqn:E.
  - by constructor.
  - constructor; [by constructor|]. constructor; [done|]. eapply Forall_impl; [done|].
    intros x Hx. by trans k'.
  - constructor; [done|]. apply Forall_forall. intros x [->|Hx]%elem_of_bs_insert; [by apply kcmp_gt|].
    rewrite Forall_forall in HF. auto.
Qed.

Lemma elem_of_bs_collect l x : x ∈ bs_collect l <-> x ∈ l.
Proof. induction l as [|k l IH]; simpl; [done|]. rewrite elem_of_bs_insert, IH. set_solver. Qed.

Lemma bs_collect_sorted l : StronglySorted klt (bs_collect l).
Proof. induction l; simpl; [constructor|]. by apply bs_insert_sorted. Qed.

Lemma klt_sorted_NoDup (s : list K) : StronglySorted klt s -> NoDup s.
Proof.
  induction 1 as [|k s Hs IH HF]; [constructor|]. apply NoDup_cons. split; [|done].
  intros Hin. rewrite Forall_forall in HF. by apply HF, klt_irrefl in Hin.
Qed.

End bset.
