(* ===== verification/Discover.v ===== *)
(** * Bundle discovery ([okf-sync/src/discover.rs], [config.rs], [hash.rs],
      [error.rs])

    The file system and the crates [walkdir], [globset] and [blake3] are the
    class [Host]: a walk yields entries in some order, metadata, hashing and
    canonicalization may fail, a glob set matches paths.  One [Host] value is
    one state of the tree; both passes of a scan see the same state. *)
From stdpp Require Import prelude strings gmap list.
From Stdlib Require Import Ascii ZArith Lia.
From S2P Require Import Prelude Str ParserError OkfPath Package BTree.

Definition u64_max : N := (2 ^ 64 - 1)%N.
(** [u64::saturating_add]. *)
Definition saturating_add (a b : N) : N := N.min (a + b) u64_max.

(** ** The environment *)

(** One entry of a walk that does not follow links. *)
Record Entry : Type := {
  entry_path : str;
  path_is_symlink : bool;
  entry_is_file : bool
}.

Class Host : Type := {
  io_error : Type;
  walk_error : Type;
  glob_error : Type;
  glob : Type;
  globset : Type;
  system_time : Type;
  is_not_found : io_error -> bool;
  walk : str -> list (result Entry walk_error);
  fs_metadata : str -> result (N * option system_time) io_error;
  (** open the file and stream it through the hasher *)
  fs_hash : str -> result str io_error;
  fs_canonicalize : str -> result str io_error;
  glob_new : str -> result glob glob_error;
  glob_build : list glob -> result globset glob_error;
  is_match : globset -> str -> bool
}.

(** [config.rs]. *)
Record SyncConfig : Type := {
  root : str;
  include : list str;
  exclude : list str;
  max_file_bytes : option N;
  max_files : option nat;
  max_total_bytes : option N
}.

Definition new_config (r : str) : SyncConfig :=
  {| root := r; include := [lit "**/*.md"]; exclude := [];
     max_file_bytes := None; max_files := None; max_total_bytes := None |}.

(** ** [std::path] *)

(** Components below a prefix; [Path::strip_prefix], [Path::starts_with]. *)
Fixpoint strip_components (p cs : list component) : option (list component) :=
  match p, cs with
  | [], _ => Some cs
  | a :: p', b :: cs' => if decide (a = b) then strip_components p' cs' else None
  | _ :: _, [] => None
  end.

Definition path_starts_with (p base : str) : bool :=
  match strip_components (components base) (components p) with Some _ => true | None => false end.

Definition component_text (c : component) : str :=
  match c with
  | RootDir => []
  | CurDir => [dot]
  | ParentDir => dotdot
  | Normal s => s
  end.

(** The text of the remaining path.  A walked path has single separators
    below the root, so joining its components gives its bytes back. *)
Definition path_of (cs : list component) : str := join [slash] (component_text <$> cs).

Section host.
Context `{H : Host}.

(** [error.rs]. *)
Inductive SyncError : Type :=
| InvalidGlob (kind : str) (pattern : str) (source : glob_error)
| Metadata (path : str) (source : io_error)
| Read (path : str) (source : io_error)
| Walk (path : str) (source : walk_error)
| OutsideRoot (path root : str)
| SymlinkEscape (path root : str)
| SyncFileTooLarge (path : str) (size_bytes limit_bytes : N)
| TooManyFiles (count limit : nat)
| BundleTooLarge (total_bytes limit_bytes : N).

(** [hash.rs]. *)
Definition hash_file (path : str) : result str SyncError := rmap_err (Read path) (fs_hash path).

Record FileMetadata : Type := {
  path : str;
  hash : str;
  size_bytes : N;
  modified_at : option system_time;
  class : FileClass
}.

(** [Snapshot]: a [BTreeMap] keyed by path, that is by its components. *)
Abbreviation Snapshot := (list (list component * FileMetadata)).

(** ** [discover.rs] *)

Definition build_glob_set (patterns : list str) (kind : str) : result globset SyncError :=
  let? globs := rmap_list (fun p => rmap_err (InvalidGlob kind p) (glob_new p)) patterns in
  rmap_err (InvalidGlob kind (join (lit ", ") patterns)) (glob_build globs).

Definition bundle_relative_path (absolute rt : str) : result str SyncError :=
  match strip_components (components rt) (components absolute) with
  | Some rest => Ok (path_of rest)
  | None => Err (OutsideRoot absolute rt)
  end.

Definition selected_by_globs (p : str) (config : SyncConfig) (includes excludes : globset) : bool :=
  (bool_decide (include config = []) || is_match includes p) && negb (is_match excludes p).

(** The loop of [locate_packages] over the first walk. *)
Fixpoint collect_manifests (config : SyncConfig) (includes excludes : globset)
    (entries : list (result Entry walk_error)) (manifests : list str)
  : result (list str) SyncError :=
  match entries with
  | [] => Ok manifests
  | entry :: rest =>
      let? e := rmap_err (Walk (root config)) entry in
      if negb (entry_is_file e) then collect_manifests config includes excludes rest manifests
      else
        let? p := bundle_relative_path (entry_path e) (root config) in
        let text := to_string_lossy p in
        if match manifest_directory text with Some _ => true | None => false end
           && selected_by_globs p config includes excludes
        then collect_manifests config includes excludes rest (manifests ++ [text])
        else collect_manifests config includes excludes rest manifests
  end.

Definition locate_packages (config : SyncConfig) (includes excludes : globset)
  : result PackageIndex SyncError :=
  let? manifests := collect_manifests config includes excludes (walk (root config)) [] in
  Ok (from_paths manifests).

Record CandidateRules : Type := {
  r_config : SyncConfig;
  r_includes : globset;
  r_excludes : globset;
  r_packages : PackageIndex
}.

Definition rules_classify (rules : CandidateRules) (p : str) : option FileClass :=
  if is_match (r_excludes rules) p then None
  else
    class ← classify_path (r_packages rules) (to_string_lossy p);
    if is_resource class || bool_decide (include (r_config rules) = [])
       || is_match (r_includes rules) p
    then Some class else None.

Definition canonicalize (p : str) : result str SyncError := rmap_err (Metadata p) (fs_canonicalize p).

Definition ensure_symlink_containment (link rt : str) : result unit SyncError :=
  let? canonical_root := canonicalize rt in
  let? target := canonicalize link in
  if path_starts_with target canonical_root then Ok tt else Err (SymlinkEscape link rt).

Definition check_candidate_symlink (absolute p : str) (rules : CandidateRules) : result unit SyncError :=
  match rules_classify rules p with
  | None => Ok tt
  | Some _ =>
      match ensure_symlink_containment absolute (root (r_config rules)) with
      | Ok _ => Ok tt
      | Err (Metadata mp source) => if is_not_found source then Ok tt else Err (Metadata mp source)
      | Err other => Err other
      end
  end.

Definition read_candidate_file (absolute p : str) (config : SyncConfig) (cl : FileClass)
  : result FileMetadata SyncError :=
  let? (len, modified) := rmap_err (Metadata absolute) (fs_metadata absolute) in
  match max_file_bytes config with
  | Some limit =>
      if (limit <? len)%N then Err (SyncFileTooLarge absolute len limit)
      else let? h := hash_file absolute in
           Ok {| path := p; hash := h; size_bytes := len; modified_at := modified; class := cl |}
  | None => let? h := hash_file absolute in
            Ok {| path := p; hash := h; size_bytes := len; modified_at := modified; class := cl |}
  end.

(** The running total of the scan after a file, checked against the limit. *)
Definition add_total (config : SyncConfig) (total size : N) : result N SyncError :=
  match max_total_bytes config with
  | Some limit =>
      let total' := saturating_add total size in
      if (limit <? total')%N then Err (BundleTooLarge total' limit) else Ok total'
  | None => Ok total
  end.

(** One entry of the second walk. *)
Definition discover_entry (rules : CandidateRules) (st : Snapshot * N)
    (entry : result Entry walk_error) : result (Snapshot * N) SyncError :=
  let config := r_config rules in
  let '(files, total_bytes) := st in
  let? e := rmap_err (Walk (root config)) entry in
  let absolute := entry_path e in
  let? p := bundle_relative_path absolute (root config) in
  if path_is_symlink e then
    let? _ := check_candidate_symlink absolute p rules in
    Ok st
  else if negb (entry_is_file e) then Ok st
  else
    match rules_classify rules p with
    | None => Ok st
    | Some cl =>
        if match max_files config with Some limit => limit <=? length files | None => false end
        then Err (TooManyFiles (length files + 1) (default 0 (max_files config)))
        else
          let? file := read_candidate_file absolute p config cl in
          let? total' := add_total config total_bytes (size_bytes file) in
          Ok (bt_insert (components p) file files, total')
    end.

Fixpoint discover_loop (rules : CandidateRules) (entries : list (result Entry walk_error))
    (st : Snapshot * N) : result (Snapshot * N) SyncError :=
  match entries with
  | [] => Ok st
  | entry :: rest =>
      let? st' := discover_entry rules st entry in
      discover_loop rules rest st'
  end.

Definition discover (config : SyncConfig) : result Snapshot SyncError :=
  let? includes := build_glob_set (include config) (lit "include") in
  let? excludes := build_glob_set (exclude config) (lit "exclude") in
  let? packages := locate_packages config includes excludes in
  let rules := {| r_config := config; r_includes := includes; r_excludes := excludes;
                  r_packages := packages |} in
  let? (files, _) := discover_loop rules (walk (root config)) ([], 0%N) in
  Ok files.

End host.

(** * Properties of a scan *)

Section scan.
Context `{H : Host}.

(** [f] is what the scan records for the entry [e]. *)
Definition from_entry (rules : CandidateRules) (e : Entry) (f : FileMetadata) : Prop :=
  path_is_symlink e = false /\ entry_is_file e = true /\
  bundle_relative_path (entry_path e) (root (r_config rules)) = Ok (path f) /\
  rules_classify rules (path f) = Some (class f) /\
  fs_metadata (entry_path e) = Ok (size_bytes f, modified_at f) /\
  fs_hash (entry_path e) = Ok (hash f).

(** Canonicalizing [p] finds nothing there. *)
Definition not_there (p : str) : Prop := exists err, fs_canonicalize p = Err err /\ is_not_found err = true.

(** A link the rules would select resolves into the resolved root, or it
    dangles, or the root itself is gone. *)
Definition link_contained (rules : CandidateRules) (e : Entry) : Prop :=
  forall p c, bundle_relative_path (entry_path e) (root (r_config rules)) = Ok p ->
    rules_classify rules p = Some c ->
    not_there (root (r_config rules)) \/
    exists base, fs_canonicalize (root (r_config rules)) = Ok base /\
      (not_there (entry_path e) \/
       exists target, fs_canonicalize (entry_path e) = Ok target /\ path_starts_with target base = true).

Definition total_size (files : list (list component * FileMetadata)) : N :=
  foldr (fun kf n => (size_bytes kf.2 + n)%N) 0%N files.

(** What holds of the locals after the entries [seen]. *)
Record scan_inv (rules : CandidateRules) (seen : list (result Entry walk_error))
    (files : list (list component * FileMetadata)) (total : N) : Prop := {
  inv_sorted : bt_sorted files;
  inv_from : forall k f, (k, f) ∈ files ->
    k = components (path f) /\ exists e, Ok e ∈ seen /\ from_entry rules e f;
  inv_complete : forall e p c, Ok e ∈ seen -> path_is_symlink e = false ->
    entry_is_file e = true -> bundle_relative_path (entry_path e) (root (r_config rules)) = Ok p ->
    rules_classify rules p = Some c -> exists f, (components p, f) ∈ files;
  inv_links : forall e, Ok e ∈ seen -> path_is_symlink e = true -> link_contained rules e;
  inv_count : forall limit, max_files (r_config rules) = Some limit -> length files <= limit;
  inv_size : forall limit k f, max_file_bytes (r_config rules) = Some limit -> (k, f) ∈ files ->
    (size_bytes f <= limit)%N;
  inv_total : forall limit, max_total_bytes (r_config rules) = Some limit -> (limit < u64_max)%N ->
    (total_size files <= total)%N /\ (total <= limit)%N
}.

Lemma length_bt_insert (k : list component) (f : FileMetadata) files :
  length (bt_insert k f files) <= S (length files).
Proof.
  induction files as [|[k' f'] files IH]; simpl; [lia|].
  destruct (list_cmp _ _ _); simpl; lia.
Qed.

Lemma total_size_insert (k : list component) (f : FileMetadata) files :
  (total_size (bt_insert k f files) <= size_bytes f + total_size files)%N.
Proof.
  induction files as [|[k' f'] files IH]; cbn [bt_insert]; [unfold total_size; simpl; lia|].
  destruct (kcmp k k'); unfold total_size in *; simpl in *; lia.
Qed.

Lemma bt_insert_key (k : list component) (f : FileMetadata) files :
  bt_sorted files -> (k, f) ∈ bt_insert k f files.
Proof. intros Hs. apply bt_get_elem; [by apply bt_insert_sorted|]. by apply bt_get_insert. Qed.

(** Keys survive an insertion. *)
Lemma bt_insert_keep (k k' : list component) (f f' : FileMetadata) files :
  bt_sorted files -> (k', f') ∈ files -> exists f'', (k', f'') ∈ bt_insert k f files.
Proof.
  intros Hs Hin. destruct (decide (k = k')) as [->|Hne]; [eauto using bt_insert_key|].
  exists f'. apply bt_get_elem; [by apply bt_insert_sorted|].
  rewrite bt_get_insert_ne by done. by apply bt_get_elem.
Qed.

Lemma check_candidate_symlink_ok rules e p :
  bundle_relative_path (entry_path e) (root (r_config rules)) = Ok p ->
  check_candidate_symlink (entry_path e) p rules = Ok tt -> link_contained rules e.
Proof.
  intros Hp Hc p' c Hp' Hcl. rewrite Hp in Hp'. injection Hp' as <-.
  unfold check_candidate_symlink in Hc. rewrite Hcl in Hc.
  unfold ensure_symlink_containment, canonicalize in Hc.
  destruct (fs_canonicalize (root (r_config rules))) as [base|err] eqn:E1; cbn in Hc.
  2:{ left. exists err. split; [done|]. by destruct (is_not_found err). }
  right. exists base. split; [done|].
  destruct (fs_canonicalize (entry_path e)) as [target|err] eqn:E2; cbn in Hc.
  - right. exists target. by destruct (path_starts_with target base).
  - left. exists err. split; [done|]. by destruct (is_not_found err).
Qed.

Lemma read_candidate_file_ok absolute p config c f :
  read_candidate_file absolute p config c = Ok f ->
  path f = p /\ class f = c /\ fs_metadata absolute = Ok (size_bytes f, modified_at f) /\
  fs_hash absolute = Ok (hash f) /\
  forall limit, max_file_bytes config = Some limit -> (size_bytes f <= limit)%N.
Proof.
  unfold read_candidate_file, hash_file.
  destruct (fs_metadata absolute) as [[len modified]|]; cbn; [|done].
  destruct (max_file_bytes config) as [limit|].
  - destruct (limit <? len)%N eqn:El; [done|]. apply N.ltb_ge in El.
    destruct (fs_hash absolute) as [h|]; cbn; [|done]. intros [= <-]. cbn.
    repeat split; try done. naive_solver.
  - destruct (fs_hash absolute) as [h|]; cbn; [|done]. intros [= <-]. cbn. repeat split; done.
Qed.

(** Entries that leave the locals alone. *)
Lemma scan_inv_skip rules seen files total entry :
  scan_inv rules seen files total ->
  (forall e, entry = Ok e -> path_is_symlink e = true -> link_contained rules e) ->
  (forall e p c, entry = Ok e -> path_is_symlink e = false -> entry_is_file e = true ->
     bundle_relative_path (entry_path e) (root (r_config rules)) = Ok p ->
     rules_classify rules p = Some c -> False) ->
  scan_inv rules (seen ++ [entry]) files total.
Proof.
  intros [] Hl Hc. split; try done.
  - intros k f Hin. destruct (inv_from0 k f Hin) as (-> & e & He & Hf).
    split; [done|]. exists e. split; [set_solver|done].
  - intros e p c [He|He%list_elem_of_singleton]%elem_of_app; [eauto|]. intros. exfalso. by eapply Hc.
  - intros e [He|He%list_elem_of_singleton]%elem_of_app; [eauto|]. by apply Hl.
Qed.

Lemma add_total_ok config total size total' :
  add_total config total size = Ok total' ->
  forall limit, max_total_bytes config = Some limit -> (limit < u64_max)%N ->
  total' = (total + size)%N /\ (total' <= limit)%N.
Proof.
  unfold add_total, saturating_add. intros Ha limit Hl Hlim. rewrite Hl in Ha.
  destruct (limit <? _)%N eqn:E; [done|]. apply N.ltb_ge in E. injection Ha as <-. lia.
Qed.

Lemma discover_entry_inv rules seen entry files total files' total' :
  scan_inv rules seen files total ->
  discover_entry rules (files, total) entry = Ok (files', total') ->
  scan_inv rules (seen ++ [entry]) files' total'.
Proof.
  intros Hinv Hd. unfold discover_entry in Hd. destruct entry as [e|]; [|done]. cbn [rmap_err rbind] in Hd.
  destruct (bundle_relative_path _ _) as [p|] eqn:Hp; [|done]. cbn [rbind] in Hd.
  destruct (path_is_symlink e) eqn:Hsym.
  { destruct (check_candidate_symlink _ _ _) as [[]|] eqn:Hc; [|done]. injection Hd as <- <-.
    apply scan_inv_skip; [done| |congruence]. intros e' [= <-] _.
    by eapply check_candidate_symlink_ok. }
  destruct (entry_is_file e) eqn:Hfile; cbn [negb] in Hd.
  2:{ injection Hd as <- <-. apply scan_inv_skip; [done|congruence..]. }
  destruct (rules_classify rules p) as [c|] eqn:Hcl.
  2:{ injection Hd as <- <-. apply scan_inv_skip; [done|congruence..]. }
  destruct (match max_files _ with Some limit => _ | None => _ end) eqn:Hmax; [done|].
  destruct (read_candidate_file _ _ _ _) as [f|] eqn:Hr; [|done]. cbn [rbind] in Hd.
  destruct (add_total _ _ _) as [t|] eqn:Ht; [|done]. injection Hd as <- <-.
  apply read_candidate_file_ok in Hr as (Hpf & Hcf & Hm & Hh & Hsz).
  destruct Hinv. split.
  - by apply bt_insert_sorted.
  - intros k g [[= -> ->]|Hin]%bt_insert_elem.
    + split; [by rewrite Hpf|]. exists e. split; [set_solver|].
      repeat split; try done; congruence.
    + destruct (inv_from0 k g Hin) as (-> & e' & He' & Hf'). split; [done|].
      exists e'. split; [set_solver|done].
  - intros e' p' c' [He|[= ->]%list_elem_of_singleton]%elem_of_app Hs' Hf' Hp' Hc'.
    + destruct (inv_complete0 e' p' c' He Hs' Hf' Hp' Hc') as (g & Hg). by eapply bt_insert_keep.
    + rewrite Hp in Hp'. injection Hp' as <-. eauto using bt_insert_key.
  - intros e' [He|[= ->]%list_elem_of_singleton]%elem_of_app Hs'; [eauto|congruence].
  - intros limit Hl. rewrite Hl in Hmax. bool_prop.
    pose proof (length_bt_insert (components p) f files). lia.
  - intros limit k g Hl [[= -> ->]|Hin]%bt_insert_elem; eauto.
  - intros limit Hl Hlim. destruct (inv_total0 limit Hl Hlim) as [Hle _].
    destruct (add_total_ok _ _ _ _ Ht limit Hl Hlim) as [-> Hle'].
    pose proof (total_size_insert (components p) f files). lia.
Qed.

Lemma discover_loop_inv rules entries seen files total files' total' :
  scan_inv rules seen files total ->
  discover_loop rules entries (files, total) = Ok (files', total') ->
  scan_inv rules (seen ++ entries) files' total'.
Proof.
  revert seen files total. induction entries as [|entry entries IH]; intros seen files total Hinv Hd.
  - injection Hd as <- <-. by rewrite app_nil_r.
  - cbn [discover_loop] in Hd. apply rbind_ok in Hd as ([files1 total1] & He & Hd).
    rewrite cons_middle, app_assoc. eapply IH; [|done]. by eapply discover_entry_inv.
Qed.

Lemma scan_inv_start rules : scan_inv rules [] [] 0%N.
Proof.
  split; try by (intros; set_solver).
  - constructor.
  - simpl. lia.
  - intros limit _ _. unfold total_size. simpl. lia.
Qed.

(** What a successful scan means for the rules it ran with. *)
Lemma discover_ok config files :
  discover config = Ok files ->
  exists includes excludes packages total,
    build_glob_set (include config) (lit "include") = Ok includes /\
    build_glob_set (exclude config) (lit "exclude") = Ok excludes /\
    locate_packages config includes excludes = Ok packages /\
    scan_inv {| r_config := config; r_includes := includes; r_excludes := excludes;
                r_packages := packages |} (walk (root config)) files total.
Proof.
  unfold discover. intros (inc & Hi & Hd)%rbind_ok. apply rbind_ok in Hd as (exc & He & Hd).
  apply rbind_ok in Hd as (pk & Hp & Hd). apply rbind_ok in Hd as ([fs t] & Hl & Hd).
  injection Hd as <-. exists inc, exc, pk, t. do 3 (split; [done|]).
  eapply (discover_loop_inv _ (walk (root config)) [] [] 0%N) in Hl; [exact Hl|].
  apply scan_inv_start.
Qed.

(** A scan that succeeds respects every configured bound: the number of
    files, the size of each one, and (below the saturation point of [u64])
    their total. *)
Theorem discover_limits (config : SyncConfig) (files : list (list component * FileMetadata)) :
  discover config = Ok files ->
  (forall limit, max_files config = Some limit -> length files <= limit) /\
  (forall limit k f, max_file_bytes config = Some limit -> (k, f) ∈ files ->
     (size_bytes f <= limit)%N) /\
  (forall limit, max_total_bytes config = Some limit -> (limit < u64_max)%N ->
     (total_size files <= limit)%N).
Proof.
  intros (inc & exc & pk & t & _ & _ & _ & Hinv)%discover_ok. destruct Hinv.
  split; [exact inv_count0|]. split; [exact inv_size0|]. intros limit Hl Hlim.
  destruct (inv_total0 limit Hl Hlim). lia.
Qed.

(** The rules a scan of [config] runs with: its globs, and the packages its
    first walk located. *)
Definition rules_of (config : SyncConfig) (rules : CandidateRules) : Prop :=
  r_config rules = config /\
  build_glob_set (include config) (lit "include") = Ok (r_includes rules) /\
  build_glob_set (exclude config) (lit "exclude") = Ok (r_excludes rules) /\
  locate_packages config (r_includes rules) (r_excludes rules) = Ok (r_packages rules).

(** The snapshot is exactly the selected content: every file in it is the
    record of a regular file of the walk that the rules (globs, and packages
    located by the first pass) select, and every such file of the walk has
    its path in the snapshot. *)
Theorem discover_selects (config : SyncConfig) (files : list (list component * FileMetadata)) :
  discover config = Ok files ->
  exists rules, r_config rules = config /\
    build_glob_set (include config) (lit "include") = Ok (r_includes rules) /\
    build_glob_set (exclude config) (lit "exclude") = Ok (r_excludes rules) /\
    locate_packages config (r_includes rules) (r_excludes rules) = Ok (r_packages rules) /\
    bt_sorted files /\
    (forall k f, (k, f) ∈ files ->
       k = components (path f) /\ exists e, Ok e ∈ walk (root config) /\ from_entry rules e f) /\
    (forall e p c, Ok e ∈ walk (root config) -> path_is_symlink e = false ->
       entry_is_file e = true -> bundle_relative_path (entry_path e) (root config) = Ok p ->
       rules_classify rules p = Some c -> exists f, (components p, f) ∈ files).
Proof.
  intros (inc & exc & pk & t & Hi & He & Hp & Hinv)%discover_ok. destruct Hinv.
  exists {| r_config := config; r_includes := inc; r_excludes := exc; r_packages := pk |}.
  repeat (split; [done|]). exact inv_complete0.
Qed.

(** C22: No link smuggles content in.  After a successful scan every recorded
    file is the record, under its bundle-relative path, of a regular file of
    the walk that is no symbolic link and that the rules of the scan select;
    and every link of the walk that those rules would select resolves inside
    the resolved root, unless the link (or the root) resolves to nothing. *)
Theorem discover_links_contained (config : SyncConfig)
    (files : list (list component * FileMetadata)) :
  discover config = Ok files ->
  exists rules, rules_of config rules /\
    (forall k f, (k, f) ∈ files ->
       k = components (path f) /\ exists e, Ok e ∈ walk (root config) /\ from_entry rules e f) /\
    (forall e, Ok e ∈ walk (root config) -> path_is_symlink e = true -> link_contained rules e).
Proof.
  intros (inc & exc & pk & t & Hi & He & Hp & Hinv)%discover_ok. destruct Hinv.
  exists {| r_config := config; r_includes := inc; r_excludes := exc; r_packages := pk |}.
  done.
Qed.

End scan.

(** ** A concrete tree *)

Module Demo.

Definition entries : list (result Entry unit) :=
  [Ok {| entry_path := lit "/b"; path_is_symlink := false; entry_is_file := false |};
   Ok {| entry_path := lit "/b/p/SKILL.md"; path_is_symlink := false; entry_is_file := true |};
   Ok {| entry_path := lit "/b/p/scripts/run.sh"; path_is_symlink := false; entry_is_file := true |};
   Ok {| entry_path := lit "/b/p/notes.txt"; path_is_symlink := false; entry_is_file := true |};
   Ok {| entry_path := lit "/b/link.md"; path_is_symlink := true; entry_is_file := false |}].

(** A glob is its text; [**/*.md] matches every Markdown path. *)
#[export] Instance host : Host := {
  io_error := unit; walk_error := unit; glob_error := unit;
  glob := str; globset := list str; system_time := unit;
  is_not_found _ := true;
  walk _ := entries;
  fs_metadata _ := Ok (7%N, None);
  fs_hash p := Ok p;
  fs_canonicalize p := if decide (p = lit "/b/link.md") then Ok (lit "/b/p/SKILL.md") else Ok p;
  glob_new p := Ok p;
  glob_build gs := Ok gs;
  is_match gs p := existsb (fun g => if decide (g = lit "**/*.md") then ends_with dot_md p
                                     else bool_decide (g = p)) gs
}.

Definition config : SyncConfig :=
  {| root := lit "/b"; include := [lit "**/*.md"]; exclude := [];
     max_file_bytes := Some 10%N; max_files := Some 2; max_total_bytes := Some 14%N |}.

Definition files : list (list component * FileMetadata (H := host)) :=
  [([Normal (lit "p"); Normal (lit "SKILL.md")],
    Build_FileMetadata (H := host) (lit "p/SKILL.md") (lit "/b/p/SKILL.md") 7%N None SkillManifest);
   ([Normal (lit "p"); Normal (lit "scripts"); Normal (lit "run.sh")],
    Build_FileMetadata (H := host) (lit "p/scripts/run.sh") (lit "/b/p/scripts/run.sh") 7%N None SkillScript)].

Lemma discovered : discover (H := host) config = Ok files.
Proof. by_eval. Qed.

End Demo.

Lemma discover_limits_witness : length Demo.files <= 2 /\ (total_size Demo.files <= 14)%N.
Proof.
  destruct (discover_limits _ _ Demo.discovered) as (Hc & _ & Ht).
  split; [exact (Hc 2 eq_refl)|exact (Ht 14%N eq_refl eq_refl)].
Defined.

Lemma discover_selects_witness :
  exists rules, locate_packages Demo.config (r_includes rules) (r_excludes rules)
                = Ok (r_packages (H := Demo.host) rules).
Proof.
  destruct (discover_selects _ _ Demo.discovered) as (rules & _ & _ & _ & Hp & _).
  exists rules. exact Hp.
Defined.

Lemma discover_links_contained_witness :
  exists rules, rules_of (H := Demo.host) Demo.config rules /\
    link_contained rules {| entry_path := lit "/b/link.md"; path_is_symlink := true; entry_is_file := false |}.
Proof.
  destruct (discover_links_contained _ _ Demo.discovered) as (rules & Hr & _ & Hl).
  exists rules. split; [exact Hr|]. apply Hl; [|reflexivity].
  do 4 apply list_elem_of_further. apply list_elem_of_here.
Defined.
