(* ===== verification/Plan.v ===== *)
(** * Sync plans ([okf-sync/src/plan.rs], [report.rs])

    [plan] compares two snapshots by path and content hash.  [apply_plan] is
    what a consumer of the plan does to the persisted snapshot; the theorems
    say that doing so reaches the current content, and that the report counts
    every path once. *)
From stdpp Require Import prelude strings list sorting.
From Stdlib Require Import Lia.
From S2P Require Import Prelude Str OkfPath Package BTree Discover.

Section plan.
Context `{H : Host}.
Abbreviation Snapshot := (list (list component * FileMetadata)).

Record UpdatedFile : Type := { previous : FileMetadata; current : FileMetadata }.

Record SyncPlan : Type := {
  added : list FileMetadata;
  updated : list UpdatedFile;
  removed : list FileMetadata;
  unchanged : list FileMetadata
}.

Definition plan_is_empty (p : SyncPlan) : bool :=
  match added p, updated p, removed p with [], [], [] => true | _, _, _ => false end.

Definition empty_plan : SyncPlan :=
  {| added := []; updated := []; removed := []; unchanged := [] |}.

(** One path of the union.  The [(None, None)] arm is [unreachable!]: a path
    of the union is in one of the snapshots ([plan_paths] below). *)
Definition plan_step (prev cur : Snapshot) (r : SyncPlan) (k : list component) : SyncPlan :=
  match bt_get k prev, bt_get k cur with
  | None, Some c =>
      {| added := added r ++ [c]; updated := updated r; removed := removed r;
         unchanged := unchanged r |}
  | Some p, None =>
      {| added := added r; updated := updated r; removed := removed r ++ [p];
         unchanged := unchanged r |}
  | Some p, Some c =>
      if decide (hash p = hash c)
      then {| added := added r; updated := updated r; removed := removed r;
              unchanged := unchanged r ++ [c] |}
      else {| added := added r; updated := updated r ++ [{| previous := p; current := c |}];
              removed := removed r; unchanged := unchanged r |}
  | None, None => r
  end.

Definition plan (prev cur : Snapshot) : SyncPlan :=
  fold_left (plan_step prev cur) (bs_collect (prev.*1 ++ cur.*1)) empty_plan.

Definition build_plan (config : SyncConfig) (prev : Snapshot)
  : result (Snapshot * SyncPlan) SyncError :=
  let? cur := discover config in
  Ok (cur, plan prev cur).

(** [report.rs]. *)
Record SyncReport : Type := {
  n_added : nat; n_updated : nat; n_removed : nat; n_unchanged : nat
}.

Definition total (r : SyncReport) : nat := n_added r + n_updated r + n_removed r + n_unchanged r.

Definition report_of (p : SyncPlan) : SyncReport :=
  {| n_added := length (added p); n_updated := length (updated p);
     n_removed := length (removed p); n_unchanged := length (unchanged p) |}.

(** ** Applying a plan *)

(** The persisted state after the mutations: removed files are deleted, added
    and updated ones stored.  Unchanged files are left alone. *)
Definition apply_plan (prev : Snapshot) (p : SyncPlan) : Snapshot :=
  let m1 := fold_left (fun m f => bt_remove (components (path f)) m) (removed p) prev in
  let m2 := fold_left (fun m f => bt_insert (components (path f)) f m) (added p) m1 in
  fold_left (fun m u => bt_insert (components (path (current u))) (current u) m) (updated p) m2.

(** The content of a snapshot: the hash at each path. *)
Definition content (m : Snapshot) (k : list component) : option str := hash <$> bt_get k m.

(** A snapshot indexes each file under its own path. *)
Definition snapshot_wf (m : Snapshot) : Prop :=
  bt_sorted m /\ forall k f, (k, f) ∈ m -> k = components (path f).

(** ** The four buckets *)

Lemma plan_paths (prev cur : Snapshot) k :
  bt_sorted prev -> bt_sorted cur ->
  k ∈ bs_collect (prev.*1 ++ cur.*1) <-> bt_get k prev <> None \/ bt_get k cur <> None.
Proof.
  intros Hp Hc. rewrite elem_of_bs_collect, elem_of_app.
  assert (forall m : Snapshot, bt_sorted m -> k ∈ m.*1 <-> bt_get k m <> None) as Hk.
  { intros m Hm. rewrite list_elem_of_fmap. split.
    - intros ([k' f] & -> & Hin). apply bt_get_elem in Hin; [|done]. cbn. congruence.
    - intros Hne. destruct (bt_get k m) as [f|] eqn:E; [|done].
      apply bt_get_elem in E; [|done]. by exists (k, f). }
  by rewrite !Hk.
Qed.

(** The file a path contributes to each bucket. *)
Definition sel_added (prev cur : Snapshot) k :=
  match bt_get k prev with Some _ => None | None => bt_get k cur end.
Definition sel_removed (prev cur : Snapshot) k :=
  match bt_get k cur with Some _ => None | None => bt_get k prev end.
Definition sel_unchanged (prev cur : Snapshot) k :=
  p ← bt_get k prev; c ← bt_get k cur; if decide (hash p = hash c) then Some c else None.
Definition sel_updated (prev cur : Snapshot) k :=
  p ← bt_get k prev; c ← bt_get k cur;
  if decide (hash p = hash c) then None else Some {| previous := p; current := c |}.

(** Each bucket is a filter of the union, in path order. *)
Lemma plan_buckets (prev cur : Snapshot) :
  let ks := bs_collect (prev.*1 ++ cur.*1) in
  added (plan prev cur) = omap (sel_added prev cur) ks /\
  removed (plan prev cur) = omap (sel_removed prev cur) ks /\
  unchanged (plan prev cur) = omap (sel_unchanged prev cur) ks /\
  updated (plan prev cur) = omap (sel_updated prev cur) ks.
Proof.
  cbn zeta. unfold plan. generalize (bs_collect (prev.*1 ++ cur.*1)). intros ks.
  assert (forall r,
    let r' := fold_left (plan_step prev cur) ks r in
    added r' = added r ++ omap (sel_added prev cur) ks /\
    removed r' = removed r ++ omap (sel_removed prev cur) ks /\
    unchanged r' = unchanged r ++ omap (sel_unchanged prev cur) ks /\
    updated r' = updated r ++ omap (sel_updated prev cur) ks) as Hgen; [|apply Hgen].
  induction ks as [|k ks IH]; intros r; cbn zeta; [by rewrite !app_nil_r|].
  cbn [fold_left]. destruct (IH (plan_step prev cur r k)) as (-> & -> & -> & ->).
  unfold plan_step. cbn [omap list_omap].
  unfold sel_added at 2, sel_removed at 2, sel_unchanged at 2, sel_updated at 2.
  destruct (bt_get k prev) as [p|], (bt_get k cur) as [c|]; cbn; try case_decide;
    cbn; rewrite <- ?app_assoc; done.
Qed.

Lemma omap_path_lookup {A} (g : list component -> option A) (f : A -> list component) ks k :
  NoDup ks -> (forall k a, g k = Some a -> f a = k) ->
  list_find (fun a => f a = k) (omap g ks) = None <-> (k ∈ ks -> g k = None).
Proof.
  intros Hnd Hf. rewrite list_find_None, Forall_forall. split.
  - intros HF Hk. destruct (g k) as [a|] eqn:E; [|done]. exfalso. apply (HF a).
    + apply list_elem_of_omap. eauto.
    + by apply Hf.
  - intros HF a (k' & Hk' & Ha)%list_elem_of_omap. intros Hfa. apply Hf in Ha as Hfa'.
    rewrite Hfa in Hfa'. subst k'. rewrite HF in Ha; done.
Qed.

(** Folding inserts (removals) of files with distinct keys. *)
Lemma fold_insert_get {A} (file : A -> FileMetadata) l m k :
  bt_sorted m ->
  bt_sorted (fold_left (fun m a => bt_insert (components (path (file a))) (file a) m) l m) /\
  (NoDup ((fun a => components (path (file a))) <$> l) ->
   bt_get k (fold_left (fun m a => bt_insert (components (path (file a))) (file a) m) l m) =
   match list_find (fun a => components (path (file a)) = k) l with
   | Some (_, a) => Some (file a)
   | None => bt_get k m
   end).
Proof.
  revert m. induction l as [|a l IH]; intros m Hm; cbn [fold_left]; [done|].
  destruct (IH (bt_insert (components (path (file a))) (file a) m)) as [Hs Hg];
    [by apply bt_insert_sorted|]. split; [done|]. cbn [fmap list_fmap].
  intros [Ha Hnd]%NoDup_cons. rewrite Hg by done. cbn [list_find].
  rewrite bt_get_insert_decide by done. destruct (decide (components (path (file a)) = k)) as [Hk|Hk].
  - destruct (list_find _ l) as [[i b]|] eqn:E.
    + apply list_find_Some in E as (Hi & Hb & _). destruct Ha. apply list_elem_of_fmap.
      exists b. split; [congruence|]. by eapply list_elem_of_lookup_2.
    + by rewrite decide_True.
  - destruct (list_find _ l) as [[i b]|]; cbn; [done|]. by rewrite decide_False.
Qed.

Lemma fold_remove_get l (m : Snapshot) k :
  bt_sorted m ->
  bt_sorted (fold_left (fun m f => bt_remove (components (path f)) m) l m) /\
  bt_get k (fold_left (fun m f => bt_remove (components (path f)) m) l m) =
  match list_find (fun f => components (path f) = k) l with
  | Some _ => None
  | None => bt_get k m
  end.
Proof.
  revert m. induction l as [|f l IH]; intros m Hm; cbn [fold_left]; [done|].
  destruct (IH (bt_remove (components (path f)) m)) as [Hs Hg]; [by apply bt_remove_sorted|].
  split; [done|]. rewrite Hg. cbn [list_find]. rewrite bt_get_remove by done.
  destruct (decide (components (path f) = k)) as [Hk|Hk].
  - rewrite decide_True by done. by destruct (list_find _ l) as [[]|].
  - destruct (list_find _ l) as [[]|]; cbn; [done|]. by rewrite decide_False.
Qed.

Lemma omap_fmap_NoDup {A} (g : list component -> option A) (f : A -> list component) ks :
  NoDup ks -> (forall k a, g k = Some a -> f a = k) -> NoDup (f <$> omap g ks).
Proof.
  intros Hnd Hf. induction Hnd as [|k ks Hk Hnd IH]; [constructor|]. cbn [omap list_omap].
  destruct (g k) as [a|] eqn:E; [|done]. cbn. apply NoDup_cons. split; [|done].
  rewrite (Hf _ _ E). intros (b & Hb & (k' & Hk' & Hg)%list_elem_of_omap)%list_elem_of_fmap.
  apply Hf in Hg. congruence.
Qed.

(** Looking a path up among the results of a bucket. *)
Lemma omap_find {A} (g : list component -> option A) (f : A -> list component) ks k :
  NoDup ks -> (forall k a, g k = Some a -> f a = k) ->
  snd <$> list_find (fun a => f a = k) (omap g ks) = if decide (k ∈ ks) then g k else None.
Proof.
  intros Hnd Hf. destruct (list_find _ _) as [[i a]|] eqn:E; cbn.
  - apply list_find_Some in E as (Hi & Ha & _). apply list_elem_of_lookup_2 in Hi.
    apply list_elem_of_omap in Hi as (k' & Hk' & Hg). pose proof (Hf _ _ Hg) as Hk.
    rewrite Ha in Hk. subst k'. by rewrite decide_True.
  - case_decide; [|done]. symmetry. by apply (omap_path_lookup g f ks k Hnd Hf).
Qed.

(** The file of each bucket is indexed under the path that selected it. *)
Lemma sel_paths (prev cur : Snapshot) k :
  snapshot_wf prev -> snapshot_wf cur ->
  (forall f, sel_added prev cur k = Some f -> components (path f) = k) /\
  (forall f, sel_removed prev cur k = Some f -> components (path f) = k) /\
  (forall u, sel_updated prev cur k = Some u -> components (path (current u)) = k).
Proof.
  intros [Hp Hp'] [Hc Hc'].
  assert (forall f, bt_get k prev = Some f -> components (path f) = k) as HP.
  { intros f Hf. apply bt_get_elem in Hf; [|done]. symmetry. by eapply Hp'. }
  assert (forall f, bt_get k cur = Some f -> components (path f) = k) as HC.
  { intros f Hf. apply bt_get_elem in Hf; [|done]. symmetry. by eapply Hc'. }
  unfold sel_added, sel_removed, sel_updated. split; [|split].
  - intros f. destruct (bt_get k prev); [done|]. apply HC.
  - intros f. destruct (bt_get k cur); [done|]. apply HP.
  - intros u. destruct (bt_get k prev) as [p|]; [|done]. cbn.
    destruct (bt_get k cur) as [c|]; [|done]. cbn. case_decide; [done|]. intros [= <-]. by apply HC.
Qed.

(** The state after a plan, path by path. *)
Lemma apply_plan_get (prev cur : Snapshot) k :
  snapshot_wf prev -> snapshot_wf cur ->
  bt_get k (apply_plan prev (plan prev cur)) =
  match bt_get k prev, bt_get k cur with
  | Some p, Some c => if decide (hash p = hash c) then Some p else Some c
  | _, o => o
  end.
Proof.
  intros Hp Hc. pose proof (proj1 Hp) as HPs. pose proof (proj1 Hc) as HCs.
  destruct (plan_buckets prev cur) as (Ea & Er & _ & Eu). unfold apply_plan.
  rewrite Ea, Er, Eu. set (ks := bs_collect (prev.*1 ++ cur.*1)).
  assert (NoDup ks) as Hnd by (apply klt_sorted_NoDup, bs_collect_sorted).
  assert (k ∈ ks <-> bt_get k prev <> None \/ bt_get k cur <> None) as Hks by (by apply plan_paths).
  pose proof (fold_remove_get (omap (sel_removed prev cur) ks) prev k HPs) as [Hs1 Hg1].
  set (m1 := fold_left _ (omap (sel_removed prev cur) ks) prev) in *.
  pose proof (fold_insert_get (fun f => f) (omap (sel_added prev cur) ks) m1 k Hs1) as [Hs2 Hg2].
  set (m2 := fold_left _ (omap (sel_added prev cur) ks) m1) in *.
  pose proof (fold_insert_get current (omap (sel_updated prev cur) ks) m2 k Hs2) as [_ Hg3].
  specialize (Hg2 (omap_fmap_NoDup _ _ _ Hnd (fun k => proj1 (sel_paths prev cur k Hp Hc)))).
  specialize (Hg3 (omap_fmap_NoDup _ _ _ Hnd (fun k u => proj2 (proj2 (sel_paths prev cur k Hp Hc)) u))).
  rewrite Hg3, Hg2, Hg1. clear Hg1 Hg2 Hg3.
  pose proof (omap_find (sel_updated prev cur) (fun u => components (path (current u))) ks k Hnd
                (fun k u => proj2 (proj2 (sel_paths prev cur k Hp Hc)) u)) as F3.
  pose proof (omap_find (sel_added prev cur) (fun f => components (path f)) ks k Hnd
                (fun k => proj1 (sel_paths prev cur k Hp Hc))) as F2.
  pose proof (omap_find (sel_removed prev cur) (fun f => components (path f)) ks k Hnd
                (fun k => proj1 (proj2 (sel_paths prev cur k Hp Hc)))) as F1.
  destruct (list_find _ (omap (sel_updated prev cur) ks)) as [[i u]|];
  destruct (list_find _ (omap (sel_added prev cur) ks)) as [[j a]|];
  destruct (list_find _ (omap (sel_removed prev cur) ks)) as [[l d]|]; cbn in F1, F2, F3;
  unfold sel_updated, sel_added, sel_removed in F1, F2, F3;
  destruct (bt_get k prev), (bt_get k cur); cbn in F1, F2, F3;
  repeat (case_decide || simplify_eq/=); naive_solver.
Qed.

(** Replaying a plan reaches the current content: after deleting the
    removed files and storing the added and updated ones, the persisted
    snapshot has the current hash at every path, and nothing else. *)
Theorem apply_plan_content (prev cur : Snapshot) :
  snapshot_wf prev -> snapshot_wf cur ->
  forall k, content (apply_plan prev (plan prev cur)) k = content cur k.
Proof.
  intros Hp Hc k. unfold content. rewrite apply_plan_get by done.
  destruct (bt_get k prev), (bt_get k cur); cbn; try done. case_decide; cbn; congruence.
Qed.

(** The plan is empty exactly when no content changed. *)
Theorem plan_empty_iff (prev cur : Snapshot) :
  bt_sorted prev -> bt_sorted cur ->
  plan_is_empty (plan prev cur) = true <-> forall k, content prev k = content cur k.
Proof.
  intros Hp Hc. destruct (plan_buckets prev cur) as (Ea & Er & _ & Eu).
  assert (plan_is_empty (plan prev cur) = true <->
          added (plan prev cur) = [] /\ updated (plan prev cur) = [] /\ removed (plan prev cur) = []) as ->.
  { unfold plan_is_empty.
    destruct (added _), (updated _), (removed _); naive_solver. }
  rewrite Ea, Er, Eu. set (ks := bs_collect (prev.*1 ++ cur.*1)).
  assert (forall k, k ∈ ks <-> bt_get k prev <> None \/ bt_get k cur <> None) as Hks
    by (intros k; by apply plan_paths).
  assert (forall A (g : list component -> option A),
            omap g ks = [] <-> forall k, k ∈ ks -> g k = None) as Hnil.
  { intros A g. split.
    - intros He k Hk. destruct (g k) as [a|] eqn:Eg; [|done].
      assert (a ∈ omap g ks) as Hin by (apply list_elem_of_omap; eauto).
      rewrite He in Hin. by apply not_elem_of_nil in Hin.
    - intros HF. destruct (omap g ks) as [|a l] eqn:Eo; [done|].
      assert (a ∈ omap g ks) as Hin by (rewrite Eo; by left).
      apply list_elem_of_omap in Hin as (k & Hk & Ha). by rewrite HF in Ha. }
  rewrite !Hnil. unfold content, sel_added, sel_updated, sel_removed. split.
  - intros (HA & HU & HR) k. destruct (decide (k ∈ ks)) as [Hk|Hk].
    + specialize (HA k Hk). specialize (HU k Hk). specialize (HR k Hk).
      destruct (bt_get k prev), (bt_get k cur); cbn in *; simplify_eq; [|done].
      case_decide; [congruence|done].
    + rewrite Hks in Hk. destruct (bt_get k prev), (bt_get k cur); naive_solver.
  - intros He. split; [|split]; intros k _; specialize (He k);
      destruct (bt_get k prev), (bt_get k cur); cbn in *; simplify_eq; try done.
    by rewrite decide_True.
Qed.

(** The buckets partition the paths: the report counts every path of
    either snapshot exactly once, and each bucket is in path order. *)
Theorem plan_report_total (prev cur : Snapshot) :
  snapshot_wf prev -> snapshot_wf cur ->
  total (report_of (plan prev cur)) = length (bs_collect (prev.*1 ++ cur.*1)) /\
  StronglySorted klt ((fun f => components (path f)) <$> added (plan prev cur)) /\
  StronglySorted klt ((fun f => components (path f)) <$> removed (plan prev cur)) /\
  StronglySorted klt ((fun u => components (path (current u))) <$> updated (plan prev cur)).
Proof.
  intros Hp Hc. destruct (plan_buckets prev cur) as (Ea & Er & En & Eu).
  unfold report_of, total. cbn [n_added n_updated n_removed n_unchanged].
  rewrite Ea, Er, En, Eu. set (ks := bs_collect (prev.*1 ++ cur.*1)).
  assert (forall k, k ∈ ks -> bt_get k prev <> None \/ bt_get k cur <> None) as Hks
    by (intros k; by apply plan_paths; [apply Hp|apply Hc]).
  pose proof (bs_collect_sorted (prev.*1 ++ cur.*1)) as Hs. fold ks in Hs. split.
  - clear Hs. induction ks as [|k ks IH]; [done|]. cbn [omap list_omap].
    assert (bt_get k prev <> None \/ bt_get k cur <> None) as Hk by (apply Hks; by left).
    specialize (IH (fun k' Hk' => Hks k' (list_elem_of_further _ _ _ Hk'))).
    unfold sel_added at 1, sel_removed at 1, sel_unchanged at 1, sel_updated at 1.
    destruct (bt_get k prev), (bt_get k cur); cbn; try case_decide; simpl length; try lia; naive_solver.
  - assert (forall A (g : list component -> option A) (f : A -> list component),
              (forall k a, g k = Some a -> f a = k) -> StronglySorted klt (f <$> omap g ks)) as Hsort.
    { intros A g f Hf. clear Hks. induction Hs as [|k l Hl IH HF]; [constructor|]. cbn [omap list_omap].
      destruct (g k) as [a|] eqn:E; [|done]. cbn. constructor; [done|].
      rewrite (Hf _ _ E). apply Forall_forall.
      intros x (b & -> & (k' & Hk' & Hg)%list_elem_of_omap)%list_elem_of_fmap.
      rewrite (Hf _ _ Hg). rewrite Forall_forall in HF. auto. }
    split; [|split]; apply Hsort; intros k a; destruct (sel_paths prev cur k Hp Hc) as (?&?&?); auto.
Qed.

End plan.

(** ** An instance: one file changed, one added, one removed *)

Definition demo_file (p h : string) : list component * FileMetadata (H := Demo.host) :=
  (components (lit p), Build_FileMetadata (H := Demo.host) (lit p) (lit h) 1%N None OkfDocument).
Definition demo_prev := [demo_file "a.md" "1"; demo_file "b.md" "2"; demo_file "c.md" "3"].
Definition demo_cur := [demo_file "b.md" "9"; demo_file "c.md" "3"; demo_file "d.md" "4"].

Lemma demo_prev_wf : snapshot_wf demo_prev.
Proof.
  split; [repeat constructor|]. intros k f Hin. unfold demo_prev, demo_file in Hin.
  repeat (apply elem_of_cons in Hin as [[= -> ->]|Hin]; [done|]). by apply not_elem_of_nil in Hin.
Qed.

Lemma demo_cur_wf : snapshot_wf demo_cur.
Proof.
  split; [repeat constructor|]. intros k f Hin. unfold demo_cur, demo_file in Hin.
  repeat (apply elem_of_cons in Hin as [[= -> ->]|Hin]; [done|]). by apply not_elem_of_nil in Hin.
Qed.

Lemma apply_plan_content_witness :
  content (apply_plan demo_prev (plan demo_prev demo_cur)) (components (lit "b.md")) = Some (lit "9").
Proof. rewrite (apply_plan_content _ _ demo_prev_wf demo_cur_wf). by_eval. Defined.

Lemma plan_empty_iff_witness : plan_is_empty (plan demo_prev demo_prev) = true.
Proof. apply (plan_empty_iff _ _ (proj1 demo_prev_wf) (proj1 demo_prev_wf)). reflexivity. Defined.

Lemma plan_report_total_witness : total (report_of (plan demo_prev demo_cur)) = 4.
Proof. rewrite (proj1 (plan_report_total _ _ demo_prev_wf demo_cur_wf)). by_eval. Defined.
