(* ===== verification/SyncDelta.v ===== *)
(** * The catalog's incremental sync, its pure part
      ([extension/src/catalog/sync.rs], [extension/src/catalog/packages.rs])

    What changed between the stored projection of a bundle and its current
    snapshot ([classify_changes]), which skill manifests have to follow
    ([invalidate_packages]), and the hashes recorded for bundles and packages.
    The SQL that loads and stores the projection is outside the model; a
    [BTreeMap] is a sorted list ([BTree]), a [BTreeSet] used only for
    membership is a finite set.  [hash_bytes] is BLAKE3. *)
From stdpp Require Import prelude strings gmap list sorting.
From Stdlib Require Import Ascii Lia.
From S2P Require Import Prelude Str ParserError OkfPath Concept Package BTree Discover Plan.

Abbreviation strmap := (list (list ascii * list ascii)).

(** ** [packages.rs]: package identities *)

Definition skill_stem : str := default SKILL_MANIFEST (strip_suffix dot_md SKILL_MANIFEST).

Definition package_root_of (skill_concept_id : str) : str :=
  match rsplit_once slash skill_concept_id with Some (r, _) => r | None => [] end.

Definition skill_concept_id_of (r : str) : str :=
  if decide (r = []) then skill_stem else r ++ [slash] ++ skill_stem.

Section sync.
Context `{H : Host}.

(** ** [sync.rs]: classification *)

Record StoredProjection : Type := {
  hashes : strmap;
  ids : strmap;
  owners : strmap;
  skills : gset (list ascii)
}.

Record BundleDelta : Type := {
  to_parse : list FileMetadata;
  removed_paths : list str;
  report : SyncReport
}.

Definition empty_report : SyncReport :=
  {| n_added := 0; n_updated := 0; n_removed := 0; n_unchanged := 0 |}.

(** What the stored rows must say for a file to keep its identity. *)
Definition same_identity (projection : StoredProjection) (packages : PackageIndex)
    (metadata : FileMetadata) : bool :=
  let path_text := to_string_lossy (path metadata) in
  let same_id := match bt_get path_text (ids projection) with
                 | Some id => bool_decide (id = class_concept_id (class metadata) path_text)
                 | None => true
                 end in
  let same_owner := negb (is_resource (class metadata))
    || match bt_get path_text (owners projection) with
       | Some owner => match owner_of packages path_text with
                       | Some r => bool_decide (skill_concept_id_of r = owner)
                       | None => false
                       end
       | None => false
       end in
  let projected := negb (bool_decide (class metadata = SkillManifest))
    || bool_decide (path_text ∈ skills projection) in
  same_id && same_owner && projected.

(** One entry of the snapshot; the state is the delta and [current_paths]. *)
Definition classify_step (projection : StoredProjection) (packages : PackageIndex)
    (st : BundleDelta * gset (list ascii)) (metadata : FileMetadata)
  : BundleDelta * gset (list ascii) :=
  let '(delta, current_paths) := st in
  let path_text := to_string_lossy (path metadata) in
  if is_reserved_path path_text then st
  else
    let r := report delta in
    let delta' :=
      match bt_get path_text (hashes projection) with
      | None =>
          {| to_parse := to_parse delta ++ [metadata]; removed_paths := removed_paths delta;
             report := {| n_added := n_added r + 1; n_updated := n_updated r;
                          n_removed := n_removed r; n_unchanged := n_unchanged r |} |}
      | Some stored_hash =>
          if bool_decide (stored_hash = hash metadata) && same_identity projection packages metadata
          then {| to_parse := to_parse delta; removed_paths := removed_paths delta;
                  report := {| n_added := n_added r; n_updated := n_updated r;
                               n_removed := n_removed r; n_unchanged := n_unchanged r + 1 |} |}
          else {| to_parse := to_parse delta ++ [metadata]; removed_paths := removed_paths delta;
                  report := {| n_added := n_added r; n_updated := n_updated r + 1;
                               n_removed := n_removed r; n_unchanged := n_unchanged r |} |}
      end in
    (delta', {[path_text]} ∪ current_paths).

(** The second loop, over the stored keys. *)
Definition removal_step (current_paths : gset (list ascii)) (delta : BundleDelta) (p : str)
  : BundleDelta :=
  if decide (p ∈ current_paths) then delta
  else
    let r := report delta in
    {| to_parse := to_parse delta; removed_paths := removed_paths delta ++ [p];
       report := {| n_added := n_added r; n_updated := n_updated r;
                    n_removed := n_removed r + 1; n_unchanged := n_unchanged r |} |}.

Definition classify_changes (projection : StoredProjection) (packages : PackageIndex)
    (current : list FileMetadata) : BundleDelta :=
  let '(delta, current_paths) :=
    fold_left (classify_step projection packages) current
      ({| to_parse := []; removed_paths := []; report := empty_report |}, ∅) in
  fold_left (removal_step current_paths) (hashes projection).*1 delta.

Definition nul : ascii := "000"%char.

(** [path NUL hash LF] for every non-reserved entry. *)
Definition sync_hash_buffer (current : list FileMetadata) : str :=
  concat (map (fun m =>
    let path_text := to_string_lossy (path m) in
    if is_reserved_path path_text then [] else path_text ++ nul :: hash m ++ [nl]) current).

Definition bundle_sync_hash (hash_bytes : str -> str) (current : list FileMetadata) : str :=
  hash_bytes (sync_hash_buffer current).

(** [saturating_sub(1)] is [Nat.pred]. *)
Definition skip_step (stored : strmap) (r : SyncReport) (p : str) : SyncReport :=
  match bt_get (to_string_lossy p) stored with
  | Some _ => {| n_added := n_added r; n_updated := Nat.pred (n_updated r);
                 n_removed := n_removed r; n_unchanged := n_unchanged r |}
  | None => {| n_added := Nat.pred (n_added r); n_updated := n_updated r;
               n_removed := n_removed r; n_unchanged := n_unchanged r |}
  end.

Definition adjust_report_for_skips (delta : BundleDelta) (stored : strmap) (skipped : list str)
  : BundleDelta :=
  {| to_parse := to_parse delta; removed_paths := removed_paths delta;
     report := fold_left (skip_step stored) skipped (report delta) |}.

(** A staged concept as far as the change manifest reads it: [(path, id)]. *)
Definition build_change_manifest (stored : strmap) (staged : list (str * str))
    (removed_ids : list str) : list str * list str :=
  let entries :=
    map (fun '(p, id) => (id, match bt_get p stored with
                              | Some _ => lit "updated" | None => lit "added" end)) staged
    ++ map (fun id => (id, lit "removed")) removed_ids in
  (entries.*1, entries.*2).

Definition apply_okf_version_policy (version : option str) (policy : str)
  : result (option str) unit :=
  match version with
  | Some declared =>
      if negb (is_supported_okf_version declared) && bool_decide (policy = lit "reject")
      then Err tt else Ok version
  | None => Ok version
  end.

(** ** [packages.rs]: invalidation, members, package hash *)

(** [entry.path.to_str().unwrap_or_default()]. *)
Definition to_str_or_empty (p : str) : str := if utf8_valid p then p else [].

Definition is_manifest (entry : FileMetadata) : bool := bool_decide (class entry = SkillManifest).

(** The roots one changed or removed path touches. *)
Definition touched_by (index : PackageIndex) (stored_owners : strmap) (p : str) : list str :=
  match bt_get p stored_owners with
  | Some previous_owner => [package_root_of previous_owner]
  | None => []
  end
  ++ match owner_of index p with
     | Some r => if match classify_path index p with Some c => is_resource c | None => false end
                 then [r] else []
     | None => []
     end
  ++ match manifest_directory p with
     | Some directory => match owner_of index directory with
                         | Some enclosing => [enclosing]
                         | None => []
                         end
     | None => []
     end.

Definition invalidate_packages (parse : list FileMetadata) (removed : list str)
    (current : list FileMetadata) (stored_owners : strmap) : list FileMetadata :=
  let index := from_paths (map (fun e => to_str_or_empty (path e)) (List.filter is_manifest current)) in
  let scheduled := bs_collect (map (fun e => to_string_lossy (path e)) parse) in
  let touched_roots := concat (map (touched_by index stored_owners) (scheduled ++ removed)) in
  parse ++ List.filter (fun entry =>
    is_manifest entry
    && match manifest_directory (to_string_lossy (path entry)) with
       | Some r => bool_decide (r ∈ touched_roots)
                   && negb (bool_decide (to_string_lossy (path entry) ∈ scheduled))
       | None => false
       end) current.

Record PackageMember : Type := {
  m_class : FileClass;
  m_path : str;
  m_package_path : str;
  m_concept_id : str;
  m_file_hash : str
}.

(** [sort_by(|a, b| key(a).cmp(&key(b)))], a stable sort. *)
Definition cmp_le {A K} `{OrdKey K} (key : A -> K) (a b : A) : bool :=
  match kcmp (key a) (key b) with Gt => false | _ => true end.
Definition sort_key {A K} `{OrdKey K} (key : A -> K) (l : list A) : list A := sort_by (cmp_le key) l.

Definition member_of (r : str) (index : PackageIndex) (entry : FileMetadata)
  : option PackageMember :=
  if negb (is_resource (class entry)) then None
  else if negb (utf8_valid (path entry)) then None
  else if negb (bool_decide (owner_of index (path entry) = Some r)) then None
  else
    package_path ← package_relative index (path entry);
    Some {| m_class := class entry; m_path := path entry; m_package_path := package_path;
            m_concept_id := class_concept_id (class entry) (path entry);
            m_file_hash := hash entry |}.

Definition package_members (r : str) (index : PackageIndex) (current : list FileMetadata)
  : list PackageMember :=
  sort_key m_path (omap (member_of r index) current).

Definition PACKAGE_HASH_DOMAIN : str := lit "pgokf.package:v1".
Definition CLASSIFIER_VERSION : str := lit "1".
Definition VALIDATOR_VERSION : str := lit "1".

Definition member_line (m : PackageMember) : str :=
  class_label (m_class m) ++ nul :: m_package_path m ++ nul :: m_file_hash m ++ [nl].

Definition package_hash_buffer (skill_md_hash : str) (members : list PackageMember) : str :=
  PACKAGE_HASH_DOMAIN ++ [nl] ++ CLASSIFIER_VERSION ++ [nl] ++ VALIDATOR_VERSION ++ [nl]
  ++ skill_md_hash ++ [nl] ++ concat (map member_line (sort_key m_package_path members)).

Definition package_hash (hash_bytes : str -> str) (skill_md_hash : str)
    (members : list PackageMember) : str :=
  hash_bytes (package_hash_buffer skill_md_hash members).

(** ** [ContentSource::new] *)

Record ContentSource : Type := {
  entries : list FileMetadata;
  contents : list (list component * str)
}.

Definition content_entry (hash_bytes : str -> str) (index : PackageIndex) (pc : str * str)
  : result FileMetadata str :=
  let '(p, content) := pc in
  match classify_path index p with
  | None => Err p
  | Some cl => Ok {| path := p; hash := hash_bytes content;
                     size_bytes := N.min (N.of_nat (length content)) u64_max;
                     modified_at := None; class := cl |}
  end.

(** The refusal carries the offending path. *)
Definition content_source_new (hash_bytes : str -> str) (paths : list str) (cs : list str)
  : result ContentSource str :=
  let index := from_paths paths in
  let pairs := zip paths cs in
  let? es := rmap_list (content_entry hash_bytes index) pairs in
  Ok {| entries := sort_key (fun m => components (path m)) es;
        contents := fold_left (fun m '(p, c) => bt_insert (components p) c m) pairs [] |}.

End sync.

(** * Properties *)

Section classification.
Context `{H : Host}.

Definition text_of (m : FileMetadata) : str := to_string_lossy (path m).

(** The entries the catalog looks at. *)
Definition live (cur : list FileMetadata) : list FileMetadata :=
  List.filter (fun m => negb (is_reserved_path (text_of m))) cur.

(** An entry whose stored row already says everything. *)
Definition settled (pr : StoredProjection) (pk : PackageIndex) (m : FileMetadata) : bool :=
  bool_decide (bt_get (text_of m) (hashes pr) = Some (hash m)) && same_identity pr pk m.

Definition is_new (pr : StoredProjection) (m : FileMetadata) : bool :=
  bool_decide (bt_get (text_of m) (hashes pr) = None).

Lemma live_cons m cur :
  live (m :: cur) = if is_reserved_path (text_of m) then live cur else m :: live cur.
Proof. unfold live. simpl. by destruct (is_reserved_path (text_of m)). Qed.

(** The state after the first loop. *)
Lemma classify_loop pr pk cur d cp :
  let '(d', cp') := fold_left (classify_step pr pk) cur (d, cp) in
  to_parse d' = to_parse d ++ List.filter (fun m => negb (settled pr pk m)) (live cur) /\
  removed_paths d' = removed_paths d /\
  n_added (report d') = n_added (report d) + length (List.filter (is_new pr) (live cur)) /\
  n_updated (report d') = n_updated (report d)
    + length (List.filter (fun m => negb (is_new pr m) && negb (settled pr pk m)) (live cur)) /\
  n_unchanged (report d') = n_unchanged (report d)
    + length (List.filter (settled pr pk) (live cur)) /\
  n_removed (report d') = n_removed (report d) /\
  (forall p, p ∈ cp' <-> p ∈ cp \/ p ∈ map text_of (live cur)).
Proof.
  revert d cp. induction cur as [|m cur IH]; intros d cp.
  { cbn. rewrite app_nil_r. repeat (split; [lia || done|]). intros p. set_solver. }
  cbn [fold_left]. rewrite live_cons. unfold classify_step at 2.
  fold (text_of m). destruct (is_reserved_path (text_of m)) eqn:Er; [apply IH|].
  match goal with |- context [fold_left _ cur (?d1, ?c1)] => specialize (IH d1 c1) end.
  destruct (fold_left _ cur _) as [d' cp']. destruct IH as (H1 & H2 & H3 & H4 & H5 & H6 & H7).
  rewrite H1, H2, H3, H4, H5, H6. clear H1 H2 H3 H4 H5 H6.
  assert (settled pr pk m = match bt_get (text_of m) (hashes pr) with
                            | Some h => bool_decide (h = hash m) && same_identity pr pk m
                            | None => false end) as Hs.
  { unfold settled. destruct (bt_get (text_of m) (hashes pr)) as [h|]; [|done].
    f_equal. apply bool_decide_ext. naive_solver. }
  assert (is_new pr m = match bt_get (text_of m) (hashes pr) with Some _ => false | None => true end) as Hn.
  { unfold is_new. by destruct (bt_get (text_of m) (hashes pr)). }
  cbn [List.filter map]. rewrite Hs, Hn. repeat (apply conj); try (intros q; rewrite H7; set_solver);
    destruct (bt_get (text_of m) (hashes pr)) as [h|]; cbn;
    try (destruct (bool_decide (h = hash m) && same_identity pr pk m); cbn);
    rewrite <- ?app_assoc; try done; lia.
Qed.

Lemma removal_loop cp ks d :
  let d' := fold_left (removal_step cp) ks d in
  to_parse d' = to_parse d /\
  removed_paths d' = removed_paths d ++ filter (fun p => p ∉ cp) ks /\
  n_added (report d') = n_added (report d) /\ n_updated (report d') = n_updated (report d) /\
  n_unchanged (report d') = n_unchanged (report d) /\
  n_removed (report d') = n_removed (report d) + length (filter (fun p => p ∉ cp) ks).
Proof.
  revert d. induction ks as [|k ks IH]; intros d; cbn zeta; cbn [fold_left].
  { cbn. rewrite app_nil_r. repeat split; lia. }
  destruct (IH (removal_step cp d k)) as (-> & -> & -> & -> & -> & ->).
  unfold removal_step. case_decide as Hk.
  - rewrite filter_cons_False by naive_solver. done.
  - rewrite filter_cons_True by done. cbn. rewrite <- app_assoc. repeat split; lia.
Qed.

Lemma classify_changes_parts pr pk cur :
  let d := classify_changes pr pk cur in
  let gone := filter (fun p => p ∉ map text_of (live cur)) (hashes pr).*1 in
  to_parse d = List.filter (fun m => negb (settled pr pk m)) (live cur) /\
  removed_paths d = gone /\
  report d = {| n_added := length (List.filter (is_new pr) (live cur));
                n_updated := length (List.filter
                  (fun m => negb (is_new pr m) && negb (settled pr pk m)) (live cur));
                n_removed := length gone;
                n_unchanged := length (List.filter (settled pr pk) (live cur)) |}.
Proof.
  cbn zeta. unfold classify_changes.
  pose proof (classify_loop pr pk cur
    {| to_parse := []; removed_paths := []; report := empty_report |} ∅) as HL.
  destruct (fold_left _ cur _) as [d cp]. destruct HL as (H1 & H2 & H3 & H4 & H5 & H6 & H7).
  destruct (removal_loop cp (hashes pr).*1 d) as (-> & -> & R3 & R4 & R5 & R6).
  assert (filter (fun p => p ∉ cp) (hashes pr).*1
          = filter (fun p => p ∉ map text_of (live cur)) (hashes pr).*1) as Hf.
  { apply list_filter_iff. intros p. rewrite H7. set_solver. }
  rewrite H1, H2, Hf. split; [done|]. split; [done|].
  rewrite Hf, H6 in R6. rewrite H3 in R3. rewrite H4 in R4. rewrite H5 in R5.
  destruct (report (fold_left _ _ d)) as [a b c e]. cbn in *. by subst.
Qed.

Lemma filter_split {A} (P Q : A -> bool) l :
  length (List.filter (fun x => P x && Q x) l) + length (List.filter (fun x => negb (P x) && Q x) l)
  = length (List.filter Q l).
Proof. induction l as [|x l IH]; [done|]. simpl. destruct (P x), (Q x); simpl; lia. Qed.

Lemma filter_compl {A} (P : A -> bool) l :
  length (List.filter P l) + length (List.filter (fun x => negb (P x)) l) = length l.
Proof. induction l as [|x l IH]; [done|]. simpl. destruct (P x); simpl; lia. Qed.

(** What it means that the stored rows already describe a file: its bytes
    are unchanged, its row has the id its class gives it, a resource belongs
    to the package that owns it now, and a manifest has its skill row. *)
Definition up_to_date (pr : StoredProjection) (pk : PackageIndex) (m : FileMetadata) : Prop :=
  bt_get (text_of m) (hashes pr) = Some (hash m) /\
  (forall id, bt_get (text_of m) (ids pr) = Some id -> id = class_concept_id (class m) (text_of m)) /\
  (is_resource (class m) = true -> exists r, owner_of pk (text_of m) = Some r /\
     bt_get (text_of m) (owners pr) = Some (skill_concept_id_of r)) /\
  (class m = SkillManifest -> text_of m ∈ skills pr).

Lemma settled_iff pr pk m : settled pr pk m = true <-> up_to_date pr pk m.
Proof.
  unfold settled, same_identity, up_to_date. fold (text_of m).
  rewrite !andb_true_iff, bool_decide_eq_true, !orb_true_iff, !negb_true_iff.
  assert (forall b : bool, b = false \/ b = true) as Hb by (intros []; auto).
  split.
  - intros (Hh & (Hi & Ho) & Hs). split; [done|]. split; [|split].
    + intros id Hid. rewrite Hid in Hi. by apply bool_decide_eq_true in Hi.
    + intros Hr. destruct Ho as [Ho|Ho]; [congruence|].
      destruct (bt_get (text_of m) (owners pr)) as [o|]; [|done].
      destruct (owner_of pk (text_of m)) as [r|]; [|done].
      apply bool_decide_eq_true in Ho as <-. by exists r.
    + intros Hc. destruct Hs as [Hs|Hs]; [by apply bool_decide_eq_false in Hs|].
      by apply bool_decide_eq_true in Hs.
  - intros (Hh & Hi & Ho & Hs). split; [done|]. split; [split|].
    + destruct (bt_get (text_of m) (ids pr)) as [id|]; [|done]. apply bool_decide_eq_true. auto.
    + destruct (Hb (is_resource (class m))) as [Hr|Hr]; [by left|right].
      destruct (Ho Hr) as (r & -> & ->). by apply bool_decide_eq_true.
    + destruct (decide (class m = SkillManifest)) as [Hc|Hc].
      * right. apply bool_decide_eq_true. auto.
      * left. by apply bool_decide_eq_false.
Qed.

(** The delta is exact and its report honest: exactly the live files
    whose stored hash or identity (id, owner, skill row) disagrees are
    re-parsed, exactly the stored paths with no live file are removed, and
    the counts add up to the files parsed, left alone and removed. *)
Theorem classify_changes_exact (pr : StoredProjection) (pk : PackageIndex)
    (cur : list FileMetadata) :
  let d := classify_changes pr pk cur in
  (forall m, m ∈ to_parse d <-> m ∈ live cur /\ ~ up_to_date pr pk m) /\
  (forall p, p ∈ removed_paths d <-> p ∈ (hashes pr).*1 /\ p ∉ map text_of (live cur)) /\
  n_added (report d) + n_updated (report d) = length (to_parse d) /\
  length (to_parse d) + n_unchanged (report d) = length (live cur) /\
  n_removed (report d) = length (removed_paths d).
Proof.
  cbn zeta. destruct (classify_changes_parts pr pk cur) as (Hp & Hr & Hrep).
  rewrite Hp, Hr, Hrep. cbn. split_and!.
  - intros m. rewrite !list_elem_of_In, filter_In, negb_true_iff, <- settled_iff.
    by rewrite not_true_iff_false.
  - intros p. rewrite list_elem_of_filter. tauto.
  - rewrite <- (filter_split (is_new pr) (fun m => negb (settled pr pk m))). f_equal.
    f_equal. apply filter_ext. intros m. unfold is_new, settled.
    destruct (bt_get (text_of m) (hashes pr)) as [h|]; [done|]. simpl. done.
  - pose proof (filter_compl (settled pr pk) (live cur)). lia.
  - done.
Qed.

(** ** Syncing twice *)

(** The projection that storing every live file leaves behind. *)
Definition project_step (pk : PackageIndex) (pr : StoredProjection) (m : FileMetadata)
  : StoredProjection :=
  let t := text_of m in
  {| hashes := bt_insert t (hash m) (hashes pr);
     ids := bt_insert t (class_concept_id (class m) t) (ids pr);
     owners := match owner_of pk t with
               | Some r => if is_resource (class m) then bt_insert t (skill_concept_id_of r) (owners pr)
                           else owners pr
               | None => owners pr
               end;
     skills := if decide (class m = SkillManifest) then {[t]} ∪ skills pr else skills pr |}.

Definition project_snapshot (pk : PackageIndex) (cur : list FileMetadata) : StoredProjection :=
  fold_left (project_step pk) (live cur) {| hashes := []; ids := []; owners := []; skills := ∅ |}.

Lemma project_fold pk l pr :
  bt_sorted (hashes pr) -> bt_sorted (ids pr) -> bt_sorted (owners pr) ->
  NoDup (map text_of l) ->
  let pr' := fold_left (project_step pk) l pr in
  (forall t, t ∈ (hashes pr').*1 -> t ∈ (hashes pr).*1 \/ t ∈ map text_of l) /\
  (forall m, m ∈ l ->
     bt_get (text_of m) (hashes pr') = Some (hash m) /\
     bt_get (text_of m) (ids pr') = Some (class_concept_id (class m) (text_of m)) /\
     (forall r, owner_of pk (text_of m) = Some r -> is_resource (class m) = true ->
        bt_get (text_of m) (owners pr') = Some (skill_concept_id_of r)) /\
     (class m = SkillManifest -> text_of m ∈ skills pr')) /\
  (forall t, t ∉ map text_of l ->
     bt_get t (hashes pr') = bt_get t (hashes pr) /\ bt_get t (ids pr') = bt_get t (ids pr) /\
     bt_get t (owners pr') = bt_get t (owners pr) /\ (t ∈ skills pr -> t ∈ skills pr')).
Proof.
  revert pr. induction l as [|m l IH]; intros pr Hh Hi Ho Hnd; cbn zeta.
  { cbn. split_and!; [auto|by intros ? ?%not_elem_of_nil|done]. }
  cbn [map] in Hnd. apply NoDup_cons in Hnd as [Hm Hnd]. cbn [fold_left].
  assert (bt_sorted (owners (project_step pk pr m))) as Ho'.
  { cbn [hashes ids owners skills project_step]. destruct (owner_of pk (text_of m)); [|done]. destruct (is_resource (class m)); [|done].
    by apply bt_insert_sorted. }
  destruct (IH (project_step pk pr m)) as (K1 & K2 & K3);
    [by apply bt_insert_sorted..|done|done|]. split_and!.
  - intros t [Ht|Ht]%K1; [|set_solver]. cbn [hashes ids owners skills project_step] in Ht.
    apply list_elem_of_fmap in Ht as ([t' h] & -> & Ht). apply bt_insert_elem in Ht as [[= -> ->]|Ht].
    + right. set_solver.
    + left. apply list_elem_of_fmap. by exists (t', h).
  - intros m' [->|Hm']%elem_of_cons; [|by apply K2].
    destruct (K3 (text_of m) Hm) as (-> & -> & -> & Hsk). cbn [hashes ids owners skills project_step]. split_and!.
    + by rewrite bt_get_insert.
    + by rewrite bt_get_insert.
    + intros r -> ->. by rewrite bt_get_insert.
    + intros Hc. apply Hsk. cbn [hashes ids owners skills project_step]. rewrite decide_True by done. set_solver.
  - intros t [Hne Ht]%not_elem_of_cons. destruct (K3 t Ht) as (-> & -> & -> & Hsk). cbn [hashes ids owners skills project_step].
    rewrite !bt_get_insert_ne by done. split_and!; try done.
    + destruct (owner_of pk (text_of m)); [|done]. destruct (is_resource (class m)); [|done].
      by rewrite bt_get_insert_ne.
    + intros Hin. apply Hsk. cbn [hashes ids owners skills project_step]. case_decide; set_solver.
Qed.

(** Syncing an unchanged snapshot again does nothing: against the
    projection that storing the snapshot leaves behind, no file is re-parsed,
    no path removed, and every live file is counted unchanged. *)
Theorem resync_is_noop (pk : PackageIndex) (cur : list FileMetadata) :
  NoDup (map text_of (live cur)) ->
  (forall m, m ∈ live cur -> is_resource (class m) = true -> owner_of pk (text_of m) <> None) ->
  let d := classify_changes (project_snapshot pk cur) pk cur in
  to_parse d = [] /\ removed_paths d = [] /\
  report d = {| n_added := 0; n_updated := 0; n_removed := 0; n_unchanged := length (live cur) |}.
Proof.
  intros Hnd Hown. cbn zeta. set (pr := project_snapshot pk cur).
  destruct (project_fold pk (live cur) {| hashes := []; ids := []; owners := []; skills := ∅ |})
    as (K1 & K2 & _); [constructor|constructor|constructor|exact Hnd|]. fold (project_snapshot pk cur) in K1, K2. fold pr in K1, K2.
  assert (forall m, m ∈ live cur -> settled pr pk m = true) as Hset.
  { intros m Hm. destruct (K2 m Hm) as (Hh & Hi & Ho & Hs). unfold settled, same_identity.
    fold (text_of m). rewrite Hh, Hi, !bool_decide_eq_true_2 by done. cbn [andb].
    apply andb_true_iff. split.
    - destruct (is_resource (class m)) eqn:Er; [|done]. cbn.
      destruct (owner_of pk (text_of m)) as [r|] eqn:Eo; [|by destruct (Hown m Hm Er)].
      rewrite (Ho r) by done. by apply bool_decide_eq_true_2.
    - destruct (decide (class m = SkillManifest)) as [Hc|Hc].
      + rewrite !bool_decide_eq_true_2 by auto. done.
      + by rewrite bool_decide_eq_false_2. }
  destruct (classify_changes_parts pr pk cur) as (Hp & Hr & Hrep).
  assert (forall P : FileMetadata -> bool, (forall m, m ∈ live cur -> P m = false) ->
            List.filter P (live cur) = []) as Hnone.
  { intros P HP. clear -HP. induction (live cur) as [|m l IH]; [done|]. simpl.
    rewrite (HP m) by (by left). apply IH. intros; apply HP; by right. }
  assert (removed_paths (classify_changes pr pk cur) = []) as Hrm.
  { rewrite Hr. destruct (filter _ (hashes pr).*1) as [|p l] eqn:E; [done|].
    assert (p ∈ p :: l) as Hin by (by left). rewrite <- E in Hin.
    apply list_elem_of_filter in Hin as [Hn Hin]. apply K1 in Hin as [Hin|Hin]; [|done].
    by apply not_elem_of_nil in Hin. }
  split; [rewrite Hp; apply Hnone; intros m Hm; by rewrite Hset|]. split; [done|].
  rewrite Hr in Hrm. rewrite Hrep, Hrm. f_equal.
  - rewrite Hnone; [done|]. intros m Hm. unfold is_new.
    destruct (K2 m Hm) as (-> & _). by apply bool_decide_eq_false_2.
  - rewrite Hnone; [done|]. intros m Hm. by rewrite Hset, andb_false_r.
  - pose proof (filter_compl (settled pr pk) (live cur)) as Hc.
    rewrite (Hnone (fun m => negb (settled pr pk m))) in Hc; [simpl in Hc; lia|].
    intros m Hm. by rewrite Hset.
Qed.

End classification.

(** ** Hash inputs *)

Section hashes.
Context `{H : Host}.

(** A field up to its terminator can be read back. *)
Lemma terminated_inj (c : ascii) a b r s : c ∉ a -> c ∉ b -> a ++ c :: r = b ++ c :: s -> a = b /\ r = s.
Proof.
  intros Ha Hb He. assert (split_once c (a ++ c :: r) = Some (a, r)) as H1 by (by apply split_once_Some).
  rewrite He in H1. assert (split_once c (b ++ c :: s) = Some (b, s)) as H2 by (by apply split_once_Some).
  naive_solver.
Qed.

Definition hash_pairs (cur : list FileMetadata) : list (str * str) :=
  map (fun m => (text_of m, hash m)) (live cur).

(** Paths hold no NUL byte (no file name does) and digests no newline. *)
Definition hashable (cur : list FileMetadata) : Prop :=
  Forall (fun m => (nul ∉ text_of m) /\ (nl ∉ hash m)) (live cur).

Lemma sync_hash_buffer_live cur :
  sync_hash_buffer cur = concat (map (fun '(t, h) => t ++ nul :: h ++ [nl]) (hash_pairs cur)).
Proof.
  unfold sync_hash_buffer, hash_pairs. induction cur as [|m cur IH]; [done|]. rewrite live_cons.
  cbn [map concat]. rewrite IH. fold (text_of m). by destruct (is_reserved_path (text_of m)).
Qed.

Lemma records_inj (l k : list (str * str)) :
  Forall (fun '(t, h) => (nul ∉ t) /\ (nl ∉ h)) l -> Forall (fun '(t, h) => (nul ∉ t) /\ (nl ∉ h)) k ->
  concat (map (fun '(t, h) => t ++ nul :: h ++ [nl]) l)
  = concat (map (fun '(t, h) => t ++ nul :: h ++ [nl]) k) -> l = k.
Proof.
  revert k. induction l as [|[t h] l IH]; intros [|[t' h'] k] Hl Hk He; cbn in He;
    [done|by destruct t'|by destruct t|].
  apply Forall_cons in Hl as [[??] Hl], Hk as [[??] Hk].
  rewrite <- !app_assoc in He. cbn [app] in He. apply terminated_inj in He as [-> He]; [|done..].
  rewrite <- !app_assoc in He. cbn [app] in He. apply terminated_inj in He as [-> He]; [|done..].
  f_equal. by apply IH.
Qed.

(** A pair of distinct inputs with one digest. *)
Definition collision (hash_bytes : str -> str) (x y : str) : Prop :=
  x <> y /\ hash_bytes x = hash_bytes y.

(** The sync hash identifies the content: snapshots with the same live
    paths and file hashes have one sync hash, and two snapshots with one sync
    hash have the same live paths with the same file hashes, in the same
    order, unless their digested texts are a collision of the digest. *)
Theorem bundle_sync_hash_faithful (hash_bytes : str -> str) (cur cur' : list FileMetadata) :
  hashable cur -> hashable cur' ->
  (hash_pairs cur = hash_pairs cur' ->
   bundle_sync_hash hash_bytes cur = bundle_sync_hash hash_bytes cur') /\
  (bundle_sync_hash hash_bytes cur = bundle_sync_hash hash_bytes cur' ->
   hash_pairs cur = hash_pairs cur' \/
   collision hash_bytes (sync_hash_buffer cur) (sync_hash_buffer cur')).
Proof.
  intros Hc Hc'. unfold bundle_sync_hash. split.
  - intros He. by rewrite !sync_hash_buffer_live, He.
  - intros He. destruct (decide (sync_hash_buffer cur = sync_hash_buffer cur')) as [Hb|]; [left|by right].
    rewrite !sync_hash_buffer_live in Hb. apply records_inj; [| |done]; apply Forall_map;
      (eapply Forall_impl; [done|]); by intros m.
Qed.

(** ** Package members *)

Lemma sort_key_perm {A} (key : A -> str) l : sort_key key l ≡ₚ l.
Proof. apply sort_by_perm. Qed.

(** Sorted with equal keys allowed, and the strict order of distinct keys. *)
Definition key_order {A} (key : A -> str) (a b : A) : Prop := klt (key a) (key b) \/ key a = key b.

#[export] Instance key_order_trans {A} (key : A -> str) : Transitive (key_order key).
Proof.
  unfold key_order. intros a b c [Hab| ->] [Hbc|Hbc]; rewrite <- ?Hbc; auto.
  left. by trans (key b).
Qed.

Lemma sort_key_sorted {A} (key : A -> str) l :
  NoDup (key <$> l) -> StronglySorted klt (key <$> sort_key key l).
Proof.
  intros Hnd. rewrite <- (sort_key_perm key l) in Hnd.
  assert (StronglySorted (key_order key) (sort_key key l)) as Hs.
  { apply sort_by_sorted; [apply _|..]; unfold cmp_le, key_order; intros x y Hxy;
      destruct (kcmp (key x) (key y)) eqn:E; try done; [right; by apply kcmp_eq|by left|].
    left. by apply kcmp_gt. }
  revert Hnd Hs. generalize (sort_key key l). clear l. intros l Hnd Hs.
  induction Hs as [|a l Hs IH HF]; [constructor|]. cbn in *. apply NoDup_cons in Hnd as [Ha Hnd].
  constructor; [auto|]. rewrite Forall_fmap. rewrite Forall_forall in *. intros b Hb. cbn.
  destruct (HF b Hb) as [?|Heq]; [done|]. exfalso. apply Ha. rewrite Heq.
  by apply list_elem_of_fmap_2.
Qed.

Lemma sorted_keys_unique {A} (key : A -> str) (l k : list A) :
  StronglySorted klt (key <$> l) -> StronglySorted klt (key <$> k) -> l ≡ₚ k -> l = k.
Proof.
  intros Hl Hk Hp. apply (StronglySorted_unique_strong (fun x y => klt (key x) (key y))); [|..|done].
  - intros x y _ _ Hxy Hyx. exfalso. apply (klt_irrefl (key x)). by trans (key y).
  - by apply (StronglySorted_on key klt).
  - by apply (StronglySorted_on key klt).
Qed.

Lemma sort_key_perm_eq {A} (key : A -> str) (l k : list A) :
  NoDup (key <$> l) -> l ≡ₚ k -> sort_key key l = sort_key key k.
Proof.
  intros Hnd Hp. apply (sorted_keys_unique key); [by apply sort_key_sorted| |].
  - apply sort_key_sorted. by rewrite <- Hp.
  - by rewrite !sort_key_perm.
Qed.

Definition member_text (m : PackageMember) : str * str * str :=
  (class_label (m_class m), m_package_path m, m_file_hash m).

Definition member_hashable (m : PackageMember) : Prop :=
  (nul ∉ m_package_path m) /\ (nl ∉ m_file_hash m).

Lemma class_label_no_nul c : nul ∉ class_label c.
Proof. destruct c; by_decide. Qed.

Lemma member_lines_inj l k :
  Forall member_hashable l -> Forall member_hashable k ->
  concat (map member_line l) = concat (map member_line k) -> member_text <$> l = member_text <$> k.
Proof.
  assert (forall m r, member_line m ++ r
            = class_label (m_class m) ++ nul :: m_package_path m ++ nul :: m_file_hash m ++ nl :: r) as Hm.
  { intros m r. unfold member_line. by rewrite <- !app_assoc; cbn [app]; rewrite <- !app_assoc;
      cbn [app]; rewrite <- !app_assoc. }
  revert k. induction l as [|m l IH]; intros [|m' k] Hl Hk He; cbn in He; [done| | |].
  - by destruct m' as [[] ????].
  - by destruct m as [[] ????].
  - apply Forall_cons in Hl as [[??] Hl], Hk as [[??] Hk]. rewrite !Hm in He.
    apply terminated_inj in He as [Hc He]; [|apply class_label_no_nul..].
    apply terminated_inj in He as [Hp He]; [|done..].
    apply terminated_inj in He as [Hh He]; [|done..].
    cbn. unfold member_text at 1 3. rewrite Hc, Hp, Hh. f_equal. by apply IH.
Qed.

(** The package hash identifies the package: it does not depend on the
    order of the members, and two packages with one hash have the same
    manifest hash and the same members (class, package-relative path, file
    hash), unless their digested texts are a collision of the digest. *)
Theorem package_hash_faithful (hash_bytes : str -> str) (h h' : str) (l k : list PackageMember) :
  NoDup (m_package_path <$> l) ->
  Forall member_hashable l -> Forall member_hashable k -> nl ∉ h -> nl ∉ h' ->
  (l ≡ₚ k -> package_hash hash_bytes h l = package_hash hash_bytes h k) /\
  (package_hash hash_bytes h l = package_hash hash_bytes h' k ->
   (h = h' /\ (member_text <$> l) ≡ₚ (member_text <$> k)) \/
   collision hash_bytes (package_hash_buffer h l) (package_hash_buffer h' k)).
Proof.
  intros Hnd Hl Hk Hh Hh'. split.
  - intros Hp. unfold package_hash, package_hash_buffer. by rewrite (sort_key_perm_eq _ l k).
  - intros He. destruct (decide (package_hash_buffer h l = package_hash_buffer h' k)) as [Hb|];
      [left|by right]. unfold package_hash_buffer in Hb.
    do 6 apply app_inv_head in Hb. cbn [app] in Hb. apply terminated_inj in Hb as [-> Hb]; [|done..].
    split; [done|]. apply member_lines_inj in Hb; [|by rewrite sort_key_perm..].
    rewrite <- (sort_key_perm m_package_path l), <- (sort_key_perm m_package_path k), Hb. done.
Qed.

End hashes.

(** ** Invalidation *)

Section invalidation.
Context `{H : Host}.

(** The index [invalidate_packages] builds. *)
Definition manifest_index (cur : list FileMetadata) : PackageIndex :=
  from_paths (map (fun e => to_str_or_empty (path e)) (List.filter is_manifest cur)).

(** A path the sync schedules or removes. *)
Definition changed (parse : list FileMetadata) (removed : list str) (p : str) : Prop :=
  p ∈ map text_of parse \/ p ∈ removed.

(** A package follows its members.  Nothing scheduled is dropped, only
    unscheduled manifests of the snapshot are added, and the manifest at [r]
    is scheduled whenever a changed or removed path is a resource [r] owns
    now, belonged to [r] before, or is a manifest that came or went inside
    [r]'s package. *)
Theorem invalidate_packages_complete (parse : list FileMetadata) (removed : list str)
    (cur : list FileMetadata) (stored_owners : strmap) :
  let out := invalidate_packages parse removed cur stored_owners in
  let index := manifest_index cur in
  (exists extra, out = parse ++ extra /\
     forall e, e ∈ extra -> e ∈ cur /\ class e = SkillManifest /\ text_of e ∉ map text_of parse) /\
  (forall p r e, changed parse removed p -> e ∈ cur -> class e = SkillManifest ->
     manifest_directory (text_of e) = Some r ->
     (owner_of index p = Some r /\ (exists c, classify_path index p = Some c /\ is_resource c = true))
     \/ (exists owner, bt_get p stored_owners = Some owner /\ package_root_of owner = r)
     \/ (exists d, manifest_directory p = Some d /\ owner_of index d = Some r) ->
     text_of e ∈ map text_of out).
Proof.
  cbn zeta. unfold invalidate_packages. fold (manifest_index cur).
  set (index := manifest_index cur).
  set (scheduled := bs_collect (map (fun e => to_string_lossy (path e)) parse)).
  assert (forall t, t ∈ scheduled <-> t ∈ map text_of parse) as Hsch by (intros; apply elem_of_bs_collect).
  set (touched := concat (map (touched_by index stored_owners) (scheduled ++ removed))).
  split.
  - eexists. split; [done|]. intros e [Hin Hf]%list_elem_of_In%filter_In.
    apply andb_true_iff in Hf as [Hm Hf]. unfold is_manifest in Hm. bool_prop.
    split; [by apply list_elem_of_In|]. split; [done|].
    destruct (manifest_directory _); [|done]. bool_prop. by rewrite <- Hsch.
  - intros p r e Hch He Hc Hd Hr. rewrite map_app.
    destruct (decide (text_of e ∈ map text_of parse)) as [Hs|Hs]; [set_solver|].
    apply elem_of_app. right. apply list_elem_of_fmap. exists e. split; [done|].
    apply list_elem_of_In, filter_In. split; [by apply list_elem_of_In|]. unfold is_manifest.
    rewrite bool_decide_eq_true_2 by done. cbn [andb]. fold (text_of e). rewrite Hd.
    rewrite (bool_decide_eq_false_2 (text_of e ∈ scheduled)) by (by rewrite Hsch).
    rewrite andb_true_r. apply bool_decide_eq_true_2. unfold touched.
    apply list_elem_of_join_map with p.
    + apply elem_of_app. rewrite Hsch. done.
    + unfold touched_by. rewrite !elem_of_app.
      destruct Hr as [(-> & c & -> & ->)|[(owner & -> & <-)|(d & -> & ->)]]; set_solver.
Qed.

End invalidation.

(** ** Concrete runs *)

Definition demo_meta (p h : string) (c : FileClass) : FileMetadata (H := Demo.host) :=
  Build_FileMetadata (H := Demo.host) (lit p) (lit h) 1%N None c.

Definition demo_cur : list (FileMetadata (H := Demo.host)) :=
  [demo_meta "index.md" "i" Reserved; demo_meta "p/SKILL.md" "s" SkillManifest;
   demo_meta "p/scripts/run.sh" "r" SkillScript].
Definition demo_index : PackageIndex := from_paths [lit "p/SKILL.md"].

Lemma resync_is_noop_witness :
  to_parse (classify_changes (project_snapshot demo_index demo_cur) demo_index demo_cur) = [].
Proof.
  apply resync_is_noop; [by_decide|].
  assert (Forall (fun m => is_resource (class m) = true -> owner_of demo_index (text_of m) <> None)
            (live demo_cur)) as HF by by_decide.
  rewrite Forall_forall in HF. exact HF.
Defined.

Lemma bundle_sync_hash_faithful_witness :
  hash_pairs demo_cur = hash_pairs (live demo_cur).
Proof.
  destruct (bundle_sync_hash_faithful (fun x => x) demo_cur (live demo_cur)) as [_ Hf];
    [by_decide..|]. destruct Hf as [Hp|[Hne _]]; [by_eval|exact Hp|].
  exfalso. apply Hne. by_eval.
Defined.

Definition demo_member (p h : string) : PackageMember :=
  {| m_class := SkillScript; m_path := lit p; m_package_path := lit p;
     m_concept_id := lit p; m_file_hash := lit h |}.

Lemma package_hash_faithful_witness :
  package_hash (fun x => x) (lit "s") [demo_member "scripts/b" "2"; demo_member "scripts/a" "1"]
  = package_hash (fun x => x) (lit "s") [demo_member "scripts/a" "1"; demo_member "scripts/b" "2"].
Proof.
  apply (package_hash_faithful (fun x => x) (lit "s") (lit "s")); [by_decide..|]. constructor.
Defined.

(** [references/index.md] of a package is one of its members and part of its
    hash, but its basename is reserved, so the sync never projects it. *)
Definition reserved_reference : FileMetadata (H := Demo.host) :=
  demo_meta "p/references/index.md" "x" SkillReference.

Example reserved_reference_not_projected :
  let cur := [demo_meta "p/SKILL.md" "s" SkillManifest; reserved_reference] in
  let empty := {| hashes := []; ids := []; owners := []; skills := ∅ |} in
  classify_path demo_index (lit "p/references/index.md") = Some SkillReference /\
  (m_package_path <$> package_members (lit "p") demo_index cur) = [lit "references/index.md"] /\
  (path <$> to_parse (classify_changes empty demo_index cur)) = [lit "p/SKILL.md"].
Proof. split; [by_eval|split; by_eval]. Qed.

(** ** Identities *)

(** A package and the concept id of its manifest name each other: the id
    of the manifest at a root is the document id of [root/SKILL.md], and the
    root is recovered from it. *)
Theorem skill_id_roundtrip (r : str) :
  package_root_of (skill_concept_id_of r) = r /\
  class_concept_id SkillManifest ((if decide (r = []) then [] else r ++ [slash]) ++ SKILL_MANIFEST)
  = skill_concept_id_of r.
Proof.
  unfold package_root_of, skill_concept_id_of, class_concept_id. cbn [is_resource].
  change SKILL_MANIFEST with (lit "SKILL" ++ dot_md).
  replace skill_stem with (lit "SKILL") by by_eval. case_decide as Hr.
  - subst. split; [by_eval|]. by rewrite app_nil_l, strip_suffix_app.
  - split.
    + change (r ++ [slash] ++ lit "SKILL") with (r ++ slash :: lit "SKILL").
      rewrite rsplit_once_app; [done|by_decide].
    + rewrite app_assoc, strip_suffix_app. cbn [default from_option id]. by rewrite <- app_assoc.
Qed.
