(* ===== verification/Documents.v ===== *)
(** * Documents of the human workflow ([pgokf-companion/src/documents.rs])

    A document is an ordered frontmatter mapping and a body; the workflow's
    operations write provenance fields into the mapping.  The theorems are
    the rule the module states: a verification is something an approver
    grants, never something a contributor types, and none disappears without
    a trace.

    [serde_yaml::Mapping] and [serde_yaml::Value] are the class [Yaml] with
    its laws [YamlLaws]; [Plain] is a concrete instance. *)
From stdpp Require Import prelude strings list.
From Stdlib Require Import Ascii Lia.
From S2P Require Import Prelude Str ParserError Frontmatter Concept.

(** ** The YAML library *)

(** [serde_yaml::Value], one layer deep. *)
Inductive yval_view (V M : Type) : Type :=
| YvNull
| YvString (s : str)
| YvSequence (l : list V)
| YvMapping (m : M)
| YvTagged
| YvOther.
Arguments YvNull {V M}.
Arguments YvString {V M} s.
Arguments YvSequence {V M} l.
Arguments YvMapping {V M} m.
Arguments YvTagged {V M}.
Arguments YvOther {V M}.

Class Yaml : Type := {
  yval : Type;
  ymap : Type;
  ydoc_error : Type;
  ylook : yval -> yval_view yval ymap;
  (** the value under its tags *)
  yuntag : yval -> yval;
  ystring : str -> yval;
  yseq : list yval -> yval;
  ymapping : ymap -> yval;
  (** replace the elements of a sequence, keeping its tags *)
  yset_seq : yval -> list yval -> yval;
  (** [PartialEq] *)
  yeqb : yval -> yval -> bool;
  ymap_new : ymap;
  ymap_is_empty : ymap -> bool;
  yget : ymap -> str -> option yval;
  yput : str -> yval -> ymap -> ymap;
  (** [shift_remove]: the value, and the mapping without the key *)
  ydel : str -> ymap -> ymap;
  yparse : str -> result yval ydoc_error;
  (** [serde_yaml::to_string] of a mapping *)
  yprint : ymap -> option str
}.

Class YamlLaws (Y : Yaml) : Prop := {
  ylook_string s : ylook (ystring s) = YvString s;
  ylook_seq l : ylook (yseq l) = YvSequence l;
  ylook_mapping m : ylook (ymapping m) = YvMapping m;
  yseq_canonical v l : ylook v = YvSequence l -> v = yseq l;
  yuntag_plain v : ylook v <> YvTagged -> yuntag v = v;
  yuntag_set v l l' : ylook (yuntag v) = YvSequence l -> ylook (yuntag (yset_seq v l')) = YvSequence l';
  yset_seq_plain l l' : yset_seq (yseq l) l' = yseq l';
  yeqb_spec x y : yeqb x y = true <-> x = y;
  ymap_empty m : ymap_is_empty m = true <-> m = ymap_new;
  yget_new k : yget ymap_new k = None;
  yget_put k v m : yget (yput k v m) k = Some v;
  yget_put_ne k k' v m : k <> k' -> yget (yput k v m) k' = yget m k';
  yget_del k m : yget (ydel k m) k = None;
  yget_del_ne k k' m : k <> k' -> yget (ydel k m) k' = yget m k'
}.

Section documents.
Context `{Y : Yaml}.

(** [Value::as_str], [as_sequence], [get], which look under tags. *)
Definition yas_str (v : yval) : option str :=
  match ylook (yuntag v) with YvString s => Some s | _ => None end.
Definition yas_sequence (v : yval) : option (list yval) :=
  match ylook (yuntag v) with YvSequence l => Some l | _ => None end.
Definition yvalue_get (v : yval) (key : str) : option yval :=
  match ylook (yuntag v) with YvMapping m => yget m key | _ => None end.

Record Document : Type := {
  frontmatter : ymap;
  body : str
}.

Definition STATUS_DRAFT : str := lit "draft".
Definition STATUS_ACTIVE : str := lit "active".

(** Why a document is refused; the messages are prose around these. *)
Inductive doc_error : Type :=
| DocSplit (e : Error Empty_set Empty_set)
| DocYaml (e : ydoc_error)
| DocNotMapping.

Definition parse_document (text : str) : result Document doc_error :=
  let? (yaml, b) := rmap_err DocSplit
    (split text (lit "document.md") (max_frontmatter_bytes default_limits)) in
  if decide (trim yaml = []) then Ok {| frontmatter := ymap_new; body := b |}
  else
    let? v := rmap_err DocYaml (yparse yaml) in
    match ylook v with
    | YvMapping m => Ok {| frontmatter := m; body := b |}
    | YvNull => Ok {| frontmatter := ymap_new; body := b |}
    | _ => Err DocNotMapping
    end.

Definition render (d : Document) : str :=
  let yaml := if ymap_is_empty (frontmatter d) then [] else default [] (yprint (frontmatter d)) in
  open_lf ++ yaml
  ++ (if negb (ends_with [nl] yaml) && negb (bool_decide (yaml = [])) then [nl] else [])
  ++ open_lf ++ body d.

Definition text (d : Document) (key : str) : option str := v ← yget (frontmatter d) key; yas_str v.

Definition set (d : Document) (key : str) (v : yval) : Document :=
  {| frontmatter := yput key v (frontmatter d); body := body d |}.

(** [list_mut(key)] followed by an update of the list it returns. *)
Definition list_mut (d : Document) (key : str) (f : list yval -> list yval) : Document :=
  let entry := default (yseq []) (yget (frontmatter d) key) in
  let entry' := match yas_sequence entry with Some _ => entry | None => yseq [] end in
  set d key (yset_seq entry' (f (default [] (yas_sequence entry')))).

Definition mapping (pairs : list (str * str)) : ymap :=
  fold_left (fun m '(k, v) => yput k (ystring v) m) pairs ymap_new.

(** [note.map(str::trim).filter(|n| !n.is_empty())]. *)
Definition trimmed_note (note : option str) : option str :=
  n ← note; if decide (trim n = []) then None else Some (trim n).

Definition event (actor at_ : str) (note : option str) : yval :=
  let m := mapping [(lit "by", actor); (lit "at", at_)] in
  ymapping (match trimmed_note note with
            | Some n => yput (lit "note") (ystring n) m
            | None => m
            end).

Definition contains_key (d : Document) (key : str) : bool :=
  match yget (frontmatter d) key with Some _ => true | None => false end.

(** The document after the call, and the returned flag. *)
Definition stamp_origin (d : Document) (actor at_ : str) : Document * bool :=
  let '(d1, c1) := if contains_key d (lit "generated") then (d, false)
                   else (set d (lit "generated") (event actor at_ None), true) in
  if contains_key d1 (lit "author") then (d1, c1)
  else (set d1 (lit "author") (ystring actor), true).

Definition record_verification (d : Document) (actor at_ : str) (note : option str) : Document :=
  let d1 := list_mut d (lit "verified") (fun l => l ++ [event actor at_ note]) in
  if match text d1 (lit "status") with Some s => bool_decide (s = STATUS_DRAFT) | None => true end
  then set d1 (lit "status") (ystring STATUS_ACTIVE) else d1.

Definition send_back (d : Document) (actor at_ : str) (note : option str) : Document :=
  let d1 := set d (lit "status") (ystring STATUS_DRAFT) in
  let review := mapping [(lit "by", actor); (lit "at", at_); (lit "outcome", lit "sent-back")] in
  let review' := match trimmed_note note with
                 | Some n => yput (lit "note") (ystring n) review
                 | None => review
                 end in
  list_mut d1 (lit "reviews") (fun l => l ++ [ymapping review']).

(** One event as it is set aside. *)
Definition set_aside (actor at_ reason : str) (item : yval) : yval :=
  let entry := match ylook item with
               | YvMapping m => m
               | _ => mapping [(lit "event", default [] (yas_str item))]
               end in
  ymapping (fold_left (fun m '(k, v) => yput k (ystring v) m)
              [(lit "superseded_by", actor); (lit "superseded_at", at_); (lit "reason", reason)]
              entry).

Definition quarantine_verifications (d : Document) (actor at_ reason : str) : Document * nat :=
  let previous := yget (frontmatter d) (lit "verified") in
  let d1 := {| frontmatter := ydel (lit "verified") (frontmatter d); body := body d |} in
  let nothing := (list_mut d1 (lit "superseded_verifications") id, 0) in
  match previous with
  | None => nothing
  | Some v =>
      match ylook v with
      | YvNull => nothing
      | look =>
          let events := match look with YvSequence l => l | _ => [v] end in
          (list_mut d1 (lit "superseded_verifications")
             (fun l => l ++ map (set_aside actor at_ reason) events), length events)
      end
  end.

(** Append the events of [previous] that [mine] does not hold yet. *)
Definition merge_events (previous mine : list yval) : list yval :=
  fold_left (fun acc e => if existsb (fun x => yeqb x e) acc then acc else acc ++ [e]) previous mine.

Definition inherit_key (stored : Document) (d : Document) (key : str) : Document :=
  match ylook <$> yget (frontmatter stored) key with
  | Some (YvSequence previous) => list_mut d key (merge_events previous)
  | _ => d
  end.

Definition inherit_verifications (d stored : Document) : Document :=
  fold_left (inherit_key stored) [lit "verified"; lit "superseded_verifications"] d.

Definition actor_of (d : Document) (key : str) : option str :=
  v ← yget (frontmatter d) key;
  actor ← match ylook v with
          | YvString actor => Some actor
          | _ => w ← yvalue_get v (lit "by"); yas_str w
          end;
  Some (trim actor).

Definition is_person (actor : str) : bool := starts_with (lit "human:") actor.

(** The claim under [key] that a contribution by [actor] may not make. *)
Definition impersonates (d : Document) (actor key : str) : bool :=
  match actor_of d key with
  | Some claimed => is_person claimed && negb (bool_decide (claimed = actor)) && negb (is_person actor)
  | None => false
  end.

(** A refusal names the field; the document is then left as it is. *)
Definition contribute_new (d : Document) (actor at_ : str) : result (Document * nat) str :=
  if impersonates d actor (lit "generated") then Err (lit "generated")
  else if impersonates d actor (lit "author") then Err (lit "author")
  else Ok (quarantine_verifications (stamp_origin d actor at_).1 actor at_ (lit "uploaded")).

Definition contribute_edit (d : Document) (actor at_ : str) (stored : option Document)
  : Document * nat :=
  let d1 := match stored with Some s => inherit_verifications d s | None => d end in
  let '(d2, n) := quarantine_verifications d1 actor at_ (lit "edited") in
  (set d2 (lit "generated") (event actor at_ None), n).

Definition has_human_verification (d : Document) : bool :=
  match v ← yget (frontmatter d) (lit "verified"); yas_sequence v with
  | Some events =>
      existsb (fun e => match w ← yvalue_get e (lit "by"); yas_str w with
                        | Some by_ => starts_with (lit "human:") by_
                        | None => false
                        end) events
  | None => false
  end.

End documents.

(** * Properties *)

Section properties.
Context `{Y : Yaml} `{L : !YamlLaws Y}.

(** The list a key holds; empty when the key is absent or holds no list. *)
Definition list_at (d : Document) (key : str) : list yval :=
  default [] (v ← yget (frontmatter d) key; yas_sequence v).

(** The verification events a document claims, in any shape of the field. *)
Definition claimed_events (d : Document) : list yval :=
  match yget (frontmatter d) (lit "verified") with
  | None => []
  | Some v => match ylook v with
              | YvNull => []
              | YvSequence l => l
              | _ => [v]
              end
  end.

Definition tagged_at (d : Document) (key : str) : Prop :=
  exists v, yget (frontmatter d) key = Some v /\ ylook v = YvTagged.

Lemma yas_sequence_seq l : yas_sequence (yseq l) = Some l.
Proof. unfold yas_sequence. rewrite yuntag_plain, ylook_seq; [done|by rewrite ylook_seq]. Qed.

Lemma yas_str_string s : yas_str (ystring s) = Some s.
Proof. unfold yas_str. rewrite yuntag_plain, ylook_string; [done|by rewrite ylook_string]. Qed.

Lemma yas_sequence_set v l l' : yas_sequence v = Some l -> yas_sequence (yset_seq v l') = Some l'.
Proof.
  unfold yas_sequence. intros Hv. destruct (ylook (yuntag v)) eqn:E; simplify_eq.
  by rewrite (yuntag_set _ _ _ E).
Qed.

(** [list_mut] updates exactly its key. *)
Lemma list_mut_at d key f : list_at (list_mut d key f) key = f (list_at d key).
Proof.
  unfold list_at, list_mut, set. cbn [frontmatter]. rewrite yget_put. cbn [mbind option_bind].
  destruct (yget (frontmatter d) key) as [v|]; cbn [default from_option mbind option_bind id].
  - destruct (yas_sequence v) as [l|] eqn:E.
    + rewrite E. cbn. by rewrite (yas_sequence_set _ _ _ E).
    + rewrite yas_sequence_seq. cbn. by rewrite yset_seq_plain, yas_sequence_seq.
  - rewrite yas_sequence_seq. cbn. by rewrite yas_sequence_seq; cbn; rewrite yset_seq_plain, yas_sequence_seq.
Qed.

Lemma list_mut_ne d key key' f :
  key <> key' -> yget (frontmatter (list_mut d key f)) key' = yget (frontmatter d) key'.
Proof. intros. unfold list_mut, set. cbn [frontmatter]. by rewrite yget_put_ne. Qed.

Lemma list_at_ne d key key' f : key <> key' -> list_at (list_mut d key f) key' = list_at d key'.
Proof. intros. unfold list_at. by rewrite list_mut_ne. Qed.

Lemma verified_ne_superseded : lit "verified" <> lit "superseded_verifications".
Proof. done. Qed.
Lemma superseded_ne_verified : lit "superseded_verifications" <> lit "verified".
Proof. done. Qed.

(** What [quarantine_verifications] does, in one statement. *)
Lemma quarantine_spec d actor at_ reason :
  let '(d', n) := quarantine_verifications d actor at_ reason in
  yget (frontmatter d') (lit "verified") = None /\
  list_at d' (lit "superseded_verifications")
  = list_at d (lit "superseded_verifications") ++ map (set_aside actor at_ reason) (claimed_events d) /\
  n = length (claimed_events d) /\ body d' = body d /\
  (forall k, k <> lit "verified" -> k <> lit "superseded_verifications" ->
     yget (frontmatter d') k = yget (frontmatter d) k).
Proof.
  set (d1 := {| frontmatter := ydel (lit "verified") (frontmatter d); body := body d |}).
  assert (forall f, yget (frontmatter (list_mut d1 (lit "superseded_verifications") f)) (lit "verified") = None) as Hv.
  { intros f. rewrite list_mut_ne by apply superseded_ne_verified. unfold d1. cbn. apply yget_del. }
  assert (forall f, list_at (list_mut d1 (lit "superseded_verifications") f) (lit "superseded_verifications")
            = f (list_at d (lit "superseded_verifications"))) as Hl.
  { intros f. rewrite list_mut_at. f_equal. unfold list_at, d1. cbn [frontmatter].
    by rewrite yget_del_ne by apply verified_ne_superseded. }
  assert (forall f k, k <> lit "verified" -> k <> lit "superseded_verifications" ->
            yget (frontmatter (list_mut d1 (lit "superseded_verifications") f)) k = yget (frontmatter d) k) as Hk.
  { intros f k H1 H2. rewrite list_mut_ne by congruence. unfold d1. cbn [frontmatter].
    by rewrite yget_del_ne by congruence. }
  unfold quarantine_verifications, claimed_events. fold d1.
  destruct (yget (frontmatter d) (lit "verified")) as [v|]; [destruct (ylook v)|];
    (split; [apply Hv|]); (split; [rewrite Hl; cbn [map id]; by rewrite ?app_nil_r|]);
    (split; [done|]); (split; [done|]); by apply Hk.
Qed.

Lemma no_claim_no_human d :
  yget (frontmatter d) (lit "verified") = None -> has_human_verification d = false.
Proof. unfold has_human_verification. by intros ->. Qed.

(** A set-aside event says who set it aside, when and why, and a mapping
    keeps its other fields. *)
Definition marked (actor at_ reason : str) (item e : yval) : Prop :=
  exists m, ylook e = YvMapping m /\
    yget m (lit "superseded_by") = Some (ystring actor) /\
    yget m (lit "superseded_at") = Some (ystring at_) /\
    yget m (lit "reason") = Some (ystring reason) /\
    forall m0 k, ylook item = YvMapping m0 ->
      k <> lit "superseded_by" -> k <> lit "superseded_at" -> k <> lit "reason" ->
      yget m k = yget m0 k.

Lemma set_aside_marked actor at_ reason item : marked actor at_ reason item (set_aside actor at_ reason item).
Proof.
  unfold marked, set_aside. eexists. split; [apply ylook_mapping|]. cbn [fold_left].
  split; [by rewrite !yget_put_ne, yget_put by done|].
  split; [by rewrite yget_put_ne, yget_put by done|]. split; [by rewrite yget_put|].
  intros m0 k Hm H1 H2 H3. rewrite Hm, !yget_put_ne by congruence. done.
Qed.

(** Quarantining empties the verification field in every shape it may
    take, counts what it took, and loses nothing else: each claimed event is
    appended, in order and marked with who, when and why, to the trail that
    was there; every other field and the body stay as they were; and no human
    verification remains. *)
Theorem quarantine_sets_aside (d : Document) (actor at_ reason : str) :
  let '(d', n) := quarantine_verifications d actor at_ reason in
  yget (frontmatter d') (lit "verified") = None /\ has_human_verification d' = false /\
  n = length (claimed_events d) /\
  (exists added, list_at d' (lit "superseded_verifications")
      = list_at d (lit "superseded_verifications") ++ added /\
    Forall2 (marked actor at_ reason) (claimed_events d) added) /\
  body d' = body d /\
  (forall k, k <> lit "verified" -> k <> lit "superseded_verifications" ->
     yget (frontmatter d') k = yget (frontmatter d) k).
Proof.
  pose proof (quarantine_spec d actor at_ reason) as HQ.
  destruct (quarantine_verifications d actor at_ reason) as [d' n].
  destruct HQ as (Hv & Hl & Hn & Hb & Hk). split; [done|].
  split; [by apply no_claim_no_human|]. split; [done|]. split; [|done].
  eexists. split; [exact Hl|]. apply Forall2_fmap_r, Forall_Forall2_diag, Forall_forall.
  intros e _. apply set_aside_marked.
Qed.

(** ** Contributions *)

Lemma stamp_origin_get d actor at_ k :
  k <> lit "generated" -> k <> lit "author" ->
  yget (frontmatter (stamp_origin d actor at_).1) k = yget (frontmatter d) k.
Proof.
  intros H1 H2. unfold stamp_origin.
  destruct (contains_key d (lit "generated")); case_match; unfold set; cbn [fst frontmatter];
    by rewrite ?yget_put_ne by congruence.
Qed.

(** A new contribution is accepted exactly when it does not file itself
    as the work of a person by something that is not one; what is accepted
    carries no verification, keeps every claimed event in the trail, and
    names a producer and an author. *)
Theorem contribute_new_unverified (d : Document) (actor at_ : str) :
  (is_ok (contribute_new d actor at_) = true <->
   impersonates d actor (lit "generated") = false /\ impersonates d actor (lit "author") = false) /\
  (forall d' n, contribute_new d actor at_ = Ok (d', n) ->
     has_human_verification d' = false /\ yget (frontmatter d') (lit "verified") = None /\
     n = length (claimed_events d) /\
     list_at d' (lit "superseded_verifications")
     = list_at d (lit "superseded_verifications")
       ++ map (set_aside actor at_ (lit "uploaded")) (claimed_events d) /\
     contains_key d' (lit "generated") = true /\ contains_key d' (lit "author") = true).
Proof.
  unfold contribute_new. split.
  { destruct (impersonates d actor (lit "generated")), (impersonates d actor (lit "author")); naive_solver. }
  intros d' n. destruct (impersonates d actor (lit "generated")); [done|].
  destruct (impersonates d actor (lit "author")); [done|]. intros Hq.
  assert (quarantine_verifications (stamp_origin d actor at_).1 actor at_ (lit "uploaded") = (d', n))
    as Hq' by congruence. clear Hq. rename Hq' into Hq.
  pose proof (quarantine_spec (stamp_origin d actor at_).1 actor at_ (lit "uploaded")) as HQ.
  rewrite Hq in HQ. destruct HQ as (Hv & Hl & Hn & _ & Hk).
  assert (claimed_events (stamp_origin d actor at_).1 = claimed_events d) as Hc.
  { unfold claimed_events. by rewrite stamp_origin_get. }
  assert (list_at (stamp_origin d actor at_).1 (lit "superseded_verifications")
          = list_at d (lit "superseded_verifications")) as Hs.
  { unfold list_at. by rewrite stamp_origin_get. }
  rewrite Hc in Hl, Hn. rewrite Hs in Hl.
  split; [by apply no_claim_no_human|]. split; [done|]. split; [done|]. split; [done|].
  unfold contains_key. rewrite !Hk by done. unfold stamp_origin, contains_key.
  destruct (yget (frontmatter d) (lit "generated")) eqn:E1; unfold set; cbn [fst frontmatter].
  - destruct (yget (frontmatter d) (lit "author")) eqn:E2; cbn [fst frontmatter].
    + by rewrite E1, E2.
    + rewrite yget_put, yget_put_ne by done. by rewrite E1.
  - rewrite yget_put_ne by done.
    destruct (yget (frontmatter d) (lit "author")) eqn:E2; cbn [fst frontmatter].
    + rewrite yget_put, yget_put_ne by done. by rewrite E2.
    + rewrite yget_put, yget_put_ne, yget_put by done. done.
Qed.

(** ** Edits *)

Lemma merge_events_mine previous mine e : e ∈ mine -> e ∈ merge_events previous mine.
Proof.
  unfold merge_events. revert mine. induction previous as [|p previous IH]; intros mine He; [done|].
  simpl. case_match; apply IH; set_solver.
Qed.

Lemma merge_events_previous previous mine e : e ∈ previous -> e ∈ merge_events previous mine.
Proof.
  unfold merge_events. revert mine. induction previous as [|p previous IH]; intros mine He.
  { by apply not_elem_of_nil in He. }
  simpl. apply elem_of_cons in He as [->|He]; [|by apply IH].
  fold (merge_events previous (if existsb (fun x => yeqb x p) mine then mine else mine ++ [p])).
  apply merge_events_mine. destruct (existsb _ mine) eqn:E; [|set_solver].
  apply existsb_exists in E as (x & Hx & Heq). apply yeqb_spec in Heq as ->. by apply list_elem_of_In.
Qed.

(** The events a stored version holds as a list. *)
Definition stored_events (s : Document) (key : str) : list yval :=
  match ylook <$> yget (frontmatter s) key with Some (YvSequence l) => l | _ => [] end.

Lemma inherit_key_at s d key e :
  (e ∈ stored_events s key \/ e ∈ list_at d key) -> e ∈ list_at (inherit_key s d key) key.
Proof.
  unfold inherit_key, stored_events.
  destruct (yget (frontmatter s) key) as [v|]; cbn; [|intros [?%not_elem_of_nil|]; done].
  destruct (ylook v); try (intros [?%not_elem_of_nil|]; done).
  intros He. rewrite list_mut_at. destruct He; [by apply merge_events_previous|by apply merge_events_mine].
Qed.

Lemma inherit_key_ne s d key key' :
  key <> key' -> yget (frontmatter (inherit_key s d key)) key' = yget (frontmatter d) key'.
Proof.
  intros. unfold inherit_key. destruct (yget (frontmatter s) key) as [v|]; cbn; [|done].
  destruct (ylook v); try done. by apply list_mut_ne.
Qed.

(** An untagged list field is claimed event by event. *)
Lemma claimed_list_at d e :
  ~ tagged_at d (lit "verified") -> e ∈ list_at d (lit "verified") -> e ∈ claimed_events d.
Proof.
  unfold tagged_at, list_at, claimed_events, yas_sequence. intros Ht.
  destruct (yget (frontmatter d) (lit "verified")) as [v|]; cbn; [|done].
  rewrite yuntag_plain by (intros Hv; apply Ht; eauto).
  destruct (ylook v); cbn; try done; intros He%not_elem_of_nil; done.
Qed.

Lemma list_mut_untagged d key f : ~ tagged_at d key -> ~ tagged_at (list_mut d key f) key.
Proof.
  unfold tagged_at, list_mut, set. intros Ht (v & Hv & Hl). cbn [frontmatter] in Hv.
  rewrite yget_put in Hv. injection Hv as <-.
  destruct (yget (frontmatter d) key) as [w|]; cbn in Hl.
  - destruct (yas_sequence w) as [l|] eqn:E; [|by rewrite yset_seq_plain, ylook_seq in Hl].
    assert (yuntag w = w) as Hw by (apply yuntag_plain; intros ?; apply Ht; eauto).
    unfold yas_sequence in E. rewrite Hw in E. destruct (ylook w) eqn:Ew; simplify_eq.
    assert (w = yseq l) as -> by (by apply yseq_canonical).
    by rewrite yset_seq_plain, ylook_seq in Hl.
  - rewrite yas_sequence_seq, yset_seq_plain, ylook_seq in Hl. done.
Qed.

(** The events of both lists are claimed after the inheritance, unless the
    field is tagged. *)
Lemma inherit_claims d s e :
  ~ tagged_at d (lit "verified") -> (e ∈ stored_events s (lit "verified") \/ e ∈ list_at d (lit "verified")) ->
  e ∈ claimed_events (inherit_verifications d s).
Proof.
  intros Ht He. unfold inherit_verifications. cbn [fold_left]. set (d1 := inherit_key s d (lit "verified")).
  assert (claimed_events (inherit_key s d1 (lit "superseded_verifications")) = claimed_events d1) as ->.
  { unfold claimed_events. by rewrite inherit_key_ne by apply superseded_ne_verified. }
  apply claimed_list_at.
  - unfold d1, inherit_key. destruct (ylook <$> _) as [[]|]; try done. by apply list_mut_untagged.
  - by apply inherit_key_at.
Qed.

(** The stored trail stays in the trail. *)
Lemma inherit_trail d s e :
  e ∈ stored_events s (lit "superseded_verifications") ->
  e ∈ list_at (inherit_verifications d s) (lit "superseded_verifications").
Proof. intros He. unfold inherit_verifications. cbn [fold_left]. apply inherit_key_at. by left. Qed.

(** C39: An edit cannot carry a verification, nor erase one that is stored as a
    list.  Whatever the editor writes, the result holds no verification and
    [generated] names the editor; the events of the stored trail, when it is a
    list, survive; and unless the field [verified] of the edit is a tagged YAML
    value, every event of the edit's list and every event of the stored list,
    when it is one, is in the trail marked as set aside by the editor.  (A
    stored [verified] that is a single event is not inherited, and a tagged
    list in the edit swallows the stored events: [single_event_vanishes] and
    [tagged_field_swallows_events].) *)
Theorem contribute_edit_keeps_trail (d s : Document) (actor at_ : str) :
  let '(d', n) := contribute_edit d actor at_ (Some s) in
  has_human_verification d' = false /\ yget (frontmatter d') (lit "verified") = None /\
  yget (frontmatter d') (lit "generated") = Some (event actor at_ None) /\
  (forall e, e ∈ stored_events s (lit "superseded_verifications") ->
     e ∈ list_at d' (lit "superseded_verifications")) /\
  (~ tagged_at d (lit "verified") ->
   forall e, e ∈ stored_events s (lit "verified") \/ e ∈ list_at d (lit "verified") ->
     exists e', e' ∈ list_at d' (lit "superseded_verifications") /\ marked actor at_ (lit "edited") e e').
Proof.
  unfold contribute_edit. set (d1 := inherit_verifications d s).
  pose proof (quarantine_spec d1 actor at_ (lit "edited")) as HQ.
  destruct (quarantine_verifications d1 actor at_ (lit "edited")) as [d2 n].
  destruct HQ as (Hv & Hl & _ & _ & _).
  assert (yget (frontmatter (set d2 (lit "generated") (event actor at_ None))) (lit "verified") = None) as Hv'.
  { unfold set. cbn [frontmatter]. by rewrite yget_put_ne. }
  assert (list_at (set d2 (lit "generated") (event actor at_ None)) (lit "superseded_verifications")
          = list_at d2 (lit "superseded_verifications")) as Hl'.
  { unfold list_at, set. cbn [frontmatter]. by rewrite yget_put_ne. }
  split; [by apply no_claim_no_human|]. split; [done|]. split; [unfold set; cbn [frontmatter]; by rewrite yget_put|].
  rewrite Hl', Hl. split.
  - intros e He. apply elem_of_app. left. by apply inherit_trail.
  - intros Ht e He. exists (set_aside actor at_ (lit "edited") e). split; [|apply set_aside_marked].
    apply elem_of_app. right. apply list_elem_of_fmap. exists e. split; [done|]. by apply inherit_claims.
Qed.

(** An approval grants the tier: after a person's verification the
    document is human-verified, a draft or a document without a status is
    active, and every other status is kept. *)
Theorem record_verification_grants (d : Document) (actor at_ : str) (note : option str) :
  is_person actor = true ->
  let d' := record_verification d actor at_ note in
  has_human_verification d' = true /\
  list_at d' (lit "verified") = list_at d (lit "verified") ++ [event actor at_ note] /\
  text d' (lit "status") = match text d (lit "status") with
                           | Some s => if decide (s = STATUS_DRAFT) then Some STATUS_ACTIVE else Some s
                           | None => Some STATUS_ACTIVE
                           end.
Proof.
  intros Hp. cbn zeta. unfold record_verification.
  set (d1 := list_mut d (lit "verified") (fun l => l ++ [event actor at_ note])).
  assert (text d1 (lit "status") = text d (lit "status")) as Ht.
  { unfold text, d1. by rewrite list_mut_ne. }
  assert (list_at d1 (lit "verified") = list_at d (lit "verified") ++ [event actor at_ note]) as Hl
    by apply list_mut_at.
  assert (forall d2, list_at d2 (lit "verified") = list_at d (lit "verified") ++ [event actor at_ note] ->
            has_human_verification d2 = true) as Hh.
  { intros d2 H2. unfold has_human_verification. unfold list_at in H2 at 1.
    destruct (v ← yget (frontmatter d2) (lit "verified"); yas_sequence v) as [l|].
    2:{ by destruct (list_at d (lit "verified")). }
    cbn in H2. subst l. rewrite existsb_app. apply orb_true_iff. right. cbn [existsb]. rewrite orb_false_r.
    unfold yvalue_get, event. rewrite yuntag_plain by (by rewrite ylook_mapping). rewrite ylook_mapping.
    unfold mapping. cbn [fold_left].
    destruct (trimmed_note note); rewrite !yget_put_ne, yget_put by done; cbn [mbind option_bind];
      rewrite yas_str_string; exact Hp. }
  rewrite Ht. destruct (text d (lit "status")) as [st|] eqn:Es; [case_bool_decide as Hd|].
  - rewrite decide_True by done. split; [|split].
    + apply Hh. unfold list_at, set. cbn [frontmatter]. rewrite yget_put_ne by done. exact Hl.
    + unfold list_at, set. cbn [frontmatter]. rewrite yget_put_ne by done. exact Hl.
    + unfold text, set. cbn [frontmatter]. rewrite yget_put. cbn. apply yas_str_string.
  - rewrite decide_False by done. split; [by apply Hh|]. split; [done|]. by rewrite Ht.
  - split; [|split].
    + apply Hh. unfold list_at, set. cbn [frontmatter]. rewrite yget_put_ne by done. exact Hl.
    + unfold list_at, set. cbn [frontmatter]. rewrite yget_put_ne by done. exact Hl.
    + unfold text, set. cbn [frontmatter]. rewrite yget_put. cbn. apply yas_str_string.
Qed.

(** ** Rendering *)

(** The printed frontmatter fits a block: it is not blank, holds no delimiter
    line, stays below the parser's ceiling, and parses back. *)
Definition printable (m : ymap) : Prop :=
  exists t, yprint m = Some t /\ trim t <> [] /\ whole_lines t /\ no_delimiter t /\
    length t <= max_frontmatter_bytes default_limits /\ yparse t = Ok (ymapping m).

Lemma delimiter_line_ok (b : str) : one_line open_lf (b = []) /\ is_delimiter open_lf = true.
Proof.
  split; [|by_eval]. exists fence. split; [by_decide|]. left. by_eval.
Qed.

(** C40: A document survives the trip through its text: what [render] writes,
    [parse_document] reads back, body byte for byte, when the document has no
    frontmatter, or its frontmatter is [printable]: the YAML it is printed as
    is not blank, has no line that is a delimiter, has at most
    [max_frontmatter_bytes] bytes (a longer one is rendered and then refused by
    the parser), and the YAML library reads it back as the same mapping. *)
Theorem render_parse_roundtrip (d : Document) :
  (frontmatter d = ymap_new \/ printable (frontmatter d)) ->
  parse_document (render d) = Ok d.
Proof.
  intros Hd. assert (exists t, render d = open_lf ++ t ++ open_lf ++ body d /\ whole_lines t /\
    no_delimiter t /\ length t <= max_frontmatter_bytes default_limits /\
    ((t = [] /\ frontmatter d = ymap_new) \/ (trim t <> [] /\ yparse t = Ok (ymapping (frontmatter d)))))
    as (t & Hr & Hw & Hn & Hlen & Ht).
  { unfold render. destruct (ymap_is_empty (frontmatter d)) eqn:E.
    - apply ymap_empty in E. exists []. split; [done|]. split; [by left|]. split; [constructor|].
      split; [apply Nat.le_0_l|by left].
    - destruct Hd as [Hd|(t & Hp & Htr & Hw & Hn & Hl & Hy)].
      { by rewrite (proj2 (ymap_empty _) Hd) in E. }
      exists t. rewrite Hp. cbn [default from_option id].
      assert (ends_with [nl] t = true) as ->.
      { apply ends_with_last. destruct Hw as [->|]; [by destruct Htr|done]. }
      split; [done|]. split; [done|]. split; [done|]. split; [done|]. by right. }
  unfold parse_document. rewrite Hr.
  assert (split (Y:=Empty_set) (J:=Empty_set) (open_lf ++ t ++ open_lf ++ body d) (lit "document.md")
            (max_frontmatter_bytes default_limits) = Ok (t, body d)) as ->.
  { apply split_exact_helper. split; [done|]. exists open_lf. split; [by left|].
    split; [done|]. split; [done|]. apply delimiter_line_ok. }
  clear Hlen. cbn [rmap_err rbind]. destruct Ht as [[-> Hf]|[Htr Hy]].
  - rewrite decide_True by done. destruct d; cbn in *; by subst.
  - rewrite decide_False by done. rewrite Hy. cbn [rmap_err rbind]. rewrite ylook_mapping. by destruct d.
Qed.

End properties.

(** ** A concrete YAML value type *)

Module Plain.

Inductive value : Type :=
| Null
| Str (s : str)
| Seq (l : list value)
| Map (m : list (str * value))
| Tagged (v : value).

Fixpoint get (m : list (str * value)) (k : str) : option value :=
  match m with
  | [] => None
  | (k', v) :: m' => if decide (k = k') then Some v else get m' k
  end.

Fixpoint put (k : str) (v : value) (m : list (str * value)) : list (str * value) :=
  match m with
  | [] => [(k, v)]
  | (k', v') :: m' => if decide (k = k') then (k', v) :: m' else (k', v') :: put k v m'
  end.

Fixpoint del (k : str) (m : list (str * value)) : list (str * value) :=
  match m with
  | [] => []
  | (k', v') :: m' => if decide (k = k') then del k m' else (k', v') :: del k m'
  end.

Fixpoint untag (v : value) : value := match v with Tagged w => untag w | _ => v end.

Fixpoint set_seq (v : value) (l : list value) : value :=
  match v with Tagged w => Tagged (set_seq w l) | _ => Seq l end.

Fixpoint eqb (x y : value) : bool :=
  match x, y with
  | Null, Null => true
  | Str s, Str t => bool_decide (s = t)
  | Seq l, Seq k =>
      (fix go l k := match l, k with
                     | [], [] => true
                     | a :: l', b :: k' => eqb a b && go l' k'
                     | _, _ => false
                     end) l k
  | Map l, Map k =>
      (fix go l k := match l, k with
                     | [], [] => true
                     | (a, v) :: l', (b, w) :: k' => bool_decide (a = b) && eqb v w && go l' k'
                     | _, _ => false
                     end) l k
  | Tagged v, Tagged w => eqb v w
  | _, _ => false
  end.

(** Structural induction through lists and mappings. *)
Fixpoint size (v : value) : nat :=
  match v with
  | Null | Str _ => 1
  | Seq l => S ((fix go l := match l with [] => 0 | a :: l' => size a + go l' end) l)
  | Map l => S ((fix go (l : list (str * value)) := match l with [] => 0 | (_, a) :: l' => size a + go l' end) l)
  | Tagged w => S (size w)
  end.

Lemma eqb_size n : forall x y, size x < n -> eqb x y = true <-> x = y.
Proof.
  induction n as [|n IH]; intros x y Hn; [lia|].
  destruct x as [|s|l|l|v], y as [|t|k|k|w]; cbn in *; try (split; congruence).
  - rewrite bool_decide_eq_true. split; congruence.
  - assert (forall k, (fix go l k := match l, k with
                     | [], [] => true
                     | a :: l', b :: k' => eqb a b && go l' k'
                     | _, _ => false end) l k = true <-> l = k) as Hl.
    { clear k. induction l as [|a l IHl]; intros [|b k]; try (split; congruence).
      rewrite andb_true_iff, IH, IHl by lia. split; [by intros [-> ->]|by intros [= -> ->]]. }
    rewrite Hl. split; congruence.
  - assert (forall k, (fix go l k := match l, k with
                     | [], [] => true
                     | (a, v) :: l', (b, w) :: k' => bool_decide (a = b) && eqb v w && go l' k'
                     | _, _ => false end) l k = true <-> l = k) as Hl.
    { clear k. induction l as [|[a v] l IHl]; intros [|[b w] k]; try (split; congruence).
      rewrite !andb_true_iff, bool_decide_eq_true, IH, IHl by lia.
      split; [by intros [[-> ->] ->]|by intros [= -> -> ->]]. }
    rewrite Hl. split; congruence.
  - rewrite IH by lia. split; congruence.
Qed.

Definition look (v : value) : yval_view value (list (str * value)) :=
  match v with
  | Null => YvNull
  | Str s => YvString s
  | Seq l => YvSequence l
  | Map m => YvMapping m
  | Tagged _ => YvTagged
  end.

(** One scalar field is printed as [key: value]. *)
#[export] Instance yaml : Yaml := {
  yval := value; ymap := list (str * value); ydoc_error := unit;
  ylook := look; yuntag := untag; ystring := Str; yseq := Seq; ymapping := Map;
  yset_seq := set_seq; yeqb := eqb; ymap_new := [];
  ymap_is_empty m := match m with [] => true | _ => false end;
  yget := get; yput := put; ydel := del;
  yparse s := match strip_suffix [nl] s with
              | Some l => match split_once ":"%char l with
                          | Some (k, _ :: v) => Ok (Map [(k, Str v)])
                          | _ => Err tt
                          end
              | None => Err tt
              end;
  yprint m := match m with
              | [(k, Str v)] => Some (k ++ lit ": " ++ v ++ [nl])
              | _ => None
              end
}.

Lemma get_put k v m : get (put k v m) k = Some v.
Proof. induction m as [|[k' v'] m IH]; simpl; [by rewrite decide_True|]. case_decide; simpl; by case_decide. Qed.
Lemma get_put_ne k k' v m : k <> k' -> get (put k v m) k' = get m k'.
Proof.
  intros Hk. induction m as [|[k1 v1] m IH]; simpl; [by rewrite decide_False by congruence|].
  case_decide; simpl; repeat case_decide; congruence.
Qed.
Lemma get_del k m : get (del k m) k = None.
Proof. induction m as [|[k' v'] m IH]; simpl; [done|]. case_decide; simpl; [done|]. by rewrite decide_False. Qed.
Lemma get_del_ne k k' m : k <> k' -> get (del k m) k' = get m k'.
Proof.
  intros Hk. induction m as [|[k1 v1] m IH]; simpl; [done|].
  case_decide; simpl; repeat case_decide; congruence.
Qed.

#[export] Instance yaml_laws : YamlLaws yaml.
Proof.
  split; cbn; try done.
  - intros [] ? ?; by simplify_eq/=.
  - by intros [].
  - intros v l l'. induction v; simpl; done || auto.
  - intros x y. apply (eqb_size (S (size x))). lia.
  - by intros [].
  - intros k. apply get_put.
  - intros k k' v m. apply get_put_ne.
  - intros k. apply get_del.
  - intros k k' m. apply get_del_ne.
Qed.

End Plain.

Definition demo_event : Plain.value := Plain.Map [(lit "by", Plain.Str (lit "human:ana"))].
Definition demo_stored : Document (Y := Plain.yaml) :=
  Build_Document (Y := Plain.yaml) [(lit "verified", Plain.Seq [demo_event])] [].
Definition demo_edit : Document (Y := Plain.yaml) :=
  Build_Document (Y := Plain.yaml) [(lit "title", Plain.Str (lit "T"))] (lit "new body").

(** A document that arrives with a verification it claims for itself. *)
Lemma quarantine_sets_aside_witness :
  has_human_verification (quarantine_verifications demo_stored (lit "human:bo") (lit "now")
    (lit "uploaded")).1 = false /\
  (quarantine_verifications demo_stored (lit "human:bo") (lit "now") (lit "uploaded")).2 = 1.
Proof.
  pose proof (quarantine_sets_aside (L := Plain.yaml_laws) demo_stored (lit "human:bo") (lit "now")
                (lit "uploaded")) as H.
  destruct (quarantine_verifications demo_stored _ _ _) as [d' n] eqn:E.
  destruct H as (_ & Hh & Hn & _). split; [exact Hh|]. rewrite Hn. reflexivity.
Defined.

Lemma contribute_new_unverified_witness :
  is_ok (contribute_new demo_stored (lit "human:bo") (lit "now")) = true.
Proof.
  apply (proj1 (contribute_new_unverified (L := Plain.yaml_laws) demo_stored (lit "human:bo")
           (lit "now"))).
  split; by_eval.
Defined.

Lemma contribute_edit_keeps_trail_witness :
  exists e', e' ∈ list_at (contribute_edit demo_edit (lit "human:bo") (lit "now") (Some demo_stored)).1
                    (lit "superseded_verifications") /\
    marked (Y := Plain.yaml) (lit "human:bo") (lit "now") (lit "edited") demo_event e'.
Proof.
  pose proof (contribute_edit_keeps_trail (L := Plain.yaml_laws) demo_edit demo_stored
                (lit "human:bo") (lit "now")) as H.
  destruct (contribute_edit demo_edit _ _ _) as [d' n]. destruct H as (_ & _ & _ & _ & H). apply H.
  - intros (v & Hv & _). discriminate Hv.
  - left. vm_compute. left.
Defined.

Lemma record_verification_grants_witness :
  has_human_verification (record_verification demo_edit (lit "human:bo") (lit "now") None) = true.
Proof. apply (record_verification_grants (L := Plain.yaml_laws)). by_eval. Defined.

Lemma render_parse_roundtrip_witness : parse_document (render demo_edit) = Ok demo_edit.
Proof.
  apply (render_parse_roundtrip (L := Plain.yaml_laws)). right. exists (lit "title: T" ++ [nl]).
  split; [by_eval|]. split; [by_decide|]. split; [right; by_eval|]. split; [by_decide|].
  split; [|by_eval]. unfold default_limits. cbn [max_frontmatter_bytes].
  change (length (lit "title: T" ++ [nl])) with 9. lia.
Defined.

(** A stored single event (not a list) is not inherited: an edit that drops
    the field leaves no trace of it. *)
Example single_event_vanishes :
  let stored := Build_Document (Y := Plain.yaml) [(lit "verified", demo_event)] [] in
  (contribute_edit demo_edit (lit "human:bo") (lit "now") (Some stored)).2 = 0 /\
  list_at (contribute_edit demo_edit (lit "human:bo") (lit "now") (Some stored)).1
    (lit "superseded_verifications") = [].
Proof. split; by_eval. Qed.

(** A tagged list in the edit swallows the stored events: they are appended
    inside the tag and set aside as one event without text. *)
Example tagged_field_swallows_events :
  let edit := Build_Document (Y := Plain.yaml) [(lit "verified", Plain.Tagged (Plain.Seq []))] [] in
  (length (stored_events demo_stored (lit "verified")) = 1) /\
  (fun e => yvalue_get e (lit "by")) <$>
    list_at (contribute_edit edit (lit "human:bo") (lit "now") (Some demo_stored)).1
      (lit "superseded_verifications") = [None].
Proof. split; by_eval. Qed.
