(* ===== verification/Civil.v ===== *)
(** * Timestamps ([extension/src/catalog/iso8601.rs],
      [pgokf-companion/src/documents.rs]: [iso_from_unix])

    The companion writes RFC 3339 instants, the extension reads them back.
    [i64] values are integers (the fields are range-checked before any
    product is formed, so no operation overflows); [/] and [%] truncate.
    [f64] is a section parameter: the result is a whole number of seconds
    converted to [f64] plus a parsed fraction.  A slice off a character
    boundary is a [Panic] outcome. *)
From stdpp Require Import prelude strings list.
From Stdlib Require Import ZArith Ascii Lia.
From S2P Require Import Prelude Str.

Open Scope Z_scope.

(** ** The calendar *)

Definition is_leap_year (year : Z) : bool :=
  ((Z.rem year 4 =? 0) && negb (Z.rem year 100 =? 0)) || (Z.rem year 400 =? 0).

Definition days_in_month (year month : Z) : option Z :=
  match month with
  | 1 | 3 | 5 | 7 | 8 | 10 | 12 => Some 31
  | 4 | 6 | 9 | 11 => Some 30
  | 2 => if is_leap_year year then Some 29 else Some 28
  | _ => None
  end.

Definition days_from_civil (year month day : Z) : Z :=
  let year := if month <=? 2 then year - 1 else year in
  let era := Z.quot (if 0 <=? year then year else year - 399) 400 in
  let year_of_era := year - era * 400 in
  let day_of_year :=
    Z.quot (153 * (if 2 <? month then month - 3 else month + 9) + 2) 5 + day - 1 in
  let day_of_era :=
    year_of_era * 365 + Z.quot year_of_era 4 - Z.quot year_of_era 100 + day_of_year in
  era * 146097 + day_of_era - 719468.

(** The civil date [iso_from_unix] computes from a day count. *)
Definition civil_from_days (days : Z) : Z * Z * Z :=
  let z := days + 719468 in
  let era := z / 146097 in
  let doe := z mod 146097 in
  let yoe := Z.quot (doe - Z.quot doe 1460 + Z.quot doe 36524 - Z.quot doe 146096) 365 in
  let y := yoe + era * 400 in
  let doy := doe - (365 * yoe + Z.quot yoe 4 - Z.quot yoe 100) in
  let mp := Z.quot (5 * doy + 2) 153 in
  let d := doy - Z.quot (153 * mp + 2) 5 + 1 in
  let m := if mp <? 10 then mp + 3 else mp - 9 in
  let y := if m <=? 2 then y + 1 else y in
  (y, m, d).

(** [iso_from_unix], for a [u64] argument.  [i64::try_from(secs / 86_400)]
    cannot fail: the quotient is below [2^48]. *)
Definition iso_from_unix (secs : Z) : str :=
  let '(y, m, d) := civil_from_days (secs / 86400) in
  let rem := secs mod 86400 in
  show_pad 4 y ++ lit "-" ++ show_pad 2 m ++ lit "-" ++ show_pad 2 d ++ lit "T"
  ++ show_pad 2 (rem / 3600) ++ lit ":" ++ show_pad 2 (rem mod 3600 / 60) ++ lit ":"
  ++ show_pad 2 (rem mod 60) ++ lit "Z".

(** ** The reader *)

Definition is_zone_marker (c : ascii) : bool :=
  bool_decide (c = "Z"%char \/ c = "z"%char \/ c = "+"%char \/ c = "-"%char).

(** The split at the first marker; the marker is ASCII, so both slices are
    at character boundaries. *)
Fixpoint split_time_zone (remainder : str) : str * str :=
  match remainder with
  | [] => ([], [])
  | c :: r => if is_zone_marker c then ([], remainder)
              else let '(time, zone) := split_time_zone r in (c :: time, zone)
  end.

Definition split_zone_body (body : str) : outcome (option (str * str)) :=
  match split_once ":"%char body with
  | Some (hours, minutes) => Ret (Some (hours, minutes))
  | None =>
      if Nat.eqb (length body) 4 then
        obind (slice_to body 2) (fun hours =>
        obind (slice_from body 2) (fun minutes => Ret (Some (hours, minutes))))
      else if Nat.eqb (length body) 2 then Ret (Some (body, lit "0"))
      else Ret None
  end.

Definition in_bounds (lo hi z : Z) : bool := (lo <=? z) && (z <=? hi).

Definition parse_zone_offset_secs (zone : str) : outcome (option Z) :=
  match zone with
  | [] => Ret (Some 0)
  | c :: rest =>
      if decide (zone = lit "Z" \/ zone = lit "z") then Ret (Some 0)
      else
        try? sign := Ret (if decide (c = "+"%char) then Some 1
                          else if decide (c = "-"%char) then Some (-1) else None) in
        try? body := obind (slice_from zone 1) (fun b => Ret (Some b)) in
        try? (hours, minutes) := split_zone_body body in
        try? hours := Ret (parse_i64 hours) in
        try? minutes := Ret (parse_i64 minutes) in
        if negb (in_bounds 0 23 hours) || negb (in_bounds 0 59 minutes) then Ret None
        else Ret (Some (sign * (hours * 3600 + minutes * 60)))
  end.

Definition parse_civil_date (text : str) : option (Z * Z * Z) :=
  if Nat.ltb (length text) 10 then None
  else if negb (bool_decide (text !! 4%nat = Some "-"%char))
          || negb (bool_decide (text !! 7%nat = Some "-"%char)) then None
  else
    year ← (s ← str_get text 0 4; parse_i64 s);
    month ← (s ← str_get text 5 7; parse_u32 s);
    day ← (s ← str_get text 8 10; parse_u32 s);
    if negb (in_bounds 1 12 month) || (day <? 1) then None
    else
      last_day ← days_in_month year month;
      if last_day <? day then None else Some (year, month, day).

Section f64.
Context (f64 : Type) (f64_zero : f64) (f64_of_i64 : Z -> f64) (f64_add : f64 -> f64 -> f64).
(** [str::parse::<f64>] *)
Context (parse_f64 : str -> option f64).

Record ClockTime : Type := {
  hour : Z; minute : Z; second : Z; fraction : f64; offset_secs : Z
}.

Definition parse_seconds_field (field : str) : option (Z * f64) :=
  match split_once "."%char field with
  | Some (whole, frac) =>
      if bool_decide (frac = []) || negb (forallb is_ascii_digit frac) then None
      else w ← parse_i64 whole; f ← parse_f64 (lit "0." ++ frac); Some (w, f)
  | None => w ← parse_i64 field; Some (w, f64_zero)
  end.

Definition parse_clock_time (time_and_zone : str) : outcome (option ClockTime) :=
  let '(time, zone) := split_time_zone time_and_zone in
  match split_on ":"%char time with
  | h :: rest =>
      try? hour := Ret (parse_i64 h) in
      match rest with
      | [] => Ret None
      | mi :: rest =>
          try? minute := Ret (parse_i64 mi) in
          try? (second, fraction) :=
            Ret (match rest with
                 | s :: _ => parse_seconds_field s
                 | [] => Some (0, f64_zero)
                 end) in
          match rest with
          | _ :: _ :: _ => Ret None
          | _ =>
              if negb (in_bounds 0 23 hour) || negb (in_bounds 0 59 minute)
                 || negb (in_bounds 0 60 second) then Ret None
              else
                try? offset_secs := parse_zone_offset_secs zone in
                Ret (Some {| hour := hour; minute := minute; second := second;
                             fraction := fraction; offset_secs := offset_secs |})
          end
      end
  | [] => Ret None
  end.

Definition parse_time_section (rest : str) : outcome (option ClockTime) :=
  match rest with
  | [] => Ret (Some {| hour := 0; minute := 0; second := 0; fraction := f64_zero; offset_secs := 0 |})
  | separator :: _ =>
      if negb (bool_decide (separator = "T"%char \/ separator = "t"%char \/ separator = " "%char))
      then Ret None
      else obind (slice_from rest 1) parse_clock_time
  end.

Definition parse_iso8601_epoch (value : str) : outcome (option f64) :=
  let text := trim value in
  try? (year, month, day) := Ret (parse_civil_date text) in
  try? clock := obind (slice_from text 10) parse_time_section in
  let seconds := days_from_civil year month day * 86400 + hour clock * 3600
                 + minute clock * 60 + second clock - offset_secs clock in
  Ret (Some (f64_add (f64_of_i64 seconds) (fraction clock))).

End f64.
Arguments hour {f64} _.
Arguments minute {f64} _.
Arguments second {f64} _.
Arguments fraction {f64} _.
Arguments offset_secs {f64} _.

(** A four-byte zone body whose second byte starts a two-byte character is
    cut inside the character. *)
Example zone_body_panics :
  let e_acute := [ascii_of_N 195; ascii_of_N 169] in
  let value := lit "2026-01-01T00:00+1" ++ e_acute ++ lit "2" in
  utf8_valid value = true /\
  parse_iso8601_epoch Z 0 (fun z => z) Z.add (fun _ => None) value = Panic.
Proof. split; by_eval. Qed.

(** Signed and unpadded fields pass the shape check. *)
Example unpadded_fields_accepted :
  parse_iso8601_epoch Z 0 (fun z => z) Z.add (fun _ => None) (lit "+026-+1-+1") =
  parse_iso8601_epoch Z 0 (fun z => z) Z.add (fun _ => None) (lit "0026-01-01").
Proof. by_eval. Qed.

(** * The calendar reference *)

Definition valid_date (y m d : Z) : Prop :=
  1 <= m <= 12 /\ exists n, days_in_month y m = Some n /\ 1 <= d <= n.

(** The day after, by the rules of the calendar. *)
Definition next_day (y m d : Z) : Z * Z * Z :=
  match days_in_month y m with
  | Some n => if d <? n then (y, m, d + 1)
              else if m <? 12 then (y, m + 1, 1) else (y + 1, 1, 1)
  | None => (y, m, d)
  end.

(** Days of the years before [y] in a calendar whose year starts in March. *)
Definition year_days (y : Z) : Z := 365 * y + y / 4 - y / 100 + y / 400.

Lemma quot_era y : Z.quot (if 0 <=? y then y else y - 399) 400 = y / 400.
Proof. destruct (0 <=? y) eqn:E; bool_prop; Z.to_euclidean_division_equations; lia. Qed.

Lemma days_from_civil_eq y m d :
  1 <= m <= 12 ->
  days_from_civil y m d =
  year_days (if m <=? 2 then y - 1 else y)
  + ((153 * (if 2 <? m then m - 3 else m + 9) + 2) / 5 + d - 1) - 719468.
Proof.
  intros Hm. unfold days_from_civil, year_days. rewrite quot_era.
  set (y' := if m <=? 2 then y - 1 else y). set (mp := if 2 <? m then m - 3 else m + 9).
  assert (0 <= mp) by (unfold mp; destruct (2 <? m) eqn:E; bool_prop; lia).
  rewrite !Z.quot_div_nonneg by (Z.to_euclidean_division_equations; lia).
  clearbody y' mp. Z.to_euclidean_division_equations. lia.
Qed.

Lemma leap_year_days y : year_days y - year_days (y - 1) = if is_leap_year y then 366 else 365.
Proof.
  unfold year_days, is_leap_year.
  destruct (Z.rem y 4 =? 0) eqn:E4, (Z.rem y 100 =? 0) eqn:E100, (Z.rem y 400 =? 0) eqn:E400; simpl;
    rewrite ?Z.eqb_eq, ?Z.eqb_neq in *; Z.to_euclidean_division_equations; lia.
Qed.

(** Evaluate the closed conditions and quotients of the goal. *)
Ltac eval_closed :=
  repeat match goal with
  | |- context [if ?c then _ else _] => let c' := eval vm_compute in c in change c with c'; cbv iota
  | |- context [?a / 5] => let q := eval vm_compute in (a / 5) in change (a / 5) with q
  end.

Ltac month_cases m :=
  assert (m = 1 \/ m = 2 \/ m = 3 \/ m = 4 \/ m = 5 \/ m = 6 \/ m = 7 \/ m = 8 \/ m = 9 \/ m = 10
          \/ m = 11 \/ m = 12) as Hcases by lia;
  repeat destruct Hcases as [->|Hcases]; [..|subst m].

Lemma days_in_month_some y m : 1 <= m <= 12 -> exists n, days_in_month y m = Some n /\ 28 <= n <= 31.
Proof.
  intros Hm. month_cases m; cbn; try destruct (is_leap_year y);
    (eexists; split; [reflexivity|lia]).
Qed.

(** [days_from_civil] counts days: 1970-01-01 is day zero, and the day
    after any valid date (over month, leap-day and year ends, in every year)
    has the next number. *)
Theorem days_from_civil_counts (y m d : Z) :
  valid_date y m d ->
  days_from_civil 1970 1 1 = 0 /\
  (let '(y', m', d') := next_day y m d in
   days_from_civil y' m' d' = days_from_civil y m d + 1 /\ valid_date y' m' d').
Proof.
  intros (Hm & n & Hn & Hd). split; [by_eval|]. unfold next_day. rewrite Hn.
  destruct (d <? n) eqn:Edn; bool_prop.
  { split; [|split; [done|]; exists n; split; [done|lia]].
    rewrite !days_from_civil_eq by done. lia. }
  assert (d = n) as -> by lia. pose proof (leap_year_days y) as Hly. clear Hd Edn.
  destruct (m <? 12) eqn:Em; bool_prop.
  - split; [|split; [lia|]].
    + rewrite !days_from_civil_eq by lia. revert Hly. generalize (y - 1). generalize year_days.
      intros F y1 Hly. destruct (is_leap_year y) eqn:El; month_cases m; cbn in Hn;
        rewrite ?El in Hn; simplify_eq; eval_closed; lia.
    + destruct (days_in_month_some y (m + 1)) as (n' & Hn' & ?); [lia|]. exists n'. split; [done|lia].
  - assert (m = 12) as -> by lia. cbn in Hn. injection Hn as <-. split.
    + rewrite !days_from_civil_eq by lia. replace (y + 1 - 1) with y by lia.
      revert Hly. generalize year_days. intros F _. eval_closed. lia.
    + split; [lia|]. exists 31. split; [done|lia].
Qed.

(** ** The inverse

    An era is 400 March-based years.  The year of the era is found by a
    closed formula, monotone in the day; it is evaluated at the first and the
    last day of each of the 400 years, and the month at each of the 366 days
    of a year. *)

Definition era_year (doe : Z) : Z := (doe - doe / 1460 + doe / 36524 - doe / 146096) / 365.
Definition year_start (k : Z) : Z := 365 * k + k / 4 - k / 100.
Definition year_end (k : Z) : Z := if k =? 399 then 146097 else year_start (k + 1).

Lemma era_year_mono a b : 0 <= a <= b -> b < 146097 -> era_year a <= era_year b.
Proof.
  intros Ha Hb. unfold era_year. apply Z.div_le_mono; [lia|].
  assert (b / 1460 - a / 1460 <= b - a) by (Z.to_euclidean_division_equations; lia).
  destruct (decide (b < 146096)).
  - rewrite !(Z.div_small _ 146096) by lia.
    pose proof (Z.div_le_mono a b 36524). lia.
  - assert (b = 146096) as -> by lia. destruct (decide (a = 146096)) as [->|]; [lia|].
    rewrite (Z.div_small a 146096) by lia.
    change (146096 / 1460) with 100 in *. change (146096 / 36524) with 4. change (146096 / 146096) with 1.
    assert (a / 36524 <= 3) by (Z.to_euclidean_division_equations; lia). lia.
Qed.

Definition year_ok (k : Z) : bool :=
  (era_year (year_start k) =? k) && (era_year (year_end k - 1) =? k)
  && (year_start k <? year_end k) && (0 <=? year_start k) && (year_end k <=? 146097).

Definition doy_ok (doy : Z) : bool :=
  let mp := (5 * doy + 2) / 153 in
  let d := doy - (153 * mp + 2) / 5 + 1 in
  let m := if mp <? 10 then mp + 3 else mp - 9 in
  in_bounds 1 12 m && ((if 2 <? m then m - 3 else m + 9) =? mp)
  && (1 <=? d) && (0 <=? mp)
  && (d <=? match days_in_month 1 m with Some n => n | None => 0 end
            + (if (m =? 2) && (doy =? 365) then 1 else 0)).

(** A check of the integers below a bound. *)
Fixpoint zrange (z : Z) (n : nat) : list Z :=
  match n with O => [] | S n' => z :: zrange (z + 1) n' end.

Lemma range_checked (f : Z -> bool) (n : nat) x :
  forallb f (zrange 0 n) = true -> 0 <= x < Z.of_nat n -> f x = true.
Proof.
  assert (forall z, forallb f (zrange z n) = true -> z <= x < z + Z.of_nat n -> f x = true) as H;
    [|intros H1 H2; apply (H 0); [done|lia]].
  induction n as [|n IH]; intros z; cbn [zrange forallb]; [lia|].
  rewrite andb_true_iff. intros [Hz Hr] Hx. destruct (decide (x = z)) as [->|]; [done|].
  apply (IH (z + 1)); [done|lia].
Qed.

Lemma years_checked : forallb year_ok (zrange 0 400) = true.
Proof. by_eval. Qed.
Lemma days_checked : forallb doy_ok (zrange 0 366) = true.
Proof. by_eval. Qed.

Lemma year_of_day doe :
  0 <= doe < 146097 -> exists k, 0 <= k < 400 /\ year_start k <= doe < year_end k.
Proof.
  intros Hd.
  assert (forall n : nat, (n <= 399)%nat -> doe < year_end (Z.of_nat n) ->
            exists k, 0 <= k < 400 /\ year_start k <= doe < year_end k) as Hn.
  { induction n as [|n IH]; intros Hn Hlt.
    - exists 0. split; [lia|]. split; [|done]. change (year_start 0) with 0. lia.
    - destruct (decide (year_start (Z.of_nat (S n)) <= doe)) as [Hge|Hlt'].
      + exists (Z.of_nat (S n)). split; [lia|done].
      + apply IH; [lia|]. unfold year_end. rewrite (proj2 (Z.eqb_neq _ _)) by lia.
        replace (Z.of_nat n + 1) with (Z.of_nat (S n)) by lia. lia. }
  apply (Hn 399%nat); [lia|]. change (year_end (Z.of_nat 399)) with 146097. lia.
Qed.

Lemma era_year_exact doe :
  0 <= doe < 146097 ->
  0 <= era_year doe < 400 /\ year_start (era_year doe) <= doe < year_end (era_year doe).
Proof.
  intros Hd. destruct (year_of_day doe Hd) as (k & Hk & Hs & He).
  pose proof (range_checked _ 400 k years_checked ltac:(lia)) as Hok.
  unfold year_ok in Hok. repeat (apply andb_true_iff in Hok as [Hok ?]).
  rewrite ?Z.eqb_eq in *. bool_prop.
  assert (era_year doe = k) as ->; [|done].
  pose proof (era_year_mono (year_start k) doe ltac:(lia) ltac:(lia)).
  pose proof (era_year_mono doe (year_end k - 1) ltac:(lia) ltac:(lia)). lia.
Qed.

(** The 366th day of a March-based year exists only before a leap February. *)
Lemma long_year k e :
  0 <= k < 400 -> year_end k - year_start k <= 365 + (if is_leap_year (k + 1 + 400 * e) then 1 else 0).
Proof.
  intros Hk. assert (year_days (k + 1 + 400 * e) - year_days (k + 1 + 400 * e - 1)
    = year_end k - year_start k) as <-.
  { unfold year_end, year_start, year_days. destruct (k =? 399) eqn:E.
    - apply Z.eqb_eq in E as ->. Z.to_euclidean_division_equations. lia.
    - apply Z.eqb_neq in E. Z.to_euclidean_division_equations. lia. }
  rewrite leap_year_days. by destruct (is_leap_year _).
Qed.

Lemma days_in_month_le y m :
  1 <= m <= 12 -> exists n, days_in_month y m = Some n /\
    n = match days_in_month 1 m with Some n => n | None => 0 end
        + (if (m =? 2) && is_leap_year y then 1 else 0).
Proof.
  intros Hm. month_cases m; unfold days_in_month; try change (is_leap_year 1) with false;
    try destruct (is_leap_year y); cbn; eexists; (split; [reflexivity|lia]).
Qed.

(** The date, with the quotients as floor divisions. *)
Lemma civil_from_days_eq days :
  let z := days + 719468 in
  let doe := z mod 146097 in
  let yoe := era_year doe in
  let doy := doe - year_start yoe in
  let mp := (5 * doy + 2) / 153 in
  let m := if mp <? 10 then mp + 3 else mp - 9 in
  civil_from_days days =
  ((if m <=? 2 then yoe + z / 146097 * 400 + 1 else yoe + z / 146097 * 400), m,
   doy - (153 * mp + 2) / 5 + 1).
Proof.
  cbn zeta. set (doe := (days + 719468) mod 146097).
  assert (0 <= doe < 146097) as Hd by (apply Z.mod_pos_bound; lia).
  destruct (era_year_exact doe Hd) as [Hy Hs].
  assert (Z.quot (doe - Z.quot doe 1460 + Z.quot doe 36524 - Z.quot doe 146096) 365 = era_year doe) as Hq.
  { unfold era_year. rewrite !Z.quot_div_nonneg; [done|..]; Z.to_euclidean_division_equations; lia. }
  unfold civil_from_days. fold doe. rewrite Hq. set (yoe := era_year doe) in *.
  rewrite (Z.quot_div_nonneg yoe 4), (Z.quot_div_nonneg yoe 100) by lia. fold (year_start yoe).
  set (doy := doe - year_start yoe) in *. rewrite (Z.quot_div_nonneg (5 * doy + 2)) by lia.
  set (mp := (5 * doy + 2) / 153).
  assert (0 <= mp) by (apply Z.div_pos; lia). rewrite (Z.quot_div_nonneg (153 * mp + 2)) by lia. done.
Qed.

Lemma year_days_era k e : 0 <= k < 400 -> year_days (k + e * 400) = year_start k + e * 146097.
Proof.
  intros Hk. unfold year_days, year_start.
  replace ((k + e * 400) / 4) with (k / 4 + e * 100) by (Z.to_euclidean_division_equations; lia).
  replace ((k + e * 400) / 100) with (k / 100 + e * 4) by (Z.to_euclidean_division_equations; lia).
  replace ((k + e * 400) / 400) with e by (Z.to_euclidean_division_equations; lia). lia.
Qed.

Lemma civil_from_days_inverse days :
  let '(y, m, d) := civil_from_days days in
  valid_date y m d /\ days_from_civil y m d = days.
Proof.
  rewrite civil_from_days_eq. cbv zeta. set (doe := (days + 719468) mod 146097).
  set (era := (days + 719468) / 146097).
  assert (0 <= doe < 146097) as Hd by (apply Z.mod_pos_bound; lia).
  destruct (era_year_exact doe Hd) as [Hy Hs]. set (yoe := era_year doe) in *.
  pose proof (long_year yoe era Hy) as Hlong.
  set (doy := doe - year_start yoe) in *.
  assert (0 <= doy < 366) as Hdoy by (destruct (is_leap_year _); lia).
  pose proof (range_checked _ 366 doy days_checked ltac:(lia)) as Hok.
  unfold doy_ok in Hok. set (mp := (5 * doy + 2) / 153) in *.
  set (m := if mp <? 10 then mp + 3 else mp - 9) in *.
  set (d := doy - (153 * mp + 2) / 5 + 1) in *.
  repeat (apply andb_true_iff in Hok as [Hok ?]). unfold in_bounds in *. rewrite ?Z.eqb_eq in *. bool_prop.
  assert (days + 719468 = era * 146097 + doe) as Hz.
  { unfold era, doe. rewrite (Z.div_mod (days + 719468) 146097) at 1 by lia. lia. }
  split.
  - split; [lia|].
    destruct (days_in_month_le (if m <=? 2 then yoe + era * 400 + 1 else yoe + era * 400) m) as (n & Hn & ->);
      [lia|]. eexists. split; [exact Hn|]. split; [lia|].
    destruct (m =? 2) eqn:Em2; cbn [andb] in *; [|lia]. apply Z.eqb_eq in Em2.
    destruct (doy =? 365) eqn:E365;
      [|match goal with |- _ <= _ + (if ?b then _ else _) => destruct b end; lia].
    apply Z.eqb_eq in E365.
    destruct (m <=? 2) eqn:Em; bool_prop; [|lia].
    replace (yoe + era * 400 + 1) with (yoe + 1 + 400 * era) by lia.
    destruct (is_leap_year _); lia.
  - rewrite days_from_civil_eq by lia.
    assert ((if m <=? 2 then (if m <=? 2 then yoe + era * 400 + 1 else yoe + era * 400) - 1
             else if m <=? 2 then yoe + era * 400 + 1 else yoe + era * 400) = yoe + era * 400) as ->
      by (destruct (m <=? 2); lia).
    replace (if 2 <? m then m - 3 else m + 9) with mp by lia.
    rewrite year_days_era by done. unfold d, doy. lia.
Qed.

(** The two halves of the calendar code are inverse: the civil date the
    companion prints for a day number is a valid date, and the extension's
    [days_from_civil] maps it back to that number, for every day. *)
Theorem civil_roundtrip (days : Z) :
  let '(y, m, d) := civil_from_days days in
  valid_date y m d /\ days_from_civil y m d = days.
Proof. apply civil_from_days_inverse. Qed.

(** ** The text *)

(** What a decimal digit is not. *)
Definition digit_facts (c : ascii) : bool :=
  (byte c <=? 127)%N && negb (ws1 c) && negb (is_cont c) && negb (is_zone_marker c)
  && negb (bool_decide (c = ":"%char)) && negb (bool_decide (c = "."%char)).

Definition field_ok (w : nat) (parse : str -> option Z) (n : Z) : bool :=
  let s := show_pad w n in
  Nat.eqb (length s) w && forallb digit_facts s
  && match parse s with Some z => z =? n | None => false end.

Lemma fields2_i64 : forallb (field_ok 2 parse_i64) (zrange 0 100) = true.
Proof. by_eval. Qed.
Lemma fields2_u32 : forallb (field_ok 2 parse_u32) (zrange 0 100) = true.
Proof. by_eval. Qed.
Lemma fields4_i64 : forallb (field_ok 4 parse_i64) (zrange 0 (100 * 100)) = true.
Proof. by_eval. Qed.

Lemma field2 parse n :
  forallb (field_ok 2 parse) (zrange 0 100) = true -> 0 <= n < 100 ->
  exists a b, show_pad 2 n = [a; b] /\ digit_facts a = true /\ digit_facts b = true /\
    parse [a; b] = Some n.
Proof.
  intros Hall Hn. pose proof (range_checked _ 100 n Hall ltac:(lia)) as Hok.
  unfold field_ok in Hok. apply andb_true_iff in Hok as [Hok Hp]. apply andb_true_iff in Hok as [Hl Hd].
  destruct (show_pad 2 n) as [|a [|b [|]]]; try done. cbn [forallb] in Hd.
  rewrite !andb_true_iff in Hd. destruct Hd as (? & ? & _). exists a, b.
  destruct (parse [a; b]) as [z|]; [|done]. apply Z.eqb_eq in Hp as ->. done.
Qed.

Lemma field4 n :
  0 <= n < 10000 ->
  exists a b c d, show_pad 4 n = [a; b; c; d] /\ digit_facts a = true /\ digit_facts b = true /\
    digit_facts c = true /\ digit_facts d = true /\ parse_i64 [a; b; c; d] = Some n.
Proof.
  intros Hn. pose proof (range_checked _ (100 * 100) n fields4_i64 ltac:(lia)) as Hok.
  unfold field_ok in Hok. apply andb_true_iff in Hok as [Hok Hp]. apply andb_true_iff in Hok as [Hl Hd].
  destruct (show_pad 4 n) as [|a [|b [|c [|d [|]]]]]; try done. cbn [forallb] in Hd.
  rewrite !andb_true_iff in Hd. destruct Hd as (? & ? & ? & ? & _). exists a, b, c, d.
  destruct (parse_i64 [a; b; c; d]) as [z|]; [|done]. apply Z.eqb_eq in Hp as ->. done.
Qed.

Section digit.
Context (c : ascii) (Hc : digit_facts c = true).

Lemma digit_facts_all :
  (byte c <= 127)%N /\ ws1 c = false /\ is_cont c = false /\ is_zone_marker c = false /\
  c <> ":"%char /\ c <> "."%char.
Proof.
  clear -Hc. unfold digit_facts in Hc. rewrite !andb_true_iff, !negb_true_iff, N.leb_le in Hc.
  rewrite !bool_decide_eq_false in Hc. tauto.
Qed.

Lemma digit_cont : is_cont c = false.
Proof. apply digit_facts_all. Qed.
Lemma digit_marker : is_zone_marker c = false.
Proof. apply digit_facts_all. Qed.

End digit.

(** A list of digits holds no separator. *)
Lemma digits_notin l : Forall (fun c => digit_facts c = true) l -> (":"%char ∉ l) /\ ("."%char ∉ l).
Proof.
  rewrite Forall_forall. intros HF. split; intros Hin%HF%digit_facts_all; tauto.
Qed.

Lemma year_bound secs y m d :
  0 <= secs < 253402300800 -> civil_from_days (secs / 86400) = (y, m, d) -> 0 <= y < 10000.
Proof.
  intros Hs Hc. pose proof (civil_from_days_inverse (secs / 86400)) as H. rewrite Hc in H.
  destruct H as [(Hm & n & Hn & Hd) He]. destruct (days_in_month_some y m Hm) as (n' & Hn' & Hb).
  rewrite Hn in Hn'. injection Hn' as ->.
  assert (0 <= secs / 86400 < 2932897) as Hday by (Z.to_euclidean_division_equations; lia).
  rewrite days_from_civil_eq in He by done. unfold year_days in He.
  assert (0 <= (153 * (if 2 <? m then m - 3 else m + 9) + 2) / 5 <= 337 /\
          (m <= 2 -> 306 <= (153 * (if 2 <? m then m - 3 else m + 9) + 2) / 5)
          /\ (2 < m -> (153 * (if 2 <? m then m - 3 else m + 9) + 2) / 5 <= 275)) as Hdoy.
  { destruct (2 <? m) eqn:E; bool_prop; Z.to_euclidean_division_equations; lia. }
  set (doy := (153 * _ + 2) / 5) in *. clearbody doy. clear Hn Hc.
  destruct (m <=? 2) eqn:Em; bool_prop.
  - Z.to_euclidean_division_equations; lia.
  - Z.to_euclidean_division_equations; lia.
Qed.

Section text_roundtrip.
Context (f64 : Type) (f64_zero : f64) (f64_of_i64 : Z -> f64) (f64_add : f64 -> f64 -> f64).
Context (parse_f64 : str -> option f64).

Lemma split_time_zone_plain t z :
  Forall (fun c => is_zone_marker c = false) t -> is_zone_marker z = true ->
  split_time_zone (t ++ [z]) = (t, [z]).
Proof.
  intros HF Hz. induction HF as [|c t Hc _ IH]; cbn; [by rewrite Hz|]. by rewrite Hc, IH.
Qed.

(** The clock of a printed instant. *)
Lemma parse_clock_printed h1 h2 m1 m2 s1 s2 hh mm ss :
  Forall (fun c => digit_facts c = true) [h1; h2] ->
  Forall (fun c => digit_facts c = true) [m1; m2] ->
  Forall (fun c => digit_facts c = true) [s1; s2] ->
  parse_i64 [h1; h2] = Some hh -> parse_i64 [m1; m2] = Some mm -> parse_i64 [s1; s2] = Some ss ->
  0 <= hh <= 23 -> 0 <= mm <= 59 -> 0 <= ss <= 59 ->
  parse_clock_time f64 f64_zero parse_f64
    ([h1; h2; ":"%char; m1; m2; ":"%char; s1; s2] ++ lit "Z")
  = Ret (Some {| hour := hh; minute := mm; second := ss; fraction := f64_zero; offset_secs := 0 |}).
Proof.
  intros Fh Fm Fs Hh Hm Hs Bh Bm Bs.
  pose proof (digits_notin _ Fh) as [Nh _]. pose proof (digits_notin _ Fm) as [Nm _].
  pose proof (digits_notin _ Fs) as [Ns Ns'].
  assert (Forall (fun c => is_zone_marker c = false) [h1; h2; ":"%char; m1; m2; ":"%char; s1; s2]) as Hz.
  { rewrite !Forall_cons in *. destruct_and!. repeat split; try by apply digit_marker. by constructor. }
  unfold parse_clock_time. change (lit "Z") with ["Z"%char].
  rewrite split_time_zone_plain by done.
  assert (split_on ":"%char [h1; h2; ":"%char; m1; m2; ":"%char; s1; s2]
          = [[h1; h2]; [m1; m2]; [s1; s2]]) as ->.
  { apply (split_on_join ":"%char [[h1; h2]; [m1; m2]; [s1; s2]]); [done|]. by repeat constructor. }
  rewrite Hh, Hm. cbn [qbind]. unfold parse_seconds_field.
  rewrite (proj2 (split_once_None _ _)) by done.
  rewrite Hs. cbn [mbind option_bind qbind]. unfold in_bounds.
  rewrite !(proj2 (Z.leb_le _ _)) by lia. done.
Qed.

Lemma parse_date_printed a b c d m1 m2 d1 d2 y mo dd rest :
  digit_facts m1 = true -> digit_facts d1 = true ->
  parse_i64 [a; b; c; d] = Some y -> parse_u32 [m1; m2] = Some mo -> parse_u32 [d1; d2] = Some dd ->
  valid_date y mo dd ->
  parse_civil_date ([a; b; c; d; "-"%char; m1; m2; "-"%char; d1; d2; "T"%char] ++ rest) = Some (y, mo, dd).
Proof.
  intros Dm Dd Hy Hmo Hdd (Bm & n & Hn & Bd).
  set (text := _ ++ rest). unfold parse_civil_date.
  assert (Nat.ltb (length text) 10 = false) as -> by (apply Nat.ltb_ge; unfold text; simpl; lia).
  rewrite !bool_decide_eq_true_2 by done. cbn [negb orb].
  assert (str_get text 0 4 = Some [a; b; c; d]) as -> by done.
  assert (str_get text 5 7 = Some [m1; m2]) as ->.
  { unfold str_get, is_char_boundary, text. cbn [app lookup list_lookup Nat.leb]. by rewrite digit_cont. }
  assert (str_get text 8 10 = Some [d1; d2]) as ->.
  { unfold str_get, is_char_boundary, text. cbn [app lookup list_lookup Nat.leb]. by rewrite digit_cont. }
  cbn [mbind option_bind]. rewrite Hy, Hmo, Hdd. cbn [mbind option_bind]. unfold in_bounds.
  rewrite (proj2 (Z.leb_le 1 mo)), (proj2 (Z.leb_le mo 12)), (proj2 (Z.ltb_ge dd 1)) by lia. cbn [andb negb orb].
  rewrite Hn. cbn [mbind option_bind]. by rewrite (proj2 (Z.ltb_ge n dd)) by lia.
Qed.

Lemma parse_printed a b c d m1 m2 d1 d2 y mo dd h1 rest clock :
  digit_facts a = true -> digit_facts m1 = true -> digit_facts d1 = true -> digit_facts h1 = true ->
  parse_i64 [a; b; c; d] = Some y -> parse_u32 [m1; m2] = Some mo -> parse_u32 [d1; d2] = Some dd ->
  valid_date y mo dd ->
  parse_clock_time f64 f64_zero parse_f64 ((h1 :: rest) ++ lit "Z") = Ret (Some clock) ->
  parse_iso8601_epoch f64 f64_zero f64_of_i64 f64_add parse_f64
    ([a; b; c; d; "-"%char; m1; m2; "-"%char; d1; d2; "T"%char] ++ (h1 :: rest) ++ lit "Z")
  = Ret (Some (f64_add (f64_of_i64 (days_from_civil y mo dd * 86400 + hour clock * 3600
        + minute clock * 60 + second clock - offset_secs clock)) (fraction clock))).
Proof.
  intros Da Dm Dd Dh Hy Hmo Hdd Hv Hclock. unfold parse_iso8601_epoch. change (lit "Z") with ["Z"%char] in *.
  destruct (digit_facts_all a Da) as (Ha & Hws & _).
  assert (trim ([a; b; c; d; "-"%char; m1; m2; "-"%char; d1; d2; "T"%char] ++ (h1 :: rest) ++ ["Z"%char])
          = [a; b; c; d; "-"%char; m1; m2; "-"%char; d1; d2; "T"%char] ++ (h1 :: rest) ++ ["Z"%char]) as ->.
  { by apply (trim_plain a ([b; c; d; "-"%char; m1; m2; "-"%char; d1; d2; "T"%char] ++ h1 :: rest)). }
  rewrite (parse_date_printed a b c d m1 m2 d1 d2 y mo dd) by done. cbn [qbind].
  match goal with |- context [slice_from ?t 10] =>
    assert (slice_from t 10 = Ret ("T"%char :: (h1 :: rest) ++ ["Z"%char])) as -> by done end.
  cbn [obind]. unfold parse_time_section. rewrite bool_decide_eq_true_2 by auto. cbn [negb].
  assert (slice_from ("T"%char :: (h1 :: rest) ++ ["Z"%char]) 1 = Ret ((h1 :: rest) ++ ["Z"%char])) as ->.
  { unfold slice_from, is_char_boundary. cbn [app lookup list_lookup]. by rewrite digit_cont. }
  cbn [obind]. rewrite Hclock. done.
Qed.

(** The extension reads back what the companion writes: for every instant
    up to the end of the year 9999, parsing the printed timestamp gives the
    same number of seconds, with a zero fraction. *)
Theorem iso_roundtrip (secs : Z) :
  0 <= secs < 253402300800 ->
  parse_iso8601_epoch f64 f64_zero f64_of_i64 f64_add parse_f64 (iso_from_unix secs)
  = Ret (Some (f64_add (f64_of_i64 secs) f64_zero)).
Proof.
  intros Hs. unfold iso_from_unix. pose proof (civil_from_days_inverse (secs / 86400)) as Hinv.
  destruct (civil_from_days (secs / 86400)) as [[y m] d] eqn:Hc. destruct Hinv as [Hv Hdays].
  pose proof (year_bound _ _ _ _ Hs Hc) as Hy. pose proof Hv as (Hm & n & Hn & Hd).
  destruct (days_in_month_some y m Hm) as (n' & Hn' & Hb). rewrite Hn in Hn'. injection Hn' as <-.
  set (rem := secs mod 86400). assert (0 <= rem < 86400) as Hrem by (apply Z.mod_pos_bound; lia).
  assert (0 <= rem / 3600 <= 23 /\ 0 <= rem mod 3600 / 60 <= 59 /\ 0 <= rem mod 60 <= 59 /\
          rem / 3600 * 3600 + rem mod 3600 / 60 * 60 + rem mod 60 = rem) as (Bh & Bm & Bs & Hsum)
    by (Z.to_euclidean_division_equations; lia).
  destruct (field4 y Hy) as (y1 & y2 & y3 & y4 & -> & D1 & _ & _ & _ & Py).
  destruct (field2 _ m fields2_u32) as (m1 & m2 & -> & D2 & _ & Pm); [lia|].
  destruct (field2 _ d fields2_u32) as (d1 & d2 & -> & D3 & _ & Pd); [lia|].
  destruct (field2 _ (rem / 3600) fields2_i64) as (h1 & h2 & -> & D4 & D4' & Ph); [lia|].
  destruct (field2 _ (rem mod 3600 / 60) fields2_i64) as (i1 & i2 & -> & D5 & D5' & Pi); [lia|].
  destruct (field2 _ (rem mod 60) fields2_i64) as (s1 & s2 & -> & D6 & D6' & Ps); [lia|].
  pose proof (parse_clock_printed h1 h2 i1 i2 s1 s2 _ _ _ ltac:(by repeat constructor)
    ltac:(by repeat constructor) ltac:(by repeat constructor) Ph Pi Ps Bh Bm Bs) as Hclock.
  pose proof (parse_printed y1 y2 y3 y4 m1 m2 d1 d2 y m d h1 _ _ D1 D2 D3 D4 Py Pm Pd Hv Hclock) as Hp.
  change ([y1; y2; y3; y4] ++ lit "-" ++ [m1; m2] ++ lit "-" ++ [d1; d2] ++ lit "T" ++ [h1; h2]
    ++ lit ":" ++ [i1; i2] ++ lit ":" ++ [s1; s2] ++ lit "Z")
    with ([y1; y2; y3; y4; "-"%char; m1; m2; "-"%char; d1; d2; "T"%char]
      ++ (h1 :: [h2; ":"%char; i1; i2; ":"%char; s1; s2]) ++ lit "Z").
  rewrite Hp. cbn [hour minute second offset_secs fraction]. do 4 f_equal. rewrite Hdays.
  assert (secs = secs / 86400 * 86400 + rem) by (unfold rem; Z.to_euclidean_division_equations; lia). lia.
Qed.

End text_roundtrip.

Lemma iso_roundtrip_witness :
  iso_from_unix 1767225600 = lit "2026-01-01T00:00:00Z" /\
  parse_iso8601_epoch Z 0 (fun z => z) Z.add (fun _ => None) (iso_from_unix 1767225600)
  = Ret (Some (1767225600 + 0)).
Proof. split; [by_eval|]. apply iso_roundtrip. lia. Defined.
