(* ===== verification/CatalogError.v ===== *)
(** * Catalog errors ([extension/src/errors.rs])

    Every operation of the extension reports its failures as a
    [CatalogError]; the kind fixes the SQLSTATE a client sees. *)
From stdpp Require Import prelude strings list.
From Stdlib Require Import Ascii.
From S2P Require Import Prelude Str.

Inductive ErrorKind : Type :=
| InvalidParameter
| InsufficientPrivilege
| DuplicatePath
| Internal.

#[export] Instance error_kind_eq_dec : EqDecision ErrorKind.
Proof. solve_decision. Defined.

Definition sqlstate (k : ErrorKind) : str :=
  match k with
  | InvalidParameter => lit "22023"
  | InsufficientPrivilege => lit "42501"
  | DuplicatePath => lit "23505"
  | Internal => lit "XX000"
  end.

Record CatalogError : Type := new_error {
  kind : ErrorKind;
  message : str;
  bundle_path : str
}.

#[export] Instance catalog_error_eq_dec : EqDecision CatalogError.
Proof. solve_decision. Defined.

Definition invalid_parameter (msg path : str) : CatalogError := new_error InvalidParameter msg path.
Definition insufficient_privilege (msg path : str) : CatalogError :=
  new_error InsufficientPrivilege msg path.
Definition duplicate_path (msg path : str) : CatalogError := new_error DuplicatePath msg path.
Definition internal (msg path : str) : CatalogError := new_error Internal msg path.

(** [Display]: only a file-scoped error shows a path. *)
Definition error_text (e : CatalogError) : str :=
  match bundle_path e with
  | [] => message e
  | p => message e ++ lit " [bundle-relative path: " ++ to_string_lossy p ++ lit "]"
  end.

(** A client tells the four kinds apart by SQLSTATE alone. *)
Lemma sqlstate_inj k k' : sqlstate k = sqlstate k' -> k = k'.
Proof. destruct k, k'; by vm_compute. Qed.
