(* ===== verification/Security.v ===== *)
(** * Path containment, roles and tenants ([extension/src/security.rs])

    The file system is the class [Roots] and the database session the class
    [Backend]: [pg_has_role] and the two tenant queries may fail or return
    NULL.  The policy functions are those of the source. *)
From stdpp Require Import prelude strings gmap list.
From Stdlib Require Import Ascii ZArith Lia.
From S2P Require Import Prelude Str OkfPath CatalogError Discover.

(** ** Contained paths *)

Class Roots : Type := {
  roots_error : Type;
  roots_error_text : roots_error -> str;
  (** [std::fs::canonicalize] *)
  realpath : str -> result str roots_error;
  (** [Path::is_dir] *)
  is_dir : str -> bool
}.

Definition nul : ascii := "000"%char.

Definition validate_path_syntax (path bundle_relative_path : str) : result unit CatalogError :=
  if negb (is_absolute path) then
    Err (invalid_parameter (lit "path must be absolute: " ++ to_string_lossy path)
           bundle_relative_path)
  else if contains_char nul (to_string_lossy path) then
    Err (invalid_parameter (lit "path must not contain NUL bytes") bundle_relative_path)
  else if existsb (fun part => bool_decide (part = ParentDir)) (components path) then
    Err (invalid_parameter (lit "path traversal is not allowed: " ++ to_string_lossy path)
           bundle_relative_path)
  else Ok tt.

Section roots.
Context `{R : Roots}.

(** The loop over the configured roots. *)
Fixpoint collect_roots (bundle_relative_path : str) (allowed_roots canonical_roots : list str)
  : result (list str) CatalogError :=
  match allowed_roots with
  | [] => Ok canonical_roots
  | root :: rest =>
      let? _ := validate_path_syntax root bundle_relative_path in
      let? canonical :=
        rmap_err (fun error => invalid_parameter
                    (lit "failed to canonicalize allowed root " ++ to_string_lossy root
                       ++ lit ": " ++ roots_error_text error) bundle_relative_path)
          (realpath root) in
      if negb (is_dir canonical) then
        Err (invalid_parameter (lit "allowed root is not a directory: " ++ to_string_lossy root)
               bundle_relative_path)
      else if existsb (fun r => bool_decide (components r = components canonical)) canonical_roots
      then collect_roots bundle_relative_path rest canonical_roots
      else collect_roots bundle_relative_path rest (canonical_roots ++ [canonical])
  end.

Definition validate_allowed_roots (allowed_roots : list str) (bundle_relative_path : str)
  : result (list str) CatalogError :=
  match allowed_roots with
  | [] => Err (invalid_parameter (lit "allowed_roots must contain at least one root")
                 bundle_relative_path)
  | _ => collect_roots bundle_relative_path allowed_roots []
  end.

Definition canonicalize_contained_path (path : str) (allowed_roots : list str)
    (bundle_relative_path : str) : result str CatalogError :=
  let? _ := validate_path_syntax path bundle_relative_path in
  let? roots := validate_allowed_roots allowed_roots bundle_relative_path in
  let? canonical_path :=
    rmap_err (fun error => invalid_parameter
                (lit "failed to canonicalize path " ++ to_string_lossy path
                   ++ lit ": " ++ roots_error_text error) bundle_relative_path)
      (realpath path) in
  if existsb (path_starts_with canonical_path) roots then Ok canonical_path
  else Err (invalid_parameter
              (lit "resolved path " ++ to_string_lossy canonical_path
                 ++ lit " is outside allowed_roots") bundle_relative_path).

End roots.

(** ** Roles *)

Definition PGOKF_ADMIN_ROLE : str := lit "pgokf_admin".
Definition PGOKF_WRITER_ROLE : str := lit "pgokf_writer".
Definition PGOKF_READER_ROLE : str := lit "pgokf_reader".
Definition PGOKF_DISPATCHER_ROLE : str := lit "pgokf_dispatcher".

Inductive Operation : Type :=
| Register
| Ingest
| Search.

#[export] Instance operation_eq_dec : EqDecision Operation.
Proof. solve_decision. Defined.

(** [trait RoleMembership]. *)
Abbreviation RoleMembership := (str -> result bool CatalogError).

Definition satisfying_roles (operation : Operation) : list str :=
  match operation with
  | Search => [PGOKF_READER_ROLE; PGOKF_WRITER_ROLE; PGOKF_ADMIN_ROLE]
  | Ingest => [PGOKF_WRITER_ROLE; PGOKF_ADMIN_ROLE]
  | Register => [PGOKF_ADMIN_ROLE]
  end.

Definition minimum_role (operation : Operation) : str :=
  match operation with
  | Search => PGOKF_READER_ROLE
  | Ingest => PGOKF_WRITER_ROLE
  | Register => PGOKF_ADMIN_ROLE
  end.

(** A loop over roles that returns on the first membership. *)
Fixpoint first_member (lookup : RoleMembership) (roles : list str) (denied : CatalogError)
  : result unit CatalogError :=
  match roles with
  | [] => Err denied
  | role :: rest =>
      let? is_member := lookup role in
      if (is_member : bool) then Ok tt else first_member lookup rest denied
  end.

Definition authorize (operation : Operation) (roles : RoleMembership)
    (bundle_relative_path : str) : result unit CatalogError :=
  first_member
    (fun role => rmap_err (fun error => new_error (kind error) (message error) bundle_relative_path)
                   (roles role))
    (satisfying_roles operation)
    (insufficient_privilege (lit "operation requires membership in " ++ minimum_role operation)
       bundle_relative_path).

(** ** The session *)

Class Backend : Type := {
  spi_error : Type;
  spi_error_text : spi_error -> str;
  (** [SELECT pg_has_role(session_user, role, 'MEMBER')] *)
  pg_has_role : str -> result (option bool) spi_error;
  (** the session tenant, the [require_tenant] policy, the bundle's owner *)
  bundle_tenant_row : Z -> result (option str * option bool * option str) spi_error;
  (** the first two of them *)
  session_tenant_row : result (option str * option bool) spi_error
}.

Record TenantContext : Type := {
  session_tenant : option str;
  tenant_required : bool
}.

Definition is_unscoped (context : TenantContext) : bool :=
  match session_tenant context with
  | None | Some [] => true
  | Some _ => false
  end.

Definition is_denied (context : TenantContext) : bool :=
  is_unscoped context && tenant_required context.

Definition tenant_permits (context : TenantContext) (bundle_tenant : option str) : bool :=
  match session_tenant context with
  | None | Some [] => negb (tenant_required context)
  | Some active => bool_decide (bundle_tenant = Some active)
  end.

Definition unknown_bundle_error (bundle_id : Z) : CatalogError :=
  invalid_parameter (lit "bundle " ++ show_Z bundle_id ++ lit " is not registered") [].

Definition tenant_required_error : CatalogError :=
  insufficient_privilege
    (lit "an active tenant is required: the catalog policy require_tenant is on and pgokf.tenant is not set for this session (SET pgokf.tenant = '<tenant>', or pin it with ALTER ROLE ... SET pgokf.tenant)")
    [].

Section backend.
Context `{B : Backend}.

(** [PostgresRoleMembership]: only the four known roles are queried. *)
Definition is_member_of (role : str) : result bool CatalogError :=
  if decide (role ∈ [PGOKF_ADMIN_ROLE; PGOKF_WRITER_ROLE; PGOKF_READER_ROLE; PGOKF_DISPATCHER_ROLE])
  then
    rmap_err (fun error => internal
                (lit "failed to check PostgreSQL role membership: " ++ spi_error_text error) [])
      (rmap (default false) (pg_has_role role))
  else Err (internal (lit "unknown authorization role: " ++ role) []).

Definition read_bundle_tenant_context (bundle_id : Z)
  : result (option str * bool * option str) CatalogError :=
  rmap_err (fun error => internal
              (lit "failed to resolve bundle tenant for write confinement: "
                 ++ spi_error_text error) [])
    (rmap (fun '(session, required, owner) => (session, default false required, owner))
       (bundle_tenant_row bundle_id)).

Definition read_tenant_context : result (option str * bool) CatalogError :=
  rmap_err (fun error => internal
              (lit "failed to resolve the session tenant context: " ++ spi_error_text error) [])
    (rmap (fun '(session, required) => (session, default false required)) session_tenant_row).

Definition enforce_active_tenant : result unit CatalogError :=
  let? (session, required) := read_tenant_context in
  let context := {| session_tenant := session; tenant_required := required |} in
  if is_denied context then Err tenant_required_error else Ok tt.

Definition authorize_current_user (operation : Operation) (bundle_relative_path : str)
  : result unit CatalogError :=
  let? _ := authorize operation is_member_of bundle_relative_path in
  if decide (operation = Ingest) then enforce_active_tenant else Ok tt.

Definition authorize_dispatcher_current_user : result unit CatalogError :=
  first_member is_member_of [PGOKF_DISPATCHER_ROLE; PGOKF_ADMIN_ROLE]
    (insufficient_privilege (lit "operation requires membership in " ++ PGOKF_DISPATCHER_ROLE) []).

Definition enforce_bundle_tenant (bundle_id : Z) : result unit CatalogError :=
  let? (session, required, owner) := read_bundle_tenant_context bundle_id in
  let context := {| session_tenant := session; tenant_required := required |} in
  if is_denied context then Err tenant_required_error
  else if tenant_permits context owner then Ok tt
  else Err (unknown_bundle_error bundle_id).

End backend.

(** ** Properties of containment *)

(** A replacement character never holds an ASCII byte, so the lossy text
    shows exactly the ASCII bytes of the path. *)
Lemma lossy_run_ascii c acc pending s :
  (byte c <= 127)%N -> above_ascii pending -> (c ∉ acc) ->
  c ∈ lossy_run acc pending s <-> c ∈ s.
Proof.
  intros Hc. assert (c ∉ replacement) as Hrep.
  { intros [->|[->|[->|[]%not_elem_of_nil]%elem_of_cons]%elem_of_cons]%elem_of_cons;
      by vm_compute in Hc. }
  revert acc pending. induction s as [|a s IH]; intros acc pending Hp Hacc.
  - cbn [lossy_run]. destruct pending; set_solver.
  - assert (forall k : str, k = match utf8_lead a with
        | Some [] => a :: lossy_run [] [] s
        | Some p => lossy_run [a] p s
        | None => replacement ++ lossy_run [] [] s end -> c ∈ k <-> c ∈ a :: s) as Hstart.
    { intros k ->. destruct (utf8_lead a) as [[|r p]|] eqn:El.
      - rewrite !elem_of_cons, IH by (constructor || set_solver). done.
      - assert (c <> a) as Hne.
        { intros <-. rewrite utf8_lead_ascii in El by done. done. }
        pose proof (utf8_lead_above _ _ El). rewrite IH by set_solver. set_solver.
      - assert (c <> a) as Hne.
        { intros <-. rewrite utf8_lead_ascii in El by done. done. }
        rewrite elem_of_app, IH by (constructor || set_solver). set_solver. }
    cbn [lossy_run]. destruct pending as [|[lo hi] p]; [by apply Hstart|].
    apply Forall_cons in Hp as [Hlo Hp]. cbn in Hlo.
    destruct (in_range lo hi a) eqn:Er.
    + assert (c <> a) as Hne.
      { intros <-. unfold in_range in Er. apply andb_prop in Er as [Er _].
        apply N.leb_le in Er. lia. }
      destruct p as [|r p].
      * rewrite elem_of_app, !elem_of_cons, IH by (constructor || set_solver). set_solver.
      * rewrite IH by (done || set_solver). set_solver.
    + rewrite elem_of_app, (Hstart _ eq_refl). set_solver.
Qed.

Lemma lossy_ascii c s : (byte c <= 127)%N -> c ∈ to_string_lossy s <-> c ∈ s.
Proof. intros. apply lossy_run_ascii; [done|constructor|set_solver]. Qed.

(** What the syntax check promises. *)
Definition safe_syntax (p : str) : Prop :=
  is_absolute p = true /\ (nul ∉ p) /\ (ParentDir ∉ components p).

Lemma existsb_elem {A} `{EqDecision A} (x : A) l :
  existsb (fun y => bool_decide (y = x)) l = true <-> x ∈ l.
Proof.
  rewrite existsb_exists. setoid_rewrite bool_decide_eq_true.
  setoid_rewrite <- list_elem_of_In. naive_solver.
Qed.

Lemma validate_path_syntax_ok p b : validate_path_syntax p b = Ok tt <-> safe_syntax p.
Proof.
  unfold validate_path_syntax, safe_syntax.
  rewrite <- (existsb_elem ParentDir), <- (lossy_ascii nul p) by done.
  destruct (is_absolute p); cbn [negb]; [|naive_solver].
  unfold contains_char. destruct (bool_decide _) eqn:E; bool_prop; [naive_solver|].
  destruct (existsb _ _); naive_solver.
Qed.

Lemma path_starts_with_spec p base :
  path_starts_with p base = true <-> components base `prefix_of` components p.
Proof.
  unfold path_starts_with. generalize (components p), (components base). intros cs l.
  revert cs. induction l as [|a l IH]; intros cs.
  { split; [intros _; apply prefix_nil|done]. }
  destruct cs as [|b cs]; cbn.
  - split; [done|]. by intros [k ?].
  - destruct (decide (a = b)) as [->|Hne].
    + rewrite IH. split; [apply prefix_cons|apply prefix_cons_inv_2].
    + split; [done|]. by intros ?%prefix_cons_inv_1.
Qed.

Section roots_props.
Context `{R : Roots}.

(** A configured root the check accepts, with its canonical form. *)
Definition good_root (root canonical : str) : Prop :=
  safe_syntax root /\ realpath root = Ok canonical /\ is_dir canonical = true.

Lemma collect_roots_ok b allowed acc out :
  collect_roots b allowed acc = Ok out ->
  Forall (fun r => exists c, good_root r c) allowed /\
  forall cs, cs ∈ components <$> out <->
    cs ∈ components <$> acc \/ exists r c, r ∈ allowed /\ realpath r = Ok c /\ components c = cs.
Proof.
  revert acc. induction allowed as [|r allowed IH]; intros acc; cbn [collect_roots].
  { intros [= <-]. split; [done|]. intros cs. set_solver. }
  intros Hrun. destruct (validate_path_syntax r b) as [[]|] eqn:Es; [|done]. cbn in Hrun.
  apply validate_path_syntax_ok in Es.
  destruct (realpath r) as [c|] eqn:Er; cbn in Hrun; [|done].
  destruct (is_dir c) eqn:Ed; cbn in Hrun; [|done].
  assert (good_root r c) as Hg by done.
  destruct (existsb _ acc) eqn:Ex.
  - destruct (IH _ Hrun) as [Hall Hout]. split; [constructor; eauto|].
    assert (components c ∈ components <$> acc) as Hc.
    { apply existsb_exists in Ex as (r' & Hin & Heq). bool_prop. rewrite <- Heq.
      apply list_elem_of_fmap_2, list_elem_of_In, Hin. }
    intros cs. rewrite Hout. split; [intros [?|(r' & c' & ? & ? & ?)]; [by left|right]|].
    { exists r', c'. split; [by apply elem_of_cons; right|done]. }
    intros [?|(r' & c' & [->|?]%elem_of_cons & Hr' & <-)]; [by left| |right; by eauto].
    rewrite Er in Hr'. injection Hr' as <-. by left.
  - destruct (IH _ Hrun) as [Hall Hout]. split; [constructor; eauto|].
    intros cs. rewrite Hout, fmap_app, elem_of_app. cbn [fmap list_fmap]. rewrite list_elem_of_singleton.
    split; [intros [[?| ->]|(r' & c' & ? & ? & ?)]; [by left|right..]|].
    { exists r, c. split; [by apply elem_of_cons; left|done]. }
    { exists r', c'. split; [by apply elem_of_cons; right|done]. }
    intros [?|(r' & c' & [->|?]%elem_of_cons & Hr' & <-)]; [by left; left| |right; by eauto].
    rewrite Er in Hr'. injection Hr' as <-. by left; right.
Qed.

Lemma collect_roots_total b allowed acc :
  Forall (fun r => exists c, good_root r c) allowed -> exists out, collect_roots b allowed acc = Ok out.
Proof.
  intros Hall. revert acc. induction Hall as [|r allowed (c & Hs & Hr & Hd) Hall IH];
    intros acc; cbn [collect_roots]; [eauto|].
  rewrite (proj2 (validate_path_syntax_ok r b) Hs), Hr. cbn. rewrite Hd. cbn.
  destruct (existsb _ acc); apply IH.
Qed.

(** C23: [canonicalize_contained_path] succeeds exactly when the path and
    every configured root have safe syntax, every root resolves to a
    directory, there is at least one root, and the resolved path lies below
    one of the resolved roots; it then returns the resolved path, so a
    symbolic link cannot lead outside the allowed roots. *)
Theorem contained_path_exact (path : str) (allowed_roots : list str) (b c : str) :
  canonicalize_contained_path path allowed_roots b = Ok c <->
  safe_syntax path /\ realpath path = Ok c /\
  Forall (fun r => exists cr, good_root r cr) allowed_roots /\
  exists r cr, r ∈ allowed_roots /\ realpath r = Ok cr /\ components cr `prefix_of` components c.
Proof.
  unfold canonicalize_contained_path. split.
  - destruct (validate_path_syntax path b) as [[]|] eqn:Es; [|done]. cbn.
    apply validate_path_syntax_ok in Es.
    destruct (validate_allowed_roots allowed_roots b) as [roots|] eqn:Er; [|done]. cbn.
    assert (collect_roots b allowed_roots [] = Ok roots) as Hc
      by (unfold validate_allowed_roots in Er; by destruct allowed_roots).
    apply collect_roots_ok in Hc as [Hall Hroots].
    destruct (realpath path) as [cp|]; [cbn|done].
    destruct (existsb (path_starts_with cp) roots) eqn:Ex; intros [= <-].
    apply existsb_exists in Ex as (root & Hin & Hpre). apply path_starts_with_spec in Hpre.
    destruct (proj1 (Hroots (components root))) as [?%not_elem_of_nil|(r & cr & ? & ? & Heq)];
      [apply list_elem_of_fmap_2, list_elem_of_In, Hin|done|].
    do 3 (split; [done|]). exists r, cr. by rewrite Heq.
  - intros (Hs & Hp & Hall & r & cr & Hin & Hr & Hpre).
    rewrite (proj2 (validate_path_syntax_ok path b) Hs). cbn [rbind].
    destruct (collect_roots_total b _ [] Hall) as [roots Hroots].
    assert (validate_allowed_roots allowed_roots b = Ok roots) as ->.
    { unfold validate_allowed_roots. destruct allowed_roots; [by apply not_elem_of_nil in Hin|done]. }
    apply collect_roots_ok in Hroots as [_ Hroots]. cbn [rbind]. rewrite Hp. cbn.
    assert (components cr ∈ components <$> roots) as (root & Heq & Hroot)%list_elem_of_fmap
      by (apply Hroots; right; by exists r, cr).
    assert (existsb (path_starts_with c) roots = true) as ->; [|done].
    apply existsb_exists. exists root. split; [by apply list_elem_of_In|].
    apply path_starts_with_spec. by rewrite <- Heq.
Qed.

End roots_props.

(** ** Properties of roles *)

(** The loop stops at the first role that does not answer [false]. *)
Lemma first_member_spec lookup roles denied res :
  first_member lookup roles denied = res <->
  (Forall (fun q => lookup q = Ok false) roles /\ res = Err denied) \/
  exists pre r post, roles = pre ++ r :: post /\ Forall (fun q => lookup q = Ok false) pre /\
    ((lookup r = Ok true /\ res = Ok tt) \/ exists e, lookup r = Err e /\ res = Err e).
Proof.
  induction roles as [|r roles IH]; cbn [first_member].
  - split; [intros <-; by left|]. intros [[_ ->]|(pre & r & post & Heq & _)]; [done|].
    by destruct pre.
  - destruct (lookup r) as [[]|e] eqn:El; cbn [rbind].
    + split.
      * intros <-. right. exists [], r, roles. split_and!; [done..|left; done].
      * intros [[Hall _]|([|r' pre] & r'' & post & [= <- Heq] & Hpre & Hr)].
        { apply Forall_cons in Hall as [? _]. congruence. }
        { destruct Hr as [[_ ->]|(e & ? & _)]; congruence. }
        { apply Forall_cons in Hpre as [? _]. congruence. }
    + rewrite IH. split.
      * intros [[Hall ->]|(pre & r' & post & -> & Hpre & Hr)]; [left; auto|].
        right. exists (r :: pre), r', post. auto.
      * intros [[Hall ->]|([|r' pre] & r'' & post & [= <- Heq] & Hpre & Hr)].
        { left. apply Forall_cons in Hall as [_ ?]. done. }
        { destruct Hr as [[? _]|(e & ? & _)]; congruence. }
        { right. apply Forall_cons in Hpre as [_ ?]. subst. eauto 10. }
    + split.
      * intros <-. right. exists [], r, roles. split_and!; [done..|right; eauto].
      * intros [[Hall _]|([|r' pre] & r'' & post & [= <- Heq] & Hpre & Hr)].
        { apply Forall_cons in Hall as [? _]. congruence. }
        { destruct Hr as [[? _]|(e' & ? & ->)]; congruence. }
        { apply Forall_cons in Hpre as [? _]. congruence. }
Qed.

(** The ladder of the tiers; the dispatcher role stands outside it. *)
Definition role_tier (r : str) : option nat :=
  if decide (r = PGOKF_READER_ROLE) then Some 0
  else if decide (r = PGOKF_WRITER_ROLE) then Some 1
  else if decide (r = PGOKF_ADMIN_ROLE) then Some 2
  else None.

Definition operation_tier (op : Operation) : nat :=
  match op with
  | Search => 0
  | Ingest => 1
  | Register => 2
  end.

Definition holds_tier (m : str -> bool) (n : nat) : Prop :=
  exists r k, m r = true /\ role_tier r = Some k /\ n <= k.

Lemma role_tier_inv r k : role_tier r = Some k ->
  (r = PGOKF_READER_ROLE /\ k = 0) \/ (r = PGOKF_WRITER_ROLE /\ k = 1)
  \/ (r = PGOKF_ADMIN_ROLE /\ k = 2).
Proof. unfold role_tier. repeat case_decide; intros [= <-]; auto. Qed.

Lemma satisfying_roles_tier op r :
  r ∈ satisfying_roles op <-> exists k, role_tier r = Some k /\ operation_tier op <= k.
Proof.
  split.
  - destruct op; intros Hr; cbn [satisfying_roles] in Hr;
      repeat (apply elem_of_cons in Hr as [->|Hr]); try by apply not_elem_of_nil in Hr.
    all: eexists; split; [by vm_compute|cbn; lia].
  - intros (k & [[-> ->]|[[-> ->]|[-> ->]]]%role_tier_inv & Hk);
      destruct op; cbn in Hk; try lia; by_decide.
Qed.

(** Authorization follows the role ladder and fails closed: with role
    lookups that answer, an operation is allowed exactly to a session that
    holds a role of the operation's tier or a higher one (never through the
    dispatcher role), and is otherwise refused with SQLSTATE 42501 naming
    the minimum role; and with lookups that may fail, success means that
    one satisfying role answered true, and an error is the refusal or a
    lookup's own error carrying the caller's path. *)
Theorem authorize_exact (op : Operation) (p : str) :
  (forall m : str -> bool,
     (authorize op (fun r => Ok (m r)) p = Ok tt <-> holds_tier m (operation_tier op)) /\
     (~ holds_tier m (operation_tier op) ->
      authorize op (fun r => Ok (m r)) p =
        Err (insufficient_privilege
               (lit "operation requires membership in " ++ minimum_role op) p))) /\
  (forall lookup : RoleMembership,
     match authorize op lookup p with
     | Ok _ => exists r, r ∈ satisfying_roles op /\ lookup r = Ok true
     | Err e => bundle_path e = p /\
         ((kind e = InsufficientPrivilege /\ Forall (fun r => lookup r = Ok false) (satisfying_roles op))
          \/ exists r e', r ∈ satisfying_roles op /\ lookup r = Err e' /\
               kind e = kind e' /\ message e = message e')
     end).
Proof.
  split.
  - intros m. unfold authorize, holds_tier.
    assert (forall r, rmap_err (F := CatalogError) (fun e => new_error (kind e) (message e) p)
              (Ok (m r)) = Ok (m r)) as Hm by done.
    destruct (first_member _ _ _) as [[]|e] eqn:E; apply first_member_spec in E as
      [[Hall Heq]|(pre & r & post & Hroles & Hpre & [[Hr Heq]|(e' & ? & ?)])]; try done.
    + assert (r ∈ satisfying_roles op) as (k & Hk & Hle)%satisfying_roles_tier
        by (rewrite Hroles; set_solver). injection Hr as Hr.
      split; [split; [intros _; by exists r, k|done]|]. intros []. by exists r, k.
    + injection Heq as ->. assert (~ holds_tier m (operation_tier op)) as Hno.
      { intros (r & k & Hr & Hk & Hle). rewrite Forall_forall in Hall.
        assert (r ∈ satisfying_roles op) as Hin by (apply satisfying_roles_tier; eauto).
        specialize (Hall r Hin). cbn in Hall. congruence. }
      split; [split; [done|intros ?; by destruct Hno]|done].
  - intros lookup. unfold authorize.
    assert (forall r b, rmap_err (fun e => new_error (kind e) (message e) p) (lookup r) = Ok b ->
              lookup r = Ok b) as Hok by (intros r b; by destruct (lookup r)).
    destruct (first_member _ _ _) as [[]|e] eqn:E; apply first_member_spec in E as
      [[Hall Heq]|(pre & r & post & Hroles & Hpre & [[Hr Heq]|(e' & Hr & Heq)])]; try done.
    + exists r. split; [rewrite Hroles; set_solver|by apply Hok].
    + injection Heq as ->. split; [done|]. left. split; [done|].
      eapply Forall_impl; [exact Hall|]. intros q. apply Hok.
    + injection Heq as ->. destruct (lookup r) as [|e0] eqn:El; [done|]. injection Hr as <-.
      split; [done|]. right. exists r, e0. split_and!; [rewrite Hroles; set_solver|done..].
Qed.

(** ** Properties of tenants *)

(** The row-level-security predicate of the catalog tables
    ([USING] clause of [links_tenant_isolation] and its siblings). *)
Definition rls_visible (session : option str) (required : bool) (tenant_id : str) : bool :=
  (match session with None | Some [] => true | Some _ => false end && negb required)
  || match session with Some t => bool_decide (tenant_id = t) | None => false end.

Section backend_props.
Context `{B : Backend}.

(** The write-side tenant guard agrees with row-level security and
    leaks nothing: whatever the session's tenant context, a bundle with a
    non-empty owner may be changed exactly when the session sees it, and a
    session confined to a tenant gets one and the same answer, the
    unknown-bundle error, for every bundle it does not own, registered or
    not. *)
Theorem bundle_tenant_guard (b : Z) (session : option str) (required : option bool)
    (owner : option str) (Hrow : bundle_tenant_row b = Ok (session, required, owner)) :
  (forall t, owner = Some t -> t <> [] ->
     (enforce_bundle_tenant b = Ok tt <-> rls_visible session (default false required) t = true)) /\
  (forall a, session = Some a -> a <> [] -> owner <> Some a ->
     enforce_bundle_tenant b = Err (unknown_bundle_error b)) /\
  (default false required = true -> session = None \/ session = Some [] ->
     enforce_bundle_tenant b = Err tenant_required_error).
Proof.
  unfold enforce_bundle_tenant, read_bundle_tenant_context. rewrite Hrow. cbn.
  unfold is_denied, is_unscoped, tenant_permits, rls_visible. cbn. split_and!.
  - intros t -> Ht. destruct session as [[|c a]|], required as [[]|]; cbn;
      repeat case_bool_decide; naive_solver.
  - intros a -> Ha Ho. destruct a as [|c a]; [done|]. cbn. by rewrite bool_decide_false.
  - by intros -> [-> | ->].
Qed.

(** The ingestion tier never runs unscoped in a catalog that requires
    tenants: a success of [authorize_current_user Ingest] implies a writer
    or admin membership, and a session tenant or a policy that is off. *)
Theorem ingest_scoped (p : str) (Hok : authorize_current_user Ingest p = Ok tt) :
  (exists r, (r = PGOKF_WRITER_ROLE \/ r = PGOKF_ADMIN_ROLE) /\ pg_has_role r = Ok (Some true)) /\
  (exists session required, session_tenant_row = Ok (session, required) /\
     (default false required = true -> exists t, session = Some t /\ t <> [])).
Proof.
  unfold authorize_current_user in Hok. rewrite decide_True in Hok by done.
  destruct (authorize _ _ _) as [[]|] eqn:Ea; [|done]. cbn in Hok. split.
  - apply first_member_spec in Ea as
      [[_ ?]|(pre & r & post & Hroles & _ & [[Hr _]|(e & _ & ?)])]; [done| |done].
    assert (r ∈ satisfying_roles Ingest) as Hin by (rewrite Hroles; set_solver).
    exists r. split; [cbn [satisfying_roles] in Hin; set_solver|].
    unfold is_member_of in Hr. destruct (decide _); [|done].
    destruct (pg_has_role r) as [[[]|]|]; naive_solver.
  - unfold enforce_active_tenant, read_tenant_context in Hok.
    destruct session_tenant_row as [[session required]|]; [|done]. cbn in Hok.
    exists session, required. split; [done|]. intros Hreq. rewrite Hreq in Hok.
    unfold is_denied, is_unscoped in Hok. cbn in Hok.
    destruct session as [[|c t]|]; [done| |done]. eauto.
Qed.

End backend_props.

(** ** A concrete session *)

Module Session.

(** A writer of the tenant [acme] in a catalog that requires tenants;
    bundle 1 is acme's, bundle 2 another tenant's. *)
#[export] Instance writer : Backend := {|
  spi_error := unit;
  spi_error_text := fun _ => [];
  pg_has_role := fun r => Ok (Some (bool_decide (r = PGOKF_WRITER_ROLE)));
  bundle_tenant_row := fun b =>
    Ok (Some (lit "acme"), Some true,
        if decide (b = 1%Z) then Some (lit "acme")
        else if decide (b = 2%Z) then Some (lit "umbrella") else None);
  session_tenant_row := Ok (Some (lit "acme"), Some true)
|}.

End Session.

Lemma bundle_tenant_guard_witness :
  enforce_bundle_tenant (B := Session.writer) 1 = Ok tt /\
  enforce_bundle_tenant (B := Session.writer) 2 = Err (unknown_bundle_error 2).
Proof.
  split.
  - by apply (proj1 (bundle_tenant_guard (B := Session.writer) 1 (Some (lit "acme")) (Some true)
      (Some (lit "acme")) eq_refl) (lit "acme")).
  - by apply (proj1 (proj2 (bundle_tenant_guard (B := Session.writer) 2 (Some (lit "acme"))
      (Some true) (Some (lit "umbrella")) eq_refl)) (lit "acme")).
Defined.

Lemma ingest_scoped_witness :
  exists r, (r = PGOKF_WRITER_ROLE \/ r = PGOKF_ADMIN_ROLE) /\
    pg_has_role (Backend := Session.writer) r = Ok (Some true).
Proof. apply (ingest_scoped (B := Session.writer) []). by vm_compute. Defined.
