(* ===== verification/Neighbors.v ===== *)
(** * Graph traversal ([extension/src/catalog/neighbors.rs])

    [breadth_first_neighbors] is the traversal core over an injected edge
    lookup; [concept_neighbors_impl] is the whole entry point over the class
    [LinkCatalog], the queries of the file.  [Tables] implements that class
    by the queries' SQL over the rows the session sees.  Hop counts are
    [i32]: an overflowing increment, like a failed [expect], is [Panic]. *)
From stdpp Require Import prelude strings gmap list sorting.
From Stdlib Require Import Ascii ZArith Lia.
From S2P Require Import Prelude Str BTree CatalogError Security.

Definition i32_max : Z := (2 ^ 31 - 1)%Z.

Record NeighborHit : Type := {
  source_id : str;
  neighbor_id : str;
  hops : Z;
  path : list str;
  title : option str
}.

Record VisitRecord : Type := {
  v_hops : Z;
  v_path : list str
}.

(** ** The traversal core *)

Abbreviation Visited := (gmap str VisitRecord).

(** One edge of a level: [(visited, discovered, next)] after it. *)
Definition edge_step (seed : str) (hop : Z) (st : Visited * list str * list str) (edge : str * str)
  : Visited * list str * list str :=
  let '(visited, discovered, next) := st in
  let '(source, target) := edge in
  match visited !! target with
  | Some _ => st
  | None =>
      let path := match visited !! source with
                  | Some record => v_path record
                  | None => [seed]
                  end in
      (<[target := {| v_hops := hop; v_path := path ++ [target] |}]> visited,
       discovered ++ [target], next ++ [target])
  end.

Section bfs.
Context {E : Type} (edges_from : list str -> result (list (str * str)) E).

(** The [while] loop, one unit of fuel per test of its condition. *)
Fixpoint bfs_loop (fuel : nat) (seed : str) (max_hops hop : Z)
    (visited : Visited) (discovered frontier : list str)
  : outcome (result (Visited * list str) E) :=
  match fuel with
  | 0 => Panic
  | S fuel' =>
      if (hop <=? max_hops)%Z && negb (bool_decide (frontier = [])) then
        match edges_from frontier with
        | Err e => Ret (Err e)
        | Ok edges =>
            let '(visited', discovered', next) :=
              fold_left (edge_step seed hop) edges (visited, discovered, []) in
            if (hop =? i32_max)%Z then Panic
            else bfs_loop fuel' seed max_hops (hop + 1) visited' discovered' next
        end
      else Ret (Ok (visited, discovered))
  end.

(** [visited.remove(&id).expect(..)] for every discovered neighbor. *)
Fixpoint detach (visited : Visited) (discovered : list str) : outcome (list (str * VisitRecord)) :=
  match discovered with
  | [] => Ret []
  | id :: rest =>
      match visited !! id with
      | None => Panic
      | Some record => obind (detach (delete id visited) rest) (fun l => Ret ((id, record) :: l))
      end
  end.

Definition breadth_first_neighbors (seed : str) (max_hops : Z)
  : outcome (result (list (str * VisitRecord)) E) :=
  obind (bfs_loop (S (Z.to_nat max_hops)) seed max_hops 1
           {[seed := {| v_hops := 0; v_path := [seed] |}]} [] [seed])
    (fun r => match r with
              | Err e => Ret (Err e)
              | Ok (visited, discovered) => obind (detach visited discovered) (fun l => Ret (Ok l))
              end).

End bfs.

(** ** The entry point *)

Definition cap_max_hops (max_hops ceiling : Z) : result Z CatalogError :=
  if (max_hops <? 1)%Z then
    Err (invalid_parameter (lit "max_hops must be at least 1, got " ++ show_Z max_hops) [])
  else Ok (Z.min max_hops (Z.max ceiling 1)).

(** The queries of the file and the setting [pgokf.max_graph_hops]. *)
Class LinkCatalog : Type := {
  guc_max_graph_hops : Z;
  (** ids of the active bundles that hold the concept, in order *)
  concept_bundles : str -> result (list Z) CatalogError;
  (** the resolved internal out-edges of a frontier *)
  expand_frontier : Z -> list str -> result (list (str * str)) CatalogError;
  fetch_neighbor_titles : Z -> list str -> result (gmap str (option str)) CatalogError
}.

(** [guc.rs]: a negative setting counts as zero. *)
Definition to_limit (value : Z) : Z := if (value <? 0)%Z then 0%Z else value.

Definition hit_le (a b : NeighborHit) : bool :=
  (hops a <? hops b)%Z
  || ((hops a =? hops b)%Z
      && match kcmp (neighbor_id a) (neighbor_id b) with Gt => false | _ => true end).

(** [hits.sort_by(..)]. *)
Definition sort_hits (l : list NeighborHit) : list NeighborHit := sort_by hit_le l.

Section catalog.
Context `{C : LinkCatalog} `{B : Backend}.

Definition effective_max_hops (max_hops : Z) : result Z CatalogError :=
  let limit := to_limit guc_max_graph_hops in
  cap_max_hops max_hops (if (limit <=? i32_max)%Z then limit else i32_max).

Definition resolve_bundle_scope (concept_id : str) (bundle_id : option Z)
  : result (option Z) CatalogError :=
  match bundle_id with
  | Some explicit => Ok (Some explicit)
  | None =>
      let? bundles := concept_bundles concept_id in
      match bundles with
      | [] => Ok None
      | [single] => Ok (Some single)
      | many => Err (invalid_parameter
          (lit "concept_id '" ++ concept_id ++ lit "' exists in "
             ++ show_Z (Z.of_nat (length many)) ++ lit " bundles; pass bundle_id to disambiguate") [])
      end
  end.

Definition read_neighbor_rows (bundle_id : Z) (concept_id : str) (max_hops : Z)
  : outcome (result (list NeighborHit) CatalogError) :=
  obind (breadth_first_neighbors (expand_frontier bundle_id) concept_id max_hops) (fun r => Ret
    (let? visits := r in
     match visits with
     | [] => Ok []
     | _ =>
         let? titles := fetch_neighbor_titles bundle_id visits.*1 in
         Ok (sort_hits (omap (fun '(id, record) =>
               title ← titles !! id;
               Some {| source_id := concept_id; neighbor_id := id; hops := v_hops record;
                       path := v_path record; title := title |}) visits))
     end)).

Definition concept_neighbors_impl (concept_id : str) (max_hops : Z) (bundle_id : option Z)
  : outcome (result (list NeighborHit) CatalogError) :=
  match (let? _ := authorize_current_user Search [] in
         let? hops := effective_max_hops max_hops in
         let? scope := resolve_bundle_scope concept_id bundle_id in
         Ok (hops, scope)) with
  | Err e => Ret (Err e)
  | Ok (_, None) => Ret (Ok [])
  | Ok (hops, Some scope) => read_neighbor_rows scope concept_id hops
  end.

End catalog.

(** ** The queries over the tables *)

Module Tables.

Record bundle_row : Type := { b_id : Z; b_enabled : bool; b_retired : bool }.
Record link_row : Type := {
  l_bundle : Z; l_source : str; l_target : option str; l_resolved : bool; l_external : bool
}.
Record concept_row : Type := { c_bundle : Z; c_id : str; c_title : option str }.

(** The rows the session sees, the setting, and the two sorts of [ORDER BY]
    (text sorts by the database's collation). *)
Record db : Type := {
  bundles : list bundle_row;
  links : list link_row;
  concepts : list concept_row;
  max_graph_hops : Z;
  order_edges : list (str * option str) -> list (str * option str);
  order_ids : list Z -> list Z
}.

Definition active (d : db) (id : Z) : Prop :=
  Exists (fun b => b_id b = id /\ b_enabled b = true /\ b_retired b = false) (bundles d).

#[export] Instance active_dec d id : Decision (active d id).
Proof. apply _. Defined.

(** [EDGE_QUERY]. *)
Definition edge_query (d : db) (bundle : Z) (frontier : list str) : list (str * option str) :=
  order_edges d (remove_dups ((fun l => (l_source l, l_target l)) <$>
    filter (fun l => active d (l_bundle l) /\ l_bundle l = bundle /\ l_source l ∈ frontier
                     /\ l_resolved l = true /\ l_external l = false) (links d))).

(** A row of the edge query; both columns are required. *)
Definition read_edge (row : str * option str) : result (str * str) CatalogError :=
  match row.2 with
  | Some t => Ok (row.1, t)
  | None => Err (internal (lit "neighbor edge column target_id is unexpectedly NULL") [])
  end.

(** Rows in turn; the primary key [(bundle_id, id)] leaves one per concept. *)
Definition title_map (d : db) (bundle : Z) (ids : list str) : gmap str (option str) :=
  fold_left (fun m c => <[c_id c := c_title c]> m)
    (filter (fun c => c_bundle c = bundle /\ c_id c ∈ ids) (concepts d)) ∅.

#[export] Instance catalog (d : db) : LinkCatalog := {|
  guc_max_graph_hops := max_graph_hops d;
  concept_bundles := fun concept_id =>
    Ok (order_ids d (remove_dups (c_bundle <$>
      filter (fun c => active d (c_bundle c) /\ c_id c = concept_id) (concepts d))));
  expand_frontier := fun bundle frontier => rmap_list read_edge (edge_query d bundle frontier);
  fetch_neighbor_titles := fun bundle ids => Ok (title_map d bundle ids)
|}.

End Tables.

(** ** Walks *)

(** [walk edge s p t]: [p] lists the nodes of a walk from [s] to [t]. *)
Inductive walk (edge : str -> str -> Prop) (s : str) : list str -> str -> Prop :=
| walk_nil : walk edge s [s] s
| walk_snoc p u v : walk edge s p u -> edge u v -> walk edge s (p ++ [v]) v.

(** The shortest-path promise for one neighbour: a walk of [v_hops] edges,
    and no walk is shorter. *)
Definition shortest (edge : str -> str -> Prop) (s n : str) (r : VisitRecord) : Prop :=
  walk edge s (v_path r) n /\ Z.of_nat (length (v_path r)) = (v_hops r + 1)%Z /\
  forall p, walk edge s p n -> (v_hops r + 1 <= Z.of_nat (length p))%Z.

Lemma walk_length edge s p t : walk edge s p t -> 1 <= length p.
Proof. destruct 1; [done|]. rewrite length_app. cbn. lia. Qed.

(** ** The level invariant *)

Section bfs_props.
Context {E : Type} (edges_from : list str -> result (list (str * str)) E).
Context (edge : str -> str -> Prop).
Context (Hedges : forall f es, edges_from f = Ok es ->
  forall s t, (s, t) ∈ es <-> s ∈ f /\ edge s t).

(** Before the level of hop count [h]. *)
Record level (seed : str) (h : Z) (V : Visited) (D F : list str) : Prop := {
  lv_seed : V !! seed = Some {| v_hops := 0; v_path := [seed] |};
  lv_walk n r : V !! n = Some r ->
    walk edge seed (v_path r) n /\ Z.of_nat (length (v_path r)) = (v_hops r + 1)%Z /\
    (0 <= v_hops r < h)%Z;
  lv_reach n p : walk edge seed p n -> (Z.of_nat (length p) <= h)%Z ->
    exists r, V !! n = Some r /\ (v_hops r + 1 <= Z.of_nat (length p))%Z;
  lv_frontier n : n ∈ F <-> exists r, V !! n = Some r /\ v_hops r = (h - 1)%Z;
  lv_nodup : NoDup D;
  lv_found n : n ∈ D <-> n <> seed /\ is_Some (V !! n)
}.

Lemma level_init seed : level seed 1 {[seed := {| v_hops := 0; v_path := [seed] |}]} [] [seed].
Proof.
  split.
  - by rewrite lookup_singleton_eq.
  - intros n r [<- <-]%lookup_singleton_Some. cbn. split; [constructor|lia].
  - intros n p Hw Hl. inversion Hw as [|p' u v Hw' He]; subst.
    + rewrite lookup_singleton_eq. eexists. split; [done|]. cbn. lia.
    + apply walk_length in Hw'. rewrite length_app in Hl. cbn in Hl. lia.
  - intros n. rewrite list_elem_of_singleton. split.
    + intros ->. rewrite lookup_singleton_eq. eauto.
    + by intros (r & [<- _]%lookup_singleton_Some & _).
  - constructor.
  - intros n. split; [by intros ?%not_elem_of_nil|].
    intros [Hne [r [? _]%lookup_singleton_Some]]. congruence.
Qed.

(** While the edges of a level are processed: what [V'] adds to [V]. *)
Record midway (seed : str) (h : Z) (V : Visited) (D F : list str) (done : list (str * str))
    (V' : Visited) (D' N : list str) : Prop := {
  mw_sub : V ⊆ V';
  mw_new n r : V !! n = None -> V' !! n = Some r ->
    v_hops r = h /\ walk edge seed (v_path r) n /\
    Z.of_nat (length (v_path r)) = (h + 1)%Z;
  mw_next n : n ∈ N <-> V !! n = None /\ is_Some (V' !! n);
  mw_done s t : (s, t) ∈ done -> is_Some (V' !! t);
  mw_nodup : NoDup D';
  mw_found n : n ∈ D' <-> n <> seed /\ is_Some (V' !! n)
}.

Lemma midway_step seed h V D F past s t V' D' N :
  level seed h V D F -> s ∈ F -> edge s t -> midway seed h V D F past V' D' N ->
  let '(V'', D'', N') := edge_step seed h (V', D', N) (s, t) in
  midway seed h V D F (past ++ [(s, t)]) V'' D'' N'.
Proof.
  intros L Hs He M. unfold edge_step. destruct (V' !! t) as [rt|] eqn:Et.
  - split; try apply M. intros s' t' [?|[= -> ->]%list_elem_of_singleton]%elem_of_app.
    + by eapply mw_done.
    + by rewrite Et.
  - apply (lv_frontier _ _ _ _ _ L) in Hs as (rs & Hrs & Hh).
    destruct (lv_walk _ _ _ _ _ L _ _ Hrs) as (Hw & Hlen & _).
    rewrite (lookup_weaken _ _ _ _ Hrs (mw_sub _ _ _ _ _ _ _ _ _ M)).
    assert (V !! t = None) as HtV.
    { destruct (V !! t) eqn:HtV; [|done].
      by rewrite (lookup_weaken _ _ _ _ HtV (mw_sub _ _ _ _ _ _ _ _ _ M)) in Et. }
    split.
    + etrans; [apply M|]. by apply insert_subseteq.
    + intros n r Hn [[<- <-]|[Hne Hr]]%lookup_insert_Some; [|by eapply mw_new].
      cbn. split; [done|]. split; [by econstructor|]. rewrite length_app. cbn. lia.
    + intros n. rewrite elem_of_app, list_elem_of_singleton, (mw_next _ _ _ _ _ _ _ _ _ M).
      destruct (decide (n = t)) as [->|Hne].
      * rewrite lookup_insert_eq. split; [by eauto|by right].
      * rewrite lookup_insert_ne by done. naive_solver.
    + intros s' t' [Hd|[= -> ->]%list_elem_of_singleton]%elem_of_app.
      * apply lookup_insert_is_Some'. right. by eapply mw_done.
      * by rewrite lookup_insert_eq.
    + apply NoDup_app. split_and!; [apply M| |apply NoDup_singleton].
      intros x Hx ->%list_elem_of_singleton.
      apply (mw_found _ _ _ _ _ _ _ _ _ M) in Hx as [_ Hx]. rewrite Et in Hx. by destruct Hx.
    + intros n. rewrite elem_of_app, list_elem_of_singleton, (mw_found _ _ _ _ _ _ _ _ _ M).
      rewrite lookup_insert_is_Some'. split; [|naive_solver].
      intros [[? ?]| ->]; [by auto|]. split; [|by left].
      intros ->. by rewrite (lv_seed _ _ _ _ _ L) in HtV.
Qed.

Lemma midway_fold seed h V D F es past V' D' N :
  level seed h V D F -> (forall s t, (s, t) ∈ es -> s ∈ F /\ edge s t) ->
  midway seed h V D F past V' D' N ->
  let '(V'', D'', N') := fold_left (edge_step seed h) es (V', D', N) in
  midway seed h V D F (past ++ es) V'' D'' N'.
Proof.
  intros L. revert past V' D' N. induction es as [|[s t] es IH]; intros past V' D' N Hes M.
  - cbn. by rewrite app_nil_r.
  - cbn [fold_left]. destruct (Hes s t) as [Hs He]; [by left|].
    pose proof (midway_step _ _ _ _ _ _ _ _ _ _ _ L Hs He M) as M'.
    destruct (edge_step seed h (V', D', N) (s, t)) as [[V'' D''] N'].
    rewrite cons_middle, app_assoc. apply IH; [|done]. intros s' t' ?. apply Hes. by right.
Qed.

Lemma level_next seed h V D F es :
  level seed h V D F -> edges_from F = Ok es ->
  let '(V', D', N) := fold_left (edge_step seed h) es (V, D, []) in
  level seed (h + 1) V' D' N.
Proof.
  intros L Hes.
  assert (midway seed h V D F [] V D []) as M0.
  { split; try apply L; [done|intros; congruence| |].
    - intros n. split; [by intros ?%not_elem_of_nil|]. intros [Hn Hs]. rewrite Hn in Hs. by destruct Hs.
    - by intros s t ?%not_elem_of_nil. }
  pose proof (midway_fold _ _ _ _ _ es _ _ _ _ L
    (fun s t => proj1 (Hedges _ _ Hes s t)) M0) as M.
  destruct (fold_left _ es _) as [[V' D'] N]. cbn [app] in M.
  assert (0 < h)%Z as Hh by (pose proof (lv_walk _ _ _ _ _ L _ _ (lv_seed _ _ _ _ _ L)); cbn in *; lia).
  assert (forall n r, V' !! n = Some r -> V !! n = Some r \/ (V !! n = None /\ v_hops r = h)) as Hsplit.
  { intros n r Hr. destruct (V !! n) as [r'|] eqn:HV.
    - left. by rewrite (lookup_weaken _ _ _ _ HV (mw_sub _ _ _ _ _ _ _ _ _ M)) in Hr.
    - right. split; [done|]. by eapply mw_new. }
  split.
  - eapply lookup_weaken; [apply L|apply M].
  - intros n r Hr. destruct (V !! n) as [r'|] eqn:HV.
    + rewrite (lookup_weaken _ _ _ _ HV (mw_sub _ _ _ _ _ _ _ _ _ M)) in Hr. injection Hr as <-.
      destruct (lv_walk _ _ _ _ _ L _ _ HV) as (? & ? & ?). split_and!; [done..| |]; lia.
    + destruct (mw_new _ _ _ _ _ _ _ _ _ M _ _ HV Hr) as (? & ? & ?). split_and!; [done|lia..].
  - intros n p Hw Hl. destruct (decide (Z.of_nat (length p) <= h)%Z) as [Hle|Hgt].
    { destruct (lv_reach _ _ _ _ _ L _ _ Hw Hle) as (r & Hr & ?). exists r.
      split; [|done]. eapply lookup_weaken; [done|apply M]. }
    destruct (V' !! n) as [r|] eqn:Hr.
    { exists r. split; [done|]. destruct (Hsplit _ _ Hr) as [HV|[_ ->]]; [|lia].
      pose proof (lv_walk _ _ _ _ _ L _ _ HV). lia. }
    exfalso. inversion Hw as [|p' u v Hw' He]; subst; [cbn in Hgt; lia|].
    rewrite length_app in Hl, Hgt. cbn in Hl, Hgt.
    destruct (lv_reach _ _ _ _ _ L u p' Hw') as (ru & Hru & Hle); [lia|].
    destruct (lv_walk _ _ _ _ _ L _ _ Hru) as (Hwu & Hlu & _).
    destruct (decide (v_hops ru = h - 1)%Z) as [Heq|Hne].
    + assert (u ∈ F) as HuF by (apply (lv_frontier _ _ _ _ _ L); eauto).
      assert ((u, n) ∈ es) as Hin by (apply (Hedges _ _ Hes); done).
      destruct (mw_done _ _ _ _ _ _ _ _ _ M _ _ Hin) as [? ?]. congruence.
    + destruct (lv_reach _ _ _ _ _ L n (v_path ru ++ [n])) as (rn & Hrn & _).
      * by econstructor.
      * rewrite length_app. cbn. lia.
      * by rewrite (lookup_weaken _ _ _ _ Hrn (mw_sub _ _ _ _ _ _ _ _ _ M)) in Hr.
  - intros n. rewrite (mw_next _ _ _ _ _ _ _ _ _ M). split.
    + intros [HV [r Hr]]. exists r. split; [done|]. destruct (mw_new _ _ _ _ _ _ _ _ _ M _ _ HV Hr). lia.
    + intros (r & Hr & Hhr). destruct (Hsplit _ _ Hr) as [HV|[HV _]]; [|by eauto].
      pose proof (lv_walk _ _ _ _ _ L _ _ HV). lia.
  - apply M.
  - apply M.
Qed.

(** An empty frontier means that every reachable node has been visited. *)
Lemma level_closed seed h V D n p :
  level seed h V D [] -> walk edge seed p n ->
  exists r, V !! n = Some r /\ (v_hops r + 1 <= Z.of_nat (length p))%Z.
Proof.
  intros L. induction 1 as [|p u v Hw (ru & Hru & Hle) He].
  - eexists. split; [apply L|]. cbn. lia.
  - destruct (lv_walk _ _ _ _ _ L _ _ Hru) as (Hwu & Hlu & Hlt).
    assert (v_hops ru <> h - 1)%Z as Hne.
    { intros Heq. assert (u ∈ []) as ?%not_elem_of_nil; [|done].
      apply (lv_frontier _ _ _ _ _ L). eauto. }
    destruct (lv_reach _ _ _ _ _ L v (v_path ru ++ [v])) as (rv & Hrv & Hlv).
    + by econstructor.
    + rewrite length_app. cbn. lia.
    + exists rv. split; [done|]. rewrite length_app in *. cbn in *. lia.
Qed.

End bfs_props.

Section bfs_results.
Context {E : Type} (edges_from : list str -> result (list (str * str)) E).
Context (edge : str -> str -> Prop).
Context (Hedges : forall f es, edges_from f = Ok es ->
  forall s t, (s, t) ∈ es <-> s ∈ f /\ edge s t).

(** The loop ends within its fuel, at the last level or with no frontier. *)
Lemma bfs_loop_ok seed m h V D F :
  level edge seed h V D F -> (h <= m + 1)%Z -> (m < i32_max)%Z ->
  exists r, bfs_loop edges_from (S (Z.to_nat (m + 1 - h))) seed m h V D F = Ret r /\
    match r with
    | Err e => exists f, edges_from f = Err e
    | Ok (V', D') => exists h' F', level edge seed h' V' D' F' /\ (h' <= m + 1)%Z /\
        (h' = m + 1 \/ F' = [])%Z
    end.
Proof.
  intros L Hh Hm. remember (Z.to_nat (m + 1 - h)) as k eqn:Hk.
  revert h V D F L Hh Hk. induction k as [|k IH]; intros h V D F L Hh Hk; cbn [bfs_loop].
  - assert (h = m + 1)%Z as -> by lia. rewrite (proj2 (Z.leb_gt _ _)) by lia. cbn.
    eexists. split; [done|]. cbn. eauto 10.
  - rewrite (proj2 (Z.leb_le h m)) by lia. cbn [andb]. case_bool_decide as HF; cbn [negb].
    { eexists. split; [done|]. cbn. subst F. eauto 10. }
    destruct (edges_from F) as [es|e] eqn:Hes; [|eexists; split; [done|cbn; eauto]].
    pose proof (level_next _ _ Hedges _ _ _ _ _ _ L Hes) as L'.
    destruct (fold_left _ es _) as [[V' D'] N].
    rewrite (proj2 (Z.eqb_neq h i32_max)) by lia. apply IH; [done|lia..].
Qed.

Lemma detach_ok V D :
  NoDup D -> (forall n, n ∈ D -> is_Some (V !! n)) ->
  exists l, detach V D = Ret l /\ l.*1 = D /\ forall n r, (n, r) ∈ l -> V !! n = Some r.
Proof.
  intros Hnd. revert V. induction Hnd as [|n D Hn Hnd IH]; intros V Hin; cbn [detach].
  - exists []. split_and!; [done..|]. by intros ? ? ?%not_elem_of_nil.
  - destruct (Hin n) as [r Hr]; [by left|]. rewrite Hr.
    destruct (IH (delete n V)) as (l & -> & Hl & Hin').
    { intros n' Hn'. rewrite lookup_delete_ne; [apply Hin; by right|]. by intros ->. }
    exists ((n, r) :: l). cbn. split_and!; [done|by rewrite Hl|].
    intros n' r' [[= -> ->]|Hn']%elem_of_cons; [done|].
    apply Hin', lookup_delete_Some in Hn' as [_ ?]. done.
Qed.

(** What a traversal of at most [m] hops returns. *)
Record neighborhood (seed : str) (m : Z) (visits : list (str * VisitRecord)) : Prop := {
  nb_nodup : NoDup visits.*1;
  nb_members n : n ∈ visits.*1 <->
    n <> seed /\ exists p, walk edge seed p n /\ (Z.of_nat (length p) <= m + 1)%Z;
  nb_shortest n r : (n, r) ∈ visits -> shortest edge seed n r /\ (1 <= v_hops r <= m)%Z
}.

Lemma bfs_neighborhood seed m :
  (0 <= m < i32_max)%Z ->
  exists r, breadth_first_neighbors edges_from seed m = Ret r /\
    match r with
    | Err e => exists f, edges_from f = Err e
    | Ok visits => neighborhood seed m visits
    end.
Proof.
  intros [Hm Hmax]. unfold breadth_first_neighbors.
  destruct (bfs_loop_ok seed m 1 _ _ _ (level_init edge seed)) as (r & Hr & Hspec); [lia..|].
  replace (m + 1 - 1)%Z with m in Hr by lia. rewrite Hr. cbn [obind].
  destruct r as [[V D]|e]; [|by exists (Err e)].
  destruct Hspec as (h & F & L & Hh & Hend).
  destruct (detach_ok V D) as (l & Hl & HD & Hlook); [apply L| |].
  { intros n Hn. by apply (lv_found _ _ _ _ _ _ L) in Hn as [_ ?]. }
  rewrite Hl. cbn [obind]. exists (Ok l). split; [done|].
  assert (forall n p, walk edge seed p n -> (Z.of_nat (length p) <= m + 1)%Z \/ F = [] ->
            exists r, V !! n = Some r /\ (v_hops r + 1 <= Z.of_nat (length p))%Z) as Hall.
  { intros n p Hw Hlen. destruct (decide (F = [])) as [->|HF]; [by eapply level_closed|].
    destruct Hend as [->|?], Hlen as [?|?]; try done. by eapply lv_reach. }
  split.
  - rewrite HD. apply L.
  - intros n. rewrite HD, (lv_found _ _ _ _ _ _ L). split.
    + intros [Hne [r Hr']]. split; [done|]. exists (v_path r).
      destruct (lv_walk _ _ _ _ _ _ L _ _ Hr') as (? & ? & ?). split; [done|lia].
    + intros (Hne & p & Hw & Hlen). split; [done|].
      destruct (Hall n p) as (r & Hr' & _); [done|by left|]. by rewrite Hr'.
  - intros n r Hnr. pose proof (Hlook _ _ Hnr) as HV.
    destruct (lv_walk _ _ _ _ _ _ L _ _ HV) as (Hw & Hlen & Hhop).
    assert (n ∈ D) as Hn by (rewrite <- HD; apply list_elem_of_fmap; by exists (n, r)).
    assert (n <> seed) as Hne by (by apply (lv_found _ _ _ _ _ _ L) in Hn as [? _]).
    split; [split_and!; [done|lia|]|].
    + intros p Hp. destruct (decide (Z.of_nat (length p) <= m + 1)%Z) as [?|?]; [|lia].
      destruct (Hall n p) as (r' & Hr' & ?); [done|by left|]. congruence.
    + split; [|lia]. destruct (decide (v_hops r = 0)%Z) as [H0|]; [exfalso|lia].
      inversion Hw as [Heq|p u v Hw' He Heq]; [congruence|]. apply walk_length in Hw'.
      rewrite <- Heq, length_app in Hlen. cbn in Hlen. lia.
Qed.

End bfs_results.

(** The breadth-first core terminates without panicking for every bound
    below the [i32] maximum, and unless an edge query fails it returns each
    concept other than the seed that some walk of at most [m] edges reaches,
    once, with the length of a shortest walk and such a walk as its path. *)
Theorem bfs_shortest {E} (edges_from : list str -> result (list (str * str)) E)
    (edge : str -> str -> Prop) (seed : str) (m : Z)
    (Hedges : forall f es, edges_from f = Ok es ->
       forall s t, (s, t) ∈ es <-> s ∈ f /\ edge s t)
    (Hm : (0 <= m < i32_max)%Z) :
  exists r, breadth_first_neighbors edges_from seed m = Ret r /\
    match r with
    | Err e => exists f, edges_from f = Err e
    | Ok visits =>
        NoDup visits.*1 /\
        (forall n, n ∈ visits.*1 <->
           n <> seed /\ exists p, walk edge seed p n /\ (Z.of_nat (length p) <= m + 1)%Z) /\
        (forall n rec, (n, rec) ∈ visits -> shortest edge seed n rec)
    end.
Proof.
  destruct (bfs_neighborhood edges_from edge Hedges seed m Hm) as (r & -> & Hr).
  exists r. split; [done|]. destruct r as [visits|]; [|done].
  split_and!; [apply Hr..|]. intros n rec Hin. by apply (nb_shortest _ _ _ _ Hr).
Qed.

(** ** The entry point against the catalog's promise *)

(** What the queries promise: per bundle an edge relation and titles, and a
    setting in the range it is registered with. *)
Class LinkGraph (C : LinkCatalog) : Type := {
  cat_edge : Z -> str -> str -> Prop;
  cat_title : Z -> str -> option (option str);
  cat_edge_law b f es : expand_frontier b f = Ok es ->
    forall s t, (s, t) ∈ es <-> s ∈ f /\ cat_edge b s t;
  cat_title_law b ids m : fetch_neighbor_titles b ids = Ok m ->
    forall id, id ∈ ids -> m !! id = cat_title b id;
  cat_guc_range : (1 <= guc_max_graph_hops <= 1000)%Z
}.

(** The order of the result: hop count, then identifier. *)
Definition hit_order (a b : NeighborHit) : Prop :=
  (hops a < hops b)%Z \/ (hops a = hops b /\ kcmp (neighbor_id a) (neighbor_id b) <> Gt).

#[export] Instance hit_order_trans : Transitive hit_order.
Proof.
  intros a b c [Hab|[Hab Hab']] [Hbc|[Hbc Hbc']]; [left; lia|left; lia|left; lia|right].
  split; [lia|]. intros Hgt. destruct (kcmp (neighbor_id a) (neighbor_id b)) eqn:E1; [| |done].
  - apply kcmp_eq in E1. by rewrite E1 in Hgt.
  - destruct (kcmp (neighbor_id b) (neighbor_id c)) eqn:E2; [| |done].
    + apply kcmp_eq in E2. by rewrite <- E2, E1 in Hgt.
    + by rewrite (kcmp_trans _ _ _ E1 E2) in Hgt.
Qed.

Lemma hit_le_order a b : hit_le a b = true -> hit_order a b.
Proof.
  unfold hit_le, hit_order. intros [?|[? H]%andb_prop]%orb_prop; [left; lia|right].
  split; [lia|]. by destruct (kcmp _ _).
Qed.
Lemma hit_le_false a b : hit_le a b = false -> hit_order b a.
Proof.
  unfold hit_le, hit_order. intros [H1 H2]%orb_false_elim.
  destruct (decide (hops b < hops a)%Z); [by left|]. right. split; [lia|].
  rewrite (proj2 (Z.eqb_eq _ _)) in H2 by lia. cbn [andb] in H2.
  rewrite (kcmp_antisym (neighbor_id a)). by destruct (kcmp (neighbor_id a) (neighbor_id b)).
Qed.

Section entry.
Context `{C : LinkCatalog} {G : LinkGraph C} `{B : Backend}.

(** The neighbours of a concept in one bundle, as the SQL surface promises
    them. *)
Record promised (b : Z) (concept_id : str) (m : Z) (hits : list NeighborHit) : Prop := {
  pr_sorted : StronglySorted hit_order hits;
  pr_once : NoDup (neighbor_id <$> hits);
  pr_sound h : h ∈ hits ->
    source_id h = concept_id /\ neighbor_id h <> concept_id /\ (1 <= hops h <= m)%Z /\
    cat_title b (neighbor_id h) = Some (title h) /\
    shortest (cat_edge b) concept_id (neighbor_id h) {| v_hops := hops h; v_path := path h |};
  pr_complete n p : n <> concept_id -> walk (cat_edge b) concept_id p n ->
    (Z.of_nat (length p) <= m + 1)%Z -> is_Some (cat_title b n) -> n ∈ neighbor_id <$> hits
}.

Lemma pack_promised (b : Z) (c : str) (m : Z) (visits : list (str * VisitRecord)) (titles : gmap str (option str)) :
  neighborhood (cat_edge b) c m visits ->
  (forall id, id ∈ visits.*1 -> titles !! id = cat_title b id) ->
  promised b c m (sort_hits (omap (fun '(id, record) =>
    title ← titles !! id;
    Some {| source_id := c; neighbor_id := id; hops := v_hops record;
            path := v_path record; title := title |}) visits)).
Proof.
  intros N Ht. set (pack := fun '(id, record) => _).
  assert (forall h, h ∈ sort_hits (omap pack visits) <-> exists n r t, (n, r) ∈ visits /\
            cat_title b n = Some t /\
            h = {| source_id := c; neighbor_id := n; hops := v_hops r;
                   path := v_path r; title := t |}) as Hin.
  { intros h. unfold sort_hits. rewrite sort_by_perm, list_elem_of_omap. split.
    - intros ([n r] & Hnr & Hh). cbn in Hh.
      rewrite Ht in Hh by (apply list_elem_of_fmap; by exists (n, r)).
      destruct (cat_title b n) as [t|] eqn:Et; [|done]. injection Hh as <-. eauto 10.
    - intros (n & r & t & Hnr & Et & ->). exists (n, r). split; [done|]. cbn.
      rewrite Ht by (apply list_elem_of_fmap; by exists (n, r)). by rewrite Et. }
  split.
  - unfold sort_hits. apply sort_by_sorted; [apply _|apply hit_le_order|apply hit_le_false].
  - unfold sort_hits. rewrite sort_by_perm.
    eapply sublist_NoDup; [apply (nb_nodup _ _ _ _ N)|]. clear Ht N Hin.
    induction visits as [|[n r] visits IH]; [constructor|]. cbn.
    destruct (titles !! n); cbn; by constructor.
  - intros h (n & r & t & Hnr & Et & ->)%Hin. cbn.
    destruct (nb_shortest _ _ _ _ N _ _ Hnr) as [Hs Hb].
    assert (n ∈ visits.*1) as [Hne _]%(nb_members _ _ _ _ N)
      by (apply list_elem_of_fmap; by exists (n, r)).
    do 2 (split; [done|]). split; [lia|]. split; [done|]. by destruct r.
  - intros n p Hne Hw Hlen [t Et].
    assert (n ∈ visits.*1) as ([n' r] & [= ->] & Hnr)%list_elem_of_fmap
      by (apply (nb_members _ _ _ _ N); eauto).
    apply list_elem_of_fmap. eexists. split; [|apply Hin; by exists n', r, t]. done.
Qed.

(** The scope could not be resolved: the lookup failed, or the concept is in
    several active bundles. *)
Definition ambiguous (c : str) (e : CatalogError) : Prop :=
  concept_bundles c = Err e \/
  exists b b' bs, concept_bundles c = Ok (b :: b' :: bs) /\ kind e = InvalidParameter.

Lemma scope_error c bundle_id e :
  resolve_bundle_scope c bundle_id = Err e -> bundle_id = None /\ ambiguous c e.
Proof.
  unfold resolve_bundle_scope, ambiguous. destruct bundle_id; [done|]. intros Hs. split; [done|].
  destruct (concept_bundles c) as [[|b [|b' bs]]|e']; cbn in Hs; try done.
  - right. exists b, b', bs. split; [done|]. by injection Hs as <-.
  - left. congruence.
Qed.

Lemma scope_some c bundle_id b :
  resolve_bundle_scope c bundle_id = Ok (Some b) ->
  bundle_id = Some b \/ (bundle_id = None /\ concept_bundles c = Ok [b]).
Proof.
  unfold resolve_bundle_scope. destruct bundle_id; [left; congruence|right].
  destruct (concept_bundles c) as [[|? [|? ?]]|]; cbn in *; by simplify_eq.
Qed.

Lemma scope_none c bundle_id :
  resolve_bundle_scope c bundle_id = Ok None -> bundle_id = None /\ concept_bundles c = Ok [].
Proof.
  unfold resolve_bundle_scope. destruct bundle_id; [done|].
  destruct (concept_bundles c) as [[|? [|? ?]]|]; cbn; by intros [=].
Qed.

(** The rows of one bundle, or the error of one of its two queries. *)
Lemma read_rows_cases b c m :
  (0 <= m < i32_max)%Z ->
  exists r, read_neighbor_rows b c m = Ret r /\
    match r with
    | Ok hits => promised b c m hits
    | Err e => (exists f, expand_frontier b f = Err e) \/
        exists ids, fetch_neighbor_titles b ids = Err e
    end.
Proof.
  intros Hm. unfold read_neighbor_rows.
  destruct (bfs_neighborhood (expand_frontier b) (cat_edge b) (cat_edge_law b) c m Hm)
    as (r & -> & Hr). cbn [obind]. eexists. split; [done|].
  destruct r as [[|v visits]|e]; cbn [rbind]; [| |by left].
  - apply (pack_promised b c m [] ∅ Hr). by intros ? ?%not_elem_of_nil.
  - destruct (fetch_neighbor_titles b _) as [titles|e] eqn:Ht; cbn [rbind]; [|right; by eauto].
    apply pack_promised; [done|]. by eapply cat_title_law.
Qed.

(** [concept_neighbors] never panics, and a successful call came from
    a reader with [max_hops] at least 1; its scope is the given bundle or
    the only active bundle with the concept, and it returns, ordered by hop
    count and identifier, exactly the other titled concepts of that bundle
    within the capped number of hops, each once with its shortest distance
    and a shortest path; a concept in no active bundle has no neighbours.  A
    failing call was refused authorization, had [max_hops] below 1 or an
    ambiguous concept, or passes on the error of one of its queries. *)
Theorem concept_neighbors_exact (c : str) (m : Z) (bundle_id : option Z) :
  exists r, concept_neighbors_impl c m bundle_id = Ret r /\
    match r with
    | Ok hits =>
        authorize_current_user Search [] = Ok tt /\ (1 <= m)%Z /\
        ((bundle_id = None /\ concept_bundles c = Ok [] /\ hits = []) \/
         exists b, (bundle_id = Some b \/ (bundle_id = None /\ concept_bundles c = Ok [b])) /\
           promised b c (Z.min m guc_max_graph_hops) hits)
    | Err e =>
        authorize_current_user Search [] = Err e \/
        ((m < 1)%Z /\ kind e = InvalidParameter) \/
        (bundle_id = None /\ ambiguous c e) \/
        (exists b f, expand_frontier b f = Err e) \/
        (exists b ids, fetch_neighbor_titles b ids = Err e)
    end.
Proof.
  unfold concept_neighbors_impl. destruct (authorize_current_user Search []) as [[]|e]; cbn [rbind];
    [|exists (Err e); split; [done|by left]].
  unfold effective_max_hops, cap_max_hops, to_limit. pose proof cat_guc_range as Hg.
  rewrite (proj2 (Z.ltb_ge _ 0)) by lia.
  rewrite (proj2 (Z.leb_le _ i32_max)) by (unfold i32_max; lia).
  destruct (m <? 1)%Z eqn:Hm; cbn [rbind]; bool_prop.
  { eexists. split; [done|]. right; left. done. }
  rewrite (Z.max_l guc_max_graph_hops) by lia.
  destruct (resolve_bundle_scope c bundle_id) as [[b|]|e] eqn:Hscope; cbn [rbind].
  - destruct (read_rows_cases b c (Z.min m guc_max_graph_hops)) as (r & -> & Hr);
      [unfold i32_max; lia|].
    exists r. split; [done|]. destruct r as [hits|e].
    + do 2 (split; [done|]). right. exists b. split; [by apply scope_some|done].
    + do 3 right. destruct Hr as [[f Hf]|[ids Hi]]; [left|right]; eauto.
  - apply scope_none in Hscope as [-> Hc]. exists (Ok []). split; [done|].
    do 2 (split; [done|]). by left.
  - exists (Err e). split; [done|]. right; right; left. by apply scope_error.
Qed.

End entry.

(** ** The tables keep the promise *)

Section tables.
Import Tables.
Context (d : db).

(** [ORDER BY] permutes its rows. *)
Context (Horder : forall l, order_edges d l ≡ₚ l).

(** A resolved internal link of an active bundle. *)
Definition table_edge (b : Z) (s t : str) : Prop :=
  active d b /\ exists l, l ∈ links d /\ l_bundle l = b /\ l_source l = s /\ l_target l = Some t
    /\ l_resolved l = true /\ l_external l = false.

Definition table_title (b : Z) (id : str) : option (option str) :=
  c_title <$> last (filter (fun c => c_bundle c = b /\ c_id c = id) (concepts d)).

Lemma table_edge_law b f es : expand_frontier (LinkCatalog := catalog d) b f = Ok es ->
  forall s t, (s, t) ∈ es <-> s ∈ f /\ table_edge b s t.
Proof.
  intros Hes%rmap_list_ok s t.
  assert (forall s o, (s, o) ∈ edge_query d b f <-> exists l, l ∈ links d /\ active d (l_bundle l) /\
            l_bundle l = b /\ l_source l = s /\ l_target l = o /\ s ∈ f /\
            l_resolved l = true /\ l_external l = false) as Hq.
  { intros s' o. unfold edge_query. rewrite Horder, elem_of_remove_dups, list_elem_of_fmap.
    setoid_rewrite list_elem_of_filter. naive_solver. }
  split.
  - intros Hst. destruct (Forall2_elem_r _ _ _ _ Hes Hst) as ([s' [t'|]] & Hin & Hr); [|done].
    injection Hr as -> ->. apply Hq in Hin as (l & ? & Ha & <- & ? & ? & ? & ? & ?).
    split; [done|]. split; [done|]. by exists l.
  - intros (Hs & Ha & l & Hl & <- & <- & Ht & Hr & He).
    assert ((l_source l, Some t) ∈ edge_query d (l_bundle l) f) as Hin by (apply Hq; by exists l).
    destruct (Forall2_elem_l _ _ _ _ Hes Hin) as ([s' t'] & Hst & [= -> ->]). done.
Qed.

Lemma fold_titles (l : list concept_row) (m : gmap str (option str)) (id : str) :
  fold_left (fun m c => <[c_id c := c_title c]> m) l m !! id =
  match last (filter (fun c => c_id c = id) l) with
  | Some c => Some (c_title c)
  | None => m !! id
  end.
Proof.
  revert m. induction l as [|c l IH]; intros m; [done|]. cbn [fold_left]. rewrite IH.
  destruct (decide (c_id c = id)) as [<-|Hne].
  - rewrite filter_cons_True by done. rewrite last_cons, lookup_insert_eq. by destruct (last _).
  - rewrite filter_cons_False by done. by rewrite lookup_insert_ne.
Qed.

Lemma table_title_law (b : Z) (ids : list str) (m : gmap str (option str)) :
  fetch_neighbor_titles (LinkCatalog := catalog d) b ids = Ok m ->
  forall id, id ∈ ids -> m !! id = table_title b id.
Proof.
  intros [= <-] id Hid. unfold title_map, table_title.
  rewrite fold_titles, lookup_empty, list_filter_filter.
  rewrite (list_filter_iff _ (fun c => c_bundle c = b /\ c_id c = id)) by naive_solver.
  by destruct (last _).
Qed.

(** The setting stays in the range it is registered with. *)
Context (Hguc : (1 <= max_graph_hops d <= 1000)%Z).

Definition tables_graph : LinkGraph (catalog d) := {|
  cat_edge := table_edge;
  cat_title := table_title;
  cat_edge_law := table_edge_law;
  cat_title_law := table_title_law;
  cat_guc_range := Hguc
|}.

End tables.

(** ** A concrete catalog *)

Module Demo.
Import Tables.

Definition link (b : Z) (s t : str) (resolved external : bool) : link_row :=
  {| l_bundle := b; l_source := s; l_target := Some t; l_resolved := resolved;
     l_external := external |}.
Definition concept (b : Z) (id : str) : concept_row :=
  {| c_bundle := b; c_id := id; c_title := None |}.

(** A cycle a -> b -> c -> a with a shortcut a -> d, an external link, and
    a retired bundle with a second [a]. *)
Definition ring : db := {|
  bundles := [ {| b_id := 1; b_enabled := true; b_retired := false |};
               {| b_id := 2; b_enabled := true; b_retired := true |} ];
  links := [ link 1 (lit "a") (lit "b") true false; link 1 (lit "b") (lit "c") true false;
             link 1 (lit "c") (lit "a") true false; link 1 (lit "a") (lit "d") true false;
             link 1 (lit "d") (lit "c") true false; link 1 (lit "a") (lit "e") true true;
             link 2 (lit "a") (lit "f") true false ];
  concepts := [ concept 1 (lit "a"); concept 1 (lit "b"); concept 1 (lit "c");
                concept 1 (lit "d"); concept 2 (lit "a") ];
  max_graph_hops := 5;
  order_edges := fun l => l;
  order_ids := fun l => l
|}.

(** A session with every role and no tenant. *)
#[export] Instance reader : Backend := {|
  spi_error := unit;
  spi_error_text := fun _ => [];
  pg_has_role := fun _ => Ok (Some true);
  bundle_tenant_row := fun _ => Ok (None, Some false, None);
  session_tenant_row := Ok (None, Some false)
|}.

Lemma order_ok l : order_edges ring l ≡ₚ l.
Proof. done. Qed.
Lemma guc_ok : (1 <= max_graph_hops ring <= 1000)%Z.
Proof. done. Qed.

End Demo.

Example ring_neighbors :
  concept_neighbors_impl (C := Tables.catalog Demo.ring) (B := Demo.reader) (lit "a") 2 None =
  Ret (Ok [ {| source_id := lit "a"; neighbor_id := lit "b"; hops := 1;
               path := [lit "a"; lit "b"]; title := None |};
            {| source_id := lit "a"; neighbor_id := lit "d"; hops := 1;
               path := [lit "a"; lit "d"]; title := None |};
            {| source_id := lit "a"; neighbor_id := lit "c"; hops := 2;
               path := [lit "a"; lit "b"; lit "c"]; title := None |} ]).
Proof. by_eval. Qed.

Lemma bfs_shortest_witness :
  exists r, breadth_first_neighbors (expand_frontier (LinkCatalog := Tables.catalog Demo.ring) 1)
              (lit "a") 2 = Ret r /\
    exists visits, r = Ok visits /\ NoDup visits.*1.
Proof.
  destruct (bfs_shortest (expand_frontier (LinkCatalog := Tables.catalog Demo.ring) 1)
    (table_edge Demo.ring 1) (lit "a") 2
    (table_edge_law Demo.ring Demo.order_ok 1)) as (r & Hr & Hspec); [done|].
  exists r. split; [exact Hr|].
  assert (exists v, r = Ok v) as [v ->]
    by (assert (Ret r = Ret r) as _ by done; revert Hr; vm_compute; intros [= <-]; by eexists).
  exists v. split; [done|]. apply Hspec.
Defined.

Lemma concept_neighbors_exact_witness :
  exists hits, concept_neighbors_impl (C := Tables.catalog Demo.ring) (B := Demo.reader)
              (lit "a") 2 None = Ret (Ok hits) /\
    exists b, promised (C := Tables.catalog Demo.ring)
      (G := tables_graph Demo.ring Demo.order_ok Demo.guc_ok) b (lit "a") 2 hits.
Proof.
  destruct (concept_neighbors_exact (C := Tables.catalog Demo.ring)
    (G := tables_graph Demo.ring Demo.order_ok Demo.guc_ok) (B := Demo.reader)
    (lit "a") 2 None) as (r & Hr & Hspec).
  destruct r as [hits|e].
  - exists hits. split; [exact Hr|]. destruct Hspec as (_ & _ & [(_ & Hc & _)|(b & _ & Hb)]).
    + exfalso. revert Hc. by vm_compute.
    + exists b. exact Hb.
  - exfalso. rewrite ring_neighbors in Hr. discriminate Hr.
Defined.
