(* ===== verification/PluginFreshness.v ===== *)
(** * Is a built plugin still current? ([pgokf-workspace/src/freshness.rs])

    A lockfile is compared with the live catalog.  [serde_json] is the class
    [Json] (a value seen one layer deep, [from_str], object lookup) and the
    two database calls are the class [PluginCatalog]; the whole of the
    comparison itself is the program's. *)
From stdpp Require Import prelude strings gmap list.
From Stdlib Require Import Ascii ZArith Lia.
From S2P Require Import Prelude Str.

(** ** Data *)

Inductive PluginStatus : Type :=
| Current
| Stale
| Retired
| Unknown.

#[export] Instance plugin_status_eq_dec : EqDecision PluginStatus.
Proof. solve_decision. Defined.

Definition status_id (s : PluginStatus) : str :=
  match s with
  | Current => lit "current"
  | Stale => lit "stale"
  | Retired => lit "retired"
  | Unknown => lit "unknown"
  end.

Record BundleCheck : Type := {
  bc_bundle_id : Z;
  bc_name : option str;
  bc_status : PluginStatus;
  bc_reasons : list str
}.

Record PluginCheck : Type := {
  ck_name : option str;
  ck_status : PluginStatus;
  ck_reasons : list str;
  ck_bundles : list BundleCheck
}.

Record PinnedBundle : Type := {
  pin_id : Z;
  pin_name : option str;
  pin_sync_hash : option str;
  pin_catalog_generation : option Z
}.

Record PinnedEntry : Type := {
  pe_bundle_id : Z;
  pe_concept_id : str;
  pe_state : str;
  pe_reasons : list str
}.

Record LiveBundle : Type := {
  lb_sync_hash : option str;
  lb_catalog_generation : option Z;
  lb_enabled : bool;
  lb_retired : bool;
  lb_freshness_state : option str;
  lb_freshness_reasons : list str
}.

Abbreviation LiveScopes := (gmap (list ascii) (str * list str)).

Definition fresh : str := lit "fresh".
Definition unknown : str := lit "unknown".
Definition retired : str := lit "retired".

(** ** The comparison of one bundle *)

(** [" (a, b)"], or nothing. *)
Definition reason_suffix (reasons : list str) : str :=
  match reasons with
  | [] => []
  | _ => lit " (" ++ join (lit ", ") reasons ++ lit ")"
  end.

(** A state that is evidence of stale content. *)
Definition not_fresh (state : str) : bool :=
  negb (bool_decide (state = fresh)) && negb (bool_decide (state = unknown)).

Definition built_drift (entries : list PinnedEntry) : list str :=
  omap (fun e =>
    if not_fresh (pe_state e) then
      Some (lit "concept " ++ pe_concept_id e ++ lit " was already " ++ pe_state e
              ++ lit " when the plugin was built" ++ reason_suffix (pe_reasons e)
              ++ lit "; rebuild to pick up the reconciled content")
    else None) entries.

Definition live_drift (entries : list PinnedEntry) (live_scopes : LiveScopes) : list str :=
  omap (fun e =>
    match live_scopes !! pe_concept_id e with
    | Some (state, reasons) =>
        if not_fresh state then
          Some (lit "concept " ++ pe_concept_id e ++ lit " is now " ++ state
                  ++ reason_suffix reasons)
        else None
    | None => None
    end) entries.

(** The match on the generations: [(drift, gaps, confirmed)]. *)
Definition compare_generation (pinned live : option Z) : list str * list str * bool :=
  match pinned, live with
  | Some p, Some l =>
      if decide (p = l) then ([], [], true)
      else ([lit "the catalog generation advanced from " ++ show_Z p ++ lit " to " ++ show_Z l],
            [], false)
  | Some _, None =>
      ([], [lit "the catalog records no catalog generation to compare the pin against"], false)
  | None, _ => ([], [], false)
  end.

(** The match on the sync hashes: [(drift, gaps)]. *)
Definition compare_sync_hash (pinned live : option str) : list str * list str :=
  match pinned, live with
  | Some p, Some l =>
      if decide (p = l) then ([], []) else ([lit "the bundle's content changed"], [])
  | Some _, None => ([], [lit "the catalog records no sync hash to compare the pin against"])
  | None, _ => ([], [])
  end.

(** The match on the bundle's state, its [retired] arm aside:
    [(drift, confirmed)]. *)
Definition compare_state (live : LiveBundle) (confirmed : bool) : list str * bool :=
  match lb_freshness_state live with
  | None => ([], confirmed)
  | Some other =>
      if decide (other = fresh) then ([], true)
      else ([lit "the bundle's freshness is " ++ other
               ++ reason_suffix (lb_freshness_reasons live)], confirmed)
  end.

Definition compare_bundle (pin : PinnedBundle) (live : option LiveBundle)
    (entries : list PinnedEntry) (live_scopes : LiveScopes) : BundleCheck :=
  let check st rs :=
    {| bc_bundle_id := pin_id pin; bc_name := pin_name pin; bc_status := st; bc_reasons := rs |} in
  match live with
  | None => check Retired [lit "the bundle is gone from the catalog"]
  | Some live =>
      if lb_retired live then check Retired [lit "the bundle is retired"]
      else if negb (lb_enabled live) then check Retired [lit "the bundle is disabled"]
      else
        let '(drift1, gaps1, confirmed1) :=
          compare_generation (pin_catalog_generation pin) (lb_catalog_generation live) in
        let '(drift2, gaps2) := compare_sync_hash (pin_sync_hash pin) (lb_sync_hash live) in
        let gaps := gaps1 ++ gaps2 in
        if bool_decide (lb_freshness_state live = Some retired)
        then check Retired [lit "the bundle's freshness is retired"]
        else
          let '(drift3, confirmed) := compare_state live confirmed1 in
          let drift := drift1 ++ drift2 ++ drift3 ++ built_drift entries
                       ++ live_drift entries live_scopes in
          if negb (bool_decide (drift = [])) then check Stale drift
          else if negb confirmed then
            check Unknown
              (if bool_decide (gaps = []) then
                 if bool_decide (pin_catalog_generation pin = None)
                    && bool_decide (pin_sync_hash pin = None)
                 then [lit "the lockfile pins nothing comparable for this bundle"]
                 else [lit "the pins match, but the catalog offers no live freshness state or catalog generation to confirm them"]
               else gaps)
          else check Current gaps
  end.

Definition severity (s : PluginStatus) : nat :=
  match s with
  | Current => 0
  | Unknown => 1
  | Stale => 2
  | Retired => 3
  end.

(** [max_by_key]: the last of the greatest. *)
Definition max_status (l : list PluginStatus) : option PluginStatus :=
  fold_left (fun best s =>
    match best with
    | Some b => if severity b <=? severity s then Some s else Some b
    | None => Some s
    end) l None.

Definition aggregate (name : option str) (bundles : list BundleCheck) : PluginCheck :=
  {| ck_name := name;
     ck_status := default Unknown (max_status (bc_status <$> bundles));
     ck_reasons := concat (map (fun b =>
       map (fun reason => lit "bundle " ++ show_Z (bc_bundle_id b) ++ lit ": " ++ reason)
         (bc_reasons b)) bundles);
     ck_bundles := bundles |}.

(** ** The lockfile *)

Inductive lock_view (J M : Type) : Type :=
| LString (s : str)
| LInteger (n : Z)
| LArray (l : list J)
| LObject (m : M)
| LOther.
Arguments LString {J M} s.
Arguments LInteger {J M} n.
Arguments LArray {J M} l.
Arguments LObject {J M} m.
Arguments LOther {J M}.

(** A number that [as_i64] accepts is [LInteger]. *)
Class Json : Type := {
  json : Type;
  json_map : Type;
  json_error : Type;
  from_str : str -> result json json_error;
  look : json -> lock_view json json_map;
  map_get : json_map -> str -> option json
}.

Section lock.
Context `{J : Json}.

(** [anyhow]'s error: a message, or a context over its source. *)
Inductive LockError : Type :=
| Anyhow (message : str)
| WithContext (message : str) (source : json_error).

Definition get (v : json) (key : str) : option json :=
  match look v with LObject m => map_get m key | _ => None end.
Definition as_str (v : json) : option str :=
  match look v with LString s => Some s | _ => None end.
Definition as_i64 (v : json) : option Z :=
  match look v with LInteger n => Some n | _ => None end.
Definition as_array (v : json) : option (list json) :=
  match look v with LArray l => Some l | _ => None end.
(** A pointer of two keys (no array index is among the code's keys). *)
Definition pointer (v : json) (key key' : str) : option json :=
  w ← get v key; get w key'.

Definition parse_pin (entry : json) : result PinnedBundle LockError :=
  match get entry (lit "id") ≫= as_i64 with
  | None => Err (Anyhow (lit "a lockfile bundle entry has no integer id"))
  | Some id => Ok {|
      pin_id := id;
      pin_name := get entry (lit "name") ≫= as_str;
      pin_sync_hash := get entry (lit "sync_hash") ≫= as_str;
      pin_catalog_generation := get entry (lit "catalog_generation") ≫= as_i64 |}
  end.

Definition reasons_of (v : json) : list str :=
  match pointer v (lit "freshness") (lit "reasons") ≫= as_array with
  | Some l => omap as_str l
  | None => []
  end.

Definition parse_entry (entry : json) : option PinnedEntry :=
  match get entry (lit "bundle_id") ≫= as_i64, get entry (lit "concept_id") ≫= as_str,
        pointer entry (lit "freshness") (lit "state") ≫= as_str with
  | Some bundle_id, Some concept_id, Some state =>
      Some {| pe_bundle_id := bundle_id; pe_concept_id := concept_id; pe_state := state;
              pe_reasons := reasons_of entry |}
  | _, _, _ => None
  end.

Definition parse_lock (content : str)
  : result (option str * list PinnedBundle * list PinnedEntry) LockError :=
  let? lock := rmap_err (WithContext (lit "the lock content is not valid JSON")) (from_str content) in
  let name := get lock (lit "name") ≫= as_str in
  let? bundles := ok_or (Anyhow (lit "not an okf-workspace.lock: no catalog.bundles list"))
                    (pointer lock (lit "catalog") (lit "bundles") ≫= as_array) in
  let? pinned := rmap_list parse_pin bundles in
  let entries := omap parse_entry (default [] (get lock (lit "entries") ≫= as_array)) in
  Ok (name, pinned, entries).

End lock.

(** ** The whole check *)

(** One row of the comparison statement. *)
Record check_row : Type := {
  row_kind : str;
  row_bundle : Z;
  row_sync_hash : option str;
  row_generation : option Z;
  row_enabled : bool;
  row_retired : bool;
  row_state : option str;
  row_reasons : list str;
  row_scope_key : option str
}.

Class PluginCatalog : Type := {
  query_error : Type;
  (** reading NULL into a [String] *)
  null_error : query_error;
  (** [capabilities]: the freshness surface, the catalog generation *)
  capabilities : result (bool * bool) query_error;
  compare_query : bool -> list Z -> result (list check_row) query_error
}.

Section check.
Context `{J : Json} `{Q : PluginCatalog}.

Inductive CheckError : Type :=
| LockFailed (e : LockError)
| QueryFailed (context : str) (source : query_error).

Abbreviation live_state := (list (Z * LiveBundle) * gmap Z LiveScopes)%type.

(** One row of the answer. *)
Definition row_step (st : live_state) (row : check_row) : result live_state CheckError :=
  let '(live, live_scopes) := st in
  if decide (row_kind row = lit "concept") then
    match row_scope_key row with
    | None => Ok st
    | Some scope_key =>
        let? state := ok_or (QueryFailed [] null_error) (row_state row) in
        let scopes := default ∅ (live_scopes !! row_bundle row) in
        Ok (live, <[row_bundle row := <[scope_key := (state, row_reasons row)]> scopes]> live_scopes)
    end
  else
    Ok (live ++ [(row_bundle row,
          {| lb_sync_hash := row_sync_hash row; lb_catalog_generation := row_generation row;
             lb_enabled := row_enabled row; lb_retired := row_retired row;
             lb_freshness_state := row_state row; lb_freshness_reasons := row_reasons row |})],
        live_scopes).

Fixpoint read_rows (st : live_state) (rows : list check_row) : result live_state CheckError :=
  match rows with
  | [] => Ok st
  | row :: rest => let? st' := row_step st row in read_rows st' rest
  end.

(** [live.iter().find(|(id, _)| id == pin.id)]. *)
Definition find_live (live : list (Z * LiveBundle)) (id : Z) : option LiveBundle :=
  snd <$> find (fun p => bool_decide (p.1 = id)) live.

Definition check_pin (entries : list PinnedEntry) (st : live_state) (pin : PinnedBundle) : BundleCheck :=
  compare_bundle pin (find_live st.1 (pin_id pin))
    (List.filter (fun e => bool_decide (pe_bundle_id e = pin_id pin)) entries)
    (default ∅ (st.2 !! pin_id pin)).

Definition check_plugin_freshness (lock_content : str) : result PluginCheck CheckError :=
  let? (name, pinned, entries) := rmap_err LockFailed (parse_lock lock_content) in
  match pinned with
  | [] => Ok {| ck_name := name; ck_status := Unknown;
                ck_reasons := [lit "the lockfile pins no bundles"]; ck_bundles := [] |}
  | _ =>
      let? (has_freshness, has_generation) := rmap_err (QueryFailed []) capabilities in
      let extended := has_freshness && has_generation in
      let? rows := rmap_err (QueryFailed (lit "comparing the lockfile with the catalog"))
                     (compare_query extended (pin_id <$> pinned)) in
      let? st := read_rows ([], ∅) rows in
      Ok (aggregate name (map (check_pin entries st) pinned))
  end.

End check.

(** * Properties *)

(** What the header of the source file promises, read as a specification of
    one bundle's status. *)
Section spec.
Context (pin : PinnedBundle) (entries : list PinnedEntry) (scopes : LiveScopes).

(** The bundle cannot be used any more. *)
Definition gone (live : option LiveBundle) : Prop :=
  live = None \/ exists l, live = Some l /\
    (lb_retired l = true \/ lb_enabled l = false \/ lb_freshness_state l = Some retired).

(** Something the lockfile ships differs from the catalog. *)
Definition drifted (l : LiveBundle) : Prop :=
  (exists p g, pin_catalog_generation pin = Some p /\ lb_catalog_generation l = Some g /\ p <> g) \/
  (exists p h, pin_sync_hash pin = Some p /\ lb_sync_hash l = Some h /\ p <> h) \/
  (exists s, lb_freshness_state l = Some s /\ s <> fresh /\ s <> retired) \/
  (exists e, e ∈ entries /\ pe_state e <> fresh /\ pe_state e <> unknown) \/
  (exists e s rs, e ∈ entries /\ scopes !! pe_concept_id e = Some (s, rs) /\
     s <> fresh /\ s <> unknown).

(** The live catalog vouches for the bundle. *)
Definition confirmed_live (l : LiveBundle) : Prop :=
  lb_freshness_state l = Some fresh \/
  exists g, pin_catalog_generation pin = Some g /\ lb_catalog_generation l = Some g.

End spec.

Lemma not_fresh_spec s : not_fresh s = true <-> s <> fresh /\ s <> unknown.
Proof.
  unfold not_fresh. rewrite andb_true_iff, !negb_true_iff, !bool_decide_eq_false. done.
Qed.

(** A list of reasons that is empty exactly when [P] does not hold. *)
Definition explains (reasons : list str) (P : Prop) : Prop :=
  (reasons = [] /\ ~ P) \/ (reasons <> [] /\ P).

Lemma explains_app r k P Q : explains r P -> explains k Q -> explains (r ++ k) (P \/ Q).
Proof.
  unfold explains. intros [[-> ?]|[? ?]] [[-> ?]|[? ?]]; rewrite ?app_nil_r; cbn [app];
    [left|right|right|right]; try tauto.
  split; [|tauto]. intros [? _]%app_eq_nil. done.
Qed.

Lemma explains_iff r P Q : (P <-> Q) -> explains r P -> explains r Q.
Proof. unfold explains. tauto. Qed.

Lemma explains_omap {A} (f : A -> option str) l :
  explains (omap f l) (exists x, x ∈ l /\ is_Some (f x)).
Proof.
  induction l as [|x l IH]; [left; split; [done|]; by intros (x & ?%not_elem_of_nil & _)|].
  cbn. destruct (f x) as [y|] eqn:E.
  - right. split; [done|]. exists x. split; [by left|by rewrite E].
  - eapply explains_iff; [|exact IH]. split.
    + intros (z & Hz & ?). exists z. split; [by right|done].
    + intros (z & [->|Hz]%elem_of_cons & Hs); [rewrite E in Hs; by destruct Hs|by exists z].
Qed.

Lemma built_drift_explains (entries : list PinnedEntry) :
  explains (built_drift entries) (exists e, e ∈ entries /\ pe_state e <> fresh /\ pe_state e <> unknown).
Proof.
  eapply explains_iff; [|apply explains_omap]. apply exist_proper. intros e.
  rewrite <- not_fresh_spec. destruct (not_fresh _); split; intros [? Hs]; try done;
    by destruct Hs.
Qed.

Lemma live_drift_explains (entries : list PinnedEntry) (scopes : LiveScopes) :
  explains (live_drift entries scopes)
    (exists e s rs, e ∈ entries /\ scopes !! pe_concept_id e = Some (s, rs) /\
       s <> fresh /\ s <> unknown).
Proof.
  eapply explains_iff; [|apply explains_omap]. apply exist_proper. intros e.
  setoid_rewrite <- not_fresh_spec. split.
  - intros [He Hs]. destruct (scopes !! pe_concept_id e) as [[s rs]|]; [|by destruct Hs].
    exists s, rs. destruct (not_fresh s); [done|by destruct Hs].
  - intros (s & rs & He & -> & ->). done.
Qed.

Lemma generation_cases p l :
  let '(drift, gaps, confirmed) := compare_generation p l in
  explains drift (exists a b, p = Some a /\ l = Some b /\ a <> b) /\
  (confirmed = true <-> exists g, p = Some g /\ l = Some g).
Proof. destruct p, l; cbn; [case_decide|..]; unfold explains; naive_solver. Qed.

Lemma sync_hash_cases p l :
  explains (compare_sync_hash p l).1 (exists a b, p = Some a /\ l = Some b /\ a <> b).
Proof. destruct p, l; cbn; [case_decide|..]; unfold explains; naive_solver. Qed.

Lemma state_cases pin l c :
  lb_freshness_state l <> Some retired ->
  (c = true <-> exists g, pin_catalog_generation pin = Some g /\ lb_catalog_generation l = Some g) ->
  explains (compare_state l c).1
    (exists s, lb_freshness_state l = Some s /\ s <> fresh /\ s <> retired) /\
  ((compare_state l c).2 = true <-> confirmed_live pin l).
Proof.
  intros Hst Hc. unfold compare_state, confirmed_live, explains. rewrite <- Hc.
  destruct (lb_freshness_state l) as [s|]; [|naive_solver].
  case_decide as Hs; cbn; [subst s|]; naive_solver.
Qed.

(** The status of one bundle, used by the statements below. *)
Lemma compare_bundle_status (pin : PinnedBundle) (live : option LiveBundle)
    (entries : list PinnedEntry) (scopes : LiveScopes) :
  let r := compare_bundle pin live entries scopes in
  bc_bundle_id r = pin_id pin /\
  match bc_status r with
  | Retired => gone live /\ bc_reasons r <> []
  | Stale => ~ gone live /\ bc_reasons r <> [] /\
      exists l, live = Some l /\ drifted pin entries scopes l
  | Unknown => ~ gone live /\ bc_reasons r <> [] /\
      exists l, live = Some l /\ ~ drifted pin entries scopes l /\ ~ confirmed_live pin l
  | Current => ~ gone live /\
      exists l, live = Some l /\ ~ drifted pin entries scopes l /\ confirmed_live pin l
  end.
Proof.
  cbn zeta. destruct live as [l|]; [|by split; [|split; [left|]]]. cbn [compare_bundle].
  destruct (lb_retired l) eqn:Hret; [cbn; unfold gone; naive_solver|].
  destruct (lb_enabled l) eqn:Hen; cbn [negb]; [|cbn; unfold gone; naive_solver].
  pose proof (generation_cases (pin_catalog_generation pin) (lb_catalog_generation l)) as Hg.
  destruct (compare_generation _ _) as [[d1 g1] c1]. destruct Hg as [Hd1 Hc1].
  pose proof (sync_hash_cases (pin_sync_hash pin) (lb_sync_hash l)) as Hd2.
  destruct (compare_sync_hash _ _) as [d2 g2]. cbn [fst] in Hd2.
  case_bool_decide as Hst; [cbn; unfold gone; naive_solver|].
  assert (~ gone (Some l)) as Hgone.
  { intros [?|(l' & Hl' & Hg)]; [done|]. injection Hl' as <-.
    destruct Hg as [Hg|[Hg|Hg]]; [by rewrite Hg in Hret|by rewrite Hg in Hen|done]. }
  pose proof (state_cases pin l c1 Hst Hc1) as [Hd3 Hc3].
  destruct (compare_state l c1) as [d3 c3]. cbn [fst snd] in Hd3, Hc3.
  assert (explains (d1 ++ d2 ++ d3 ++ built_drift entries ++ live_drift entries scopes)
            (drifted pin entries scopes l)) as Hdrift.
  { unfold drifted. repeat apply explains_app; try done.
    - apply built_drift_explains.
    - apply live_drift_explains. }
  destruct Hdrift as [[-> Hno]|[Hne Hyes]].
  - rewrite bool_decide_true by done. cbn [negb]. destruct c3; cbn.
    + split; [done|]. split; [done|]. exists l. split; [done|]. split; [done|]. by apply Hc3.
    + split; [done|]. split; [done|]. split.
      * repeat case_bool_decide; cbn; done.
      * exists l. split; [done|]. split; [done|]. intros H%Hc3. done.
  - rewrite bool_decide_false by done. cbn. split; [done|]. eauto.
Qed.

(** The status of a bundle is exactly the documented one: [retired] when
    the bundle is gone, retired or disabled; otherwise [stale] when a
    pinned generation or hash moved, the bundle's state is not fresh, or a
    shipped entry was or has become not fresh; otherwise [current] only
    with live confirmation (an equal generation or a fresh state), and
    [unknown] without; every status but [current] comes with a reason. *)
Theorem compare_bundle_exact (pin : PinnedBundle) (live : option LiveBundle)
    (entries : list PinnedEntry) (scopes : LiveScopes) :
  let r := compare_bundle pin live entries scopes in
  bc_bundle_id r = pin_id pin /\
  match bc_status r with
  | Retired => gone live /\ bc_reasons r <> []
  | Stale => ~ gone live /\ bc_reasons r <> [] /\
      exists l, live = Some l /\ drifted pin entries scopes l
  | Unknown => ~ gone live /\ bc_reasons r <> [] /\
      exists l, live = Some l /\ ~ drifted pin entries scopes l /\ ~ confirmed_live pin l
  | Current => ~ gone live /\
      exists l, live = Some l /\ ~ drifted pin entries scopes l /\ confirmed_live pin l
  end.
Proof. apply compare_bundle_status. Qed.

(** ** The plugin's status *)

Lemma max_status_spec l :
  match max_status l with
  | None => l = []
  | Some m => m ∈ l /\ forall s, s ∈ l -> severity s <= severity m
  end.
Proof.
  unfold max_status. induction l as [|s l IH] using rev_ind; [done|].
  rewrite fold_left_app. cbn [fold_left]. destruct (fold_left _ l None) as [b|].
  - destruct IH as [Hb Hall]. destruct (Nat.leb_spec (severity b) (severity s)).
    + split; [set_solver|]. intros t [Ht| ->%list_elem_of_singleton]%elem_of_app; [|done].
      specialize (Hall t Ht). lia.
    + split; [set_solver|]. intros t [Ht| ->%list_elem_of_singleton]%elem_of_app; [auto|lia].
  - subst l. cbn. split; [by left|]. by intros t ->%list_elem_of_singleton.
Qed.

Section check_props.
Context `{J : Json} `{Q : PluginCatalog}.

Lemma check_unfold content r :
  check_plugin_freshness content = Ok r ->
  exists name pinned entries, parse_lock content = Ok (name, pinned, entries) /\
    ((pinned = [] /\ ck_status r = Unknown /\ ck_bundles r = []) \/
     exists f g rows st, capabilities = Ok (f, g) /\
       compare_query (f && g) (pin_id <$> pinned) = Ok rows /\ read_rows ([], ∅) rows = Ok st /\
       pinned <> [] /\ r = aggregate name (map (check_pin entries st) pinned)).
Proof.
  unfold check_plugin_freshness. destruct (parse_lock content) as [[[name pinned] entries]|]; [|done].
  cbn [rmap_err rbind]. destruct pinned as [|p pinned].
  - intros [= <-]. exists name, [], entries. split; [done|]. by left.
  - destruct capabilities as [[f g]|]; [|done]. cbn [rmap_err rbind].
    destruct (compare_query (f && g) _) as [rows|] eqn:Hq; [|done]. cbn [rmap_err rbind].
    destruct (read_rows _ rows) as [st|] eqn:Hr; [|done]. cbn [rbind]. intros H.
    apply Ok_inj in H as <-. exists name, (p :: pinned), entries. split; [done|]. right.
    by exists f, g, rows, st.
Qed.

(** A plugin reported [current] really is: the lockfile pins at least
    one bundle, and in the rows the catalog answered with every pinned
    bundle is live, shows no drift, the evidence of its shipped entries
    included, and is confirmed; and in general the plugin is as bad as its worst bundle. *)
Theorem plugin_status_worst (content : str) (r : PluginCheck)
    (Hok : check_plugin_freshness content = Ok r) :
  (forall b, b ∈ ck_bundles r -> severity (bc_status b) <= severity (ck_status r)) /\
  (ck_bundles r <> [] -> exists b, b ∈ ck_bundles r /\ bc_status b = ck_status r) /\
  (ck_status r = Current ->
   exists name pinned entries f g rows st, parse_lock content = Ok (name, pinned, entries) /\
     pinned <> [] /\ capabilities = Ok (f, g) /\
     compare_query (f && g) (pin_id <$> pinned) = Ok rows /\ read_rows ([], ∅) rows = Ok st /\
     forall pin, pin ∈ pinned ->
       exists l, find_live st.1 (pin_id pin) = Some l /\ ~ gone (Some l) /\
         ~ drifted pin (List.filter (fun e => bool_decide (pe_bundle_id e = pin_id pin)) entries)
             (default ∅ (st.2 !! pin_id pin)) l /\
         confirmed_live pin l).
Proof.
  assert (forall name bs, let a := aggregate name bs in
    (forall b, b ∈ bs -> severity (bc_status b) <= severity (ck_status a)) /\
    (bs <> [] -> exists b, b ∈ bs /\ bc_status b = ck_status a)) as Hagg.
  { intros name bs. cbn. pose proof (max_status_spec (bc_status <$> bs)) as Hm.
    destruct (max_status _) as [m|]; cbn.
    - destruct Hm as [(b & -> & Hb)%list_elem_of_fmap Hall]. split; [|by eauto].
      intros b' Hb'. apply Hall, list_elem_of_fmap. eauto.
    - apply fmap_nil_inv in Hm as ->. split; [by intros b ?%not_elem_of_nil|done]. }
  apply check_unfold in Hok as (name & pinned & entries & Hparse &
    [(-> & Hu & Hb)|(f & g & rows & st & Hcap & Hq & Hrows & Hne & ->)]).
  - rewrite Hu, Hb. split_and!; [by intros b ?%not_elem_of_nil|done..].
  - destruct (Hagg name (map (check_pin entries st) pinned)) as [H1 H2].
    split; [exact H1|]. split; [exact H2|]. intros Hc.
    exists name, pinned, entries, f, g, rows, st. split_and!; try done. intros pin Hpin.
    assert (check_pin entries st pin ∈ map (check_pin entries st) pinned) as Hin
      by (apply list_elem_of_fmap; eauto).
    specialize (H1 _ Hin). rewrite Hc in H1. cbn in H1.
    pose proof (compare_bundle_status pin (find_live st.1 (pin_id pin))
      (List.filter (fun e => bool_decide (pe_bundle_id e = pin_id pin)) entries)
      (default ∅ (st.2 !! pin_id pin))) as [_ Hs]. fold (check_pin entries st pin) in Hs.
    destruct (bc_status (check_pin entries st pin)); cbn in H1; try lia.
    destruct Hs as (Hg & l & Hl & Hd & Hcf). exists l. rewrite <- Hl. done.
Qed.

End check_props.

(** ** A concrete lockfile and catalog *)

Module Lock.

Inductive doc : Type :=
| Str (s : string)
| Num (n : Z)
| Arr (l : list doc)
| Obj (m : list (string * doc)).

Fixpoint field (m : list (string * doc)) (k : str) : option doc :=
  match m with
  | [] => None
  | (k', v) :: m' => if decide (k = lit k') then Some v else field m' k
  end.

(** One bundle pinned at generation 7 with one entry that was fresh. *)
Definition lockfile : doc :=
  Obj [("name", Str "demo");
       ("catalog", Obj [("bundles", Arr [Obj [("id", Num 1); ("catalog_generation", Num 7)]])]);
       ("entries", Arr [Obj [("bundle_id", Num 1); ("concept_id", Str "a");
                             ("freshness", Obj [("state", Str "fresh")])]])]%string.

(** The text [lock] stands for the lockfile; nothing else parses. *)
#[export] Instance reader : Json := {|
  json := doc;
  json_map := list (string * doc);
  json_error := unit;
  from_str := fun s => if decide (s = lit "lock") then Ok lockfile else Err tt;
  look := fun v => match v with
                   | Str s => LString (lit s)
                   | Num n => LInteger n
                   | Arr l => LArray l
                   | Obj m => LObject m
                   end;
  map_get := field
|}.

Definition row (kind : string) (state : option string) (scope : option string) : check_row :=
  {| row_kind := lit kind; row_bundle := 1; row_sync_hash := None; row_generation := Some 7%Z;
     row_enabled := true; row_retired := false; row_state := lit <$> state; row_reasons := [];
     row_scope_key := lit <$> scope |}.

(** The catalog at the pinned generation; [stale] marks the concept. *)
Definition catalog (stale : bool) : PluginCatalog := {|
  query_error := unit;
  null_error := tt;
  capabilities := Ok (true, true);
  compare_query := fun _ _ => Ok ([row "bundle" (Some "fresh"%string) None]
    ++ if stale then [row "concept" (Some "stale"%string) (Some "a"%string)] else [])
|}.

End Lock.

Example lock_status :
  (ck_status <$> r_ok (check_plugin_freshness (J := Lock.reader) (Q := Lock.catalog false) (lit "lock")),
   ck_status <$> r_ok (check_plugin_freshness (J := Lock.reader) (Q := Lock.catalog true) (lit "lock")))
  = (Some Current, Some Stale).
Proof. by_eval. Qed.

Lemma plugin_status_worst_witness :
  exists r, check_plugin_freshness (J := Lock.reader) (Q := Lock.catalog false) (lit "lock") = Ok r /\
    ck_status r = Current /\
    exists name pinned entries, parse_lock (J := Lock.reader) (lit "lock") = Ok (name, pinned, entries)
      /\ pinned <> [].
Proof.
  eexists. split; [by vm_compute|]. split; [done|].
  destruct (plugin_status_worst (J := Lock.reader) (Q := Lock.catalog false) (lit "lock") _ eq_refl)
    as (_ & _ & H).
  destruct H as (name & pinned & entries & f & g & rows & st & Hp & Hne & _); [by vm_compute|].
  by exists name, pinned, entries.
Defined.
