(* ===== verification/Staging.v ===== *)
(** * Staging the changed files of a sync
      ([extension/src/catalog/sync.rs], [packages.rs], [types.rs])

    Every added or updated file becomes a [StagedConcept]: a document through
    the parser, a [SKILL.md] with its package identity, a package resource as
    a virtual concept around its exact bytes.  [StagingHost] holds what is
    not in the repository: BLAKE3, the rendering of a parser error, the
    conversion of a file time, JSON's null.  Log messages are not modelled. *)
From stdpp Require Import prelude strings gmap list.
From Stdlib Require Import Ascii ZArith Lia.
From S2P Require Import Prelude Str ParserError Serde OkfPath Frontmatter Links Concept Package.
From S2P Require Import Discover SyncDelta CatalogError.

(** ** [packages.rs]: what bytes and names say about a resource *)

Definition SCRIPT_TYPE : str := lit "Script".
Definition REFERENCE_TYPE : str := lit "Reference".
Definition DEFAULT_VISIBILITY : str := lit "internal".
Definition VISIBILITIES : list str := [lit "public"; lit "internal"; lit "private"].

(** The first pair of a table whose keys hold the string. *)
Fixpoint table_get (t : list (list string * string)) (k : str) : option str :=
  match t with
  | [] => None
  | (ks, v) :: t' => if decide (k ∈ lit <$> ks) then Some (lit v) else table_get t' k
  end.

Definition shebang_languages : list (list string * string) :=
  [(["bash"], "bash"); (["sh"; "dash"; "ash"], "shell"); (["zsh"], "zsh"); (["fish"], "fish");
   (["python"], "python"); (["node"; "nodejs"; "deno"; "bun"], "javascript"); (["ruby"], "ruby");
   (["perl"], "perl"); (["php"], "php"); (["pwsh"; "powershell"], "powershell"); (["lua"], "lua");
   (["Rscript"], "r"); (["awk"; "gawk"], "awk")]%string.

Definition extension_languages : list (list string * string) :=
  [(["sh"], "shell"); (["bash"], "bash"); (["zsh"], "zsh"); (["fish"], "fish"); (["py"], "python");
   (["rb"], "ruby"); (["js"; "mjs"; "cjs"], "javascript"); (["ts"; "mts"], "typescript");
   (["pl"], "perl"); (["php"], "php"); (["ps1"], "powershell"); (["sql"], "sql"); (["lua"], "lua");
   (["r"], "r"); (["go"], "go"); (["rs"], "rust"); (["awk"], "awk"); (["bat"; "cmd"], "batch")]%string.

Definition language_from_extension (ext : str) : option str :=
  table_get extension_languages (map to_ascii_lowercase ext).

Definition language_from_shebang (shebang : str) : option str :=
  match split_whitespace shebang with
  | [] => None
  | first :: words =>
      interpreter ← (if ends_with (lit "/env") first || bool_decide (first = lit "env")
                     then find (fun word => negb (starts_with (lit "-") word)) words
                     else Some first);
      name ← last (split_on slash interpreter);
      table_get shebang_languages
        (trim_end_matches (fun c => is_ascii_digit c || bool_decide (c = dot)) name)
  end.

(** [Path::extension] as text. *)
Definition text_extension (p : str) : option str :=
  e ← extension p; if utf8_valid e then Some e else None.

(** The interpreter line of a text. *)
Definition shebang_of (text : str) : option str :=
  line ← head (lines text);
  rest ← strip_prefix (lit "#!") line;
  if bool_decide (trim rest = []) then None else Some (trim rest).

Definition first_some {A} (a b : option A) : option A := match a with Some _ => a | None => b end.

(** The language; the runtime is built from [shebang_of] below. *)
Definition infer_language_name (package_path text : str) : str :=
  default (lit "unknown")
    (first_some (s ← shebang_of text; language_from_shebang s)
                (e ← text_extension package_path; language_from_extension e)).

Definition magic (l : list N) : str := map ascii_of_N l.

Definition SIGNATURES : list (str * str) :=
  [(magic [137; 80; 78; 71; 13; 10; 26; 10]%N, lit "image/png");
   (magic [255; 216; 255]%N, lit "image/jpeg");
   (lit "GIF87a", lit "image/gif"); (lit "GIF89a", lit "image/gif");
   (lit "%PDF-", lit "application/pdf"); (magic [80; 75; 3; 4]%N, lit "application/zip")].

Definition media_type_from_magic (bytes : str) : option str :=
  snd <$> find (fun p => starts_with p.1 bytes) SIGNATURES.

Definition extension_media : list (list string * string) :=
  [(["md"; "markdown"], "text/markdown"); (["txt"; "text"], "text/plain");
   (["json"], "application/json"); (["yaml"; "yml"], "application/yaml");
   (["toml"], "application/toml"); (["csv"], "text/csv"); (["html"; "htm"], "text/html");
   (["xml"], "application/xml"); (["svg"], "image/svg+xml"); (["png"], "image/png");
   (["jpg"; "jpeg"], "image/jpeg"); (["gif"], "image/gif"); (["webp"], "image/webp");
   (["pdf"], "application/pdf"); (["zip"], "application/zip");
   (["sh"; "bash"], "text/x-shellscript"); (["py"], "text/x-python");
   (["js"; "mjs"], "text/javascript"); (["sql"], "application/sql")]%string.

Definition media_type_from_extension (ext : str) : option str := table_get extension_media ext.

Definition media_formats : list (list string * string) :=
  [(["text/markdown"], "markdown");
   (["text/plain"; "text/x-shellscript"; "text/x-python"; "text/javascript"], "text");
   (["application/json"], "json"); (["application/yaml"], "yaml"); (["application/toml"], "toml");
   (["text/csv"], "csv"); (["text/html"], "html"); (["application/xml"; "image/svg+xml"], "xml");
   (["application/sql"], "sql"); (["application/pdf"], "pdf")]%string.

Definition format_for_media_type (media : str) : str :=
  default (if starts_with (lit "image/") media then lit "image" else lit "binary")
    (table_get media_formats media).

(** [(media type, format)]. *)
Definition media_type_for (package_path bytes : str) : str * str :=
  match media_type_from_magic bytes with
  | Some media => (media, format_for_media_type media)
  | None =>
      match e ← text_extension package_path; media_type_from_extension (map to_ascii_lowercase e) with
      | Some media => (media, format_for_media_type media)
      | None => if utf8_valid bytes then (lit "text/plain", lit "text")
                else (lit "application/octet-stream", lit "binary")
      end
  end.

(** The basename of a package-relative path. *)
Definition resource_name (package_path : str) : str :=
  match rsplit_once slash package_path with Some (_, name) => name | None => package_path end.

Definition hash_char : ascii := "#"%char.

(** The lines of a leading comment, up to the first other line. *)
Fixpoint comment_lines (ls : list str) : list str :=
  match ls with
  | [] => []
  | l :: ls' => if starts_with [hash_char] l || starts_with (lit "//") l
                then l :: comment_lines ls' else []
  end.

Definition script_description (text : str) : option str :=
  let body := map trim (List.filter (fun line => negb (starts_with (lit "#!") line)) (lines text)) in
  find (fun line => negb (bool_decide (line = [])))
    (map (fun line => trim (trim_start_matches
            (fun c => bool_decide (c = hash_char) || bool_decide (c = slash)) line))
       (comment_lines body)).

(** Fences and headings, line by line. *)
Fixpoint heading_go (fence : option nat) (ls : list str) : option str :=
  match ls with
  | [] => None
  | line :: ls' =>
      let ticks := length line - length (trim_start_matches
        (fun c => bool_decide (c = "`"%char) || bool_decide (c = "~"%char)) line) in
      if (3 <=? ticks) && (starts_with (lit "```") line || starts_with (lit "~~~") line) then
        heading_go (match fence with
                    | Some open => if open <=? ticks then None else Some open
                    | None => Some ticks
                    end) ls'
      else match fence with
           | Some _ => heading_go fence ls'
           | None =>
               match strip_prefix [hash_char] line with
               | Some rest =>
                   let title := trim (trim_start_matches (fun c => bool_decide (c = hash_char)) rest) in
                   if bool_decide (title = []) then heading_go fence ls' else Some title
               | None => heading_go fence ls'
               end
           end
  end.

Definition first_heading (text : str) : option str := heading_go None (map trim (lines text)).

Class StagingHost (S : Serde) (H : Host) : Type := {
  seconds : Type;
  (** [modified_at_epoch] on a file time *)
  epoch_seconds : system_time -> option seconds;
  hash_bytes : str -> str;
  (** [Display] of a parser error *)
  parse_error_text : Error yerror jerror -> str;
  json_null : jvalue
}.

Section staging.
Context `{S : Serde} `{H : Host} `{G : !StagingHost S H} (events : str -> list Event).

(** ** [types.rs] *)

Record SkillPayload : Type := {
  sk_package_root : str;
  sk_package_hash : str;
  sk_skill_md : str;
  sk_agent_skill : jvalue;
  sk_visibility : str;
  sk_members : list PackageMember
}.

Record ScriptPayload : Type := {
  sc_bytes : str;
  sc_language : str;
  sc_runtime : option jvalue;
  sc_source_path : str;
  sc_package_concept_id : str;
  sc_visibility : str
}.

Record ReferencePayload : Type := {
  rf_bytes : str;
  rf_format : str;
  rf_media_type : str;
  rf_text_body : option str;
  rf_source_path : str;
  rf_package_concept_id : str;
  rf_visibility : str
}.

Inductive TypedPayload : Type :=
| PSkill (p : SkillPayload)
| PScript (p : ScriptPayload)
| PReference (p : ReferencePayload).

Record StagedConcept : Type := {
  st_concept : ParsedConcept;
  st_file_hash : str;
  st_modified_at_epoch : option seconds;
  st_raw_content : option str;
  st_typed : option TypedPayload
}.

Record ResourceContext : Type := {
  rc_path : str;
  rc_package_path : str;
  rc_package_concept_id : str;
  rc_visibility : str;
  rc_file_hash : str;
  rc_modified_at_epoch : option seconds
}.

(** ** [packages.rs]: one file *)

Definition then_some {A} (b : bool) (a : A) : option A := if b then Some a else None.

Definition infer_language (package_path text : str) : str * option jvalue :=
  (infer_language_name package_path text,
   (fun executable => json_object (map_insert (lit "executable") (json_string executable) map_new))
     <$> shebang_of text).

Definition skill_visibility (agent_skill : jvalue) : str :=
  match json_look agent_skill with
  | JObject m =>
      match as_str <$> map_get m (lit "visibility") with
      | Some (Some v) => if decide (v ∈ VISIBILITIES) then v else DEFAULT_VISIBILITY
      | _ => DEFAULT_VISIBILITY
      end
  | _ => DEFAULT_VISIBILITY
  end.

Definition stage_manifest (bytes path file_hash : str) (modified : option seconds)
    (members : list PackageMember) (limits : ParserLimits) (store_source : bool)
  : result (StagedConcept * list SkillDiagnostic) (Error yerror jerror) :=
  let? concept := parse_skill_manifest events bytes path limits in
  let package_root := parent_directory (pc_path concept) in
  let agent_skill := default json_null (map_get (pc_metadata concept) AGENT_SKILL_KEY) in
  let payload := {|
    sk_package_root := package_root;
    sk_package_hash := package_hash hash_bytes file_hash members;
    sk_skill_md := bytes;
    sk_agent_skill := agent_skill;
    sk_visibility := skill_visibility agent_skill;
    sk_members := members |} in
  Ok ({| st_concept := concept; st_file_hash := file_hash; st_modified_at_epoch := modified;
         st_raw_content := then_some store_source bytes; st_typed := Some (PSkill payload) |},
      validate_skill concept package_root).

Definition resource_metadata (context : ResourceContext) (class : str) : jmap :=
  map_insert (lit "visibility") (json_string (rc_visibility context))
    (map_insert (lit "resource_class") (json_string class)
      (map_insert (lit "source_path") (json_string (rc_package_path context))
        (map_insert (lit "package") (json_string (rc_package_concept_id context)) map_new))).

(** Text that PostgreSQL can store: UTF-8 without U+0000. *)
Definition storable_text (bytes : str) : option str :=
  if utf8_valid bytes && negb (contains_char nul bytes) then Some bytes else None.

Definition virtual_concept (context : ResourceContext) (type title : str) (description : option str)
    (body : str) (metadata : jmap) : ParsedConcept :=
  {| pc_id := rc_path context; pc_declared_id := None; pc_path := rc_path context;
     pc_type := type; pc_title := title; pc_description := description; pc_tags := [];
     pc_resource := None; pc_body_text := body; pc_links := []; pc_metadata := metadata |}.

Definition stage_script (bytes : str) (context : ResourceContext) (store_source : bool)
  : result StagedConcept CatalogError :=
  let? text := ok_or (invalid_parameter
      (rc_path context ++ lit " is not text a script can be stored as; a binary file below scripts/ is not a Script (place it under assets/ instead)")
      (rc_path context)) (storable_text bytes) in
  let '(language, runtime) := infer_language (rc_package_path context) text in
  let metadata := map_insert (lit "language") (json_string language)
                    (resource_metadata context (lit "script")) in
  let metadata := match runtime with
                  | Some r => map_insert (lit "runtime") r metadata
                  | None => metadata
                  end in
  Ok {| st_concept := virtual_concept context SCRIPT_TYPE (resource_name (rc_package_path context))
                        (script_description text) text metadata;
        st_file_hash := rc_file_hash context;
        st_modified_at_epoch := rc_modified_at_epoch context;
        st_raw_content := then_some store_source bytes;
        st_typed := Some (PScript {|
          sc_bytes := bytes; sc_language := language; sc_runtime := runtime;
          sc_source_path := rc_package_path context;
          sc_package_concept_id := rc_package_concept_id context;
          sc_visibility := rc_visibility context |}) |}.

(** The body of a Markdown text after its frontmatter, if it has one. *)
Definition markdown_body (text path : str) : str :=
  match split (Y := yerror) (J := jerror) text path (length text) with
  | Ok (_, body) => body
  | Err _ => text
  end.

Definition stage_reference (bytes : str) (context : ResourceContext) (store_source : bool)
  : StagedConcept :=
  let '(media_type, format) := media_type_for (rc_package_path context) bytes in
  let text_body := if bool_decide (format = lit "binary") || bool_decide (format = lit "image")
                   then None else storable_text bytes in
  let name := resource_name (rc_package_path context) in
  let '(title, body_text) :=
    match text_body with
    | Some text =>
        if decide (format = lit "markdown") then
          let body := markdown_body text (rc_path context) in
          (default name (first_heading body), plain_text (events body))
        else (name, text)
    | None => (name, [])
    end in
  let origin := if starts_with (lit "assets/") (rc_package_path context) then lit "asset"
                else lit "reference" in
  let metadata := map_insert (lit "media_type") (json_string media_type)
    (map_insert (lit "format") (json_string format) (resource_metadata context origin)) in
  {| st_concept := virtual_concept context REFERENCE_TYPE title None body_text metadata;
     st_file_hash := rc_file_hash context;
     st_modified_at_epoch := rc_modified_at_epoch context;
     st_raw_content := then_some store_source bytes;
     st_typed := Some (PReference {|
       rf_bytes := bytes; rf_format := format; rf_media_type := media_type;
       rf_text_body := text_body; rf_source_path := rc_package_path context;
       rf_package_concept_id := rc_package_concept_id context;
       rf_visibility := rc_visibility context |}) |}.

(** ** [sync.rs]: the pass *)

Record Staging : Type := {
  staged : list StagedConcept;
  skipped : list str;
  strict : bool;
  store_source : bool
}.

Definition push_staged (st : Staging) (c : StagedConcept) : Staging :=
  {| staged := staged st ++ [c]; skipped := skipped st; strict := strict st;
     store_source := store_source st |}.
Definition push_skipped (st : Staging) (p : str) : Staging :=
  {| staged := staged st; skipped := skipped st ++ [p]; strict := strict st;
     store_source := store_source st |}.

Definition malformed (st : Staging) (metadata : FileMetadata) (error : str)
  : result Staging CatalogError :=
  if strict st then
    Err (invalid_parameter (lit "failed to parse OKF concept: " ++ error) (path metadata))
  else Ok (push_skipped st (path metadata)).

Definition modified_at_epoch (metadata : FileMetadata) : option seconds :=
  modified_at metadata ≫= epoch_seconds.

(** [Path::to_str]. *)
Definition to_str (p : str) : option str := if utf8_valid p then Some p else None.

Definition stage_resource (st : Staging) (metadata : FileMetadata) (bytes : str)
    (index : PackageIndex) (visibilities : gmap (list ascii) (list ascii))
  : result Staging CatalogError :=
  let? p := ok_or (invalid_parameter (lit "bundle path is not valid UTF-8") (path metadata))
              (to_str (path metadata)) in
  let? (root, package_path) :=
    match owner_of index p, package_relative index p with
    | Some r, Some q => Ok (r, q)
    | _, _ => Err (internal (lit "resource " ++ p
                    ++ lit " has no owning skill package in the snapshot") (path metadata))
    end in
  let context := {|
    rc_path := p; rc_package_path := package_path;
    rc_package_concept_id := skill_concept_id_of root;
    rc_visibility := default DEFAULT_VISIBILITY (visibilities !! root);
    rc_file_hash := hash metadata; rc_modified_at_epoch := modified_at_epoch metadata |} in
  if decide (class metadata = SkillScript) then
    match stage_script bytes context (store_source st) with
    | Ok c => Ok (push_staged st c)
    | Err error => malformed st metadata (message error)
    end
  else Ok (push_staged st (stage_reference bytes context (store_source st))).

(** The directory of a manifest entry. *)
Definition manifest_root (metadata : FileMetadata) : str :=
  default [] (p ← to_str (path metadata); manifest_directory p).

Section pass.
Context (read_bytes : str -> result str CatalogError) (limits : ParserLimits)
  (current : list FileMetadata).

Definition snapshot_index : PackageIndex :=
  from_paths (omap (fun e => if is_manifest e then to_str (path e) else None) current).

Abbreviation manifests_state :=
  (Staging * gmap (list ascii) (list ascii) * gset (list ascii))%type.

Definition manifest_step (st : manifests_state) (metadata : FileMetadata)
  : result manifests_state CatalogError :=
  let '(staging, visibilities, skipped_roots) := st in
  let? bytes := read_bytes (path metadata) in
  let root := manifest_root metadata in
  match stage_manifest bytes (path metadata) (hash metadata) (modified_at_epoch metadata)
          (package_members root snapshot_index current) limits (store_source staging) with
  | Ok (c, _) =>
      let visibilities' := match st_typed c with
                           | Some (PSkill payload) => <[root := sk_visibility payload]> visibilities
                           | _ => visibilities
                           end in
      Ok (push_staged staging c, visibilities', skipped_roots)
  | Err error =>
      let? staging' := malformed staging metadata (parse_error_text error) in
      Ok (staging', visibilities, {[root]} ∪ skipped_roots)
  end.

(** Whether a resource follows its manifest out of the pass. *)
Definition skipped_with_manifest (skipped_roots : gset (list ascii)) (metadata : FileMetadata) : bool :=
  is_resource (class metadata)
  && match to_str (path metadata) with
     | Some p => match owner_of snapshot_index p with
                 | Some root => bool_decide (root ∈ skipped_roots)
                 | None => false
                 end
     | None => false
     end.

Definition other_step (visibilities : gmap (list ascii) (list ascii))
    (skipped_roots : gset (list ascii)) (staging : Staging) (metadata : FileMetadata)
  : result Staging CatalogError :=
  if skipped_with_manifest skipped_roots metadata then Ok (push_skipped staging (path metadata))
  else
    let? bytes := read_bytes (path metadata) in
    match class metadata with
    | OkfDocument =>
        match parse_concept events bytes (path metadata) limits with
        | Ok concept => Ok (push_staged staging
            {| st_concept := concept; st_file_hash := hash metadata;
               st_modified_at_epoch := modified_at_epoch metadata;
               st_raw_content := then_some (store_source staging) bytes; st_typed := None |})
        | Err error => malformed staging metadata (parse_error_text error)
        end
    | SkillScript | SkillReference | SkillAsset =>
        stage_resource staging metadata bytes snapshot_index visibilities
    | SkillManifest | Reserved => Ok staging
    end.

Definition stage_changed_concepts (delta : BundleDelta) (is_strict keep_source : bool)
  : result (list StagedConcept * list str) CatalogError :=
  let start := {| staged := []; skipped := []; strict := is_strict; store_source := keep_source |} in
  let manifests := List.filter is_manifest (to_parse delta) in
  let others := List.filter (fun e => negb (is_manifest e)) (to_parse delta) in
  let? (staging, visibilities, skipped_roots) := rfold manifest_step manifests (start, ∅, ∅) in
  let? final := rfold (other_step visibilities skipped_roots) others staging in
  Ok (staged final, skipped final).

End pass.

End staging.

(** * Properties *)

Section staging_props.
Context `{S : Serde} `{H : Host} `{G : !StagingHost S H} (events : str -> list Event).

Lemma storable_text_Some b t :
  storable_text b = Some t <-> t = b /\ utf8_valid b = true /\ (nul ∉ b).
Proof.
  unfold storable_text, contains_char. destruct (utf8_valid b); cbn [andb]; [|naive_solver].
  case_bool_decide; cbn [negb]; naive_solver.
Qed.

(** A package resource keeps its bytes verbatim, and its text is only
    ever those bytes when PostgreSQL can hold them: a script is staged
    exactly when it is UTF-8 without U+0000 (its body and its payload are
    then the file itself), and a reference or asset is always staged with
    its exact bytes, with a text body only if that is the same bytes,
    UTF-8, without U+0000, and not of a binary or image format. *)
Theorem resources_verbatim (bytes : str) (context : ResourceContext) (keep : bool) :
  ((exists c, stage_script bytes context keep = Ok c) <-> utf8_valid bytes = true /\ (nul ∉ bytes)) /\
  (forall c, stage_script bytes context keep = Ok c ->
     pc_body_text (st_concept c) = bytes /\ pc_type (st_concept c) = SCRIPT_TYPE /\
     exists p, st_typed c = Some (PScript p) /\ sc_bytes p = bytes /\
       sc_package_concept_id p = rc_package_concept_id context /\
       sc_visibility p = rc_visibility context) /\
  (exists p, st_typed (stage_reference events bytes context keep) = Some (PReference p) /\
     rf_bytes p = bytes /\
     (rf_media_type p, rf_format p) = media_type_for (rc_package_path context) bytes /\
     forall t, rf_text_body p = Some t ->
       t = bytes /\ utf8_valid t = true /\ (nul ∉ t) /\
       rf_format p <> lit "binary" /\ rf_format p <> lit "image").
Proof.
  unfold stage_script. split_and!.
  - split.
    + intros [c Hc]. destruct (storable_text bytes) as [t|] eqn:E; [|done].
      by apply storable_text_Some in E as (_ & ? & ?).
    + intros Hb. assert (storable_text bytes = Some bytes) as -> by (by apply storable_text_Some).
      cbn [ok_or rbind]. destruct (infer_language _ _). by eexists.
  - intros c Hc. destruct (storable_text bytes) as [t|] eqn:E; [|done].
    apply storable_text_Some in E as (-> & _ & _). cbn [ok_or rbind] in Hc.
    destruct (infer_language _ _). apply Ok_inj in Hc as <-. cbn. split_and!; [done..|]. by eexists.
  - unfold stage_reference. destruct (media_type_for _ _) as [media format].
    case_bool_decide as Hbin; [cbn; eexists; split_and!; done|].
    case_bool_decide as Himg; [cbn; eexists; split_and!; done|]. cbn [orb].
    set (tb := storable_text bytes). destruct (match tb with Some _ => _ | None => _ end) as [title body].
    eexists. split_and!; [done..|]. cbn. intros t Ht. apply storable_text_Some in Ht as (-> & ? & ?).
    done.
Qed.

(** ** The pass *)

Section pass_props.
Context (read_bytes : str -> result str CatalogError) (limits : ParserLimits)
  (current : list FileMetadata) (is_strict keep : bool).

Abbreviation mstep := (manifest_step events read_bytes limits current).
Abbreviation ostep := (other_step events read_bytes limits current).

(** The owner and visibility a staged resource records. *)
Definition resource_of (c : StagedConcept) : option (str * str) :=
  match st_typed c with
  | Some (PScript p) => Some (sc_package_concept_id p, sc_visibility p)
  | Some (PReference p) => Some (rf_package_concept_id p, rf_visibility p)
  | _ => None
  end.

(** Files that the pass accounts for. *)
Definition counted (done : list FileMetadata) : nat :=
  length (List.filter (fun m => negb (bool_decide (class m = Reserved))) done).

(** Bookkeeping common to both loops. *)
Record accounts (done : list FileMetadata) (st : Staging) : Prop := {
  ac_strict : strict st = is_strict;
  ac_count : length (staged st) + length (skipped st) = counted done;
  ac_skipped p : p ∈ skipped st -> exists m, m ∈ done /\ path m = p;
  ac_none : is_strict = true -> skipped st = []
}.

Lemma counted_snoc done m :
  counted (done ++ [m]) = counted done + (if bool_decide (class m = Reserved) then 0 else 1).
Proof. unfold counted. rewrite List.filter_app, length_app. cbn. by case_bool_decide. Qed.

Lemma accounts_pushed done st m c :
  accounts done st -> class m <> Reserved -> accounts (done ++ [m]) (push_staged st c).
Proof.
  intros [A1 A2 A3 A4] Hm. split; cbn; [done| | |done].
  - rewrite counted_snoc, length_app, bool_decide_false by done. cbn. lia.
  - intros p (m' & ? & ?)%A3. exists m'. split; [|done]. apply elem_of_app. by left.
Qed.

Lemma accounts_skipped done st m :
  accounts done st -> class m <> Reserved -> is_strict = false ->
  accounts (done ++ [m]) (push_skipped st (path m)).
Proof.
  intros [A1 A2 A3 A4] Hm Hs. split; cbn; [done| | |by rewrite Hs].
  - rewrite counted_snoc, length_app, bool_decide_false by done. cbn. lia.
  - intros p [(m' & ? & ?)%A3| ->%list_elem_of_singleton]%elem_of_app.
    + exists m'. split; [|done]. apply elem_of_app. by left.
    + exists m. split; [|done]. apply elem_of_app. right. by left.
Qed.

Lemma malformed_ok st m e st' :
  malformed st m e = Ok st' -> strict st = false /\ st' = push_skipped st (path m).
Proof. unfold malformed. destruct (strict st); [done|]. by intros [= <-]. Qed.

Lemma is_manifest_class m : is_manifest m = true -> class m = SkillManifest.
Proof. unfold is_manifest. by intros ?%bool_decide_eq_true. Qed.

(** After the manifests. *)
Record manifests_done (done : list FileMetadata)
    (st : Staging * gmap (list ascii) (list ascii) * gset (list ascii)) : Prop := {
  md_accounts : accounts done st.1.1;
  md_skills c : c ∈ staged st.1.1 -> resource_of c = None;
  md_visible root v : st.1.2 !! root = Some v ->
    exists m c p, m ∈ done /\ manifest_root m = root /\ c ∈ staged st.1.1 /\
      st_typed c = Some (PSkill p) /\ sk_visibility p = v;
  md_all m : m ∈ done -> is_Some (st.1.2 !! manifest_root m) \/ manifest_root m ∈ st.2;
  md_failed m : path m ∈ skipped st.1.1 -> manifest_root m ∈ st.2;
  md_strict : is_strict = true -> st.2 = ∅
}.

Lemma manifest_step_done done st m st' :
  is_manifest m = true -> manifests_done done st -> mstep st m = Ok st' ->
  manifests_done (done ++ [m]) st'.
Proof.
  intros Hm%is_manifest_class D. destruct st as [[st vis] roots]. unfold manifest_step.
  intros (bytes & _ & Hrun)%rbind_ok.
  assert (class m <> Reserved) as Hres by (by rewrite Hm).
  destruct (stage_manifest _ _ _ _ _ _ _ _) as [[c f]|e] eqn:Es.
  - unfold stage_manifest in Es. apply rbind_ok in Es as (concept & _ & Es).
    apply Ok_inj in Es. injection Es as <- _. cbn [st_typed] in Hrun. apply Ok_inj in Hrun as <-.
    cbn. split; cbn.
    + apply accounts_pushed; [apply D|done].
    + intros c [Hc| ->%list_elem_of_singleton]%elem_of_app; [by apply (md_skills _ _ D)|done].
    + intros root v [[<- <-]|[_ Hv]]%lookup_insert_Some.
      * exists m. eexists. eexists. split; [apply elem_of_app; right; by left|]. split; [done|].
        split; [apply elem_of_app; right; by left|]. done.
      * destruct (md_visible _ _ D root v Hv) as (m' & c' & p' & ? & ? & ? & ?).
        exists m', c', p'. split_and!; try done; (apply elem_of_app; by left) || naive_solver.
    + intros m' [Hm'| ->%list_elem_of_singleton]%elem_of_app.
      * destruct (md_all _ _ D m' Hm') as [?|?]; [left|by right].
        apply lookup_insert_is_Some'. by right.
      * left. by rewrite lookup_insert_eq.
    + apply (md_failed _ _ D).
    + apply D.
  - apply rbind_ok in Hrun as (st2 & [Hf ->]%malformed_ok & [= <-]).
    pose proof (ac_strict _ _ (md_accounts _ _ D)) as Hst. cbn [fst] in Hst. rewrite Hst in Hf.
    split; cbn.
    + apply accounts_skipped; [apply D|done|done].
    + apply D.
    + intros root v Hv. destruct (md_visible _ _ D root v Hv) as (m' & c' & p' & ? & ?).
      exists m', c', p'. split; [apply elem_of_app; by left|done].
    + intros m' [Hm'| ->%list_elem_of_singleton]%elem_of_app; [|right; set_solver].
      destruct (md_all _ _ D m' Hm') as [?|?]; [by left|right; set_solver].
    + intros m' [Hp|Hp%list_elem_of_singleton]%elem_of_app.
      * apply (md_failed _ _ D) in Hp. set_solver.
      * unfold manifest_root. rewrite Hp. set_solver.
    + by rewrite Hf.
Qed.

(** After the other files, for a given state after the manifests. *)
Record others_done (vis : gmap (list ascii) (list ascii)) (roots : gset (list ascii))
    (base : Staging) (mdone done : list FileMetadata) (st : Staging) : Prop := {
  od_accounts : accounts (mdone ++ done) st;
  od_base : exists more, staged st = staged base ++ more;
  od_owned c o v : c ∈ staged st -> resource_of c = Some (o, v) ->
    exists m root, m ∈ done /\ is_resource (class m) = true /\
      owner_of (snapshot_index current) (path m) = Some root /\ (root ∉ roots) /\
      o = skill_concept_id_of root /\ v = default DEFAULT_VISIBILITY (vis !! root)
}.

Lemma stage_resource_ok vis m bytes st st' :
  stage_resource events st m bytes (snapshot_index current) vis = Ok st' ->
  (strict st = false /\ st' = push_skipped st (path m)) \/
  exists c root, st' = push_staged st c /\
    to_str (path m) = Some (path m) /\ owner_of (snapshot_index current) (path m) = Some root /\
    resource_of c = Some (skill_concept_id_of root, default DEFAULT_VISIBILITY (vis !! root)).
Proof.
  unfold stage_resource, to_str. destruct (utf8_valid (path m)) eqn:Hu; [|done]. cbn [ok_or rbind].
  destruct (owner_of _ (path m)) as [root|] eqn:Ho; [|done].
  destruct (package_relative _ (path m)) as [q|]; [|done]. cbn [rbind].
  case_decide as Hc.
  - destruct (stage_script _ _ _) as [c|e] eqn:Es; [|intros ?%malformed_ok; by left].
    intros [= <-]. right. exists c, root. split_and!; try done.
    unfold stage_script in Es. destruct (storable_text bytes); [|done]. cbn [ok_or rbind] in Es.
    destruct (infer_language _ _). by apply Ok_inj in Es as <-.
  - intros H'. apply Ok_inj in H' as <-. right. eexists _, root. split_and!; try done.
    unfold stage_reference. destruct (media_type_for _ _).
    match goal with |- context [let '(_, _) := ?t in _] => by destruct t end.
Qed.

Lemma other_step_done vis roots base mdone done st m st' :
  is_manifest m = false -> (is_strict = true -> roots = ∅) ->
  others_done vis roots base mdone done st -> ostep vis roots st m = Ok st' ->
  others_done vis roots base mdone (done ++ [m]) st'.
Proof.
  intros Hm Hroots D. unfold other_step.
  assert (forall c, class m <> Reserved ->
    (forall o v, resource_of c = Some (o, v) -> exists root, is_resource (class m) = true /\
       owner_of (snapshot_index current) (path m) = Some root /\ (root ∉ roots) /\
       o = skill_concept_id_of root /\ v = default DEFAULT_VISIBILITY (vis !! root)) ->
    others_done vis roots base mdone (done ++ [m]) (push_staged st c)) as Hpush.
  { intros c Hres Hc. split.
    - rewrite app_assoc. apply accounts_pushed; [apply D|done].
    - destruct (od_base _ _ _ _ _ _ D) as [more Hmore]. exists (more ++ [c]). cbn.
      by rewrite Hmore, app_assoc.
    - intros c' o v [Hin| ->%list_elem_of_singleton]%elem_of_app Hr.
      + destruct (od_owned _ _ _ _ _ _ D _ _ _ Hin Hr) as (m' & root & ? & ?).
        exists m', root. split; [apply elem_of_app; by left|done].
      + destruct (Hc o v Hr) as (root & ?). exists m, root. split; [apply elem_of_app; right; by left|done]. }
  assert (class m <> Reserved -> is_strict = false ->
    others_done vis roots base mdone (done ++ [m]) (push_skipped st (path m))) as Hskip.
  { intros Hres Hs. split; [|apply D|].
    - rewrite app_assoc. apply accounts_skipped; [apply D|done|done].
    - intros c' o v Hin Hr. destruct (od_owned _ _ _ _ _ _ D _ _ _ Hin Hr) as (m' & root & ? & ?).
      exists m', root. split; [apply elem_of_app; by left|done]. }
  pose proof (ac_strict _ _ (od_accounts _ _ _ _ _ _ D)) as Hst.
  destruct (skipped_with_manifest current roots m) eqn:Hsk.
  - intros [= <-]. apply Hskip.
    + intros Hres. unfold skipped_with_manifest in Hsk. by rewrite Hres in Hsk.
    + destruct is_strict; [|done]. rewrite (Hroots eq_refl) in Hsk. unfold skipped_with_manifest in Hsk.
      destruct (is_resource _), (to_str _); try done. cbn [andb] in Hsk.
      split_match_in Hsk; [|done]. bool_prop. set_solver.
  - intros (bytes & _ & Hrun)%rbind_ok.
    assert (is_resource (class m) = true ->
      stage_resource events st m bytes (snapshot_index current) vis = Ok st' ->
      others_done vis roots base mdone (done ++ [m]) st') as Hresource.
    { intros Hr [[Hs ->]|(c & root & -> & Hto & Ho & Hc)]%stage_resource_ok.
      - apply Hskip; [by intros He; rewrite He in Hr|congruence].
      - apply Hpush; [by intros He; rewrite He in Hr|]. intros o v Hov. rewrite Hc in Hov.
        injection Hov as <- <-. exists root. split_and!; try done.
        intros Hin. unfold skipped_with_manifest in Hsk. rewrite Hr, Hto, Ho in Hsk.
        cbn in Hsk. by rewrite bool_decide_true in Hsk. }
    destruct (class m) eqn:Hc; try (by apply Hresource).
    + destruct (parse_concept _ _ _ _) as [concept|e].
      * apply Ok_inj in Hrun as <-. apply Hpush; [done|]. by intros o v [=].
      * apply malformed_ok in Hrun as [Hs ->]. apply Hskip; [done|congruence].
    + exfalso. unfold is_manifest in Hm. rewrite Hc in Hm. done.
    + apply Ok_inj in Hrun as <-. split; [|apply D|].
      * rewrite app_assoc. pose proof (od_accounts _ _ _ _ _ _ D) as [A1 A2 A3 A4].
        split; [done| | |done].
        -- rewrite counted_snoc, Hc, bool_decide_true by done. lia.
        -- intros p (m' & ? & ?)%A3. exists m'. split; [apply elem_of_app; by left|done].
      * intros c' o v Hin Hr. destruct (od_owned _ _ _ _ _ _ D _ _ _ Hin Hr) as (m' & root & ? & ?).
        exists m', root. split; [apply elem_of_app; by left|done].
Qed.

(** Both loops together. *)
Lemma pass_done delta cs sk :
  stage_changed_concepts events read_bytes limits current delta is_strict keep = Ok (cs, sk) ->
  let manifests := List.filter is_manifest (to_parse delta) in
  let others := List.filter (fun e => negb (is_manifest e)) (to_parse delta) in
  exists st vis roots final, manifests_done manifests (st, vis, roots) /\
    others_done vis roots st manifests others final /\ cs = staged final /\ sk = skipped final.
Proof.
  unfold stage_changed_concepts. set (start := {| staged := []; skipped := [] |}).
  intros ([[st vis] roots] & Hm & Hrun)%rbind_ok.
  apply rbind_ok in Hrun as (final & Ho & Hrun). apply Ok_inj in Hrun. injection Hrun as <- <-.
  assert (manifests_done (List.filter is_manifest (to_parse delta)) (st, vis, roots)) as D.
  { eapply rfold_inv; [| |exact Hm].
    - split; cbn; try done; [|by intros ? ?%not_elem_of_nil|by intros ? ?%not_elem_of_nil|
        by intros ? ?%not_elem_of_nil].
      split; cbn; try done. by intros ? ?%not_elem_of_nil.
    - intros pre m post t t' Hl D Hstep. eapply manifest_step_done; [|done|done].
      assert (In m (List.filter is_manifest (to_parse delta))) as Hin
        by (rewrite Hl; apply in_or_app; right; by left).
      by apply filter_In in Hin as [_ ?]. }
  exists st, vis, roots, final. split; [done|]. split; [|done].
  eapply (rfold_inv _ (others_done vis roots st (List.filter is_manifest (to_parse delta))));
    [| |exact Ho].
  - split.
    + rewrite app_nil_r. apply D.
    + exists []. by rewrite app_nil_r.
    + intros c o v Hc Hr. apply (md_skills _ _ D) in Hc. congruence.
  - intros pre m post t t' Hl D' Hstep. eapply other_step_done; [|apply D|done|done].
    assert (In m (List.filter (fun e => negb (is_manifest e)) (to_parse delta))) as Hin
      by (rewrite Hl; apply in_or_app; right; by left).
    apply filter_In in Hin as [_ Hin]. by destruct (is_manifest m).
Qed.

Lemma counted_split l :
  counted (List.filter is_manifest l ++ List.filter (fun e => negb (is_manifest e)) l) = counted l.
Proof.
  unfold counted. rewrite List.filter_app, length_app.
  induction l as [|m l IH]; [done|]. cbn. destruct (is_manifest m); cbn;
    case_bool_decide; cbn; lia.
Qed.

End pass_props.

(** A successful staging pass accounts for every changed file and leaves
    no orphan: each non-reserved entry is either staged or skipped, nothing
    is skipped in strict mode, and every staged resource belongs to the
    skill package that owns its path, no manifest of which was skipped in
    the pass; it carries the visibility of a skill staged from that
    package's manifest in this pass, or the default one when the pass has
    no such manifest. *)
Theorem staging_accounts (read_bytes : str -> result str CatalogError) (limits : ParserLimits)
    (current : list FileMetadata) (delta : BundleDelta) (is_strict keep : bool)
    (cs : list StagedConcept) (sk : list str)
    (Hok : stage_changed_concepts events read_bytes limits current delta is_strict keep = Ok (cs, sk)) :
  length cs + length sk = counted (to_parse delta) /\
  (is_strict = true -> sk = []) /\
  (forall p, p ∈ sk -> exists m, m ∈ to_parse delta /\ path m = p) /\
  (forall c o v, c ∈ cs -> resource_of c = Some (o, v) ->
     exists m root, m ∈ to_parse delta /\ is_resource (class m) = true /\
       owner_of (snapshot_index current) (path m) = Some root /\ o = skill_concept_id_of root /\
       (forall mm, mm ∈ to_parse delta -> class mm = SkillManifest -> manifest_root mm = root ->
          exists c' p, c' ∈ cs /\ st_typed c' = Some (PSkill p) /\ sk_visibility p = v) /\
       ((forall mm, mm ∈ to_parse delta -> class mm = SkillManifest -> manifest_root mm <> root) ->
        v = DEFAULT_VISIBILITY)).
Proof.
  destruct (pass_done _ _ _ _ _ _ _ _ Hok) as (st & vis & roots & final & D & O & -> & ->).
  pose proof (od_accounts _ _ _ _ _ _ _ _ O) as [A1 A2 A3 A4].
  set (manifests := List.filter is_manifest (to_parse delta)) in *.
  assert (forall mm, mm ∈ manifests <-> mm ∈ to_parse delta /\ class mm = SkillManifest) as Hman.
  { intros mm. unfold manifests. rewrite !list_elem_of_In, filter_In. unfold is_manifest.
    by rewrite bool_decide_eq_true. }
  split_and!.
  - rewrite <- counted_split. exact A2.
  - exact A4.
  - intros p (m & Hm & <-)%A3. exists m. split; [|done]. unfold manifests in Hm.
    rewrite elem_of_app, !list_elem_of_In, !filter_In in Hm. rewrite list_elem_of_In. tauto.
  - intros c o v Hc Hr.
    destruct (od_owned _ _ _ _ _ _ _ _ O _ _ _ Hc Hr) as (m & root & Hm & Hres & Hown & Hroots & -> & ->).
    exists m, root. split; [by rewrite list_elem_of_In, filter_In, <- list_elem_of_In in Hm; destruct Hm|].
    split_and!; try done.
    + intros mm Hmm Hcl Hroot.
      destruct (md_all _ _ _ D mm) as [[v Hv]|Hf]; [by apply Hman| |by rewrite Hroot in Hf].
      cbn in Hv. rewrite Hroot in Hv. rewrite Hv. cbn [default].
      destruct (md_visible _ _ _ D root v Hv) as (_ & c' & p & _ & _ & Hc' & Hp & Hpv).
      exists c', p. split; [|done]. cbn in Hc'.
      destruct (od_base _ _ _ _ _ _ _ _ O) as [more ->]. apply elem_of_app. by left.
    + intros Hno. destruct (vis !! root) as [v|] eqn:Hv; [|done].
      destruct (md_visible _ _ _ D root v Hv) as (mm & _ & _ & Hmm & Hroot & _).
      apply Hman in Hmm as [Hmm Hcl]. by destruct (Hno mm Hmm Hcl).
Qed.

End staging_props.

(** ** A concrete pass *)

Module Pass.

#[export] Instance host : StagingHost Toy.toy Demo.host :=
  @Build_StagingHost Toy.toy Demo.host unit (fun _ => None) (fun s => s) (fun _ => [])
    (Toy.Object []).

(** A package with a shell script and a binary below scripts/. *)
Definition cur : list (FileMetadata (H := Demo.host)) :=
  [demo_meta "p/SKILL.md" "s" SkillManifest; demo_meta "p/scripts/run" "r" SkillScript;
   demo_meta "p/scripts/blob" "b" SkillScript].

Definition read (p : str) : result str CatalogError :=
  Ok (if decide (p = lit "p/SKILL.md") then sample_skill
      else if decide (p = lit "p/scripts/run") then lit "#!/usr/bin/env -S bash" ++ [nl] ++ lit "# Ship it."
      else [ascii_of_N 255]).

Definition delta : BundleDelta (H := Demo.host) :=
  {| to_parse := cur; removed_paths := []; report := empty_report |}.

Abbreviation run := (stage_changed_concepts (G := host) script_events read sample_limits cur delta).

(** What a staged concept shows: its type, its description, its language. *)
Definition shown (c : StagedConcept (G := host)) : str * option str * option str :=
  (pc_type (st_concept c), pc_description (st_concept c),
   match st_typed c with Some (PScript p) => Some (sc_language p) | _ => None end).

Example lenient_pass :
  rmap (fun '(cs, sk) => (shown <$> cs, sk)) (run false true)
  = Ok ([(SKILL_TYPE, Some (lit "Ship it"), None);
         (SCRIPT_TYPE, Some (lit "Ship it."), Some (lit "bash"))], [lit "p/scripts/blob"]).
Proof. by_eval. Qed.

Example strict_pass : is_ok (run true true) = false.
Proof. by_eval. Qed.

End Pass.

Lemma staging_accounts_witness :
  exists cs sk, stage_changed_concepts (G := Pass.host) script_events Pass.read sample_limits Pass.cur
                  Pass.delta false true = Ok (cs, sk) /\ length cs + length sk = 3.
Proof.
  destruct (stage_changed_concepts (G := Pass.host) script_events Pass.read sample_limits Pass.cur
              Pass.delta false true) as [[cs sk]|e] eqn:E.
  - exists cs, sk. split; [reflexivity|].
    exact (proj1 (staging_accounts (G := Pass.host) script_events Pass.read sample_limits Pass.cur
             Pass.delta false true cs sk E)).
  - exfalso. apply (f_equal is_ok) in E.
    assert (is_ok (stage_changed_concepts (G := Pass.host) script_events Pass.read sample_limits
              Pass.cur Pass.delta false true) = true) as Hv by by_eval.
    rewrite E in Hv. discriminate Hv.
Defined.
