(* ===== verification/Catalog.v ===== *)
(** * The catalog database and its transactions

    The tables the catalog's own operations read and write, as one record
    [Db], and the monad those operations run in.  An operation is one
    PostgreSQL transaction: it commits with a new database ([Done]), or it
    fails with a [CatalogError] ([Fail]) or by a PostgreSQL error or a panic
    ([Raise]), and then nothing of it stays.  The statements of a transaction
    run one after the other; the advisory locks the source takes serialise
    the transactions of one bundle and are implicit here.

    A table whose key is an identity column is a list in key order (the order
    of insertion), so [ORDER BY] on that key is the stored order; a table
    with another primary key is a finite map.  [timestamptz] is a [Z] of
    microseconds. *)
From stdpp Require Import prelude strings gmap list sorting.
From Stdlib Require Import Ascii ZArith Lia.
From S2P Require Import Prelude Str OkfPath CatalogError Discover Security.

(** ** Rows *)

(** [pgokf.bundles] *)
Record Bundle : Type := {
  b_path : str;
  b_name : option str;
  b_okf_version : option str;
  b_file_count : Z;
  b_last_synced_at : option Z;
  b_sync_hash : option str;
  b_enabled : bool;
  b_tenant : str;
  b_retired_at : option Z;
  b_catalog_generation : Z;
  b_source_type : str
}.

(** [pgokf.bundle_freshness] *)
Record BundleFreshness : Type := {
  bf_tenant : str;
  bf_state : str;
  bf_reasons : list str;
  bf_observed : option str;
  bf_materialized_source : option str;
  bf_materialized_catalog : option Z;
  bf_stale_since : option Z;
  bf_last_reconciled_at : option Z;
  bf_producer : option str;
  bf_manifest_hash : option str;
  bf_embedding_contract : option str;
  bf_epoch : Z;
  bf_claimed : Z;
  bf_coverage_missing : option Z;
  bf_updated_at : Z
}.

(** [pgokf.concept_freshness], keyed by bundle, scope kind and scope key *)
Record ScopeFreshness : Type := {
  sf_tenant : str;
  sf_state : str;
  sf_reasons : list str;
  sf_stale_since : option Z;
  sf_producer : option str;
  sf_updated_at : Z
}.

(** [pgokf.freshness_dependency] *)
Record DependencyRow : Type := {
  dep_id : Z;
  dep_tenant : str;
  dep_producer : str;
  dep_enabled : bool;
  dep_causation_key : option str;
  dep_source : Z;
  dep_selector_kind : str;
  dep_selector_value : str;
  dep_last_generation : Z;
  dep_last_event : option Z;
  dep_target : Z;
  dep_target_kind : str;
  dep_target_key : option str
}.

(** [pgokf.publication_fence], keyed by tenant, producer and bundle *)
Record FenceRow : Type := {
  fe_target_generation : Z;
  fe_token : Z;
  fe_expected_generation : Z;
  fe_manifest_hash : option str;
  fe_state : str;
  fe_issued_at : Z;
  fe_expires_at : Z
}.

(** [pgokf.catalog_change_event.changes]: the bounded change summary *)
Record ChangeSummary : Type := {
  cs_added : list (str * str * option str);
  cs_updated : list (str * str * option str * option str);
  cs_removed : list (str * str * option str);
  cs_counts : Z * Z * Z;
  cs_truncated : bool;
  cs_sync_hash : option str
}.

(** [pgokf.catalog_change_event] *)
Record EventRow : Type := {
  ev_id : Z;
  ev_tenant : str;
  ev_bundle : option Z;
  ev_bundle_path : str;
  ev_bundle_name : option str;
  ev_generation : Z;
  ev_operation : str;
  ev_changes : ChangeSummary;
  ev_origin : option str;
  ev_causation_key : option str;
  ev_reconciliation_key : option str;
  ev_producer : option str;
  ev_created_at : Z;
  ev_status : str;
  ev_claimed_by : option str;
  ev_claim_expires_at : option Z;
  ev_attempts : Z;
  ev_acceptance_key : option str;
  ev_acknowledged_at : option Z
}.

(** [pgokf_private.sync_log] *)
Record LogRow : Type := {
  lg_id : Z;
  lg_bundle : Z;
  lg_tenant : str;
  lg_path : str;
  lg_op : str;
  lg_counts : option (Z * Z * Z * Z * Z);
  lg_sync_hash : option str;
  lg_event : option Z;
  lg_actor : str;
  lg_synced_at : Z
}.

(** [pgokf.relationship_publication] *)
Record PublicationRow : Type := {
  pub_id : Z;
  pub_tenant : str;
  pub_producer : str;
  pub_bundle : option Z;
  pub_bundle_path : str;
  pub_generation : Z;
  pub_expected : Z;
  pub_activated : option Z;
  pub_token : Z;
  pub_set_hash : str;
  pub_idempotency_key : str;
  pub_manifest_hash : option str;
  pub_state : str;
  pub_row_count : Z;
  pub_created_at : Z;
  pub_activated_at : option Z;
  pub_updated_at : Z
}.

(** [pgokf.relationship]: the columns the catalog decides on, and the two
    JSON columns as text *)
Record RelationRow : Type := {
  rl_publication : Z;
  rl_ordinal : Z;
  rl_tenant : str;
  rl_source_bundle : Z;
  rl_source_concept : str;
  rl_type : str;
  rl_direction : str;
  rl_target_bundle : option Z;
  rl_target_concept : option str;
  rl_external_target : option str;
  rl_location : option str;
  rl_confidence : option str;
  rl_unresolved : bool;
  rl_cross_bundle : bool;
  rl_provenance : option str;
  rl_hash : str
}.

(** The singleton row of [pgokf_private.config]. *)
Record Config : Type := config_row {
  cfg_allowed_roots : list str;
  cfg_default_text_search_config : str;
  cfg_default_strict : bool;
  cfg_sync_log_retention_days : Z;
  cfg_default_exclude : list str;
  cfg_store_source : bool;
  cfg_search_backend : str;
  cfg_notify_channel : str;
  cfg_okf_version_policy : str;
  cfg_embedding_dim : Z;
  cfg_track_history : bool;
  cfg_history_retention_days : Z;
  cfg_bm25_provider : str;
  cfg_require_tenant : bool;
  cfg_change_event_retention_days : Z;
  cfg_embedding_model : str;
  cfg_embedding_contract : str
}.

(** The row [CREATE EXTENSION] seeds: every column at its default. *)
Definition default_config : Config :=
  {| cfg_allowed_roots := []; cfg_default_text_search_config := lit "pg_catalog.english";
     cfg_default_strict := true; cfg_sync_log_retention_days := 30; cfg_default_exclude := [];
     cfg_store_source := false; cfg_search_backend := lit "native"; cfg_notify_channel := [];
     cfg_okf_version_policy := lit "warn"; cfg_embedding_dim := 1536; cfg_track_history := false;
     cfg_history_retention_days := 0; cfg_bm25_provider := lit "auto"; cfg_require_tenant := false;
     cfg_change_event_retention_days := 30; cfg_embedding_model := []; cfg_embedding_contract := [] |}.

(** The key of a scope override: bundle, scope kind, scope key. *)
Abbreviation scope_id := (Z * list ascii * list ascii)%type.
(** The key of a fence slot: tenant, producer, bundle. *)
Abbreviation fence_id := (list ascii * list ascii * Z)%type.

Record Db : Type := {
  bundles : gmap Z Bundle;
  bundle_freshness : gmap Z BundleFreshness;
  concept_freshness : gmap scope_id ScopeFreshness;
  freshness_dependency : list DependencyRow;
  publication_fence : gmap fence_id FenceRow;
  catalog_change_event : list EventRow;
  relationship_publication : list PublicationRow;
  relationship : list RelationRow;
  concepts : gset (Z * list ascii);
  sync_log : list LogRow;
  config : Config;
  (** the identity sequences: the last value handed out *)
  bundle_seq : Z;
  dependency_seq : Z;
  event_seq : Z;
  publication_seq : Z;
  log_seq : Z
}.

Definition set_bundles (t : gmap Z Bundle) (seq : Z) (d : Db) : Db :=
  {| bundles := t; bundle_freshness := bundle_freshness d;
     concept_freshness := concept_freshness d; freshness_dependency := freshness_dependency d;
     publication_fence := publication_fence d; catalog_change_event := catalog_change_event d;
     relationship_publication := relationship_publication d; relationship := relationship d;
     concepts := concepts d; sync_log := sync_log d; config := config d;
     bundle_seq := seq; dependency_seq := dependency_seq d; event_seq := event_seq d;
     publication_seq := publication_seq d; log_seq := log_seq d |}.

Definition set_freshness (t : gmap Z BundleFreshness) (d : Db) : Db :=
  {| bundles := bundles d; bundle_freshness := t;
     concept_freshness := concept_freshness d; freshness_dependency := freshness_dependency d;
     publication_fence := publication_fence d; catalog_change_event := catalog_change_event d;
     relationship_publication := relationship_publication d; relationship := relationship d;
     concepts := concepts d; sync_log := sync_log d; config := config d;
     bundle_seq := bundle_seq d; dependency_seq := dependency_seq d; event_seq := event_seq d;
     publication_seq := publication_seq d; log_seq := log_seq d |}.

Definition set_scopes (t : gmap scope_id ScopeFreshness) (d : Db) : Db :=
  {| bundles := bundles d; bundle_freshness := bundle_freshness d;
     concept_freshness := t; freshness_dependency := freshness_dependency d;
     publication_fence := publication_fence d; catalog_change_event := catalog_change_event d;
     relationship_publication := relationship_publication d; relationship := relationship d;
     concepts := concepts d; sync_log := sync_log d; config := config d;
     bundle_seq := bundle_seq d; dependency_seq := dependency_seq d; event_seq := event_seq d;
     publication_seq := publication_seq d; log_seq := log_seq d |}.

Definition set_dependencies (t : list DependencyRow) (seq : Z) (d : Db) : Db :=
  {| bundles := bundles d; bundle_freshness := bundle_freshness d;
     concept_freshness := concept_freshness d; freshness_dependency := t;
     publication_fence := publication_fence d; catalog_change_event := catalog_change_event d;
     relationship_publication := relationship_publication d; relationship := relationship d;
     concepts := concepts d; sync_log := sync_log d; config := config d;
     bundle_seq := bundle_seq d; dependency_seq := seq; event_seq := event_seq d;
     publication_seq := publication_seq d; log_seq := log_seq d |}.

Definition set_fences (t : gmap fence_id FenceRow) (d : Db) : Db :=
  {| bundles := bundles d; bundle_freshness := bundle_freshness d;
     concept_freshness := concept_freshness d; freshness_dependency := freshness_dependency d;
     publication_fence := t; catalog_change_event := catalog_change_event d;
     relationship_publication := relationship_publication d; relationship := relationship d;
     concepts := concepts d; sync_log := sync_log d; config := config d;
     bundle_seq := bundle_seq d; dependency_seq := dependency_seq d; event_seq := event_seq d;
     publication_seq := publication_seq d; log_seq := log_seq d |}.

Definition set_events (t : list EventRow) (seq : Z) (d : Db) : Db :=
  {| bundles := bundles d; bundle_freshness := bundle_freshness d;
     concept_freshness := concept_freshness d; freshness_dependency := freshness_dependency d;
     publication_fence := publication_fence d; catalog_change_event := t;
     relationship_publication := relationship_publication d; relationship := relationship d;
     concepts := concepts d; sync_log := sync_log d; config := config d;
     bundle_seq := bundle_seq d; dependency_seq := dependency_seq d; event_seq := seq;
     publication_seq := publication_seq d; log_seq := log_seq d |}.

Definition set_publications (t : list PublicationRow) (rows : list RelationRow) (seq : Z)
    (d : Db) : Db :=
  {| bundles := bundles d; bundle_freshness := bundle_freshness d;
     concept_freshness := concept_freshness d; freshness_dependency := freshness_dependency d;
     publication_fence := publication_fence d; catalog_change_event := catalog_change_event d;
     relationship_publication := t; relationship := rows;
     concepts := concepts d; sync_log := sync_log d; config := config d;
     bundle_seq := bundle_seq d; dependency_seq := dependency_seq d; event_seq := event_seq d;
     publication_seq := seq; log_seq := log_seq d |}.

Definition set_concepts (t : gset (Z * list ascii)) (d : Db) : Db :=
  {| bundles := bundles d; bundle_freshness := bundle_freshness d;
     concept_freshness := concept_freshness d; freshness_dependency := freshness_dependency d;
     publication_fence := publication_fence d; catalog_change_event := catalog_change_event d;
     relationship_publication := relationship_publication d; relationship := relationship d;
     concepts := t; sync_log := sync_log d; config := config d;
     bundle_seq := bundle_seq d; dependency_seq := dependency_seq d; event_seq := event_seq d;
     publication_seq := publication_seq d; log_seq := log_seq d |}.

Definition set_log (t : list LogRow) (seq : Z) (d : Db) : Db :=
  {| bundles := bundles d; bundle_freshness := bundle_freshness d;
     concept_freshness := concept_freshness d; freshness_dependency := freshness_dependency d;
     publication_fence := publication_fence d; catalog_change_event := catalog_change_event d;
     relationship_publication := relationship_publication d; relationship := relationship d;
     concepts := concepts d; sync_log := t; config := config d;
     bundle_seq := bundle_seq d; dependency_seq := dependency_seq d; event_seq := event_seq d;
     publication_seq := publication_seq d; log_seq := seq |}.

Definition set_config_row (c : Config) (d : Db) : Db :=
  {| bundles := bundles d; bundle_freshness := bundle_freshness d;
     concept_freshness := concept_freshness d; freshness_dependency := freshness_dependency d;
     publication_fence := publication_fence d; catalog_change_event := catalog_change_event d;
     relationship_publication := relationship_publication d; relationship := relationship d;
     concepts := concepts d; sync_log := sync_log d; config := c;
     bundle_seq := bundle_seq d; dependency_seq := dependency_seq d; event_seq := event_seq d;
     publication_seq := publication_seq d; log_seq := log_seq d |}.

(** ** Transactions *)

Inductive tx (A : Type) : Type :=
| Done (a : A) (d : Db)
| Fail (e : CatalogError)
| Raise.
Arguments Done {A} a d.
Arguments Fail {A} e.
Arguments Raise {A}.

Definition M (A : Type) : Type := Db -> tx A.

#[export] Instance M_ret : MRet M := fun A a d => Done a d.
#[export] Instance M_bind : MBind M := fun A B k m d =>
  match m d with
  | Done a d' => k a d'
  | Fail e => Fail e
  | Raise => Raise
  end.

Definition get : M Db := fun d => Done d d.
(** One statement: what it returns and the database after it, or an error
    PostgreSQL raises. *)
Definition statement {A} (f : Db -> option (A * Db)) : M A := fun d =>
  match f d with Some (a, d') => Done a d' | None => Raise end.
Definition modify (f : Db -> Db) : M unit := statement (fun d => Some (tt, f d)).
Definition fail {A} (e : CatalogError) : M A := fun _ => Fail e.
(** A PostgreSQL error, a constraint violation or a Rust panic. *)
Definition raise {A} : M A := fun _ => Raise.
(** The [?] of a function that does not touch the database. *)
Definition lift {A} (r : result A CatalogError) : M A :=
  match r with Ok a => mret a | Err e => fail e end.

(** [bigint] and [integer] arithmetic raises on overflow. *)
Definition bigint (z : Z) : option Z :=
  if ((i64_min <=? z) && (z <=? i64_max))%Z then Some z else None.
Definition i32_max : Z := (2 ^ 31 - 1)%Z.
Definition i32_min : Z := (-(2 ^ 31))%Z.
Definition integer (z : Z) : option Z :=
  if ((i32_min <=? z) && (z <=? i32_max))%Z then Some z else None.

(** [Spi::get_one_with_args] positions itself on the first row, and on an
    empty result that is an error of its own, not [None]
    (pgrx's [SpiTupleTable::get_datum_by_ordinal]). *)
Definition INVALID_POSITION : str :=
  lit "SpiTupleTable positioned before the start or after the end".
Definition spi_error_of (context : str) : CatalogError :=
  internal (context ++ lit ": " ++ INVALID_POSITION) [].
Definition get_one {A} (context : str) (row : option A) : M A :=
  match row with
  | Some a => mret a
  | None => fail (spi_error_of context)
  end.

(** A [for] loop over rows. *)
Fixpoint for_each {A} (f : A -> M unit) (l : list A) : M unit :=
  match l with
  | [] => mret tt
  | x :: l' => f x ;; for_each f l'
  end.

(** ** The session *)

Class Session : Type := {
  (** [pg_catalog.now()], fixed for a transaction *)
  now : Z;
  (** [now() - make_interval(days => n)] in the session's time zone *)
  days_ago : Z -> Z;
  session_user : str;
  (** [pg_has_role(session_user, role, 'MEMBER')] *)
  has_role : str -> bool;
  (** [current_setting('pgokf.tenant', true)] *)
  guc_tenant : option str
}.

(** [now() + make_interval(secs => n)] *)
Definition seconds_from_now `{Session} (n : Z) : Z := (now + n * 1000000)%Z.

(** [array_agg(DISTINCT r)]: PostgreSQL fixes the elements, and the collation
    their order.  [UPDATE ... FROM ... RETURNING] without an [ORDER BY]: it
    fixes the rows, and the plan their order. *)
Class PgText : Type := {
  array_agg_distinct : list str -> list str;
  returning_order : list EventRow -> list EventRow
}.

Class PgTextLaws `{PgText} : Prop := {
  returning_perm : forall l : list EventRow, returning_order l ≡ₚ l;
  agg_elem : forall (l : list str) (x : str), x ∈ array_agg_distinct l <-> x ∈ l;
  agg_nodup : forall l : list str, NoDup (array_agg_distinct l)
}.

(** ** The session as the policy functions of [security.rs] see it *)

Section session.
Context `{Ses : Session}.

(** [pgokf_private.effective_tenant()] *)
Definition effective_tenant : str :=
  match guc_tenant with
  | None | Some [] => lit "default"
  | Some t => t
  end.

(** The opt-in tenant predicate the owner-rights statements carry. *)
Definition tenant_predicate (d : Db) (row_tenant : str) : bool :=
  match guc_tenant with
  | None | Some [] => negb (cfg_require_tenant (config d)) || bool_decide (guc_tenant = Some row_tenant)
  | Some t => bool_decide (row_tenant = t)
  end.

#[export] Instance session_backend (d : Db) : Backend := {|
  spi_error := Empty_set;
  spi_error_text := fun e => match e with end;
  pg_has_role := fun role => Ok (Some (has_role role));
  bundle_tenant_row := fun id =>
    Ok (guc_tenant, Some (cfg_require_tenant (config d)), b_tenant <$> bundles d !! id);
  session_tenant_row := Ok (guc_tenant, Some (cfg_require_tenant (config d)))
|}.

Definition authorize_user (operation : Operation) : M unit :=
  d ← get; lift (@authorize_current_user (session_backend d) operation []).
Definition authorize_dispatcher : M unit :=
  d ← get; lift (@authorize_dispatcher_current_user (session_backend d)).
Definition enforce_tenant (bundle_id : Z) : M unit :=
  d ← get; lift (@enforce_bundle_tenant (session_backend d) bundle_id).
Definition enforce_session_tenant : M unit :=
  d ← get; lift (@enforce_active_tenant (session_backend d)).

(** ** [audit.rs] *)

(** [audit::record]: append one row, then prune to the retention. *)
Definition audit_record (bundle_id : Z) (path op : str) (counts : option (Z * Z * Z * Z * Z))
    (sync_hash : option str) (retention_days : Z) (event : option Z) : M Z :=
  id ← statement (fun d =>
    let id := (log_seq d + 1)%Z in
    Some (id, set_log (sync_log d ++
      [{| lg_id := id; lg_bundle := bundle_id; lg_tenant := effective_tenant; lg_path := path;
          lg_op := op; lg_counts := counts; lg_sync_hash := sync_hash; lg_event := event;
          lg_actor := session_user; lg_synced_at := now |}]) id d));
  (if (0 <? retention_days)%Z then
     modify (fun d => set_log
       (filter (fun r => (days_ago retention_days <= lg_synced_at r)%Z) (sync_log d)) (log_seq d) d)
   else mret tt) ;;
  mret id.

End session.

(** ** A program logic for transactions

    [post m d Q]: if [m] commits from [d], what it returns and leaves
    satisfies [Q].  [keeps R m]: whenever [m] commits, the databases before
    and after it are related by [R]. *)

Definition post {A} (m : M A) (d : Db) (Q : A -> Db -> Prop) : Prop :=
  forall a d', m d = Done a d' -> Q a d'.

Definition keeps (R : Db -> Db -> Prop) {A} (m : M A) : Prop :=
  forall d, post m d (fun _ d' => R d d').

Section logic.
Context {A B : Type}.
Implicit Types (m : M A) (k : A -> M B) (d : Db).

Lemma bind_done m k d b d'' :
  (m ≫= k) d = Done b d'' <-> exists a d', m d = Done a d' /\ k a d' = Done b d''.
Proof. unfold mbind, M_bind. destruct (m d); naive_solver. Qed.

Lemma post_bind m k d Q :
  post m d (fun a d' => post (k a) d' Q) -> post (m ≫= k) d Q.
Proof. intros Hm b d'' (a & d' & Ha & Hb)%bind_done. by apply (Hm a d'). Qed.

Lemma post_mono m d (Q Q' : A -> Db -> Prop) :
  post m d Q -> (forall a d', Q a d' -> Q' a d') -> post m d Q'.
Proof. intros Hm HQ a d' Ha. by apply HQ, Hm. Qed.

End logic.

Lemma post_ret {A} (a : A) d Q : Q a d -> post (mret a) d Q.
Proof. by intros HQ ? ? [= <- <-]. Qed.

Lemma post_get d Q : Q d d -> post get d Q.
Proof. by intros HQ ? ? [= <- <-]. Qed.

Lemma post_statement {A} (f : Db -> option (A * Db)) d Q :
  (forall a d', f d = Some (a, d') -> Q a d') -> post (statement f) d Q.
Proof.
  unfold post, statement. intros HQ a d' Hrun.
  destruct (f d) as [[a' d'']|] eqn:E; [|done]. injection Hrun as <- <-. by apply HQ.
Qed.

Lemma post_modify f d Q : Q tt (f d) -> post (modify f) d Q.
Proof. intros HQ. apply post_statement. by intros ? ? [= <- <-]. Qed.

Lemma post_fail {A} e d (Q : A -> Db -> Prop) : post (fail e) d Q.
Proof. by intros ? ?. Qed.

Lemma post_raise {A} d (Q : A -> Db -> Prop) : post raise d Q.
Proof. by intros ? ?. Qed.

Lemma post_lift {A} (r : result A CatalogError) d Q :
  (forall a, r = Ok a -> Q a d) -> post (lift r) d Q.
Proof. destruct r; cbn; intros HQ; [by apply post_ret, HQ|apply post_fail]. Qed.

Lemma post_get_one {A} c (row : option A) d Q :
  (forall a, row = Some a -> Q a d) -> post (get_one c row) d Q.
Proof. destruct row; cbn; intros HQ; [by apply post_ret, HQ|apply post_fail]. Qed.

Section keeps.
Context (R : Db -> Db -> Prop) `{!PreOrder R}.

Lemma keeps_ret {A} (a : A) : keeps R (mret a).
Proof. intros d. by apply post_ret. Qed.

Lemma keeps_bind {A B} (m : M A) (k : A -> M B) :
  keeps R m -> (forall a, keeps R (k a)) -> keeps R (m ≫= k).
Proof.
  intros Hm Hk d. apply post_bind. intros a d' Ha b d'' Hb.
  transitivity d'; [by eapply Hm|by eapply Hk].
Qed.

Lemma keeps_get : keeps R get.
Proof. intros d. by apply post_get. Qed.

Lemma keeps_statement {A} (f : Db -> option (A * Db)) :
  (forall d a d', f d = Some (a, d') -> R d d') -> keeps R (statement f).
Proof. intros Hf d. apply post_statement. eauto. Qed.

Lemma keeps_modify f : (forall d, R d (f d)) -> keeps R (modify f).
Proof. intros Hf d. by apply post_modify. Qed.

Lemma keeps_fail {A} e : keeps R (@fail A e).
Proof. intros d. apply post_fail. Qed.

Lemma keeps_raise {A} : keeps R (@raise A).
Proof. intros d. apply post_raise. Qed.

Lemma keeps_lift {A} (r : result A CatalogError) : keeps R (lift r).
Proof. intros d. by apply post_lift. Qed.

Lemma keeps_get_one {A} c (row : option A) : keeps R (get_one c row).
Proof. intros d. by apply post_get_one. Qed.

Lemma keeps_for_each {A} (f : A -> M unit) l :
  (forall x, keeps R (f x)) -> keeps R (for_each f l).
Proof.
  intros Hf. induction l as [|x l IH]; [apply keeps_ret|].
  apply keeps_bind; [apply Hf|intros _; apply IH].
Qed.

End keeps.

Create HintDb keeps.
#[export] Hint Resolve keeps_ret keeps_get keeps_fail keeps_raise keeps_lift keeps_get_one : keeps.

(** Reduce [keeps] of a compound program to its statements, trying the lemmas
    of the [keeps] database on the calls it meets. *)
Ltac keeps_step :=
  lazymatch goal with
  | |- keeps _ (mbind _ _) => apply keeps_bind; [apply _| |intros ?]
  | |- keeps _ (for_each _ _) => apply keeps_for_each; [apply _|intros ?]
  | |- keeps _ (match ?x with _ => _ end) => destruct x eqn:?
  | |- keeps _ _ => progress (auto with keeps typeclass_instances)
  end.
Ltac keeps_auto := repeat keeps_step.

(** ** Runs of the shared operations *)

Section session_props.
Context `{Ses : Session}.

Lemma keeps_authorize R `{!PreOrder R} op : keeps R (authorize_user op).
Proof. unfold authorize_user. keeps_auto. Qed.

Lemma keeps_dispatcher R `{!PreOrder R} : keeps R authorize_dispatcher.
Proof. unfold authorize_dispatcher. keeps_auto. Qed.

Lemma keeps_enforce R `{!PreOrder R} id : keeps R (enforce_tenant id).
Proof. unfold enforce_tenant. keeps_auto. Qed.

Lemma keeps_session_tenant R `{!PreOrder R} : keeps R enforce_session_tenant.
Proof. unfold enforce_session_tenant. keeps_auto. Qed.

(** The audit trail is its own table. *)
Lemma keeps_audit R `{!PreOrder R} id p op c h n e :
  (forall d t s, R d (set_log t s d)) -> keeps R (audit_record id p op c h n e).
Proof.
  intros HR. unfold audit_record. keeps_auto.
  - apply keeps_statement. intros d a d' [= <- <-]. apply HR.
  - apply keeps_modify. intros d. apply HR.
Qed.

End session_props.

#[export] Hint Resolve keeps_authorize keeps_dispatcher keeps_enforce keeps_session_tenant : keeps.

(** ** A concrete catalog, for evaluating the definitions *)

Definition empty_db : Db :=
  {| bundles := ∅; bundle_freshness := ∅; concept_freshness := ∅; freshness_dependency := [];
     publication_fence := ∅; catalog_change_event := []; relationship_publication := [];
     relationship := []; concepts := ∅; sync_log := [];
     config := default_config;
     bundle_seq := 0; dependency_seq := 0; event_seq := 0; publication_seq := 0; log_seq := 0 |}.

(** An unscoped session of a superuser at one second past the epoch. *)
Definition demo_session : Session :=
  {| now := 1000000; days_ago := fun n => (1000000 - n * 86400000000)%Z;
     session_user := lit "postgres"; has_role := fun _ => true; guc_tenant := None |}.

Definition demo_text : PgText :=
  {| array_agg_distinct := fun l => remove_dups l; returning_order := fun l => reverse l |}.

Lemma demo_text_laws : @PgTextLaws demo_text.
Proof.
  split; intros l; [apply reverse_Permutation|intros x; apply elem_of_remove_dups|apply NoDup_remove_dups].
Qed.

Definition demo_bundle (path : str) (generation : Z) : Bundle :=
  {| b_path := path; b_name := None; b_okf_version := None; b_file_count := 0;
     b_last_synced_at := None; b_sync_hash := None; b_enabled := true; b_tenant := lit "default"; b_retired_at := None;
     b_catalog_generation := generation; b_source_type := lit "filesystem" |}.
