(* ===== verification/Freshness.v ===== *)
(** * Freshness: states, dependencies and fences
      ([extension/src/catalog/freshness.rs])

    The operations of the freshness service as transactions over [Db].  A
    statement that would break the row shapes the source asserts ([expect] on
    a scope key, an aggregate that yields NULL, a [bigint] that overflows)
    raises. *)
From stdpp Require Import prelude strings gmap list sorting.
From Stdlib Require Import Ascii ZArith Lia.
From S2P Require Import Prelude Str CatalogError Security Catalog.

Definition st_fresh : str := lit "fresh".
Definition st_stale : str := lit "stale".
Definition st_reconciling : str := lit "reconciling".
Definition st_blocked : str := lit "blocked".
Definition st_retired : str := lit "retired".

Definition STATES : list str := [st_fresh; st_stale; st_reconciling; st_blocked; st_retired].

Definition k_bundle : str := lit "bundle".
Definition k_concept : str := lit "concept".
Definition k_path : str := lit "path".
Definition k_path_prefix : str := lit "path_prefix".
Definition k_group : str := lit "group".

Definition SCOPE_KINDS : list str := [k_concept; k_path; k_group].
Definition SELECTOR_KINDS : list str := [k_bundle; k_concept; k_path; k_path_prefix].
Definition TARGET_SCOPE_KINDS : list str := [k_bundle; k_concept; k_path; k_group].

Definition REASON_SOURCE_CHANGED : str := lit "dependency_source_changed".
Definition REASON_SCOPE_UNKNOWN : str := lit "change_scope_unknown".
Definition REASON_RELATIONSHIP_COVERAGE_MISSING : str := lit "relationship_coverage_missing".

Definition TRANSITIVE_INVALIDATION_ROW_CAP : nat := 1024.

(** [ConceptChange] of [change_event.rs]. *)
Record ConceptChange : Type := {
  ch_id : str;
  ch_path : str;
  ch_kind : str;
  ch_before_hash : option str;
  ch_after_hash : option str
}.

(** [ChangeContext] of [change_event.rs]. *)
Record ChangeContext : Type := {
  cx_origin : option str;
  cx_causation_key : option str;
  cx_reconciliation_key : option str;
  cx_producer : option str;
  cx_manifest_hash : option str;
  cx_observed_source_generation : option str;
  cx_operation : option str
}.

Definition default_context : ChangeContext :=
  {| cx_origin := None; cx_causation_key := None; cx_reconciliation_key := None;
     cx_producer := None; cx_manifest_hash := None; cx_observed_source_generation := None;
     cx_operation := None |}.

Inductive BundleTransition : Type :=
| Retire
| Unretire
| Disable.

Record DepartingDependent : Type := {
  dd_bundle : Z;
  dd_scope_kind : str;
  dd_scope_key : option str
}.

(** ['a', 'b', 'c'] *)
Definition quoted_list (kinds : list str) : str :=
  join (lit ", ") (map (fun kind => lit "'" ++ kind ++ lit "'") kinds).

(** ** Validation *)

Definition is_blank (s : str) : bool := bool_decide (trim s = []).

Definition validate_producer (producer : str) : result unit CatalogError :=
  if is_blank producer then Err (invalid_parameter (lit "producer must not be empty") [])
  else Ok tt.

Definition validate_selector (selector_kind selector_value : str) : result unit CatalogError :=
  if negb (bool_decide (selector_kind ∈ SELECTOR_KINDS)) then
    Err (invalid_parameter (lit "selector_kind must be one of " ++ quoted_list SELECTOR_KINDS
                              ++ lit ", got " ++ selector_kind) [])
  else if bool_decide (selector_kind = k_bundle) && negb (bool_decide (selector_value = [])) then
    Err (invalid_parameter (lit "selector_value must be empty for a bundle selector") [])
  else if negb (bool_decide (selector_kind = k_bundle)) && bool_decide (selector_value = []) then
    Err (invalid_parameter (lit "selector_value must not be empty for a " ++ selector_kind
                              ++ lit " selector") [])
  else Ok tt.

Definition none_or_empty (o : option str) : bool :=
  match o with None | Some [] => true | Some _ => false end.

Definition validate_target_scope (scope_kind : str) (scope_key : option str)
  : result unit CatalogError :=
  if negb (bool_decide (scope_kind ∈ TARGET_SCOPE_KINDS)) then
    Err (invalid_parameter (lit "target_scope_kind must be one of "
                              ++ quoted_list TARGET_SCOPE_KINDS ++ lit ", got " ++ scope_kind) [])
  else if bool_decide (scope_kind = k_bundle) && bool_decide (is_Some scope_key) then
    Err (invalid_parameter (lit "target_scope_key must be NULL for a bundle target") [])
  else if negb (bool_decide (scope_kind = k_bundle)) && none_or_empty scope_key then
    Err (invalid_parameter (lit "target_scope_key must not be empty for a " ++ scope_kind
                              ++ lit " target") [])
  else Ok tt.

Definition PRODUCER_REPORTED : str := lit "producer_reported".

Definition validated_reasons (reason_codes : list str) : result (list str) CatalogError :=
  if existsb is_blank reason_codes then
    Err (invalid_parameter (lit "reason_codes must not contain empty entries") [])
  else Ok (match reason_codes with [] => [PRODUCER_REPORTED] | _ => reason_codes end).

(** Exact, case-sensitive matches of a narrowed selector. *)
Definition selector_matches (selector_kind selector_value : str) (changes : list ConceptChange)
  : bool :=
  if decide (selector_kind = k_concept) then
    existsb (fun change => bool_decide (ch_id change = selector_value)) changes
  else if decide (selector_kind = k_path) then
    existsb (fun change => bool_decide (ch_path change = selector_value)) changes
  else if decide (selector_kind = k_path_prefix) then
    existsb (fun change => starts_with selector_value (ch_path change)) changes
  else false.

Definition unknown_dependency_error (dependency_id : Z) : CatalogError :=
  invalid_parameter (lit "freshness dependency " ++ show_Z dependency_id
                       ++ lit " is not registered") [].

Section freshness.
Context `{Ses : Session, PT : PgText}.

(** ** Bundle rows *)

Definition bundle_path (bundle_id : Z) : M str :=
  d ← get;
  get_one (lit "failed to look up bundle path") (b_path <$> bundles d !! bundle_id).

(** A new row with the table's defaults. *)
Definition born_row (tenant state : str) (reasons : list str) (producer observed : option str)
    (stale_since : option Z) : BundleFreshness :=
  {| bf_tenant := tenant; bf_state := state; bf_reasons := reasons; bf_observed := observed;
     bf_materialized_source := None; bf_materialized_catalog := None;
     bf_stale_since := stale_since; bf_last_reconciled_at := None; bf_producer := producer;
     bf_manifest_hash := None; bf_embedding_contract := None; bf_epoch := 0; bf_claimed := 0;
     bf_coverage_missing := None; bf_updated_at := now |}.

Definition initialize_bundle (bundle_id catalog_generation : Z) (sync_hash : str)
    (context : ChangeContext) : M unit :=
  modify (fun d =>
    match bundles d !! bundle_id, bundle_freshness d !! bundle_id with
    | Some b, None =>
        set_freshness
          (<[bundle_id :=
              {| bf_tenant := b_tenant b; bf_state := st_fresh; bf_reasons := [];
                 bf_observed := cx_observed_source_generation context;
                 bf_materialized_source := cx_observed_source_generation context;
                 bf_materialized_catalog := Some catalog_generation;
                 bf_stale_since := None; bf_last_reconciled_at := Some now;
                 bf_producer := cx_producer context; bf_manifest_hash := Some sync_hash;
                 bf_embedding_contract := None; bf_epoch := 0; bf_claimed := 0;
                 bf_coverage_missing := None; bf_updated_at := now |}]>
             (bundle_freshness d)) d
    | _, _ => d
    end).

(** [COALESCE(array_agg(DISTINCT r) ..., '{}')] over the two arrays. *)
Definition merge_reasons (old new : list str) : list str :=
  match old ++ new with [] => [] | l => array_agg_distinct l end.

(** [COALESCE($n, column)] *)
Definition coalesce {A} (a b : option A) : option A :=
  match a with Some _ => a | None => b end.

(** The [ON CONFLICT] branch of [set_bundle_state]. *)
Definition moved_row (r : BundleFreshness) (state : str) (reasons : list str)
    (producer observed : option str) : BundleFreshness :=
  {| bf_tenant := bf_tenant r;
     bf_state := state;
     bf_reasons := if decide (bf_state r = state) then merge_reasons (bf_reasons r) reasons
                   else reasons;
     bf_observed := coalesce observed (bf_observed r);
     bf_materialized_source := bf_materialized_source r;
     bf_materialized_catalog := bf_materialized_catalog r;
     bf_stale_since :=
       if decide (state = st_stale) then
         if decide (bf_state r = st_stale) then bf_stale_since r else Some now
       else bf_stale_since r;
     bf_last_reconciled_at := bf_last_reconciled_at r;
     bf_producer := coalesce producer (bf_producer r);
     bf_manifest_hash := bf_manifest_hash r;
     bf_embedding_contract := bf_embedding_contract r;
     bf_epoch := bf_epoch r;
     bf_claimed := bf_claimed r;
     bf_coverage_missing := bf_coverage_missing r;
     bf_updated_at := now |}.

Definition set_bundle_state (bundle_id : Z) (state : str) (reason_codes : list str)
    (producer observed_source_generation : option str) : M unit :=
  modify (fun d =>
    match bundles d !! bundle_id with
    | None => d
    | Some b =>
        match bundle_freshness d !! bundle_id with
        | None =>
            set_freshness
              (<[bundle_id := born_row (b_tenant b) state reason_codes producer
                                observed_source_generation
                                (if decide (state = st_fresh) then None else Some now)]>
                 (bundle_freshness d)) d
        | Some r =>
            if decide (bf_state r = st_retired) then d
            else set_freshness
                   (<[bundle_id := moved_row r state reason_codes producer
                                     observed_source_generation]> (bundle_freshness d)) d
        end
    end).

(** [unretire] rewrites the row whatever its state. *)
Definition restored_row (r : BundleFreshness) : BundleFreshness :=
  {| bf_tenant := bf_tenant r; bf_state := st_stale; bf_reasons := [lit "bundle_restored"];
     bf_observed := bf_observed r; bf_materialized_source := bf_materialized_source r;
     bf_materialized_catalog := bf_materialized_catalog r; bf_stale_since := Some now;
     bf_last_reconciled_at := bf_last_reconciled_at r; bf_producer := bf_producer r;
     bf_manifest_hash := bf_manifest_hash r; bf_embedding_contract := bf_embedding_contract r;
     bf_epoch := bf_epoch r; bf_claimed := bf_claimed r;
     bf_coverage_missing := bf_coverage_missing r; bf_updated_at := now |}.

(** [UPDATE pgokf.bundle_freshness ... WHERE bundle_id = $1] *)
Definition update_row (bundle_id : Z) (f : BundleFreshness -> BundleFreshness) (d : Db) : Db :=
  match bundle_freshness d !! bundle_id with
  | Some r => set_freshness (<[bundle_id := f r]> (bundle_freshness d)) d
  | None => d
  end.

Definition transition_bundle (bundle_id : Z) (transition : BundleTransition) : M unit :=
  match transition with
  | Retire => set_bundle_state bundle_id st_retired [lit "bundle_retired"] None None
  | Unretire => modify (update_row bundle_id restored_row)
  | Disable => set_bundle_state bundle_id st_stale [lit "bundle_disabled"] None None
  end.

(** The two columns the coverage operations write. *)
Definition with_coverage (reasons : list str) (since : option Z) (r : BundleFreshness)
  : BundleFreshness :=
  {| bf_tenant := bf_tenant r; bf_state := bf_state r; bf_reasons := reasons;
     bf_observed := bf_observed r; bf_materialized_source := bf_materialized_source r;
     bf_materialized_catalog := bf_materialized_catalog r; bf_stale_since := bf_stale_since r;
     bf_last_reconciled_at := bf_last_reconciled_at r; bf_producer := bf_producer r;
     bf_manifest_hash := bf_manifest_hash r; bf_embedding_contract := bf_embedding_contract r;
     bf_epoch := bf_epoch r; bf_claimed := bf_claimed r;
     bf_coverage_missing := since; bf_updated_at := now |}.

Definition mark_relationship_coverage_missing (bundle_id : Z) : M unit :=
  set_bundle_state bundle_id st_stale [REASON_RELATIONSHIP_COVERAGE_MISSING] None None ;;
  modify (update_row bundle_id (fun r =>
    if decide (bf_state r = st_retired) then r
    else with_coverage (bf_reasons r) (coalesce (bf_coverage_missing r) (Some now)) r)).

Definition clear_relationship_coverage_missing (bundle_id : Z) : M unit :=
  modify (update_row bundle_id (fun r =>
    if bool_decide (REASON_RELATIONSHIP_COVERAGE_MISSING ∈ bf_reasons r)
       || bool_decide (is_Some (bf_coverage_missing r))
    then with_coverage
           (filter (fun x => x <> REASON_RELATIONSHIP_COVERAGE_MISSING) (bf_reasons r)) None r
    else r)).

(** [dependency_invalidation_epoch] and [claimed_invalidation_epoch]. *)
Definition with_epochs (epoch claimed updated : Z) (r : BundleFreshness) : BundleFreshness :=
  {| bf_tenant := bf_tenant r; bf_state := bf_state r; bf_reasons := bf_reasons r;
     bf_observed := bf_observed r; bf_materialized_source := bf_materialized_source r;
     bf_materialized_catalog := bf_materialized_catalog r; bf_stale_since := bf_stale_since r;
     bf_last_reconciled_at := bf_last_reconciled_at r; bf_producer := bf_producer r;
     bf_manifest_hash := bf_manifest_hash r; bf_embedding_contract := bf_embedding_contract r;
     bf_epoch := epoch; bf_claimed := claimed;
     bf_coverage_missing := bf_coverage_missing r; bf_updated_at := updated |}.

(** The epoch bump of one row. *)
Definition bump_epoch (bundle_id : Z) : M unit :=
  statement (fun d =>
    match bundle_freshness d !! bundle_id with
    | None => Some (tt, d)
    | Some r =>
        if decide (bf_state r = st_retired) then Some (tt, d)
        else epoch ← bigint (bf_epoch r + 1);
             Some (tt, set_freshness
                         (<[bundle_id := with_epochs epoch (bf_claimed r) now r]>
                            (bundle_freshness d)) d)
    end).

Definition invalidate_dependent_bundle (bundle_id : Z) : M unit :=
  set_bundle_state bundle_id st_stale [REASON_SOURCE_CHANGED] None None ;;
  bump_epoch bundle_id.

(** ** The transitive walk *)

(** The edge query: the enabled bundle-scope dependencies of a source. *)
Definition transitive_edges (d : Db) (bundle_id : Z) : list (Z * option str) :=
  map (fun r => (dep_target r, dep_causation_key r))
    (filter (fun r => dep_source r = bundle_id /\ dep_enabled r = true
                      /\ dep_target_kind r = k_bundle) (freshness_dependency d)).

(** The originating event's causation key suppresses an edge. *)
Definition suppressed (causation_key edge_key : option str) : bool :=
  bool_decide (is_Some causation_key) && bool_decide (edge_key = causation_key).

(** The loop over the edges of one node: the nodes visited, the stack, and
    whether the node cap was reached. *)
Fixpoint walk_edges (causation_key : option str) (edges : list (Z * option str))
    (visited : gset Z) (frontier : list Z) : M (gset Z * list Z * bool) :=
  match edges with
  | [] => mret (visited, frontier, false)
  | (target, edge_key) :: rest =>
      if suppressed causation_key edge_key then walk_edges causation_key rest visited frontier
      else if bool_decide (target ∈ visited) then walk_edges causation_key rest visited frontier
      else
        invalidate_dependent_bundle target ;;
        let visited := {[target]} ∪ visited in
        if (TRANSITIVE_INVALIDATION_ROW_CAP <=? size visited)%nat
        then mret (visited, frontier, true)
        else walk_edges causation_key rest visited (target :: frontier)
  end.

(** The outer loop; the head of the list is the top of the stack.  It returns
    the nodes visited and whether the walk was cut short. *)
Fixpoint walk (fuel : nat) (causation_key : option str) (visited : gset Z) (frontier : list Z)
  : M (option (gset Z * bool)) :=
  match frontier with
  | [] => mret (Some (visited, false))
  | bundle_id :: frontier =>
      if (TRANSITIVE_INVALIDATION_ROW_CAP <=? size visited)%nat
      then mret (Some (visited, true))
      else
        match fuel with
        | O => mret None
        | S fuel =>
            d ← get;
            let remaining := (TRANSITIVE_INVALIDATION_ROW_CAP - size visited)%nat in
            let edges := take (remaining + 1) (transitive_edges d bundle_id) in
            let edge_fetch_truncated := (remaining <? length edges)%nat in
            '(visited, frontier, truncated) ← walk_edges causation_key edges visited frontier;
            if truncated || edge_fetch_truncated then mret (Some (visited, true))
            else walk fuel causation_key visited frontier
        end
  end.

(** The row of the blanket pass. *)
Definition blanket_row (r : BundleFreshness) (epoch : Z) : BundleFreshness :=
  {| bf_tenant := bf_tenant r; bf_state := st_stale;
     bf_reasons := if decide (bf_state r = st_stale)
                   then merge_reasons (bf_reasons r) [REASON_SOURCE_CHANGED]
                   else [REASON_SOURCE_CHANGED];
     bf_observed := bf_observed r; bf_materialized_source := bf_materialized_source r;
     bf_materialized_catalog := bf_materialized_catalog r;
     bf_stale_since := if decide (bf_state r = st_stale) then bf_stale_since r else Some now;
     bf_last_reconciled_at := bf_last_reconciled_at r; bf_producer := bf_producer r;
     bf_manifest_hash := bf_manifest_hash r; bf_embedding_contract := bf_embedding_contract r;
     bf_epoch := epoch; bf_claimed := bf_claimed r;
     bf_coverage_missing := bf_coverage_missing r; bf_updated_at := now |}.

(** Whether the blanket pass takes a row. *)
Definition blanket_hits (d : Db) (walked : gset Z) (bundle_id : Z) (r : BundleFreshness) : bool :=
  negb (bool_decide (bf_state r = st_retired)) && negb (bool_decide (bundle_id ∈ walked))
  && existsb (fun dep => bool_decide (dep_target dep = bundle_id) && dep_enabled dep
                         && bool_decide (dep_target_kind dep = k_bundle))
       (freshness_dependency d).

Definition escalate_blanket_invalidation (visited : gset Z) : M unit :=
  statement (fun d =>
    if bool_decide (map_Forall (fun id r => blanket_hits d visited id r = true ->
                                            (bf_epoch r + 1 <= i64_max)%Z) (bundle_freshness d))
    then Some (tt, set_freshness
           (map_imap (fun id r => Some (if blanket_hits d visited id r
                                        then blanket_row r (bf_epoch r + 1) else r))
              (bundle_freshness d)) d)
    else None).

(** Every pop but one for each root answers to a node newly visited, and the
    cap bounds those. *)
Definition walk_fuel (roots : list Z) : nat := (length roots + TRANSITIVE_INVALIDATION_ROW_CAP)%nat.

Definition propagate_transitive (roots : list Z) (causation_key : option str) : M unit :=
  outcome ← walk (walk_fuel roots) causation_key (list_to_set roots) (reverse roots);
  match outcome with
  | None => raise
  | Some (visited, truncated) =>
      if (truncated : bool) then escalate_blanket_invalidation visited else mret tt
  end.

(** ** Scope overrides *)

Definition moved_scope (r : ScopeFreshness) (state : str) (reasons : list str)
    (producer : option str) : ScopeFreshness :=
  {| sf_tenant := sf_tenant r;
     sf_state := state;
     sf_reasons := if decide (sf_state r = state)
                   then array_agg_distinct (sf_reasons r ++ reasons) else reasons;
     sf_stale_since :=
       if decide (state = st_stale) then
         if decide (sf_state r = st_stale) then sf_stale_since r else Some now
       else sf_stale_since r;
     sf_producer := coalesce producer (sf_producer r);
     sf_updated_at := now |}.

(** Merging two empty arrays aggregates to NULL, which the column refuses. *)
Definition set_scope_state (bundle_id : Z) (scope_kind scope_key state : str)
    (reason_codes : list str) (producer : option str) : M unit :=
  statement (fun d =>
    match bundles d !! bundle_id with
    | None => Some (tt, d)
    | Some b =>
        let key := (bundle_id, scope_kind, scope_key) in
        match concept_freshness d !! key with
        | None =>
            Some (tt, set_scopes
              (<[key := {| sf_tenant := b_tenant b; sf_state := state; sf_reasons := reason_codes;
                           sf_stale_since := if decide (state = st_fresh) then None else Some now;
                           sf_producer := producer; sf_updated_at := now |}]>
                 (concept_freshness d)) d)
        | Some r =>
            if decide (sf_state r = st_retired) then Some (tt, d)
            else if decide (sf_state r = state /\ sf_reasons r ++ reason_codes = []) then None
            else Some (tt, set_scopes (<[key := moved_scope r state reason_codes producer]>
                                         (concept_freshness d)) d)
        end
    end).

(** ** Sources leaving the catalog *)

Definition departing_dependents (source_bundle_id : Z) : M (list DepartingDependent) :=
  d ← get;
  mret (map (fun r => {| dd_bundle := dep_target r; dd_scope_kind := dep_target_kind r;
                         dd_scope_key := dep_target_key r |})
          (filter (fun r => dep_source r = source_bundle_id /\ dep_enabled r = true)
             (freshness_dependency d))).

(** Invalidate a dependent at its registered scope; whether that was the
    whole bundle. *)
Definition invalidate_target (bundle_id : Z) (scope_kind : str) (scope_key : option str) : M bool :=
  if decide (scope_kind = k_bundle) then invalidate_dependent_bundle bundle_id ;; mret true
  else
    match scope_key with
    | None => raise
    | Some key =>
        set_scope_state bundle_id scope_kind key st_stale [REASON_SOURCE_CHANGED] None ;; mret false
    end.

Fixpoint depart_loop (dependents : list DepartingDependent) (roots : list Z) : M (list Z) :=
  match dependents with
  | [] => mret roots
  | dependent :: rest =>
      at_bundle ← invalidate_target (dd_bundle dependent) (dd_scope_kind dependent)
                    (dd_scope_key dependent);
      depart_loop rest (if (at_bundle : bool) then roots ++ [dd_bundle dependent] else roots)
  end.

Definition invalidate_departing_dependents (dependents : list DepartingDependent) : M unit :=
  roots ← depart_loop dependents [];
  propagate_transitive roots None.

(** ** Evaluation of a change *)

Definition invalidate_registered_target (dependency : DependencyRow) : M bool :=
  invalidate_target (dep_target dependency) (dep_target_kind dependency) (dep_target_key dependency).

(** The watermark of one dependency. *)
Definition advanced (generation event : Z) (r : DependencyRow) : DependencyRow :=
  {| dep_id := dep_id r; dep_tenant := dep_tenant r; dep_producer := dep_producer r;
     dep_enabled := dep_enabled r; dep_causation_key := dep_causation_key r;
     dep_source := dep_source r; dep_selector_kind := dep_selector_kind r;
     dep_selector_value := dep_selector_value r; dep_last_generation := generation;
     dep_last_event := Some event; dep_target := dep_target r;
     dep_target_kind := dep_target_kind r; dep_target_key := dep_target_key r |}.

Definition advance_watermark (dependency_id generation event : Z) : M unit :=
  modify (fun d => set_dependencies
    (map (fun r => if decide (dep_id r = dependency_id) then advanced generation event r else r)
       (freshness_dependency d)) (dependency_seq d) d).

(** One dependency of the loop; the bundle it invalidated, if any. *)
Definition evaluate_one (source_bundle_id event_id catalog_generation : Z)
    (is_state_change : bool) (changes : list ConceptChange) (truncated : bool)
    (causation_key : option str) (dependency : DependencyRow) : M (option Z) :=
  advance_watermark (dep_id dependency) catalog_generation event_id ;;
  if suppressed causation_key (dep_causation_key dependency) then mret None
  else
    let whole := bool_decide (dep_selector_kind dependency = k_bundle) in
    if negb whole && (is_state_change || truncated) then
      set_bundle_state source_bundle_id st_stale [REASON_SCOPE_UNKNOWN] None None ;;
      at_bundle ← invalidate_registered_target dependency;
      mret (if (at_bundle : bool) then Some (dep_target dependency) else None)
    else if whole || selector_matches (dep_selector_kind dependency)
                       (dep_selector_value dependency) changes then
      at_bundle ← invalidate_registered_target dependency;
      mret (if (at_bundle : bool) then Some (dep_target dependency) else None)
    else mret None.

Fixpoint evaluate_loop (step : DependencyRow -> M (option Z)) (dependencies : list DependencyRow)
    (invalidated : list Z) : M (list Z) :=
  match dependencies with
  | [] => mret invalidated
  | dependency :: rest =>
      hit ← step dependency;
      evaluate_loop step rest (invalidated ++ option_list hit)
  end.

(** The dependencies an evaluation loads. *)
Definition due_dependencies (d : Db) (source_bundle_id catalog_generation : Z)
  : list DependencyRow :=
  filter (fun r => dep_source r = source_bundle_id /\ dep_enabled r = true
                   /\ (dep_last_generation r < catalog_generation)%Z) (freshness_dependency d).

Definition evaluate_dependencies (source_bundle_id event_id catalog_generation : Z)
    (is_state_change : bool) (changes : list ConceptChange) (truncated : bool)
    (causation_key : option str) : M unit :=
  d ← get;
  invalidated ← evaluate_loop
    (evaluate_one source_bundle_id event_id catalog_generation is_state_change changes truncated
       causation_key)
    (due_dependencies d source_bundle_id catalog_generation) [];
  propagate_transitive invalidated causation_key.

End freshness.

(** The names of states, kinds and reasons are constants; proofs compare them
    by the lemmas below and never look inside. *)
Lemma stale_ne_retired : st_stale <> st_retired.
Proof. by_decide. Qed.
Lemma fresh_ne_retired : st_fresh <> st_retired.
Proof. by_decide. Qed.
Lemma stale_ne_fresh : st_stale <> st_fresh.
Proof. by_decide. Qed.
Lemma reconciling_ne_retired : st_reconciling <> st_retired.
Proof. by_decide. Qed.
Lemma blocked_ne_retired : st_blocked <> st_retired.
Proof. by_decide. Qed.
Lemma reconciling_ne_stale : st_reconciling <> st_stale.
Proof. by_decide. Qed.
Lemma reconciling_ne_fresh : st_reconciling <> st_fresh.
Proof. by_decide. Qed.
Lemma blocked_ne_fresh : st_blocked <> st_fresh.
Proof. by_decide. Qed.
Lemma retired_ne_fresh : st_retired <> st_fresh.
Proof. by_decide. Qed.

#[global] Opaque st_fresh st_stale st_reconciling st_blocked st_retired
  k_bundle k_concept k_path k_path_prefix k_group
  REASON_SOURCE_CHANGED REASON_SCOPE_UNKNOWN REASON_RELATIONSHIP_COVERAGE_MISSING
  PRODUCER_REPORTED.

#[export] Hint Resolve stale_ne_retired fresh_ne_retired stale_ne_fresh reconciling_ne_retired
  blocked_ne_retired reconciling_ne_stale reconciling_ne_fresh blocked_ne_fresh retired_ne_fresh : okf.
