(* ===== verification/Config.v ===== *)
(** * Durable configuration ([extension/src/catalog/config.rs])

    The keys of [pgokf.set_config], the validation of their values, the
    singleton row they are persisted to, and the invalidation of embedded
    bundles when the embedding contract policy changes. *)
From stdpp Require Import prelude strings gmap list.
From Stdlib Require Import Ascii ZArith Lia.
From S2P Require Import Prelude Str CatalogError Security Catalog Freshness.

(** ** Keys and values *)

Inductive ConfigKey : Type :=
| KAllowedRoots
| KDefaultTextSearchConfig
| KDefaultStrict
| KSyncLogRetentionDays
| KDefaultExclude
| KStoreSource
| KSearchBackend
| KNotifyChannel
| KOkfVersionPolicy
| KEmbeddingDim
| KEmbeddingModel
| KEmbeddingContract
| KTrackHistory
| KHistoryRetentionDays
| KBm25Provider
| KRequireTenant
| KChangeEventRetentionDays.

#[export] Instance config_key_eq_dec : EqDecision ConfigKey.
Proof. solve_decision. Defined.

Definition config_keys : list ConfigKey :=
  [KAllowedRoots; KDefaultTextSearchConfig; KDefaultStrict; KSyncLogRetentionDays; KDefaultExclude;
   KStoreSource; KSearchBackend; KNotifyChannel; KOkfVersionPolicy; KEmbeddingDim; KEmbeddingModel;
   KEmbeddingContract; KTrackHistory; KHistoryRetentionDays; KBm25Provider; KRequireTenant;
   KChangeEventRetentionDays].

(** [ConfigKey::as_str] *)
Definition key_name (k : ConfigKey) : str :=
  match k with
  | KAllowedRoots => lit "allowed_roots"
  | KDefaultTextSearchConfig => lit "default_text_search_config"
  | KDefaultStrict => lit "default_strict"
  | KSyncLogRetentionDays => lit "sync_log_retention_days"
  | KDefaultExclude => lit "default_exclude"
  | KStoreSource => lit "store_source"
  | KSearchBackend => lit "search_backend"
  | KNotifyChannel => lit "notify_channel"
  | KOkfVersionPolicy => lit "okf_version_policy"
  | KEmbeddingDim => lit "embedding_dim"
  | KEmbeddingModel => lit "embedding_model"
  | KEmbeddingContract => lit "embedding_contract"
  | KTrackHistory => lit "track_history"
  | KHistoryRetentionDays => lit "history_retention_days"
  | KBm25Provider => lit "bm25_provider"
  | KRequireTenant => lit "require_tenant"
  | KChangeEventRetentionDays => lit "change_event_retention_days"
  end.

(** [ConfigKey::parse]: its arms are the names of [as_str]. *)
Definition parse_key (key : str) : result ConfigKey CatalogError :=
  ok_or (invalid_parameter (lit "unknown configuration key: " ++ key) [])
    (find (fun k => bool_decide (key_name k = key)) config_keys).

Inductive ConfigValue : Type :=
| VAllowedRoots (roots : list str)
| VDefaultTextSearchConfig (name : str)
| VDefaultStrict (flag : bool)
| VSyncLogRetentionDays (days : Z)
| VDefaultExclude (patterns : list str)
| VStoreSource (flag : bool)
| VSearchBackend (name : str)
| VNotifyChannel (channel : str)
| VOkfVersionPolicy (policy : str)
| VEmbeddingDim (dim : Z)
| VEmbeddingModel (model : str)
| VEmbeddingContract (contract : str)
| VTrackHistory (flag : bool)
| VHistoryRetentionDays (days : Z)
| VBm25Provider (name : str)
| VRequireTenant (flag : bool)
| VChangeEventRetentionDays (days : Z).

(** [serde_json::Value] as the coercions look into it; a number carries what
    its [as_i64] answers. *)
Inductive config_json : Type :=
| CNull
| CBool (b : bool)
| CNumber (as_i64 : option Z)
| CString (s : str)
| CArray (l : list config_json)
| CObject.

(** ** Validation *)

Definition type_error (key : ConfigKey) (expected : str) : CatalogError :=
  invalid_parameter (lit "configuration key " ++ key_name key ++ lit " expects " ++ expected) [].

Fixpoint validate_config_roots (roots : list str) : result unit CatalogError :=
  match roots with
  | [] => Ok tt
  | root :: rest => let? _ := validate_path_syntax root [] in validate_config_roots rest
  end.

Fixpoint validate_exclude_patterns (patterns : list str) : result unit CatalogError :=
  match patterns with
  | [] => Ok tt
  | pattern :: rest =>
      if bool_decide (pattern = []) then
        Err (invalid_parameter (lit "default_exclude patterns must not be empty") [])
      else if contains_char nul pattern then
        Err (invalid_parameter (lit "default_exclude patterns must not contain NUL bytes") [])
      else validate_exclude_patterns rest
  end.

Definition validate_nonneg_days (days : Z) (name : str) : result Z CatalogError :=
  if (days <? 0)%Z then
    Err (invalid_parameter (name ++ lit " must be greater than or equal to 0") [])
  else if (days <=? i32_max)%Z then Ok days
  else Err (invalid_parameter (name ++ lit " is out of range: " ++ show_Z days) []).

Definition validate_text_search_config_name (name : str) : result unit CatalogError :=
  if is_blank name then
    Err (invalid_parameter (lit "default_text_search_config must not be empty") [])
  else Ok tt.

(** [search_backend.rs] *)
Definition SEARCH_BACKENDS : list str := [lit "native"; lit "bm25"].
Definition BM25_PROVIDERS : list str := [lit "auto"; lit "pg_search"; lit "pg_textsearch"].

Definition validate_search_backend (name : str) : result unit CatalogError :=
  if bool_decide (name ∈ SEARCH_BACKENDS) then Ok tt
  else Err (invalid_parameter (lit "search_backend must be one of " ++ quoted_list SEARCH_BACKENDS
                                 ++ lit ", got " ++ name) []).

Definition validate_bm25_provider (name : str) : result unit CatalogError :=
  if bool_decide (name ∈ BM25_PROVIDERS) then Ok tt
  else Err (invalid_parameter (lit "bm25_provider must be one of " ++ quoted_list BM25_PROVIDERS
                                 ++ lit ", got " ++ name) []).

Definition MAX_NOTIFY_CHANNEL_LEN : nat := 63.

Definition channel_start (c : ascii) : bool := bool_decide (c = "_"%char) || is_ascii_alphabetic c.
Definition channel_rest (c : ascii) : bool := bool_decide (c = "_"%char) || is_ascii_alphanumeric c.

Definition validate_notify_channel (channel : str) : result unit CatalogError :=
  match channel with
  | [] => Ok tt
  | first :: rest =>
      if MAX_NOTIFY_CHANNEL_LEN <? length channel then
        Err (invalid_parameter (lit "notify_channel must be at most 63 bytes, got "
                                  ++ show_Z (Z.of_nat (length channel))) [])
      else if channel_start first && forallb channel_rest rest then Ok tt
      else Err (invalid_parameter (lit "notify_channel must be a safe identifier (letters, digits, underscore; leading letter or underscore), got " ++ channel) [])
  end.

Definition OKF_VERSION_POLICIES : list str := [lit "warn"; lit "reject"].

Definition validate_okf_version_policy (policy : str) : result unit CatalogError :=
  if bool_decide (policy ∈ OKF_VERSION_POLICIES) then Ok tt
  else Err (invalid_parameter (lit "okf_version_policy must be one of "
                                 ++ quoted_list OKF_VERSION_POLICIES ++ lit ", got " ++ policy) []).

Definition MIN_EMBEDDING_DIM : Z := 1.
Definition MAX_EMBEDDING_DIM : Z := 16000.

(** The bounds fit an [i32], so the conversion cannot fail. *)
Definition validate_embedding_dim (dim : Z) : result Z CatalogError :=
  if ((MIN_EMBEDDING_DIM <=? dim) && (dim <=? MAX_EMBEDDING_DIM))%Z then Ok dim
  else Err (invalid_parameter (lit "embedding_dim must be between 1 and 16000, got " ++ show_Z dim) []).

Definition MAX_EMBEDDING_LABEL_LEN : nat := 200.

Definition validate_embedding_label (name label : str) : result unit CatalogError :=
  if bool_decide (label = []) then Ok tt
  else if is_blank label then
    Err (invalid_parameter (name ++ lit " must not be blank (use the empty string to leave it unpinned)") [])
  else if MAX_EMBEDDING_LABEL_LEN <? length label then
    Err (invalid_parameter (name ++ lit " must be at most 200 bytes, got "
                              ++ show_Z (Z.of_nat (length label))) [])
  else if contains_char nul label then
    Err (invalid_parameter (name ++ lit " must not contain NUL bytes") [])
  else Ok tt.

(** ** Coercion *)

Definition json_string_array (value : config_json) (key : ConfigKey) : result (list str) CatalogError :=
  match value with
  | CArray l =>
      rmap_list (fun element => match element with
                                | CString text => Ok text
                                | _ => Err (type_error key (lit "an array of strings"))
                                end) l
  | _ => Err (type_error key (lit "an array of strings"))
  end.

Definition coerce_string_array (value : config_json) (key : ConfigKey)
    (validate : list str -> result unit CatalogError) (make : list str -> ConfigValue)
  : result ConfigValue CatalogError :=
  let? items := json_string_array value key in
  let? _ := validate items in
  Ok (make items).

Definition coerce_bool (value : config_json) (key : ConfigKey) (make : bool -> ConfigValue)
  : result ConfigValue CatalogError :=
  match value with
  | CBool flag => Ok (make flag)
  | _ => Err (type_error key (lit "a boolean"))
  end.

Definition coerce_string (value : config_json) (key : ConfigKey)
    (validate : str -> result unit CatalogError) (make : str -> ConfigValue)
  : result ConfigValue CatalogError :=
  match value with
  | CString text => let? _ := validate text in Ok (make text)
  | _ => Err (type_error key (lit "a string"))
  end.

(** The integer keys share [as_i64] and differ in their validator. *)
Definition coerce_integer (value : config_json) (key : ConfigKey)
    (validate : Z -> result Z CatalogError) (make : Z -> ConfigValue)
  : result ConfigValue CatalogError :=
  match value with
  | CNumber (Some raw) => let? n := validate raw in Ok (make n)
  | _ => Err (type_error key (lit "an integer"))
  end.

Definition coerce (key : ConfigKey) (value : config_json) : result ConfigValue CatalogError :=
  match key with
  | KAllowedRoots => coerce_string_array value key validate_config_roots VAllowedRoots
  | KDefaultExclude => coerce_string_array value key validate_exclude_patterns VDefaultExclude
  | KDefaultStrict => coerce_bool value key VDefaultStrict
  | KStoreSource => coerce_bool value key VStoreSource
  | KSyncLogRetentionDays =>
      coerce_integer value key (fun n => validate_nonneg_days n (key_name key)) VSyncLogRetentionDays
  | KDefaultTextSearchConfig =>
      coerce_string value key validate_text_search_config_name VDefaultTextSearchConfig
  | KSearchBackend => coerce_string value key validate_search_backend VSearchBackend
  | KNotifyChannel => coerce_string value key validate_notify_channel VNotifyChannel
  | KOkfVersionPolicy => coerce_string value key validate_okf_version_policy VOkfVersionPolicy
  | KEmbeddingDim => coerce_integer value key validate_embedding_dim VEmbeddingDim
  | KEmbeddingModel => coerce_string value key (validate_embedding_label (key_name key)) VEmbeddingModel
  | KEmbeddingContract =>
      coerce_string value key (validate_embedding_label (key_name key)) VEmbeddingContract
  | KTrackHistory => coerce_bool value key VTrackHistory
  | KHistoryRetentionDays =>
      coerce_integer value key (fun n => validate_nonneg_days n (key_name key)) VHistoryRetentionDays
  | KBm25Provider => coerce_string value key validate_bm25_provider VBm25Provider
  | KRequireTenant => coerce_bool value key VRequireTenant
  | KChangeEventRetentionDays =>
      coerce_integer value key (fun n => validate_nonneg_days n (key_name key)) VChangeEventRetentionDays
  end.

(** ** The row *)

(** [persist]: the column of the value's key. *)
Definition persisted (v : ConfigValue) (c : Config) : Config :=
  let '(config_row roots search strict log exclude store backend channel policy dim track history
          bm25 tenant events model contract) := c in
  match v with
  | VAllowedRoots x => config_row x search strict log exclude store backend channel policy dim track history bm25 tenant events model contract
  | VDefaultTextSearchConfig x => config_row roots x strict log exclude store backend channel policy dim track history bm25 tenant events model contract
  | VDefaultStrict x => config_row roots search x log exclude store backend channel policy dim track history bm25 tenant events model contract
  | VSyncLogRetentionDays x => config_row roots search strict x exclude store backend channel policy dim track history bm25 tenant events model contract
  | VDefaultExclude x => config_row roots search strict log x store backend channel policy dim track history bm25 tenant events model contract
  | VStoreSource x => config_row roots search strict log exclude x backend channel policy dim track history bm25 tenant events model contract
  | VSearchBackend x => config_row roots search strict log exclude store x channel policy dim track history bm25 tenant events model contract
  | VNotifyChannel x => config_row roots search strict log exclude store backend x policy dim track history bm25 tenant events model contract
  | VOkfVersionPolicy x => config_row roots search strict log exclude store backend channel x dim track history bm25 tenant events model contract
  | VEmbeddingDim x => config_row roots search strict log exclude store backend channel policy x track history bm25 tenant events model contract
  | VTrackHistory x => config_row roots search strict log exclude store backend channel policy dim x history bm25 tenant events model contract
  | VHistoryRetentionDays x => config_row roots search strict log exclude store backend channel policy dim track x bm25 tenant events model contract
  | VBm25Provider x => config_row roots search strict log exclude store backend channel policy dim track history x tenant events model contract
  | VRequireTenant x => config_row roots search strict log exclude store backend channel policy dim track history bm25 x events model contract
  | VChangeEventRetentionDays x => config_row roots search strict log exclude store backend channel policy dim track history bm25 tenant x model contract
  | VEmbeddingModel x => config_row roots search strict log exclude store backend channel policy dim track history bm25 tenant events x contract
  | VEmbeddingContract x => config_row roots search strict log exclude store backend channel policy dim track history bm25 tenant events model x
  end.

(** The default of the key's column. *)
Definition column_default (k : ConfigKey) : ConfigValue :=
  match k with
  | KAllowedRoots => VAllowedRoots (cfg_allowed_roots default_config)
  | KDefaultTextSearchConfig => VDefaultTextSearchConfig (cfg_default_text_search_config default_config)
  | KDefaultStrict => VDefaultStrict (cfg_default_strict default_config)
  | KSyncLogRetentionDays => VSyncLogRetentionDays (cfg_sync_log_retention_days default_config)
  | KDefaultExclude => VDefaultExclude (cfg_default_exclude default_config)
  | KStoreSource => VStoreSource (cfg_store_source default_config)
  | KSearchBackend => VSearchBackend (cfg_search_backend default_config)
  | KNotifyChannel => VNotifyChannel (cfg_notify_channel default_config)
  | KOkfVersionPolicy => VOkfVersionPolicy (cfg_okf_version_policy default_config)
  | KEmbeddingDim => VEmbeddingDim (cfg_embedding_dim default_config)
  | KEmbeddingModel => VEmbeddingModel (cfg_embedding_model default_config)
  | KEmbeddingContract => VEmbeddingContract (cfg_embedding_contract default_config)
  | KTrackHistory => VTrackHistory (cfg_track_history default_config)
  | KHistoryRetentionDays => VHistoryRetentionDays (cfg_history_retention_days default_config)
  | KBm25Provider => VBm25Provider (cfg_bm25_provider default_config)
  | KRequireTenant => VRequireTenant (cfg_require_tenant default_config)
  | KChangeEventRetentionDays => VChangeEventRetentionDays (cfg_change_event_retention_days default_config)
  end.

(** The [CHECK] constraints of the table. *)
Definition config_checks (c : Config) : bool :=
  (0 <=? cfg_sync_log_retention_days c)%Z
  && bool_decide (cfg_search_backend c ∈ SEARCH_BACKENDS)
  && bool_decide (cfg_okf_version_policy c ∈ OKF_VERSION_POLICIES)
  && ((MIN_EMBEDDING_DIM <=? cfg_embedding_dim c) && (cfg_embedding_dim c <=? MAX_EMBEDDING_DIM))%Z
  && (0 <=? cfg_history_retention_days c)%Z
  && bool_decide (cfg_bm25_provider c ∈ BM25_PROVIDERS)
  && (0 <=? cfg_change_event_retention_days c)%Z.

(** [UPDATE pgokf_private.config SET ... WHERE singleton] *)
Definition update_config (f : Config -> Config) : M unit :=
  statement (fun d =>
    let c := f (config d) in if config_checks c then Some (tt, set_config_row c d) else None).

Definition persist (v : ConfigValue) : M unit := update_config (persisted v).
Definition reset_key (k : ConfigKey) : M unit := update_config (persisted (column_default k)).
Definition reset_all : M unit := update_config (fun _ => default_config).

(** ** Embedding contract *)

Definition embedding_contract_policy (c : Config) : Z * str * str :=
  (cfg_embedding_dim c, cfg_embedding_model c, cfg_embedding_contract c).

Definition REASON_EMBEDDING_CONTRACT_CHANGED : str := lit "embedding_contract_changed".

Section config.
Context `{Ses : Session}.

Definition revoked_row (r : BundleFreshness) : BundleFreshness :=
  {| bf_tenant := bf_tenant r; bf_state := st_stale; bf_reasons := [REASON_EMBEDDING_CONTRACT_CHANGED];
     bf_observed := bf_observed r; bf_materialized_source := bf_materialized_source r;
     bf_materialized_catalog := bf_materialized_catalog r; bf_stale_since := Some now;
     bf_last_reconciled_at := bf_last_reconciled_at r; bf_producer := bf_producer r;
     bf_manifest_hash := bf_manifest_hash r; bf_embedding_contract := bf_embedding_contract r;
     bf_epoch := bf_epoch r; bf_claimed := bf_claimed r;
     bf_coverage_missing := bf_coverage_missing r; bf_updated_at := now |}.

(** [UPDATE pgokf.bundle_freshness ... WHERE state = 'fresh' AND EXISTS (...)];
    [embedded] are the bundles that hold rows of [pgokf.concept_embedding]. *)
Definition invalidate_embeddings_for_contract_change (embedded : gset Z) : M unit :=
  modify (fun d => set_freshness
    (map_imap (fun id r => Some (if bool_decide (bf_state r = st_fresh) && bool_decide (id ∈ embedded)
                                 then revoked_row r else r)) (bundle_freshness d)) d).

Definition with_embedding_contract_invalidation (embedded : gset Z) (mutation : M unit) : M unit :=
  before ← get;
  mutation ;;
  after ← get;
  if bool_decide (embedding_contract_policy (config after) = embedding_contract_policy (config before))
  then mret tt
  else invalidate_embeddings_for_contract_change embedded.

(** [ts_config_exists]: the lookup in [pg_catalog.pg_ts_config]. *)
Definition ensure_text_search_config_exists (ts_config_exists : str -> bool) (name : str) : M unit :=
  if ts_config_exists name then mret tt
  else fail (invalid_parameter (lit "text search configuration does not exist: " ++ name) []).

Definition set_config_impl (ts_config_exists : str -> bool) (embedded : gset Z) (key : str)
    (value : config_json) : M unit :=
  authorize_user Register ;;
  parsed ← lift (parse_key key);
  coerced ← lift (coerce parsed value);
  (match coerced with
   | VDefaultTextSearchConfig name => ensure_text_search_config_exists ts_config_exists name
   | _ => mret tt
   end) ;;
  with_embedding_contract_invalidation embedded (persist coerced).

Definition reset_config_impl (embedded : gset Z) (key : option str) : M unit :=
  authorize_user Register ;;
  match key with
  | None => with_embedding_contract_invalidation embedded reset_all
  | Some key =>
      parsed ← lift (parse_key key);
      with_embedding_contract_invalidation embedded (reset_key parsed)
  end.

(** The row [get_config] renders as one JSON object. *)
Definition get_config_impl : M Config :=
  authorize_user Search ;;
  d ← get; mret (config d).

End config.

(** ** What validation guarantees *)

(** A key is read back from its name, and no other text is a key. *)
Lemma parse_key_name k : parse_key (key_name k) = Ok k.
Proof. by destruct k; vm_compute. Qed.

(** The constraint of the value's own column. *)
Definition value_checks (v : ConfigValue) : bool :=
  match v with
  | VSyncLogRetentionDays n | VHistoryRetentionDays n | VChangeEventRetentionDays n => (0 <=? n)%Z
  | VSearchBackend x => bool_decide (x ∈ SEARCH_BACKENDS)
  | VOkfVersionPolicy x => bool_decide (x ∈ OKF_VERSION_POLICIES)
  | VEmbeddingDim n => ((MIN_EMBEDDING_DIM <=? n) && (n <=? MAX_EMBEDDING_DIM))%Z
  | VBm25Provider x => bool_decide (x ∈ BM25_PROVIDERS)
  | _ => true
  end.

Lemma persisted_checks v c :
  value_checks v = true -> config_checks c = true -> config_checks (persisted v c) = true.
Proof.
  destruct c. unfold config_checks. rewrite !andb_true_iff. intros Hv Hc. revert Hv.
  destruct v; cbn [value_checks persisted]; rewrite ?andb_true_iff; cbn in *; tauto.
Qed.

Lemma coerce_integer_ok v k val mk (Q : ConfigValue -> Prop) value :
  (forall n n', val n = Ok n' -> Q (mk n')) -> coerce_integer v k val mk = Ok value -> Q value.
Proof. destruct v as [|?|[n|]|?|?|]; cbn; try done. intros HQ. destruct (val n) eqn:E; cbn; [|done]. intros [= <-]. eauto. Qed.

Lemma coerce_string_ok v k val mk (Q : ConfigValue -> Prop) value :
  (forall s u, val s = Ok u -> Q (mk s)) -> coerce_string v k val mk = Ok value -> Q value.
Proof. destruct v as [| | |s| |]; cbn; try done. intros HQ. destruct (val s) eqn:E; cbn; [|done]. intros [= <-]. eauto. Qed.

Lemma coerce_bool_ok v k mk (Q : ConfigValue -> Prop) value :
  (forall b, Q (mk b)) -> coerce_bool v k mk = Ok value -> Q value.
Proof. destruct v; cbn; try done. by intros HQ [= <-]. Qed.

Lemma coerce_array_ok v k val mk (Q : ConfigValue -> Prop) value :
  (forall l, Q (mk l)) -> coerce_string_array v k val mk = Ok value -> Q value.
Proof.
  unfold coerce_string_array. destruct (json_string_array v k); cbn; [|done].
  destruct (val _); cbn; [|done]. by intros HQ [= <-].
Qed.

(** An accepted value meets its constraint. *)
Lemma coerce_checks k v value : coerce k v = Ok value -> value_checks value = true.
Proof.
  assert (forall n n' name, validate_nonneg_days n name = Ok n' -> (0 <=? n')%Z = true) as Hdays.
  { unfold validate_nonneg_days. intros n n' name. repeat case_match; try done. intros [= <-]. lia. }
  destruct k; cbn [coerce];
    (apply (coerce_integer_ok _ _ _ _ (fun x => value_checks x = true))
     || apply (coerce_string_ok _ _ _ _ (fun x => value_checks x = true))
     || apply (coerce_bool_ok _ _ _ (fun x => value_checks x = true))
     || apply (coerce_array_ok _ _ _ _ (fun x => value_checks x = true)));
    cbn [value_checks]; try done; try (by intros n n' ?%Hdays); intros s u;
    unfold validate_search_backend, validate_okf_version_policy, validate_embedding_dim, validate_bm25_provider;
    case_match eqn:E; try done; intros [= <-]; exact E.
Qed.

(** So a [set_config] that gets as far as writing always writes. *)
Lemma persist_commits k v value d :
  coerce k v = Ok value -> config_checks (config d) = true ->
  persist value d = Done tt (set_config_row (persisted value (config d)) d).
Proof.
  intros Hv%coerce_checks Hc. unfold persist, update_config, statement. by rewrite persisted_checks.
Qed.

Lemma default_config_checks : config_checks default_config = true.
Proof. by vm_compute. Qed.

(** *** Concrete values *)

Example set_dim : coerce KEmbeddingDim (CNumber (Some 768%Z)) = Ok (VEmbeddingDim 768).
Proof. reflexivity. Qed.
Example refuse_dim : coerce KEmbeddingDim (CNumber (Some 16001%Z))
  = Err (invalid_parameter (lit "embedding_dim must be between 1 and 16000, got 16001") []).
Proof. by_eval. Qed.
Example refuse_channel : coerce KNotifyChannel (CString (lit "a-b"))
  = Err (invalid_parameter (lit "notify_channel must be a safe identifier (letters, digits, underscore; leading letter or underscore), got a-b") []).
Proof. by_eval. Qed.
Example unknown_key : parse_key (lit "dim") = Err (invalid_parameter (lit "unknown configuration key: dim") []).
Proof. by_eval. Qed.
