(* ===== verification/FreshnessWalk.v ===== *)
(** * The transitive invalidation walk, verified

    [propagate_transitive] against its specification: reachability over the
    enabled, unsuppressed bundle-scope dependencies.  The walk ends, invalidates
    every node it can reach exactly once, and when its caps cut it short the
    blanket pass covers what was not walked. *)
From stdpp Require Import prelude strings gmap list sorting.
From Stdlib Require Import Ascii ZArith Lia.
From S2P Require Import Prelude Str CatalogError Security Catalog Freshness.

#[local] Arguments TRANSITIVE_INVALIDATION_ROW_CAP : simpl never.

(** ** What an invalidation does to a row *)

(** Nothing but the freshness rows differs. *)
Definition only_freshness (d d' : Db) : Prop := d' = set_freshness (bundle_freshness d') d.

#[export] Instance only_freshness_preorder : PreOrder only_freshness.
Proof.
  split; [by intros []|]. intros d1 d2 d3 H12 H23. unfold only_freshness in *.
  rewrite H23, H12. done.
Qed.

Lemma only_freshness_set t d : only_freshness d (set_freshness t d).
Proof. done. Qed.

(** The foreign key of [pgokf.bundle_freshness], and a row for every bundle
    (registration writes both in one transaction). *)
Definition rows_match (d : Db) : Prop := dom (bundle_freshness d) = dom (bundles d).

(** The row was retired and is untouched, or it is now stale because of its
    source and its epoch moved on by one; its claim and its coverage evidence
    stand. *)
Definition invalidated (r r' : BundleFreshness) : Prop :=
  bf_state r = st_retired /\ r' = r
  \/ bf_state r <> st_retired /\ bf_state r' = st_stale
     /\ REASON_SOURCE_CHANGED ∈ bf_reasons r'
     /\ (bf_state r = st_stale -> bf_reasons r ⊆ bf_reasons r')
     /\ bf_epoch r' = (bf_epoch r + 1)%Z /\ bf_claimed r' = bf_claimed r
     /\ bf_coverage_missing r' = bf_coverage_missing r.

Definition invalidated_at (d d' : Db) (id : Z) : Prop :=
  exists r r', bundle_freshness d !! id = Some r /\ bundle_freshness d' !! id = Some r'
               /\ invalidated r r'.

(** Every epoch can still be bumped. *)
Definition epochs_fit (d : Db) : Prop :=
  forall id r, bundle_freshness d !! id = Some r -> (0 <= bf_epoch r < i64_max)%Z.

(** ** The dependency graph *)

(** An enabled bundle-scope dependency the event's key does not suppress. *)
Definition edge (d : Db) (causation_key : option str) (b t : Z) : Prop :=
  exists r, r ∈ freshness_dependency d /\ dep_source r = b /\ dep_target r = t
            /\ dep_enabled r = true /\ dep_target_kind r = k_bundle
            /\ suppressed causation_key (dep_causation_key r) = false.

(** The bundles a change at the roots reaches. *)
Definition reaches (d : Db) (causation_key : option str) (roots : gset Z) (id : Z) : Prop :=
  exists root, root ∈ roots /\ rtc (edge d causation_key) root id.

(** Some enabled bundle-scope dependency points at the bundle. *)
Definition depended (d : Db) (id : Z) : Prop :=
  exists r, r ∈ freshness_dependency d /\ dep_target r = id /\ dep_enabled r = true
            /\ dep_target_kind r = k_bundle.

Lemma transitive_edges_spec d b t k :
  (t, k) ∈ transitive_edges d b <->
  exists r, r ∈ freshness_dependency d /\ dep_source r = b /\ dep_enabled r = true
            /\ dep_target_kind r = k_bundle /\ dep_target r = t /\ dep_causation_key r = k.
Proof.
  unfold transitive_edges. rewrite list_elem_of_fmap. setoid_rewrite list_elem_of_filter.
  naive_solver.
Qed.

Lemma edge_spec d ck b t :
  edge d ck b t <-> exists k, (t, k) ∈ transitive_edges d b /\ suppressed ck k = false.
Proof. unfold edge. setoid_rewrite transitive_edges_spec. naive_solver. Qed.

Section walk.
Context `{Ses : Session, PT : PgText, PL : !PgTextLaws}.

Lemma merge_reasons_elem (old new : list str) (x : str) :
  x ∈ merge_reasons old new <-> x ∈ old \/ x ∈ new.
Proof.
  unfold merge_reasons. rewrite <- elem_of_app.
  destruct (old ++ new); [done|]. apply agg_elem.
Qed.

(** ** One invalidation *)

Definition invalidated_row (r : BundleFreshness) : BundleFreshness :=
  with_epochs (bf_epoch r + 1) (bf_claimed r) now
    (moved_row r st_stale [REASON_SOURCE_CHANGED] None None).

(** The reasons of a row that becomes or stays stale. *)
Lemma merged_reasons r (new : list str) (x : str) :
  x ∈ (if decide (bf_state r = st_stale) then merge_reasons (bf_reasons r) new else new) <->
  x ∈ new \/ bf_state r = st_stale /\ x ∈ bf_reasons r.
Proof. case_decide; [rewrite merge_reasons_elem|]; naive_solver. Qed.

Lemma invalidated_row_spec r : bf_state r <> st_retired -> invalidated r (invalidated_row r).
Proof.
  intros Hr. right. unfold invalidated_row. cbn. split_and!; try done.
  - apply merged_reasons. left. apply list_elem_of_here.
  - intros Hs x Hx. apply merged_reasons. by right.
Qed.

Lemma bigint_up e : (0 <= e < i64_max)%Z -> bigint (e + 1) = Some (e + 1)%Z.
Proof.
  intros He. unfold bigint. unfold i64_min, i64_max in *.
  rewrite (proj2 (Z.leb_le _ _)), (proj2 (Z.leb_le _ _)) by lia. done.
Qed.

(** The run of one invalidation on a registered bundle. *)
Lemma invalidate_run d id r :
  rows_match d -> bundle_freshness d !! id = Some r ->
  invalidate_dependent_bundle id d =
    if decide (bf_state r = st_retired) then Done tt d
    else match bigint (bf_epoch r + 1) with
         | Some _ => Done tt (set_freshness (<[id := invalidated_row r]> (bundle_freshness d)) d)
         | None => Raise
         end.
Proof.
  intros Hm Hr. unfold invalidate_dependent_bundle, set_bundle_state, modify.
  assert (is_Some (bundles d !! id)) as [b Hb].
  { apply elem_of_dom. rewrite <- Hm. by apply elem_of_dom_2 in Hr. }
  unfold mbind, M_bind, statement. rewrite Hb, Hr.
  destruct (decide (bf_state r = st_retired)) as [Hret|Hret].
  - unfold bump_epoch, statement. rewrite Hr, decide_True by done. done.
  - unfold bump_epoch, statement. cbn. rewrite lookup_insert_eq. cbn.
    rewrite decide_False by apply stale_ne_retired.
    destruct (bigint _) as [e|] eqn:E; cbn; [|done].
    assert (e = bf_epoch r + 1)%Z as -> by (unfold bigint in E; by case_match; simplify_eq).
    by rewrite insert_insert_eq.
Qed.

(** ** Sequences of invalidations *)

(** From [v] to [v'] visited nodes: the new ones are invalidated, the other
    rows stand. *)
Record walked (d d' : Db) (v v' : gset Z) : Prop := {
  walked_only : only_freshness d d';
  walked_grow : v ⊆ v';
  walked_new : forall id, id ∈ v' -> id ∉ v -> invalidated_at d d' id;
  walked_frame : forall id, id ∈ v \/ id ∉ v' ->
                 bundle_freshness d' !! id = bundle_freshness d !! id
}.

Lemma walked_refl d v : walked d d v v.
Proof. split; [done|done|naive_solver|done]. Qed.

Lemma walked_trans d1 d2 d3 v1 v2 v3 :
  walked d1 d2 v1 v2 -> walked d2 d3 v2 v3 -> walked d1 d3 v1 v3.
Proof.
  intros [Ho1 Hg1 Hn1 Hf1] [Ho2 Hg2 Hn2 Hf2]. split; [by transitivity d2|set_solver|..].
  - intros id Hin Hout. destruct (decide (id ∈ v2)) as [H2|H2].
    + unfold invalidated_at. rewrite (Hf2 id) by (by left). by apply Hn1.
    + unfold invalidated_at. rewrite <- (Hf1 id) by (by right). by apply Hn2.
  - intros id Hid. rewrite Hf2, Hf1; [done|naive_solver|].
    destruct Hid as [?|?]; [left; set_solver|right; done].
Qed.

Lemma invalidated_dom d d' id :
  bundle_freshness d' !! id = bundle_freshness d !! id \/ invalidated_at d d' id ->
  id ∈ dom (bundle_freshness d') <-> id ∈ dom (bundle_freshness d).
Proof. rewrite !elem_of_dom. intros [->|(r & r' & -> & -> & _)]; [done|by split]. Qed.

Lemma walked_dom d d' v v' :
  walked d d' v v' -> dom (bundle_freshness d') = dom (bundle_freshness d).
Proof.
  intros [_ _ Hn Hf]. apply set_eq. intros id. apply invalidated_dom.
  destruct (decide (id ∈ v' /\ id ∉ v)) as [[? ?]|Hne]; [right; auto|left; apply Hf].
  destruct (decide (id ∈ v)); [by left|right]. naive_solver.
Qed.

Lemma only_freshness_deps d d' :
  only_freshness d d' -> freshness_dependency d' = freshness_dependency d.
Proof. by intros ->. Qed.

Lemma only_freshness_bundles d d' : only_freshness d d' -> bundles d' = bundles d.
Proof. by intros ->. Qed.

Lemma walked_match d d' v v' : walked d d' v v' -> rows_match d -> rows_match d'.
Proof.
  unfold rows_match. intros Hw Hm. rewrite (walked_dom _ _ _ _ Hw), Hm.
  by rewrite (only_freshness_bundles _ _ (walked_only _ _ _ _ Hw)).
Qed.

Lemma walked_step d id r v :
  rows_match d -> bundle_freshness d !! id = Some r -> (bf_epoch r < i64_max)%Z ->
  (0 <= bf_epoch r)%Z -> id ∉ v ->
  exists d', invalidate_dependent_bundle id d = Done tt d' /\ walked d d' v ({[id]} ∪ v).
Proof.
  intros Hm Hr He H0 Hv. rewrite (invalidate_run d id r Hm Hr), bigint_up by lia.
  case_decide as Hret; eexists; (split; [done|]).
  - split; [done|set_solver| |done]. intros j [ ->%elem_of_singleton|?]%elem_of_union Hj; [|done].
    exists r, r. split_and!; [done|done|by left].
  - split; [done|set_solver|..].
    + intros j [ ->%elem_of_singleton|?]%elem_of_union Hj; [|done].
      exists r, (invalidated_row r). cbn. rewrite lookup_insert_eq.
      split_and!; [done|done|by apply invalidated_row_spec].
    + intros j Hj. cbn. rewrite lookup_insert_ne; [done|]. intros <-. set_solver.
Qed.

(** Epochs of the rows not yet visited still fit. *)
Definition fit_outside (d : Db) (v : gset Z) : Prop :=
  forall id r, id ∉ v -> bundle_freshness d !! id = Some r -> (0 <= bf_epoch r < i64_max)%Z.

Lemma walked_fit d d' v v' : walked d d' v v' -> fit_outside d v -> fit_outside d' v'.
Proof.
  intros [_ Hg _ Hf] Hfit id r Hid Hr. apply (Hfit id r); [set_solver|].
  by rewrite <- Hf by (by right).
Qed.

(** Every target of the edges has a row. *)
Definition targets_present (d : Db) (ts : list Z) : Prop :=
  Forall (fun t => is_Some (bundle_freshness d !! t)) ts.

Lemma targets_present_walked d d' v v' ts :
  walked d d' v v' -> targets_present d ts -> targets_present d' ts.
Proof.
  intros Hw Hts. eapply Forall_impl; [exact Hts|]. intros t. rewrite <- !elem_of_dom.
  by rewrite (walked_dom _ _ _ _ Hw).
Qed.

(** ** The loop over one node's edges *)

(** What the loop promises of its result. *)
Record edges_walked (ck : option str) (edges : list (Z * option str)) (d : Db) (v : gset Z)
    (fr : list Z) (d' : Db) (v' : gset Z) (fr' : list Z) (tr : bool) : Prop := {
  ew_walked : walked d d' v v';
  ew_just : forall id, id ∈ v' -> id ∈ v \/ exists k, (id, k) ∈ edges /\ suppressed ck k = false;
  ew_cap : tr = true -> (TRANSITIVE_INVALIDATION_ROW_CAP <= size v')%nat;
  ew_new : tr = false -> exists new, fr' = new ++ fr /\ NoDup new /\ v' = list_to_set new ∪ v
             /\ (forall id, id ∈ new -> id ∉ v)
             /\ (new = [] \/ (size v' < TRANSITIVE_INVALIDATION_ROW_CAP)%nat)
             /\ forall id k, (id, k) ∈ edges -> suppressed ck k = false -> id ∈ v'
}.

(** An edge that is suppressed or leads to a visited node changes nothing. *)
Lemma edges_walked_skip ck t k edges d v fr d' v' fr' tr :
  (suppressed ck k = true \/ t ∈ v) ->
  edges_walked ck edges d v fr d' v' fr' tr ->
  edges_walked ck ((t, k) :: edges) d v fr d' v' fr' tr.
Proof.
  intros Hskip [Hw Hj Hc Hn]. split; [done| |done|].
  - intros id Hid. destruct (Hj id Hid) as [?|(k' & ? & ?)]; [by left|right].
    exists k'. split; [by apply elem_of_cons; right|done].
  - intros Htr. destruct (Hn Htr) as (new & ? & ? & ? & ? & ? & Hedge). exists new.
    split_and!; try done. intros id k' [[= -> ->]|?]%elem_of_cons ?; [|eauto].
    destruct Hskip; [congruence|]. by apply (walked_grow _ _ _ _ Hw).
Qed.

(** A new node joins the visited ones and the stack. *)
Lemma edges_walked_push ck t k edges d v fr d1 d' v' fr' tr :
  suppressed ck k = false -> t ∉ v -> walked d d1 v ({[t]} ∪ v) ->
  (size ({[t]} ∪ v) < TRANSITIVE_INVALIDATION_ROW_CAP)%nat ->
  edges_walked ck edges d1 ({[t]} ∪ v) (t :: fr) d' v' fr' tr ->
  edges_walked ck ((t, k) :: edges) d v fr d' v' fr' tr.
Proof.
  intros Hk Hin Hw1 Hsz [Hw Hj Hc Hn]. split; [by eapply walked_trans| |done|].
  - intros id Hid. destruct (Hj id Hid) as [[ ->%elem_of_singleton|?]%elem_of_union|(k' & ? & ?)].
    + right. exists k. split; [apply list_elem_of_here|done].
    + by left.
    + right. exists k'. split; [by apply elem_of_cons; right|done].
  - intros Htr. destruct (Hn Htr) as (new & -> & Hnd & -> & Hnew & Hlt & Hedge).
    exists (new ++ [t]). split_and!.
    + by rewrite <- app_assoc.
    + apply NoDup_app. split_and!; [done| |apply NoDup_singleton].
      intros x Hx ->%list_elem_of_singleton. apply (Hnew t Hx). set_solver.
    + rewrite list_to_set_app_L. cbn. set_solver.
    + intros id [Hid| ->%list_elem_of_singleton]%elem_of_app; [|done].
      specialize (Hnew _ Hid). set_solver.
    + right. destruct Hlt as [->|Hlt]; [|done]. by rewrite list_to_set_nil, (left_id_L ∅ (∪)).
    + intros id k' [[= -> ->]|?]%elem_of_cons ?; [set_solver|eauto].
Qed.

Lemma walk_edges_spec ck edges v fr d :
  rows_match d -> fit_outside d v -> targets_present d edges.*1 ->
  exists v' fr' tr d', walk_edges ck edges v fr d = Done (v', fr', tr) d'
    /\ edges_walked ck edges d v fr d' v' fr' tr.
Proof.
  revert v fr d. induction edges as [|[t k] edges IH]; intros v fr d Hm Hfit Hts.
  { exists v, fr, false, d. split; [done|]. split; [apply walked_refl|naive_solver|done|].
    intros _. exists []. split_and!; [done|constructor|set_solver|set_solver|by left|set_solver]. }
  cbn [fmap list_fmap] in Hts. apply Forall_cons in Hts as [[r Hr] Hts]. cbn [walk_edges].
  destruct (suppressed ck k) eqn:Es.
  { destruct (IH v fr d Hm Hfit Hts) as (v' & fr' & tr & d' & Hrun & Hew).
    exists v', fr', tr, d'. split; [done|]. by apply edges_walked_skip; [left|]. }
  case_bool_decide as Hin.
  { destruct (IH v fr d Hm Hfit Hts) as (v' & fr' & tr & d' & Hrun & Hew).
    exists v', fr', tr, d'. split; [done|]. by apply edges_walked_skip; [right|]. }
  destruct (Hfit t r Hin Hr) as [H0 He].
  destruct (walked_step d t r v Hm Hr He H0 Hin) as (d1 & Hrun1 & Hw1).
  unfold mbind, M_bind. rewrite Hrun1.
  destruct (_ <=? _)%nat eqn:Ecap.
  { exists ({[t]} ∪ v), fr, true, d1. split; [done|]. split; [done| | |done].
    - intros id [ ->%elem_of_singleton|?]%elem_of_union; [right|by left].
      exists k. split; [apply list_elem_of_here|done].
    - intros _. by apply Nat.leb_le. }
  destruct (IH ({[t]} ∪ v) (t :: fr) d1) as (v' & fr' & tr & d' & Hrun & Hew);
    [by eapply walked_match|by eapply walked_fit|by eapply targets_present_walked|].
  exists v', fr', tr, d'. split; [done|]. apply Nat.leb_gt in Ecap. by eapply edges_walked_push.
Qed.

(** ** The outer loop *)

(** Dependencies join registered bundles (foreign keys), so every edge ends
    at a row. *)
Definition edges_registered (d : Db) : Prop :=
  forall r, r ∈ freshness_dependency d ->
    is_Some (bundles d !! dep_source r) /\ is_Some (bundles d !! dep_target r).

Lemma edges_present d b n :
  rows_match d -> edges_registered d -> targets_present d (take n (transitive_edges d b)).*1.
Proof.
  intros Hm Hreg. apply Forall_forall. intros t ((t' & k) & -> & Hin)%list_elem_of_fmap.
  apply elem_of_take in Hin as (i & Hi & _). apply list_elem_of_lookup_2 in Hi.
  apply transitive_edges_spec in Hi as (r & Hr & _ & _ & _ & <- & _).
  apply elem_of_dom. rewrite Hm. apply elem_of_dom, Hreg, Hr.
Qed.

Lemma only_freshness_edges d d' b :
  only_freshness d d' -> transitive_edges d' b = transitive_edges d b.
Proof. by intros ->. Qed.

Lemma transitive_edges_length d b :
  (length (transitive_edges d b) <= length (freshness_dependency d))%nat.
Proof. unfold transitive_edges. rewrite length_map. apply length_filter. Qed.

Lemma only_freshness_registered d d' :
  only_freshness d d' -> edges_registered d -> edges_registered d'.
Proof. by intros ->. Qed.

(** Every node popped from the stack has its successors among the visited. *)
Definition expanded (d : Db) (ck : option str) (v : gset Z) (frontier : list Z) : Prop :=
  forall b t, b ∈ v -> b ∉ frontier -> edge d ck b t -> t ∈ v.

Lemma reaches_edge d ck roots b t :
  reaches d ck roots b -> edge d ck b t -> reaches d ck roots t.
Proof. intros (r & ? & ?) ?. exists r. split; [done|]. by eapply rtc_r. Qed.

Lemma walk_spec ck roots d0 fuel d v fr :
  only_freshness d0 d -> rows_match d -> edges_registered d -> fit_outside d v ->
  (forall b, b ∈ fr -> b ∈ v) -> (forall id, id ∈ v -> reaches d0 ck roots id) ->
  expanded d0 ck v fr ->
  (length fr + (TRANSITIVE_INVALIDATION_ROW_CAP - size v) <= fuel)%nat ->
  exists v' tr d', walk fuel ck v fr d = Done (Some (v', tr)) d'
    /\ walked d d' v v' /\ (forall id, id ∈ v' -> reaches d0 ck roots id)
    /\ (tr = false -> forall b t, b ∈ v' -> edge d0 ck b t -> t ∈ v')
    /\ (tr = true -> TRANSITIVE_INVALIDATION_ROW_CAP <= size v' + length (freshness_dependency d0))%nat.
Proof.
  revert d v fr. induction fuel as [|fuel IH]; intros d v fr Ho Hm Hreg Hfit Hfr Hre Hexp Hfuel;
    (destruct fr as [|b fr];
     [exists v, false, d; split_and!; [done|apply walked_refl|done| |done];
      intros _ b t Hb He; by eapply Hexp; [|apply not_elem_of_nil|]|]);
    cbn [walk]; destruct (_ <=? _)%nat eqn:Ecap;
    [exists v, true, d; apply Nat.leb_le in Ecap; split_and!; [done|apply walked_refl|done|done|lia]
    |exfalso; cbn in Hfuel; apply Nat.leb_gt in Ecap; lia
    |exists v, true, d; apply Nat.leb_le in Ecap; split_and!; [done|apply walked_refl|done|done|lia]|].
  apply Nat.leb_gt in Ecap. cbn [length] in Hfuel.
  unfold get, mbind, M_bind at 1.
  set (remaining := (TRANSITIVE_INVALIDATION_ROW_CAP - size v)%nat).
  set (edges := take (remaining + 1) (transitive_edges d b)).
  destruct (walk_edges_spec ck edges v fr d) as (v1 & fr1 & tr & d1 & Hrun1 & [Hw1 Hj1 Hc1 Hn1]);
    [done|done|by apply edges_present|].
  unfold mbind, M_bind at 1. rewrite Hrun1.
  assert (forall k t, (t, k) ∈ edges -> suppressed ck k = false -> edge d0 ck b t) as Hedge.
  { intros k t Hin Hs. apply edge_spec. exists k. split; [|done].
    rewrite <- (only_freshness_edges d0 d b Ho).
    apply elem_of_take in Hin as (i & Hi & _). by apply list_elem_of_lookup_2 in Hi. }
  assert (b ∈ v) as Hbv by (apply Hfr, list_elem_of_here).
  assert (forall id, id ∈ v1 -> reaches d0 ck roots id) as Hre1.
  { intros id Hid. destruct (Hj1 id Hid) as [?|(k & Hin & Hs)]; [auto|].
    eapply reaches_edge; [by apply Hre|by eapply Hedge]. }
  destruct (tr || (remaining <? length edges)%nat) eqn:Etr.
  { exists v1, true, d1. split_and!; [done|done|done|done|]. intros _.
    assert (size v <= size v1)%nat by (apply subseteq_size, (walked_grow _ _ _ _ Hw1)).
    assert (length edges <= length (freshness_dependency d0))%nat as Hle.
    { unfold edges. rewrite length_take, (only_freshness_edges d0 d b Ho).
      etransitivity; [apply Nat.le_min_r|apply transitive_edges_length]. }
    apply orb_true_iff in Etr as [->|Elen%Nat.ltb_lt]; [specialize (Hc1 eq_refl); lia|].
    unfold remaining in Elen. lia. }
  apply orb_false_elim in Etr as [-> Elen]. apply Nat.ltb_ge in Elen.
  destruct (Hn1 eq_refl) as (new & -> & Hnd & -> & Hnew & Hlt & Hall).
  assert (size (list_to_set new ∪ v) = length new + size v)%nat as Hsize.
  { rewrite size_union by (intros x ?%elem_of_list_to_set ?; by eapply Hnew).
    by rewrite size_list_to_set. }
  destruct (IH d1 (list_to_set new ∪ v) (new ++ fr)) as (v2 & tr & d2 & Hrun2 & Hw2 & Hre2 & Hcl & Htr);
    [transitivity d; [done|by apply Hw1]|by eapply walked_match
    |eapply only_freshness_registered; [by apply Hw1|done]|by eapply walked_fit| |done| | |].
  - intros x [?|Hx]%elem_of_app; [set_solver|]. apply elem_of_union_r, Hfr. by right.
  - intros x t Hx Hnx He. rewrite not_elem_of_app in Hnx. destruct Hnx as [Hx1 Hx2].
    apply elem_of_union in Hx as [?%elem_of_list_to_set|Hx]; [done|].
    destruct (decide (x = b)) as [->|Hne].
    + apply edge_spec in He as (k & Hin & Hs). eapply Hall; [|done].
      unfold edges. rewrite take_ge; [by rewrite (only_freshness_edges d0 d b Ho)|].
      unfold edges in Elen. rewrite length_take in Elen. lia.
    + apply elem_of_union_r. eapply (Hexp x t Hx); [|done].
      intros [->|?]%elem_of_cons; done.
  - rewrite length_app, Hsize. destruct Hlt as [->|Hlt]; [cbn; lia|]. rewrite Hsize in Hlt. lia.
  - exists v2, tr, d2. split_and!; [done|by eapply walked_trans|done|done|done].
Qed.

(** ** The blanket pass *)

Lemma blanket_hits_spec d v id r :
  blanket_hits d v id r = true <-> bf_state r <> st_retired /\ id ∉ v /\ depended d id.
Proof.
  unfold blanket_hits, depended.
  rewrite !andb_true_iff, !negb_true_iff, !bool_decide_eq_false, existsb_exists.
  setoid_rewrite andb_true_iff. setoid_rewrite andb_true_iff.
  setoid_rewrite bool_decide_eq_true. setoid_rewrite <- list_elem_of_In. naive_solver.
Qed.

Lemma blanket_row_spec r : bf_state r <> st_retired -> invalidated r (blanket_row r (bf_epoch r + 1)).
Proof.
  intros Hr. right. cbn. split_and!; try done.
  - apply merged_reasons. left. apply list_elem_of_here.
  - intros Hs x Hx. apply merged_reasons. by right.
Qed.

Lemma escalate_spec d v :
  fit_outside d v ->
  exists d', escalate_blanket_invalidation v d = Done tt d' /\ only_freshness d d'
    /\ (forall id, id ∈ v \/ ~ depended d id -> bundle_freshness d' !! id = bundle_freshness d !! id)
    /\ (forall id, id ∉ v -> depended d id -> is_Some (bundle_freshness d !! id) ->
                  invalidated_at d d' id).
Proof.
  intros Hfit. unfold escalate_blanket_invalidation, statement.
  rewrite bool_decide_eq_true_2.
  2: { intros id r Hr (_ & Hv & _)%blanket_hits_spec. destruct (Hfit id r Hv Hr). lia. }
  eexists. split; [done|]. split; [done|]. unfold invalidated_at. cbn. split.
  - intros id Hid. rewrite map_lookup_imap. destruct (bundle_freshness d !! id) as [r|]; [|done].
    cbn. destruct (blanket_hits d v id r) eqn:E; [|done].
    apply blanket_hits_spec in E. naive_solver.
  - intros id Hv Hdep [r Hr]. rewrite map_lookup_imap, Hr. cbn.
    exists r. eexists. split; [done|]. split; [done|].
    destruct (decide (bf_state r = st_retired)) as [Hret|Hret].
    + left. split; [done|]. destruct (blanket_hits d v id r) eqn:E; [|done].
      apply blanket_hits_spec in E. naive_solver.
    + rewrite (proj2 (blanket_hits_spec d v id r)) by done. by apply blanket_row_spec.
Qed.

(** ** The whole propagation *)

Lemma reaches_depended d ck roots id :
  reaches d ck roots id -> id ∉ roots -> depended d id.
Proof.
  intros (root & Hroot & Hpath) Hid. apply rtc_inv_r in Hpath as [->|(b & _ & r & Hr & He)]; [done|].
  exists r. naive_solver.
Qed.

Lemma reaches_mono_only d d' ck roots id :
  only_freshness d d' -> reaches d' ck roots id <-> reaches d ck roots id.
Proof. by intros ->. Qed.

Lemma closed_reaches d ck roots v :
  (forall b t, b ∈ v -> edge d ck b t -> t ∈ v) -> roots ⊆ v ->
  forall id, reaches d ck roots id -> id ∈ v.
Proof.
  intros Hcl Hsub id (root & Hroot & Hpath). apply Hsub in Hroot.
  induction Hpath as [|x y z He _ IH]; [done|]. by eapply IH, Hcl.
Qed.

(** The rows a walk from [roots] with its blanket pass may leave. *)
Record propagated (d : Db) (ck : option str) (roots : gset Z) (d' : Db) : Prop := {
  pr_only : only_freshness d d';
  pr_reached : forall id, reaches d ck roots id -> id ∉ roots -> invalidated_at d d' id;
  pr_frame : forall id, bundle_freshness d' !! id = bundle_freshness d !! id
                        \/ invalidated_at d d' id /\ id ∉ roots /\ depended d id;
  pr_exact : (size roots + 2 * length (freshness_dependency d) < TRANSITIVE_INVALIDATION_ROW_CAP)%nat ->
             forall id, ~ reaches d ck roots id ->
                        bundle_freshness d' !! id = bundle_freshness d !! id
}.

Lemma list_to_set_size (l : list Z) : (size (list_to_set l : gset Z) <= length l)%nat.
Proof.
  induction l as [|x l IH]; cbn; [by rewrite size_empty|].
  rewrite size_union_alt, size_singleton.
  etransitivity; [apply Nat.add_le_mono_l, subseteq_size, subseteq_difference_l; reflexivity|]. lia.
Qed.

#[local] Instance depended_dec d id : Decision (depended d id).
Proof.
  refine (cast_if (decide (Exists (fun r => dep_target r = id /\ dep_enabled r = true
                                            /\ dep_target_kind r = k_bundle)
                             (freshness_dependency d)))); unfold depended.
  - by apply Exists_exists.
  - by rewrite Exists_exists in *.
Defined.

(** Fewer nodes than dependencies are reachable besides the roots. *)
Lemma reached_size d ck roots (v : gset Z) :
  (forall id, id ∈ v -> reaches d ck roots id) ->
  (size v <= size roots + length (freshness_dependency d))%nat.
Proof.
  intros Hre.
  assert (v ⊆ roots ∪ list_to_set (dep_target <$> freshness_dependency d)) as Hsub.
  { intros id Hid. destruct (decide (id ∈ roots)); [set_solver|].
    destruct (reaches_depended d ck roots id) as (r & Hr & <- & _); [by apply Hre|done|].
    apply elem_of_union_r, elem_of_list_to_set, list_elem_of_fmap. by exists r. }
  apply subseteq_size in Hsub. etransitivity; [exact Hsub|].
  rewrite size_union_alt. apply Nat.add_le_mono_l.
  etransitivity; [apply subseteq_size, subseteq_difference_l; reflexivity|].
  etransitivity; [apply list_to_set_size|]. by rewrite length_fmap.
Qed.

Lemma propagate_run d ck roots :
  rows_match d -> edges_registered d -> fit_outside d (list_to_set roots) ->
  exists d', propagate_transitive roots ck d = Done tt d'
             /\ propagated d ck (list_to_set roots) d'.
Proof.
  intros Hm Hreg Hfit. unfold propagate_transitive.
  destruct (walk_spec ck (list_to_set roots) d (walk_fuel roots) d (list_to_set roots)
              (reverse roots)) as (v & tr & d1 & Hrun & Hw & Hre & Hcl & Hcap);
    [done|done|done|done| | | | |].
  { intros b Hb. rewrite elem_of_reverse in Hb. by apply elem_of_list_to_set. }
  { intros id Hid. exists id. by split. }
  { intros b t Hb%elem_of_list_to_set Hnb. exfalso. by apply Hnb, elem_of_reverse. }
  { rewrite length_reverse. unfold walk_fuel. lia. }
  unfold mbind, M_bind. rewrite Hrun.
  pose proof (walked_grow _ _ _ _ Hw) as Hgrow. pose proof (walked_only _ _ _ _ Hw) as Honly.
  destruct tr.
  - destruct (escalate_spec d1 v) as (d2 & Hrun2 & Ho2 & Hsame & Hhit); [by eapply walked_fit|].
    exists d2. split; [done|].
    assert (forall id, depended d1 id <-> depended d id) as Hdep by (by rewrite Honly).
    assert (forall id, depended d id -> is_Some (bundle_freshness d1 !! id)) as Hrow.
    { intros id (r & Hr & <- & _). apply elem_of_dom. rewrite (walked_match _ _ _ _ Hw Hm).
      rewrite (only_freshness_bundles _ _ Honly). apply elem_of_dom, Hreg, Hr. }
    assert (forall id, id ∈ v -> id ∉ list_to_set (C := gset Z) roots -> invalidated_at d d2 id) as Hv.
    { intros id Hid Hn. destruct (walked_new _ _ _ _ Hw id Hid Hn) as (r & r' & ? & Hr' & ?).
      exists r, r'. split_and!; [done| |done]. by rewrite Hsame by (by left). }
    assert (forall id, id ∉ v -> depended d id -> invalidated_at d d2 id) as Hout.
    { intros id Hid Hd. destruct (Hhit id Hid) as (r & r' & Hr & ? & ?); [by apply Hdep|auto|].
      exists r, r'. split_and!; [|done|done]. by rewrite <- (walked_frame _ _ _ _ Hw) by (by right). }
    split.
    + by transitivity d1.
    + intros id Hr Hn. destruct (decide (id ∈ v)); [auto|]. eauto using reaches_depended.
    + intros id. destruct (decide (id ∈ v)) as [Hid|Hid].
      * rewrite Hsame by (by left).
        destruct (decide (id ∈ list_to_set (C := gset Z) roots)).
        { left. apply (walked_frame _ _ _ _ Hw). by left. }
        right. split_and!; [auto|done|]. eapply reaches_depended; [by apply Hre|done].
      * destruct (decide (depended d id)) as [Hd|Hd];
          [right; split_and!; [auto|set_solver|done]|left].
        rewrite Hsame by (right; by rewrite Hdep). apply (walked_frame _ _ _ _ Hw). by right.
    + intros Hsmall id Hn. exfalso. specialize (Hcap eq_refl).
      pose proof (reached_size d ck (list_to_set roots) v Hre). lia.
  - exists d1. split; [done|]. specialize (Hcl eq_refl). split; [done|..].
    + intros id Hr Hn. apply (walked_new _ _ _ _ Hw); [|done]. by eapply closed_reaches.
    + intros id. destruct (decide (id ∈ v /\ id ∉ list_to_set (C := gset Z) roots)) as [[? ?]|Hn].
      * right. split_and!; [by apply (walked_new _ _ _ _ Hw)|done|].
        eapply reaches_depended; [by apply Hre|done].
      * left. apply (walked_frame _ _ _ _ Hw). destruct (decide (id ∈ v)); [left|by right].
        destruct (decide (id ∈ list_to_set (C := gset Z) roots)); naive_solver.
    + intros _ id Hn. apply (walked_frame _ _ _ _ Hw). right. intros Hid. by apply Hn, Hre.
Qed.

End walk.
