(* ===== verification/FreshnessEval.v ===== *)
(** * Evaluation of a catalog change, verified

    [evaluate_dependencies] marks exactly the registered dependents the change
    concerns, at their registered scope, and everything that transitively
    depends on them; a second evaluation of the same generation does
    nothing. *)
From stdpp Require Import prelude strings gmap list sorting.
From Stdlib Require Import Ascii ZArith Lia.
From S2P Require Import Prelude Str CatalogError Security Catalog Freshness FreshnessWalk.

(** ** How rows age under an evaluation *)

(** A retired row stands; any other may only become stale, keeps the reasons
    it had while stale, and its epoch never falls. *)
Definition aged (r r' : BundleFreshness) : Prop :=
  (bf_state r = st_retired -> r' = r)
  /\ (bf_state r <> st_retired ->
      bf_state r' <> st_retired /\ (bf_state r' = st_stale \/ bf_state r' = bf_state r)
      /\ (bf_state r = st_stale -> bf_reasons r ⊆ bf_reasons r')
      /\ (bf_epoch r <= bf_epoch r')%Z /\ bf_claimed r' = bf_claimed r
      /\ bf_coverage_missing r' = bf_coverage_missing r).

Definition scope_aged (r r' : ScopeFreshness) : Prop :=
  (sf_state r = st_retired -> r' = r)
  /\ (sf_state r = st_stale -> sf_state r' = st_stale /\ sf_reasons r ⊆ sf_reasons r').

(** Nothing but freshness rows, scope overrides and watermarks differs. *)
Definition within_freshness (d d' : Db) : Prop :=
  exists f s l, d' = set_freshness f (set_scopes s (set_dependencies l (dependency_seq d) d)).

Record ages (d d' : Db) : Prop := {
  ag_rows : forall id r, bundle_freshness d !! id = Some r ->
            exists r', bundle_freshness d' !! id = Some r' /\ aged r r';
  ag_scopes : forall k r, concept_freshness d !! k = Some r ->
              exists r', concept_freshness d' !! k = Some r' /\ scope_aged r r';
  ag_frame : within_freshness d d'
}.

#[export] Instance aged_preorder : PreOrder aged.
Proof.
  split.
  - intros r. split; [done|]. intros Hr. split_and!; [done|by right|done|lia|done|done].
  - intros r1 r2 r3 [Hr12 Hl12] [Hr23 Hl23]. split.
    + intros H. specialize (Hr12 H) as ->. auto.
    + intros H. destruct (Hl12 H) as (Hn & Hst & Hre & He & Hc & Hv).
      destruct (Hl23 Hn) as (Hn' & Hst' & Hre' & He' & Hc' & Hv').
      split_and!; [done| | |lia|congruence|congruence].
      * destruct Hst' as [->| ->]; [by left|done].
      * intros Hs. etransitivity; [by apply Hre|]. apply Hre'. destruct Hst as [->| ->]; done.
Qed.

#[export] Instance scope_aged_preorder : PreOrder scope_aged.
Proof.
  split; [by intros r|]. intros r1 r2 r3 [Hr12 Hl12] [Hr23 Hl23]. split.
  - intros H. specialize (Hr12 H) as ->. auto.
  - intros [H1 Hs1]%Hl12. apply Hl23 in H1 as [? Hs2]. split; [done|]. by etransitivity.
Qed.

#[export] Instance within_freshness_preorder : PreOrder within_freshness.
Proof.
  split.
  - intros d. exists (bundle_freshness d), (concept_freshness d), (freshness_dependency d).
    by destruct d.
  - intros d1 d2 d3 (f & s & l & ->) (f' & s' & l' & ->). by exists f', s', l'.
Qed.

#[export] Instance ages_preorder : PreOrder ages.
Proof.
  split.
  - intros d. split; [|..|done]; intros k r Hr; exists r; done.
  - intros d1 d2 d3 [Hr12 Hs12 Hf12] [Hr23 Hs23 Hf23]. split; [|..|by etransitivity].
    + intros id r (r' & Hr' & ?)%Hr12. apply Hr23 in Hr' as (r'' & ? & ?).
      exists r''. split; [done|]. by etransitivity.
    + intros id r (r' & Hr' & ?)%Hs12. apply Hs23 in Hr' as (r'' & ? & ?).
      exists r''. split; [done|]. by etransitivity.
Qed.

(** ** The graph does not see watermarks *)

Definition same_graph (d d' : Db) : Prop :=
  bundles d' = bundles d /\
  Forall2 (fun r r' => exists g e, r' = advanced g e r \/ r' = r)
    (freshness_dependency d) (freshness_dependency d').

Lemma same_graph_edge d d' ck b t : same_graph d d' -> edge d ck b t <-> edge d' ck b t.
Proof.
  intros [_ Hl]. split; intros (r & Hr & Hp).
  - destruct (Forall2_elem_l _ _ _ _ Hl Hr) as (r' & Hr' & g & e & Heq).
    exists r'. split; [done|]. destruct Heq as [-> | ->]; exact Hp.
  - destruct (Forall2_elem_r _ _ _ _ Hl Hr) as (r' & Hr' & g & e & Heq).
    exists r'. split; [done|]. destruct Heq as [-> | ->]; exact Hp.
Qed.

Lemma same_graph_reaches d d' ck roots id :
  same_graph d d' -> reaches d ck roots id <-> reaches d' ck roots id.
Proof.
  intros Hg. unfold reaches. split; intros (r & Hr & Hp); exists r; (split; [done|]);
    (eapply rtc_subrel; [|exact Hp]); intros x y; apply (same_graph_edge d d' ck x y Hg).
Qed.

Lemma same_graph_depended d d' id : same_graph d d' -> depended d id <-> depended d' id.
Proof.
  intros [_ Hl]. split; intros (r & Hr & Hp).
  - destruct (Forall2_elem_l _ _ _ _ Hl Hr) as (r' & Hr' & g & e & Heq).
    exists r'. split; [done|]. destruct Heq as [-> | ->]; exact Hp.
  - destruct (Forall2_elem_r _ _ _ _ Hl Hr) as (r' & Hr' & g & e & Heq).
    exists r'. split; [done|]. destruct Heq as [-> | ->]; exact Hp.
Qed.

Section eval.
Context `{Ses : Session, PT : PgText, PL : !PgTextLaws}.

(** ** Every step of an evaluation ages the rows *)

Lemma aged_moved r reasons p o :
  bf_state r <> st_retired -> aged r (moved_row r st_stale reasons p o).
Proof.
  intros Hr. split; [done|]. intros _. cbn. split_and!; [apply stale_ne_retired|by left| |lia|done|done].
  intros Hs. rewrite decide_True by done. intros x Hx. apply merge_reasons_elem. by left.
Qed.

Lemma aged_epoch r e u :
  bf_state r <> st_retired -> (bf_epoch r <= e)%Z -> aged r (with_epochs e (bf_claimed r) u r).
Proof. intros Hr He. split; [done|]. intros _. cbn. split_and!; [done|by right|done|done|done|done]. Qed.

Lemma ages_insert d id r' :
  (forall r, bundle_freshness d !! id = Some r -> aged r r') ->
  ages d (set_freshness (<[id := r']> (bundle_freshness d)) d).
Proof.
  intros Hold. split; cbn.
  - intros j r Hr. destruct (decide (j = id)) as [->|Hne].
    + rewrite lookup_insert_eq. eauto.
    + rewrite lookup_insert_ne by done. by exists r.
  - intros k r Hr. by exists r.
  - eexists _, (concept_freshness d), (freshness_dependency d). by destruct d.
Qed.

Lemma ages_scope_insert d k r' :
  (forall r, concept_freshness d !! k = Some r -> scope_aged r r') ->
  ages d (set_scopes (<[k := r']> (concept_freshness d)) d).
Proof.
  intros Hold. split; cbn.
  - intros j r Hr. by exists r.
  - intros j r Hr. destruct (decide (j = k)) as [->|Hne].
    + rewrite lookup_insert_eq. eauto.
    + rewrite lookup_insert_ne by done. by exists r.
  - exists (bundle_freshness d), (<[k := r']> (concept_freshness d)), (freshness_dependency d).
    by destruct d.
Qed.

Lemma keeps_set_stale id reasons p o : keeps ages (set_bundle_state id st_stale reasons p o).
Proof.
  apply keeps_modify. intros d. destruct (bundles d !! id) as [b|]; [|done].
  destruct (bundle_freshness d !! id) as [r|] eqn:Hr; [case_decide; [done|]|];
    apply ages_insert; intros r' Hr'; rewrite Hr in Hr'; simplify_eq. by apply aged_moved.
Qed.

Lemma keeps_bump id : keeps ages (bump_epoch id).
Proof.
  apply keeps_statement. intros d a d' Hrun.
  destruct (bundle_freshness d !! id) as [r|] eqn:Hr; [|by simplify_eq].
  case_decide as Hret; [by simplify_eq|].
  destruct (bigint (bf_epoch r + 1)) as [e|] eqn:He; [|done]. injection Hrun as <- <-.
  apply ages_insert. rewrite Hr. intros r' [= <-]. apply aged_epoch; [done|].
  unfold bigint in He. case_match; simplify_eq. lia.
Qed.

Lemma keeps_invalidate id : keeps ages (invalidate_dependent_bundle id).
Proof.
  unfold invalidate_dependent_bundle.
  apply keeps_bind; [apply _|apply keeps_set_stale|intros _; apply keeps_bump].
Qed.

Lemma keeps_scope_stale id kind key reasons p :
  keeps ages (set_scope_state id kind key st_stale reasons p).
Proof.
  apply keeps_statement. intros d a d' Hrun. destruct (bundles d !! id) as [b|]; [|by simplify_eq].
  cbv zeta in Hrun. destruct (concept_freshness d !! (id, kind, key)) as [r|] eqn:Hr.
  - case_decide as Hret; [by simplify_eq|]. case_decide as Hnull; [done|]. injection Hrun as <- <-.
    apply ages_scope_insert. rewrite Hr. intros r' [= <-]. split; [done|]. intros Hs. cbn.
    split; [done|]. rewrite decide_True by done. intros x Hx. apply agg_elem, elem_of_app. by left.
  - injection Hrun as <- <-. apply ages_scope_insert. by rewrite Hr.
Qed.

Lemma keeps_target id kind key : keeps ages (invalidate_target id kind key).
Proof.
  unfold invalidate_target. case_decide.
  - apply keeps_bind; [apply _|apply keeps_invalidate|intros; auto with keeps typeclass_instances].
  - destruct key; [|apply keeps_raise].
    apply keeps_bind; [apply _|apply keeps_scope_stale|intros; auto with keeps typeclass_instances].
Qed.

Lemma keeps_watermark id g e : keeps ages (advance_watermark id g e).
Proof.
  apply keeps_modify. intros d. split; cbn; [by intros j r Hr; exists r|by intros j r Hr; exists r|].
  by eexists (bundle_freshness d), (concept_freshness d), _.
Qed.

#[local] Hint Resolve keeps_set_stale keeps_target keeps_watermark keeps_invalidate : keeps.

Lemma keeps_evaluate_one s ev g sc ch tr ck dep : keeps ages (evaluate_one s ev g sc ch tr ck dep).
Proof. unfold evaluate_one, invalidate_registered_target. keeps_auto. Qed.

Lemma keeps_evaluate_loop s ev g sc ch tr ck deps acc :
  keeps ages (evaluate_loop (evaluate_one s ev g sc ch tr ck) deps acc).
Proof.
  revert acc. induction deps as [|dep deps IH]; intros acc; cbn [evaluate_loop];
    [apply keeps_ret; apply _|].
  apply keeps_bind; [apply _|apply keeps_evaluate_one|intros; apply IH].
Qed.

(** ** Runs *)

(** A step that changes only freshness data, adds no row and raises no epoch
    by more than [n]. *)
Record step_ok (n : Z) (d d' : Db) : Prop := {
  so_ages : ages d d';
  so_graph : same_graph d d';
  so_dom : dom (bundle_freshness d') = dom (bundle_freshness d);
  so_epoch : forall id r', bundle_freshness d' !! id = Some r' ->
             exists r, bundle_freshness d !! id = Some r
                       /\ (bf_epoch r <= bf_epoch r' <= bf_epoch r + n)%Z
}.

(** A database an evaluation that bumps a row at most [n] times commits on:
    the foreign keys and the shape of the targets hold, and the epochs have
    room. *)
Record runnable (n : Z) (d : Db) : Prop := {
  rn_match : rows_match d;
  rn_registered : edges_registered d;
  rn_keys : forall r, r ∈ freshness_dependency d ->
            dep_target_kind r = k_bundle \/ is_Some (dep_target_key r);
  rn_room : forall id r, bundle_freshness d !! id = Some r ->
            (0 <= bf_epoch r /\ bf_epoch r + n <= i64_max)%Z
}.

Lemma same_graph_refl d : same_graph d d.
Proof. split; [done|]. apply Forall_Forall2_diag, Forall_true. intros r. exists 0%Z, 0%Z. by right. Qed.

Lemma same_graph_only d d' : only_freshness d d' -> same_graph d d'.
Proof.
  intros Ho. split; [by rewrite Ho|]. rewrite (only_freshness_deps _ _ Ho). apply same_graph_refl.
Qed.

Lemma same_graph_trans d1 d2 d3 : same_graph d1 d2 -> same_graph d2 d3 -> same_graph d1 d3.
Proof.
  intros [Hb1 Hl1] [Hb2 Hl2]. split; [congruence|].
  revert Hl2. generalize (freshness_dependency d3).
  induction Hl1 as [|r1 r2 l1 l2 H12 _ IH]; intros l3 H23; [by inversion H23|].
  apply Forall2_cons_inv_l in H23 as (r3 & l3' & H3 & Hl3 & ->). constructor; [|by apply IH].
  destruct H12 as (g & e & H12), H3 as (g' & e' & H3).
  destruct H3 as [-> | ->]; [|by exists g, e]. exists g', e'. destruct H12 as [-> | ->]; by left.
Qed.

Lemma step_ok_refl d : step_ok 0 d d.
Proof.
  split; [done|apply same_graph_refl|done|]. intros id r Hr. exists r. split; [done|lia].
Qed.

Lemma step_ok_trans n m d1 d2 d3 : step_ok n d1 d2 -> step_ok m d2 d3 -> step_ok (n + m) d1 d3.
Proof.
  intros [Ha1 Hg1 Hd1 He1] [Ha2 Hg2 Hd2 He2].
  split; [by etransitivity|by eapply same_graph_trans|congruence|].
  intros id r3 (r2 & Hr2 & ?)%He2. apply He1 in Hr2 as (r1 & ? & ?). exists r1. split; [done|lia].
Qed.

Lemma step_ok_le n m d d' : step_ok n d d' -> (n <= m)%Z -> step_ok m d d'.
Proof.
  intros [Ha Hg Hd He] Hle. split; [done|done|done|].
  intros id r' (r & ? & ?)%He. exists r. split; [done|lia].
Qed.

Lemma runnable_step n m d d' : step_ok n d d' -> runnable (n + m) d -> runnable m d'.
Proof.
  intros [Ha [Hb Hl] Hd He] [Hm Hreg Hk Hr]. split.
  - unfold rows_match. by rewrite Hd, Hb.
  - intros r' Hr'. destruct (Forall2_elem_r _ _ _ _ Hl Hr') as (r & Hin & g & e & Heq).
    rewrite Hb. destruct Heq as [-> | ->]; by apply Hreg in Hin.
  - intros r' Hr'. destruct (Forall2_elem_r _ _ _ _ Hl Hr') as (r & Hin & g & e & Heq).
    destruct Heq as [-> | ->]; by apply Hk in Hin.
  - intros id r' (r & Hin & Hle)%He. apply Hr in Hin. lia.
Qed.

Lemma runnable_le n m d : runnable n d -> (m <= n)%Z -> runnable m d.
Proof. intros [? ? ? Hr] Hle. split; try done. intros id r Hin%Hr. lia. Qed.

Lemma runnable_step0 m d d' : step_ok 0 d d' -> runnable m d -> runnable m d'.
Proof. intros Hs Hr. by apply (runnable_step 0 m d d'). Qed.

Lemma insert_dom_same {A} (m : gmap Z A) i x y : m !! i = Some x -> dom (<[i := y]> m) = dom m.
Proof. intros Hx. rewrite dom_insert_L. apply elem_of_dom_2 in Hx. set_solver. Qed.

(** One row replaced. *)
Lemma step_ok_insert n d id r r' :
  bundle_freshness d !! id = Some r -> aged r r' ->
  (bf_epoch r <= bf_epoch r' <= bf_epoch r + n)%Z ->
  step_ok n d (set_freshness (<[id := r']> (bundle_freshness d)) d).
Proof.
  intros Hr Ha He. split.
  - apply ages_insert. intros r0 Hr0. rewrite Hr in Hr0. by simplify_eq.
  - by apply same_graph_only.
  - by eapply insert_dom_same.
  - cbn. intros j r0 Hj. destruct (decide (j = id)) as [->|Hne].
    + rewrite lookup_insert_eq in Hj. simplify_eq. eauto.
    + rewrite lookup_insert_ne in Hj by done. exists r0. split; [done|lia].
Qed.

(** The row, if any, is stale or retired. *)
Definition settled (d : Db) (id : Z) : Prop :=
  forall r, bundle_freshness d !! id = Some r -> bf_state r = st_retired \/ bf_state r = st_stale.

Lemma settled_later d d' id :
  settled d id -> ages d d' -> dom (bundle_freshness d') = dom (bundle_freshness d) -> settled d' id.
Proof.
  intros Hs [Hag _ _] Hdom r' Hr'.
  assert (is_Some (bundle_freshness d !! id)) as [r Hr].
  { apply elem_of_dom. rewrite <- Hdom. by apply elem_of_dom_2 in Hr'. }
  destruct (Hag id r Hr) as (r1 & Hr1 & Hret & Hlive). rewrite Hr' in Hr1. injection Hr1 as <-.
  destruct (Hs r Hr) as [H|H]; [left; by rewrite Hret|right].
  destruct Hlive as (_ & [?|?] & _); [rewrite H; apply stale_ne_retired|done|congruence].
Qed.

(** The source marked stale because the scope of its change is unknown. *)
Lemma set_stale_run d id reasons p o :
  rows_match d ->
  exists d', set_bundle_state id st_stale reasons p o d = Done tt d' /\ step_ok 0 d d'
    /\ (forall j, j <> id -> bundle_freshness d' !! j = bundle_freshness d !! j)
    /\ freshness_dependency d' = freshness_dependency d /\ settled d' id.
Proof.
  intros Hm. unfold set_bundle_state, modify, statement. eexists. split; [done|].
  destruct (bundles d !! id) as [b|] eqn:Hb.
  - assert (is_Some (bundle_freshness d !! id)) as [r Hr].
    { apply elem_of_dom. rewrite Hm. by apply elem_of_dom_2 in Hb. }
    rewrite Hr. case_decide as Hret.
    + split_and!; [apply step_ok_refl|done|done|]. unfold settled. rewrite Hr. intros r' [= <-]. by left.
    + split_and!; [|intros j Hj; cbn; by rewrite lookup_insert_ne|done|].
      * eapply step_ok_insert; [done|by apply aged_moved|cbn; lia].
      * unfold settled. cbn. rewrite lookup_insert_eq. intros r' [= <-]. by right.
  - split_and!; [apply step_ok_refl|done|done|]. intros r' Hr'.
    apply elem_of_dom_2 in Hr'. rewrite Hm, elem_of_dom, Hb in Hr'. by destruct Hr'.
Qed.

(** Invalidated as a dependent, or retired. *)
Definition marked (d d' : Db) (id : Z) : Prop :=
  exists r r', bundle_freshness d !! id = Some r /\ bundle_freshness d' !! id = Some r'
    /\ (bf_state r = st_retired /\ r' = r
        \/ bf_state r <> st_retired /\ bf_state r' = st_stale
           /\ REASON_SOURCE_CHANGED ∈ bf_reasons r' /\ (bf_epoch r < bf_epoch r')%Z).

(** The override of a scope is stale because of its source, or retired. *)
Definition scope_marked (d : Db) (k : scope_id) : Prop :=
  exists r, concept_freshness d !! k = Some r
    /\ (sf_state r = st_retired \/ sf_state r = st_stale /\ REASON_SOURCE_CHANGED ∈ sf_reasons r).

Lemma marked_later d d1 d2 id : marked d d1 id -> ages d1 d2 -> marked d d2 id.
Proof.
  intros (r & r1 & Hr & Hr1 & Hor) [Hag _ _]. apply Hag in Hr1 as (r2 & Hr2 & Hret & Hlive).
  exists r, r2. split_and!; [done|done|]. destruct Hor as [[? ->]|(Hn & Hs & Hre & He)].
  - left. split; [done|]. by rewrite Hret.
  - right. destruct Hlive as (Hn2 & Hst & Hsub & Hle & _); [rewrite Hs; apply stale_ne_retired|].
    split_and!; [done| |by apply Hsub|lia]. destruct Hst; congruence.
Qed.

Lemma marked_earlier d0 d d' id :
  ages d0 d -> id ∈ dom (bundle_freshness d0) -> marked d d' id -> marked d0 d' id.
Proof.
  intros [Hag _ _] [r0 Hr0]%elem_of_dom (r & r' & Hr & Hr' & Hor).
  apply Hag in Hr0 as Hr1. destruct Hr1 as (r1 & Hr1 & Hret & Hlive).
  rewrite Hr in Hr1. injection Hr1 as <-. exists r0, r'. split_and!; [done|done|].
  destruct (decide (bf_state r0 = st_retired)) as [E|E].
  - rewrite (Hret E) in *. destruct Hor as [[? ->]|?]; naive_solver.
  - destruct (Hlive E) as (Hn & _ & _ & He & _). right.
    destruct Hor as [[? ?]|(? & ? & ? & ?)]; [done|]. split_and!; try done. lia.
Qed.

Lemma scope_marked_later d d' k : scope_marked d k -> ages d d' -> scope_marked d' k.
Proof.
  intros (r & Hr & Hor) [_ Hag _]. apply Hag in Hr as (r' & Hr' & Hret & Hst).
  exists r'. split; [done|]. destruct Hor as [H|[H ?]]; [left; by rewrite Hret|right].
  destruct (Hst H) as [? Hsub]. split; [done|]. by apply Hsub.
Qed.

Lemma invalidated_marked d d' id : invalidated_at d d' id -> marked d d' id.
Proof.
  intros (r & r' & ? & ? & [[? ?]|(? & ? & ? & _ & ? & _)]); exists r, r'; split_and!; try done;
    [by left|right; split_and!; try done; lia].
Qed.

Lemma invalidated_aged r r' : invalidated r r' -> aged r r'.
Proof.
  intros [[Hr ->]|(Hn & Hs & Hre & Hsub & He & Hc & Hv)]; [done|]. split; [done|]. intros _.
  split_and!; [rewrite Hs; apply stale_ne_retired|by left|done|lia|done|done].
Qed.

(** Whether a registered dependent counts as invalidated. *)
Definition target_marked (d d' : Db) (id : Z) (kind : str) (key : option str) : Prop :=
  if decide (kind = k_bundle) then marked d d' id
  else exists k, key = Some k /\ scope_marked d' (id, kind, k).

Lemma invalidate_dependent_run n d id :
  runnable (1 + n) d -> (0 <= n)%Z -> is_Some (bundles d !! id) ->
  exists d', invalidate_dependent_bundle id d = Done tt d' /\ step_ok 1 d d' /\ marked d d' id
    /\ freshness_dependency d' = freshness_dependency d
    /\ (forall j, j <> id -> bundle_freshness d' !! j = bundle_freshness d !! j).
Proof.
  intros Hrun Hn Hb.
  assert (is_Some (bundle_freshness d !! id)) as [r Hr].
  { apply elem_of_dom. rewrite (rn_match _ _ Hrun). by apply elem_of_dom. }
  pose proof (rn_room _ _ Hrun id r Hr) as [H0 Hroom].
  rewrite (invalidate_run d id r (rn_match _ _ Hrun) Hr), bigint_up by lia.
  case_decide as Hret; eexists; (split; [done|]).
  - split_and!; [eapply step_ok_le; [apply step_ok_refl|lia]| |done|done].
    exists r, r. split_and!; [done|done|by left].
  - pose proof (invalidated_row_spec r Hret) as Hinv. split_and!.
    + eapply step_ok_insert; [done|by apply invalidated_aged|cbn; lia].
    + apply invalidated_marked. exists r, (invalidated_row r). cbn. by rewrite lookup_insert_eq.
    + done.
    + intros j Hj. cbn. by rewrite lookup_insert_ne.
Qed.

(** An override marked stale. *)
Lemma scope_stale_run d id kind key p :
  is_Some (bundles d !! id) ->
  exists d', set_scope_state id kind key st_stale [REASON_SOURCE_CHANGED] p d = Done tt d'
    /\ step_ok 0 d d' /\ scope_marked d' (id, kind, key)
    /\ bundle_freshness d' = bundle_freshness d /\ freshness_dependency d' = freshness_dependency d.
Proof.
  intros [b Hb].
  enough (exists d' t, set_scope_state id kind key st_stale [REASON_SOURCE_CHANGED] p d = Done tt d'
            /\ d' = set_scopes t d /\ scope_marked d' (id, kind, key)) as (d' & t & Hrun & Hd' & Hm).
  { exists d'. split_and!; [done| |done|by rewrite Hd'|by rewrite Hd']. split.
    - by eapply keeps_scope_stale.
    - rewrite Hd'. exact (same_graph_refl d).
    - by rewrite Hd'.
    - rewrite Hd'. intros j r Hj. exists r. split; [done|lia]. }
  unfold set_scope_state, statement. rewrite Hb. cbv zeta.
  destruct (concept_freshness d !! (id, kind, key)) as [r|] eqn:Hr.
  - case_decide as Hret.
    + exists d, (concept_freshness d). split_and!; [done|by destruct d|]. exists r. split; [done|by left].
    + rewrite decide_False by (intros [_ Hnil]; by destruct (sf_reasons r)).
      eexists _, _. split_and!; [done|done|].
      eexists. cbn. rewrite lookup_insert_eq. split; [done|]. right. cbn. split; [done|].
      case_decide; [apply agg_elem, elem_of_app; right|]; apply list_elem_of_here.
  - eexists _, _. split_and!; [done|done|].
    eexists. cbn. rewrite lookup_insert_eq. split; [done|]. right. split; [done|].
    apply list_elem_of_here.
Qed.

Lemma invalidate_target_run n d id kind key :
  runnable (1 + n) d -> (0 <= n)%Z -> is_Some (bundles d !! id) ->
  (kind = k_bundle \/ is_Some key) ->
  exists d', invalidate_target id kind key d = Done (bool_decide (kind = k_bundle)) d'
    /\ step_ok 1 d d' /\ target_marked d d' id kind key
    /\ freshness_dependency d' = freshness_dependency d
    /\ (forall j, j <> id \/ kind <> k_bundle -> bundle_freshness d' !! j = bundle_freshness d !! j).
Proof.
  intros Hrun Hn Hb Hkey. unfold invalidate_target, target_marked.
  destruct (decide (kind = k_bundle)) as [->|Hk].
  - destruct (invalidate_dependent_run n d id Hrun Hn Hb) as (d' & Hd & Hs & Hm & Hl & Hf).
    exists d'. unfold mbind, M_bind. rewrite Hd, bool_decide_eq_true_2 by done.
    split_and!; [done|done|done|done|naive_solver].
  - destruct Hkey as [?|[k ->]]; [done|].
    destruct (scope_stale_run d id kind k None Hb) as (d' & Hd & Hs & Hm & Hf & Hl).
    exists d'. unfold mbind, M_bind. rewrite Hd, bool_decide_eq_false_2 by done.
    split_and!; [done|eapply step_ok_le; [done|lia]|by exists k|done|by rewrite Hf].
Qed.

(** ** One dependency *)

Section change.
Context (source event generation : Z) (state_change : bool) (changes : list ConceptChange)
  (truncated : bool) (ck : option str).

Abbreviation step := (evaluate_one source event generation state_change changes truncated ck).

(** The change concerns the dependency: its key does not suppress it, and its
    selector is the whole bundle, matches, or cannot be decided. *)
Definition triggered (r : DependencyRow) : bool :=
  negb (suppressed ck (dep_causation_key r))
  && (bool_decide (dep_selector_kind r = k_bundle) || state_change || truncated
      || selector_matches (dep_selector_kind r) (dep_selector_value r) changes).

(** A narrowed selector that the change gives no way to decide. *)
Definition scope_unknown (r : DependencyRow) : bool :=
  negb (suppressed ck (dep_causation_key r)) && negb (bool_decide (dep_selector_kind r = k_bundle))
  && (state_change || truncated).

(** The bundle an invalidation landed on. *)
Definition landed (r : DependencyRow) : option Z :=
  if triggered r && bool_decide (dep_target_kind r = k_bundle) then Some (dep_target r) else None.

(** What one dependency may do to the rows. *)
Record one_ok (r : DependencyRow) (d d' : Db) : Prop := {
  oo_step : step_ok 1 d d';
  oo_marked : triggered r = true ->
              target_marked d d' (dep_target r) (dep_target_kind r) (dep_target_key r);
  oo_source : scope_unknown r = true -> settled d' source;
  oo_frame : forall j, bundle_freshness d' !! j = bundle_freshness d !! j
             \/ j = source /\ scope_unknown r = true \/ landed r = Some j;
  oo_deps : freshness_dependency d' =
            map (fun x => if decide (dep_id x = dep_id r) then advanced generation event x else x)
              (freshness_dependency d)
}.

Lemma watermark_run d id :
  exists d', advance_watermark id generation event d = Done tt d' /\ step_ok 0 d d'
    /\ bundle_freshness d' = bundle_freshness d
    /\ freshness_dependency d' =
        map (fun x => if decide (dep_id x = id) then advanced generation event x else x)
          (freshness_dependency d).
Proof.
  eexists. split; [done|]. split_and!; [|done|done]. split.
  - eapply keeps_watermark; reflexivity.
  - split; [done|]. cbn. apply Forall2_fmap_r, Forall_Forall2_diag, Forall_true.
    intros r. exists generation, event. cbn. case_decide; [by left|by right].
  - done.
  - intros j r Hj. exists r. split; [done|lia].
Qed.

Lemma target_marked_later d d1 d2 id kind key :
  target_marked d d1 id kind key -> ages d1 d2 -> target_marked d d2 id kind key.
Proof.
  unfold target_marked. case_decide; [apply marked_later|].
  intros (k & -> & Hm) Ha. exists k. split; [done|]. by eapply scope_marked_later.
Qed.

Lemma target_marked_earlier d0 d d' id kind key :
  ages d0 d -> is_Some (bundle_freshness d0 !! id) ->
  target_marked d d' id kind key -> target_marked d0 d' id kind key.
Proof.
  unfold target_marked. intros Ha Hid%elem_of_dom. case_decide; [|done]. by apply marked_earlier.
Qed.

(** A dependency as an evaluation may meet it. *)
Definition sound_dep (d : Db) (r : DependencyRow) : Prop :=
  is_Some (bundles d !! dep_target r)
  /\ (dep_target_kind r = k_bundle \/ is_Some (dep_target_key r)).

(** Invalidating the registered dependent of a triggered dependency. *)
Lemma one_ok_target n d d1 r :
  runnable (1 + n) d -> (0 <= n)%Z -> sound_dep d r -> triggered r = true -> step_ok 0 d d1 ->
  (forall j, bundle_freshness d1 !! j = bundle_freshness d !! j \/ j = source /\ scope_unknown r = true) ->
  (scope_unknown r = true -> settled d1 source) ->
  freshness_dependency d1 =
    map (fun x => if decide (dep_id x = dep_id r) then advanced generation event x else x)
      (freshness_dependency d) ->
  exists d', invalidate_registered_target r d1 = Done (bool_decide (dep_target_kind r = k_bundle)) d'
             /\ one_ok r d d'.
Proof.
  intros Hrun Hn [Hb Hkey] Htr Hs Hf Hst Hl.
  destruct (invalidate_target_run n d1 (dep_target r) (dep_target_kind r) (dep_target_key r))
    as (d' & Hd' & Hs' & Hm' & Hl' & Hf');
    [by eapply runnable_step0|done|by rewrite (proj1 (so_graph _ _ _ Hs))|done|].
  exists d'. split; [done|]. split.
  - eapply step_ok_le; [by eapply step_ok_trans|lia].
  - intros _. eapply target_marked_earlier; [by apply (so_ages _ _ _ Hs)| |done].
    apply elem_of_dom. rewrite (rn_match _ _ Hrun). by apply elem_of_dom.
  - intros Hu. eapply settled_later; [by apply Hst|apply Hs'|apply (so_dom _ _ _ Hs')].
  - intros j. unfold landed. rewrite Htr.
    destruct (decide (j = dep_target r /\ dep_target_kind r = k_bundle)) as [[-> Hk]|Hne].
    { right; right. by rewrite bool_decide_eq_true_2. }
    rewrite Hf'; [|destruct (decide (j = dep_target r)); [right|left]; naive_solver].
    destruct (Hf j); [by left|by right; left].
  - by rewrite Hl'.
Qed.

Lemma one_ok_skip d d1 r :
  triggered r = false -> scope_unknown r = false -> step_ok 0 d d1 ->
  bundle_freshness d1 = bundle_freshness d ->
  freshness_dependency d1 =
    map (fun x => if decide (dep_id x = dep_id r) then advanced generation event x else x)
      (freshness_dependency d) -> one_ok r d d1.
Proof.
  intros Ht Hu Hs Hf Hl. split; rewrite ?Ht, ?Hu; [|done|done|rewrite Hf; by left|done].
  eapply step_ok_le; [done|lia].
Qed.

Lemma landed_triggered r :
  triggered r = true ->
  landed r = (if bool_decide (dep_target_kind r = k_bundle) then Some (dep_target r) else None).
Proof. unfold landed. by intros ->. Qed.

Lemma evaluate_one_run n d r :
  runnable (1 + n) d -> (0 <= n)%Z -> sound_dep d r ->
  exists d', step r d = Done (landed r) d' /\ one_ok r d d'.
Proof.
  intros Hrun Hn Hd. unfold evaluate_one.
  destruct (watermark_run d (dep_id r)) as (d1 & Hd1 & Hs1 & Hf1 & Hl1).
  unfold mbind, M_bind at 1. rewrite Hd1.
  destruct (suppressed ck (dep_causation_key r)) eqn:Es.
  { assert (triggered r = false) as Ht by (unfold triggered; by rewrite Es).
    exists d1. split; [unfold landed; by rewrite Ht|]. apply one_ok_skip; try done.
    unfold scope_unknown. by rewrite Es. }
  destruct (negb (bool_decide (dep_selector_kind r = k_bundle)) && (state_change || truncated)) eqn:Eu.
  - assert (triggered r = true) as Ht.
    { unfold triggered. rewrite Es. apply andb_prop in Eu as [_ Eu]. cbn.
      rewrite <- !orb_assoc, (orb_assoc state_change), Eu. by rewrite orb_true_r. }
    assert (scope_unknown r = true) as Hu by (unfold scope_unknown; rewrite Es; done).
    destruct (set_stale_run d1 source [REASON_SCOPE_UNKNOWN] None None) as (d2 & Hd2 & Hs2 & Hf2 & Hl2 & Hst2);
      [apply (rn_match (1 + n)); by eapply runnable_step0|].
    unfold mbind, M_bind at 1. rewrite Hd2.
    destruct (one_ok_target n d d2 r) as (d3 & Hd3 & Hok); try done.
    + by apply (step_ok_trans 0 0 _ _ _ Hs1 Hs2).
    + intros j. destruct (decide (j = source)) as [->|]; [by right|]. left. by rewrite Hf2, Hf1.
    + by rewrite Hl2.
    + unfold mbind, M_bind. rewrite Hd3. exists d3. split; [by rewrite landed_triggered|done].
  - assert (scope_unknown r = false) as Hu by (unfold scope_unknown; rewrite Es; done).
    assert (triggered r = bool_decide (dep_selector_kind r = k_bundle)
              || selector_matches (dep_selector_kind r) (dep_selector_value r) changes) as Htrig.
    { unfold triggered. rewrite Es. cbn. apply andb_false_iff in Eu as [->%negb_false_iff|Eu]; [done|].
      apply orb_false_elim in Eu as [-> ->]. by rewrite !orb_false_r. }
    rewrite <- Htrig. destruct (triggered r) eqn:Ht.
    + destruct (one_ok_target n d d1 r) as (d3 & Hd3 & Hok); rewrite ?Hu; try done;
        [by intros j; left; rewrite Hf1|].
      unfold mbind, M_bind. rewrite Hd3. exists d3. split; [by rewrite landed_triggered|done].
    + exists d1. split; [unfold landed; by rewrite Ht|]. by apply one_ok_skip.
Qed.

(** ** The loop *)

(** The rows after the loop over [deps]. *)
Record loop_ok (deps : list DependencyRow) (d d' : Db) : Prop := {
  lo_step : step_ok (Z.of_nat (length deps)) d d';
  lo_marked : forall r, r ∈ deps -> triggered r = true ->
              target_marked d d' (dep_target r) (dep_target_kind r) (dep_target_key r);
  lo_source : existsb scope_unknown deps = true -> settled d' source;
  lo_frame : forall j, bundle_freshness d' !! j = bundle_freshness d !! j
             \/ j = source /\ existsb scope_unknown deps = true \/ j ∈ omap landed deps;
  lo_deps : freshness_dependency d' =
            map (fun x => if decide (dep_id x ∈ map dep_id deps)
                          then advanced generation event x else x) (freshness_dependency d)
}.

Lemma advanced_twice (ids : list Z) id l :
  map (fun x => if decide (dep_id x ∈ ids) then advanced generation event x else x)
    (map (fun x => if decide (dep_id x = id) then advanced generation event x else x) l) =
  map (fun x => if decide (dep_id x ∈ id :: ids) then advanced generation event x else x) l.
Proof.
  rewrite map_map. apply map_ext. intros x.
  destruct (decide (dep_id x = id)); cbn; repeat case_decide; rewrite ?elem_of_cons in *; naive_solver.
Qed.

Lemma loop_ok_cons r deps d d1 d' :
  is_Some (bundle_freshness d !! dep_target r) ->
  (forall x, x ∈ deps -> is_Some (bundle_freshness d !! dep_target x)) ->
  one_ok r d d1 -> loop_ok deps d1 d' -> loop_ok (r :: deps) d d'.
Proof.
  intros Hr Hrows [Hs1 Hm1 Hu1 Hf1 Hl1] [Hs Hm Hu Hf Hl]. split.
  - replace (Z.of_nat (length (r :: deps))) with (1 + Z.of_nat (length deps))%Z by (cbn; lia).
    by eapply step_ok_trans.
  - intros x [->|Hx]%elem_of_cons Ht.
    + eapply target_marked_later; [by apply Hm1|apply Hs].
    + eapply target_marked_earlier; [apply Hs1|by apply Hrows|by apply Hm].
  - cbn. intros [Hx|Hx]%orb_true_iff; [|by apply Hu].
    eapply settled_later; [by apply Hu1|apply Hs|apply (so_dom _ _ _ Hs)].
  - intros j. cbn. destruct (Hf j) as [->|[(-> & Hx)|Hx]].
    + destruct (Hf1 j) as [->|[(-> & Hx)|Hx]]; [by left|right; left; by rewrite Hx|].
      right; right. rewrite Hx. apply list_elem_of_here.
    + right; left. rewrite Hx. by rewrite orb_true_r.
    + right; right. destruct (landed r); [by right|done].
  - rewrite Hl, Hl1. apply advanced_twice.
Qed.

Lemma evaluate_loop_run n deps d acc :
  runnable (Z.of_nat (length deps) + n) d -> (0 <= n)%Z -> Forall (sound_dep d) deps ->
  exists d', evaluate_loop step deps acc d = Done (acc ++ omap landed deps) d' /\ loop_ok deps d d'.
Proof.
  revert d acc. induction deps as [|r deps IH]; intros d acc Hrun Hn Hd.
  { exists d. split; [by rewrite app_nil_r|]. split; [apply step_ok_refl|set_solver|done|by left|].
    cbn. rewrite <- (map_id (freshness_dependency d)) at 1. apply map_ext. intros x.
    by rewrite decide_False by apply not_elem_of_nil. }
  apply Forall_cons in Hd as [Hr Hd]. cbn [evaluate_loop].
  destruct (evaluate_one_run (Z.of_nat (length deps) + n) d r) as (d1 & Hd1 & Hok1); [|lia|done|].
  { eapply runnable_le; [exact Hrun|]. cbn. lia. }
  unfold mbind, M_bind. rewrite Hd1.
  pose proof (oo_step _ _ _ Hok1) as Hs1.
  destruct (IH d1 (acc ++ option_list (landed r))) as (d' & Hd' & Hok).
  - eapply runnable_step; [exact Hs1|]. eapply runnable_le; [exact Hrun|]. cbn. lia.
  - done.
  - eapply Forall_impl; [exact Hd|]. intros x [? ?]. split; [|done].
    by rewrite (proj1 (so_graph _ _ _ Hs1)).
  - exists d'. split.
    + rewrite Hd', <- app_assoc. f_equal. cbn. by destruct (landed r).
    + assert (forall x, sound_dep d x -> is_Some (bundle_freshness d !! dep_target x)) as Hrow.
      { intros x [Hx _]. apply elem_of_dom. rewrite (rn_match _ _ Hrun). by apply elem_of_dom. }
      eapply loop_ok_cons; [by apply Hrow| |done|done].
      intros x Hx. apply Hrow. by eapply Forall_forall in Hd.
Qed.

(** ** The walk from the invalidated bundles *)

Lemma propagated_step d roots d' : propagated d ck roots d' -> rows_match d -> step_ok 1 d d'.
Proof.
  intros [Ho _ Hf _] Hm.
  assert (forall id r, bundle_freshness d !! id = Some r -> exists r',
            bundle_freshness d' !! id = Some r' /\ aged r r'
            /\ (bf_epoch r <= bf_epoch r' <= bf_epoch r + 1)%Z) as Hrow.
  { intros id r Hr. destruct (Hf id) as [Heq|[(r0 & r' & Hr0 & Hr' & Hinv) _]].
    - exists r. rewrite Heq. split_and!; [done|done|lia|lia].
    - rewrite Hr in Hr0. injection Hr0 as <-. exists r'. split_and!; [done|by apply invalidated_aged|..];
        destruct Hinv as [[_ ->]|(_ & _ & _ & _ & -> & _)]; lia. }
  assert (dom (bundle_freshness d') = dom (bundle_freshness d)) as Hdom.
  { apply set_eq. intros id. apply invalidated_dom. destruct (Hf id) as [?|[? _]]; [by left|by right]. }
  split; [|by apply same_graph_only|done|].
  - split.
    + intros id r (r' & ? & ? & _)%Hrow. eauto.
    + intros k r Hk. exists r. split; [|done]. etransitivity; [|exact Hk]. by rewrite Ho.
    + exists (bundle_freshness d'), (concept_freshness d), (freshness_dependency d).
      etransitivity; [exact Ho|]. by destruct d.
  - intros id r' Hr'. assert (is_Some (bundle_freshness d !! id)) as [r Hr].
    { apply elem_of_dom. rewrite <- Hdom. by apply elem_of_dom_2 in Hr'. }
    exists r. split; [done|]. destruct (Hrow id r Hr) as (r1 & Hr1 & _ & ?). congruence.
Qed.

(** ** The evaluation *)

(** What the evaluation of one change promises. *)
Record evaluated (d d' : Db) : Prop := {
  el_step : step_ok (Z.of_nat (length (freshness_dependency d)) + 1) d d';
  (** every dependency the change concerns has its registered target marked *)
  el_target : forall r, r ∈ due_dependencies d source generation -> triggered r = true ->
              target_marked d d' (dep_target r) (dep_target_kind r) (dep_target_key r);
  (** and so has every bundle that transitively depends on one of them *)
  el_reached : forall id, reaches d ck (list_to_set (omap landed (due_dependencies d source generation))) id ->
               marked d d' id;
  (** a change of unknown scope leaves its source stale *)
  el_source : existsb scope_unknown (due_dependencies d source generation) = true -> settled d' source;
  (** no other row moves *)
  el_frame : forall j, bundle_freshness d' !! j = bundle_freshness d !! j
             \/ j = source /\ existsb scope_unknown (due_dependencies d source generation) = true
             \/ depended d j;
  (** the watermarks of what was evaluated advance, and nothing is left due *)
  el_deps : freshness_dependency d' =
            map (fun x => if decide (dep_id x ∈ map dep_id (due_dependencies d source generation))
                          then advanced generation event x else x) (freshness_dependency d);
  el_done : due_dependencies d' source generation = []
}.

Lemma due_elem d r :
  r ∈ due_dependencies d source generation <->
  r ∈ freshness_dependency d /\ dep_source r = source /\ dep_enabled r = true
  /\ (dep_last_generation r < generation)%Z.
Proof. unfold due_dependencies. rewrite list_elem_of_filter. naive_solver. Qed.

Lemma landed_depended d j :
  j ∈ omap landed (due_dependencies d source generation) -> depended d j.
Proof.
  intros (r & Hr & Hl)%list_elem_of_omap. apply due_elem in Hr as (Hin & _ & Hen & _).
  unfold landed in Hl. destruct (triggered r && _) eqn:E; [|done]. injection Hl as <-.
  apply andb_prop in E as [_ E]. apply bool_decide_eq_true in E. by exists r.
Qed.

Lemma due_advanced d l :
  l = map (fun x => if decide (dep_id x ∈ map dep_id (due_dependencies d source generation))
                    then advanced generation event x else x) (freshness_dependency d) ->
  filter (fun r => dep_source r = source /\ dep_enabled r = true
                   /\ (dep_last_generation r < generation)%Z) l = [].
Proof.
  intros ->. apply elem_of_nil_inv. intros r [(Hs & He & Hlt) Hin]%list_elem_of_filter.
  apply list_elem_of_fmap in Hin as (x & -> & Hx). case_decide as Hid; cbn in *; [lia|].
  apply Hid, list_elem_of_fmap. exists x. split; [done|]. by apply due_elem.
Qed.

Lemma evaluate_run d :
  runnable (Z.of_nat (length (freshness_dependency d)) + 1) d ->
  exists d', evaluate_dependencies source event generation state_change changes truncated ck d
             = Done tt d' /\ evaluated d d'.
Proof.
  intros Hrun. unfold evaluate_dependencies. unfold get, mbind, M_bind at 1.
  set (due := due_dependencies d source generation).
  assert (length due <= length (freshness_dependency d))%nat as Hlen by apply length_filter.
  destruct (evaluate_loop_run (1 + Z.of_nat (length (freshness_dependency d)) - Z.of_nat (length due)) due d [])
    as (d1 & Hd1 & [Hs1 Hm1 Hu1 Hf1 Hl1]).
  { eapply runnable_le; [exact Hrun|]. lia. }
  { lia. }
  { apply Forall_forall. intros r [Hin _]%due_elem. split; [by apply (rn_registered _ _ Hrun)|].
    by apply (rn_keys _ _ Hrun). }
  unfold mbind, M_bind at 1. rewrite Hd1. cbn [app].
  assert (runnable 1 d1) as Hrun1.
  { eapply runnable_step; [exact Hs1|]. eapply runnable_le; [exact Hrun|]. lia. }
  pose proof (so_graph _ _ _ Hs1) as Hg.
  destruct (propagate_run d1 ck (omap landed due)) as (d2 & Hd2 & Hprop);
    [apply (rn_match _ _ Hrun1)|apply (rn_registered _ _ Hrun1)| |].
  { intros id r _ Hr. apply (rn_room _ _ Hrun1) in Hr. lia. }
  exists d2. split; [done|].
  pose proof (propagated_step _ _ _ Hprop (rn_match _ _ Hrun1)) as Hs2.
  pose proof (so_ages _ _ _ Hs2) as Ha2.
  assert (freshness_dependency d2 = freshness_dependency d1) as Hl2.
  { by apply only_freshness_deps, (pr_only _ _ _ _ Hprop). }
  split.
  - eapply step_ok_le; [by eapply step_ok_trans|lia].
  - intros r Hr Ht. by eapply target_marked_later; [apply Hm1|].
  - intros id Hid. destruct (decide (id ∈ list_to_set (C := gset Z) (omap landed due))) as [Hin|Hin].
    + rewrite elem_of_list_to_set in Hin. apply list_elem_of_omap in Hin as (r & Hr & Hl).
      unfold landed in Hl. destruct (triggered r && _) eqn:E; [|done]. injection Hl as <-.
      apply andb_prop in E as [Ht E]. apply bool_decide_eq_true in E.
      pose proof (Hm1 r Hr Ht) as Hm. unfold target_marked in Hm. rewrite decide_True in Hm by done.
      by eapply marked_later.
    + eapply (marked_earlier d d1); [apply Hs1| |].
      * destruct (reaches_depended d ck _ id Hid Hin) as (r & Hr & <- & _).
        rewrite (rn_match _ _ Hrun). by apply elem_of_dom, (rn_registered _ _ Hrun).
      * apply invalidated_marked, (pr_reached _ _ _ _ Hprop); [|done].
        by apply (same_graph_reaches _ _ _ _ _ Hg).
  - intros Hu. eapply settled_later; [by apply Hu1|done|apply (so_dom _ _ _ Hs2)].
  - intros j. destruct (pr_frame _ _ _ _ Hprop j) as [->|(_ & _ & Hdep)].
    + destruct (Hf1 j) as [?|[?|?]]; [by left|by right; left|right; right]. by apply landed_depended.
    + right; right. by apply (same_graph_depended _ _ _ Hg).
  - by rewrite Hl2.
  - unfold due_dependencies at 1. eapply (due_advanced d). by rewrite Hl2.
Qed.

(** Nothing due, nothing done. *)
Lemma evaluate_idle d :
  due_dependencies d source generation = [] ->
  evaluate_dependencies source event generation state_change changes truncated ck d = Done tt d.
Proof.
  intros Hdue. unfold evaluate_dependencies, get, mbind, M_bind at 1. rewrite Hdue. done.
Qed.

End change.

End eval.
