(* ===== verification/FreshnessApi.v ===== *)
(** * The freshness API ([extension/src/catalog/freshness.rs])

    What writers and administrators call: dependency registration, the
    [mark_*] transitions with the compare-and-set completion, scope
    overrides, repair, and publication fences. *)
From stdpp Require Import prelude strings gmap list sorting.
From Stdlib Require Import Ascii ZArith Lia.
From S2P Require Import Prelude Str CatalogError Security Catalog Freshness FreshnessWalk FreshnessEval.

Section api.
Context `{Ses : Session, PT : PgText}.

(** ** Dependencies *)

Definition audit_dependency (target_bundle_id : Z) (op : str) (dependency_id : Z) : M unit :=
  d ← get;
  let retention_days := cfg_sync_log_retention_days (config d) in
  path ← bundle_path target_bundle_id;
  audit_record target_bundle_id (path ++ lit "#dependency:" ++ show_Z dependency_id) op None None
    retention_days None ;;
  mret tt.

(** [freshness_dependency_uq]: the columns that identify a registration. *)
Definition same_registration (tenant producer : str) (source : Z) (kind value : str) (target : Z)
    (target_kind : str) (target_key : option str) (r : DependencyRow) : bool :=
  bool_decide (dep_tenant r = tenant /\ dep_producer r = producer /\ dep_source r = source
               /\ dep_selector_kind r = kind /\ dep_selector_value r = value /\ dep_target r = target
               /\ dep_target_kind r = target_kind /\ dep_target_key r = target_key).

(** The insert: [None] on a conflict; an unregistered target breaks the
    foreign key. *)
Definition insert_dependency (producer : str) (causation_key : option str) (source : Z)
    (kind value : str) (baseline target : Z) (target_kind : str) (target_key : option str)
  : M (option Z) :=
  statement (fun d =>
    match bundles d !! source with
    | None => Some (None, d)
    | Some b =>
        if existsb (same_registration (b_tenant b) producer source kind value target target_kind
                      target_key) (freshness_dependency d)
        then Some (None, d)
        else if bool_decide (is_Some (bundles d !! target)) then
          let id := (dependency_seq d + 1)%Z in
          Some (Some id, set_dependencies
            (freshness_dependency d ++
              [{| dep_id := id; dep_tenant := b_tenant b; dep_producer := producer;
                  dep_enabled := true; dep_causation_key := causation_key; dep_source := source;
                  dep_selector_kind := kind; dep_selector_value := value;
                  dep_last_generation := baseline; dep_last_event := None; dep_target := target;
                  dep_target_kind := target_kind; dep_target_key := target_key |}]) id d)
        else None
    end).

Definition duplicate_dependency_error : CatalogError :=
  duplicate_path (lit "an identical freshness dependency is already registered (same producer, source selector, and target)") [].

Definition register_dependency_impl (producer : str) (source_bundle_id : Z)
    (selector_kind selector_value : str) (target_bundle_id : Z) (target_scope_kind : str)
    (target_scope_key causation_key : option str) : M Z :=
  authorize_user Ingest ;;
  lift (validate_producer producer) ;;
  lift (validate_selector selector_kind selector_value) ;;
  lift (validate_target_scope target_scope_kind target_scope_key) ;;
  enforce_tenant source_bundle_id ;;
  enforce_tenant target_bundle_id ;;
  _ ← bundle_path source_bundle_id;
  d ← get;
  baseline ← get_one (lit "failed to read source catalog generation")
               (b_catalog_generation <$> bundles d !! source_bundle_id);
  inserted ← insert_dependency producer causation_key source_bundle_id selector_kind selector_value
               baseline target_bundle_id target_scope_kind target_scope_key;
  dependency_id ← lift (ok_or duplicate_dependency_error inserted);
  audit_dependency target_bundle_id (lit "dependency_register") dependency_id ;;
  mret dependency_id.

(** The query runs through [Spi::get_one_with_args]. *)
Definition select_dependency_in_tenant (dependency_id : Z) : M (option Z) :=
  d ← get;
  target ← get_one (lit "failed to look up freshness dependency")
    (dep_target <$> head (filter (fun r => dep_id r = dependency_id
                                           /\ tenant_predicate d (dep_tenant r) = true)
                            (freshness_dependency d)));
  mret (Some target).

Definition disabled (r : DependencyRow) : DependencyRow :=
  {| dep_id := dep_id r; dep_tenant := dep_tenant r; dep_producer := dep_producer r;
     dep_enabled := false; dep_causation_key := dep_causation_key r; dep_source := dep_source r;
     dep_selector_kind := dep_selector_kind r; dep_selector_value := dep_selector_value r;
     dep_last_generation := dep_last_generation r; dep_last_event := dep_last_event r;
     dep_target := dep_target r; dep_target_kind := dep_target_kind r;
     dep_target_key := dep_target_key r |}.

Definition disable_dependency_impl (dependency_id : Z) : M unit :=
  authorize_user Ingest ;;
  found ← select_dependency_in_tenant dependency_id;
  lift (ok_or (unknown_dependency_error dependency_id) found) ;;
  modify (fun d => set_dependencies
    (map (fun r => if decide (dep_id r = dependency_id) then disabled r else r)
       (freshness_dependency d)) (dependency_seq d) d).

Definition remove_dependency_impl (dependency_id : Z) : M unit :=
  authorize_user Ingest ;;
  found ← select_dependency_in_tenant dependency_id;
  target_bundle_id ← lift (ok_or (unknown_dependency_error dependency_id) found);
  modify (fun d => set_dependencies
    (filter (fun r => dep_id r <> dependency_id) (freshness_dependency d)) (dependency_seq d) d) ;;
  audit_dependency target_bundle_id (lit "dependency_remove") dependency_id.

(** ** Transitions *)

Definition mark_stale_impl (bundle_id : Z) (reason_codes : list str)
    (producer observed_source_generation : option str) : M unit :=
  authorize_user Ingest ;;
  enforce_tenant bundle_id ;;
  _ ← bundle_path bundle_id;
  reasons ← lift (validated_reasons reason_codes);
  set_bundle_state bundle_id st_stale reasons producer observed_source_generation.

(** The claim: the attempt's token is the standing epoch. *)
Definition claim_epoch (bundle_id : Z) : M Z :=
  claimed ← statement (fun d =>
    Some (bf_epoch <$> bundle_freshness d !! bundle_id,
          update_row bundle_id (fun r => with_epochs (bf_epoch r) (bf_epoch r) (bf_updated_at r) r) d));
  get_one (lit "failed to claim the dependency invalidation epoch") claimed.

Definition mark_reconciling_impl (bundle_id : Z) (producer : option str) : M Z :=
  authorize_user Ingest ;;
  enforce_tenant bundle_id ;;
  _ ← bundle_path bundle_id;
  set_bundle_state bundle_id st_reconciling [] producer None ;;
  claim_epoch bundle_id.

Definition mark_blocked_impl (bundle_id : Z) (reason_codes : list str) (producer : option str)
  : M unit :=
  authorize_user Ingest ;;
  enforce_tenant bundle_id ;;
  _ ← bundle_path bundle_id;
  reasons ← lift (validated_reasons reason_codes);
  set_bundle_state bundle_id st_blocked reasons producer None.

(** The conditions of the compare-and-set. *)
Definition may_complete (b : Bundle) (r : BundleFreshness) (expected_observed : option str)
    (expected_generation token : Z) : bool :=
  negb (bool_decide (bf_state r = st_retired))
  && bool_decide (bf_observed r = expected_observed)
  && (b_catalog_generation b =? expected_generation)%Z
  && match bf_materialized_catalog r with
     | None => true
     | Some g => (g <=? expected_generation)%Z
     end
  && (bf_epoch r <=? token)%Z
  && (bf_claimed r <=? token)%Z
  && bool_decide (bf_coverage_missing r = None)
  && negb (bool_decide (REASON_RELATIONSHIP_COVERAGE_MISSING ∈ bf_reasons r)).

Definition completed_row (r : BundleFreshness) (observed : option str) (generation : Z)
    (manifest_hash embedding_contract producer : option str) : BundleFreshness :=
  {| bf_tenant := bf_tenant r; bf_state := st_fresh; bf_reasons := [];
     bf_observed := bf_observed r; bf_materialized_source := observed;
     bf_materialized_catalog := Some generation; bf_stale_since := None;
     bf_last_reconciled_at := Some now; bf_producer := coalesce producer (bf_producer r);
     bf_manifest_hash := coalesce manifest_hash (bf_manifest_hash r);
     bf_embedding_contract := coalesce embedding_contract (bf_embedding_contract r);
     bf_epoch := bf_epoch r; bf_claimed := bf_claimed r;
     bf_coverage_missing := bf_coverage_missing r; bf_updated_at := now |}.

Definition mark_fresh_cas (bundle_id : Z) (expected_observed : option str)
    (expected_generation : Z) (manifest_hash embedding_contract producer : option str) (token : Z)
  : M bool :=
  statement (fun d =>
    match bundles d !! bundle_id, bundle_freshness d !! bundle_id with
    | Some b, Some r =>
        if may_complete b r expected_observed expected_generation token
        then Some (true, set_freshness
               (<[bundle_id := completed_row r expected_observed expected_generation manifest_hash
                                 embedding_contract producer]> (bundle_freshness d)) d)
        else Some (false, d)
    | _, _ => Some (false, d)
    end).

Definition mark_fresh_impl (bundle_id : Z) (expected_observed_source_generation : option str)
    (expected_catalog_generation claimed_invalidation_epoch : Z)
    (manifest_hash embedding_contract producer : option str) : M bool :=
  authorize_user Ingest ;;
  enforce_tenant bundle_id ;;
  _ ← bundle_path bundle_id;
  mark_fresh_cas bundle_id expected_observed_source_generation expected_catalog_generation
    manifest_hash embedding_contract producer claimed_invalidation_epoch.

(** ** Scope overrides *)

Definition mark_scope_stale_impl (bundle_id : Z) (scope_kind scope_key : str)
    (reason_codes : list str) (producer : option str) : M unit :=
  authorize_user Ingest ;;
  enforce_tenant bundle_id ;;
  _ ← bundle_path bundle_id;
  (if bool_decide (scope_kind ∈ SCOPE_KINDS) then mret tt
   else fail (invalid_parameter (lit "scope_kind must be one of " ++ quoted_list SCOPE_KINDS
                                   ++ lit ", got " ++ scope_kind) [])) ;;
  (if decide (scope_key = []) then fail (invalid_parameter (lit "scope_key must not be empty") [])
   else mret tt) ;;
  reasons ← lift (validated_reasons reason_codes);
  set_scope_state bundle_id scope_kind scope_key st_stale reasons producer.

Definition clear_freshness_scope_impl (bundle_id : Z) (scope_kind scope_key : str) : M unit :=
  authorize_user Ingest ;;
  enforce_tenant bundle_id ;;
  _ ← bundle_path bundle_id;
  let key := (bundle_id, scope_kind, scope_key) in
  removed ← statement (fun d =>
    Some (bool_decide (is_Some (concept_freshness d !! key)),
          set_scopes (delete key (concept_freshness d)) d));
  if (removed : bool) then mret tt
  else fail (invalid_parameter (lit "bundle " ++ show_Z bundle_id ++ lit " has no " ++ scope_kind
                                  ++ lit " freshness override for " ++ scope_key) []).

(** ** Repair *)

Definition repaired_row (tenant state : str) (reasons : list str) (old : option BundleFreshness)
  : BundleFreshness :=
  let missing := bool_decide (REASON_RELATIONSHIP_COVERAGE_MISSING ∈ reasons) in
  let stale_since := if decide (state = st_fresh) then None else Some now in
  match old with
  | None =>
      {| bf_tenant := tenant; bf_state := state; bf_reasons := reasons; bf_observed := None;
         bf_materialized_source := None; bf_materialized_catalog := None;
         bf_stale_since := stale_since;
         bf_last_reconciled_at := if decide (state = st_fresh) then Some now else None;
         bf_producer := None; bf_manifest_hash := None; bf_embedding_contract := None;
         bf_epoch := 0; bf_claimed := 0;
         bf_coverage_missing := if missing then Some now else None; bf_updated_at := now |}
  | Some r =>
      {| bf_tenant := bf_tenant r; bf_state := state; bf_reasons := reasons;
         bf_observed := bf_observed r; bf_materialized_source := bf_materialized_source r;
         bf_materialized_catalog := bf_materialized_catalog r; bf_stale_since := stale_since;
         bf_last_reconciled_at := if decide (state = st_fresh) then Some now
                                  else bf_last_reconciled_at r;
         bf_producer := bf_producer r; bf_manifest_hash := bf_manifest_hash r;
         bf_embedding_contract := bf_embedding_contract r;
         bf_epoch := bf_epoch r; bf_claimed := bf_epoch r;
         bf_coverage_missing := if missing then coalesce (bf_coverage_missing r) (Some now) else None;
         bf_updated_at := now |}
  end.

Definition repair_bundle_freshness_impl (bundle_id : Z) (state : str) (reason_codes : list str)
  : M unit :=
  authorize_user Register ;;
  enforce_tenant bundle_id ;;
  _ ← bundle_path bundle_id;
  (if bool_decide (state ∈ STATES) then mret tt
   else fail (invalid_parameter (lit "state must be one of " ++ quoted_list STATES
                                   ++ lit ", got " ++ state) [])) ;;
  reasons ← lift (validated_reasons reason_codes);
  modify (fun d =>
    match bundles d !! bundle_id with
    | None => d
    | Some b => set_freshness
        (<[bundle_id := repaired_row (b_tenant b) state reasons (bundle_freshness d !! bundle_id)]>
           (bundle_freshness d)) d
    end).

(** ** Publication fences *)

Definition fe_issued : str := lit "issued".
Definition fe_released : str := lit "released".

Definition upsert_fence (tenant producer : str) (bundle_id target_generation expected : Z)
    (manifest_hash : option str) (lease_seconds : Z) : M FenceRow :=
  statement (fun d =>
    let key := (tenant, producer, bundle_id) in
    token ← match publication_fence d !! key with
            | None => Some 1%Z
            | Some f => bigint (fe_token f + 1)
            end;
    let row := {| fe_target_generation := target_generation; fe_token := token;
                  fe_expected_generation := expected; fe_manifest_hash := manifest_hash;
                  fe_state := fe_issued; fe_issued_at := now;
                  fe_expires_at := seconds_from_now lease_seconds |} in
    Some (row, set_fences (<[key := row]> (publication_fence d)) d)).

Definition issue_fence_impl (bundle_id : Z) (producer : str)
    (target_generation expected_catalog_generation : Z) (manifest_hash : option str)
    (lease_seconds : Z) : M FenceRow :=
  authorize_user Ingest ;;
  lift (validate_producer producer) ;;
  (if (target_generation <=? 0)%Z
   then fail (invalid_parameter (lit "target_generation must be greater than 0, got "
                                   ++ show_Z target_generation) [])
   else mret tt) ;;
  (if ((1 <=? lease_seconds) && (lease_seconds <=? 86400))%Z then mret tt
   else fail (invalid_parameter (lit "lease_seconds must be between 1 and 86400, got "
                                   ++ show_Z lease_seconds) [])) ;;
  enforce_tenant bundle_id ;;
  _ ← bundle_path bundle_id;
  d ← get;
  b ← lift (ok_or (unknown_bundle_error bundle_id) (bundles d !! bundle_id));
  (if (b_catalog_generation b =? expected_catalog_generation)%Z then mret tt
   else fail (invalid_parameter
     (lit "expected_catalog_generation " ++ show_Z expected_catalog_generation
        ++ lit " does not match the bundle's current catalog generation "
        ++ show_Z (b_catalog_generation b) ++ lit "; re-read the catalog and re-issue") [])) ;;
  (match publication_fence d !! (b_tenant b, producer, bundle_id) with
   | Some f =>
       if (target_generation <=? fe_target_generation f)%Z
       then fail (invalid_parameter
         (lit "target_generation " ++ show_Z target_generation
            ++ lit " does not advance past the fence's current target "
            ++ show_Z (fe_target_generation f)
            ++ lit "; only the newest producer attempt may hold the fence") [])
       else mret tt
   | None => mret tt
   end) ;;
  upsert_fence (b_tenant b) producer bundle_id target_generation expected_catalog_generation
    manifest_hash lease_seconds.

(** The fence can still be released. *)
Definition is_live (f : FenceRow) : bool :=
  bool_decide (fe_state f = fe_issued) && (now <? fe_expires_at f)%Z.

Definition released (f : FenceRow) : FenceRow :=
  {| fe_target_generation := fe_target_generation f; fe_token := fe_token f;
     fe_expected_generation := fe_expected_generation f; fe_manifest_hash := fe_manifest_hash f;
     fe_state := fe_released; fe_issued_at := fe_issued_at f; fe_expires_at := fe_expires_at f |}.

Definition no_live_fence_error (producer : str) (bundle_id fencing_token : Z) : CatalogError :=
  invalid_parameter (lit "no live publication fence for producer " ++ producer ++ lit " on bundle "
    ++ show_Z bundle_id ++ lit " with fencing_token " ++ show_Z fencing_token
    ++ lit " (the token is superseded, expired, or never issued)") [].

Definition release_fence_impl (bundle_id : Z) (producer : str) (fencing_token : Z) : M unit :=
  authorize_user Ingest ;;
  lift (validate_producer producer) ;;
  enforce_tenant bundle_id ;;
  _ ← bundle_path bundle_id;
  done ← statement (fun d =>
    match bundles d !! bundle_id with
    | None => Some (false, d)
    | Some b =>
        let key := (b_tenant b, producer, bundle_id) in
        match publication_fence d !! key with
        | Some f =>
            if (fe_token f =? fencing_token)%Z && is_live f
            then Some (true, set_fences (<[key := released f]> (publication_fence d)) d)
            else Some (false, d)
        | None => Some (false, d)
        end
    end);
  if (done : bool) then mret tt
  else fail (no_live_fence_error producer bundle_id fencing_token).

End api.

(** ** What modelling the lookups showed *)

Section lookups.
Context `{Ses : Session}.

(** A missing row of a single-row lookup is an internal error ([XX000]), not
    the documented [22023]: [ok_or_else] never sees a [None]. *)
Lemma unknown_dependency_is_internal (dependency_id : Z) d :
  (forall r, r ∈ freshness_dependency d -> dep_id r <> dependency_id) ->
  exists e, select_dependency_in_tenant dependency_id d = Fail e /\ sqlstate (kind e) = lit "XX000".
Proof.
  intros Hnone. unfold select_dependency_in_tenant, get, mbind, M_bind.
  destruct (filter _ (freshness_dependency d)) as [|r l] eqn:E; [eexists; split; reflexivity|].
  assert (r ∈ r :: l) as Hr by apply list_elem_of_here. rewrite <- E in Hr.
  apply list_elem_of_filter in Hr as [[Hid _] Hr]. by destruct (Hnone r Hr).
Qed.

Lemma unknown_bundle_is_internal (id : Z) d :
  bundles d !! id = None ->
  exists e, Freshness.bundle_path id d = Fail e /\ sqlstate (kind e) = lit "XX000".
Proof. intros Hno. unfold bundle_path, get, mbind, M_bind. rewrite Hno. eexists. split; reflexivity. Qed.

(** A repair with no reasons records one all the same, [fresh] included. *)
Lemma repaired_fresh_has_reason : validated_reasons [] = Ok [PRODUCER_REPORTED].
Proof. reflexivity. Qed.

End lookups.

#[global] Opaque fe_issued fe_released.
