(* ===== verification/Outbox.v ===== *)
(** * The change-event outbox ([extension/src/catalog/change_event.rs])

    Every accepted catalog change appends one durable event with a bounded
    summary; dispatchers claim events under a lease and acknowledge them.
    The events other transactions hold locked ([FOR UPDATE SKIP LOCKED]) are
    an argument of the claim. *)
From stdpp Require Import prelude strings gmap list sorting.
From Stdlib Require Import Ascii ZArith Lia.
From S2P Require Import Prelude Str BTree CatalogError Security Catalog Freshness.

Definition OPERATIONS : list str :=
  [lit "refresh_bundle"; lit "put_document"; lit "delete_document"; lit "enable_bundle";
   lit "disable_bundle"; lit "retire_bundle"; lit "unretire_bundle"; lit "unregister_bundle";
   lit "purge_bundle"; lit "concept_change"].

Definition CONTEXT_OPERATIONS : list str :=
  [lit "refresh_bundle"; lit "put_document"; lit "delete_document"; lit "concept_change"].

Definition CHANGE_RECORD_CAP : nat := 256.

Definition ck_added : str := lit "added".
Definition ck_updated : str := lit "updated".
Definition ck_removed : str := lit "removed".

Definition ev_pending : str := lit "pending".
Definition ev_claimed : str := lit "claimed".
Definition ev_acknowledged : str := lit "acknowledged".

(** ** The change list *)

(** What a change list reads of a staged concept. *)
Record Staged : Type := {
  sg_id : str;
  sg_path : str;
  sg_file_hash : str
}.

Abbreviation hashmap := (list (list ascii * list ascii)).

(** The id the path had before, when the file changed its identity. *)
Definition reclassified_from (stored_ids : hashmap) (entry : Staged) : option str :=
  match bt_get (sg_path entry) stored_ids with
  | Some old => if decide (old = sg_id entry) then None else Some old
  | None => None
  end.

(** The changes of one staged concept. *)
Definition staged_changes (stored_hashes stored_ids : hashmap) (entry : Staged)
  : list ConceptChange :=
  let before := bt_get (sg_path entry) stored_hashes in
  match reclassified_from stored_ids entry with
  | Some old =>
      [{| ch_id := old; ch_path := sg_path entry; ch_kind := ck_removed; ch_before_hash := before;
          ch_after_hash := None |};
       {| ch_id := sg_id entry; ch_path := sg_path entry; ch_kind := ck_added;
          ch_before_hash := None; ch_after_hash := Some (sg_file_hash entry) |}]
  | None =>
      [{| ch_id := sg_id entry; ch_path := sg_path entry;
          ch_kind := match before with Some _ => ck_updated | None => ck_added end;
          ch_before_hash := before; ch_after_hash := Some (sg_file_hash entry) |}]
  end.

Definition removed_change (stored_hashes stored_ids : hashmap) (path : str) : ConceptChange :=
  {| ch_id := default path (bt_get path stored_ids); ch_path := path; ch_kind := ck_removed;
     ch_before_hash := bt_get path stored_hashes; ch_after_hash := None |}.

Definition build_changes (stored_hashes stored_ids : hashmap) (staged : list Staged)
    (removed_paths : list str) : list ConceptChange :=
  concat (map (staged_changes stored_hashes stored_ids) staged)
  ++ map (removed_change stored_hashes stored_ids) removed_paths.

(** [build_change_manifest] of [sync.rs]: the audit trail's account of the
    same sync. *)
Definition build_change_manifest (stored : hashmap) (staged : list Staged)
    (removed_ids : list str) : list (str * str) :=
  map (fun entry => (sg_id entry, match bt_get (sg_path entry) stored with
                                  | Some _ => ck_updated
                                  | None => ck_added
                                  end)) staged
  ++ map (fun id => (id, ck_removed)) removed_ids.

(** ** Truncation *)

Definition count_kind (p : ConceptChange -> bool) (changes : list ConceptChange) : nat :=
  length (List.filter p changes).
Definition is_added (c : ConceptChange) : bool := bool_decide (ch_kind c = ck_added).
Definition is_updated (c : ConceptChange) : bool :=
  negb (is_added c) && bool_decide (ch_kind c = ck_updated).
Definition is_removed (c : ConceptChange) : bool := negb (is_added c) && negb (is_updated c).

(** One pass of counters over the list. *)
Definition count_step (counts : nat * nat * nat) (change : ConceptChange) : nat * nat * nat :=
  let '(added, updated, removed) := counts in
  if is_added change then (S added, updated, removed)
  else if is_updated change then (added, S updated, removed)
  else (added, updated, S removed).

Definition is_truncated (changes : list ConceptChange) : bool :=
  let '(added, updated, removed) := fold_left count_step changes (0, 0, 0)%nat in
  ((CHANGE_RECORD_CAP <? added) || (CHANGE_RECORD_CAP <? updated) || (CHANGE_RECORD_CAP <? removed))%nat.

(** ** The bounded summary *)

Record ChangeBucket : Type := {
  cb_ids : list str;
  cb_paths : list str;
  cb_before_hashes : list (option str);
  cb_after_hashes : list (option str);
  cb_total : nat
}.

Definition empty_bucket : ChangeBucket :=
  {| cb_ids := []; cb_paths := []; cb_before_hashes := []; cb_after_hashes := []; cb_total := 0 |}.

Definition bucket_push (b : ChangeBucket) (change : ConceptChange) : ChangeBucket :=
  if (length (cb_ids b) <? CHANGE_RECORD_CAP)%nat then
    {| cb_ids := cb_ids b ++ [ch_id change]; cb_paths := cb_paths b ++ [ch_path change];
       cb_before_hashes := cb_before_hashes b ++ [ch_before_hash change];
       cb_after_hashes := cb_after_hashes b ++ [ch_after_hash change]; cb_total := S (cb_total b) |}
  else
    {| cb_ids := cb_ids b; cb_paths := cb_paths b; cb_before_hashes := cb_before_hashes b;
       cb_after_hashes := cb_after_hashes b; cb_total := S (cb_total b) |}.

Definition bucket_truncated (b : ChangeBucket) : bool := (length (cb_ids b) <? cb_total b)%nat.

Definition bucket_step (bs : ChangeBucket * ChangeBucket * ChangeBucket) (change : ConceptChange)
  : ChangeBucket * ChangeBucket * ChangeBucket :=
  let '(added, updated, removed) := bs in
  if is_added change then (bucket_push added change, updated, removed)
  else if is_updated change then (added, bucket_push updated change, removed)
  else (added, updated, bucket_push removed change).

(** [count_to_i32]: saturating *)
Definition count_to_i32 (n : nat) : Z := Z.min (Z.of_nat n) i32_max.

(** Columns back to rows ([unnest] of parallel arrays). *)
Definition zip3 {A B C} (a : list A) (b : list B) (c : list C) : list (A * B * C) :=
  zip (zip a b) c.
Definition zip4 {A B C D} (a : list A) (b : list B) (c : list C) (d : list D)
  : list (A * B * C * D) := zip (zip3 a b c) d.

Definition summarize (changes : list ConceptChange) (sync_hash : option str) : ChangeSummary :=
  let '(added, updated, removed) :=
    fold_left bucket_step changes (empty_bucket, empty_bucket, empty_bucket) in
  {| cs_added := zip3 (cb_ids added) (cb_paths added) (cb_after_hashes added);
     cs_updated := zip4 (cb_ids updated) (cb_paths updated) (cb_before_hashes updated)
                     (cb_after_hashes updated);
     cs_removed := zip3 (cb_ids removed) (cb_paths removed) (cb_before_hashes removed);
     cs_counts := (count_to_i32 (cb_total added), count_to_i32 (cb_total updated),
                   count_to_i32 (cb_total removed));
     cs_truncated := bucket_truncated added || bucket_truncated updated || bucket_truncated removed;
     cs_sync_hash := sync_hash |}.

(** ** The producer's context *)

(** What PostgreSQL extracts from the context text: its error text, nothing
    when the value is not an object, or the seven labels. *)
Class ContextJson : Type := {
  context_row : str -> result (option ChangeContext) str
}.

Definition parse_context `{ContextJson} (raw : str) : result ChangeContext CatalogError :=
  if is_blank raw then Ok default_context
  else
    match context_row raw with
    | Err error => Err (invalid_parameter (lit "sync context must be a JSON object: " ++ error) [])
    | Ok None => Err (invalid_parameter (lit "sync context must be a JSON object") [])
    | Ok (Some parsed) =>
        match cx_operation parsed with
        | Some operation =>
            if bool_decide (operation ∈ CONTEXT_OPERATIONS) then Ok parsed
            else Err (invalid_parameter
                        (lit "sync context operation must be one of "
                           ++ quoted_list CONTEXT_OPERATIONS ++ lit ", got " ++ operation) [])
        | None => Ok parsed
        end
    end.

Definition operation_for_sync (c : ChangeContext) : str :=
  match cx_operation c with
  | Some o =>
      if decide (o = lit "put_document") then lit "put_document"
      else if decide (o = lit "delete_document") then lit "delete_document"
      else if decide (o = lit "concept_change") then lit "concept_change"
      else lit "refresh_bundle"
  | None => lit "refresh_bundle"
  end.

(** ** Recording and pruning *)

Section outbox.
Context `{Ses : Session}.

Definition new_event (id : Z) (bundle_id : Z) (b : Bundle) (generation : Z) (operation : str)
    (changes : list ConceptChange) (context : ChangeContext) (sync_hash : option str) : EventRow :=
  {| ev_id := id; ev_tenant := b_tenant b; ev_bundle := Some bundle_id; ev_bundle_path := b_path b;
     ev_bundle_name := b_name b; ev_generation := generation; ev_operation := operation;
     ev_changes := summarize changes sync_hash; ev_origin := cx_origin context;
     ev_causation_key := cx_causation_key context;
     ev_reconciliation_key := cx_reconciliation_key context; ev_producer := cx_producer context;
     ev_created_at := now; ev_status := ev_pending; ev_claimed_by := None;
     ev_claim_expires_at := None; ev_attempts := 0; ev_acceptance_key := None;
     ev_acknowledged_at := None |}.

Definition record_event (bundle_id : Z) (operation : str) (catalog_generation : Z)
    (changes : list ConceptChange) (context : ChangeContext) (sync_hash : option str) : M Z :=
  inserted ← statement (fun d =>
    match bundles d !! bundle_id with
    | None => Some (None, d)
    | Some b =>
        let id := (event_seq d + 1)%Z in
        Some (Some id, set_events
          (catalog_change_event d
             ++ [new_event id bundle_id b catalog_generation operation changes context sync_hash]) id d)
    end);
  get_one (lit "failed to append catalog change event") inserted.

(** Acknowledged before the retention window. *)
Definition prunable (retention_days : Z) (e : EventRow) : bool :=
  bool_decide (ev_status e = ev_acknowledged)
  && match ev_acknowledged_at e with
     | Some t => (t <? days_ago retention_days)%Z
     | None => false
     end.

Definition prune_events (retention_days : Z) : M unit :=
  if (0 <? retention_days)%Z then
    modify (fun d => set_events
      (filter (fun e => prunable retention_days e = false) (catalog_change_event d)) (event_seq d) d)
  else mret tt.

(** ** Claiming *)

Definition validate_limit (limit : Z) : result Z CatalogError :=
  if ((1 <=? limit) && (limit <=? 1000))%Z then Ok limit
  else Err (invalid_parameter (lit "limit must be between 1 and 1000, got " ++ show_Z limit) []).

Definition validate_claim_args (producer : str) (lease_seconds : Z) : result unit CatalogError :=
  if is_blank producer then Err (invalid_parameter (lit "producer must not be empty") [])
  else if negb ((1 <=? lease_seconds) && (lease_seconds <=? 86400))%Z then
    Err (invalid_parameter (lit "lease_seconds must be between 1 and 86400, got "
                              ++ show_Z lease_seconds) [])
  else Ok tt.

(** Pending, or claimed under a lease that has run out. *)
Definition claimable (e : EventRow) : bool :=
  bool_decide (ev_status e = ev_pending)
  || bool_decide (ev_status e = ev_claimed)
     && match ev_claim_expires_at e with Some t => (t <? now)%Z | None => false end.

(** The [picked] rows, oldest first. *)
Definition picked (d : Db) (locked : gset Z) (limit : Z) : list EventRow :=
  take (Z.to_nat limit)
    (filter (fun e => claimable e = true /\ tenant_predicate d (ev_tenant e) = true
                      /\ ev_id e ∉ locked) (catalog_change_event d)).

Definition claimed_row (producer : str) (lease_seconds : Z) (e : EventRow) : EventRow :=
  {| ev_id := ev_id e; ev_tenant := ev_tenant e; ev_bundle := ev_bundle e;
     ev_bundle_path := ev_bundle_path e; ev_bundle_name := ev_bundle_name e;
     ev_generation := ev_generation e; ev_operation := ev_operation e; ev_changes := ev_changes e;
     ev_origin := ev_origin e; ev_causation_key := ev_causation_key e;
     ev_reconciliation_key := ev_reconciliation_key e; ev_producer := ev_producer e;
     ev_created_at := ev_created_at e; ev_status := ev_claimed; ev_claimed_by := Some producer;
     ev_claim_expires_at := Some (seconds_from_now lease_seconds);
     ev_attempts := ev_attempts e + 1; ev_acceptance_key := ev_acceptance_key e;
     ev_acknowledged_at := ev_acknowledged_at e |}.

(** [UPDATE ... FROM picked ... RETURNING]: the attempt counter is an
    [integer], and the rows come back in no fixed order. *)
Definition claim_events `{PgText} (producer : str) (lease_seconds : Z) (ids : list Z) : M (list EventRow) :=
  statement (fun d =>
    let hit e := bool_decide (ev_id e ∈ ids) in
    let updated := List.filter hit (catalog_change_event d) in
    if forallb (fun e => (ev_attempts e <? i32_max)%Z) updated then
      Some (returning_order (map (claimed_row producer lease_seconds) updated),
            set_events (map (fun e => if hit e then claimed_row producer lease_seconds e else e)
                          (catalog_change_event d)) (event_seq d) d)
    else None).

Definition claim_impl `{PgText} (locked : gset Z) (producer : str) (limit lease_seconds : Z)
  : M (list EventRow) :=
  authorize_dispatcher ;;
  limit ← lift (validate_limit limit);
  lift (validate_claim_args producer lease_seconds) ;;
  d ← get;
  claim_events producer lease_seconds (map ev_id (picked d locked limit)).

(** ** Acknowledging *)

Definition acknowledged_row (acceptance_key : str) (e : EventRow) : EventRow :=
  {| ev_id := ev_id e; ev_tenant := ev_tenant e; ev_bundle := ev_bundle e;
     ev_bundle_path := ev_bundle_path e; ev_bundle_name := ev_bundle_name e;
     ev_generation := ev_generation e; ev_operation := ev_operation e; ev_changes := ev_changes e;
     ev_origin := ev_origin e; ev_causation_key := ev_causation_key e;
     ev_reconciliation_key := ev_reconciliation_key e; ev_producer := ev_producer e;
     ev_created_at := ev_created_at e; ev_status := ev_acknowledged;
     ev_claimed_by := ev_claimed_by e; ev_claim_expires_at := ev_claim_expires_at e;
     ev_attempts := ev_attempts e; ev_acceptance_key := Some acceptance_key;
     ev_acknowledged_at := Some now |}.

(** The rows the acknowledging [UPDATE] takes. *)
Definition ack_hits (d : Db) (event_id : Z) (producer : str) (e : EventRow) : bool :=
  bool_decide (ev_id e = event_id) && bool_decide (ev_status e = ev_claimed)
  && bool_decide (ev_claimed_by e = Some producer) && tenant_predicate d (ev_tenant e).

Definition visible_event (d : Db) (event_id : Z) : option EventRow :=
  head (filter (fun e => ev_id e = event_id /\ tenant_predicate d (ev_tenant e) = true)
          (catalog_change_event d)).

Definition ack_conflict_error (event_id : Z) : CatalogError :=
  invalid_parameter (lit "catalog change event " ++ show_Z event_id
    ++ lit " is already acknowledged with a different producer or acceptance_key") [].
Definition ack_foreign_error (event_id : Z) (producer : str) : CatalogError :=
  insufficient_privilege (lit "catalog change event " ++ show_Z event_id
    ++ lit " is not claimed by producer " ++ producer) [].
Definition ack_unclaimed_error (event_id : Z) : CatalogError :=
  invalid_parameter (lit "catalog change event " ++ show_Z event_id
    ++ lit " is not currently claimed") [].
Definition ack_unknown_error (event_id : Z) : CatalogError :=
  invalid_parameter (lit "catalog change event " ++ show_Z event_id ++ lit " does not exist") [].

(** The answer when the fast path matched nothing. *)
Definition ack_refusal (current : option EventRow) (event_id : Z) (producer acceptance_key : str)
  : result bool CatalogError :=
  match current with
  | None => Err (ack_unknown_error event_id)
  | Some e =>
      if decide (ev_status e = ev_acknowledged) then
        if bool_decide (ev_claimed_by e = Some producer)
           && bool_decide (ev_acceptance_key e = Some acceptance_key)
        then Ok true else Err (ack_conflict_error event_id)
      else if negb (bool_decide (ev_claimed_by e = Some producer))
      then Err (ack_foreign_error event_id producer)
      else Err (ack_unclaimed_error event_id)
  end.

Definition ack_impl (event_id : Z) (producer acceptance_key : str) : M bool :=
  authorize_dispatcher ;;
  (if is_blank producer || is_blank acceptance_key
   then fail (invalid_parameter (lit "producer and acceptance_key must not be empty") [])
   else mret tt) ;;
  acknowledged ← statement (fun d =>
    Some (existsb (ack_hits d event_id producer) (catalog_change_event d),
          set_events (map (fun e => if ack_hits d event_id producer e
                                    then acknowledged_row acceptance_key e else e)
                        (catalog_change_event d)) (event_seq d) d));
  if (acknowledged : bool) then mret true
  else
    d ← get;
    lift (ack_refusal (visible_event d event_id) event_id producer acceptance_key).

(** ** Inspection *)

Definition list_impl (bundle_id : option Z) (max_rows : Z) : M (list EventRow) :=
  authorize_user Register ;;
  limit ← lift (validate_limit max_rows);
  d ← get;
  mret (take (Z.to_nat limit)
    (reverse (filter (fun e => (bundle_id = None \/ ev_bundle e = bundle_id)
                               /\ tenant_predicate d (ev_tenant e) = true) (catalog_change_event d)))).

End outbox.

Lemma pending_ne_claimed : ev_pending <> ev_claimed.
Proof. by_decide. Qed.
Lemma pending_ne_acknowledged : ev_pending <> ev_acknowledged.
Proof. by_decide. Qed.
Lemma claimed_ne_acknowledged : ev_claimed <> ev_acknowledged.
Proof. by_decide. Qed.
Lemma updated_ne_added : ck_updated <> ck_added.
Proof. by_decide. Qed.
Lemma removed_ne_added : ck_removed <> ck_added.
Proof. by_decide. Qed.
Lemma removed_ne_updated : ck_removed <> ck_updated.
Proof. by_decide. Qed.

#[global] Opaque ev_pending ev_claimed ev_acknowledged ck_added ck_updated ck_removed.

(** ** The summary is exact *)

(** The stored records of a bucket are its first changes, the total is
    exact. *)
Definition bucket_of (l : list ConceptChange) : ChangeBucket :=
  {| cb_ids := map ch_id (take CHANGE_RECORD_CAP l);
     cb_paths := map ch_path (take CHANGE_RECORD_CAP l);
     cb_before_hashes := map ch_before_hash (take CHANGE_RECORD_CAP l);
     cb_after_hashes := map ch_after_hash (take CHANGE_RECORD_CAP l);
     cb_total := length l |}.

Lemma bucket_push_of l c : bucket_push (bucket_of l) c = bucket_of (l ++ [c]).
Proof.
  unfold bucket_push, bucket_of. cbn [cb_ids cb_paths cb_before_hashes cb_after_hashes cb_total].
  rewrite length_map, length_take, length_app, take_app.
  destruct (_ <? _)%nat eqn:E.
  - apply Nat.ltb_lt in E. rewrite (take_ge l) by lia. rewrite (take_ge [c]) by (cbn [length]; lia).
    rewrite !map_app. cbn [map length]. f_equal. lia.
  - apply Nat.ltb_ge in E. replace (CHANGE_RECORD_CAP - length l)%nat with 0%nat by lia.
    rewrite take_0, app_nil_r. f_equal. cbn [length]. lia.
Qed.

Lemma bucket_fold l b k : b = bucket_of k -> fold_left bucket_push l b = bucket_of (k ++ l).
Proof.
  revert b k. induction l as [|c l IH]; intros b k ->; cbn; [by rewrite app_nil_r|].
  rewrite (IH _ (k ++ [c])) by apply bucket_push_of. by rewrite <- app_assoc.
Qed.

Lemma bucket_step_split l a u r :
  fold_left bucket_step l (a, u, r) =
  (fold_left bucket_push (List.filter is_added l) a,
   fold_left bucket_push (List.filter is_updated l) u,
   fold_left bucket_push (List.filter is_removed l) r).
Proof.
  revert a u r. induction l as [|c l IH]; intros a u r; [done|]. cbn.
  assert (is_removed c = negb (is_added c) && negb (is_updated c)) as -> by done.
  destruct (is_added c) eqn:Ea; cbn [negb andb].
  - assert (is_updated c = false) as -> by (unfold is_updated; by rewrite Ea). apply IH.
  - destruct (is_updated c); apply IH.
Qed.

Lemma count_step_split l a u r :
  fold_left count_step l (a, u, r) =
  (a + count_kind is_added l, u + count_kind is_updated l, r + count_kind is_removed l)%nat.
Proof.
  revert a u r. unfold count_kind. induction l as [|c l IH]; intros a u r; cbn.
  { by rewrite !Nat.add_0_r. }
  assert (is_removed c = negb (is_added c) && negb (is_updated c)) as -> by done.
  destruct (is_added c) eqn:Ea; cbn [negb andb].
  - assert (is_updated c = false) as -> by (unfold is_updated; by rewrite Ea).
    rewrite IH. cbn [length]. repeat apply (f_equal2 pair); lia.
  - destruct (is_updated c); cbn [negb]; rewrite IH; cbn [length]; repeat apply (f_equal2 pair); lia.
Qed.

Lemma zip_map2 {A B C} (f : A -> B) (g : A -> C) l : zip (map f l) (map g l) = map (fun x => (f x, g x)) l.
Proof. induction l; cbn; congruence. Qed.

Lemma bucket_of_truncated l : bucket_truncated (bucket_of l) = (CHANGE_RECORD_CAP <? length l)%nat.
Proof.
  unfold bucket_truncated. cbn [cb_ids cb_total bucket_of]. rewrite length_map, length_take.
  destruct (_ <? _)%nat eqn:E, (CHANGE_RECORD_CAP <? _)%nat eqn:E'; try done;
    bool_prop; lia.
Qed.

(** The payload of an event is the first 256 changes of each kind in
    order, with the exact totals (saturated at the [integer] maximum), and its
    [truncated] flag agrees with the test the dependency evaluation makes on
    the full list: both say whether some kind has more than 256 changes. *)
Theorem summarize_exact (changes : list ConceptChange) (sync_hash : option str) :
  let s := summarize changes sync_hash in
  let kept p := take CHANGE_RECORD_CAP (List.filter p changes) in
  cs_added s = map (fun c => (ch_id c, ch_path c, ch_after_hash c)) (kept is_added)
  /\ cs_updated s = map (fun c => (ch_id c, ch_path c, ch_before_hash c, ch_after_hash c))
                      (kept is_updated)
  /\ cs_removed s = map (fun c => (ch_id c, ch_path c, ch_before_hash c)) (kept is_removed)
  /\ cs_counts s = (count_to_i32 (count_kind is_added changes),
                    count_to_i32 (count_kind is_updated changes),
                    count_to_i32 (count_kind is_removed changes))
  /\ cs_truncated s = is_truncated changes
  /\ (is_truncated changes = true <->
      (CHANGE_RECORD_CAP < count_kind is_added changes
       \/ CHANGE_RECORD_CAP < count_kind is_updated changes
       \/ CHANGE_RECORD_CAP < count_kind is_removed changes)%nat).
Proof.
  cbv zeta. unfold summarize, is_truncated. rewrite bucket_step_split, count_step_split.
  rewrite !(bucket_fold _ empty_bucket []) by done. cbn [app Nat.add].
  cbn [cs_added cs_updated cs_removed cs_counts cs_truncated].
  rewrite !bucket_of_truncated. unfold zip4, zip3. cbn [bucket_of cb_ids cb_paths cb_before_hashes
    cb_after_hashes cb_total]. rewrite !zip_map2.
  split_and!; try done. rewrite !orb_true_iff, !Nat.ltb_lt. tauto.
Qed.

(** ** Claims *)

Section claims.
Context `{Ses : Session, PL : PgTextLaws}.

(** Events carry distinct identities. *)
Definition events_distinct (d : Db) : Prop := NoDup (ev_id <$> catalog_change_event d).

(** Every attempt counter can still count. *)
Definition attempts_fit (n : Z) (d : Db) : Prop :=
  forall e, e ∈ catalog_change_event d -> (ev_attempts e + n <= i32_max)%Z.

(** What a dispatcher of this session could be handed. *)
Definition available (d : Db) (locked : gset Z) : list EventRow :=
  filter (fun e => claimable e = true /\ tenant_predicate d (ev_tenant e) = true
                   /\ ev_id e ∉ locked) (catalog_change_event d).

Lemma picked_available d locked limit : picked d locked limit = take (Z.to_nat limit) (available d locked).
Proof. done. Qed.

(** Selecting rows by the ids of a sublist gives the sublist back. *)
Lemma filter_by_ids (l k : list EventRow) :
  NoDup (ev_id <$> l) -> k `sublist_of` l ->
  List.filter (fun e => bool_decide (ev_id e ∈ ev_id <$> k)) l = k.
Proof.
  intros Hnd Hsub. induction Hsub as [|x k l Hsub IH|x k l Hsub IH]; [done|..].
  - cbn in Hnd |- *. apply NoDup_cons in Hnd as [Hx Hnd].
    rewrite bool_decide_eq_true_2 by apply list_elem_of_here. f_equal.
    etransitivity; [|exact (IH Hnd)]. apply List.filter_ext_in. intros e He%list_elem_of_In.
    apply bool_decide_ext. rewrite elem_of_cons. split; [|by right]. intros [Heq|?]; [|done].
    destruct Hx. rewrite <- Heq. by apply list_elem_of_fmap_2.
  - cbn in Hnd |- *. apply NoDup_cons in Hnd as [Hx Hnd].
    rewrite bool_decide_eq_false_2; [by apply IH|]. intros Hin. apply Hx.
    apply list_elem_of_fmap in Hin as (y & -> & Hy). apply list_elem_of_fmap_2.
    by eapply elem_of_sublist.
Qed.

(** The claim of the available events that [picked] selects. *)
Lemma claim_events_run d locked limit producer lease :
  events_distinct d -> attempts_fit 1 d ->
  let chosen := take (Z.to_nat limit) (available d locked) in
  claim_events producer lease (map ev_id (picked d locked limit)) d =
  Done (returning_order (map (claimed_row producer lease) chosen))
    (set_events (map (fun e => if bool_decide (ev_id e ∈ ev_id <$> chosen)
                               then claimed_row producer lease e else e)
                   (catalog_change_event d)) (event_seq d) d).
Proof.
  intros Hnd Hfit chosen. unfold claim_events, statement. rewrite picked_available. fold chosen.
  assert (chosen `sublist_of` catalog_change_event d) as Hsub.
  { etransitivity; [apply sublist_take|apply sublist_filter]. }
  cbv zeta. change (map ev_id chosen) with (ev_id <$> chosen).
  rewrite (filter_by_ids _ _ Hnd Hsub).
  rewrite (proj2 (forallb_forall _ _)); [done|]. intros e He%list_elem_of_In.
  apply Z.ltb_lt. pose proof (Hfit e (elem_of_sublist _ _ _ He Hsub)). lia.
Qed.

(** A claimed event is out of reach while its lease runs. *)
Lemma claimed_not_claimable producer lease e :
  (1 <= lease)%Z -> claimable (claimed_row producer lease e) = false.
Proof.
  intros Hl. unfold claimable. cbn.
  rewrite bool_decide_eq_false_2 by (intros Heq; by apply pending_ne_claimed).
  rewrite bool_decide_eq_true_2 by done. cbn. apply Z.ltb_ge. unfold seconds_from_now. lia.
Qed.

(** Marking the first [n] rows that satisfy [P] so that they no longer do
    leaves the later ones. *)
Lemma filter_after_claim (P : EventRow -> Prop) `{!forall e, Decision (P e)} (g : EventRow -> EventRow)
    (l : list EventRow) (n : nat) :
  NoDup (ev_id <$> l) -> (forall e, ~ P (g e)) ->
  filter P (map (fun e => if bool_decide (ev_id e ∈ ev_id <$> take n (filter P l)) then g e else e) l)
  = drop n (filter P l).
Proof.
  intros Hnd Hg. revert n. induction l as [|x l IH]; intros n; [by destruct n|].
  cbn in Hnd. apply NoDup_cons in Hnd as [Hx Hnd].
  assert (forall k, ev_id x ∉ ev_id <$> take k (filter P l)) as Hout.
  { intros k (y & Heq & Hy)%list_elem_of_fmap. apply Hx. rewrite Heq. apply list_elem_of_fmap_2.
    eapply elem_of_sublist; [exact Hy|]. etransitivity; [apply sublist_take|apply sublist_filter]. }
  rewrite (filter_cons P x l). cbn [map]. case_decide as HP.
  - destruct n as [|n].
    + cbn [take fmap list_fmap drop]. rewrite bool_decide_eq_false_2 by apply not_elem_of_nil.
      rewrite filter_cons_True by done. f_equal. etransitivity; [|exact (IH Hnd 0%nat)]. done.
    + cbn [take fmap list_fmap drop]. rewrite bool_decide_eq_true_2 by apply list_elem_of_here.
      rewrite filter_cons_False by apply Hg. rewrite <- (IH Hnd n). f_equal.
      apply map_ext_in. intros e He%list_elem_of_In. rewrite (bool_decide_ext _ (ev_id e ∈ ev_id <$> take n (filter P l))); [done|].
      rewrite elem_of_cons. split; [|by right]. intros [Heq|?]; [|done]. destruct Hx. rewrite <- Heq.
      by apply list_elem_of_fmap_2.
  - rewrite bool_decide_eq_false_2 by apply Hout. rewrite filter_cons_False by done. by apply IH.
Qed.

Lemma claimed_ids producer lease (ids : list Z) (l : list EventRow) :
  ev_id <$> map (fun e => if bool_decide (ev_id e ∈ ids) then claimed_row producer lease e else e) l
  = ev_id <$> l.
Proof. induction l as [|e l IH]; [done|]. cbn. f_equal; [by case_bool_decide|exact IH]. Qed.

Lemma ids_of_map (f : EventRow -> EventRow) (l : list EventRow) :
  (forall e, ev_id (f e) = ev_id e) -> ev_id <$> l = ev_id <$> map f l.
Proof. intros Hf. induction l as [|e l IH]; [done|]. cbn. by rewrite Hf, <- IH. Qed.

(** One claim takes the oldest available events and leaves the others. *)
Lemma claim_step d locked limit producer lease :
  events_distinct d -> attempts_fit 1 d -> (1 <= lease)%Z ->
  let n := Z.to_nat limit in
  exists d', claim_events producer lease (map ev_id (picked d locked limit)) d
             = Done (returning_order (map (claimed_row producer lease) (take n (available d locked)))) d'
    /\ available d' locked = drop n (available d locked) /\ events_distinct d'
    /\ (forall m, attempts_fit (1 + m) d -> attempts_fit m d')
    /\ config d' = config d.
Proof.
  intros Hnd Hfit Hl n. rewrite (claim_events_run d locked limit producer lease Hnd Hfit).
  eexists. split; [done|]. split_and!.
  - unfold available, tenant_predicate. cbn. apply filter_after_claim; [done|].
    intros e (Hc & _). rewrite claimed_not_claimable in Hc; done.
  - unfold events_distinct. cbn. by rewrite claimed_ids.
  - intros m Hm e. cbn. intros (x & -> & Hx)%list_elem_of_fmap. specialize (Hm x Hx).
    case_bool_decide; cbn; lia.
  - done.
Qed.

(** [n] claims in a row, with what each handed out. *)
Fixpoint claim_rounds (n : nat) (locked : gset Z) (producer : str) (limit lease_seconds : Z)
  : M (list (list EventRow)) :=
  match n with
  | O => mret []
  | S n =>
      first ← claim_impl locked producer limit lease_seconds;
      rest ← claim_rounds n locked producer limit lease_seconds;
      mret (first :: rest)
  end.

(** The caller may dispatch, and its arguments are valid. *)
Definition claim_allowed (producer : str) (limit lease_seconds : Z) : Prop :=
  has_role PGOKF_DISPATCHER_ROLE = true /\ (1 <= limit <= 1000)%Z
  /\ is_blank producer = false /\ (1 <= lease_seconds <= 86400)%Z.

Lemma dispatcher_authorized d :
  has_role PGOKF_DISPATCHER_ROLE = true -> authorize_dispatcher d = Done tt d.
Proof.
  intros Hrole. unfold authorize_dispatcher, get, mbind, M_bind, authorize_dispatcher_current_user.
  assert (@is_member_of (session_backend d) PGOKF_DISPATCHER_ROLE = Ok true) as Hm.
  { unfold is_member_of. rewrite decide_True by by_decide.
    unfold pg_has_role, session_backend. by rewrite Hrole. }
  cbn [first_member]. by rewrite Hm.
Qed.

Lemma claim_allowed_run locked producer limit lease d :
  claim_allowed producer limit lease ->
  claim_impl locked producer limit lease d
  = claim_events producer lease (map ev_id (picked d locked limit)) d.
Proof.
  intros (Hrole & Hlim & Hp & Hl). unfold claim_impl, mbind, M_bind.
  rewrite dispatcher_authorized by done. unfold validate_limit, validate_claim_args.
  rewrite (proj2 (Z.leb_le 1 limit)), (proj2 (Z.leb_le limit 1000)) by lia.
  rewrite Hp, (proj2 (Z.leb_le 1 lease)), (proj2 (Z.leb_le lease 86400)) by lia. done.
Qed.

(** The table in key order: ids grow with age. *)
Definition events_ordered (d : Db) : Prop :=
  StronglySorted (fun x y => (ev_id x < ev_id y)%Z) (catalog_change_event d).

Lemma ordered_distinct d : events_ordered d -> events_distinct d.
Proof.
  unfold events_ordered, events_distinct. induction 1 as [|x l _ IH Hx]; [by apply NoDup_nil|].
  cbn. apply NoDup_cons. split; [|done]. intros (y & Heq & Hy)%list_elem_of_fmap.
  rewrite Forall_forall in Hx. specialize (Hx y Hy). lia.
Qed.

Lemma available_ordered d locked :
  events_ordered d -> StronglySorted (fun x y => (ev_id x < ev_id y)%Z) (available d locked).
Proof.
  unfold events_ordered, available. induction 1 as [|x l Hl IH Hx]; [constructor|].
  rewrite filter_cons. case_decide; [|done]. constructor; [done|].
  apply Forall_forall. intros y [_ Hy]%list_elem_of_filter. by eapply Forall_forall in Hx.
Qed.

(** The first [n] rows of a sorted list are below the others. *)
Lemma sorted_split (l : list EventRow) n x y :
  StronglySorted (fun x y => (ev_id x < ev_id y)%Z) l -> x ∈ take n l -> y ∈ drop n l ->
  (ev_id x < ev_id y)%Z.
Proof.
  intros Hs. revert n. induction Hs as [|z l _ IH Hz]; intros [|n]; cbn [take drop];
    try by intros ?%not_elem_of_nil.
  intros [->|Hx]%elem_of_cons Hy; [|by eapply IH].
  rewrite Forall_forall in Hz. apply Hz. eapply elem_of_sublist; [exact Hy|apply sublist_drop].
Qed.

(** The batches of [n] claims. *)
Lemma claim_batches n locked producer limit lease d :
  claim_allowed producer limit lease -> events_distinct d -> attempts_fit (Z.of_nat n) d ->
  let k := Z.to_nat limit in
  exists batches d', claim_rounds n locked producer limit lease d = Done batches d'
    /\ length batches = n
    /\ (forall i batch, batches !! i = Some batch ->
          batch ≡ₚ map (claimed_row producer lease) (take k (drop (i * k) (available d locked))))
    /\ concat batches ≡ₚ map (claimed_row producer lease) (take (n * k) (available d locked))
    /\ available d' locked = drop (n * k) (available d locked).
Proof.
  intros Hallow Hnd Hfit k. revert d Hnd Hfit. induction n as [|n IH]; intros d Hnd Hfit.
  { by exists [], d. }
  pose proof Hallow as (_ & _ & _ & Hl).
  destruct (claim_step d locked limit producer lease) as (d1 & Hrun1 & Hav1 & Hnd1 & Hfit1 & _);
    [done|intros e He; specialize (Hfit e He); lia|lia|].
  destruct (IH d1 Hnd1) as (batches & d' & Hrun & Hlen & Hb & Hc & Hav);
    [apply Hfit1; intros e He; specialize (Hfit e He); lia|].
  exists (returning_order (map (claimed_row producer lease) (take k (available d locked))) :: batches), d'.
  cbn [claim_rounds Nat.mul]. unfold mbind, M_bind. rewrite claim_allowed_run by done.
  rewrite Hrun1, Hrun. rewrite Hav1 in Hb, Hc, Hav. fold k in Hb, Hc, Hav. split_and!; [done|cbn; by rewrite Hlen|..].
  - intros [|i] batch; cbn; [intros [= <-]; rewrite drop_0; apply returning_perm|].
    intros Hi. rewrite (Hb i batch Hi), drop_drop. done.
  - cbn. rewrite Hc, returning_perm, <- map_app, take_take_drop. done.
  - by rewrite Hav, drop_drop.
Qed.

(** C37: Dispatch makes progress and never hands an event out twice under a
    live lease: of [n] allowed claims in a row, in a table whose rows are in the
    order of their ids and whose attempt counters have room for [n], made while the other sessions' locks
    do not change, each hands out the [limit] oldest of the events that were
    available (pending, or claimed under an expired lease, of this tenant and
    not locked elsewhere) and not yet handed out, in whatever order
    PostgreSQL returns them, each marked as claimed and none twice; what is
    left is younger than everything handed out, and enough claims deliver
    every available event. *)
Theorem claim_rounds_drain (n : nat) (locked : gset Z) (producer : str) (limit lease : Z) (d : Db) :
  claim_allowed producer limit lease -> events_ordered d -> attempts_fit (Z.of_nat n) d ->
  let k := Z.to_nat limit in
  exists batches d', claim_rounds n locked producer limit lease d = Done batches d'
    /\ length batches = n
    /\ (forall i batch, batches !! i = Some batch ->
          batch ≡ₚ map (claimed_row producer lease) (take k (drop (i * k) (available d locked))))
    /\ NoDup (ev_id <$> concat batches)
    /\ available d' locked = drop (n * k) (available d locked)
    /\ (forall e e', e ∈ concat batches -> e' ∈ available d' locked -> (ev_id e < ev_id e')%Z)
    /\ ((length (available d locked) <= n * k)%nat -> available d' locked = []).
Proof.
  intros Hallow Ho Hfit k.
  destruct (claim_batches n locked producer limit lease d Hallow (ordered_distinct d Ho) Hfit)
    as (batches & d' & Hrun & Hlen & Hb & Hc & Hav). fold k in Hb, Hc, Hav.
  exists batches, d'. split_and!; [done|done|done| |done| |].
  - rewrite Hc. assert (forall l, ev_id <$> map (claimed_row producer lease) l = ev_id <$> l) as ->.
    { intros l. symmetry. apply ids_of_map. done. }
    eapply sublist_NoDup; [exact (ordered_distinct d Ho)|].
    apply fmap_sublist. etransitivity; [apply sublist_take|apply sublist_filter].
  - intros e e' He He'. rewrite Hc in He. rewrite Hav in He'.
    apply list_elem_of_fmap in He as (x & -> & Hx). cbn.
    eapply sorted_split; [by apply available_ordered|exact Hx|exact He'].
  - intros Hn. rewrite Hav. by apply drop_ge.
Qed.

(** ** Acknowledgements *)

Lemma set_events_same d : set_events (catalog_change_event d) (event_seq d) d = d.
Proof. by destruct d. Qed.

Lemma visible_event_spec d id e :
  events_distinct d ->
  visible_event d id = Some e <->
  e ∈ catalog_change_event d /\ ev_id e = id /\ tenant_predicate d (ev_tenant e) = true.
Proof.
  intros Hnd. unfold visible_event. split.
  - intros Hh. apply head_Some_elem_of, list_elem_of_filter in Hh. tauto.
  - intros (Hin & Hid & Ht).
    destruct (filter _ _) as [|x l] eqn:E.
    + exfalso. apply (not_elem_of_nil e). rewrite <- E. by apply list_elem_of_filter.
    + cbn. f_equal. assert (x ∈ x :: l) as Hx by apply list_elem_of_here. rewrite <- E in Hx.
      apply list_elem_of_filter in Hx as [[Hxid _] Hx].
      apply list_elem_of_lookup in Hin as [i Hi]. apply list_elem_of_lookup in Hx as [j Hj].
      assert (i = j) as ->; [|congruence].
      eapply (NoDup_lookup _ _ _ (ev_id e) Hnd); rewrite list_lookup_fmap; [by rewrite Hi|].
      rewrite Hj. cbn. congruence.
Qed.

(** The row the acknowledgement of [producer] completes. *)
Definition owned (producer : str) (e : EventRow) : bool :=
  bool_decide (ev_status e = ev_claimed) && bool_decide (ev_claimed_by e = Some producer).

Lemma ack_hits_none d id producer :
  events_distinct d ->
  (forall e, visible_event d id = Some e -> owned producer e = false) ->
  forall e, e ∈ catalog_change_event d -> ack_hits d id producer e = false.
Proof.
  intros Hnd Hno e He. unfold ack_hits. destruct (bool_decide (ev_id e = id)) eqn:Eid; [|done].
  apply bool_decide_eq_true in Eid. destruct (tenant_predicate d (ev_tenant e)) eqn:Et;
    [|by rewrite andb_false_r].
  rewrite andb_true_r. apply Hno. by apply visible_event_spec.
Qed.

Lemma ack_hits_owner d id producer e :
  events_distinct d -> visible_event d id = Some e -> owned producer e = true ->
  existsb (ack_hits d id producer) (catalog_change_event d) = true
  /\ forall x, x ∈ catalog_change_event d -> ack_hits d id producer x = bool_decide (ev_id x = id).
Proof.
  intros Hnd Hv Ho. apply (visible_event_spec d id e Hnd) in Hv as Hv'.
  destruct Hv' as (Hin & Hid & Ht).
  assert (ack_hits d id producer e = true) as He.
  { unfold ack_hits. rewrite bool_decide_eq_true_2, Ht by done. cbn. by rewrite andb_true_r. }
  split; [apply existsb_exists; exists e; by rewrite <- list_elem_of_In|].
  intros x Hx. destruct (bool_decide (ev_id x = id)) eqn:Ex.
  - apply bool_decide_eq_true in Ex. assert (x = e) as ->; [|done].
    apply list_elem_of_lookup in Hin as [i Hi]. apply list_elem_of_lookup in Hx as [j Hj].
    assert (i = j) as ->; [|congruence].
    eapply (NoDup_lookup _ _ _ id Hnd); rewrite list_lookup_fmap, ?Hi, ?Hj; cbn; congruence.
  - unfold ack_hits. by rewrite Ex.
Qed.

(** C38: Acknowledging an event answers by the state of the row, and changes
    at most that row: the producer that holds the claim completes it (also
    after its lease ran out); the same acknowledgement again is a no-op that
    succeeds; another key or producer on an acknowledged event, a foreign
    claim, an unclaimed event and an unknown or invisible one are each refused
    with their own error and leave the table as it was. *)
Theorem ack_exact (id : Z) (producer key : str) (d : Db) :
  has_role PGOKF_DISPATCHER_ROLE = true -> is_blank producer = false -> is_blank key = false ->
  events_distinct d ->
  ack_impl id producer key d =
    match visible_event d id with
    | None => Fail (ack_unknown_error id)
    | Some e =>
        if owned producer e then
          Done true (set_events (map (fun x => if bool_decide (ev_id x = id)
                                               then acknowledged_row key x else x)
                                   (catalog_change_event d)) (event_seq d) d)
        else if decide (ev_status e = ev_acknowledged) then
          if bool_decide (ev_claimed_by e = Some producer) && bool_decide (ev_acceptance_key e = Some key)
          then Done true d else Fail (ack_conflict_error id)
        else if bool_decide (ev_claimed_by e = Some producer) then Fail (ack_unclaimed_error id)
        else Fail (ack_foreign_error id producer)
    end.
Proof.
  intros Hrole Hp Hk Hnd. unfold ack_impl, mbind, M_bind. rewrite dispatcher_authorized, Hp, Hk by done.
  cbn [orb]. unfold mret at 1, M_ret at 1, statement.
  assert ((exists e, visible_event d id = Some e /\ owned producer e = true)
          \/ forall e, visible_event d id = Some e -> owned producer e = false) as Hor.
  { destruct (visible_event d id) as [e|]; [|by right].
    destruct (owned producer e) eqn:Eo; [left; eauto|right; by intros ? [= <-]]. }
  destruct Hor as [(e & Hv & Ho)|Hno].
  - destruct (ack_hits_owner d id producer e Hnd Hv Ho) as [-> Hhit]. rewrite Hv, Ho.
    unfold mret, M_ret. f_equal. f_equal. apply map_ext_in. intros x Hx%list_elem_of_In. by rewrite Hhit.
  - pose proof (ack_hits_none d id producer Hnd Hno) as Hhit.
    assert (existsb (ack_hits d id producer) (catalog_change_event d) = false) as ->.
    { apply not_true_iff_false. intros (x & Hx%list_elem_of_In & Ht)%existsb_exists.
      rewrite Hhit in Ht by done. done. }
    rewrite (map_ext_in _ (fun e => e)) by (intros x Hx%list_elem_of_In; by rewrite Hhit).
    rewrite map_id, set_events_same. unfold get, ack_refusal.
    destruct (visible_event d id) as [e|]; [|done]. rewrite (Hno e) by done.
    case_decide; [by case_match|]. by case_bool_decide.
Qed.

End claims.

(** ** Witnesses *)

Definition demo_event (id : Z) (status : str) : EventRow :=
  {| ev_id := id; ev_tenant := lit "default"; ev_bundle := Some 1%Z; ev_bundle_path := lit "/b";
     ev_bundle_name := None; ev_generation := id; ev_operation := lit "refresh_bundle";
     ev_changes := summarize [] None; ev_origin := None; ev_causation_key := None;
     ev_reconciliation_key := None; ev_producer := None; ev_created_at := 0; ev_status := status;
     ev_claimed_by := None; ev_claim_expires_at := None; ev_attempts := 0;
     ev_acceptance_key := None; ev_acknowledged_at := None |}.

(** Three events, the second already acknowledged. *)
Definition demo_outbox : Db :=
  set_events [demo_event 1 ev_pending; demo_event 2 ev_acknowledged; demo_event 3 ev_pending] 3 empty_db.

Lemma claim_rounds_drain_witness :
  exists batches d', @claim_rounds demo_session demo_text 1 ∅ (lit "worker") 2 60 demo_outbox = Done batches d'
    /\ length batches = 1 /\ @available demo_session d' ∅ = [].
Proof.
  destruct (@claim_rounds_drain demo_session demo_text demo_text_laws 1 ∅ (lit "worker") 2 60 demo_outbox)
    as (batches & d' & Hrun & Hlen & _ & _ & _ & _ & Hall).
  - repeat split; try lia; by vm_compute.
  - unfold events_ordered. cbn. repeat constructor.
  - intros e He. change (catalog_change_event demo_outbox)
      with [demo_event 1 ev_pending; demo_event 2 ev_acknowledged; demo_event 3 ev_pending] in He.
    repeat (apply elem_of_cons in He as [->|He]; [by vm_compute|]). by apply not_elem_of_nil in He.
  - exists batches, d'. split_and!; [exact Hrun|exact Hlen|]. apply Hall. vm_compute. lia.
Defined.

Lemma ack_exact_witness :
  @ack_impl demo_session 1 (lit "worker") (lit "k") demo_outbox = Fail (ack_foreign_error 1 (lit "worker")).
Proof.
  rewrite (@ack_exact demo_session 1 (lit "worker") (lit "k") demo_outbox); [by vm_compute..|].
  unfold events_distinct. by_decide.
Defined.
