(* ===== verification/Relationships.v ===== *)
(** * Typed relationships ([extension/src/catalog/relationships.rs])

    The rows of a submission (parsing, duplicate rejection, canonical order
    and hash), their endpoint resolution under the no-leak rule, publication
    behind a fence, and activation with a sync.  JSON values, [f64] and the
    [Debug] text of a string are the class [RowJson]; [hash_bytes] is
    BLAKE3. *)
From stdpp Require Import prelude strings gmap list sorting.
From Stdlib Require Import Ascii ZArith Lia.
From S2P Require Import Prelude Str BTree CatalogError Security Catalog Freshness FreshnessApi.

Definition RELATION_TYPE_MAX_LEN : Z := 128.
Definition CONCEPT_ID_MAX_LEN : Z := 1024.
Definition EXTERNAL_TARGET_MAX_LEN : Z := 1024.
Definition OPAQUE_FIELD_MAX_BYTES : Z := 16384.
Definition MAX_NEIGHBOR_RESULTS : Z := 10000.
Definition MAX_RELATION_TYPE_FILTERS : Z := 256.

Definition dir_directed : str := lit "directed".
Definition dir_undirected : str := lit "undirected".
Definition DIRECTIONS : list str := [dir_directed; dir_undirected].
Definition TRAVERSAL_DIRECTIONS : list str := [lit "outbound"; lit "inbound"; lit "both"].

Definition ROW_KEYS : list str :=
  [lit "source_concept_id"; lit "relation_type"; lit "direction"; lit "target_bundle_id";
   lit "target_concept_id"; lit "external_target"; lit "source_location"; lit "confidence";
   lit "provenance"].

Definition pub_staged : str := lit "staged".
Definition pub_active : str := lit "active".
Definition pub_superseded : str := lit "superseded".

(** ** Row wire shape *)

(** [serde_json::Value], one layer deep; a number is seen through [as_i64]
    and [as_f64]. *)
Inductive row_view (V F : Type) : Type :=
| RNull
| RBool (b : bool)
| RNumber (as_i64 : option Z) (as_f64 : option F)
| RString (s : str)
| RArray (l : list V)
| RObject (m : list (str * V)).
Arguments RNull {V F}.
Arguments RBool {V F} b.
Arguments RNumber {V F} as_i64 as_f64.
Arguments RString {V F} s.
Arguments RArray {V F} l.
Arguments RObject {V F} m.

Class RowJson : Type := {
  rvalue : Type;
  f64 : Type;
  row_look : rvalue -> row_view rvalue f64;
  (** [Value::to_string] *)
  rvalue_text : rvalue -> str;
  (** [(0.0..=1.0).contains] *)
  in_unit : f64 -> bool;
  (** [f64::to_string] *)
  f64_text : f64 -> str;
  (** the [Debug] text of a [str] *)
  debug_str : str -> str;
  (** BLAKE3, in hexadecimal *)
  hash_bytes : str -> str
}.

(** [Map::get] *)
Fixpoint obj_get {V} (m : list (str * V)) (k : str) : option V :=
  match m with
  | [] => None
  | (k', v) :: m' => if decide (k = k') then Some v else obj_get m' k
  end.

Section rows.
Context `{J : RowJson}.

Record RelationshipRow : Type := {
  rr_source_concept_id : str;
  rr_relation_type : str;
  rr_direction : str;
  rr_target_bundle_id : option Z;
  rr_target_concept_id : option str;
  rr_external_target : option str;
  rr_source_location : option str;
  rr_confidence : option f64;
  rr_provenance : option str;
  rr_unresolved : bool;
  rr_cross_bundle : bool
}.

Definition row_error (index : nat) (message : str) : CatalogError :=
  invalid_parameter (lit "relationship row at index " ++ show_Z (Z.of_nat index) ++ lit ": " ++ message) [].

Abbreviation object := (list (list ascii * rvalue)).

(** The checks both text readers share. *)
Definition bounded_text (index : nat) (key : str) (max_len : Z) (text : str)
  : result str CatalogError :=
  if decide (text = []) then Err (row_error index (key ++ lit " must not be empty"))
  else if (max_len <? Z.of_nat (length text))%Z then
    Err (row_error index (key ++ lit " exceeds the " ++ show_Z max_len ++ lit "-character limit"))
  else Ok text.

Definition required_text (index : nat) (obj : object) (key : str) (max_len : Z)
  : result str CatalogError :=
  match obj_get obj key with
  | None => Err (row_error index (key ++ lit " is required"))
  | Some value =>
      match row_look value with
      | RString text => bounded_text index key max_len text
      | _ => Err (row_error index (key ++ lit " must be a string"))
      end
  end.

Definition optional_text (index : nat) (obj : object) (key : str) (max_len : Z)
  : result (option str) CatalogError :=
  match obj_get obj key with
  | None => Ok None
  | Some value =>
      match row_look value with
      | RNull => Ok None
      | RString text => rmap Some (bounded_text index key max_len text)
      | _ => Err (row_error index (key ++ lit " must be a string or null"))
      end
  end.

Definition is_namespaced (relation_type : str) : bool :=
  match split_once ":"%char relation_type with
  | Some (namespace, name) => negb (bool_decide (namespace = [])) && negb (bool_decide (name = []))
  | None => false
  end.

Definition validate_relation_type (index : nat) (relation_type : str) : result unit CatalogError :=
  if is_namespaced relation_type then Ok tt
  else Err (row_error index
              (lit "relation_type must be namespaced as <namespace>:<name>, got "
                 ++ debug_str relation_type)).

Definition opaque_field (index : nat) (obj : object) (key : str)
  : result (option str) CatalogError :=
  match obj_get obj key with
  | None => Ok None
  | Some value =>
      match row_look value with
      | RNull => Ok None
      | _ =>
          let text := rvalue_text value in
          if (OPAQUE_FIELD_MAX_BYTES <? Z.of_nat (length text))%Z then
            Err (row_error index (key ++ lit " exceeds the " ++ show_Z OPAQUE_FIELD_MAX_BYTES
                                    ++ lit "-byte limit"))
          else Ok (Some text)
      end
  end.

Definition debug_list (l : list str) : str :=
  lit "[" ++ join (lit ", ") (map debug_str l) ++ lit "]".

(** The first key that is not of the row shape. *)
Definition unsupported_key (obj : object) : option str :=
  List.find (fun key => negb (bool_decide (key ∈ ROW_KEYS))) (map fst obj).

Definition target_bundle_of (index : nat) (obj : object) : result (option Z) CatalogError :=
  match obj_get obj (lit "target_bundle_id") with
  | None => Ok None
  | Some value =>
      match row_look value with
      | RNull => Ok None
      | RNumber (Some raw) _ =>
          if (raw <=? 0)%Z then Err (row_error index (lit "target_bundle_id must be greater than 0"))
          else Ok (Some raw)
      | _ => Err (row_error index (lit "target_bundle_id must be an integer"))
      end
  end.

Definition confidence_of (index : nat) (obj : object) : result (option f64) CatalogError :=
  match obj_get obj (lit "confidence") with
  | None => Ok None
  | Some value =>
      match row_look value with
      | RNull => Ok None
      | RNumber _ (Some raw) =>
          if in_unit raw then Ok (Some raw)
          else Err (row_error index (lit "confidence must be between 0 and 1, got " ++ f64_text raw))
      | _ => Err (row_error index (lit "confidence must be a number"))
      end
  end.

Definition parse_row (index : nat) (value : rvalue) : result RelationshipRow CatalogError :=
  match row_look value with
  | RObject obj =>
      let? _ := match unsupported_key obj with
                | Some key => Err (row_error index
                    (lit "unsupported key " ++ debug_str key
                       ++ lit "; the v1 row shape allows only " ++ debug_list ROW_KEYS))
                | None => Ok tt
                end in
      let? source_concept_id := required_text index obj (lit "source_concept_id") CONCEPT_ID_MAX_LEN in
      let? relation_type := required_text index obj (lit "relation_type") RELATION_TYPE_MAX_LEN in
      let? _ := validate_relation_type index relation_type in
      let? given := optional_text index obj (lit "direction") 16 in
      let direction := default dir_directed given in
      let? _ := if bool_decide (direction ∈ DIRECTIONS) then Ok tt
                else Err (row_error index (lit "direction must be one of " ++ quoted_list DIRECTIONS
                                             ++ lit ", got " ++ debug_str direction)) in
      let? target_bundle_id := target_bundle_of index obj in
      let? target_concept_id := optional_text index obj (lit "target_concept_id") CONCEPT_ID_MAX_LEN in
      let? external_target := optional_text index obj (lit "external_target") EXTERNAL_TARGET_MAX_LEN in
      let? _ := if bool_decide (is_Some target_bundle_id) && bool_decide (target_concept_id = None)
                then Err (row_error index (lit "target_bundle_id requires target_concept_id"))
                else Ok tt in
      let? _ := if bool_decide (is_Some target_concept_id) && bool_decide (is_Some external_target)
                then Err (row_error index
                  (lit "a row names either a resolved target concept or an external target, not both"))
                else Ok tt in
      let? confidence := confidence_of index obj in
      let? source_location := opaque_field index obj (lit "source_location") in
      let? provenance := opaque_field index obj (lit "provenance") in
      Ok {| rr_source_concept_id := source_concept_id; rr_relation_type := relation_type;
            rr_direction := direction; rr_target_bundle_id := target_bundle_id;
            rr_target_concept_id := target_concept_id; rr_external_target := external_target;
            rr_source_location := source_location; rr_confidence := confidence;
            rr_provenance := provenance; rr_unresolved := false; rr_cross_bundle := false |}
  | _ => Err (row_error index (lit "each row must be a JSON object"))
  end.

(** [enumerate] and [map] with the first error winning. *)
Fixpoint parse_from (index : nat) (values : list rvalue) : result (list RelationshipRow) CatalogError :=
  match values with
  | [] => Ok []
  | value :: rest =>
      let? row := parse_row index value in
      let? rows := parse_from (S index) rest in
      Ok (row :: rows)
  end.

Definition parse_rows (rows : rvalue) (max_rows : Z) : result (list RelationshipRow) CatalogError :=
  match row_look rows with
  | RArray array =>
      if (max_rows <? Z.of_nat (length array))%Z then
        Err (invalid_parameter (lit "rows holds " ++ show_Z (Z.of_nat (length array))
                                  ++ lit " entries but the hard limit is " ++ show_Z max_rows) [])
      else parse_from 0 array
  | _ => Err (invalid_parameter (lit "rows must be a JSON array of row objects") [])
  end.

(** ** Canonical form *)

Definition CanonicalIdentity : Type :=
  (list ascii * list ascii * list ascii * option Z * option (list ascii) * option (list ascii))%type.

Definition canonical_identity (row : RelationshipRow) : CanonicalIdentity :=
  (rr_source_concept_id row, rr_relation_type row, rr_direction row, rr_target_bundle_id row,
   rr_target_concept_id row, rr_external_target row).

Fixpoint reject_duplicates_go (seen : list CanonicalIdentity) (rows : list RelationshipRow)
  : result unit CatalogError :=
  match rows with
  | [] => Ok tt
  | row :: rest =>
      if bool_decide (canonical_identity row ∈ seen) then
        Err (invalid_parameter (lit "duplicate canonical identity in rows: source "
               ++ rr_source_concept_id row ++ lit " relation " ++ rr_relation_type row) [])
      else reject_duplicates_go (canonical_identity row :: seen) rest
  end.

Definition reject_duplicates (rows : list RelationshipRow) : result unit CatalogError :=
  reject_duplicates_go [] rows.

Definition dash : str := lit "-".
Definition sep : str := ["000"%char].

Definition canonical_row_text (row : RelationshipRow) : str :=
  rr_source_concept_id row ++ sep ++ rr_relation_type row ++ sep ++ rr_direction row ++ sep
  ++ from_option show_Z dash (rr_target_bundle_id row) ++ sep
  ++ default dash (rr_target_concept_id row) ++ sep
  ++ default dash (rr_external_target row) ++ sep
  ++ from_option f64_text dash (rr_confidence row) ++ sep
  ++ default dash (rr_source_location row) ++ sep
  ++ default dash (rr_provenance row).

(** The derived order of the identities. *)
Definition row_le (a b : RelationshipRow) : bool :=
  match kcmp (canonical_identity a) (canonical_identity b) with Gt => false | _ => true end.

Definition row_hash (row : RelationshipRow) : str := hash_bytes (canonical_row_text row).

Definition canonicalize (rows : list RelationshipRow) : list (RelationshipRow * str) * str :=
  let sorted := sort_by row_le rows in
  let hashed := map (fun row => (row, row_hash row)) sorted in
  (hashed, hash_bytes (concat (map (fun '(_, h) => h ++ [nl]) hashed))).

(** ** Endpoint resolution *)

Definition with_target (bundle : option Z) (concept : option str) (unresolved cross : bool)
    (row : RelationshipRow) : RelationshipRow :=
  {| rr_source_concept_id := rr_source_concept_id row; rr_relation_type := rr_relation_type row;
     rr_direction := rr_direction row; rr_target_bundle_id := bundle;
     rr_target_concept_id := concept; rr_external_target := rr_external_target row;
     rr_source_location := rr_source_location row; rr_confidence := rr_confidence row;
     rr_provenance := rr_provenance row; rr_unresolved := unresolved; rr_cross_bundle := cross |}.

Context `{Ses : Session}.

(** Enabled, not retired, and of the session's tenant. *)
Definition visible_active (d : Db) (bundle_id : Z) : bool :=
  match bundles d !! bundle_id with
  | Some b => b_enabled b && bool_decide (b_retired_at b = None) && tenant_predicate d (b_tenant b)
  | None => false
  end.

(** A concept-only target names a concept of the source bundle. *)
Definition default_target (source_bundle_id : Z) (row : RelationshipRow) : RelationshipRow :=
  match rr_target_concept_id row, rr_target_bundle_id row with
  | Some _, None =>
      with_target (Some source_bundle_id) (rr_target_concept_id row) (rr_unresolved row)
        (rr_cross_bundle row) row
  | _, _ => row
  end.

Definition hide_invisible (d : Db) (source_bundle_id : Z) (row : RelationshipRow) : RelationshipRow :=
  let cross := match rr_target_bundle_id row with
               | Some target => negb (target =? source_bundle_id)%Z
               | None => false
               end in
  match rr_target_bundle_id row with
  | Some target =>
      if visible_active d target
      then with_target (rr_target_bundle_id row) (rr_target_concept_id row) (rr_unresolved row) cross row
      else with_target None None true cross row
  | None => with_target None (rr_target_concept_id row) (rr_unresolved row) cross row
  end.

Definition mark_absent_target (d : Db) (row : RelationshipRow) : RelationshipRow :=
  match rr_target_bundle_id row, rr_target_concept_id row with
  | Some bundle, Some concept =>
      if decide ((bundle, concept) ∈ concepts d) then row
      else with_target (rr_target_bundle_id row) (rr_target_concept_id row) true (rr_cross_bundle row) row
  | _, _ => row
  end.

Definition mark_staged_target (row : RelationshipRow) : RelationshipRow :=
  match rr_target_bundle_id row, rr_target_concept_id row with
  | Some _, Some _ =>
      with_target (rr_target_bundle_id row) (rr_target_concept_id row) true (rr_cross_bundle row) row
  | _, _ => row
  end.

Definition mark_targetless (row : RelationshipRow) : RelationshipRow :=
  match rr_target_concept_id row with
  | None => with_target (rr_target_bundle_id row) None true (rr_cross_bundle row) row
  | Some _ => row
  end.

Definition resolve_endpoints (source_bundle_id : Z) (rows : list RelationshipRow)
    (validate_concepts : bool) : M (list RelationshipRow) :=
  d ← get;
  let rows := map (default_target source_bundle_id) rows in
  let rows := map (hide_invisible d source_bundle_id) rows in
  rows ←
    (if validate_concepts then
       match List.find (fun row => negb (bool_decide ((source_bundle_id, rr_source_concept_id row) ∈ concepts d))) rows with
       | Some row => fail (invalid_parameter
           (lit "source concept " ++ rr_source_concept_id row ++ lit " does not exist in bundle "
              ++ show_Z source_bundle_id) [])
       | None => mret (map (mark_absent_target d) rows)
       end
     else mret (map mark_staged_target rows));
  mret (map mark_targetless rows).

(** ** Publications *)

(** [UPDATE ... SET state = 'superseded'] on the rows a predicate takes. *)
Definition superseded_row (p : PublicationRow) : PublicationRow :=
  {| pub_id := pub_id p; pub_tenant := pub_tenant p; pub_producer := pub_producer p;
     pub_bundle := pub_bundle p; pub_bundle_path := pub_bundle_path p;
     pub_generation := pub_generation p; pub_expected := pub_expected p;
     pub_activated := pub_activated p; pub_token := pub_token p; pub_set_hash := pub_set_hash p;
     pub_idempotency_key := pub_idempotency_key p; pub_manifest_hash := pub_manifest_hash p;
     pub_state := pub_superseded; pub_row_count := pub_row_count p;
     pub_created_at := pub_created_at p; pub_activated_at := pub_activated_at p;
     pub_updated_at := now |}.

Definition supersede_where (hit : PublicationRow -> bool) : M unit :=
  modify (fun d => set_publications
    (map (fun p => if hit p then superseded_row p else p) (relationship_publication d))
    (relationship d) (publication_seq d) d).

Definition activated_row (generation : Z) (p : PublicationRow) : PublicationRow :=
  {| pub_id := pub_id p; pub_tenant := pub_tenant p; pub_producer := pub_producer p;
     pub_bundle := pub_bundle p; pub_bundle_path := pub_bundle_path p;
     pub_generation := pub_generation p; pub_expected := pub_expected p;
     pub_activated := Some generation; pub_token := pub_token p; pub_set_hash := pub_set_hash p;
     pub_idempotency_key := pub_idempotency_key p; pub_manifest_hash := pub_manifest_hash p;
     pub_state := pub_active; pub_row_count := pub_row_count p;
     pub_created_at := pub_created_at p; pub_activated_at := Some now; pub_updated_at := now |}.

(** [DELETE] of publications; their rows cascade. *)
Definition delete_publications (hit : PublicationRow -> bool) : M unit :=
  modify (fun d =>
    let gone := map pub_id (List.filter hit (relationship_publication d)) in
    set_publications (filter (fun p => hit p = false) (relationship_publication d))
      (filter (fun r => rl_publication r ∉ gone) (relationship d)) (publication_seq d) d).

Definition aged_superseded (p : PublicationRow) : bool :=
  bool_decide (pub_state p = pub_superseded) && (pub_updated_at p <? days_ago 30)%Z.

Definition prune_aged_superseded (source_bundle_id : Z) : M unit :=
  delete_publications (fun p =>
    (bool_decide (pub_bundle p = Some source_bundle_id) || bool_decide (pub_bundle p = None))
    && aged_superseded p).

Definition prune_aged_detached_superseded : M unit :=
  delete_publications (fun p => bool_decide (pub_bundle p = None) && aged_superseded p).

(** *** Activation with a sync *)

Definition is_attempt (bundle_id generation : Z) (p : PublicationRow) : bool :=
  bool_decide (pub_bundle p = Some bundle_id) && bool_decide (pub_state p = pub_staged)
  && (pub_expected p =? generation)%Z.

(** [row_number() OVER (PARTITION BY tenant_id, producer ORDER BY
    publication_generation DESC) = 1]; the generations of one scope differ
    ([relationship_publication_uq]). *)
Definition is_winner (attempts : list PublicationRow) (p : PublicationRow) : bool :=
  forallb (fun q => negb (bool_decide (pub_tenant q = pub_tenant p /\ pub_producer q = pub_producer p))
                    || (pub_generation q <=? pub_generation p)%Z) attempts.

(** The one statement that activates the winners and supersedes the rest; it
    returns the winners' ids. *)
Definition activate_attempts (bundle_id generation : Z) : M (list Z) :=
  statement (fun d =>
    let attempts := List.filter (is_attempt bundle_id generation) (relationship_publication d) in
    Some (map pub_id (List.filter (is_winner attempts) attempts),
          set_publications
            (map (fun p => if is_attempt bundle_id generation p
                           then if is_winner attempts p then activated_row generation p
                                else superseded_row p
                           else p) (relationship_publication d))
            (relationship d) (publication_seq d) d)).

Definition with_unresolved (u : bool) (r : RelationRow) : RelationRow :=
  {| rl_publication := rl_publication r; rl_ordinal := rl_ordinal r; rl_tenant := rl_tenant r;
     rl_source_bundle := rl_source_bundle r; rl_source_concept := rl_source_concept r;
     rl_type := rl_type r; rl_direction := rl_direction r; rl_target_bundle := rl_target_bundle r;
     rl_target_concept := rl_target_concept r; rl_external_target := rl_external_target r;
     rl_location := rl_location r; rl_confidence := rl_confidence r; rl_unresolved := u;
     rl_cross_bundle := rl_cross_bundle r; rl_provenance := rl_provenance r; rl_hash := rl_hash r |}.

(** Re-resolution of the declared targets of the activated rows. *)
Definition re_resolve (activated : list Z) : M unit :=
  modify (fun d => set_publications (relationship_publication d)
    (map (fun r =>
       if bool_decide (rl_publication r ∈ activated) then
         match rl_target_bundle r, rl_target_concept r with
         | Some bundle, Some concept =>
             with_unresolved (negb (bool_decide ((bundle, concept) ∈ concepts d))) r
         | _, _ => r
         end
       else r) (relationship d)) (publication_seq d) d).

Definition quarantine_absent_sources (activated : list Z) : M unit :=
  modify (fun d => set_publications (relationship_publication d)
    (filter (fun r => ~ (rl_publication r ∈ activated
                         /\ (rl_source_bundle r, rl_source_concept r) ∉ concepts d)) (relationship d))
    (publication_seq d) d).

Definition is_active_of (bundle_id : Z) (p : PublicationRow) : bool :=
  bool_decide (pub_bundle p = Some bundle_id) && bool_decide (pub_state p = pub_active).

Definition activate_staged (bundle_id catalog_generation : Z) : M bool :=
  d ← get;
  let had_coverage := existsb (is_active_of bundle_id) (relationship_publication d) in
  supersede_where (is_active_of bundle_id) ;;
  supersede_where (fun p => bool_decide (pub_bundle p = Some bundle_id)
                            && bool_decide (pub_state p = pub_staged)
                            && (pub_expected p <? catalog_generation)%Z) ;;
  activated ← activate_attempts bundle_id catalog_generation;
  (match activated with
   | [] => mret tt
   | _ => re_resolve activated ;; quarantine_absent_sources activated ;;
          clear_relationship_coverage_missing bundle_id
   end) ;;
  prune_aged_superseded bundle_id ;;
  mret (had_coverage && bool_decide (activated = [])).

(** *** Publishing *)

Definition no_fence_error (producer : str) (bundle_id : Z) : CatalogError :=
  invalid_parameter (lit "no publication fence for producer " ++ producer ++ lit " on bundle "
    ++ show_Z bundle_id ++ lit "; issue one with pgokf.issue_publication_fence first") [].

Definition checked_fence (tenant_id producer : str) (source_bundle_id publication_generation : Z)
    (fencing_token : Z) : M FenceRow :=
  d ← get;
  fence ← lift (ok_or (no_fence_error producer source_bundle_id)
                  (publication_fence d !! (tenant_id, producer, source_bundle_id)));
  if negb (is_live fence) || negb (fe_token fence =? fencing_token)%Z
  then fail (no_live_fence_error producer source_bundle_id fencing_token)
  else if negb (fe_target_generation fence =? publication_generation)%Z
  then fail (invalid_parameter (lit "publication_generation " ++ show_Z publication_generation
         ++ lit " does not match the live fence's target generation "
         ++ show_Z (fe_target_generation fence) ++ lit "; re-issue the fence for this publication") [])
  else mret fence.

(** [current + 1] is a [bigint] the source does not expect to overflow. *)
Definition activation_mode (expected current : Z) : result bool CatalogError :=
  if (expected =? current)%Z then Ok true
  else if (expected =? current + 1)%Z then Ok false
  else Err (invalid_parameter (lit "expected_catalog_generation " ++ show_Z expected
         ++ lit " does not match the bundle's current catalog generation " ++ show_Z current
         ++ lit " (activate) or its next generation " ++ show_Z (current + 1)
         ++ lit " (stage for the pending refresh); re-read the catalog and retry") []).

Definition existing_publication (d : Db) (tenant_id producer : str) (source_bundle_id generation : Z)
  : option PublicationRow :=
  List.find (fun p => bool_decide (pub_tenant p = tenant_id) && bool_decide (pub_producer p = producer)
                      && bool_decide (pub_bundle p = Some source_bundle_id)
                      && (pub_generation p =? generation)%Z) (relationship_publication d).

Definition supersede_active (tenant_id producer : str) (source_bundle_id : Z) : M unit :=
  supersede_where (fun p => bool_decide (pub_tenant p = tenant_id) && bool_decide (pub_producer p = producer)
                            && is_active_of source_bundle_id p).

Definition insert_publication (tenant_id producer : str) (source_bundle_id : Z) (path : str)
    (generation expected token : Z) (set_hash : str) (manifest_hash : option str) (activate : bool)
    (row_count : Z) : M Z :=
  statement (fun d =>
    let id := (publication_seq d + 1)%Z in
    Some (id, set_publications
      (relationship_publication d ++
        [{| pub_id := id; pub_tenant := tenant_id; pub_producer := producer;
            pub_bundle := Some source_bundle_id; pub_bundle_path := path;
            pub_generation := generation; pub_expected := expected;
            pub_activated := if activate then Some expected else None; pub_token := token;
            pub_set_hash := set_hash; pub_idempotency_key := set_hash;
            pub_manifest_hash := manifest_hash;
            pub_state := if activate then pub_active else pub_staged; pub_row_count := row_count;
            pub_created_at := now; pub_activated_at := if activate then Some now else None;
            pub_updated_at := now |}]) (relationship d) id d)).

Definition stored_row (publication_id : Z) (tenant_id : str) (source_bundle_id : Z) (ordinal : nat)
    (hashed : RelationshipRow * str) : RelationRow :=
  let '(row, h) := hashed in
  {| rl_publication := publication_id; rl_ordinal := Z.min (Z.of_nat ordinal) i32_max;
     rl_tenant := tenant_id; rl_source_bundle := source_bundle_id;
     rl_source_concept := rr_source_concept_id row; rl_type := rr_relation_type row;
     rl_direction := rr_direction row; rl_target_bundle := rr_target_bundle_id row;
     rl_target_concept := rr_target_concept_id row; rl_external_target := rr_external_target row;
     rl_location := rr_source_location row; rl_confidence := f64_text <$> rr_confidence row;
     rl_unresolved := rr_unresolved row; rl_cross_bundle := rr_cross_bundle row;
     rl_provenance := rr_provenance row; rl_hash := h |}.

Definition insert_rows (publication_id : Z) (tenant_id : str) (source_bundle_id : Z)
    (hashed_rows : list (RelationshipRow * str)) : M unit :=
  modify (fun d => set_publications (relationship_publication d)
    (relationship d ++ imap (stored_row publication_id tenant_id source_bundle_id) hashed_rows)
    (publication_seq d) d).

Definition load_publication_info (publication_id : Z) : M PublicationRow :=
  d ← get;
  lift (ok_or (internal (lit "relationship publication vanished after write") [])
          (List.find (fun p => (pub_id p =? publication_id)%Z) (relationship_publication d))).

Definition set_conflict_error (producer : str) (source_bundle_id generation : Z) : CatalogError :=
  duplicate_path (lit "publication (" ++ producer ++ lit ", bundle " ++ show_Z source_bundle_id
    ++ lit ", generation " ++ show_Z generation
    ++ lit ") already exists with a different relationship set; choose a new publication_generation (re-issue the fence)") [].

(** [max_relationship_rows] is the setting [pgokf.max_relationship_rows]. *)
Definition replace_relationships_impl (max_relationship_rows : Z) (producer : str)
    (source_bundle_id publication_generation expected_catalog_generation fencing_token : Z)
    (rows : rvalue) : M PublicationRow :=
  authorize_user Ingest ;;
  lift (validate_producer producer) ;;
  (if (publication_generation <=? 0)%Z
   then fail (invalid_parameter (lit "publication_generation must be greater than 0, got "
                                   ++ show_Z publication_generation) [])
   else mret tt) ;;
  (if (expected_catalog_generation <? 0)%Z
   then fail (invalid_parameter (lit "expected_catalog_generation must be at least 0, got "
                                   ++ show_Z expected_catalog_generation) [])
   else mret tt) ;;
  enforce_tenant source_bundle_id ;;
  parsed ← lift (parse_rows rows max_relationship_rows);
  lift (reject_duplicates parsed) ;;
  stored_path ← bundle_path source_bundle_id;
  d ← get;
  b ← lift (ok_or (unknown_bundle_error source_bundle_id) (bundles d !! source_bundle_id));
  fence ← checked_fence (b_tenant b) producer source_bundle_id publication_generation fencing_token;
  activate ← lift (activation_mode expected_catalog_generation (b_catalog_generation b));
  resolved ← resolve_endpoints source_bundle_id parsed activate;
  let '(hashed_rows, set_hash) := canonicalize resolved in
  d ← get;
  match existing_publication d (b_tenant b) producer source_bundle_id publication_generation with
  | Some existing =>
      if decide (pub_set_hash existing = set_hash) then load_publication_info (pub_id existing)
      else fail (set_conflict_error producer source_bundle_id publication_generation)
  | None =>
      (if (activate : bool) then supersede_active (b_tenant b) producer source_bundle_id else mret tt) ;;
      publication_id ← insert_publication (b_tenant b) producer source_bundle_id stored_path
        publication_generation expected_catalog_generation fencing_token set_hash
        (fe_manifest_hash fence) activate (Z.min (Z.of_nat (length hashed_rows)) i32_max);
      insert_rows publication_id (b_tenant b) source_bundle_id hashed_rows ;;
      (if (activate : bool)
       then clear_relationship_coverage_missing source_bundle_id ;; prune_aged_superseded source_bundle_id
       else mret tt) ;;
      load_publication_info publication_id
  end.

End rows.
