(* ===== verification/Lifecycle.v ===== *)
(** * Bundle lifecycle ([extension/src/catalog/admin.rs], the tail of
      [extension/src/catalog/sync.rs])

    Registration, refresh, enabling, retirement and removal of bundles, each
    one transaction that moves the catalog generation, the outbox, the
    freshness rows and the audit trail together. *)
From stdpp Require Import prelude strings gmap list sorting.
From Stdlib Require Import Ascii ZArith Lia.
From S2P Require Import Prelude Str BTree CatalogError Security Catalog Freshness FreshnessApi Outbox Relationships.

(** [BundleInfo]: the projection of a bundle row. *)
Record BundleInfo : Type := {
  bi_id : Z;
  bi_path : str;
  bi_name : option str;
  bi_okf_version : option str;
  bi_file_count : Z;
  bi_last_synced_at : option Z;
  bi_enabled : bool
}.

Definition bundle_info (id : Z) (b : Bundle) : BundleInfo :=
  {| bi_id := id; bi_path := b_path b; bi_name := b_name b; bi_okf_version := b_okf_version b;
     bi_file_count := b_file_count b; bi_last_synced_at := b_last_synced_at b;
     bi_enabled := b_enabled b |}.

(** A bundle row with its lifecycle columns replaced. *)
Definition with_lifecycle (enabled : bool) (retired_at : option Z) (generation : Z) (b : Bundle)
  : Bundle :=
  {| b_path := b_path b; b_name := b_name b; b_okf_version := b_okf_version b;
     b_file_count := b_file_count b; b_last_synced_at := b_last_synced_at b;
     b_sync_hash := b_sync_hash b; b_enabled := enabled; b_tenant := b_tenant b;
     b_retired_at := retired_at; b_catalog_generation := generation; b_source_type := b_source_type b |}.

Definition with_sync (file_count : Z) (synced_at : Z) (sync_hash : str) (okf_version : option str)
    (generation : Z) (b : Bundle) : Bundle :=
  {| b_path := b_path b; b_name := b_name b; b_okf_version := okf_version;
     b_file_count := file_count; b_last_synced_at := Some synced_at; b_sync_hash := Some sync_hash;
     b_enabled := b_enabled b; b_tenant := b_tenant b; b_retired_at := b_retired_at b;
     b_catalog_generation := generation; b_source_type := b_source_type b |}.

Section lifecycle.
Context `{Ses : Session, PT : PgText, J : RowJson}.

(** ** Shared steps of [admin.rs] *)

Definition select_bundle_path (bundle_id : Z) : M (option str) :=
  d ← get; mret (b_path <$> bundles d !! bundle_id).

Definition catalog_generation_of (bundle_id : Z) : M Z :=
  d ← get;
  get_one (lit "failed to read bundle catalog generation")
    (b_catalog_generation <$> bundles d !! bundle_id).

(** [UPDATE pgokf.bundles SET ..., catalog_generation = catalog_generation + 1
    WHERE id = $1 RETURNING ...]. *)
Definition update_lifecycle (bundle_id : Z) (f : Z -> Bundle -> Bundle) : M (option BundleInfo) :=
  statement (fun d =>
    match bundles d !! bundle_id with
    | None => Some (None, d)
    | Some b =>
        generation ← bigint (b_catalog_generation b + 1);
        let b' := f generation b in
        Some (Some (bundle_info bundle_id b'),
              set_bundles (<[bundle_id := b']> (bundles d)) (bundle_seq d) d)
    end).

Definition emit_state_change_event (bundle_id : Z) (operation : str) (catalog_generation : Z) : M Z :=
  event_id ← record_event bundle_id operation catalog_generation [] default_context None;
  evaluate_dependencies bundle_id event_id catalog_generation true [] false None ;;
  mret event_id.

(** The event snapshots the bundle's identity and detaches when it goes. *)
Definition detached_event (bundle_id : Z) (e : EventRow) : EventRow :=
  if decide (ev_bundle e = Some bundle_id) then
    {| ev_id := ev_id e; ev_tenant := ev_tenant e; ev_bundle := None;
       ev_bundle_path := ev_bundle_path e; ev_bundle_name := ev_bundle_name e;
       ev_generation := ev_generation e; ev_operation := ev_operation e; ev_changes := ev_changes e;
       ev_origin := ev_origin e; ev_causation_key := ev_causation_key e;
       ev_reconciliation_key := ev_reconciliation_key e; ev_producer := ev_producer e;
       ev_created_at := ev_created_at e; ev_status := ev_status e; ev_claimed_by := ev_claimed_by e;
       ev_claim_expires_at := ev_claim_expires_at e; ev_attempts := ev_attempts e;
       ev_acceptance_key := ev_acceptance_key e; ev_acknowledged_at := ev_acknowledged_at e |}
  else e.

Definition detached_publication (bundle_id : Z) (p : PublicationRow) : PublicationRow :=
  if decide (pub_bundle p = Some bundle_id) then
    {| pub_id := pub_id p; pub_tenant := pub_tenant p; pub_producer := pub_producer p;
       pub_bundle := None; pub_bundle_path := pub_bundle_path p;
       pub_generation := pub_generation p; pub_expected := pub_expected p;
       pub_activated := pub_activated p; pub_token := pub_token p; pub_set_hash := pub_set_hash p;
       pub_idempotency_key := pub_idempotency_key p; pub_manifest_hash := pub_manifest_hash p;
       pub_state := pub_state p; pub_row_count := pub_row_count p;
       pub_created_at := pub_created_at p; pub_activated_at := pub_activated_at p;
       pub_updated_at := pub_updated_at p |}
  else p.

(** [DELETE FROM pgokf.bundles WHERE id = $1] with its cascades: freshness
    rows, overrides, dependencies, fences and concepts go with the bundle;
    events and publications are kept without it. *)
Definition cascade_delete (bundle_id : Z) (d : Db) : Db :=
  {| bundles := delete bundle_id (bundles d);
     bundle_freshness := delete bundle_id (bundle_freshness d);
     concept_freshness := filter (fun '((id, _, _), _) => id <> bundle_id) (concept_freshness d);
     freshness_dependency :=
       filter (fun r => dep_source r <> bundle_id /\ dep_target r <> bundle_id) (freshness_dependency d);
     publication_fence := filter (fun '((_, _, id), _) => id <> bundle_id) (publication_fence d);
     catalog_change_event := map (detached_event bundle_id) (catalog_change_event d);
     relationship_publication := map (detached_publication bundle_id) (relationship_publication d);
     relationship := relationship d;
     concepts := filter (fun c => c.1 <> bundle_id) (concepts d);
     sync_log := sync_log d; config := config d; bundle_seq := bundle_seq d;
     dependency_seq := dependency_seq d; event_seq := event_seq d;
     publication_seq := publication_seq d; log_seq := log_seq d |}.

Definition delete_bundle (bundle_id : Z) : M (option BundleInfo) :=
  statement (fun d =>
    match bundles d !! bundle_id with
    | None => Some (None, d)
    | Some b => Some (Some (bundle_info bundle_id b), cascade_delete bundle_id d)
    end).

(** ** Reads *)

Definition list_bundles_impl : M (list BundleInfo) :=
  authorize_user Search ;;
  d ← get;
  mret (map (fun '(id, b) => bundle_info id b)
          (sort_by (fun x y => (x.1 <=? y.1)%Z)
             (filter (fun '(_, b) => b_retired_at b = None) (map_to_list (bundles d))))).

Definition bundle_info_impl (bundle_id : Z) : M (option BundleInfo) :=
  authorize_user Search ;;
  d ← get;
  mret (bundle_info bundle_id <$> bundles d !! bundle_id).

(** ** Mutations *)

Definition unregister_bundle_impl (bundle_id : Z) : M BundleInfo :=
  authorize_user Ingest ;;
  enforce_tenant bundle_id ;;
  found ← select_bundle_path bundle_id;
  stored_path ← lift (ok_or (unknown_bundle_error bundle_id) found);
  generation ← catalog_generation_of bundle_id;
  event_id ← record_event bundle_id (lit "unregister_bundle") generation [] default_context None;
  dependents ← departing_dependents bundle_id;
  gone ← delete_bundle bundle_id;
  removed ← lift (ok_or (unknown_bundle_error bundle_id) gone);
  invalidate_departing_dependents dependents ;;
  prune_aged_detached_superseded ;;
  d ← get;
  audit_record bundle_id stored_path (lit "unregister") None None
    (cfg_sync_log_retention_days (config d)) (Some event_id) ;;
  mret removed.

Definition set_bundle_enabled_impl (bundle_id : Z) (enabled : bool) : M BundleInfo :=
  authorize_user Ingest ;;
  enforce_tenant bundle_id ;;
  found ← select_bundle_path bundle_id;
  lift (ok_or (unknown_bundle_error bundle_id) found) ;;
  updated ← update_lifecycle bundle_id (fun g b => with_lifecycle enabled (b_retired_at b) g b);
  info ← lift (ok_or (unknown_bundle_error bundle_id) updated);
  (if enabled then mret tt else transition_bundle bundle_id Disable) ;;
  generation ← catalog_generation_of bundle_id;
  emit_state_change_event bundle_id
    (if enabled then lit "enable_bundle" else lit "disable_bundle") generation ;;
  mret info.

Definition retire_bundle_impl (bundle_id : Z) : M BundleInfo :=
  authorize_user Ingest ;;
  enforce_tenant bundle_id ;;
  found ← select_bundle_path bundle_id;
  lift (ok_or (unknown_bundle_error bundle_id) found) ;;
  updated ← update_lifecycle bundle_id
    (fun g b => with_lifecycle (b_enabled b) (coalesce (b_retired_at b) (Some now)) g b);
  info ← lift (ok_or (unknown_bundle_error bundle_id) updated);
  transition_bundle bundle_id Retire ;;
  generation ← catalog_generation_of bundle_id;
  emit_state_change_event bundle_id (lit "retire_bundle") generation ;;
  mret info.

Definition unretire_bundle_impl (bundle_id : Z) : M BundleInfo :=
  authorize_user Ingest ;;
  enforce_tenant bundle_id ;;
  found ← select_bundle_path bundle_id;
  lift (ok_or (unknown_bundle_error bundle_id) found) ;;
  updated ← update_lifecycle bundle_id (fun g b => with_lifecycle (b_enabled b) None g b);
  info ← lift (ok_or (unknown_bundle_error bundle_id) updated);
  transition_bundle bundle_id Unretire ;;
  generation ← catalog_generation_of bundle_id;
  emit_state_change_event bundle_id (lit "unretire_bundle") generation ;;
  mret info.

(** Retired before [now() - older_than]; the caller's interval enters as that
    instant. *)
Definition purgeable (cutoff : Z) (b : Bundle) : bool :=
  match b_retired_at b with Some t => (t <? cutoff)%Z | None => false end.

Definition select_purgeable_bundles (cutoff : Z) : M (list (Z * str)) :=
  d ← get;
  mret (map (fun '(id, b) => (id, b_path b))
          (sort_by (fun x y => (x.1 <=? y.1)%Z)
             (filter (fun '(_, b) => purgeable cutoff b = true
                                     /\ tenant_predicate d (b_tenant b) = true)
                (map_to_list (bundles d))))).

Definition delete_bundle_row_if_eligible (bundle_id cutoff : Z) : M bool :=
  statement (fun d =>
    match bundles d !! bundle_id with
    | Some b => if purgeable cutoff b then Some (true, cascade_delete bundle_id d) else Some (false, d)
    | None => Some (false, d)
    end).

(** One candidate of the purge; whether it went. *)
Definition purge_one (cutoff retention_days : Z) (candidate : Z * str) : M bool :=
  let '(bundle_id, stored_path) := candidate in
  d ← get;
  let still_eligible := match bundles d !! bundle_id with
                        | Some b => purgeable cutoff b
                        | None => false
                        end in
  if negb still_eligible then mret false
  else
    generation ← catalog_generation_of bundle_id;
    event_id ← record_event bundle_id (lit "purge_bundle") generation [] default_context None;
    dependents ← departing_dependents bundle_id;
    gone ← delete_bundle_row_if_eligible bundle_id cutoff;
    if (gone : bool) then
      invalidate_departing_dependents dependents ;;
      prune_aged_detached_superseded ;;
      audit_record bundle_id stored_path (lit "unregister") None None retention_days (Some event_id) ;;
      mret true
    else mret false.

Fixpoint purge_loop (cutoff retention_days : Z) (candidates : list (Z * str)) (purged : Z) : M Z :=
  match candidates with
  | [] => mret purged
  | candidate :: rest =>
      gone ← purge_one cutoff retention_days candidate;
      purge_loop cutoff retention_days rest (if (gone : bool) then (purged + 1)%Z else purged)
  end.

Definition purge_retired_impl (cutoff : Z) : M Z :=
  authorize_user Register ;;
  enforce_session_tenant ;;
  d ← get;
  let retention_days := cfg_sync_log_retention_days (config d) in
  candidates ← select_purgeable_bundles cutoff;
  purge_loop cutoff retention_days candidates 0.

(** ** The tail of a sync *)

(** What the projection wrote to [pgokf.concepts]: the removed identities go,
    the staged ones are present. *)
Definition write_concepts (bundle_id : Z) (removed_ids : list str) (staged : list Staged) : M unit :=
  modify (fun d => set_concepts
    (filter (fun c => ~ (c.1 = bundle_id /\ c.2 ∈ removed_ids)) (concepts d)
     ∪ list_to_set (map (fun s => (bundle_id, sg_id s)) staged)) d).

Definition update_bundle_row (bundle_id : Z) (sync_hash : str) (okf_version : option str) : M Z :=
  updated ← statement (fun d =>
    match bundles d !! bundle_id with
    | None => Some (None, d)
    | Some b =>
        generation ← bigint (b_catalog_generation b + 1);
        let file_count := Z.of_nat (size (filter (fun c => c.1 = bundle_id) (concepts d))) in
        Some (Some generation,
              set_bundles (<[bundle_id := with_sync file_count now sync_hash okf_version generation b]>
                             (bundles d)) (bundle_seq d) d)
    end);
  get_one (lit "failed to update bundle sync state") updated.

(** The stored projection a sync compared with, the staged concepts and what
    was removed. *)
Record SyncWrite : Type := {
  sd_hashes : hashmap;
  sd_ids : hashmap;
  sd_staged : list Staged;
  sd_removed_paths : list str;
  sd_removed_ids : list str
}.

Definition record_event_and_evaluate (bundle_id : Z) (delta : SyncWrite) (context : ChangeContext)
    (catalog_generation : Z) (sync_hash : str) (relationship_coverage_missing : bool) : M Z :=
  let changes := build_changes (sd_hashes delta) (sd_ids delta) (sd_staged delta)
                   (sd_removed_paths delta) in
  event_id ← record_event bundle_id (operation_for_sync context) catalog_generation changes context
               (Some sync_hash);
  initialize_bundle bundle_id catalog_generation sync_hash context ;;
  (if relationship_coverage_missing then mark_relationship_coverage_missing bundle_id else mret tt) ;;
  evaluate_dependencies bundle_id event_id catalog_generation false changes (is_truncated changes)
    (cx_causation_key context) ;;
  d ← get;
  prune_events (cfg_change_event_retention_days (config d)) ;;
  mret event_id.

(** The catalog writes of one accepted sync after the projection, with the
    five counters of its report. *)
Definition sync_tail (bundle_id : Z) (path op : str) (delta : SyncWrite) (context : ChangeContext)
    (sync_hash : str) (okf_version : option str) (counts : Z * Z * Z * Z * Z) : M Z :=
  write_concepts bundle_id (sd_removed_ids delta) (sd_staged delta) ;;
  catalog_generation ← update_bundle_row bundle_id sync_hash okf_version;
  coverage_missing ← activate_staged bundle_id catalog_generation;
  event_id ← record_event_and_evaluate bundle_id delta context catalog_generation sync_hash
               coverage_missing;
  d ← get;
  audit_record bundle_id path op (Some counts) (Some sync_hash)
    (cfg_sync_log_retention_days (config d)) (Some event_id) ;;
  mret event_id.

(** ** Registration and refresh *)

(** [INSERT INTO pgokf.bundles (...) VALUES (pgokf_private.effective_tenant(),
    ...) RETURNING id], under [UNIQUE (tenant_id, path)]. *)
Definition insert_bundle (path : str) (name : option str) (source_type : str) : M Z :=
  statement (fun d =>
    if bool_decide (map_Forall (fun _ b => ~ (b_tenant b = effective_tenant /\ b_path b = path)) (bundles d))
    then
      let id := (bundle_seq d + 1)%Z in
      Some (id, set_bundles
        (<[id := {| b_path := path; b_name := name; b_okf_version := None;
                    b_file_count := 0; b_last_synced_at := None; b_sync_hash := None;
                    b_enabled := true; b_tenant := effective_tenant; b_retired_at := None;
                    b_catalog_generation := 0; b_source_type := source_type |}]> (bundles d)) id d)
    else None).

Definition insert_bundle_row (canonical_path : str) (name : option str) : M Z :=
  insert_bundle canonical_path name (lit "filesystem").

Definition already_registered_error (path : str) : CatalogError :=
  duplicate_path (lit "bundle path " ++ path
    ++ lit " is already registered; use pgokf.refresh_bundle") [].

(** Registration of a root that resolved to [canonical_path] and parsed to
    [delta]. *)
Definition register_bundle_tail (canonical_path : str) (name : option str) (delta : SyncWrite)
    (context : ChangeContext) (sync_hash : str) (okf_version : option str)
    (counts : Z * Z * Z * Z * Z) : M Z :=
  authorize_user Ingest ;;
  d ← get;
  (if bool_decide (map_Forall (fun _ b => ~ (b_tenant b = effective_tenant /\ b_path b = canonical_path))
                     (bundles d))
   then mret tt else fail (already_registered_error canonical_path)) ;;
  bundle_id ← insert_bundle_row canonical_path name;
  sync_tail bundle_id canonical_path (lit "register") delta context sync_hash okf_version counts ;;
  mret bundle_id.

(** A content-sourced bundle has no root to refresh from. *)
Definition content_refresh_error (bundle_id : Z) : CatalogError :=
  invalid_parameter (lit "bundle " ++ show_Z bundle_id ++ lit " is content-sourced; content bundles are re-synced by calling pgokf.register_bundle_content, not pgokf.refresh_bundle") [].

Definition refresh_bundle_tail (bundle_id : Z) (delta : SyncWrite) (context : ChangeContext)
    (sync_hash : str) (okf_version : option str) (counts : Z * Z * Z * Z * Z) : M unit :=
  authorize_user Ingest ;;
  enforce_tenant bundle_id ;;
  d ← get;
  b ← lift (ok_or (unknown_bundle_error bundle_id) (bundles d !! bundle_id));
  (if bool_decide (b_source_type b = lit "content") then fail (content_refresh_error bundle_id) else mret tt) ;;
  sync_tail bundle_id (b_path b) (lit "refresh") delta context sync_hash okf_version counts ;;
  mret tt.

End lifecycle.
