(* ===== verification/Content.v ===== *)
(** * Content bundles ([extension/src/catalog/content.rs])

    A bundle registered from byte arrays instead of a directory: the checks
    on the arrays, the synthetic key, and the catalog writes of a call that
    creates the bundle or resynchronizes it. *)
From stdpp Require Import prelude strings gmap list.
From Stdlib Require Import Ascii ZArith Lia.
From S2P Require Import Prelude Str OkfPath Package Discover SyncDelta CatalogError Security Catalog Freshness FreshnessApi Outbox Relationships Lifecycle.

Definition CONTENT_PATH_PREFIX : str := lit "content:".
Definition content_path_key (name : str) : str := CONTENT_PATH_PREFIX ++ name.

(** Whether a component leaves the bundle; POSIX has no prefix components. *)
Definition escapes (c : component) : bool :=
  match c with ParentDir | RootDir => true | CurDir | Normal _ => false end.

Definition validate_content_path (path : str) : result unit CatalogError :=
  if bool_decide (path = []) then Err (invalid_parameter (lit "content path must not be empty") [])
  else if contains_char nul path then
    Err (invalid_parameter (lit "content path must not contain NUL bytes") [])
  else
    let unsafe_path := existsb escapes (components path) in
    let unnormalized :=
      existsb (fun segment => bool_decide (segment = []) || bool_decide (segment = [dot]))
        (split_on slash path) in
    if unsafe_path || unnormalized then
      Err (invalid_parameter
             (lit "content path is not a safe, normalized bundle-relative path: " ++ path) path)
    else Ok tt.

(** The two ceilings, [pgokf.max_bundle_files] and [pgokf.max_file_bytes]. *)
Record ContentLimits : Type := {
  max_bundle_files : nat;
  max_content_bytes : nat
}.

Fixpoint validate_contents (limits : ContentLimits) (l : list (str * str)) : result unit CatalogError :=
  match l with
  | [] => Ok tt
  | (path, content) :: rest =>
      let? _ := validate_content_path path in
      if max_content_bytes limits <? length content then
        Err (invalid_parameter
               (lit "content for " ++ path ++ lit " is " ++ show_Z (Z.of_nat (length content))
                ++ lit " bytes, exceeding the pgokf.max_file_bytes ceiling of "
                ++ show_Z (Z.of_nat (max_content_bytes limits))) path)
      else validate_contents limits rest
  end.

Definition validate_arrays (limits : ContentLimits) (paths contents : list str) : result unit CatalogError :=
  if negb (length paths =? length contents) then
    Err (invalid_parameter
           (lit "paths and contents must have the same length (got " ++ show_Z (Z.of_nat (length paths))
            ++ lit " paths, " ++ show_Z (Z.of_nat (length contents)) ++ lit " contents)") [])
  else if max_bundle_files limits <? length paths then
    Err (invalid_parameter
           (lit "content bundle has " ++ show_Z (Z.of_nat (length paths))
            ++ lit " files, exceeding the pgokf.max_bundle_files ceiling of "
            ++ show_Z (Z.of_nat (max_bundle_files limits))) [])
  else validate_contents limits (zip paths contents).

(** What [ContentSource::new] raises for a path that is no catalog content. *)
Definition not_content_error (path : str) : CatalogError :=
  invalid_parameter (lit "content path " ++ path ++ lit " is not catalog content: only Markdown documents, SKILL.md manifests, and files below a provided package's scripts/, references/, or assets/ can be stored") path.

(** The caller's arrays as far as they are checked before anything is
    written. *)
Definition content_checks (limits : ContentLimits) (paths contents : list str) : result unit CatalogError :=
  let? _ := validate_arrays limits paths contents in
  match find (fun p => match classify_path (from_paths paths) p with None => true | Some _ => false end)
          paths with
  | Some p => Err (not_content_error p)
  | None => Ok tt
  end.

Section content.
Context `{Ses : Session, PT : PgText, J : RowJson}.

Definition lookup_content_bundle (path_key : str) (d : Db) : option Z :=
  fst <$> find (fun '(_, b) => bool_decide (b_tenant b = effective_tenant)
                                && bool_decide (b_path b = path_key)) (map_to_list (bundles d)).

Definition insert_content_bundle (path_key name : str) : M Z :=
  insert_bundle path_key (Some name) (lit "content").

(** [register_bundle_content_impl]; what the sync of the source against the
    stored projection staged enters as [delta]. *)
Definition register_content_tail (limits : ContentLimits) (name : str) (paths contents : list str)
    (delta : SyncWrite) (context : ChangeContext) (sync_hash : str) (okf_version : option str)
    (counts : Z * Z * Z * Z * Z) : M Z :=
  authorize_user Ingest ;;
  lift (content_checks limits paths contents) ;;
  let path_key := content_path_key name in
  d ← get;
  bundle_id ← match lookup_content_bundle path_key d with
              | Some existing => mret existing
              | None => insert_content_bundle path_key name
              end;
  sync_tail bundle_id path_key (lit "content") delta context sync_hash okf_version counts ;;
  mret bundle_id.

End content.

(** The refusals of [ContentSource::new] are those of [content_checks]. *)
Lemma content_checks_source `{Host} (hash : str -> str) limits paths cs :
  content_checks limits paths cs = Ok tt -> exists s, content_source_new hash paths cs = Ok s.
Proof.
  unfold content_checks, content_source_new.
  destruct (validate_arrays limits paths cs) as [[]|] eqn:Hv; cbn; [|done].
  destruct (find _ paths) as [p|] eqn:Hf; [done|]. intros _.
  assert (exists es, rmap_list (content_entry hash (from_paths paths)) (zip paths cs) = Ok es) as [es ->];
    [|cbn; by eexists].
  assert (forall pc, pc ∈ zip paths cs -> exists e, content_entry hash (from_paths paths) pc = Ok e) as He.
  { intros [p c] Hin%elem_of_zip_l. unfold content_entry.
    pose proof (find_none _ _ Hf p (proj1 (list_elem_of_In _ _) Hin)) as Hc. cbn in Hc.
    destruct (classify_path _ p); [by eexists|done]. }
  clear Hf Hv. induction (zip paths cs) as [|pc l IH]; cbn; [by eexists|].
  destruct (He pc) as [e ->]; [by left|]. destruct IH as [es ->]; [|cbn; by eexists].
  intros pc' Hin. apply He. by right.
Qed.

Lemma lookup_content_some `{Ses : Session} key d id :
  lookup_content_bundle key d = Some id ->
  exists b, bundles d !! id = Some b /\ b_tenant b = effective_tenant /\ b_path b = key.
Proof.
  unfold lookup_content_bundle. intros ([i b] & Hf & Hi)%fmap_Some_1. cbn in Hi. subst i.
  apply find_some in Hf as [Hin Hb]. apply list_elem_of_In, elem_of_map_to_list in Hin.
  apply andb_true_iff in Hb as [?%bool_decide_eq_true_1 ?%bool_decide_eq_true_1]. eauto.
Qed.

(** *** Concrete paths *)

Example content_dotdot : validate_content_path (lit "../a.md")
  = Err (invalid_parameter (lit "content path is not a safe, normalized bundle-relative path: ../a.md") (lit "../a.md")).
Proof. by_eval. Qed.
Example content_dot : exists e, validate_content_path (lit "a/./b.md") = Err e.
Proof. eexists. vm_compute. reflexivity. Qed.
Example content_nested : validate_content_path (lit "nested/beta.md") = Ok tt.
Proof. by_eval. Qed.
