(* ===== verification/CatalogWf.v ===== *)
(** * Well-formed catalogs and the effects of a statement

    [wf] collects the column constraints and foreign keys of the schema and
    the invariants the code maintains beyond them.  [eff] is what one SQL
    statement of the modelled transactions may do to the tables; every effect
    preserves [wf], so a transaction that is a sequence of effects does. *)
From stdpp Require Import prelude strings gmap list sorting.
From Stdlib Require Import Ascii ZArith Lia.
From S2P Require Import Prelude Str BTree CatalogError Security Catalog Freshness Config FreshnessWalk FreshnessEval FreshnessApi Outbox Relationships Lifecycle Content.

(** ** Well-formed catalogs *)

Definition EVENT_STATES : list str := [ev_pending; ev_claimed; ev_acknowledged].
Definition PUBLICATION_STATES : list str := [pub_staged; pub_active; pub_superseded].

(** The target of a dependency: a whole bundle without a key, or a scope with
    one. *)
Definition target_shape (kind : str) (key : option str) : Prop :=
  kind = k_bundle /\ key = None \/ kind ∈ SCOPE_KINDS /\ is_Some key.

(** Publications of one producer for one registered bundle. *)
Definition same_scope (p q : PublicationRow) : Prop :=
  pub_tenant p = pub_tenant q /\ pub_producer p = pub_producer q
  /\ pub_bundle p = pub_bundle q /\ is_Some (pub_bundle p).

Record row_ok (t : gmap Z Bundle) (id : Z) (r : BundleFreshness) : Prop := {
  ro_bundle : exists b, t !! id = Some b /\ bf_tenant r = b_tenant b;
  ro_state : bf_state r ∈ STATES;
  ro_epochs : (0 <= bf_claimed r <= bf_epoch r)%Z
}.

Record dep_ok (t : gmap Z Bundle) (r : DependencyRow) : Prop := {
  do_source : is_Some (t !! dep_source r);
  do_target : is_Some (t !! dep_target r);
  do_selector : dep_selector_kind r ∈ SELECTOR_KINDS
                /\ (dep_selector_kind r = k_bundle <-> dep_selector_value r = []);
  do_shape : target_shape (dep_target_kind r) (dep_target_key r)
}.

Definition fence_ok (f : FenceRow) : Prop := (1 <= fe_token f)%Z /\ (1 <= fe_target_generation f)%Z.

Definition event_ok (e : EventRow) : Prop :=
  ev_status e ∈ EVENT_STATES /\ ev_operation e ∈ OPERATIONS.

Definition pub_ok (t : gmap Z Bundle) (p : PublicationRow) : Prop :=
  pub_state p ∈ PUBLICATION_STATES /\ (forall id, pub_bundle p = Some id -> is_Some (t !! id)).

(** At most one row of [l] for each key, by a key that may be shared. *)
Definition unique_by {A} (same : A -> A -> Prop) (l : list A) : Prop :=
  forall x y, x ∈ l -> y ∈ l -> same x y -> x = y.

Definition same_generation (p q : PublicationRow) : Prop :=
  same_scope p q /\ pub_generation p = pub_generation q.
Definition both_active (p q : PublicationRow) : Prop :=
  same_scope p q /\ pub_state p = pub_active /\ pub_state q = pub_active.

(** [UNIQUE (tenant_id, path)] *)
Definition unique_path (t : gmap Z Bundle) : Prop :=
  forall i j b c, t !! i = Some b -> t !! j = Some c ->
    b_tenant b = b_tenant c -> b_path b = b_path c -> i = j.

Record wf (d : Db) : Prop := {
  wf_rows : forall id r, bundle_freshness d !! id = Some r -> row_ok (bundles d) id r;
  wf_scopes : forall id k key r, concept_freshness d !! (id, k, key) = Some r ->
              is_Some (bundles d !! id) /\ k ∈ SCOPE_KINDS /\ sf_state r ∈ STATES;
  wf_deps : forall r, r ∈ freshness_dependency d ->
            dep_ok (bundles d) r /\ (dep_id r <= dependency_seq d)%Z;
  wf_dep_ids : NoDup (dep_id <$> freshness_dependency d);
  wf_fences : forall t p id f, publication_fence d !! (t, p, id) = Some f ->
              is_Some (bundles d !! id) /\ fence_ok f;
  wf_events : forall e, e ∈ catalog_change_event d -> event_ok e /\ (ev_id e <= event_seq d)%Z;
  wf_event_ids : NoDup (ev_id <$> catalog_change_event d);
  wf_pubs : forall p, p ∈ relationship_publication d ->
            pub_ok (bundles d) p /\ (pub_id p <= publication_seq d)%Z;
  wf_pub_ids : NoDup (pub_id <$> relationship_publication d);
  wf_pub_key : unique_by same_generation (relationship_publication d);
  wf_one_active : unique_by both_active (relationship_publication d);
  wf_bundle_ids : forall id b, bundles d !! id = Some b -> (id <= bundle_seq d)%Z;
  wf_bundle_key : unique_path (bundles d)
}.

(** ** Effects *)

(** What a call may do besides the effects every call may have: register and
    unregister bundles, lift a bundle out of retirement, acknowledge. *)
Record perms : Type := {
  p_insert : Prop;
  p_delete : Prop;
  p_reset : Z -> Prop;
  p_ack : Z -> str -> Prop
}.

Section effects.
Context `{Ses : Session, PT : PgText}.

(** The transitions of a freshness row. *)
Inductive row_step (P : perms) (t : gmap Z Bundle) (id : Z) (r : BundleFreshness)
  : BundleFreshness -> Prop :=
| RS_move st rs p o : bf_state r <> st_retired -> st ∈ STATES -> st <> st_fresh ->
    row_step P t id r (moved_row r st rs p o)
| RS_blanket : bf_state r <> st_retired -> row_step P t id r (blanket_row r (bf_epoch r + 1))
| RS_bump : bf_state r <> st_retired ->
    row_step P t id r (with_epochs (bf_epoch r + 1) (bf_claimed r) now r)
| RS_claim : row_step P t id r (with_epochs (bf_epoch r) (bf_epoch r) (bf_updated_at r) r)
| RS_coverage rs since : row_step P t id r (with_coverage rs since r)
| RS_complete b o g token m c p : t !! id = Some b -> may_complete b r o g token = true ->
    row_step P t id r (completed_row r o g m c p)
| RS_restore : p_reset P id -> row_step P t id r (restored_row r)
| RS_repair tenant st rs : p_reset P id -> st ∈ STATES ->
    row_step P t id r (repaired_row tenant st rs (Some r))
| RS_revoke : bf_state r = st_fresh -> row_step P t id r (revoked_row r).

(** A row as a statement may insert it. *)
Definition born (b : Bundle) (r : BundleFreshness) : Prop :=
  bf_tenant r = b_tenant b /\ bf_state r ∈ STATES /\ bf_epoch r = 0%Z /\ bf_claimed r = 0%Z.

Inductive eff (P : perms) (d : Db) : Db -> Prop :=
| E_log t s : eff P d (set_log t s d)
| E_concepts t : eff P d (set_concepts t d)
| E_born id b r : bundles d !! id = Some b -> bundle_freshness d !! id = None -> born b r ->
    eff P d (set_freshness (<[id := r]> (bundle_freshness d)) d)
| E_rows t : dom t = dom (bundle_freshness d) ->
    (forall id r r', bundle_freshness d !! id = Some r -> t !! id = Some r' ->
                     r' = r \/ row_step P (bundles d) id r r') ->
    eff P d (set_freshness t d)
| E_scope id k key r : is_Some (bundles d !! id) -> k ∈ SCOPE_KINDS -> sf_state r ∈ STATES ->
    eff P d (set_scopes (<[(id, k, key) := r]> (concept_freshness d)) d)
| E_unscope k : eff P d (set_scopes (delete k (concept_freshness d)) d)
| E_watermark id g e :
    eff P d (set_dependencies
      (map (fun r => if decide (dep_id r = id) then advanced g e r else r) (freshness_dependency d))
      (dependency_seq d) d)
| E_depend r : dep_id r = (dependency_seq d + 1)%Z -> dep_ok (bundles d) r ->
    eff P d (set_dependencies (freshness_dependency d ++ [r]) (dep_id r) d)
| E_disable id :
    eff P d (set_dependencies
      (map (fun r => if decide (dep_id r = id) then disabled r else r) (freshness_dependency d))
      (dependency_seq d) d)
| E_undepend id :
    eff P d (set_dependencies (filter (fun r => dep_id r <> id) (freshness_dependency d))
               (dependency_seq d) d)
| E_fence t p id f : is_Some (bundles d !! id) -> fence_ok f ->
    (forall old, publication_fence d !! (t, p, id) = Some old -> (fe_token old <= fe_token f)%Z) ->
    eff P d (set_fences (<[(t, p, id) := f]> (publication_fence d)) d)
| E_event bid b g op ch cx h : bundles d !! bid = Some b -> op ∈ OPERATIONS ->
    eff P d (set_events (catalog_change_event d
                           ++ [new_event (event_seq d + 1) bid b g op ch cx h]) (event_seq d + 1) d)
| E_prune n :
    eff P d (set_events (filter (fun e => prunable n e = false) (catalog_change_event d)) (event_seq d) d)
| E_claim (ids : list Z) producer lease :
    (forall e, e ∈ catalog_change_event d -> ev_id e ∈ ids -> claimable e = true) ->
    eff P d (set_events
      (map (fun e => if bool_decide (ev_id e ∈ ids) then claimed_row producer lease e else e)
         (catalog_change_event d)) (event_seq d) d)
| E_ack id producer key : p_ack P id producer ->
    eff P d (set_events
      (map (fun e => if ack_hits d id producer e then acknowledged_row key e else e)
         (catalog_change_event d)) (event_seq d) d)
| E_supersede hit :
    eff P d (set_publications
      (map (fun p => if (hit p : bool) then superseded_row p else p) (relationship_publication d))
      (relationship d) (publication_seq d) d)
| E_activate id g : (forall p, p ∈ relationship_publication d -> is_active_of id p = false) ->
    eff P d (set_publications
      (map (fun p => if is_attempt id g p
                     then if is_winner (List.filter (is_attempt id g) (relationship_publication d)) p
                          then activated_row g p else superseded_row p
                     else p) (relationship_publication d)) (relationship d) (publication_seq d) d)
| E_publish p : pub_id p = (publication_seq d + 1)%Z -> pub_ok (bundles d) p ->
    (forall q, q ∈ relationship_publication d -> ~ same_generation p q) ->
    (forall q, q ∈ relationship_publication d -> ~ both_active p q) ->
    eff P d (set_publications (relationship_publication d ++ [p]) (relationship d) (pub_id p) d)
| E_unpublish hit rows :
    eff P d (set_publications (filter (fun p => (hit p : bool) = false) (relationship_publication d))
               rows (publication_seq d) d)
| E_relations rows :
    eff P d (set_publications (relationship_publication d) rows (publication_seq d) d)
| E_bundle id b b' : bundles d !! id = Some b -> b_tenant b' = b_tenant b -> b_path b' = b_path b ->
    eff P d (set_bundles (<[id := b']> (bundles d)) (bundle_seq d) d)
| E_register b : p_insert P ->
    (forall id c, bundles d !! id = Some c -> ~ (b_tenant c = b_tenant b /\ b_path c = b_path b)) ->
    eff P d (set_bundles (<[(bundle_seq d + 1)%Z := b]> (bundles d)) (bundle_seq d + 1) d)
| E_unregister id : p_delete P -> eff P d (cascade_delete id d)
| E_config c : config_checks c = true -> eff P d (set_config_row c d).

End effects.

(** ** Effects preserve well-formedness *)

Lemma superseded_ne_active : pub_superseded <> pub_active.
Proof. by_decide. Qed.
Lemma staged_ne_active : pub_staged <> pub_active.
Proof. by_decide. Qed.
Lemma staged_ne_superseded : pub_staged <> pub_superseded.
Proof. by_decide. Qed.

#[global] Opaque pub_staged pub_active pub_superseded.

Section unique.
Context {A : Type} (same : A -> A -> Prop).

Lemma unique_by_map (f : A -> A) (l : list A) :
  unique_by same l ->
  (forall x y, x ∈ l -> y ∈ l -> same (f x) (f y) -> same x y) -> unique_by same (map f l).
Proof.
  intros Hu Hf x' y' (x & -> & Hx)%list_elem_of_fmap (y & -> & Hy)%list_elem_of_fmap Hs.
  f_equal. by apply Hu, Hf.
Qed.

Lemma unique_by_sub (l l' : list A) : unique_by same l -> l' ⊆ l -> unique_by same l'.
Proof. intros Hu Hsub x y Hx Hy. apply Hu; by apply Hsub. Qed.

Lemma unique_by_snoc (l : list A) (x : A) :
  unique_by same l -> (forall y z, same y z -> same z y) -> (forall y, y ∈ l -> ~ same x y) ->
  unique_by same (l ++ [x]).
Proof.
  intros Hu Hsym Hx y z [Hy|Hy]%elem_of_app [Hz|Hz]%elem_of_app Hs;
    rewrite ?list_elem_of_singleton in *; subst; [by apply Hu| | |done].
  - destruct (Hx y Hy). by apply Hsym.
  - by destruct (Hx z Hz).
Qed.

End unique.

Lemma same_scope_sym p q : same_scope p q -> same_scope q p.
Proof. intros (Ht & Hp & Hb & Hs). unfold same_scope. by rewrite Ht, Hp, <- Hb. Qed.

Lemma same_generation_sym p q : same_generation p q -> same_generation q p.
Proof. intros [? ?]. split; [by apply same_scope_sym|done]. Qed.

Lemma both_active_sym p q : both_active p q -> both_active q p.
Proof. intros (? & ? & ?). split_and!; [by apply same_scope_sym|done|done]. Qed.

(** Rows of an identity table keep their keys under an update, a deletion and
    an insertion past the sequence. *)
Lemma ids_map {A} (key : A -> Z) (f : A -> A) (l : list A) :
  (forall x, key (f x) = key x) -> key <$> map f l = key <$> l.
Proof. intros Hf. rewrite <- list_fmap_compose. apply list_fmap_ext. intros ? x _. apply Hf. Qed.

Lemma ids_filter {A} (key : A -> Z) (Q : A -> Prop) `{!forall x, Decision (Q x)} (l : list A) :
  NoDup (key <$> l) -> NoDup (key <$> filter Q l).
Proof.
  intros Hnd. eapply sublist_NoDup; [exact Hnd|]. apply fmap_sublist, sublist_filter.
Qed.

Lemma ids_snoc {A} (key : A -> Z) (l : list A) (x : A) (n : Z) :
  NoDup (key <$> l) -> (forall y, y ∈ l -> (key y <= n)%Z) -> key x = (n + 1)%Z ->
  NoDup (key <$> (l ++ [x])).
Proof.
  intros Hnd Hle Hx. rewrite fmap_app. apply NoDup_app. split_and!; [done| |apply NoDup_singleton].
  intros k (y & -> & Hy)%list_elem_of_fmap Hin. cbn in Hin.
  rewrite list_elem_of_singleton in Hin. apply Hle in Hy. lia.
Qed.

(** A predicate of the stored rows survives an update that keeps it. *)
Lemma rows_map {A} (Q : A -> Prop) (f : A -> A) (l : list A) :
  (forall x, x ∈ l -> Q x) -> (forall x, x ∈ l -> Q x -> Q (f x)) -> forall x, x ∈ map f l -> Q x.
Proof. intros Hl Hf y (x & -> & Hx)%list_elem_of_fmap. auto. Qed.

Lemma rows_snoc {A} (Q : A -> Prop) (l : list A) (x : A) :
  (forall y, y ∈ l -> Q y) -> Q x -> forall y, y ∈ l ++ [x] -> Q y.
Proof. intros Hl Hx y [?|?]%elem_of_app; [auto|]. by rewrite list_elem_of_singleton in *; subst. Qed.

Lemma rows_filter {A} (Q : A -> Prop) (R : A -> Prop) `{!forall x, Decision (R x)} (l : list A) :
  (forall y, y ∈ l -> Q y) -> forall y, y ∈ filter R l -> Q y.
Proof. intros Hl y [_ ?]%list_elem_of_filter. auto. Qed.

Create HintDb wf.

Section preserve.
Context `{Ses : Session, PT : PgText}.

Lemma stale_in_states : st_stale ∈ STATES.
Proof. unfold STATES. set_solver. Qed.
Lemma fresh_in_states : st_fresh ∈ STATES.
Proof. unfold STATES. set_solver. Qed.

Lemma row_step_ok P t id r r' : row_step P t id r r' -> row_ok t id r -> row_ok t id r'.
Proof.
  intros Hs [Hb Hst He]. destruct Hs; split; cbn; try done; try lia;
    auto using stale_in_states, fresh_in_states.
Qed.

Lemma wf_set_freshness t d :
  wf d -> (forall id r, t !! id = Some r -> row_ok (bundles d) id r) -> wf (set_freshness t d).
Proof. intros [] Ht. by split. Qed.

Lemma wf_set_scopes t d :
  wf d -> (forall id k key r, t !! (id, k, key) = Some r ->
             is_Some (bundles d !! id) /\ k ∈ SCOPE_KINDS /\ sf_state r ∈ STATES) ->
  wf (set_scopes t d).
Proof. intros [] Ht. by split. Qed.

Lemma wf_set_dependencies t s d :
  wf d -> (forall r, r ∈ t -> dep_ok (bundles d) r /\ (dep_id r <= s)%Z) -> NoDup (dep_id <$> t) ->
  wf (set_dependencies t s d).
Proof. intros [] Ht Hnd. by split. Qed.

Lemma wf_set_fences t d :
  wf d -> (forall u p id f, t !! (u, p, id) = Some f -> is_Some (bundles d !! id) /\ fence_ok f) ->
  wf (set_fences t d).
Proof. intros [] Ht. by split. Qed.

Lemma wf_set_events t s d :
  wf d -> (forall e, e ∈ t -> event_ok e /\ (ev_id e <= s)%Z) -> NoDup (ev_id <$> t) ->
  wf (set_events t s d).
Proof. intros [] Ht Hnd. by split. Qed.

Lemma wf_set_publications t rows s d :
  wf d -> (forall p, p ∈ t -> pub_ok (bundles d) p /\ (pub_id p <= s)%Z) -> NoDup (pub_id <$> t) ->
  unique_by same_generation t -> unique_by both_active t -> wf (set_publications t rows s d).
Proof. intros [] Ht Hnd Hk Ha. by split. Qed.

(** An update of the dependencies that keeps what they name. *)
Lemma wf_map_dependencies d (f : DependencyRow -> DependencyRow) :
  wf d -> (forall r, dep_id (f r) = dep_id r) ->
  (forall r, dep_ok (bundles d) r -> dep_ok (bundles d) (f r)) ->
  wf (set_dependencies (map f (freshness_dependency d)) (dependency_seq d) d).
Proof.
  intros Hwf Hid Hf. apply wf_set_dependencies; [done| |rewrite ids_map by done; apply Hwf].
  apply (rows_map (fun r => dep_ok (bundles d) r /\ (dep_id r <= dependency_seq d)%Z)); [apply Hwf|].
  intros r _ [? ?]. rewrite Hid. auto.
Qed.

(** An update of the events that keeps their identity and operation. *)
Lemma wf_map_events d (f : EventRow -> EventRow) :
  wf d -> (forall e, ev_id (f e) = ev_id e) -> (forall e, event_ok e -> event_ok (f e)) ->
  wf (set_events (map f (catalog_change_event d)) (event_seq d) d).
Proof.
  intros Hwf Hid Hf. apply wf_set_events; [done| |rewrite ids_map by done; apply Hwf].
  apply (rows_map (fun e => event_ok e /\ (ev_id e <= event_seq d)%Z)); [apply Hwf|].
  intros e _ [? ?]. rewrite Hid. auto.
Qed.

(** An update of the publications that keeps their keys and makes no second
    active one. *)
Lemma wf_map_publications d rows (f : PublicationRow -> PublicationRow) :
  wf d -> (forall p, pub_id (f p) = pub_id p /\ pub_tenant (f p) = pub_tenant p
                     /\ pub_producer (f p) = pub_producer p /\ pub_bundle (f p) = pub_bundle p
                     /\ pub_generation (f p) = pub_generation p) ->
  (forall p, pub_state p ∈ PUBLICATION_STATES -> pub_state (f p) ∈ PUBLICATION_STATES) ->
  (forall p q, p ∈ relationship_publication d -> q ∈ relationship_publication d ->
     same_scope p q -> pub_state (f p) = pub_active -> pub_state (f q) = pub_active -> p = q) ->
  wf (set_publications (map f (relationship_publication d)) rows (publication_seq d) d).
Proof.
  intros Hwf Hkey Hst Hact.
  assert (forall p q, same_scope (f p) (f q) -> same_scope p q) as Hscope.
  { intros p q. unfold same_scope. destruct (Hkey p) as (_ & -> & -> & -> & _).
    by destruct (Hkey q) as (_ & -> & -> & -> & _). }
  apply wf_set_publications; [done| | | |].
  - apply (rows_map (fun p => pub_ok (bundles d) p /\ (pub_id p <= publication_seq d)%Z)); [apply Hwf|].
    unfold pub_ok. intros p _ [[? ?] ?]. destruct (Hkey p) as (-> & _ & _ & -> & _). auto.
  - rewrite ids_map; [apply Hwf|]. intros p. apply Hkey.
  - apply unique_by_map; [apply Hwf|]. intros p q _ _ [Hs Hg]. split; [by apply Hscope|].
    destruct (Hkey p) as (_ & _ & _ & _ & <-). by destruct (Hkey q) as (_ & _ & _ & _ & <-).
  - intros p' q' (p & -> & Hp)%list_elem_of_fmap (q & -> & Hq)%list_elem_of_fmap (Hs & Hap & Haq).
    f_equal. by apply Hact; [..|apply Hscope| |].
Qed.

(** Every bundle of [t] is still in [t'], with its tenant. *)
Definition keeps_bundles (t t' : gmap Z Bundle) : Prop :=
  forall id b, t !! id = Some b -> exists b', t' !! id = Some b' /\ b_tenant b' = b_tenant b.

Lemma keeps_bundles_some t t' id :
  keeps_bundles t t' -> is_Some (t !! id) -> is_Some (t' !! id).
Proof. intros Hk [b Hb]. destruct (Hk id b Hb) as (b' & Hb' & _). eauto. Qed.

Lemma wf_set_bundles t s d :
  wf d -> keeps_bundles (bundles d) t -> (forall id b, t !! id = Some b -> (id <= s)%Z) ->
  unique_path t -> wf (set_bundles t s d).
Proof.
  intros [Hr Hs Hd Hdi Hf He Hei Hp Hpi Hpk Hpa _ _] Hk Hid Hu.
  pose proof (fun id => keeps_bundles_some _ _ id Hk) as Hsome. split; cbn; try done.
  - intros id r [(b & Hb & Ht) ? ?]%Hr. destruct (Hk id b Hb) as (b' & Hb' & Ht').
    split; [|done..]. exists b'. by rewrite Ht'.
  - intros id k key r (? & ? & ?)%Hs. auto.
  - intros r [[? ? ? ?] ?]%Hd. split; [split|]; auto.
  - intros u p id f [? ?]%Hf. auto.
  - intros p [[? ?] ?]%Hp. unfold pub_ok. eauto.
Qed.

Lemma detached_event_id bid e : ev_id (detached_event bid e) = ev_id e.
Proof. unfold detached_event. by case_decide. Qed.

Lemma detached_event_ok bid e : event_ok e -> event_ok (detached_event bid e).
Proof. unfold detached_event. by case_decide. Qed.

Lemma detached_publication_bundle bid p id :
  pub_bundle (detached_publication bid p) = Some id -> pub_bundle p = Some id /\ id <> bid.
Proof. unfold detached_publication. case_decide; cbn; naive_solver. Qed.

(** What is left attached is untouched. *)
Lemma detached_publication_id bid p id :
  pub_bundle (detached_publication bid p) = Some id -> detached_publication bid p = p.
Proof. unfold detached_publication. by case_decide. Qed.

Lemma detached_unique bid same (l : list PublicationRow) :
  (forall p q, same p q -> same_scope p q) -> unique_by same l ->
  unique_by same (map (detached_publication bid) l).
Proof.
  intros Hsame Hu. apply unique_by_map; [done|]. intros p q _ _ Hs.
  destruct (Hsame _ _ Hs) as (_ & _ & Hb & [id Hid]).
  by rewrite !(detached_publication_id bid _ id) in Hs by congruence.
Qed.

Lemma wf_cascade id d : wf d -> wf (cascade_delete id d).
Proof.
  intros [Hr Hs Hd Hdi Hf He Hei Hp Hpi Hpk Hpa Hb Hu]. split; cbn.
  - intros j r [Hne Hj]%lookup_delete_Some. destruct (Hr j r Hj) as [(b & ? & ?) ? ?].
    split; [|done..]. exists b. by rewrite lookup_delete_ne.
  - intros j k key r [Hj Hne]%map_lookup_filter_Some. rewrite lookup_delete_ne by done. eauto.
  - intros r [[Hns Hnt] Hin]%list_elem_of_filter. destruct (Hd r Hin) as [[? ? ? ?] ?].
    split; [split|done]; rewrite ?lookup_delete_ne by done; done.
  - by apply ids_filter.
  - intros t p j f [Hj Hne]%map_lookup_filter_Some. rewrite lookup_delete_ne by done. eauto.
  - apply (rows_map (fun e => event_ok e /\ (ev_id e <= event_seq d)%Z)); [done|].
    intros e _ [? ?]. rewrite detached_event_id. auto using detached_event_ok.
  - by rewrite ids_map by apply detached_event_id.
  - intros p' (p & -> & Hin)%list_elem_of_fmap. destruct (Hp p Hin) as [[Hst Hfk] Hle].
    split; [split|].
    + unfold detached_publication. by case_decide.
    + intros j [Hj Hne]%detached_publication_bundle. rewrite lookup_delete_ne by done. auto.
    + unfold detached_publication. by case_decide.
  - rewrite ids_map; [done|]. intros p. unfold detached_publication. by case_decide.
  - apply detached_unique; [by intros p q []|done].
  - apply detached_unique; [by intros p q []|done].
  - intros j b [_ Hj]%lookup_delete_Some. eauto.
  - intros i j b c [_ Hi]%lookup_delete_Some [_ Hj]%lookup_delete_Some. by apply Hu.
Qed.

Lemma winners_unique id g d p q :
  wf d -> p ∈ relationship_publication d -> q ∈ relationship_publication d -> same_scope p q ->
  is_attempt id g p = true -> is_attempt id g q = true ->
  is_winner (List.filter (is_attempt id g) (relationship_publication d)) p = true ->
  is_winner (List.filter (is_attempt id g) (relationship_publication d)) q = true -> p = q.
Proof.
  intros Hwf Hp Hq Hs Hap Haq Hwp Hwq. apply (wf_pub_key d Hwf); [done|done|]. split; [done|].
  destruct Hs as (Ht & Hpr & _). unfold is_winner in *. rewrite forallb_forall in Hwp, Hwq.
  specialize (Hwp q). specialize (Hwq p). rewrite filter_In, <- !list_elem_of_In in Hwp, Hwq.
  specialize (Hwp (conj Hq Haq)). specialize (Hwq (conj Hp Hap)).
  rewrite bool_decide_eq_true_2 in Hwp by done. rewrite bool_decide_eq_true_2 in Hwq by done.
  cbn in Hwp, Hwq. lia.
Qed.

Lemma wf_activate id g d :
  wf d -> (forall p, p ∈ relationship_publication d -> is_active_of id p = false) ->
  wf (set_publications
    (map (fun p => if is_attempt id g p
                   then if is_winner (List.filter (is_attempt id g) (relationship_publication d)) p
                        then activated_row g p else superseded_row p
                   else p) (relationship_publication d)) (relationship d) (publication_seq d) d).
Proof.
  intros Hwf Hno. apply wf_map_publications; [done|..].
  - intros p. by repeat case_match.
  - intros p Hst. unfold PUBLICATION_STATES. repeat case_match; cbn; set_solver.
  - assert (forall p, p ∈ relationship_publication d -> pub_bundle p = Some id ->
              pub_state p <> pub_active) as Hna.
    { intros p Hp Hb Hst. specialize (Hno p Hp). unfold is_active_of in Hno.
      by rewrite !bool_decide_eq_true_2 in Hno. }
    assert (forall p, is_attempt id g p = true -> pub_bundle p = Some id) as Hb.
    { intros p. unfold is_attempt. rewrite !andb_true_iff, !bool_decide_eq_true. tauto. }
    intros p q Hp Hq Hs. pose proof Hs as (_ & _ & Hbb & _).
    destruct (is_attempt id g p) eqn:Ep, (is_attempt id g q) eqn:Eq.
    + destruct (is_winner _ p) eqn:Wp; [|by intros []%superseded_ne_active].
      destruct (is_winner _ q) eqn:Wq; [|by intros _ []%superseded_ne_active].
      intros _ _. by eapply winners_unique.
    + intros _ Hst. destruct (Hna q Hq); [|done]. rewrite <- Hbb. by apply Hb.
    + intros Hst _. destruct (Hna p Hp); [|done]. rewrite Hbb. by apply Hb.
    + intros Hap Haq. by apply (wf_one_active d Hwf).
Qed.

(** *** One lemma for each effect that is not immediate *)

Lemma wf_born id b r d :
  wf d -> bundles d !! id = Some b -> born b r ->
  wf (set_freshness (<[id := r]> (bundle_freshness d)) d).
Proof.
  intros Hwf Hb (Ht & Hst & He & Hc). apply wf_set_freshness; [done|].
  intros j r' [[<- <-]|[_ Hj]]%lookup_insert_Some; [|by apply Hwf]. split; [by exists b|done|lia].
Qed.

Lemma wf_stepped P t d :
  wf d -> dom t = dom (bundle_freshness d) ->
  (forall id r r', bundle_freshness d !! id = Some r -> t !! id = Some r' ->
                   r' = r \/ row_step P (bundles d) id r r') -> wf (set_freshness t d).
Proof.
  intros Hwf Hdom Hstep. apply wf_set_freshness; [done|]. intros id r' Hr'.
  destruct (bundle_freshness d !! id) as [r|] eqn:Hr.
  - destruct (Hstep id r r' Hr Hr') as [-> |Hrs]; [|eapply row_step_ok; [done|]]; by apply Hwf.
  - apply not_elem_of_dom in Hr. destruct Hr. rewrite <- Hdom. by apply elem_of_dom_2 in Hr'.
Qed.

Lemma wf_scope id k key r d :
  wf d -> is_Some (bundles d !! id) -> k ∈ SCOPE_KINDS -> sf_state r ∈ STATES ->
  wf (set_scopes (<[(id, k, key) := r]> (concept_freshness d)) d).
Proof.
  intros Hwf Hb Hk Hst. apply wf_set_scopes; [done|].
  intros j k' key' r' [[? <-]|[_ Hj]]%lookup_insert_Some; [by simplify_eq|by eapply wf_scopes].
Qed.

Lemma wf_depend r d :
  wf d -> dep_id r = (dependency_seq d + 1)%Z -> dep_ok (bundles d) r ->
  wf (set_dependencies (freshness_dependency d ++ [r]) (dep_id r) d).
Proof.
  intros Hwf Hid Hok. apply wf_set_dependencies; [done| |].
  - apply (rows_snoc (fun r' => dep_ok (bundles d) r' /\ (dep_id r' <= dep_id r)%Z)); [|done].
    intros y [? ?]%(wf_deps d Hwf). split; [done|lia].
  - apply ids_snoc with (dependency_seq d); [apply Hwf|by intros y [_ ?]%(wf_deps d Hwf)|done].
Qed.

Lemma wf_fence t p id f d :
  wf d -> is_Some (bundles d !! id) -> fence_ok f ->
  wf (set_fences (<[(t, p, id) := f]> (publication_fence d)) d).
Proof.
  intros Hwf Hb Hf. apply wf_set_fences; [done|].
  intros u q j f' [[? <-]|[_ Hj]]%lookup_insert_Some; [by simplify_eq|by eapply wf_fences].
Qed.

Lemma wf_record e d :
  wf d -> ev_id e = (event_seq d + 1)%Z -> event_ok e ->
  wf (set_events (catalog_change_event d ++ [e]) (event_seq d + 1) d).
Proof.
  intros Hwf Hid Hok. apply wf_set_events; [done| |].
  - apply (rows_snoc (fun e => event_ok e /\ (ev_id e <= event_seq d + 1)%Z)); [|split; [done|lia]].
    intros y [? ?]%(wf_events d Hwf). split; [done|lia].
  - apply ids_snoc with (event_seq d); [apply Hwf|by intros y [_ ?]%(wf_events d Hwf)|done].
Qed.

Lemma wf_supersede hit d :
  wf d -> wf (set_publications
    (map (fun p => if (hit p : bool) then superseded_row p else p) (relationship_publication d))
    (relationship d) (publication_seq d) d).
Proof.
  intros Hwf. apply wf_map_publications; [done|intros p; by case_match| |].
  - intros p Hst. unfold PUBLICATION_STATES. case_match; cbn; set_solver.
  - intros p q Hp Hq Hs. destruct (hit p); [by intros []%superseded_ne_active|].
    destruct (hit q); [by intros _ []%superseded_ne_active|]. intros ? ?. by apply (wf_one_active d Hwf).
Qed.

Lemma wf_publish p d :
  wf d -> pub_id p = (publication_seq d + 1)%Z -> pub_ok (bundles d) p ->
  (forall q, q ∈ relationship_publication d -> ~ same_generation p q) ->
  (forall q, q ∈ relationship_publication d -> ~ both_active p q) ->
  wf (set_publications (relationship_publication d ++ [p]) (relationship d) (pub_id p) d).
Proof.
  intros Hwf Hid Hok Hg Ha. apply wf_set_publications; [done| | | |].
  - apply (rows_snoc (fun q => pub_ok (bundles d) q /\ (pub_id q <= pub_id p)%Z)); [|done].
    intros y [? ?]%(wf_pubs d Hwf). split; [done|lia].
  - apply ids_snoc with (publication_seq d); [apply Hwf|by intros y [_ ?]%(wf_pubs d Hwf)|done].
  - apply unique_by_snoc; [apply Hwf|apply same_generation_sym|done].
  - apply unique_by_snoc; [apply Hwf|apply both_active_sym|done].
Qed.

Lemma wf_unpublish hit rows d :
  wf d -> wf (set_publications
    (filter (fun p => (hit p : bool) = false) (relationship_publication d)) rows (publication_seq d) d).
Proof.
  intros Hwf. apply wf_set_publications; [done|apply rows_filter, Hwf|apply ids_filter, Hwf|..];
    (eapply unique_by_sub; [apply Hwf|]); by intros x [_ ?]%list_elem_of_filter.
Qed.

Lemma wf_update_bundle id b b' d :
  wf d -> bundles d !! id = Some b -> b_tenant b' = b_tenant b -> b_path b' = b_path b ->
  wf (set_bundles (<[id := b']> (bundles d)) (bundle_seq d) d).
Proof.
  intros Hwf Hb Ht Hp. apply wf_set_bundles; [done| | |].
  - intros j c Hj. destruct (decide (j = id)) as [->|Hne];
      [|rewrite lookup_insert_ne by done; eauto]. rewrite lookup_insert_eq.
    exists b'. split; [done|]. congruence.
  - intros j c [[<- _]|[_ Hj]]%lookup_insert_Some; by eapply wf_bundle_ids.
  - pose proof (wf_bundle_key d Hwf) as Hu.
    intros i j c e [[<- <-]|[? Hi]]%lookup_insert_Some [[<- <-]|[? Hj]]%lookup_insert_Some;
      rewrite ?Ht, ?Hp; [done|by apply Hu..].
Qed.

Lemma wf_register b d :
  wf d ->
  (forall id c, bundles d !! id = Some c -> ~ (b_tenant c = b_tenant b /\ b_path c = b_path b)) ->
  wf (set_bundles (<[(bundle_seq d + 1)%Z := b]> (bundles d)) (bundle_seq d + 1) d).
Proof.
  intros Hwf Hno. apply wf_set_bundles; [done| | |].
  3:{ intros i j c e [[<- <-]|[? Hi]]%lookup_insert_Some [[<- <-]|[? Hj]]%lookup_insert_Some ? ?;
        [done|by destruct (Hno j e)|by destruct (Hno i c)|by eapply (wf_bundle_key d Hwf)]. }
  all: intros j c.
  - intros Hj. pose proof (wf_bundle_ids d Hwf j c Hj). rewrite lookup_insert_ne by lia. eauto.
  - intros [[<- _]|[_ Hj]]%lookup_insert_Some; [lia|]. pose proof (wf_bundle_ids d Hwf j c Hj). lia.
Qed.

#[local] Hint Resolve wf_stepped wf_scope wf_depend wf_fence wf_supersede wf_activate wf_publish
  wf_unpublish wf_update_bundle wf_register wf_cascade wf_born : wf.

(** Every effect preserves well-formedness. *)
Lemma eff_wf P d d' : eff P d d' -> wf d -> wf d'.
Proof.
  intros He Hwf. destruct He; try (by destruct Hwf); eauto 2 with wf.
  - apply wf_set_scopes; [done|]. intros j k' key' r' [_ Hj]%lookup_delete_Some. by eapply wf_scopes.
  - apply wf_map_dependencies; [done|intros r; by case_decide|]. intros r []. by case_decide.
  - apply wf_map_dependencies; [done|intros r; by case_decide|]. intros r []. by case_decide.
  - apply wf_set_dependencies; [done| |apply ids_filter, Hwf]. apply rows_filter, Hwf.
  - apply wf_record; [done|done|]. split; [unfold EVENT_STATES; set_solver|done].
  - apply wf_set_events; [done| |apply ids_filter, Hwf]. apply rows_filter, Hwf.
  - apply wf_map_events; [done|intros e; by case_match|]. intros e [? ?]. case_match; [|done].
    split; [unfold EVENT_STATES; set_solver|done].
  - apply wf_map_events; [done|intros e; by case_match|]. intros e [? ?]. case_match; [|done].
    split; [unfold EVENT_STATES; set_solver|done].
Qed.

(** So do the constraints of the configuration row. *)
Lemma eff_config P d d' :
  eff P d d' -> config_checks (config d) = true -> config_checks (config d') = true.
Proof. by destruct 1. Qed.

End preserve.
