(* ===== verification/CatalogApi.v ===== *)
(** * The catalog's write API as one state machine

    Every function of the SQL API that writes a modelled table as a
    constructor of [api] and [run_api] its transaction: the dependency,
    freshness, fence, relationship, outbox and lifecycle calls, the
    registration of a directory or of content, the refresh, and the two
    configuration calls.  (The restore trigger of the configuration table
    replays a dump and is not a call.)  [api_effects] shows that a committed
    call is a sequence of the effects its permissions allow; properties of the
    catalog over any history of calls follow from it. *)
From stdpp Require Import prelude strings gmap list sorting.
From Stdlib Require Import Ascii ZArith Lia.
From S2P Require Import Prelude Str BTree CatalogError Security Catalog Freshness Config FreshnessWalk FreshnessEval FreshnessApi Outbox Relationships Lifecycle Content CatalogWf.

(** ** The calls *)

Inductive api {J : RowJson} : Type :=
| ARegisterDependency (producer : str) (source : Z) (kind value : str) (target : Z)
    (target_kind : str) (target_key causation_key : option str)
| ADisableDependency (id : Z)
| ARemoveDependency (id : Z)
| AMarkStale (id : Z) (reasons : list str) (producer observed : option str)
| AMarkReconciling (id : Z) (producer : option str)
| AMarkBlocked (id : Z) (reasons : list str) (producer : option str)
| AMarkFresh (id : Z) (observed : option str) (generation token : Z)
    (manifest_hash contract producer : option str)
| AMarkScopeStale (id : Z) (kind key : str) (reasons : list str) (producer : option str)
| AClearScope (id : Z) (kind key : str)
| ARepair (id : Z) (state : str) (reasons : list str)
| AIssueFence (id : Z) (producer : str) (target expected : Z) (manifest_hash : option str) (lease : Z)
| AReleaseFence (id : Z) (producer : str) (token : Z)
| AReplaceRelationships (max_rows : Z) (producer : str) (id generation expected token : Z)
    (rows : rvalue)
| AClaim (locked : gset Z) (producer : str) (limit lease : Z)
| AAck (event : Z) (producer key : str)
| AUnregister (id : Z)
| ASetEnabled (id : Z) (enabled : bool)
| ARetire (id : Z)
| AUnretire (id : Z)
| APurge (cutoff : Z)
| ARegister (path : str) (name : option str) (delta : SyncWrite) (context : ChangeContext)
    (sync_hash : str) (okf_version : option str) (counts : Z * Z * Z * Z * Z)
| ARefresh (id : Z) (delta : SyncWrite) (context : ChangeContext) (sync_hash : str)
    (okf_version : option str) (counts : Z * Z * Z * Z * Z)
| AContent (limits : ContentLimits) (name : str) (paths contents : list str) (delta : SyncWrite)
    (context : ChangeContext) (sync_hash : str) (okf_version : option str) (counts : Z * Z * Z * Z * Z)
| ASetConfig (ts_config_exists : str -> bool) (embedded : gset Z) (key : str) (value : config_json)
| AResetConfig (embedded : gset Z) (key : option str).

Section run.
Context `{Ses : Session, PT : PgText, J : RowJson}.

Definition run_api (a : api) : M unit :=
  match a with
  | ARegisterDependency p s k v t tk ty ck => register_dependency_impl p s k v t tk ty ck ;; mret tt
  | ADisableDependency id => disable_dependency_impl id
  | ARemoveDependency id => remove_dependency_impl id
  | AMarkStale id rs p o => mark_stale_impl id rs p o
  | AMarkReconciling id p => mark_reconciling_impl id p ;; mret tt
  | AMarkBlocked id rs p => mark_blocked_impl id rs p
  | AMarkFresh id o g t m c p => mark_fresh_impl id o g t m c p ;; mret tt
  | AMarkScopeStale id k y rs p => mark_scope_stale_impl id k y rs p
  | AClearScope id k y => clear_freshness_scope_impl id k y
  | ARepair id st rs => repair_bundle_freshness_impl id st rs
  | AIssueFence id p t e m l => issue_fence_impl id p t e m l ;; mret tt
  | AReleaseFence id p t => release_fence_impl id p t
  | AReplaceRelationships n p id g e t rows => replace_relationships_impl n p id g e t rows ;; mret tt
  | AClaim locked p n l => claim_impl locked p n l ;; mret tt
  | AAck e p k => ack_impl e p k ;; mret tt
  | AUnregister id => unregister_bundle_impl id ;; mret tt
  | ASetEnabled id e => set_bundle_enabled_impl id e ;; mret tt
  | ARetire id => retire_bundle_impl id ;; mret tt
  | AUnretire id => unretire_bundle_impl id ;; mret tt
  | APurge c => purge_retired_impl c ;; mret tt
  | ARegister p n w cx h v c => register_bundle_tail p n w cx h v c ;; mret tt
  | ARefresh id w cx h v c => refresh_bundle_tail id w cx h v c
  | AContent l n ps cs w cx h v c => register_content_tail l n ps cs w cx h v c ;; mret tt
  | ASetConfig ts emb k v => set_config_impl ts emb k v
  | AResetConfig emb k => reset_config_impl emb k
  end.

End run.

(** One committed call of some session. *)
Inductive step `{PT : PgText, J : RowJson} (d d' : Db) : Prop :=
| step_api (Ses : Session) (a : api) : run_api a d = Done tt d' -> step d d'.


(** ** Calls are sequences of effects *)

(** From a well-formed catalog, the effects of [P] lead from one to the
    other. *)
Definition evolves `{Ses : Session, PT : PgText} (P : perms) (d d' : Db) : Prop :=
  wf d -> rtc (eff P) d d'.

Lemma effs_wf `{Ses : Session, PT : PgText} P d d' : rtc (eff P) d d' -> wf d -> wf d'.
Proof. induction 1 as [|x y z He _ IH]; [done|]. intros Hwf. by apply IH, (eff_wf P x). Qed.

#[export] Instance evolves_preorder `{Ses : Session, PT : PgText} P : PreOrder (evolves P).
Proof.
  split; [by intros d _|]. intros d1 d2 d3 H12 H23 Hwf. specialize (H12 Hwf).
  etransitivity; [done|]. by apply H23, (effs_wf P d1).
Qed.

Create HintDb reads.

Section evolve.
Context `{Ses : Session, PT : PgText, J : RowJson}.
Context (P : perms).

Lemma evolves_one d d' : eff P d d' -> evolves P d d'.
Proof. intros He _. by apply rtc_once. Qed.

(** A statement that is one effect, or none. *)
Lemma keeps_effect {A} (f : Db -> option (A * Db)) :
  (forall d a d', wf d -> f d = Some (a, d') -> d' = d \/ eff P d d') ->
  keeps (evolves P) (statement f).
Proof.
  intros Hf. apply keeps_statement. intros d a d' Hrun Hwf.
  destruct (Hf d a d' Hwf Hrun) as [-> |He]; [done|by apply rtc_once].
Qed.

Lemma keeps_modify_effect (f : Db -> Db) :
  (forall d, wf d -> f d = d \/ eff P d (f d)) -> keeps (evolves P) (modify f).
Proof. intros Hf. apply keeps_effect. intros d a d' Hwf [= <- <-]. auto. Qed.

(** What a read returns is a fact about the catalog the rest runs from. *)
Lemma keeps_read {B} (k : Db -> M B) :
  (forall d, wf d -> post (k d) d (fun _ d' => evolves P d d')) -> keeps (evolves P) (get ≫= k).
Proof.
  intros Hk d b d' (d0 & d1 & [= <- <-] & Hrun)%bind_done Hwf. by apply (Hk d Hwf b d').
Qed.

Lemma keeps_audited id p op c h n e : keeps (evolves P) (audit_record id p op c h n e).
Proof. apply keeps_audit; [apply _|]. intros d t s. apply evolves_one. constructor. Qed.

(** *** Freshness rows *)

Lemma eff_row id r r' d :
  bundle_freshness d !! id = Some r -> r' = r \/ row_step P (bundles d) id r r' ->
  eff P d (set_freshness (<[id := r']> (bundle_freshness d)) d).
Proof.
  intros Hr Hs. constructor.
  - rewrite dom_insert_lookup_L; [done|]. by eexists.
  - intros j x x' Hx [[<- <-]|[Hne Hj]]%lookup_insert_Some; [|left; congruence].
    by simplify_eq.
Qed.

Lemma keeps_update_row id f :
  (forall d r, bundle_freshness d !! id = Some r -> f r = r \/ row_step P (bundles d) id r (f r)) ->
  keeps (evolves P) (modify (update_row id f)).
Proof.
  intros Hf. apply keeps_modify_effect. intros d _. unfold update_row.
  destruct (bundle_freshness d !! id) as [r|] eqn:Hr; [right|by left].
  eapply eff_row; [done|]. eauto.
Qed.

Lemma evo_set_state id st rs p o :
  st ∈ STATES -> st <> st_fresh -> keeps (evolves P) (set_bundle_state id st rs p o).
Proof.
  intros Hst Hnf. apply keeps_modify_effect. intros d _.
  destruct (bundles d !! id) as [b|] eqn:Hb; [|by left].
  destruct (bundle_freshness d !! id) as [r|] eqn:Hr.
  - case_decide; [by left|right]. eapply eff_row; [done|]. right. by constructor.
  - right. by eapply E_born.
Qed.

Lemma evo_bump id : keeps (evolves P) (bump_epoch id).
Proof.
  apply keeps_effect. intros d a d' _ Hrun.
  destruct (bundle_freshness d !! id) as [r|] eqn:Hr; [|by simplify_eq; left].
  case_decide as Hret; [by simplify_eq; left|right].
  destruct (bigint (bf_epoch r + 1)) as [e|] eqn:He; [|done]. injection Hrun as <- <-.
  eapply eff_row; [done|]. right.
  unfold bigint in He. case_match; [|done]. injection He as <-. by constructor.
Qed.

Lemma evo_escalate v : keeps (evolves P) (escalate_blanket_invalidation v).
Proof.
  apply keeps_effect. intros d a d' _ Hrun. case_match; [|done]. injection Hrun as <- <-. right.
  constructor.
  - apply set_eq. intros id. rewrite !elem_of_dom, map_lookup_imap.
    by destruct (bundle_freshness d !! id).
  - intros id r r' Hr. rewrite map_lookup_imap, Hr. cbn. intros [= <-].
    destruct (blanket_hits d v id r) eqn:Hh; [right|by left].
    apply blanket_hits_spec in Hh as (? & _ & _). by constructor.
Qed.

Lemma stale_in : st_stale ∈ STATES.
Proof. apply stale_in_states. Qed.
Lemma reconciling_in : st_reconciling ∈ STATES.
Proof. unfold STATES. set_solver. Qed.
Lemma blocked_in : st_blocked ∈ STATES.
Proof. unfold STATES. set_solver. Qed.
Lemma retired_in : st_retired ∈ STATES.
Proof. unfold STATES. set_solver. Qed.

#[local] Hint Resolve keeps_audited evo_set_state evo_bump evo_escalate : keeps.
#[local] Hint Resolve stale_in reconciling_in blocked_in retired_in stale_ne_fresh
  reconciling_ne_fresh blocked_ne_fresh retired_ne_fresh : keeps.

Lemma evo_invalidate id : keeps (evolves P) (invalidate_dependent_bundle id).
Proof. unfold invalidate_dependent_bundle. keeps_auto. Qed.
#[local] Hint Resolve evo_invalidate : keeps.

Lemma evo_walk_edges ck edges v fr : keeps (evolves P) (walk_edges ck edges v fr).
Proof. revert v fr. induction edges as [|[t k] edges IH]; intros v fr; cbn [walk_edges]; keeps_auto. Qed.
#[local] Hint Resolve evo_walk_edges : keeps.

Lemma evo_walk fuel ck v fr : keeps (evolves P) (walk fuel ck v fr).
Proof.
  revert v fr. induction fuel as [|fuel IH]; intros v [|b fr]; cbn [walk]; keeps_auto.
Qed.
#[local] Hint Resolve evo_walk : keeps.

Lemma evo_propagate roots ck : keeps (evolves P) (propagate_transitive roots ck).
Proof. unfold propagate_transitive. keeps_auto. Qed.
#[local] Hint Resolve evo_propagate : keeps.

Lemma evo_scope_state id k key st rs p :
  k ∈ SCOPE_KINDS -> st ∈ STATES -> keeps (evolves P) (set_scope_state id k key st rs p).
Proof.
  intros Hk Hst. apply keeps_effect. intros d a d' _ Hrun.
  destruct (bundles d !! id) as [b|] eqn:Hb; [|by simplify_eq; left]. cbv zeta in Hrun.
  destruct (concept_freshness d !! (id, k, key)) as [r|] eqn:Hr.
  - case_decide; [by simplify_eq; left|]. case_decide; [done|]. injection Hrun as <- <-.
    right. by constructor.
  - injection Hrun as <- <-. right. by constructor.
Qed.
#[local] Hint Resolve evo_scope_state : keeps.

Lemma bundle_not_scope : k_bundle ∉ SCOPE_KINDS.
Proof. by_decide. Qed.

Lemma evo_target id k key : target_shape k key -> keeps (evolves P) (invalidate_target id k key).
Proof.
  intros [[-> ->]|[Hk [x ->]]]; unfold invalidate_target.
  - rewrite decide_True by done. keeps_auto.
  - rewrite decide_False; [keeps_auto|]. intros ->. by apply bundle_not_scope in Hk.
Qed.

Lemma evo_depart deps roots :
  Forall (fun x => target_shape (dd_scope_kind x) (dd_scope_key x)) deps ->
  keeps (evolves P) (depart_loop deps roots).
Proof.
  intros Hall. revert roots. induction Hall as [|x deps Hx Hall IH]; intros roots; cbn [depart_loop];
    keeps_auto. by apply evo_target.
Qed.

Lemma evo_departing deps :
  Forall (fun x => target_shape (dd_scope_kind x) (dd_scope_key x)) deps ->
  keeps (evolves P) (invalidate_departing_dependents deps).
Proof. intros Hall. unfold invalidate_departing_dependents. keeps_auto. by apply evo_depart. Qed.

(** *** Evaluation *)

Lemma evo_watermark id g e : keeps (evolves P) (advance_watermark id g e).
Proof. apply keeps_modify_effect. intros d _. right. constructor. Qed.
#[local] Hint Resolve evo_watermark : keeps.

Lemma evo_evaluate_one s ev g sc ch tr ck dep :
  target_shape (dep_target_kind dep) (dep_target_key dep) ->
  keeps (evolves P) (evaluate_one s ev g sc ch tr ck dep).
Proof.
  intros Hs. unfold evaluate_one, invalidate_registered_target. keeps_auto; by apply evo_target.
Qed.

Lemma evo_evaluate_loop s ev g sc ch tr ck deps acc :
  Forall (fun dep => target_shape (dep_target_kind dep) (dep_target_key dep)) deps ->
  keeps (evolves P) (evaluate_loop (evaluate_one s ev g sc ch tr ck) deps acc).
Proof.
  intros Hall. revert acc. induction Hall as [|x deps Hx Hall IH]; intros acc; cbn [evaluate_loop];
    keeps_auto. by apply evo_evaluate_one.
Qed.

Lemma wf_shapes d (l : list DependencyRow) :
  wf d -> l ⊆ freshness_dependency d ->
  Forall (fun dep => target_shape (dep_target_kind dep) (dep_target_key dep)) l.
Proof.
  intros Hwf Hsub. apply Forall_forall. intros r Hr. apply Hsub in Hr.
  apply (wf_deps d Hwf) in Hr as [[] _]. done.
Qed.

Lemma evo_evaluate s ev g sc ch tr ck :
  keeps (evolves P) (evaluate_dependencies s ev g sc ch tr ck).
Proof.
  unfold evaluate_dependencies. apply keeps_read. intros d Hwf.
  apply keeps_bind; [apply _| |intros; auto with keeps].
  apply evo_evaluate_loop, (wf_shapes d); [done|]. by intros r [_ ?]%list_elem_of_filter.
Qed.
#[local] Hint Resolve evo_evaluate : keeps.

Lemma evo_initialize id g h c : keeps (evolves P) (initialize_bundle id g h c).
Proof.
  apply keeps_modify_effect. intros d _. destruct (bundles d !! id) as [b|] eqn:Hb; [|by left].
  destruct (bundle_freshness d !! id) as [r|] eqn:Hr; [by left|right]. eapply E_born; [done..|].
  split_and!; [done|apply fresh_in_states|done|done].
Qed.

Lemma evo_coverage_missing id : keeps (evolves P) (mark_relationship_coverage_missing id).
Proof.
  unfold mark_relationship_coverage_missing. keeps_auto. apply keeps_update_row. intros d r Hr.
  case_decide; [by left|right; constructor].
Qed.

Lemma evo_coverage_clear id : keeps (evolves P) (clear_relationship_coverage_missing id).
Proof. apply keeps_update_row. intros d r Hr. case_match; [right; constructor|by left]. Qed.
#[local] Hint Resolve evo_initialize evo_coverage_missing evo_coverage_clear : keeps.

(** *** The outbox *)

Lemma evo_record id op g ch cx h : op ∈ OPERATIONS -> keeps (evolves P) (record_event id op g ch cx h).
Proof.
  intros Hop. unfold record_event. keeps_auto. apply keeps_effect. intros d a d' _ Hrun.
  destruct (bundles d !! id) as [b|] eqn:Hb; [|by simplify_eq; left]. injection Hrun as <- <-.
  right. by econstructor.
Qed.
#[local] Hint Resolve evo_record : keeps.

Lemma evo_prune n : keeps (evolves P) (prune_events n).
Proof.
  unfold prune_events. keeps_auto. apply keeps_modify_effect. intros d _. right. constructor.
Qed.
#[local] Hint Resolve evo_prune : keeps.

(** *** Publications *)

Lemma evo_supersede hit : keeps (evolves P) (supersede_where hit).
Proof. apply keeps_modify_effect. intros d _. right. constructor. Qed.

Lemma evo_unpublish hit : keeps (evolves P) (delete_publications hit).
Proof. apply keeps_modify_effect. intros d _. right. constructor. Qed.

Lemma evo_re_resolve l : keeps (evolves P) (re_resolve l).
Proof. apply keeps_modify_effect. intros d _. right. constructor. Qed.

Lemma evo_quarantine l : keeps (evolves P) (quarantine_absent_sources l).
Proof. apply keeps_modify_effect. intros d _. right. constructor. Qed.

Lemma evo_insert_rows i t s l : keeps (evolves P) (insert_rows i t s l).
Proof. apply keeps_modify_effect. intros d _. right. constructor. Qed.
#[local] Hint Resolve evo_supersede evo_unpublish evo_re_resolve evo_quarantine evo_insert_rows : keeps.

(** A step that establishes what the rest of the program needs. *)
Lemma post_evolves_bind {A B} (m : M A) (k : A -> M B) d :
  post m d (fun a d1 => evolves P d d1 /\ post (k a) d1 (fun _ d' => evolves P d1 d')) ->
  post (m ≫= k) d (fun _ d' => evolves P d d').
Proof.
  intros Hm b d' (a & d1 & Ha & Hb)%bind_done. destruct (Hm a d1 Ha) as [H1 H2].
  transitivity d1; [done|]. by apply (H2 b d').
Qed.

Lemma supersede_evolves hit d :
  evolves P d (set_publications
    (map (fun p => if (hit p : bool) then superseded_row p else p) (relationship_publication d))
    (relationship d) (publication_seq d) d).
Proof. apply evolves_one. constructor. Qed.

(** Superseding leaves no active publication among the ones it takes, and
    makes none. *)
Lemma superseded_inactive (hit : PublicationRow -> bool) id (l : list PublicationRow) :
  (forall p, p ∈ l -> is_active_of id p = true -> hit p = true) ->
  forall p, p ∈ map (fun p => if hit p then superseded_row p else p) l -> is_active_of id p = false.
Proof.
  intros Hh p' (p & -> & Hp)%list_elem_of_fmap. destruct (hit p) eqn:E.
  - unfold is_active_of. cbn. rewrite (bool_decide_eq_false_2 _ superseded_ne_active).
    apply andb_false_r.
  - destruct (is_active_of id p) eqn:Ea; [|done]. by rewrite (Hh p Hp Ea) in E.
Qed.

Lemma evo_activate_attempts id g d :
  (forall p, p ∈ relationship_publication d -> is_active_of id p = false) ->
  post (activate_attempts id g) d (fun _ d' => evolves P d d').
Proof.
  intros Hno. apply post_statement. intros ids d' [= <- <-]. apply evolves_one. by apply E_activate.
Qed.

Lemma evo_activate_staged id g : keeps (evolves P) (activate_staged id g).
Proof.
  unfold activate_staged. apply keeps_read. intros d _.
  apply post_evolves_bind, post_modify. split; [apply supersede_evolves|].
  apply post_evolves_bind, post_modify. split; [apply supersede_evolves|].
  apply post_evolves_bind. eapply post_mono.
  - apply evo_activate_attempts. apply superseded_inactive. cbn. intros p Hp Ha.
    by rewrite (superseded_inactive (is_active_of id) id (relationship_publication d)) in Ha.
  - intros ids d' He. split; [done|]. refine (keeps_bind (evolves P) _ _ _ _ d'); [|intros _].
    + case_match; keeps_auto.
    + unfold prune_aged_superseded. keeps_auto.
Qed.
#[local] Hint Resolve evo_activate_staged : keeps.

(** A program that only reads leaves the catalog as it is. *)
Lemma post_reads {A B} (m : M A) (k : A -> M B) d Q :
  keeps eq m -> (forall a, post (k a) d Q) -> post (m ≫= k) d Q.
Proof. intros Hm Hk b d' (a & d1 & Ha & Hb)%bind_done. apply (Hk a b d'). by rewrite (Hm d a d1 Ha). Qed.

Lemma reads_path id : keeps eq (bundle_path id).
Proof. unfold bundle_path. keeps_auto. Qed.

Lemma reads_fence t p id g k : keeps eq (checked_fence t p id g k).
Proof. unfold checked_fence. keeps_auto. Qed.

Lemma reads_endpoints id rows v : keeps eq (resolve_endpoints id rows v).
Proof. unfold resolve_endpoints. keeps_auto. Qed.

Lemma reads_publication i : keeps eq (load_publication_info i).
Proof. unfold load_publication_info. keeps_auto. Qed.

Lemma reads_evolve {A} (m : M A) : keeps eq m -> keeps (evolves P) m.
Proof. intros Hm d a d' Ha. by rewrite (Hm d a d' Ha). Qed.

#[local] Hint Resolve reads_path reads_fence reads_endpoints reads_publication : reads keeps.

(** The insert of a publication after its predecessor was superseded. *)
Lemma evo_insert_publication t p id path g ex tok sh mh act n d :
  is_Some (bundles d !! id) ->
  (forall q, q ∈ relationship_publication d ->
     ~ (pub_tenant q = t /\ pub_producer q = p /\ pub_bundle q = Some id /\ pub_generation q = g)) ->
  (act = true -> forall q, q ∈ relationship_publication d ->
     ~ (pub_tenant q = t /\ pub_producer q = p /\ is_active_of id q = true)) ->
  post (insert_publication t p id path g ex tok sh mh act n) d (fun _ d' => evolves P d d').
Proof.
  intros Hb Hg Ha. apply post_statement. intros i d' [= <- <-]. apply evolves_one.
  apply (E_publish P d {| pub_id := publication_seq d + 1 |}%Z); [done| | |].
  - split; [|by intros ? [= <-]]. cbn. unfold PUBLICATION_STATES. destruct act; set_solver.
  - intros q Hq [(Ht & Hp & Hbu & _) Hge]. by apply (Hg q Hq).
  - intros q Hq ((Ht & Hp & Hbu & _) & Hst & Hsq). cbn in *. destruct act; [|by apply staged_ne_active in Hst].
    apply (Ha eq_refl q Hq). unfold is_active_of. rewrite !bool_decide_eq_true_2 by done. done.
Qed.

Lemma existing_none d t p id g q :
  existing_publication d t p id g = None -> q ∈ relationship_publication d ->
  ~ (pub_tenant q = t /\ pub_producer q = p /\ pub_bundle q = Some id /\ pub_generation q = g).
Proof.
  intros Hnone Hq (Ht & Hp & Hb & Hg). unfold existing_publication in Hnone.
  pose proof (find_none _ _ Hnone q) as Hno. rewrite <- list_elem_of_In in Hno. specialize (Hno Hq).
  cbn in Hno. rewrite !bool_decide_eq_true_2 in Hno by done. cbn in Hno. lia.
Qed.

(** The write of a publication: the predecessor is superseded, the rows follow. *)
Lemma evo_publish act t p id path g ex tok sh mh n (k : Z -> M PublicationRow) d :
  is_Some (bundles d !! id) -> existing_publication d t p id g = None ->
  (forall i, keeps (evolves P) (k i)) ->
  post ((if (act : bool) then supersede_active t p id else mret tt) ;;
        i ← insert_publication t p id path g ex tok sh mh act n; k i) d (fun _ d' => evolves P d d').
Proof.
  intros Hb Hnone Hk.
  assert (forall d1, is_Some (bundles d1 !! id) ->
    (forall q, q ∈ relationship_publication d1 ->
       ~ (pub_tenant q = t /\ pub_producer q = p /\ pub_bundle q = Some id /\ pub_generation q = g)) ->
    (act = true -> forall q, q ∈ relationship_publication d1 ->
       ~ (pub_tenant q = t /\ pub_producer q = p /\ is_active_of id q = true)) ->
    post (i ← insert_publication t p id path g ex tok sh mh act n; k i) d1 (fun _ d' => evolves P d1 d'))
    as Hins.
  { intros d1 Hb1 Hg1 Ha1. apply post_evolves_bind. eapply post_mono; [by apply evo_insert_publication|].
    intros i d2 He. split; [done|]. apply Hk. }
  pose proof (fun q => existing_none d t p id g q Hnone) as Hg.
  destruct act; (apply post_evolves_bind; [apply post_modify || apply post_ret]).
  - split; [apply supersede_evolves|]. apply Hins; [done| |]; cbn.
    + intros q' (q & -> & Hq)%list_elem_of_fmap. specialize (Hg q Hq). by case_match.
    + intros _ q' (q & -> & Hq)%list_elem_of_fmap (Ht & Hp & Hact). case_match eqn:E.
      * unfold is_active_of in Hact. cbn in Hact.
        by rewrite (bool_decide_eq_false_2 _ superseded_ne_active), andb_false_r in Hact.
      * by rewrite Hact, !bool_decide_eq_true_2 in E.
  - split; [done|]. by apply Hins.
Qed.

Lemma evo_replace n p id g ex tok rows : keeps (evolves P) (replace_relationships_impl n p id g ex tok rows).
Proof.
  intros d. unfold replace_relationships_impl.
  do 8 (apply post_reads; [keeps_auto; auto with reads keeps|intros ?]).
  apply post_bind, post_get, post_bind, post_lift. intros b Hb.
  do 3 (apply post_reads; [keeps_auto; auto with reads keeps|intros ?]).
  destruct (canonicalize _) as [hashed set_hash].
  apply post_bind, post_get. destruct (existing_publication _ _ _ _ _) as [e|] eqn:He.
  - case_decide; [|apply post_fail]. by apply (reads_evolve _ (reads_publication (pub_id e))).
  - apply evo_publish; [|done|].
    + destruct (bundles d !! id); [by eexists|done].
    + intros i. keeps_auto; [unfold prune_aged_superseded; keeps_auto|].
      apply reads_evolve, reads_publication.
Qed.

(** *** Dependencies and freshness calls *)

Lemma evo_audit_dependency t op id : keeps (evolves P) (audit_dependency t op id).
Proof. unfold audit_dependency. keeps_auto. apply reads_evolve, reads_path. Qed.
#[local] Hint Resolve evo_audit_dependency : keeps.

Lemma selector_ok kind value u :
  validate_selector kind value = Ok u ->
  kind ∈ SELECTOR_KINDS /\ (kind = k_bundle <-> value = []).
Proof.
  unfold validate_selector. repeat case_bool_decide; cbn; try done; intros _; naive_solver.
Qed.

Lemma target_ok kind key u : validate_target_scope kind key = Ok u -> target_shape kind key.
Proof.
  unfold validate_target_scope. case_bool_decide as Hk; cbn; [|done].
  case_bool_decide as Hb; cbn.
  - case_bool_decide as Hs; [done|]. intros _. left. split; [done|]. by apply eq_None_not_Some.
  - destruct key as [[|c key]|]; cbn; [done| |done]. intros _. right. split; [|by eexists].
    unfold TARGET_SCOPE_KINDS, SCOPE_KINDS in *. set_solver.
Qed.

Lemma evo_register_dependency p s k v t tk ty ck :
  keeps (evolves P) (register_dependency_impl p s k v t tk ty ck).
Proof.
  intros d. unfold register_dependency_impl.
  do 2 (apply post_reads; [keeps_auto|intros ?]).
  apply post_bind, post_lift. intros ? Hsel. apply post_bind, post_lift. intros ? Htgt.
  do 3 (apply post_reads; [keeps_auto; auto with reads keeps|intros ?]).
  apply post_bind, post_get, post_bind, post_get_one. intros g Hg.
  refine (keeps_bind (evolves P) _ _ _ _ d); [|intros; keeps_auto].
  apply keeps_effect. intros d1 i d2 _ Hrun. destruct (bundles d1 !! s) as [b|] eqn:Hb; [|by simplify_eq; left].
  case_match; [by simplify_eq; left|]. case_bool_decide as Ht; [|done]. injection Hrun as <- <-. right.
  apply (E_depend P d1 {| dep_id := dependency_seq d1 + 1 |}%Z); [done|].
  split; cbn; [by eexists|done|by eapply selector_ok|by eapply target_ok].
Qed.

Lemma reads_dependency id : keeps eq (select_dependency_in_tenant id).
Proof. unfold select_dependency_in_tenant. keeps_auto. Qed.

Lemma evo_disable_dependency id : keeps (evolves P) (disable_dependency_impl id).
Proof.
  unfold disable_dependency_impl. keeps_auto; [apply reads_evolve, reads_dependency|].
  apply keeps_modify_effect. intros d _. right. constructor.
Qed.

Lemma evo_remove_dependency id : keeps (evolves P) (remove_dependency_impl id).
Proof.
  unfold remove_dependency_impl. keeps_auto; [apply reads_evolve, reads_dependency|].
  apply keeps_modify_effect. intros d _. right. constructor.
Qed.

Lemma evo_path id : keeps (evolves P) (bundle_path id).
Proof. apply reads_evolve, reads_path. Qed.
#[local] Hint Resolve evo_path : keeps.

Lemma evo_mark_stale id rs p o : keeps (evolves P) (mark_stale_impl id rs p o).
Proof. unfold mark_stale_impl. keeps_auto. Qed.

Lemma evo_claim_epoch id : keeps (evolves P) (claim_epoch id).
Proof.
  unfold claim_epoch. keeps_auto. apply keeps_effect. intros d i d' _ [= <- <-]. unfold update_row.
  destruct (bundle_freshness d !! id) as [r|] eqn:Hr; [right|by left].
  eapply eff_row; [done|]. right. constructor.
Qed.
#[local] Hint Resolve evo_claim_epoch : keeps.

Lemma evo_mark_reconciling id p : keeps (evolves P) (mark_reconciling_impl id p).
Proof. unfold mark_reconciling_impl. keeps_auto. Qed.

Lemma evo_mark_blocked id rs p : keeps (evolves P) (mark_blocked_impl id rs p).
Proof. unfold mark_blocked_impl. keeps_auto. Qed.

Lemma evo_mark_fresh id o g t m c p : keeps (evolves P) (mark_fresh_impl id o g t m c p).
Proof.
  unfold mark_fresh_impl. keeps_auto. apply keeps_effect. intros d a' d' _ Hrun.
  destruct (bundles d !! id) as [b|] eqn:Hb; [|by simplify_eq; left].
  destruct (bundle_freshness d !! id) as [r|] eqn:Hr; [|by simplify_eq; left].
  destruct (may_complete b r o g t) eqn:Hm; [|by simplify_eq; left]. injection Hrun as <- <-.
  right. eapply eff_row; [done|]. right. by econstructor.
Qed.

Lemma evo_mark_scope id k y rs p : keeps (evolves P) (mark_scope_stale_impl id k y rs p).
Proof.
  unfold mark_scope_stale_impl.
  destruct (decide (k ∈ SCOPE_KINDS)) as [Hk|Hk].
  - keeps_auto.
  - rewrite bool_decide_eq_false_2 by done. intros d.
    do 3 (apply post_reads; [keeps_auto; auto with reads keeps|intros ?]).
    apply post_bind, post_fail.
Qed.

Lemma evo_clear_scope id k y : keeps (evolves P) (clear_freshness_scope_impl id k y).
Proof.
  unfold clear_freshness_scope_impl. keeps_auto. apply keeps_effect. intros d a' d' _ [= <- <-].
  right. constructor.
Qed.

Lemma evo_repair id st rs : p_reset P id -> keeps (evolves P) (repair_bundle_freshness_impl id st rs).
Proof.
  intros HP. unfold repair_bundle_freshness_impl.
  destruct (decide (st ∈ STATES)) as [Hst|Hst].
  - keeps_auto. apply keeps_modify_effect. intros d _. destruct (bundles d !! id) as [b|] eqn:Hb; [right|by left].
    destruct (bundle_freshness d !! id) as [r|] eqn:Hr.
    + eapply eff_row; [done|]. right. by constructor.
    + by eapply E_born.
  - rewrite bool_decide_eq_false_2 by done. intros d.
    do 3 (apply post_reads; [keeps_auto; auto with reads keeps|intros ?]).
    apply post_bind, post_fail.
Qed.

(** *** Fences *)

Lemma evo_issue_fence id p t ex m l : keeps (evolves P) (issue_fence_impl id p t ex m l).
Proof.
  intros d. unfold issue_fence_impl.
  do 2 (apply post_reads; [keeps_auto|intros ?]).
  destruct (t <=? 0)%Z eqn:Ht; [apply post_bind, post_fail|]. apply post_bind, post_ret.
  do 3 (apply post_reads; [keeps_auto; auto with reads keeps|intros ?]).
  refine (keeps_read _ _ d). clear d. intros d Hwf.
  apply post_bind, post_lift. intros b Hb.
  do 2 (apply post_reads; [keeps_auto|intros ?]).
  apply post_statement. intros f d' Hrun.
  assert (is_Some (bundles d !! id)) as Hs by (destruct (bundles d !! id); [by eexists|done]).
  destruct (publication_fence d !! (b_tenant b, p, id)) as [f0|] eqn:Hf; cbn in Hrun.
  - rewrite Hf in Hrun. destruct (bigint (fe_token f0 + 1)) as [tok|] eqn:Htok; cbn in Hrun; [|done]. injection Hrun as <- <-.
    unfold bigint in Htok. case_match; [|done]. injection Htok as <-.
    destruct (wf_fences d Hwf _ _ _ _ Hf) as [_ [? ?]].
    apply evolves_one. constructor; [done|split; cbn; lia|]. intros old Hold. cbn. simplify_eq. lia.
  - rewrite Hf in Hrun. injection Hrun as <- <-. apply evolves_one. constructor; [done|split; cbn; lia|].
    intros old Hold. by rewrite Hf in Hold.
Qed.

Lemma evo_release_fence id p t : keeps (evolves P) (release_fence_impl id p t).
Proof.
  unfold release_fence_impl. keeps_auto. apply keeps_effect. intros d a' d' Hwf Hrun.
  destruct (bundles d !! id) as [b|] eqn:Hb; [|by simplify_eq; left]. cbv zeta in Hrun.
  destruct (publication_fence d !! (b_tenant b, p, id)) as [f|] eqn:Hf; [|by simplify_eq; left].
  case_match; [|by simplify_eq; left]. injection Hrun as <- <-. right.
  destruct (wf_fences d Hwf _ _ _ _ Hf) as [Hs Hok]. constructor; [done|done|].
  intros old Hold. cbn. simplify_eq. done.
Qed.

(** *** The outbox calls *)

Lemma keys_inj {A} (key : A -> Z) (l : list A) (x y : A) :
  NoDup (key <$> l) -> x ∈ l -> y ∈ l -> key x = key y -> x = y.
Proof.
  intros Hnd (i & Hi)%list_elem_of_lookup_1 (j & Hj)%list_elem_of_lookup_1 Hk.
  assert (i = j) as ->; [|congruence].
  eapply NoDup_lookup; [exact Hnd|rewrite list_lookup_fmap, Hi; reflexivity|].
  rewrite list_lookup_fmap, Hj. cbn. by rewrite Hk.
Qed.

(** The ids a claim picked belong to claimable events only. *)
Lemma picked_claimable d locked n e :
  wf d -> e ∈ catalog_change_event d -> ev_id e ∈ map ev_id (picked d locked n) -> claimable e = true.
Proof.
  intros Hwf He (e' & Hid & Hin)%list_elem_of_fmap. unfold picked in Hin.
  apply elem_of_take in Hin as (i & Hi & _). apply list_elem_of_lookup_2 in Hi.
  apply list_elem_of_filter in Hi as [(Hc & _) Hin].
  by rewrite (keys_inj ev_id _ e e' (wf_event_ids d Hwf) He Hin Hid).
Qed.

Lemma evo_claim locked p n l : keeps (evolves P) (claim_impl locked p n l).
Proof.
  unfold claim_impl. keeps_step; [keeps_auto|]. keeps_step; [keeps_auto|]. keeps_step; [keeps_auto|].
  apply keeps_read. intros d Hwf. apply post_statement. intros r d' Hrun. cbv zeta in Hrun.
  destruct (forallb _ _); [|done].
  injection Hrun as <- <-. apply evolves_one. apply E_claim. intros e He Hid. by eapply picked_claimable.
Qed.

Lemma evo_ack e p k : p_ack P e p -> keeps (evolves P) (ack_impl e p k).
Proof.
  intros HP. unfold ack_impl. keeps_auto. apply keeps_effect. intros d b d' _ [= <- <-].
  right. by apply E_ack.
Qed.

(** *** Lifecycle *)

Lemma evo_update_lifecycle id f :
  (forall g b, b_tenant (f g b) = b_tenant b /\ b_path (f g b) = b_path b) ->
  keeps (evolves P) (update_lifecycle id f).
Proof.
  intros Hf. apply keeps_effect. intros d i d' _ Hrun.
  destruct (bundles d !! id) as [b|] eqn:Hb; [|by simplify_eq; left].
  destruct (bigint (b_catalog_generation b + 1)) as [g|]; [|done]. injection Hrun as <- <-. right.
  eapply E_bundle; [done|apply Hf..].
Qed.

Lemma reads_select id : keeps eq (select_bundle_path id).
Proof. unfold select_bundle_path. keeps_auto. Qed.
Lemma reads_generation id : keeps eq (catalog_generation_of id).
Proof. unfold catalog_generation_of. keeps_auto. Qed.
Lemma evo_select id : keeps (evolves P) (select_bundle_path id).
Proof. apply reads_evolve, reads_select. Qed.
Lemma evo_generation id : keeps (evolves P) (catalog_generation_of id).
Proof. apply reads_evolve, reads_generation. Qed.
#[local] Hint Resolve evo_select evo_generation : keeps.

Lemma evo_emit id op g : op ∈ OPERATIONS -> keeps (evolves P) (emit_state_change_event id op g).
Proof. intros Hop. unfold emit_state_change_event. keeps_auto. Qed.

Lemma evo_transition id t :
  match t with Unretire => p_reset P id | _ => True end -> keeps (evolves P) (transition_bundle id t).
Proof.
  intros HP. destruct t; cbn [transition_bundle]; keeps_auto. apply keeps_update_row.
  intros d r Hr. right. by constructor.
Qed.

(** A step that captures the dependents of a source. *)
Lemma keeps_departing {B} id (k : list DepartingDependent -> M B) :
  (forall deps, Forall (fun x => target_shape (dd_scope_kind x) (dd_scope_key x)) deps ->
     keeps (evolves P) (k deps)) -> keeps (evolves P) (departing_dependents id ≫= k).
Proof.
  intros Hk d b d' (deps & d1 & Hrun & Hb)%bind_done Hwf.
  apply bind_done in Hrun as (? & ? & Hget & Hret). injection Hget as <- <-. injection Hret as <- <-.
  refine (Hk _ _ d b d' Hb Hwf). apply Forall_forall.
  intros x (r & -> & [_ Hr]%list_elem_of_filter)%list_elem_of_fmap.
  by apply (wf_deps d Hwf) in Hr as [[] _].
Qed.

Lemma evo_prune_detached : keeps (evolves P) prune_aged_detached_superseded.
Proof. apply evo_unpublish. Qed.
#[local] Hint Resolve evo_prune_detached : keeps.

Lemma in_operations (op : str) : bool_decide (op ∈ OPERATIONS) = true -> op ∈ OPERATIONS.
Proof. apply bool_decide_eq_true_1. Qed.

Lemma evo_delete_bundle id : p_delete P -> keeps (evolves P) (delete_bundle id).
Proof.
  intros HP. apply keeps_effect. intros d i d' _ Hrun.
  destruct (bundles d !! id) as [b|] eqn:Hb; [|by simplify_eq; left]. injection Hrun as <- <-. right.
  by apply E_unregister.
Qed.

Lemma evo_unregister id : p_delete P -> keeps (evolves P) (unregister_bundle_impl id).
Proof.
  intros HP. unfold unregister_bundle_impl.
  do 6 (keeps_step; [solve [keeps_auto; by apply evo_record, in_operations]|]).
  apply keeps_departing. intros deps Hdeps. keeps_auto; [by apply evo_delete_bundle|by apply evo_departing].
Qed.

Lemma evo_set_enabled id e : keeps (evolves P) (set_bundle_enabled_impl id e).
Proof.
  unfold set_bundle_enabled_impl. keeps_auto; try (by apply evo_update_lifecycle);
    try (by apply evo_transition); apply evo_emit; destruct e; by apply in_operations.
Qed.

Lemma evo_retire id : keeps (evolves P) (retire_bundle_impl id).
Proof.
  unfold retire_bundle_impl. keeps_auto; [by apply evo_update_lifecycle|by apply evo_transition|].
  by apply evo_emit, in_operations.
Qed.

Lemma evo_unretire id : p_reset P id -> keeps (evolves P) (unretire_bundle_impl id).
Proof.
  intros HP. unfold unretire_bundle_impl.
  keeps_auto; [by apply evo_update_lifecycle|by apply evo_transition|]. by apply evo_emit, in_operations.
Qed.

Lemma evo_delete_eligible id c : p_delete P -> keeps (evolves P) (delete_bundle_row_if_eligible id c).
Proof.
  intros HP. apply keeps_effect. intros d i d' _ Hrun.
  destruct (bundles d !! id) as [b|] eqn:Hb; [|by simplify_eq; left].
  case_match; [|by simplify_eq; left]. injection Hrun as <- <-. right. by apply E_unregister.
Qed.

Lemma evo_purge_one c n x : p_delete P -> keeps (evolves P) (purge_one c n x).
Proof.
  intros HP. destruct x as [id path]. unfold purge_one. keeps_step; [keeps_auto|]. cbv zeta.
  destruct (negb _); [keeps_auto|].
  do 2 (keeps_step; [solve [keeps_auto; by apply evo_record, in_operations]|]).
  apply keeps_departing. intros deps Hdeps. keeps_auto; [by apply evo_delete_eligible|by apply evo_departing].
Qed.

Lemma evo_purge c : p_delete P -> keeps (evolves P) (purge_retired_impl c).
Proof.
  intros HP. unfold purge_retired_impl, select_purgeable_bundles. keeps_auto. cbv zeta. keeps_auto.
  match goal with |- keeps _ (purge_loop _ _ ?l ?n) => generalize l, n end.
  intros l. induction l as [|x l IH]; intros n; cbn [purge_loop]; keeps_auto; by apply evo_purge_one.
Qed.

(** *** Sync *)

Lemma operation_for_sync_ok c : operation_for_sync c ∈ OPERATIONS.
Proof.
  unfold operation_for_sync. repeat case_match; try case_decide; try by apply in_operations.
Qed.

Lemma evo_update_bundle_row id h v : keeps (evolves P) (update_bundle_row id h v).
Proof.
  unfold update_bundle_row. keeps_auto. apply keeps_effect. intros d i d' _ Hrun.
  destruct (bundles d !! id) as [b|] eqn:Hb; [|by simplify_eq; left].
  destruct (bigint (b_catalog_generation b + 1)) as [g|]; [|done]. injection Hrun as <- <-. right.
  by eapply E_bundle.
Qed.

Lemma evo_write_concepts id r s : keeps (evolves P) (write_concepts id r s).
Proof. apply keeps_modify_effect. intros d _. right. constructor. Qed.
#[local] Hint Resolve evo_update_bundle_row evo_write_concepts : keeps.

Lemma evo_record_evaluate id w cx g h m : keeps (evolves P) (record_event_and_evaluate id w cx g h m).
Proof.
  unfold record_event_and_evaluate. cbv zeta. keeps_auto. apply evo_record, operation_for_sync_ok.
Qed.
#[local] Hint Resolve evo_record_evaluate : keeps.

Lemma evo_sync_tail id p op w cx h v c : keeps (evolves P) (sync_tail id p op w cx h v c).
Proof. unfold sync_tail. keeps_auto. Qed.
#[local] Hint Resolve evo_sync_tail : keeps.

Lemma evo_insert_bundle p n s : p_insert P -> keeps (evolves P) (insert_bundle p n s).
Proof.
  intros HP. apply keeps_effect. intros d i d' _ Hrun.
  case_bool_decide as Hno; [|done]. injection Hrun as <- <-. right. apply E_register; [done|].
  intros j c Hj [Ht Hp]. by apply (Hno j c Hj).
Qed.
#[local] Hint Resolve evo_insert_bundle : keeps.

Lemma evo_register p n w cx h v c : p_insert P -> keeps (evolves P) (register_bundle_tail p n w cx h v c).
Proof. intros HP. unfold register_bundle_tail, insert_bundle_row. keeps_auto. Qed.

Lemma evo_content l n ps cs w cx h v c :
  p_insert P -> keeps (evolves P) (register_content_tail l n ps cs w cx h v c).
Proof. intros HP. unfold register_content_tail, insert_content_bundle. cbv zeta. keeps_auto. Qed.

(** *** Configuration *)

Lemma evo_update_config f : keeps (evolves P) (update_config f).
Proof.
  apply keeps_effect. intros d a d' _ Hrun. cbv zeta in Hrun. destruct (config_checks _) eqn:Hc; [|done].
  injection Hrun as <- <-. right. by constructor.
Qed.

(** The revocation reaches fresh rows only. *)
Lemma evo_revoke embedded : keeps (evolves P) (invalidate_embeddings_for_contract_change embedded).
Proof.
  apply keeps_modify_effect. intros d _. right. constructor.
  - apply set_eq. intros id. rewrite !elem_of_dom, map_lookup_imap. by destruct (bundle_freshness d !! id).
  - intros id r r' Hr. rewrite map_lookup_imap, Hr. cbn. intros [= <-].
    case_bool_decide as Hf; [|by left]. case_bool_decide; [right|by left]. by constructor.
Qed.
#[local] Hint Resolve evo_update_config evo_revoke : keeps.

Lemma evo_set_config ts emb k v : keeps (evolves P) (set_config_impl ts emb k v).
Proof.
  unfold set_config_impl, with_embedding_contract_invalidation, persist, ensure_text_search_config_exists.
  keeps_auto.
Qed.

Lemma evo_reset_config emb k : keeps (evolves P) (reset_config_impl emb k).
Proof.
  unfold reset_config_impl, with_embedding_contract_invalidation, reset_key, reset_all. keeps_auto.
Qed.

Lemma evo_refresh id w cx h v c : keeps (evolves P) (refresh_bundle_tail id w cx h v c).
Proof. unfold refresh_bundle_tail. keeps_auto. Qed.

End evolve.

(** The permissions of a call. *)
Definition perms_of {J : RowJson} (a : api) : perms :=
  {| p_insert := match a with
                 | ARegister _ _ _ _ _ _ _ | AContent _ _ _ _ _ _ _ _ _ => True
                 | _ => False
                 end;
     p_delete := match a with AUnregister _ | APurge _ => True | _ => False end;
     p_reset := fun id => match a with
                          | AUnretire id' | ARepair id' _ _ => id' = id
                          | _ => False
                          end;
     p_ack := fun id producer => match a with
                                 | AAck id' producer' _ => id' = id /\ producer' = producer
                                 | _ => False
                                 end |}.

Lemma api_effects `{Ses : Session, PT : PgText, J : RowJson} (a : api) d d' :
  run_api a d = Done tt d' -> wf d -> rtc (eff (perms_of a)) d d'.
Proof.
  assert (keeps (evolves (perms_of a)) (run_api a)) as Hk; [|intros Hrun; by apply (Hk d tt d' Hrun)].
  destruct a; cbn [run_api];
    try (apply keeps_bind; [apply _| |intros; apply keeps_ret; apply _]).
  - apply evo_register_dependency.
  - apply evo_disable_dependency.
  - apply evo_remove_dependency.
  - apply evo_mark_stale.
  - apply evo_mark_reconciling.
  - apply evo_mark_blocked.
  - apply evo_mark_fresh.
  - apply evo_mark_scope.
  - apply evo_clear_scope.
  - by apply evo_repair.
  - apply evo_issue_fence.
  - apply evo_release_fence.
  - apply evo_replace.
  - apply evo_claim.
  - by apply evo_ack.
  - by apply evo_unregister.
  - apply evo_set_enabled.
  - apply evo_retire.
  - by apply evo_unretire.
  - by apply evo_purge.
  - by apply evo_register.
  - apply evo_refresh.
  - by apply evo_content.
  - apply evo_set_config.
  - apply evo_reset_config.
Qed.

Lemma api_config `{Ses : Session, PT : PgText, J : RowJson} (a : api) d d' :
  run_api a d = Done tt d' -> wf d -> config_checks (config d) = true -> config_checks (config d') = true.
Proof.
  intros Hrun Hwf. assert (rtc (eff (perms_of a)) d d') as He by (by apply api_effects).
  clear Hrun Hwf. induction He as [|x y z Hxy _ IH]; [done|]. intros Hc. apply IH. by eapply eff_config.
Qed.

Lemma api_wf `{Ses : Session, PT : PgText, J : RowJson} (a : api) d d' :
  run_api a d = Done tt d' -> wf d -> wf d'.
Proof. intros Hrun Hwf. eapply effs_wf; [by eapply api_effects|done]. Qed.
