(* ===== verification/CatalogHistory.v ===== *)
(** * Histories of the catalog

    What holds along any sequence of committed calls, whichever sessions make
    them: bundle ids are never reused, invalidation epochs and fencing tokens
    never go back, and a bundle never lacks its freshness row between
    calls. *)
From stdpp Require Import prelude strings gmap list sorting.
From Stdlib Require Import Ascii ZArith Lia.
From S2P Require Import Prelude Str BTree CatalogError Security Catalog Freshness Config FreshnessWalk FreshnessEval FreshnessApi Outbox Relationships Lifecycle Content CatalogWf CatalogApi.

(** A call is what a session asks for. *)
Record call {J : RowJson} : Type := {
  c_session : Session;
  c_api : api
}.

(** The committed calls that lead from one catalog to another, oldest
    first. *)
Inductive hist {PT : PgText} {J : RowJson} : list call -> Db -> Db -> Prop :=
| hist_nil d : hist [] d d
| hist_cons c tr d d1 d2 : run_api (Ses := c_session c) (c_api c) d = Done tt d1 -> hist tr d1 d2 ->
    hist (c :: tr) d d2.

(** A catalog just installed. *)
Definition installed (c : Config) : Db :=
  {| bundles := ∅; bundle_freshness := ∅; concept_freshness := ∅; freshness_dependency := [];
     publication_fence := ∅; catalog_change_event := []; relationship_publication := [];
     relationship := []; concepts := ∅; sync_log := []; config := c;
     bundle_seq := 0; dependency_seq := 0; event_seq := 0; publication_seq := 0; log_seq := 0 |}.

Lemma wf_installed c : wf (installed c).
Proof.
  split; cbn; try (by intros ? ?%elem_of_nil); try (by apply NoDup_nil);
    try (by intros ? ? ?%elem_of_nil); try (by intros ? ? ? ? ?); by intros ? ? ?.
Qed.

(** ** What every effect keeps *)

(** The bundles of [d] that [d'] still has are the same ones, their epochs
    and their fences did not go back, and those that went are gone for
    good. *)
Record lineage (d d' : Db) : Prop := {
  ln_wf : wf d';
  ln_seq : (bundle_seq d <= bundle_seq d')%Z;
  ln_gone : forall id, (id <= bundle_seq d)%Z -> bundles d !! id = None -> bundles d' !! id = None;
  ln_tenant : forall id b b', bundles d !! id = Some b -> bundles d' !! id = Some b' ->
              b_tenant b' = b_tenant b;
  ln_row : forall id r, bundle_freshness d !! id = Some r -> is_Some (bundles d' !! id) ->
           exists r', bundle_freshness d' !! id = Some r' /\ (bf_epoch r <= bf_epoch r')%Z;
  ln_fence : forall t p id f, publication_fence d !! (t, p, id) = Some f -> is_Some (bundles d' !! id) ->
             exists f', publication_fence d' !! (t, p, id) = Some f' /\ (fe_token f <= fe_token f')%Z
}.

Lemma lineage_refl d : wf d -> lineage d d.
Proof.
  intros Hwf. split; try done.
  - intros id b b' Hb Hb'. by simplify_eq.
  - intros id r Hr _. by exists r.
  - intros t p id f Hf _. by exists f.
Qed.

(** A bundle present at both ends was there throughout. *)
Lemma lineage_between d1 d2 d3 id :
  wf d1 -> lineage d1 d2 -> lineage d2 d3 -> is_Some (bundles d1 !! id) -> is_Some (bundles d3 !! id) ->
  is_Some (bundles d2 !! id).
Proof.
  intros Hwf H12 H23 [b Hb] [b' Hb']. destruct (bundles d2 !! id) as [?|] eqn:H2; [by eexists|].
  apply (ln_gone _ _ H23) in H2; [congruence|]. pose proof (wf_bundle_ids d1 Hwf id b Hb).
  pose proof (ln_seq _ _ H12). lia.
Qed.

Lemma lineage_trans d1 d2 d3 : wf d1 -> lineage d1 d2 -> lineage d2 d3 -> lineage d1 d3.
Proof.
  intros Hwf H12 H23. pose proof (lineage_between d1 d2 d3) as Hmid. split.
  - apply H23.
  - pose proof (ln_seq _ _ H12). pose proof (ln_seq _ _ H23). lia.
  - intros id Hle Hn. apply (ln_gone _ _ H23); [pose proof (ln_seq _ _ H12); lia|].
    by apply (ln_gone _ _ H12).
  - intros id b b' Hb Hb'. assert (is_Some (bundles d2 !! id)) as [b2 Hb2] by (apply Hmid; try done; by eexists).
    rewrite (ln_tenant _ _ H23 id b2 b' Hb2 Hb'). by apply (ln_tenant _ _ H12 id).
  - intros id r Hr Hs. destruct (wf_rows d1 Hwf id r Hr) as [(b & Hb & _) _ _].
    assert (is_Some (bundles d2 !! id)) as Hs2 by (apply Hmid; try done; by eexists).
    destruct (ln_row _ _ H12 id r Hr Hs2) as (r2 & Hr2 & Hle2).
    destruct (ln_row _ _ H23 id r2 Hr2 Hs) as (r3 & Hr3 & Hle3). exists r3. split; [done|lia].
  - intros t p id f Hf Hs. destruct (wf_fences d1 Hwf t p id f Hf) as [Hb _].
    assert (is_Some (bundles d2 !! id)) as Hs2 by (by apply Hmid).
    destruct (ln_fence _ _ H12 t p id f Hf Hs2) as (f2 & Hf2 & Hle2).
    destruct (ln_fence _ _ H23 t p id f2 Hf2 Hs) as (f3 & Hf3 & Hle3). exists f3. split; [done|lia].
Qed.

Section effects.
Context `{Ses : Session, PT : PgText}.

(** No transition of a row takes its epoch back. *)
Lemma row_step_epoch P t id r r' : row_step P t id r r' -> (bf_epoch r <= bf_epoch r')%Z.
Proof. destruct 1; cbn; lia. Qed.

(** An effect on other tables. *)
Lemma lineage_frame d d' :
  wf d' -> bundles d' = bundles d -> bundle_seq d' = bundle_seq d ->
  bundle_freshness d' = bundle_freshness d -> publication_fence d' = publication_fence d ->
  lineage d d'.
Proof.
  intros Hwf Hb Hs Hr Hf. split; rewrite ?Hb, ?Hs, ?Hr, ?Hf; try done.
  - intros id b b' ? ?. by simplify_eq.
  - eauto using Z.le_refl.
  - eauto using Z.le_refl.
Qed.

Lemma lineage_rows d t :
  wf (set_freshness t d) ->
  (forall id r, bundle_freshness d !! id = Some r -> exists r', t !! id = Some r' /\ (bf_epoch r <= bf_epoch r')%Z) ->
  lineage d (set_freshness t d).
Proof.
  intros Hwf Ht. split; cbn; try done.
  - intros id b b' ? ?. by simplify_eq.
  - eauto using Z.le_refl.
  - eauto using Z.le_refl.
Qed.

Lemma eff_lineage P d d' : wf d -> eff P d d' -> lineage d d'.
Proof.
  intros Hwf He. assert (wf d') as Hwf' by (by eapply eff_wf).
  destruct He as [| |id b r Hb Hn Hborn|t Hdom Hstep| | | | | | |t p id f Hb Hf Hold| | | | | | | | |
    |id b b' Hb Ht Hpa|b Hp Hno|id Hp|]; try (by apply lineage_frame).
  - apply lineage_rows; [done|]. intros j x Hx. exists x. split; [|lia].
    rewrite lookup_insert_ne; [done|]. congruence.
  - apply lineage_rows; [done|]. intros id r Hr.
    assert (id ∈ dom t) as [r' Hr']%elem_of_dom by (rewrite Hdom; by apply elem_of_dom_2 in Hr).
    exists r'. split; [done|]. destruct (Hstep id r r' Hr Hr') as [-> |Hs]; [done|by eapply row_step_epoch].
  - split; cbn; try done; [intros ? ? ? ? ?; by simplify_eq|eauto using Z.le_refl|].
    intros u q j g Hg _. destruct (decide ((t, p, id) = (u, q, j))) as [[= -> -> ->]|Hne].
    + exists f. rewrite lookup_insert_eq. split; [done|]. by apply Hold.
    + exists g. by rewrite lookup_insert_ne.
  - split; cbn; try done; [| |eauto using Z.le_refl|eauto using Z.le_refl].
    + intros j _ Hj. destruct (decide (j = id)) as [->|Hne]; [congruence|by rewrite lookup_insert_ne].
    + intros j c c' Hc [[<- <-]|[_ Hj]]%lookup_insert_Some; congruence.
  - split; cbn; try done; [lia| | |eauto using Z.le_refl|eauto using Z.le_refl].
    + intros j Hle Hj. rewrite lookup_insert_ne by lia. done.
    + intros j c c' Hc. pose proof (wf_bundle_ids d Hwf j c Hc).
      rewrite lookup_insert_ne by lia. congruence.
  - split; cbn; try done.
    + intros j _ Hj. destruct (decide (j = id)) as [->|Hne]; [by rewrite lookup_delete_eq|].
      by rewrite lookup_delete_ne.
    + intros j c c' Hc [_ Hj]%lookup_delete_Some. congruence.
    + intros j r Hr [c [Hne _]%lookup_delete_Some]. exists r. by rewrite lookup_delete_ne.
    + intros u q j f Hf [c [Hne _]%lookup_delete_Some]. exists f. split; [|done].
      apply map_lookup_filter_Some. naive_solver.
Qed.

Lemma effs_lineage P d d' : wf d -> rtc (eff P) d d' -> lineage d d'.
Proof.
  intros Hwf Hr. revert Hwf. induction Hr as [d|d1 d2 d3 He _ IH]; intros Hwf; [by apply lineage_refl|].
  apply lineage_trans with d2; [done|by eapply eff_lineage|]. apply IH. by eapply eff_wf.
Qed.

End effects.

Section histories.
Context `{PT : PgText, J : RowJson}.
Implicit Types (c : call) (tr : list call).

Lemma call_lineage (Ses : Session) (a : api) d d' : run_api a d = Done tt d' -> wf d -> lineage d d'.
Proof. intros Hrun Hwf. eapply effs_lineage; [done|by eapply api_effects]. Qed.

Lemma hist_lineage tr d d' : hist tr d d' -> wf d -> lineage d d'.
Proof.
  induction 1 as [d|c tr d d1 d2 Hrun _ IH]; intros Hwf; [by apply lineage_refl|].
  pose proof (call_lineage _ _ _ _ Hrun Hwf) as H1.
  apply lineage_trans with d1; [done|done|]. apply IH, H1.
Qed.

Lemma hist_app tr tr' d d1 d2 : hist tr d d1 -> hist tr' d1 d2 -> hist (tr ++ tr') d d2.
Proof. induction 1; [done|]. intros. econstructor; eauto. Qed.

End histories.

(** ** Every bundle has its freshness row *)

(** The bundles are the same ones and no freshness row went. *)
Definition grows (d d' : Db) : Prop :=
  dom (bundles d') = dom (bundles d) /\ dom (bundle_freshness d) ⊆ dom (bundle_freshness d').

#[export] Instance grows_preorder : PreOrder grows.
Proof.
  split; [by intros d|]. intros d1 d2 d3 [Hb12 Hf12] [Hb23 Hf23]. split; [by rewrite Hb23|set_solver].
Qed.

Section rows.
Context `{Ses : Session, PT : PgText}.

Lemma eff_rows_match P d d' : ~ p_insert P -> eff P d d' -> rows_match d -> rows_match d'.
Proof.
  unfold rows_match. intros HP He Hm.
  destruct He as [| |id b r Hb Hn Hborn|t Hdom Hstep| | | | | | | | | | | | | | | |
    |id b b' Hb Ht Hpa|b Hp Hno|id Hp|]; cbn in *; try done.
  - rewrite dom_insert_L. assert (id ∈ dom (bundles d)) by (by apply elem_of_dom_2 in Hb). set_solver.
  - by rewrite Hdom.
  - rewrite dom_insert_lookup_L; [done|by eexists].
  - by rewrite !dom_delete_L, Hm.
Qed.

Lemma eff_grows P d d' : ~ p_insert P -> ~ p_delete P -> eff P d d' -> grows d d'.
Proof.
  unfold grows. intros HP HD He.
  destruct He as [| |id b r Hb Hn Hborn|t Hdom Hstep| | | | | | | | | | | | | | | |
    |id b b' Hb Ht Hpa|b Hp Hno|id Hp|]; cbn in *; try done.
  - split; [done|]. rewrite dom_insert_L. set_solver.
  - by rewrite Hdom.
  - split; [|done]. rewrite dom_insert_lookup_L; [done|by eexists].
Qed.

Definition no_perms : perms :=
  {| p_insert := False; p_delete := False; p_reset := fun _ => False; p_ack := fun _ _ => False |}.

Lemma evolves_grows d d' : evolves no_perms d d' -> wf d -> grows d d' /\ wf d'.
Proof.
  intros He Hwf. specialize (He Hwf). split; [|by eapply effs_wf].
  clear Hwf. induction He as [d|d1 d2 d3 H12 _ IH]; [done|].
  transitivity d2; [eapply eff_grows; [..|exact H12]; by intros []|done].
Qed.

(** A step that leaves the bundles, from a well-formed catalog. *)
Lemma run_grows {A} (m : M A) d a d' :
  keeps (evolves no_perms) m -> m d = Done a d' -> wf d -> grows d d' /\ wf d'.
Proof. intros Hm Hrun. apply evolves_grows. by apply (Hm d a d'). Qed.

Lemma initialize_row id g h c d d' :
  initialize_bundle id g h c d = Done tt d' -> id ∈ dom (bundles d) -> id ∈ dom (bundle_freshness d').
Proof.
  intros [= <-] [b Hb]%elem_of_dom. rewrite Hb. destruct (bundle_freshness d !! id) eqn:Hr.
  - by apply elem_of_dom_2 in Hr.
  - cbn. rewrite dom_insert_L. set_solver.
Qed.

(** Once the sync of a bundle is through, the bundle has its row. *)
Lemma sync_initializes id p op w cx h v c d e d' :
  sync_tail id p op w cx h v c d = Done e d' -> wf d -> id ∈ dom (bundles d) ->
  grows d d' /\ id ∈ dom (bundle_freshness d').
Proof.
  intros Hrun Hwf Hid. split; [by eapply run_grows; [apply evo_sync_tail|..]|].
  unfold sync_tail in Hrun.
  apply bind_done in Hrun as (? & d1 & H1 & Hrun).
  apply (run_grows _ _ _ _ (evo_write_concepts _ _ _ _)) in H1 as [[Hb1 _] Hwf1]; [|done].
  apply bind_done in Hrun as (g & d2 & H2 & Hrun).
  apply (run_grows _ _ _ _ (evo_update_bundle_row _ _ _ _)) in H2 as [[Hb2 _] Hwf2]; [|done].
  apply bind_done in Hrun as (m & d3 & H3 & Hrun).
  apply (run_grows _ _ _ _ (evo_activate_staged _ _ _)) in H3 as [[Hb3 _] Hwf3]; [|done].
  apply bind_done in Hrun as (? & d4 & H4 & Hrun).
  assert (id ∈ dom (bundle_freshness d4)) as Hrow.
  { assert (id ∈ dom (bundles d3)) as Hid3 by (by rewrite Hb3, Hb2, Hb1).
    clear - H4 Hid3 Hwf3. unfold record_event_and_evaluate in H4. cbv zeta in H4.
    apply bind_done in H4 as (ev & d5 & H5 & H4).
    eapply run_grows in H5 as [[Hb5 _] Hwf5]; [|apply evo_record, operation_for_sync_ok|done].
    apply bind_done in H4 as ([] & d6 & H6 & H4).
    pose proof H6 as Hwf6. eapply run_grows in Hwf6 as [_ Hwf6]; [|apply evo_initialize|done].
    apply initialize_row in H6; [|by rewrite Hb5].
    eapply run_grows in H4 as [[_ Hf] _]; [by apply Hf| |done].
    pose proof (evo_coverage_missing no_perms id). pose proof (evo_prune no_perms).
    keeps_auto; auto using evo_evaluate, evo_coverage_missing, evo_prune. }
  eapply run_grows in Hrun as [[_ Hf] _]; [by apply Hf| |].
  - keeps_auto. apply keeps_audited.
  - eapply run_grows; [apply evo_record_evaluate|exact H4|done].
Qed.

End rows.

Section complete.
Context `{PT : PgText, J : RowJson}.
Implicit Types (tr : list call).

Lemma insert_bundle_run `{Ses : Session} p n s d i d' :
  insert_bundle p n s d = Done i d' ->
  dom (bundles d') = {[i]} ∪ dom (bundles d) /\ bundle_freshness d' = bundle_freshness d.
Proof.
  unfold insert_bundle, statement. case_match; [|done]. case_match; [|done].
  intros Hrun. simplify_eq. cbn. by rewrite dom_insert_L.
Qed.

(** The sync of a bundle just inserted leaves a row for every bundle. *)
Lemma insert_sync_rows_match (Ses : Session) q n s p op w cx h v counts d i d1 e d2 :
  insert_bundle q n s d = Done i d1 -> sync_tail i p op w cx h v counts d1 = Done e d2 ->
  wf d -> rows_match d -> rows_match d2.
Proof.
  intros H1 H2 Hwf Hm.
  assert (wf d1) as Hwf1.
  { set (P := {| p_insert := True; p_delete := False; p_reset := fun _ => False; p_ack := fun _ _ => False |}).
    eapply (effs_wf P); [|exact Hwf]. by apply (evo_insert_bundle P q n s I d i d1 H1). }
  apply insert_bundle_run in H1 as [Hd Hf].
  destruct (sync_initializes _ _ _ _ _ _ _ _ _ _ _ H2 Hwf1) as [[Hb2 Hf2] Hid]; [set_solver|].
  assert (wf d2) as Hwf2 by (eapply run_grows; [apply evo_sync_tail|exact H2|done]).
  unfold rows_match in *. apply set_eq. intros j. rewrite Hb2, Hd. split.
  - intros [r Hr]%elem_of_dom. apply (wf_rows d2 Hwf2) in Hr as [(b & Hb & _) _ _].
    rewrite <- Hd, <- Hb2. by apply elem_of_dom_2 in Hb.
  - rewrite elem_of_union, elem_of_singleton, <- Hm, <- Hf. intros [-> |Hj]; [done|by apply Hf2].
Qed.

Lemma grows_rows_match d d' : grows d d' -> wf d' -> rows_match d -> rows_match d'.
Proof.
  intros [Hb Hf] Hwf Hm. unfold rows_match in *. apply set_eq. intros id. split.
  - intros [r Hr]%elem_of_dom. apply (wf_rows d' Hwf) in Hr as [(c & Hc & _) _ _].
    by apply elem_of_dom_2 in Hc.
  - rewrite Hb, <- Hm. apply Hf.
Qed.

Lemma register_rows_match (Ses : Session) p n w cx h v counts d i d' :
  register_bundle_tail p n w cx h v counts d = Done i d' -> wf d -> rows_match d -> rows_match d'.
Proof.
  unfold register_bundle_tail. intros Hrun Hwf Hm.
  apply bind_done in Hrun as ([] & d0 & H0 & Hrun).
  apply (keeps_authorize eq) in H0 as <-.
  apply bind_done in Hrun as (? & ? & Hget & Hrun). injection Hget as <- <-.
  apply bind_done in Hrun as ([] & d0 & H0 & Hrun).
  assert (d0 = d) as -> by (destruct (bool_decide _); [by injection H0|done]).
  apply bind_done in Hrun as (id & d1 & H1 & Hrun).
  apply bind_done in Hrun as (e & d2 & H2 & Hret). injection Hret as <- <-.
  by eapply insert_sync_rows_match.
Qed.

Lemma content_rows_match (Ses : Session) l n ps cs w cx h v counts d i d' :
  register_content_tail l n ps cs w cx h v counts d = Done i d' -> wf d -> rows_match d -> rows_match d'.
Proof.
  unfold register_content_tail. intros Hrun Hwf Hm.
  apply bind_done in Hrun as ([] & d0 & H0 & Hrun).
  apply (keeps_authorize eq) in H0 as <-.
  apply bind_done in Hrun as ([] & d0 & H0 & Hrun). apply (keeps_lift eq) in H0 as <-. cbv zeta in Hrun.
  apply bind_done in Hrun as (? & ? & Hget & Hrun). injection Hget as <- <-.
  apply bind_done in Hrun as (id & d1 & H1 & Hrun).
  apply bind_done in Hrun as (e & d2 & H2 & Hret). injection Hret as <- <-.
  destruct (lookup_content_bundle _ d) as [id'|] eqn:Hl; [|by eapply insert_sync_rows_match].
  injection H1 as -> <-. apply lookup_content_some in Hl as (b & Hb & _).
  destruct (sync_initializes _ _ _ _ _ _ _ _ _ _ _ H2 Hwf) as [Hg _]; [by apply elem_of_dom_2 in Hb|].
  apply (grows_rows_match d); [done| |done]. by eapply run_grows; [apply evo_sync_tail|exact H2|].
Qed.

Lemma call_rows_match (Ses : Session) (a : api) d d' :
  run_api a d = Done tt d' -> wf d -> rows_match d -> rows_match d'.
Proof.
  intros Hrun Hwf Hm.
  assert (p_insert (perms_of a) \/ ~ p_insert (perms_of a)) as [Hp|Hp] by (destruct a; cbn; tauto).
  - destruct a; try done; cbn [run_api] in Hrun;
      apply bind_done in Hrun as (i & d1 & Hrun & Hret); injection Hret as <-;
      [by eapply register_rows_match|by eapply content_rows_match].
  - assert (rtc (eff (perms_of a)) d d') as He by (by apply api_effects).
    clear Hrun Hwf. induction He as [d|d1 d2 d3 H12 _ IH]; [done|]. apply IH.
    by eapply eff_rows_match.
Qed.

Lemma hist_rows_match tr d d' : hist tr d d' -> wf d -> rows_match d -> wf d' /\ rows_match d'.
Proof.
  induction 1 as [d|c tr d d1 d2 Hrun _ IH]; intros Hwf Hm; [done|].
  apply IH; [by eapply api_wf|by eapply call_rows_match].
Qed.

Lemma hist_config tr d d' :
  hist tr d d' -> wf d -> config_checks (config d) = true -> config_checks (config d') = true.
Proof.
  induction 1 as [d|c tr d d1 d2 Hrun _ IH]; intros Hwf Hc; [done|].
  apply IH; [by eapply api_wf|by eapply api_config].
Qed.

Lemma installed_rows_match c : rows_match (installed c).
Proof. done. Qed.

End complete.

(** ** Running a history *)

(** The calls one after the other, if every one commits. *)
Fixpoint run_calls {PT : PgText} {J : RowJson} (tr : list call) (d : Db) : option Db :=
  match tr with
  | [] => Some d
  | c :: tr =>
      match run_api (Ses := c_session c) (c_api c) d with
      | Done _ d1 => run_calls tr d1
      | _ => None
      end
  end.

Lemma run_calls_hist {PT : PgText} {J : RowJson} tr d d' : run_calls tr d = Some d' -> hist tr d d'.
Proof.
  revert d. induction tr as [|c tr IH]; intros d; cbn; [intros [= ->]; constructor|].
  destruct (run_api _ d) as [[] d1| |] eqn:Hrun; [|done|done]. intros H. econstructor; [exact Hrun|by apply IH].
Qed.

(** *** A concrete history, for evaluating the definitions *)

(** JSON texts, objects and arrays; a hash that keeps its input. *)
Inductive demo_json : Type :=
| DText (s : str)
| DObject (m : list (list ascii * demo_json))
| DArray (l : list demo_json).

Definition demo_look (v : demo_json) : row_view demo_json unit :=
  match v with DText s => RString s | DObject m => RObject m | DArray l => RArray l end.

Definition demo_rows : RowJson :=
  {| rvalue := demo_json; f64 := unit; row_look := demo_look; rvalue_text := fun _ => [];
     in_unit := fun _ => true; f64_text := fun _ => []; debug_str := fun s => s;
     hash_bytes := fun s => s |}.

#[local] Existing Instances demo_text demo_rows.

Definition demo_config : Config :=
  persisted (VSyncLogRetentionDays 0) (persisted (VChangeEventRetentionDays 0) default_config).

(** One changed concept. *)
Definition demo_write : SyncWrite :=
  {| sd_hashes := []; sd_ids := [];
     sd_staged := [{| sg_id := lit "a"; sg_path := lit "a.md"; sg_file_hash := lit "h" |}];
     sd_removed_paths := []; sd_removed_ids := [] |}.

Definition demo_call (a : api) : call := {| c_session := demo_session; c_api := a |}.

(** Two bundles, the second depending on the first. *)
Definition demo_setup : list call :=
  [demo_call (ARegister (lit "/a") None demo_write default_context (lit "h1") None (0, 0, 0, 0, 0)%Z);
   demo_call (ARegister (lit "/b") None demo_write default_context (lit "h2") None (0, 0, 0, 0, 0)%Z);
   demo_call (ARegisterDependency (lit "worker") 1 k_bundle [] 2 k_bundle None None)].

Definition demo_refresh : api :=
  ARefresh 1 demo_write default_context (lit "h3") None (0, 0, 0, 0, 0)%Z.

(** The catalog a history leads to. *)
Definition demo_after (tr : list call) (d : Db) : Db := default d (run_calls tr d).

Definition demo_catalog : Db := demo_after demo_setup (installed demo_config).

Lemma demo_hist tr d : bool_decide (is_Some (run_calls tr d)) = true -> hist tr d (demo_after tr d).
Proof.
  intros [d' Hd]%bool_decide_eq_true_1. unfold demo_after. rewrite Hd. by apply run_calls_hist.
Qed.

Lemma demo_catalog_hist : hist demo_setup (installed demo_config) demo_catalog.
Proof. apply demo_hist. by vm_compute. Qed.

Lemma demo_catalog_wf : wf demo_catalog.
Proof.
  apply (hist_rows_match _ _ _ demo_catalog_hist); [apply wf_installed|apply installed_rows_match].
Qed.

(** The catalog a transaction leaves, and what it returned. *)
Definition left_by {A} (m : M A) (d : Db) : Db := match m d with Done _ d' => d' | _ => d end.
Definition returned {A} (m : M A) (d : Db) : option A := match m d with Done a _ => Some a | _ => None end.

Lemma left_by_run {A} (m : M A) d a : returned m d = Some a -> m d = Done a (left_by m d).
Proof. unfold returned, left_by. destruct (m d); naive_solver. Qed.

(** Run [m] from [d] by evaluation. *)
Ltac by_run m d := refine (left_by_run m d _ _); vm_compute; reflexivity.

Lemma left_by_wf `{PT : PgText, Ses : Session} P {A} (m : M A) d :
  keeps (evolves P) m -> is_Some (returned m d) -> wf d -> wf (left_by m d).
Proof.
  intros Hk [a Ha%left_by_run] Hwf. eapply effs_wf; [|exact Hwf]. by apply (Hk d a _ Ha).
Qed.
