(* ===== verification/CatalogSafety.v ===== *)
(** * What no history of the catalog can do

    Safety of the write API over every sequence of committed calls: attempts
    overtaken by an invalidation never complete, fences fence, retirement
    lasts, and events are kept until they are acknowledged. *)
From stdpp Require Import prelude strings gmap list sorting.
From Stdlib Require Import Ascii ZArith Lia.
From S2P Require Import Prelude Str BTree CatalogError Security Catalog Freshness Config FreshnessWalk FreshnessEval FreshnessApi Outbox Relationships Lifecycle Content CatalogWf CatalogApi CatalogHistory.

(** ** Attempts *)

Section attempts.
Context `{PT : PgText, J : RowJson}.

(** The token of an attempt is the epoch that stood. *)
Lemma claim_token `{Ses : Session} id p d token d' :
  mark_reconciling_impl id p d = Done token d' ->
  exists r, bundle_freshness d' !! id = Some r /\ bf_epoch r = token /\ bf_claimed r = token.
Proof.
  intros Hrun. unfold mark_reconciling_impl in Hrun.
  do 3 (apply bind_done in Hrun as (? & ? & _ & Hrun)).
  apply bind_done in Hrun as (u & dc & _ & Hrun).
  unfold claim_epoch in Hrun. apply bind_done in Hrun as (o & d1 & Hst & Hrun).
  unfold statement in Hst. injection Hst as <- <-. unfold update_row in Hrun.
  destruct (bundle_freshness dc !! id) as [r|] eqn:Hr; cbn in Hrun; [|done].
  injection Hrun as <- <-. eexists. cbn. rewrite lookup_insert_eq. by split_and!.
Qed.

(** The answer of the compare-and-set, read off the row. *)
Lemma fresh_answer `{Ses : Session} id o g token m c p d b d' :
  mark_fresh_impl id o g token m c p d = Done b d' ->
  is_Some (bundles d !! id) /\
  match bundles d !! id, bundle_freshness d !! id with
  | Some bu, Some r => if may_complete bu r o g token then b = true else b = false /\ d' = d
  | _, _ => b = false /\ d' = d
  end.
Proof.
  intros Hrun. unfold mark_fresh_impl in Hrun.
  apply bind_done in Hrun as (? & d1 & H1 & Hrun). apply (keeps_authorize eq) in H1 as <-.
  apply bind_done in Hrun as (? & d1 & H1 & Hrun). apply (keeps_enforce eq) in H1 as <-.
  apply bind_done in Hrun as (path & d1 & H1 & Hrun).
  assert (is_Some (bundles d !! id) /\ d1 = d) as [Hb ->].
  { unfold bundle_path in H1. apply bind_done in H1 as (? & ? & Hget & H1). injection Hget as <- <-.
    destruct (bundles d !! id); cbn in H1; [|done]. injection H1 as _ <-. by eauto. }
  split; [done|]. unfold mark_fresh_cas, statement in Hrun.
  destruct (bundles d !! id) as [bu|]; [|by injection Hrun as <- <-].
  destruct (bundle_freshness d !! id) as [r|]; [|by injection Hrun as <- <-].
  destruct (may_complete bu r o g token); by injection Hrun as <- <-.
Qed.

(** A completion needs the standing epoch. *)
Lemma complete_epoch `{Ses : Session} b r o g token :
  may_complete b r o g token = true -> (bf_epoch r <= token)%Z.
Proof. unfold may_complete. rewrite !andb_true_iff, !Z.leb_le. tauto. Qed.

(** An attempt whose token is behind the epoch of some later moment. *)
Lemma overtaken `{Ses : Session} tr d d' id r o g token m c p b d'' :
  wf d -> bundle_freshness d !! id = Some r -> (token < bf_epoch r)%Z -> hist tr d d' ->
  mark_fresh_impl id o g token m c p d' = Done b d'' -> b = false /\ d'' = d'.
Proof.
  intros Hwf Hr Hlt Hh Hrun. apply fresh_answer in Hrun as [Hs Hrun].
  destruct (ln_row _ _ (hist_lineage _ _ _ Hh Hwf) id r Hr Hs) as (r' & Hr' & Hle).
  destruct Hs as [bu Hb]. rewrite Hb, Hr' in Hrun.
  destruct (may_complete bu r' o g token) eqn:E; [|done]. apply complete_epoch in E. lia.
Qed.

(** C24: An attempt that an invalidation overtook can never complete.  Take a
    token that [mark_reconciling] hands out for a bundle, any committed calls
    after it, one call that raises the bundle's invalidation epoch, and any
    committed calls after that: whatever a later [mark_fresh] with that token
    passes besides, it answers false and changes nothing. *)
Theorem stale_attempt_never_completes (S0 S1 S2 : Session) (a : api) tr tr' d0 d1 d2 d3 d4
    id producer token r2 r3 o g m c p b d5 :
  wf d0 ->
  mark_reconciling_impl (Ses := S0) id producer d0 = Done token d1 -> hist tr d1 d2 ->
  run_api (Ses := S1) a d2 = Done tt d3 ->
  bundle_freshness d2 !! id = Some r2 -> bundle_freshness d3 !! id = Some r3 ->
  (bf_epoch r2 < bf_epoch r3)%Z -> hist tr' d3 d4 ->
  mark_fresh_impl (Ses := S2) id o g token m c p d4 = Done b d5 -> b = false /\ d5 = d4.
Proof.
  intros Hwf H0 H1 Ha Hr2 Hr3 Hlt H4 Hrun.
  assert (wf d1) as Hwf1.
  { apply (effs_wf (Ses := S0) no_perms d0); [|exact Hwf]. exact (evo_mark_reconciling no_perms id producer d0 token d1 H0 Hwf). }
  pose proof (hist_lineage _ _ _ H1 Hwf1) as H12.
  assert (wf d3) as Hwf3 by (apply (api_wf (Ses := S1) a d2 d3 Ha), H12).
  destruct (claim_token _ _ _ _ _ H0) as (r1 & Hr1 & <- & _).
  destruct (wf_rows d2 (ln_wf _ _ H12) id r2 Hr2) as [(b2 & Hb2 & _) _ _].
  destruct (ln_row _ _ H12 id r1 Hr1) as (r2' & Hr2' & Hle); [by eexists|]. simplify_eq.
  eapply overtaken; [exact Hwf3|exact Hr3| |exact H4|exact Hrun]. lia.
Qed.

End attempts.

(** ** Retirement *)

Section retirement.
Context `{PT : PgText, J : RowJson}.

Definition retired_at (d : Db) (id epoch : Z) : Prop :=
  exists r, bundle_freshness d !! id = Some r /\ bf_state r = st_retired /\ bf_epoch r = epoch.

Lemma row_step_retired `{Ses : Session} P t id r r' :
  row_step P t id r r' -> ~ p_reset P id -> bf_state r = st_retired ->
  bf_state r' = st_retired /\ bf_epoch r' = bf_epoch r.
Proof.
  intros Hs Hn Hr. destruct Hs as [| | | | |b o g tok m c p Hb Hm| | |Hf]; cbn; try done.
  - unfold may_complete in Hm. by rewrite bool_decide_eq_true_2 in Hm by done.
  - rewrite Hr in Hf. by destruct retired_ne_fresh.
Qed.

Lemma eff_retired `{Ses : Session} P d d' id epoch :
  eff P d d' -> ~ p_reset P id -> retired_at d id epoch -> is_Some (bundles d' !! id) ->
  retired_at d' id epoch.
Proof.
  intros He Hn (r & Hr & Hst & Hep) Hs.
  destruct He as [| |j b r0 Hb Hno Hborn|t Hdom Hstep| | | | | | | | | | | | | | | | | | |j Hp|];
    try (by exists r).
  - exists r. split; [|done]. cbn. rewrite lookup_insert_ne; [done|]. congruence.
  - assert (id ∈ dom t) as [r' Hr']%elem_of_dom by (rewrite Hdom; by apply elem_of_dom_2 in Hr).
    exists r'. cbn. split; [done|]. destruct (Hstep id r r' Hr Hr') as [-> |Hrs]; [done|].
    destruct (row_step_retired _ _ _ _ _ Hrs Hn Hst) as [-> ->]. done.
  - destruct Hs as [c Hc]. cbn in Hc. apply lookup_delete_Some in Hc as [Hne _]. exists r. cbn. by rewrite lookup_delete_ne.
Qed.

Lemma effs_retired `{Ses : Session} P d d' id epoch :
  wf d -> rtc (eff P) d d' -> ~ p_reset P id -> retired_at d id epoch -> is_Some (bundles d' !! id) ->
  retired_at d' id epoch.
Proof.
  intros Hwf Hr Hn. revert Hwf. induction Hr as [|d1 d2 d3 H12 H23 IH]; intros Hwf Hret Hs; [done|].
  assert (wf d2) as Hwf2 by (by eapply eff_wf).
  apply IH; [done| |done]. eapply eff_retired; [done..|].
  apply (lineage_between d1 d2 d3); [done|by eapply eff_lineage|by eapply effs_lineage| |done].
  destruct Hret as (r & Hr & _). destruct (wf_rows d1 Hwf id r Hr) as [(b & Hb & _) _ _]. by eexists.
Qed.

(** C27: Retirement lasts.  Along any committed calls that neither unretire nor
    repair the bundle, changes of the configuration that revoke embeddings
    included, a retired bundle that is still registered stays
    retired, its invalidation epoch does not move, and no completion of it
    succeeds, whatever token and generations it passes. *)
Theorem retirement_lasts tr d d' id epoch :
  wf d -> hist tr d d' -> retired_at d id epoch ->
  (forall c, c ∈ tr -> ~ p_reset (perms_of (c_api c)) id) -> is_Some (bundles d' !! id) ->
  retired_at d' id epoch /\
  forall (Ses : Session) o g token m c p b d'',
    mark_fresh_impl id o g token m c p d' = Done b d'' -> b = false /\ d'' = d'.
Proof.
  intros Hwf Hh Hret Hn Hs.
  assert (retired_at d' id epoch) as Hret'.
  { revert Hwf Hret Hn. induction Hh as [d|c tr d d1 d2 Hrun Hh IH]; intros Hwf Hret Hn; [done|].
    assert (wf d1) as Hwf1 by (by eapply api_wf).
    apply IH; [done|done| |intros c' Hc'; apply Hn; by apply list_elem_of_further].
    eapply (effs_retired (Ses := c_session c)); [exact Hwf|by apply api_effects| |done|].
    - apply Hn, list_elem_of_here.
    - apply (lineage_between d d1 d2); [done|by eapply call_lineage|by eapply hist_lineage| |done].
      destruct Hret as (r & Hr & _). destruct (wf_rows d Hwf id r Hr) as [(b & Hb & _) _ _]. by eexists. }
  split; [done|]. intros Ses o g token m c p b d'' [_ Hrun]%fresh_answer.
  destruct Hs as [bu Hb], Hret' as (r & Hr & Hst & _). rewrite Hb, Hr in Hrun.
  destruct (may_complete bu r o g token) eqn:E; [|done].
  unfold may_complete in E. by rewrite bool_decide_eq_true_2 in E by done.
Qed.

End retirement.

(** ** Events *)

Section events.
Context `{PT : PgText, J : RowJson}.

(** What an event tells; the bundle it names may go. *)
Definition payload (e : EventRow) :=
  (ev_id e, ev_tenant e, ev_bundle_path e, ev_bundle_name e, ev_generation e, ev_operation e,
   ev_changes e, ev_origin e, ev_causation_key e, ev_reconciliation_key e, ev_producer e,
   ev_created_at e).

(** The event is stored and not yet acknowledged. *)
Definition owed (d : Db) (e : EventRow) : Prop :=
  exists e', e' ∈ catalog_change_event d /\ payload e' = payload e /\ ev_status e' <> ev_acknowledged.

Lemma owed_map d d' e (f : EventRow -> EventRow) :
  catalog_change_event d' = map f (catalog_change_event d) ->
  (forall x, payload (f x) = payload x) ->
  (forall x, x ∈ catalog_change_event d -> payload x = payload e -> ev_status x <> ev_acknowledged ->
             ev_status (f x) <> ev_acknowledged) -> owed d e -> owed d' e.
Proof.
  intros Hd Hf Hst (x & Hx & Hp & Hs). exists (f x). split_and!; [|by rewrite Hf|by apply Hst].
  rewrite Hd. by apply list_elem_of_fmap_2.
Qed.

Lemma eff_owed `{Ses : Session} P d d' e :
  eff P d d' -> (forall p, ~ p_ack P (ev_id e) p) -> owed d e -> owed d' e.
Proof.
  intros He Hn Ho.
  destruct He as [| | | | | | | | | | |bid b g op ch cx h Hb Hop|n|ids producer lease Hids
    |id producer key Hp| | | | | | | |id Hp|]; try exact Ho.
  - destruct Ho as (x & Hx & ?). exists x. cbn. rewrite elem_of_app. auto.
  - destruct Ho as (x & Hx & Hpx & Hs). exists x. split; [|done]. cbn. apply list_elem_of_filter.
    split; [|done]. unfold prunable. by rewrite bool_decide_eq_false_2.
  - eapply owed_map; [reflexivity|intros x; cbn; by case_bool_decide| |exact Ho]. intros x _ _ Hs. cbn.
    case_bool_decide; [apply claimed_ne_acknowledged|done].
  - eapply owed_map; [reflexivity|intros x; cbn; by destruct (ack_hits _ _ _ _)| |exact Ho].
    intros x _ Hpx Hs. cbn. destruct (ack_hits d id producer x) eqn:Ea; [|done]. destruct (Hn producer). injection Hpx as Hid _. rewrite <- Hid.
    unfold ack_hits in Ea. rewrite !andb_true_iff, bool_decide_eq_true in Ea.
    destruct Ea as [[[-> _] _] _]. done.
  - eapply owed_map; [reflexivity| | |exact Ho]; intros x; cbn; unfold detached_event; by case_decide.
Qed.

Lemma effs_owed `{Ses : Session} P d d' e :
  rtc (eff P) d d' -> (forall p, ~ p_ack P (ev_id e) p) -> owed d e -> owed d' e.
Proof. intros Hr Hn. induction Hr; [done|]. intros Ho. apply IHHr. by eapply eff_owed. Qed.

(** The state in which [producer] holds the event under a claim. *)
Definition claimed_by (d : Db) (e : EventRow) (producer : str) : Prop :=
  exists x, x ∈ catalog_change_event d /\ payload x = payload e /\ ev_status x = ev_claimed
            /\ ev_claimed_by x = Some producer.

Lemma ack_run `{Ses : Session} id producer key d b d' :
  ack_impl id producer key d = Done b d' ->
  d' = set_events (map (fun e => if ack_hits d id producer e then acknowledged_row key e else e)
                     (catalog_change_event d)) (event_seq d) d.
Proof.
  unfold ack_impl. intros Hrun.
  apply bind_done in Hrun as (? & d1 & H1 & Hrun). apply (keeps_dispatcher eq) in H1 as <-.
  apply bind_done in Hrun as (? & d1 & H1 & Hrun).
  assert (d1 = d) as -> by (destruct (_ || _); [done|by injection H1]).
  apply bind_done in Hrun as (hit & d2 & H2 & Hrun). unfold statement in H2. injection H2 as Hhit <-.
  destruct hit; [by injection Hrun|]. symmetry. refine (_ Hrun). clear Hrun.
  match goal with |- ?m ?x = _ -> _ => assert (keeps eq m) as Hk by keeps_auto; apply (Hk x) end.
Qed.

Lemma ack_owed (Ses : Session) id producer key d d' e :
  run_api (Ses := Ses) (AAck id producer key) d = Done tt d' -> owed d e ->
  owed d' e \/ id = ev_id e /\ claimed_by d e producer.
Proof.
  intros Hrun (x & Hx & Hpx & Hs). destruct (ack_hits d id producer x) eqn:Ea.
  - right. unfold ack_hits in Ea. rewrite !andb_true_iff, !bool_decide_eq_true in Ea.
    destruct Ea as [[[<- ?] ?] _]. injection Hpx as Hid.
    split; [done|]. exists x. split_and!; try done. unfold payload. congruence.
  - left. assert (exists f, catalog_change_event d' = map f (catalog_change_event d) /\ f x = x) as (f & Hf & Hfx).
    { cbn [run_api] in Hrun. apply bind_done in Hrun as (r & d1 & Hrun & Hret). injection Hret as <-.
      apply ack_run in Hrun as ->. exists (fun e => if ack_hits d id producer e then acknowledged_row key e else e).
      by rewrite Ea. }
    exists x. split_and!; [|done|done]. rewrite Hf, <- Hfx. by apply list_elem_of_fmap_2.
Qed.

Lemma call_owed (Ses : Session) (a : api) d d' e :
  run_api a d = Done tt d' -> wf d -> owed d e ->
  owed d' e \/ exists producer key, a = AAck (ev_id e) producer key /\ claimed_by d e producer.
Proof.
  intros Hrun Hwf Ho.
  assert ((forall id p, ~ p_ack (perms_of a) id p) \/ exists id p k, a = AAck id p k) as [Hn|(id & p & k & ->)].
  { destruct a; cbn; eauto; left; by intros ? ? []. }
  - left. eapply effs_owed; [by apply api_effects|intros p; apply Hn|done].
  - destruct (ack_owed _ _ _ _ _ _ _ Hrun Ho) as [?|[-> ?]]; [by left|right; by exists p, k].
Qed.

Lemma hist_wf tr d d' : hist tr d d' -> wf d -> wf d'.
Proof. intros Hh Hwf. exact (ln_wf _ _ (hist_lineage _ _ _ Hh Hwf)). Qed.

(** C26: No event is lost before it is delivered.  An event that is stored
    unacknowledged is, after any committed calls (claims, purges, prunings and
    the removal of its bundle included), still stored with everything it
    tells and unacknowledged, unless among the calls one acknowledged it, for
    a producer that held its claim at that moment. *)
Theorem events_kept_until_acknowledged tr d d' e :
  wf d -> hist tr d d' -> owed d e ->
  owed d' e \/
  exists tr1 c tr2 dm producer key,
    tr = tr1 ++ c :: tr2 /\ hist tr1 d dm /\ c_api c = AAck (ev_id e) producer key
    /\ claimed_by dm e producer.
Proof.
  intros Hwf Hh. revert Hwf. induction Hh as [d|c tr d d1 d2 Hrun Hh IH]; intros Hwf Ho; [by left|].
  destruct (call_owed _ _ _ _ e Hrun Hwf Ho) as [Ho1|(p & k & Ha & Hc)].
  - destruct IH as [?|(tr1 & c' & tr2 & dm & p & k & -> & Htr1 & Ha & Hc)]; [by eapply api_wf|done|by left|].
    right. exists (c :: tr1), c', tr2, dm, p, k. split_and!; [done|by econstructor|done|done].
  - right. exists [], c, tr, d, p, k. split_and!; [done|constructor|done|done].
Qed.

End events.

(** ** Fences *)

Section fences.
Context `{PT : PgText, J : RowJson}.

(** The fence slot of a registered bundle holds this row. *)
Definition fenced (d : Db) (producer : str) (id : Z) (f : FenceRow) : Prop :=
  exists b, bundles d !! id = Some b /\ publication_fence d !! (b_tenant b, producer, id) = Some f.

Lemma fenced_unique d p id f f' : fenced d p id f -> fenced d p id f' -> f' = f.
Proof. intros (b & Hb & Hf) (b' & Hb' & Hf'). congruence. Qed.

Lemma upserted `{Ses : Session} t p id g ex m l d :
  post (upsert_fence t p id g ex m l) d (fun f d' =>
    bundles d' = bundles d /\ publication_fence d' !! (t, p, id) = Some f /\ fe_target_generation f = g
    /\ (forall old, publication_fence d !! (t, p, id) = Some old -> (fe_token old < fe_token f)%Z)).
Proof.
  apply post_statement. intros f d' Hrun. cbv zeta in Hrun.
  destruct (publication_fence d !! (t, p, id)) as [old|] eqn:Hold.
  - destruct (bigint (fe_token old + 1)) as [tok|] eqn:Htok; cbn in Hrun; [|done].
    unfold bigint in Htok. case_match; [|done]. injection Htok as <-. injection Hrun as <- <-.
    cbn. rewrite lookup_insert_eq. split_and!; [done..|]. intros old' [= <-]. lia.
  - injection Hrun as <- <-. cbn. rewrite lookup_insert_eq. by split_and!.
Qed.

Lemma issued `{Ses : Session} id p t ex m l d :
  post (issue_fence_impl id p t ex m l) d (fun f d' =>
    fenced d' p id f /\ is_Some (bundles d !! id)
    /\ (forall old, fenced d p id old -> (fe_token old < fe_token f)%Z
                    /\ (fe_target_generation old < fe_target_generation f)%Z)).
Proof.
  unfold issue_fence_impl.
  do 4 (apply post_reads; [keeps_auto|intros ?]).
  do 2 (apply post_reads; [keeps_auto; apply reads_path|intros ?]).
  apply post_bind, post_get, post_bind, post_lift. intros b Hb.
  assert (bundles d !! id = Some b) as Hbu by (destruct (bundles d !! id); [by injection Hb as ->|done]).
  apply post_reads; [keeps_auto|intros ?].
  destruct (publication_fence d !! (b_tenant b, p, id)) as [f0|] eqn:Hf0.
  - destruct (t <=? fe_target_generation f0)%Z eqn:Ht; [apply post_bind, post_fail|].
    apply post_bind, post_ret. eapply post_mono; [apply upserted|].
    intros f d' (Hbs & Hf & Hg & Htok). split_and!; [exists b; by rewrite Hbs|by eexists|].
    intros old (b' & Hb' & Hold). simplify_eq. split; [by apply Htok|lia].
  - apply post_bind, post_ret. eapply post_mono; [apply upserted|].
    intros f d' (Hbs & Hf & Hg & Htok). split_and!; [exists b; by rewrite Hbs|by eexists|].
    intros old (b' & Hb' & Hold). simplify_eq.
Qed.

(** Whoever shows a token shows the one of the slot. *)
Lemma released_token `{Ses : Session} id p token d :
  post (release_fence_impl id p token) d (fun _ _ => exists f, fenced d p id f /\ fe_token f = token).
Proof.
  unfold release_fence_impl.
  do 3 (apply post_reads; [keeps_auto|intros ?]).
  apply post_reads; [apply reads_path|intros ?].
  apply post_bind, post_statement. intros done d' Hrun. cbv zeta in Hrun.
  destruct (bundles d !! id) as [b|] eqn:Hb; [|injection Hrun as <- <-; apply post_fail].
  destruct (publication_fence d !! (b_tenant b, p, id)) as [f|] eqn:Hf;
    [|injection Hrun as <- <-; apply post_fail].
  destruct (_ && _) eqn:E; injection Hrun as <- <-; [|apply post_fail].
  apply andb_prop in E as [E _]. apply post_ret. exists f. split; [by exists b|lia].
Qed.

Lemma checked_token `{Ses : Session} t p id g token d :
  post (checked_fence t p id g token) d (fun _ _ =>
    exists f, publication_fence d !! (t, p, id) = Some f /\ fe_token f = token).
Proof.
  unfold checked_fence. apply post_bind, post_get, post_bind, post_lift. intros f Hf.
  assert (publication_fence d !! (t, p, id) = Some f) as Hl.
  { destruct (publication_fence d !! (t, p, id)) eqn:E; [by injection Hf as ->|done]. }
  destruct (negb (is_live f) || _) eqn:E; [apply post_fail|].
  apply orb_false_elim in E as [_ E]. apply negb_false_iff in E.
  intros a d' _. exists f. split; [done|lia].
Qed.

Lemma published_token `{Ses : Session} n id p g ex token rows d :
  post (replace_relationships_impl n p id g ex token rows) d
    (fun _ _ => exists f, fenced d p id f /\ fe_token f = token).
Proof.
  unfold replace_relationships_impl.
  do 7 (apply post_reads; [keeps_auto|intros ?]).
  apply post_reads; [apply reads_path|intros ?].
  apply post_bind, post_get, post_bind, post_lift. intros b Hb.
  assert (bundles d !! id = Some b) as Hbu by (destruct (bundles d !! id); [by injection Hb as ->|done]).
  apply post_bind. eapply post_mono; [apply checked_token|].
  intros f0 d' (f & Hf & Ht) r d'' _. exists f. split; [by exists b|done].
Qed.

Lemma fenced_later tr d d' p id f f' :
  wf d -> hist tr d d' -> fenced d p id f -> fenced d' p id f' -> (fe_token f <= fe_token f')%Z.
Proof.
  intros Hwf Hh (b & Hb & Hf) (b' & Hb' & Hf').
  pose proof (hist_lineage _ _ _ Hh Hwf) as Hl.
  rewrite (ln_tenant _ _ Hl id b b' Hb Hb') in Hf'.
  destruct (ln_fence _ _ Hl _ _ _ _ Hf) as (f2 & Hf2 & Hle); [by eexists|]. simplify_eq. done.
Qed.

(** C25: A fence that was issued anew fences its predecessor for good.  Each
    issue for a producer and bundle hands out a larger token for a larger
    target; after the second issue, however many committed calls follow, the
    first token neither releases the fence nor publishes relationships. *)
Theorem superseded_fence_is_dead (S1 S2 : Session) tr tr' d0 d1 d2 d3 d4 id producer
    t1 e1 m1 l1 f1 t2 e2 m2 l2 f2 :
  wf d0 ->
  issue_fence_impl (Ses := S1) id producer t1 e1 m1 l1 d0 = Done f1 d1 -> hist tr d1 d2 ->
  issue_fence_impl (Ses := S2) id producer t2 e2 m2 l2 d2 = Done f2 d3 -> hist tr' d3 d4 ->
  (fe_token f1 < fe_token f2)%Z /\
  forall (Ses : Session),
    (forall d', release_fence_impl id producer (fe_token f1) d4 <> Done tt d') /\
    (forall n g ex rows p d',
       replace_relationships_impl n producer id g ex (fe_token f1) rows d4 <> Done p d').
Proof.
  intros Hwf H1 H12 H2 H34.
  assert (wf d1) as Hwf1.
  { apply (effs_wf (Ses := S1) no_perms d0); [|done]. exact (evo_issue_fence no_perms _ _ _ _ _ _ _ _ _ H1 Hwf). }
  assert (wf d2) as Hwf2 by (by eapply hist_wf).
  assert (wf d3) as Hwf3.
  { apply (effs_wf (Ses := S2) no_perms d2); [|done]. exact (evo_issue_fence no_perms _ _ _ _ _ _ _ _ _ H2 Hwf2). }
  apply issued in H1 as (Hf1 & _ & _). apply issued in H2 as (Hf2 & Hb2 & Hlt).
  assert ((fe_token f1 < fe_token f2)%Z) as Htok.
  { pose proof Hf1 as (b & Hb & Hf). pose proof (hist_lineage _ _ _ H12 Hwf1) as Hl.
    destruct (ln_fence _ _ Hl _ _ _ _ Hf Hb2) as (f & Hf' & Hle).
    destruct Hb2 as [b2 Hb2]. destruct (Hlt f) as [? _]; [|lia].
    exists b2. by rewrite (ln_tenant _ _ Hl id b b2 Hb Hb2). }
  split; [done|]. intros Ses.
  assert (forall f, fenced d4 producer id f -> (fe_token f2 <= fe_token f)%Z) as Hnow
    by (intros f; by apply (fenced_later tr' d3 d4 producer id f2)).
  split.
  - intros d' Hrun. destruct (released_token _ _ _ _ _ _ Hrun) as (f & Hf & Ht).
    specialize (Hnow f Hf). lia.
  - intros n g ex rows p d' Hrun. destruct (published_token _ _ _ _ _ _ _ _ _ _ Hrun) as (f & Hf & Ht).
    specialize (Hnow f Hf). lia.
Qed.

End fences.

(** ** Concrete histories *)

#[local] Existing Instances demo_text demo_rows demo_session.

(** Bundle 2 is claimed, then its source is refreshed. *)
Definition demo_claimed : Db := left_by (mark_reconciling_impl 2 None) demo_catalog.
Definition demo_overtaken : Db := left_by (run_api demo_refresh) demo_claimed.

Lemma stale_attempt_never_completes_witness :
  mark_reconciling_impl 2 None demo_catalog = Done 0%Z demo_claimed /\
  run_api demo_refresh demo_claimed = Done tt demo_overtaken /\
  forall o g m c p b d5,
    mark_fresh_impl 2 o g 0 m c p demo_overtaken = Done b d5 -> b = false /\ d5 = demo_overtaken.
Proof.
  split; [by_run (mark_reconciling_impl 2 None) demo_catalog|]. split; [by_run (run_api demo_refresh) demo_claimed|]. intros o g m c p b d5.
  eapply (stale_attempt_never_completes demo_session demo_session demo_session demo_refresh [] []
            demo_catalog demo_claimed demo_claimed demo_overtaken demo_overtaken 2 None 0).
  - exact demo_catalog_wf.
  - by_run (mark_reconciling_impl 2 None) demo_catalog.
  - constructor.
  - by_run (run_api demo_refresh) demo_claimed.
  - vm_compute. reflexivity.
  - vm_compute. reflexivity.
  - by vm_compute.
  - constructor.
Defined.

(** Bundle 2 is retired; its source is refreshed all the same. *)
Definition demo_retired : Db := left_by (retire_bundle_impl 2) demo_catalog.
Definition demo_refreshes : list call :=
  [demo_call demo_refresh; demo_call (AMarkReconciling 2 None);
   demo_call (ASetConfig (fun _ => true) {[1%Z; 2%Z]} (lit "embedding_dim") (CNumber (Some 768%Z)));
   demo_call (AContent {| max_bundle_files := 10; max_content_bytes := 10 |} (lit "notes") [lit "a.md"] [lit "x"]
                demo_write default_context (lit "h4") None (0, 0, 0, 0, 0)%Z);
   demo_call (AResetConfig {[1%Z; 2%Z]} None)].

Lemma retirement_lasts_witness : retired_at (demo_after demo_refreshes demo_retired) 2 0.
Proof.
  refine (proj1 (retirement_lasts demo_refreshes demo_retired _ 2 0 _ _ _ _ _)).
  - apply (left_by_wf no_perms (retire_bundle_impl 2)); [apply evo_retire|vm_compute; by eexists|exact demo_catalog_wf].
  - apply demo_hist. by vm_compute.
  - eexists. split; [vm_compute; reflexivity|]. by vm_compute.
  - intros c Hc. repeat (apply elem_of_cons in Hc as [->|Hc]; [by intros []|]). by apply not_elem_of_nil in Hc.
  - eexists. vm_compute. reflexivity.
Defined.

(** The event of the first registration, across a claim and the removal of
    its bundle. *)
Definition demo_event_one : EventRow :=
  default (new_event 0 0 (demo_bundle [] 0) 0 [] [] default_context None) (head (catalog_change_event demo_catalog)).
Definition demo_removal : list call :=
  [demo_call (AClaim ∅ (lit "worker") 10 60); demo_call (AUnregister 1)].

Lemma events_kept_until_acknowledged_witness :
  owed (demo_after demo_removal demo_catalog) demo_event_one.
Proof.
  destruct (events_kept_until_acknowledged demo_removal demo_catalog
              (demo_after demo_removal demo_catalog) demo_event_one)
    as [Ho|(tr1 & c & tr2 & dm & p & k & Htr & _ & Hc & _)].
  - exact demo_catalog_wf.
  - apply demo_hist. by vm_compute.
  - exists demo_event_one. split_and!; [|done|by vm_compute].
    apply list_elem_of_lookup_2 with 0. by vm_compute.
  - exact Ho.
  - exfalso. assert (c ∈ demo_removal) as Hin by (rewrite Htr; set_solver).
    by repeat (apply elem_of_cons in Hin as [->|Hin]; [done|]); apply not_elem_of_nil in Hin.
Defined.

(** Two issues for one producer and bundle. *)
Definition demo_fence_one : M FenceRow := issue_fence_impl 1 (lit "kg") 1 1 None 60.
Definition demo_fence_two : M FenceRow := issue_fence_impl 1 (lit "kg") 2 1 None 60.
Definition demo_fenced_one : Db := left_by demo_fence_one demo_catalog.
Definition demo_fenced_two : Db := left_by demo_fence_two demo_fenced_one.
Definition demo_fence_row (target token : Z) : FenceRow :=
  {| fe_target_generation := target; fe_token := token; fe_expected_generation := 1;
     fe_manifest_hash := None; fe_state := fe_issued; fe_issued_at := 1000000;
     fe_expires_at := 61000000 |}.

Lemma superseded_fence_is_dead_witness :
  demo_fence_one demo_catalog = Done (demo_fence_row 1 1) demo_fenced_one /\
  demo_fence_two demo_fenced_one = Done (demo_fence_row 2 2) demo_fenced_two /\
  forall d', release_fence_impl 1 (lit "kg") 1 demo_fenced_two <> Done tt d'.
Proof.
  split; [by_run demo_fence_one demo_catalog|]. split; [by_run demo_fence_two demo_fenced_one|].
  refine (proj1 (proj2 (superseded_fence_is_dead demo_session demo_session [] []
            demo_catalog demo_fenced_one demo_fenced_one demo_fenced_two demo_fenced_two 1 (lit "kg")
            1 1 None 60 (demo_fence_row 1 1) 2 1 None 60 (demo_fence_row 2 2) _ _ _ _ _) demo_session)).
  - exact demo_catalog_wf.
  - by_run demo_fence_one demo_catalog.
  - constructor.
  - by_run demo_fence_two demo_fenced_one.
  - constructor.
Defined.
