(* ===== verification/CatalogRefresh.v ===== *)
(** * Evaluation and refresh in a reachable catalog

    The catalog reached by any calls satisfies the conditions under which
    invalidation runs through; so a refresh marks every bundle that depends
    on its source, and defeats the attempts in flight there. *)
From stdpp Require Import prelude strings gmap list sorting.
From Stdlib Require Import Ascii ZArith Lia.
From S2P Require Import Prelude Str BTree CatalogError Security Catalog Freshness Config FreshnessWalk FreshnessEval FreshnessApi Outbox Relationships Lifecycle Content CatalogWf CatalogApi CatalogHistory CatalogSafety.

(** Every epoch can still be raised [n] times. *)
Definition room (n : Z) (d : Db) : Prop :=
  forall id r, bundle_freshness d !! id = Some r -> (bf_epoch r + n <= i64_max)%Z.

Lemma wf_registered d : wf d -> edges_registered d.
Proof. intros Hwf r Hr. by apply (wf_deps d Hwf) in Hr as [[] _]. Qed.

Lemma wf_runnable n d : wf d -> rows_match d -> room n d -> runnable n d.
Proof.
  intros Hwf Hm Hroom. split; [done|by apply wf_registered| |].
  - intros r Hr. apply (wf_deps d Hwf) in Hr as [[_ _ _ Hs] _].
    destruct Hs as [[? _]|[_ ?]]; [by left|by right].
  - intros id r Hr. split; [|by eapply Hroom]. apply (wf_rows d Hwf) in Hr as [_ _ ?]. lia.
Qed.

Section reachable.
Context `{PT : PgText, PL : !PgTextLaws, J : RowJson}.

(** C2: The catalog's invariant.  Whatever calls whichever sessions commit,
    starting from an installation, every constraint of the schema the model
    carries holds (freshness rows, overrides, dependencies, fences, events
    and publications are well-formed, refer to registered bundles and have
    their keys, a tenant has one bundle for a path), a producer has at most
    one active publication for a bundle, every registered bundle has exactly
    its freshness row, and the configuration row meets its checks if the
    installed one did. *)
Theorem catalog_invariant (cfg : Config) tr d :
  hist tr (installed cfg) d ->
  wf d /\ rows_match d /\ (config_checks cfg = true -> config_checks (config d) = true).
Proof.
  intros Hh. destruct (hist_rows_match _ _ _ Hh) as [Hwf Hm]; [apply wf_installed|apply installed_rows_match|].
  split_and!; [done|done|]. intros Hc. eapply hist_config; [exact Hh|apply wf_installed|exact Hc].
Qed.

(** C28: A change is evaluated completely, once, and always to the end.  In a
    reachable catalog whose epochs have room, the evaluation of a change
    commits; every enabled dependency behind the new generation that the
    change concerns has its registered target marked, and so has every bundle
    that transitively depends on one of those; nothing else moves but what a
    dependency points at; and running the evaluation again changes
    nothing. *)
Theorem evaluate_dependencies_exact (Ses : Session) (cfg : Config) tr d source event generation
    (state_change : bool) changes (truncated : bool) causation_key :
  hist tr (installed cfg) d -> room (Z.of_nat (length (freshness_dependency d)) + 1) d ->
  exists d', evaluate_dependencies source event generation state_change changes truncated causation_key d
             = Done tt d'
    /\ evaluated source event generation state_change changes truncated causation_key d d'
    /\ evaluate_dependencies source event generation state_change changes truncated causation_key d'
       = Done tt d'.
Proof.
  intros Hh Hroom. assert (wf d /\ rows_match d) as [Hwf Hm].
  { eapply hist_rows_match; [exact Hh|apply wf_installed|apply installed_rows_match]. }
  destruct (evaluate_run source event generation state_change changes truncated causation_key d)
    as (d' & Hrun & Hev); [by apply wf_runnable|].
  exists d'. split_and!; [done|done|]. apply evaluate_idle, (el_done _ _ _ _ _ _ _ _ _ Hev).
Qed.

(** C29: The transitive walk ends, on any dependency graph, and reaches what it
    must.  In a reachable catalog whose epochs have room, propagating from
    any roots commits (cycles and graphs larger than the node cap included):
    every bundle that transitively depends on a root is marked stale with its
    epoch raised by exactly one, no row of another bundle moves unless the
    cap forced the blanket pass, and below the cap nothing unreachable
    moves. *)
Theorem propagate_exact (Ses : Session) (cfg : Config) tr d roots causation_key :
  hist tr (installed cfg) d -> room 1 d ->
  exists d', propagate_transitive roots causation_key d = Done tt d'
             /\ propagated d causation_key (list_to_set roots) d'.
Proof.
  intros Hh Hroom. assert (wf d /\ rows_match d) as [Hwf Hm].
  { eapply hist_rows_match; [exact Hh|apply wf_installed|apply installed_rows_match]. }
  apply propagate_run; [done|by apply wf_registered|]. intros id r _ Hr.
  pose proof (Hroom id r Hr). apply (wf_rows d Hwf) in Hr as [_ _ ?]. lia.
Qed.

End reachable.

(** ** The refresh of a source *)

(** Until it evaluates, a sync leaves the dependencies and the epochs. *)
Definition awaits (d d' : Db) : Prop :=
  freshness_dependency d' = freshness_dependency d /\
  forall id r, bundle_freshness d !! id = Some r ->
    exists r', bundle_freshness d' !! id = Some r' /\ bf_epoch r' = bf_epoch r
               /\ (bf_state r <> st_retired -> bf_state r' <> st_retired).

#[export] Instance awaits_preorder : PreOrder awaits.
Proof.
  split; [by intros d; split; [done|]; eauto|].
  intros d1 d2 d3 [Hd12 Hr12] [Hd23 Hr23]. split; [congruence|].
  intros id r (r2 & Hr2 & He2 & Hs2)%Hr12. destruct (Hr23 id r2 Hr2) as (r3 & Hr3 & He3 & Hs3).
  exists r3. split_and!; [done|congruence|auto].
Qed.

(** A step that leaves dependencies and freshness rows alone. *)
Definition aside (d d' : Db) : Prop :=
  freshness_dependency d' = freshness_dependency d /\ bundle_freshness d' = bundle_freshness d.

#[export] Instance aside_preorder : PreOrder aside.
Proof. split; [by intros d|]. intros d1 d2 d3 [? ?] [? ?]. split; congruence. Qed.

Lemma aside_awaits d d' : aside d d' -> awaits d d'.
Proof. intros [Hd Hr]. split; [done|]. rewrite Hr. eauto. Qed.

Lemma keeps_aside {A} (m : M A) : keeps aside m -> keeps awaits m.
Proof. intros Hm d a d' Ha. by apply aside_awaits, (Hm d a d'). Qed.

Section refresh.
Context `{Ses : Session, PT : PgText, J : RowJson}.

Lemma awaits_insert d id r r' :
  bundle_freshness d !! id = Some r -> bf_epoch r' = bf_epoch r ->
  (bf_state r <> st_retired -> bf_state r' <> st_retired) ->
  awaits d (set_freshness (<[id := r']> (bundle_freshness d)) d).
Proof.
  intros Hr He Hs. split; [done|]. cbn. intros j x Hj. destruct (decide (j = id)) as [->|Hne].
  - rewrite lookup_insert_eq. simplify_eq. eauto.
  - rewrite lookup_insert_ne by done. eauto.
Qed.

Lemma awaits_born d id r' :
  bundle_freshness d !! id = None -> awaits d (set_freshness (<[id := r']> (bundle_freshness d)) d).
Proof.
  intros Hn. split; [done|]. cbn. intros j x Hj. rewrite lookup_insert_ne by congruence. eauto.
Qed.

Lemma aside_publications d t rows s : aside d (set_publications t rows s d).
Proof. done. Qed.

Lemma awaits_coverage_clear id : keeps awaits (clear_relationship_coverage_missing id).
Proof.
  apply keeps_modify. intros d. unfold update_row. destruct (bundle_freshness d !! id) as [r|] eqn:Hr; [|done].
  by apply (awaits_insert d id r); [|case_match..].
Qed.

Lemma awaits_coverage_missing id : keeps awaits (mark_relationship_coverage_missing id).
Proof.
  unfold mark_relationship_coverage_missing. apply keeps_bind; [apply _| |intros _].
  - apply keeps_modify. intros d. destruct (bundles d !! id) as [b|]; [|done].
    destruct (bundle_freshness d !! id) as [r|] eqn:Hr; [|by apply awaits_born].
    case_decide; [done|]. apply (awaits_insert d id r); [done|done|]. intros _. apply stale_ne_retired.
  - apply keeps_modify. intros d. unfold update_row. destruct (bundle_freshness d !! id) as [r|] eqn:Hr; [|done].
    by apply (awaits_insert d id r); [|case_decide..].
Qed.

Lemma awaits_initialize id g h c : keeps awaits (initialize_bundle id g h c).
Proof.
  apply keeps_modify. intros d. destruct (bundles d !! id) as [b|]; [|done].
  destruct (bundle_freshness d !! id) as [r|] eqn:Hr; [done|by apply awaits_born].
Qed.

Lemma aside_record id op g ch cx h : keeps aside (record_event id op g ch cx h).
Proof.
  unfold record_event. keeps_auto. apply keeps_statement. intros d a d' Hrun.
  destruct (bundles d !! id); injection Hrun as <- <-; done.
Qed.

Lemma aside_prune n : keeps aside (prune_events n).
Proof. unfold prune_events. keeps_auto. by apply keeps_modify. Qed.

Lemma aside_audit id p op c h n e : keeps aside (audit_record id p op c h n e).
Proof. by apply keeps_audit; [apply _|]. Qed.

Lemma aside_update_row id h v : keeps aside (update_bundle_row id h v).
Proof.
  unfold update_bundle_row. keeps_auto. apply keeps_statement. intros d a' d' Hrun.
  destruct (bundles d !! id) as [b|]; [|by injection Hrun as <- <-].
  destruct (bigint (b_catalog_generation b + 1)); [|done]. by injection Hrun as <- <-.
Qed.

Lemma awaits_activate id g : keeps awaits (activate_staged id g).
Proof.
  unfold activate_staged. keeps_auto; try (apply keeps_aside, keeps_modify; intros; by apply aside_publications).
  - apply keeps_aside, keeps_statement. by intros d l d' [= <- <-].
  - apply awaits_coverage_clear.
Qed.

#[local] Hint Resolve awaits_coverage_missing awaits_initialize awaits_activate : keeps.

Lemma updated_generation id h v d g d' b :
  update_bundle_row id h v d = Done g d' -> bundles d !! id = Some b ->
  g = (b_catalog_generation b + 1)%Z.
Proof.
  unfold update_bundle_row. intros Hrun Hb.
  apply bind_done in Hrun as (o & d1 & Hst & Hrun). unfold statement in Hst. rewrite Hb in Hst.
  destruct (bigint (b_catalog_generation b + 1)) as [g'|] eqn:Hg; cbn in Hst; [|done].
  unfold bigint in Hg. case_match; [|done]. injection Hg as <-. injection Hst as <- <-.
  cbn in Hrun. by injection Hrun as <- _.
Qed.

(** What leads a sync from [d] to [d']: steps that keep dependencies and
    epochs, the evaluation of its changes, steps aside. *)
Definition evaluates (id : Z) (generation : Z) (w : SyncWrite) (cx : ChangeContext) (d d' : Db) : Prop :=
  exists event before after,
    let changes := build_changes (sd_hashes w) (sd_ids w) (sd_staged w) (sd_removed_paths w) in
    awaits d before /\ wf before /\ grows d before
    /\ evaluate_dependencies id event generation false changes (is_truncated changes)
         (cx_causation_key cx) before = Done tt after
    /\ aside after d'.

Lemma evaluates_after id g w cx d d1 d' :
  awaits d d1 -> grows d d1 -> evaluates id g w cx d1 d' -> evaluates id g w cx d d'.
Proof.
  intros Ha Hg (event & before & after & Hb & Hwf & Hgb & He & Hafter).
  exists event, before, after. split_and!; [by transitivity d1|done|by transitivity d1|done|done].
Qed.

Lemma evaluates_before id g w cx d d1 d' :
  aside d1 d' -> evaluates id g w cx d d1 -> evaluates id g w cx d d'.
Proof.
  intros Ha (event & before & after & Hb & Hwf & Hgb & He & Hafter).
  exists event, before, after. split_and!; [done..|by transitivity d1].
Qed.

Lemma record_evaluates id w cx g h missing d e d' :
  record_event_and_evaluate id w cx g h missing d = Done e d' -> wf d -> evaluates id g w cx d d'.
Proof.
  intros He Hwf. unfold record_event_and_evaluate in He. cbv zeta in He.
  apply bind_done in He as (event & dr & Hr & He).
  pose proof (aside_record _ _ _ _ _ _ _ _ _ Hr) as Ar.
  eapply run_grows in Hr as [Gr Wr]; [|apply evo_record, operation_for_sync_ok|done].
  apply bind_done in He as (? & di & Hi & He).
  pose proof (awaits_initialize _ _ _ _ _ _ _ Hi) as Ai.
  eapply run_grows in Hi as [Gi Wi]; [|apply evo_initialize|done].
  apply bind_done in He as (? & dm & Hmk & He).
  assert (awaits di dm /\ grows di dm /\ wf dm) as (Am & Gm & Wm).
  { destruct missing; [|by injection Hmk as _ <-].
    split; [by apply awaits_coverage_missing in Hmk|].
    eapply run_grows in Hmk; [exact Hmk|apply evo_coverage_missing|done]. }
  apply bind_done in He as ([] & dev & Hev & He).
  exists event, dm, dev. cbv zeta. split_and!; [|done| |exact Hev|].
  - transitivity dr; [by apply aside_awaits|]. by transitivity di.
  - transitivity dr; [done|]. by transitivity di.
  - apply bind_done in He as (? & ? & Hget & He). injection Hget as <- <-.
    apply bind_done in He as (? & ? & Hp & Hret). injection Hret as _ <-. by apply aside_prune in Hp.
Qed.

Lemma sync_evaluates id p op w cx h v counts d e d' b :
  sync_tail id p op w cx h v counts d = Done e d' -> wf d -> bundles d !! id = Some b ->
  evaluates id (b_catalog_generation b + 1) w cx d d'.
Proof.
  intros Hrun Hwf Hb. unfold sync_tail in Hrun.
  apply bind_done in Hrun as (? & dc & Hc & Hrun).
  assert (aside d dc /\ bundles dc = bundles d) as [Ac Bc].
  { unfold write_concepts, modify, statement in Hc. by injection Hc as _ <-. }
  eapply run_grows in Hc as [Gc Wc]; [|apply evo_write_concepts|done].
  apply bind_done in Hrun as (g & du & Hu & Hrun).
  assert (g = (b_catalog_generation b + 1)%Z) as -> by (eapply updated_generation; [exact Hu|by rewrite Bc]).
  pose proof (aside_update_row _ _ _ _ _ _ Hu) as Au.
  eapply run_grows in Hu as [Gu Wu]; [|apply evo_update_bundle_row|done].
  apply bind_done in Hrun as (missing & da & Ha & Hrun).
  pose proof (awaits_activate _ _ _ _ _ Ha) as Aa.
  eapply run_grows in Ha as [Ga Wa]; [|apply evo_activate_staged|done].
  apply bind_done in Hrun as (ev' & de & He & Hrun).
  apply (evaluates_after _ _ _ _ d dc); [by apply aside_awaits|done|].
  apply (evaluates_after _ _ _ _ dc du); [by apply aside_awaits|done|].
  apply (evaluates_after _ _ _ _ du da); [done|done|].
  apply (evaluates_before _ _ _ _ da de); [|by eapply record_evaluates].
  apply bind_done in Hrun as (? & ? & Hget & Hrun). injection Hget as <- <-.
  apply bind_done in Hrun as (? & ? & Haudit & Hret). injection Hret as _ <-.
  by apply aside_audit in Haudit.
Qed.

Lemma refresh_evaluates id w cx h v counts d d' b :
  run_api (ARefresh id w cx h v counts) d = Done tt d' -> wf d -> bundles d !! id = Some b ->
  evaluates id (b_catalog_generation b + 1) w cx d d'.
Proof.
  intros Hrun Hwf Hb. cbn [run_api] in Hrun. unfold refresh_bundle_tail in Hrun.
  apply bind_done in Hrun as (? & d1 & H1 & Hrun). apply (keeps_authorize eq) in H1 as <-.
  apply bind_done in Hrun as (? & d1 & H1 & Hrun). apply (keeps_enforce eq) in H1 as <-.
  apply bind_done in Hrun as (? & ? & Hget & Hrun). injection Hget as <- <-.
  apply bind_done in Hrun as (b' & d1 & H1 & Hrun). apply (keeps_lift eq) in H1 as <-.
  apply bind_done in Hrun as ([] & d1 & H1 & Hrun).
  assert (d1 = d) as -> by (destruct (bool_decide _); [done|by injection H1]).
  apply bind_done in Hrun as (ev & d1 & Hrun & Hret). injection Hret as <-.
  by eapply sync_evaluates.
Qed.

Lemma awaits_room n d d' : awaits d d' -> grows d d' -> wf d' -> rows_match d -> room n d -> room n d'.
Proof.
  intros [_ Ha] [Hb _] Hwf Hm Hroom id r' Hr'.
  assert (id ∈ dom (bundle_freshness d)) as [r Hr]%elem_of_dom.
  { rewrite Hm, <- Hb. apply (wf_rows d' Hwf) in Hr' as [(c & Hc & _) _ _]. by apply elem_of_dom_2 in Hc. }
  destruct (Ha id r Hr) as (r1 & Hr1 & He & _). simplify_eq. rewrite He. by eapply Hroom.
Qed.

End refresh.

(** A dependency of a whole bundle on a whole source. *)
Definition whole_bundle (dep : DependencyRow) (source target : Z) : Prop :=
  dep_enabled dep = true /\ dep_source dep = source /\ dep_selector_kind dep = k_bundle
  /\ dep_target dep = target /\ dep_target_kind dep = k_bundle.

(** C1: A refresh defeats the attempts in flight at its dependents.  Let a
    bundle depend, as a whole, on a source of a reachable catalog; its epochs
    have room, the dependency is not behind a later generation than the
    source's, and the refresh does not carry the dependency's causation key.
    Then a committed refresh of the source leaves the dependent stale because
    of its source, with a larger epoch than before, unless it was retired;
    and no token of an attempt made before the refresh ever completes after
    it. *)
Theorem refresh_defeats_attempts `{PT : PgText, PL : !PgTextLaws, J : RowJson} (S1 S2 : Session)
    (cfg : Config) tr tr' d d' d'' source target w cx h v counts b dep r :
  hist tr (installed cfg) d ->
  room (Z.of_nat (length (freshness_dependency d)) + 1) d ->
  bundles d !! source = Some b -> dep ∈ freshness_dependency d -> whole_bundle dep source target ->
  (dep_last_generation dep <= b_catalog_generation b)%Z ->
  suppressed (cx_causation_key cx) (dep_causation_key dep) = false ->
  bundle_freshness d !! target = Some r -> bf_state r <> st_retired ->
  run_api (Ses := S1) (ARefresh source w cx h v counts) d = Done tt d' ->
  hist tr' d' d'' ->
  (exists r', bundle_freshness d' !! target = Some r' /\ bf_state r' = st_stale
     /\ REASON_SOURCE_CHANGED ∈ bf_reasons r' /\ (bf_epoch r < bf_epoch r')%Z)
  /\ forall o g token m c p ans d3, (token <= bf_epoch r)%Z ->
       mark_fresh_impl (Ses := S2) target o g token m c p d'' = Done ans d3 ->
       ans = false /\ d3 = d''.
Proof.
  intros Hh Hroom Hb Hdep (Hen & Hsrc & Hsel & Htgt & Hkind) Hgen Hsup Hr Hnr Hrun Hh'.
  assert (wf d /\ rows_match d) as [Hwf Hm].
  { eapply hist_rows_match; [exact Hh|apply wf_installed|apply installed_rows_match]. }
  destruct (refresh_evaluates (Ses := S1) _ _ _ _ _ _ _ _ _ Hrun Hwf Hb)
    as (event & before & after & Haw & Hwb & Hg & Hev & [_ Hend]).
  pose proof (grows_rows_match _ _ Hg Hwb Hm) as Hmb.
  pose proof Haw as [Hdeps Hrows].
  assert (runnable (Z.of_nat (length (freshness_dependency before)) + 1) before) as Hrn.
  { apply wf_runnable; [done|done|]. rewrite Hdeps. by eapply awaits_room. }
  set (changes := build_changes _ _ _ _) in Hev.
  destruct (evaluate_run (Ses := S1) source event (b_catalog_generation b + 1) false changes
              (is_truncated changes) (cx_causation_key cx) before Hrn) as (a & Ha & Hel).
  rewrite Ha in Hev. injection Hev as ->.
  assert (marked before after target) as (r1 & r2 & Hr1 & Hr2 & Hor).
  { pose proof (el_target _ _ _ _ _ _ _ _ _ Hel dep) as Ht. unfold target_marked in Ht.
    rewrite decide_True, Htgt in Ht by done. apply Ht.
    - unfold due_dependencies. rewrite Hdeps. apply list_elem_of_filter. split_and!; [done|done|lia|done].
    - unfold triggered. rewrite Hsup, bool_decide_eq_true_2 by done. done. }
  destruct (Hrows target r Hr) as (r1' & Hr1' & He1 & Hn1).
  assert (r1' = r1) as -> by congruence.
  destruct Hor as [[Hret _]|(_ & Hst & Hre & Hlt)]; [by destruct (Hn1 Hnr)|].
  assert (bundle_freshness d' !! target = Some r2) as Hr2' by (by rewrite Hend).
  split; [exists r2; split_and!; [done..|lia]|].
  intros o g token m c p ans d3 Htok Hfresh.
  eapply (overtaken (Ses := S2) tr' d'); [|exact Hr2'| |exact Hh'|exact Hfresh]; [|lia].
  by apply (api_wf (Ses := S1) _ d d' Hrun).
Qed.

(** ** A concrete refresh *)

#[local] Existing Instances demo_text demo_text_laws demo_rows demo_session.

Lemma room_small n d :
  bool_decide (map_Forall (fun _ r => (bf_epoch r + n <= i64_max)%Z) (bundle_freshness d)) = true -> room n d.
Proof. intros H%bool_decide_eq_true_1 id r Hr. exact (H id r Hr). Qed.

Lemma catalog_invariant_witness :
  wf demo_catalog /\ rows_match demo_catalog
  /\ (config_checks demo_config = true -> config_checks (config demo_catalog) = true).
Proof. apply (catalog_invariant demo_config demo_setup). exact demo_catalog_hist. Defined.

Lemma evaluate_dependencies_exact_witness :
  exists d', evaluate_dependencies 1 9 5 true [] false None demo_catalog = Done tt d'
    /\ evaluate_dependencies 1 9 5 true [] false None d' = Done tt d'.
Proof.
  destruct (evaluate_dependencies_exact demo_session demo_config demo_setup demo_catalog 1 9 5 true [] false None)
    as (d' & Hrun & _ & Hidle).
  - exact demo_catalog_hist.
  - apply room_small. by vm_compute.
  - exists d'. split; [exact Hrun|exact Hidle].
Defined.

Lemma propagate_exact_witness :
  exists d', propagate_transitive [1%Z] None demo_catalog = Done tt d'
             /\ propagated demo_catalog None (list_to_set [1%Z]) d'.
Proof.
  apply (propagate_exact demo_session demo_config demo_setup demo_catalog [1%Z] None).
  - exact demo_catalog_hist.
  - apply room_small. by vm_compute.
Defined.

Definition demo_row (id : Z) (d : Db) : BundleFreshness :=
  default (born_row [] [] [] None None None) (bundle_freshness d !! id).
Definition demo_dependency : DependencyRow :=
  default {| dep_id := 0; dep_tenant := []; dep_producer := []; dep_enabled := false;
             dep_causation_key := None; dep_source := 0; dep_selector_kind := []; dep_selector_value := [];
             dep_last_generation := 0; dep_last_event := None; dep_target := 0; dep_target_kind := [];
             dep_target_key := None |} (head (freshness_dependency demo_catalog)).
Definition demo_refreshed : Db := left_by (run_api demo_refresh) demo_catalog.

Lemma refresh_defeats_attempts_witness :
  run_api demo_refresh demo_catalog = Done tt demo_refreshed /\
  exists r', bundle_freshness demo_refreshed !! 2%Z = Some r' /\ bf_state r' = st_stale
    /\ REASON_SOURCE_CHANGED ∈ bf_reasons r' /\ (bf_epoch (demo_row 2 demo_catalog) < bf_epoch r')%Z.
Proof.
  split; [by_run (run_api demo_refresh) demo_catalog|].
  refine (proj1 (refresh_defeats_attempts demo_session demo_session demo_config demo_setup []
    demo_catalog demo_refreshed demo_refreshed 1 2 demo_write default_context (lit "h3") None
    (0, 0, 0, 0, 0)%Z (default (demo_bundle [] 0) (bundles demo_catalog !! 1%Z)) demo_dependency
    (demo_row 2 demo_catalog) _ _ _ _ _ _ _ _ _ _ _)).
  - exact demo_catalog_hist.
  - apply room_small. by vm_compute.
  - by vm_compute.
  - apply list_elem_of_lookup_2 with 0. by vm_compute.
  - repeat split; by vm_compute.
  - by vm_compute.
  - by vm_compute.
  - by vm_compute.
  - by vm_compute.
  - by_run (run_api demo_refresh) demo_catalog.
  - constructor.
Defined.
