(* ===== verification/Publication.v ===== *)
(** * Properties of relationship publications

    Endpoint resolution reveals nothing of bundles the session cannot see;
    the canonical form does not depend on the order of a submission; a
    submission sent again changes nothing; a sync activates the newest
    staged attempt of each producer. *)
From stdpp Require Import prelude strings gmap list sorting.
From Stdlib Require Import Ascii ZArith Lia.
From S2P Require Import Prelude Str BTree CatalogError Security Catalog Freshness FreshnessWalk FreshnessEval FreshnessApi Outbox Relationships Lifecycle CatalogWf CatalogApi CatalogHistory.

(** ** Endpoint resolution *)

Section resolution.
Context `{Ses : Session, J : RowJson}.

(** Two catalogs a session that publishes for [source] cannot tell apart: the
    same visible bundles, with the same concepts. *)
Record same_view (source : Z) (d1 d2 : Db) : Prop := {
  sv_visible : forall id, visible_active d1 id = visible_active d2 id;
  sv_concepts : forall id c, id = source \/ visible_active d1 id = true ->
                (id, c) ∈ concepts d1 <-> (id, c) ∈ concepts d2
}.

(** What a transaction answers. *)
Definition answer {A} (t : tx A) : option (result A CatalogError) :=
  match t with Done a _ => Some (Ok a) | Fail e => Some (Err e) | Raise => None end.

(** A target that is left is visible. *)
Definition target_visible (d : Db) (row : RelationshipRow) : Prop :=
  match rr_target_bundle_id row with Some id => visible_active d id = true | None => True end.

Lemma hide_visible d source row : target_visible d (hide_invisible d source row).
Proof.
  unfold hide_invisible, target_visible. destruct (rr_target_bundle_id row) as [t|] eqn:Ht; [|done].
  destruct (visible_active d t) eqn:Hv; cbn; [by rewrite ?Ht|done].
Qed.

Lemma hide_same d1 d2 source row :
  same_view source d1 d2 -> hide_invisible d1 source row = hide_invisible d2 source row.
Proof. intros [Hv _]. unfold hide_invisible. destruct (rr_target_bundle_id row); [by rewrite Hv|done]. Qed.

Lemma absent_same d1 d2 source row :
  same_view source d1 d2 -> target_visible d1 row -> mark_absent_target d1 row = mark_absent_target d2 row.
Proof.
  intros [_ Hc] Ht. unfold mark_absent_target, target_visible in *.
  destruct (rr_target_bundle_id row) as [t|]; [|done]. destruct (rr_target_concept_id row) as [c|]; [|done].
  specialize (Hc t c (or_intror Ht)). repeat case_decide; tauto.
Qed.

Lemma find_ext {A} (f g : A -> bool) (l : list A) : (forall x, f x = g x) -> List.find f l = List.find g l.
Proof. intros Hfg. induction l as [|x l IH]; cbn; [done|]. by rewrite Hfg, IH. Qed.

Lemma resolve_same d1 d2 source rows validate :
  same_view source d1 d2 ->
  answer (resolve_endpoints source rows validate d1) = answer (resolve_endpoints source rows validate d2).
Proof.
  intros Hsv. unfold resolve_endpoints, get, mbind, M_bind.
  set (rows1 := map (hide_invisible d1 source) _). set (rows2 := map (hide_invisible d2 source) _).
  assert (rows2 = rows1) as -> by (apply map_ext; intros r; symmetry; by apply hide_same).
  destruct validate; [|done].
  rewrite (find_ext _ (fun row => negb (bool_decide ((source, rr_source_concept_id row) ∈ concepts d2)))).
  - destruct (List.find _ rows1); [done|]. cbn.
    assert (map (mark_absent_target d1) rows1 = map (mark_absent_target d2) rows1) as ->; [|done].
    apply map_ext_in. intros r Hr. unfold rows1 in Hr. rewrite in_map_iff in Hr.
    destruct Hr as (r0 & <- & _). eapply absent_same; [exact Hsv|apply hide_visible].
  - intros row. f_equal. apply bool_decide_ext. apply Hsv. by left.
Qed.

Lemma marked_target d row :
  rr_target_bundle_id (mark_targetless (mark_absent_target d row)) = rr_target_bundle_id row
  /\ rr_target_bundle_id (mark_targetless (mark_staged_target row)) = rr_target_bundle_id row.
Proof.
  unfold mark_targetless, mark_absent_target, mark_staged_target.
  split; repeat (case_match || case_decide); cbn; congruence.
Qed.

Lemma resolve_visible d source rows validate resolved d' :
  resolve_endpoints source rows validate d = Done resolved d' -> d' = d /\ Forall (target_visible d) resolved.
Proof.
  intros Hrun. split; [symmetry; by apply (reads_endpoints source rows validate d resolved d')|].
  unfold resolve_endpoints, get, mbind, M_bind in Hrun.
  assert (exists f, resolved = map f (map (hide_invisible d source) (map (default_target source) rows))
            /\ forall row, rr_target_bundle_id (f row) = rr_target_bundle_id row) as (f & -> & Hf).
  { destruct validate.
    - destruct (List.find _ _); [done|]. injection Hrun as <- _.
      exists (fun row => mark_targetless (mark_absent_target d row)). split; [by rewrite map_map|].
      intros row. apply marked_target.
    - injection Hrun as <- _. exists (fun row => mark_targetless (mark_staged_target row)).
      split; [by rewrite map_map|]. intros row. by apply (marked_target d). }
  apply Forall_forall. intros r (r0 & -> & (r1 & -> & _)%list_elem_of_fmap)%list_elem_of_fmap.
  unfold target_visible. rewrite Hf. apply hide_visible.
Qed.

(** C30: The no-leak rule.  What resolving a submission answers (the rows, or
    the error) is the same in any two catalogs the session cannot tell apart:
    bundles it cannot see, and their concepts, may exist, differ or be absent.
    A resolved row never names a bundle the session cannot see, and resolution
    writes nothing. *)
Theorem resolve_endpoints_no_leak (d1 d2 : Db) source rows validate :
  same_view source d1 d2 ->
  answer (resolve_endpoints source rows validate d1) = answer (resolve_endpoints source rows validate d2)
  /\ forall resolved d', resolve_endpoints source rows validate d1 = Done resolved d' ->
       d' = d1 /\ Forall (target_visible d1) resolved.
Proof. intros Hsv. split; [by apply resolve_same|apply resolve_visible]. Qed.

End resolution.

(** ** The canonical form *)

Section canonical.
Context `{J : RowJson}.

Definition row_order (a b : RelationshipRow) : Prop :=
  klt (canonical_identity a) (canonical_identity b) \/ canonical_identity a = canonical_identity b.

#[local] Instance row_order_trans : Transitive row_order.
Proof.
  intros a b c. unfold row_order. intros [Hab|Hab] [Hbc|Hbc]; rewrite ?Hab, <- ?Hbc; auto.
  left. by etransitivity.
Qed.

Lemma row_le_order a b : row_le a b = true -> row_order a b.
Proof.
  unfold row_le, row_order, klt. destruct (kcmp _ _) eqn:E; [|by left|done].
  intros _. right. by apply kcmp_eq.
Qed.

Lemma row_le_false a b : row_le a b = false -> row_order b a.
Proof.
  unfold row_le, row_order. destruct (kcmp _ _) eqn:E; [done|done|]. intros _. left. by apply kcmp_gt.
Qed.

(** Among rows of distinct identities the order is antisymmetric. *)
Lemma row_order_antisym (l : list RelationshipRow) a b :
  NoDup (canonical_identity <$> l) -> a ∈ l -> b ∈ l -> row_order a b -> row_order b a -> a = b.
Proof.
  intros Hnd Ha Hb Hab Hba.
  assert (canonical_identity a = canonical_identity b) as Heq.
  { destruct Hab as [Hab|?]; [|done]. destruct Hba as [Hba|?]; [|done].
    by destruct (klt_irrefl (canonical_identity a)); etransitivity. }
  apply list_elem_of_lookup_1 in Ha as [i Hi]. apply list_elem_of_lookup_1 in Hb as [j Hj].
  assert (i = j) as ->; [|congruence].
  eapply NoDup_lookup; [exact Hnd|rewrite list_lookup_fmap, Hi; reflexivity|].
  rewrite list_lookup_fmap, Hj. cbn. by rewrite Heq.
Qed.

Lemma sorted_rows (l : list RelationshipRow) : StronglySorted row_order (sort_by row_le l).
Proof. apply sort_by_sorted; [apply _|apply row_le_order|apply row_le_false]. Qed.

(** C36: The canonical form of a set of relationships.  Rows of pairwise
    distinct canonical identities, submitted in any order, give the same
    canonical rows in the same order, the same row hashes and the same set
    hash; the canonical rows are exactly the submitted ones, strictly ordered by
    identity.  (Submitted rows are checked to be distinct only before their
    targets are completed and hidden, so two of one canonical identity do reach
    [canonicalize]; of those nothing is said here.) *)
Theorem canonicalize_order_free (l k : list RelationshipRow) :
  NoDup (canonical_identity <$> l) -> l ≡ₚ k ->
  canonicalize l = canonicalize k
  /\ (fst <$> fst (canonicalize l)) ≡ₚ l
  /\ StronglySorted klt (canonical_identity <$> (fst <$> fst (canonicalize l))).
Proof.
  intros Hnd Hp. assert (sort_by row_le l = sort_by row_le k) as Heq.
  { apply (StronglySorted_unique_strong row_order); [|apply sorted_rows..|by rewrite !sort_by_perm].
    intros x y Hx Hy. rewrite sort_by_perm in Hx, Hy. rewrite <- Hp in Hy. by apply row_order_antisym with l. }
  assert (fst <$> fst (canonicalize l) = sort_by row_le l) as Hrows.
  { cbn. rewrite <- list_fmap_compose. apply list_fmap_id. }
  split_and!; [unfold canonicalize; by rewrite Heq|rewrite Hrows; apply sort_by_perm|].
  rewrite Hrows.
  assert (NoDup (canonical_identity <$> sort_by row_le l)) as Hnd' by (by rewrite sort_by_perm).
  pose proof (sorted_rows l) as Hs. revert Hnd' Hs. generalize (sort_by row_le l). clear.
  intros l. induction l as [|x l IH]; cbn; [constructor|].
  intros [Hx Hnd]%NoDup_cons Hs. inversion_clear Hs as [|? ? Hs' Hall]. constructor; [by apply IH|].
  rewrite Forall_fmap, Forall_forall in *. intros y Hy. destruct (Hall y Hy) as [?|Heq]; [done|].
  destruct Hx. rewrite Heq. by apply list_elem_of_fmap_2.
Qed.

(** The rows a submission may hold: no two of one identity. *)
Lemma reject_duplicates_nodup rows u : reject_duplicates rows = Ok u -> NoDup (canonical_identity <$> rows).
Proof.
  unfold reject_duplicates. intros Hrun.
  assert (NoDup (canonical_identity <$> rows)
          /\ forall x, x ∈ canonical_identity <$> rows -> x ∉ ([] : list CanonicalIdentity)) as [? _];
    [|done]. revert Hrun. generalize ([] : list CanonicalIdentity).
  induction rows as [|row rows IH]; intros seen; cbn.
  - intros _. split; [constructor|]. by intros x ?%elem_of_nil.
  - case_bool_decide as Hin; [done|]. intros [Hnd Hseen]%IH. split.
    + constructor; [|done]. intros Hc. apply (Hseen _ Hc). apply list_elem_of_here.
    + intros x [->|Hx]%elem_of_cons; [done|]. intros Hs. apply (Hseen _ Hx). by apply list_elem_of_further.
Qed.

End canonical.

(** ** Activation with a sync *)

Section activation.
Context `{Ses : Session}.

(** A staged attempt the new generation has left behind. *)
Definition left_behind (id g : Z) (p : PublicationRow) : bool :=
  bool_decide (pub_bundle p = Some id) && bool_decide (pub_state p = pub_staged) && (pub_expected p <? g)%Z.

(** What activation makes of a publication; [attempts] are those for the new
    generation. *)
Definition activation (id g : Z) (attempts : list PublicationRow) (p : PublicationRow) : PublicationRow :=
  if is_active_of id p || left_behind id g p then superseded_row p
  else if is_attempt id g p then
    if is_winner attempts p then activated_row g p else superseded_row p
  else p.

Lemma superseded_inert id g p :
  is_active_of id (superseded_row p) = false /\ left_behind id g (superseded_row p) = false
  /\ is_attempt id g (superseded_row p) = false.
Proof.
  unfold is_active_of, left_behind, is_attempt. cbn.
  rewrite (bool_decide_eq_false_2 (pub_superseded = pub_active)) by apply superseded_ne_active.
  rewrite (bool_decide_eq_false_2 (pub_superseded = pub_staged)) by (intros H; by apply staged_ne_superseded).
  by rewrite !andb_false_r.
Qed.

(** The three statements, row by row. *)
Definition swept (id g : Z) (p : PublicationRow) : PublicationRow :=
  let p1 := if is_active_of id p then superseded_row p else p in
  if left_behind id g p1 then superseded_row p1 else p1.

Lemma swept_attempt id g p : is_attempt id g (swept id g p) = is_attempt id g p
  /\ (is_attempt id g p = true -> swept id g p = p).
Proof.
  unfold swept. destruct (superseded_inert id g p) as (_ & Hl & Ha). destruct (is_active_of id p) eqn:E1.
  - rewrite Hl, Ha. unfold is_active_of in E1. apply andb_prop in E1 as [_ E1].
    apply bool_decide_eq_true in E1. unfold is_attempt. rewrite E1.
    rewrite (bool_decide_eq_false_2 (pub_active = pub_staged)) by (intros H; by apply staged_ne_active).
    by rewrite andb_false_r.
  - destruct (left_behind id g p) eqn:E2; [|done]. rewrite Ha. unfold left_behind in E2.
    apply andb_prop in E2 as [_ E2]. unfold is_attempt.
    assert ((pub_expected p =? g)%Z = false) as -> by lia. by rewrite andb_false_r.
Qed.

Lemma swept_attempts id g (l : list PublicationRow) :
  List.filter (is_attempt id g) (map (swept id g) l) = List.filter (is_attempt id g) l.
Proof.
  induction l as [|p l IH]; cbn; [done|]. destruct (swept_attempt id g p) as [-> Hs].
  destruct (is_attempt id g p); [rewrite Hs by done; by f_equal|done].
Qed.

Lemma activation_swept id g attempts p :
  (if is_attempt id g (swept id g p)
   then if is_winner attempts (swept id g p) then activated_row g (swept id g p)
        else superseded_row (swept id g p)
   else swept id g p) = activation id g attempts p.
Proof.
  destruct (swept_attempt id g p) as [-> Hs]. unfold activation.
  destruct (is_attempt id g p) eqn:Ea.
  - rewrite Hs by done. unfold is_attempt in Ea. rewrite !andb_true_iff, !bool_decide_eq_true in Ea.
    destruct Ea as [[Hb Hst] Hg]. unfold is_active_of, left_behind. rewrite Hst.
    rewrite (bool_decide_eq_false_2 (pub_staged = pub_active)) by apply staged_ne_active.
    assert ((pub_expected p <? g)%Z = false) as -> by lia. by rewrite !andb_false_r.
  - unfold swept. destruct (is_active_of id p); cbn; [by rewrite (proj1 (proj2 (superseded_inert id g p)))|done].
Qed.

(** The publications a sync leaves before it prunes. *)
Definition activated_table (id g : Z) (l : list PublicationRow) : list PublicationRow :=
  map (activation id g (List.filter (is_attempt id g) l)) l.

Definition winners (id g : Z) (l : list PublicationRow) : list PublicationRow :=
  let attempts := List.filter (is_attempt id g) l in List.filter (is_winner attempts) attempts.

Lemma sweep_run {B} id g (k : M B) d :
  (supersede_where (is_active_of id) ;;
   supersede_where (fun p => bool_decide (pub_bundle p = Some id) && bool_decide (pub_state p = pub_staged)
                             && (pub_expected p <? g)%Z) ;; k) d
  = k (set_publications (map (swept id g) (relationship_publication d)) (relationship d)
         (publication_seq d) d).
Proof.
  unfold supersede_where, modify, statement, mbind, M_bind. cbn. rewrite map_map. reflexivity.
Qed.

Lemma attempts_run id g d :
  activate_attempts id g
    (set_publications (map (swept id g) (relationship_publication d)) (relationship d) (publication_seq d) d)
  = Done (map pub_id (winners id g (relationship_publication d)))
      (set_publications (activated_table id g (relationship_publication d)) (relationship d)
         (publication_seq d) d).
Proof.
  unfold activate_attempts, statement, winners, activated_table. cbn. rewrite !swept_attempts, map_map.
  match goal with |- Done _ (set_publications ?l _ _ _) = Done _ (set_publications ?k _ _ _) => assert (l = k) as -> end.
  { apply map_ext. intros p. apply activation_swept. }
  reflexivity.
Qed.

(** What re-resolution makes of a row. *)
Definition resolved_row (cs : gset (Z * str)) (r : RelationRow) : RelationRow :=
  match rl_target_bundle r, rl_target_concept r with
  | Some bundle, Some concept => with_unresolved (negb (bool_decide ((bundle, concept) ∈ cs))) r
  | _, _ => r
  end.

(** A row after a sync: one of an activated publication is resolved anew, and
    goes when its source is gone. *)
Definition row_after (ids : list Z) (cs : gset (Z * str)) (r : RelationRow) : option RelationRow :=
  if bool_decide (rl_publication r ∈ ids)
  then if bool_decide ((rl_source_bundle r, rl_source_concept r) ∈ cs) then Some (resolved_row cs r) else None
  else Some r.

Lemma resolved_keys cs r :
  rl_publication (resolved_row cs r) = rl_publication r
  /\ rl_source_bundle (resolved_row cs r) = rl_source_bundle r
  /\ rl_source_concept (resolved_row cs r) = rl_source_concept r.
Proof. unfold resolved_row. by repeat case_match. Qed.

Lemma row_after_key ids cs r r' : row_after ids cs r = Some r' -> rl_publication r' = rl_publication r.
Proof. unfold row_after. repeat case_bool_decide; intros [= <-]; [apply resolved_keys|done]. Qed.

Lemma resolve_rows ids d u d1 u' d2 :
  re_resolve ids d = Done u d1 -> quarantine_absent_sources ids d1 = Done u' d2 ->
  forall r', r' ∈ relationship d2 <-> exists r, r ∈ relationship d /\ row_after ids (concepts d) r = Some r'.
Proof.
  intros [= _ <-] [= _ <-] r'. cbn. rewrite list_elem_of_filter.
  assert (forall r, (if bool_decide (rl_publication r ∈ ids) then
             match rl_target_bundle r, rl_target_concept r with
             | Some bundle, Some concept => with_unresolved (negb (bool_decide ((bundle, concept) ∈ concepts d))) r
             | _, _ => r end else r)
           = if bool_decide (rl_publication r ∈ ids) then resolved_row (concepts d) r else r) as Heq by done.
  setoid_rewrite list_elem_of_fmap. setoid_rewrite Heq. unfold row_after. split.
  - intros [Hkeep (r & -> & Hr)]. exists r. split; [done|]. case_bool_decide as Hid; [|done].
    destruct (resolved_keys (concepts d) r) as (-> & -> & ->) in Hkeep. case_bool_decide; [done|]. by destruct Hkeep.
  - intros (r & Hr & Ha). case_bool_decide as Hid.
    + case_bool_decide as Hs; [|done]. injection Ha as <-.
      destruct (resolved_keys (concepts d) r) as (Hk1 & Hk2 & Hk3). rewrite Hk1, Hk2, Hk3.
      split; [by intros [_ ?]|]. exists r. by rewrite bool_decide_eq_true_2.
    + injection Ha as <-. split; [by intros [? _]|]. exists r. by rewrite bool_decide_eq_false_2.
Qed.

Lemma clear_publications id d d' :
  clear_relationship_coverage_missing id d = Done tt d' ->
  relationship_publication d' = relationship_publication d /\ relationship d' = relationship d
  /\ concepts d' = concepts d.
Proof. intros [= <-]. unfold update_row. by destruct (bundle_freshness d !! id). Qed.

Lemma follow_run id ids d1 :
  exists d2, (match ids with
      | [] => mret tt
      | _ => re_resolve ids ;; quarantine_absent_sources ids ;; clear_relationship_coverage_missing id
      end) d1 = Done tt d2
    /\ relationship_publication d2 = relationship_publication d1 /\ concepts d2 = concepts d1
    /\ (forall r', r' ∈ relationship d2 <->
          exists r, r ∈ relationship d1 /\ row_after ids (concepts d1) r = Some r').
Proof.
  destruct ids as [|i l].
  - exists d1. split_and!; [done..|]. intros r'. unfold row_after. split; [by exists r'|].
    intros (r & Hr & Ha). by injection Ha as <-.
  - set (ids := i :: l).
    destruct (re_resolve ids d1) as [[] d3| |] eqn:H3; [|done|done].
    destruct (quarantine_absent_sources ids d3) as [[] d4| |] eqn:H4; [|done|done].
    destruct (clear_relationship_coverage_missing id d4) as [[] d5| |] eqn:H5; [|done|done].
    pose proof (resolve_rows _ _ _ _ _ _ H3 H4) as Hr4.
    pose proof (clear_publications _ _ _ H5) as (Hp5 & Hr5 & Hc5).
    exists d5. unfold mbind, M_bind. rewrite H3, H4, H5. injection H3 as <-. injection H4 as <-.
    split_and!; [done|by rewrite Hp5|by rewrite Hc5|]. intros r'. rewrite Hr5. apply Hr4.
Qed.

(** What the final pruning takes. *)
Definition expired (id : Z) (p : PublicationRow) : bool :=
  (bool_decide (pub_bundle p = Some id) || bool_decide (pub_bundle p = None)) && aged_superseded p.

Lemma activate_run id g d :
  let table := activated_table id g (relationship_publication d) in
  exists d', activate_staged id g d
      = Done (existsb (is_active_of id) (relationship_publication d)
              && bool_decide (map pub_id (winners id g (relationship_publication d)) = [])) d'
    /\ relationship_publication d' = filter (fun p => expired id p = false) table
    /\ (forall r', r' ∈ relationship d' <->
          rl_publication r' ∉ map pub_id (List.filter (expired id) table)
          /\ exists r, r ∈ relationship d
             /\ row_after (map pub_id (winners id g (relationship_publication d))) (concepts d) r = Some r').
Proof.
  unfold activate_staged. unfold get, mbind at 1, M_bind at 1. rewrite sweep_run.
  unfold mbind at 1, M_bind at 1. rewrite attempts_run.
  set (ids := map pub_id (winners id g (relationship_publication d))).
  set (d1 := set_publications (activated_table _ _ _) _ _ _).
  destruct (follow_run id ids d1) as (d2 & Hrun & Hp & Hc & Hrows).
  unfold mbind at 1, M_bind at 1. rewrite Hrun. eexists. split; [reflexivity|]. cbn. rewrite Hp.
  split; [done|]. intros r'. rewrite list_elem_of_filter, Hrows. done.
Qed.

(** *** The attempts and their winners *)

Lemma max_generation (l : list PublicationRow) p0 :
  p0 ∈ l -> exists p, p ∈ l /\ forall q, q ∈ l -> (pub_generation q <= pub_generation p)%Z.
Proof.
  revert p0. induction l as [|x l IH]; intros p0 Hp; [by apply not_elem_of_nil in Hp|].
  destruct l as [|y l].
  - exists x. split; [apply list_elem_of_here|]. intros q Hq. apply list_elem_of_singleton in Hq as ->. lia.
  - destruct (IH y) as (p & Hin & Hmax); [apply list_elem_of_here|].
    destruct (decide (pub_generation p <= pub_generation x)%Z) as [Hle|Hgt].
    + exists x. split; [apply list_elem_of_here|]. intros q [->|Hq]%elem_of_cons; [lia|].
      specialize (Hmax q Hq). lia.
    + exists p. split; [by apply list_elem_of_further|]. intros q [->|Hq]%elem_of_cons; [lia|auto].
Qed.

Lemma winners_elem id g l p :
  p ∈ winners id g l <->
  p ∈ l /\ is_attempt id g p = true /\ is_winner (List.filter (is_attempt id g) l) p = true.
Proof. unfold winners. rewrite !list_elem_of_In, !filter_In. tauto. Qed.

Lemma winners_nil id g l :
  winners id g l = [] <-> (forall p, p ∈ l -> is_attempt id g p = false).
Proof.
  split.
  - intros Hnil p Hp. destruct (is_attempt id g p) eqn:Ha; [|done]. exfalso.
    destruct (max_generation (List.filter (is_attempt id g) l) p) as (w & Hw & Hmax).
    { by rewrite list_elem_of_In, filter_In, <- list_elem_of_In. }
    assert (w ∈ winners id g l) as Hin; [|rewrite Hnil in Hin; by apply not_elem_of_nil in Hin].
    unfold winners. rewrite list_elem_of_In, filter_In, <- list_elem_of_In. split; [done|].
    unfold is_winner. apply forallb_forall. intros q Hq. apply list_elem_of_In in Hq.
    specialize (Hmax q Hq). apply orb_true_iff. right. lia.
  - intros Hno. destruct (winners id g l) as [|w ws] eqn:E; [done|].
    assert (w ∈ winners id g l) as (Hw & Ha & _)%winners_elem by (rewrite E; apply list_elem_of_here).
    by rewrite (Hno w Hw) in Ha.
Qed.

Lemma and_iff (P P' Q Q' : Prop) : (P <-> P') -> (Q <-> Q') -> (P /\ Q <-> P' /\ Q').
Proof. tauto. Qed.

Lemma exists_iff {A} (P Q : A -> Prop) : (forall x, P x <-> Q x) -> ((exists x, P x) <-> exists x, Q x).
Proof. firstorder. Qed.

(** *** What a sync means for a publication *)

(** Staged for the generation [g] of the bundle. *)
Definition staged_for (id g : Z) (p : PublicationRow) : Prop :=
  pub_bundle p = Some id /\ pub_state p = pub_staged /\ pub_expected p = g.

(** No attempt of its producer for that generation is newer. *)
Definition newest_attempt (id g : Z) (l : list PublicationRow) (p : PublicationRow) : Prop :=
  staged_for id g p
  /\ forall q, q ∈ l -> staged_for id g q -> pub_tenant q = pub_tenant p -> pub_producer q = pub_producer p ->
       (pub_generation q <= pub_generation p)%Z.

(** Active, or staged for [g] or an earlier generation. *)
Definition outlived (id g : Z) (p : PublicationRow) : Prop :=
  pub_bundle p = Some id
  /\ (pub_state p = pub_active \/ pub_state p = pub_staged /\ (pub_expected p <= g)%Z).

Inductive becomes (id g : Z) (l : list PublicationRow) (p : PublicationRow) : PublicationRow -> Prop :=
| becomes_active : newest_attempt id g l p -> becomes id g l p (activated_row g p)
| becomes_superseded : outlived id g p -> ~ newest_attempt id g l p -> becomes id g l p (superseded_row p)
| becomes_itself : ~ outlived id g p -> becomes id g l p p.

Lemma is_attempt_spec id g p : is_attempt id g p = true <-> staged_for id g p.
Proof. unfold is_attempt, staged_for. rewrite !andb_true_iff, !bool_decide_eq_true, Z.eqb_eq. tauto. Qed.

Lemma is_winner_spec id g l p :
  is_winner (List.filter (is_attempt id g) l) p = true <->
  forall q, q ∈ l -> staged_for id g q -> pub_tenant q = pub_tenant p -> pub_producer q = pub_producer p ->
    (pub_generation q <= pub_generation p)%Z.
Proof.
  unfold is_winner. rewrite forallb_forall. split.
  - intros Hw q Hq Hs Ht Hp. specialize (Hw q). rewrite filter_In, <- list_elem_of_In, is_attempt_spec in Hw.
    specialize (Hw (conj Hq Hs)). rewrite bool_decide_eq_true_2 in Hw by done. cbn in Hw. lia.
  - intros Hm q [Hq Hs%is_attempt_spec]%filter_In. rewrite <- list_elem_of_In in Hq. case_bool_decide as Ht; [|done].
    cbn. apply Z.leb_le. by apply Hm; [..|apply Ht|apply Ht].
Qed.

Lemma winners_newest id g l p : p ∈ winners id g l <-> p ∈ l /\ newest_attempt id g l p.
Proof. rewrite winners_elem, is_winner_spec, is_attempt_spec. done. Qed.

Lemma outlived_spec id g p :
  outlived id g p <-> is_active_of id p || left_behind id g p || is_attempt id g p = true.
Proof.
  unfold outlived, is_active_of, left_behind, is_attempt.
  rewrite !orb_true_iff, !andb_true_iff, !bool_decide_eq_true, Z.eqb_eq, Z.ltb_lt.
  split; [|intuition lia]. intros [? [?|[? ?]]]; [by left; left|].
  destruct (decide (pub_expected p = g)); [by right|]. left. right. split; [done|lia].
Qed.

(** The update of the table is the declared one. *)
Lemma activation_becomes id g l p p' :
  becomes id g l p p' <-> p' = activation id g (List.filter (is_attempt id g) l) p.
Proof.
  assert (forall p', becomes id g l p p' -> p' = activation id g (List.filter (is_attempt id g) l) p) as Hto.
  { clear p'. intros p' Hb. unfold activation. pose proof (outlived_spec id g p) as Ho.
    pose proof (is_winner_spec id g l p) as Hw. pose proof (is_attempt_spec id g p) as Ha.
    destruct Hb as [[Hs Hm]|Ho' Hn|Hno].
    - apply Ha in Hs as Ea. apply Hw in Hm. rewrite Ea, Hm. destruct Hs as (? & Hst & He).
      unfold is_active_of, left_behind. rewrite Hst.
      rewrite (bool_decide_eq_false_2 (pub_staged = pub_active)) by apply staged_ne_active. rewrite andb_false_r.
      assert ((pub_expected p <? g)%Z = false) as -> by lia. by rewrite andb_false_r.
    - apply Ho in Ho'. destruct (is_active_of id p || left_behind id g p); [done|]. cbn in Ho'. rewrite Ho'.
      destruct (is_winner _ p); [|done]. destruct Hn. split; [by apply Ha|by apply Hw].
    - destruct (is_active_of id p || left_behind id g p); [by destruct Hno; apply Ho|].
      destruct (is_attempt id g p); [by destruct Hno; apply Ho|done]. }
  split; [apply Hto|]. intros ->.
  destruct (is_active_of id p || left_behind id g p || is_attempt id g p) eqn:Eo.
  - apply outlived_spec in Eo. destruct (is_attempt id g p && is_winner (List.filter (is_attempt id g) l) p) eqn:Ew.
    + apply andb_true_iff in Ew as [Ha%is_attempt_spec Hw]. pose proof (proj1 (is_winner_spec id g l p) Hw).
      assert (becomes id g l p (activated_row g p)) as Hb by (by constructor). by rewrite <- (Hto _ Hb).
    + assert (becomes id g l p (superseded_row p)) as Hb; [|by rewrite <- (Hto _ Hb)].
      apply becomes_superseded; [done|]. intros [Ha%is_attempt_spec Hm].
      by rewrite Ha, (proj2 (is_winner_spec id g l p) Hm) in Ew.
  - assert (becomes id g l p p) as Hb; [|by rewrite <- (Hto _ Hb)]. apply becomes_itself. rewrite outlived_spec. congruence.
Qed.

Lemma table_becomes id g l p' :
  p' ∈ activated_table id g l <-> exists p, p ∈ l /\ becomes id g l p p'.
Proof.
  unfold activated_table. rewrite list_elem_of_fmap. setoid_rewrite activation_becomes. naive_solver.
Qed.

(** C31: A sync activates the newest attempts, and only those.  Activation for
    a new generation [g] of a bundle always commits.  Of the publications it
    leaves, each producer's staged attempt for [g] with the greatest
    publication generation is active with [g] recorded; the bundle's
    publications that were active, or staged for [g] or an earlier
    generation, are superseded; every other is as it was; and none is missing
    but the superseded ones of the bundle, or of no bundle, last touched over
    thirty days ago.  The relationship rows left are those of the
    publications left, those of an activated one only if their source exists,
    with their target marked unresolved exactly when it does not exist.
    Coverage is reported lost exactly when something was active before and
    nothing was staged for the generation. *)
Theorem activation_exact id g d :
  exists lost d',
    activate_staged id g d = Done lost d'
    /\ (forall p', p' ∈ relationship_publication d' <->
         expired id p' = false
         /\ exists p, p ∈ relationship_publication d /\ becomes id g (relationship_publication d) p p')
    /\ (forall r', r' ∈ relationship d' <->
         (forall p p', p ∈ relationship_publication d -> becomes id g (relationship_publication d) p p' ->
            pub_id p' = rl_publication r' -> expired id p' = false)
         /\ exists r, r ∈ relationship d
            /\ ((exists p, p ∈ relationship_publication d /\ newest_attempt id g (relationship_publication d) p
                           /\ pub_id p = rl_publication r)
                /\ (rl_source_bundle r, rl_source_concept r) ∈ concepts d /\ r' = resolved_row (concepts d) r
                \/ (forall p, p ∈ relationship_publication d ->
                      newest_attempt id g (relationship_publication d) p -> pub_id p <> rl_publication r)
                   /\ r' = r))
    /\ (lost = true <-> (exists p, p ∈ relationship_publication d /\ pub_bundle p = Some id
                                   /\ pub_state p = pub_active)
                        /\ forall p, p ∈ relationship_publication d -> ~ staged_for id g p).
Proof.
  destruct (activate_run id g d) as (d' & Hrun & Hpubs & Hrows).
  eexists _, d'. split; [exact Hrun|]. clear Hrun. split_and!.
  - intros p'. by rewrite Hpubs, list_elem_of_filter, table_becomes.
  - intros r'. rewrite Hrows. apply and_iff.
    + rewrite list_elem_of_fmap. split.
      * intros Hno p p' Hp Hb Hid. destruct (expired id p') eqn:He; [|done]. destruct Hno. exists p'. split; [done|].
        rewrite list_elem_of_In, filter_In, <- list_elem_of_In. split; [|done]. apply table_becomes. eauto.
      * intros Hall (p' & Hid & Hin). rewrite list_elem_of_In, filter_In, <- list_elem_of_In in Hin.
        destruct Hin as [(p & Hp & Hb)%table_becomes He]. symmetry in Hid. by rewrite (Hall p p' Hp Hb Hid) in He.
    + apply exists_iff. intros r. apply and_iff; [done|]. unfold row_after.
      assert (rl_publication r ∈ map pub_id (winners id g (relationship_publication d)) <->
              exists p, p ∈ relationship_publication d /\ newest_attempt id g (relationship_publication d) p
                        /\ pub_id p = rl_publication r) as Hw.
      { rewrite list_elem_of_fmap. setoid_rewrite winners_newest. naive_solver. }
      case_bool_decide as Hid.
      * apply Hw in Hid. case_bool_decide; naive_solver.
      * rewrite Hw in Hid. split; [intros [= <-]; right; split; [|done]; naive_solver|].
        intros [(Hex & _)|[_ ->]]; [by destruct Hid|done].
  - rewrite andb_true_iff, existsb_exists, bool_decide_eq_true. setoid_rewrite <- list_elem_of_In.
    unfold is_active_of. setoid_rewrite andb_true_iff. setoid_rewrite bool_decide_eq_true.
    apply and_iff; [naive_solver|].
    transitivity (winners id g (relationship_publication d) = []); [by destruct (winners _ _ _)|].
    rewrite winners_nil. setoid_rewrite <- is_attempt_spec. setoid_rewrite not_true_iff_false. done.
Qed.

End activation.

(** ** Sending a submission again *)

Section resend.
Context `{Ses : Session, J : RowJson}.

(** What the checks and the resolution of a submission read. *)
Definition same_inputs (d d' : Db) : Prop :=
  bundles d' = bundles d /\ concepts d' = concepts d /\ publication_fence d' = publication_fence d
  /\ config d' = config d.

#[local] Instance same_inputs_preorder : PreOrder same_inputs.
Proof.
  split; [by intros d|]. intros d1 d2 d3 (? & ? & ? & ?) (? & ? & ? & ?). split_and!; congruence.
Qed.

(** A read that answers again what it answered. *)
Definition replays {A} (m : M A) (d d' : Db) : Prop :=
  forall a e, m d = Done a e -> e = d /\ m d' = Done a d'.

Lemma replay_bind {A B} (m : M A) (k : A -> M B) d d' b e :
  replays m d d' -> (m ≫= k) d = Done b e ->
  exists a, m d = Done a d /\ k a d = Done b e /\ (m ≫= k) d' = k a d'.
Proof.
  intros Hm (a & d1 & Ha & Hb)%bind_done. destruct (Hm a d1 Ha) as [-> Ha'].
  exists a. split_and!; [done|done|]. unfold mbind, M_bind. by rewrite Ha'.
Qed.

Lemma replays_lift {A} (r : result A CatalogError) d d' : replays (lift r) d d'.
Proof. intros a e. destruct r; [intros [= <- <-]|]; done. Qed.

Lemma replays_if (b : bool) er d d' : replays (if b then fail er else mret tt) d d'.
Proof. intros a e. destruct b; [done|]. by intros [= <- <-]. Qed.

(** A read through a function of the inputs. *)
Lemma replays_get {A} (k : Db -> M A) d d' :
  (forall a e, k d d = Done a e -> e = d /\ k d' d' = Done a d') -> replays (get ≫= k) d d'.
Proof. intros Hk a e Hrun. by apply Hk. Qed.

Lemma tenant_predicate_same d d' t : same_inputs d d' -> tenant_predicate d' t = tenant_predicate d t.
Proof. intros (_ & _ & _ & Hc). unfold tenant_predicate. by rewrite Hc. Qed.

Lemma replays_authorize op d d' : same_inputs d d' -> replays (authorize_user op) d d'.
Proof.
  intros (_ & _ & _ & Hc).
  apply replays_get. intros a e Hrun. apply (replays_lift _ d d') in Hrun as [-> Hrun].
  split; [done|]. rewrite <- Hrun.
  assert (@authorize_current_user (session_backend d') op [] = @authorize_current_user (session_backend d) op [])
    as ->; [|done].
  unfold authorize_current_user, is_member_of, enforce_active_tenant, read_tenant_context. cbn. by rewrite Hc.
Qed.

Lemma replays_enforce id d d' : same_inputs d d' -> replays (enforce_tenant id) d d'.
Proof.
  intros (Hb & _ & _ & Hc). apply replays_get. intros a e Hrun.
  apply (replays_lift _ d d') in Hrun as [-> Hrun]. split; [done|].
  rewrite <- Hrun.
  assert (@enforce_bundle_tenant (session_backend d') id = @enforce_bundle_tenant (session_backend d) id)
    as ->; [|done]. unfold enforce_bundle_tenant, read_bundle_tenant_context. cbn. by rewrite Hb, Hc.
Qed.

Lemma replays_path id d d' : same_inputs d d' -> replays (bundle_path id) d d'.
Proof.
  intros (Hb & _). apply replays_get. intros a e. rewrite Hb.
  destruct (bundles d !! id); cbn; [intros [= <- <-]|]; done.
Qed.

Lemma replays_fence t p id g k d d' : same_inputs d d' -> replays (checked_fence t p id g k) d d'.
Proof.
  intros (_ & _ & Hf & _). apply replays_get. intros a e Hrun. rewrite Hf.
  destruct (publication_fence d !! (t, p, id)) as [f|]; [|done].
  unfold mbind, M_bind, lift, ok_or, mret, M_ret in *.
  destruct (negb (is_live f) || _); [done|]. destruct (negb (_ =? g)%Z); [done|]. by injection Hrun as <- <-.
Qed.

Lemma same_view_inputs d d' source : same_inputs d d' -> same_view source d d'.
Proof.
  intros Hs. pose proof (fun t => tenant_predicate_same d d' t Hs) as Ht. destruct Hs as (Hb & Hc & _).
  split; [|by rewrite Hc]. intros id. unfold visible_active. rewrite Hb. destruct (bundles d !! id); [|done].
  by rewrite Ht.
Qed.

Lemma replays_resolve id rows v d d' : same_inputs d d' -> replays (resolve_endpoints id rows v) d d'.
Proof.
  intros Hs a e Hrun. destruct (resolve_visible _ _ _ _ _ _ Hrun) as [-> _]. split; [done|].
  pose proof (resolve_same d d' id rows v (same_view_inputs d d' id Hs)) as Heq. rewrite Hrun in Heq.
  destruct (resolve_endpoints id rows v d') as [a' d''| |] eqn:E; [|done|done]. injection Heq as ->.
  by destruct (resolve_visible _ _ _ _ _ _ E) as [-> _].
Qed.

(** *** The new publication is found again *)

Lemma find_last {A} (Q : A -> bool) (l : list A) (x : A) :
  (forall y, y ∈ l -> Q y = false) -> Q x = true -> List.find Q (l ++ [x]) = Some x.
Proof.
  intros Hl Hx. induction l as [|y l IH]; cbn; [by rewrite Hx|].
  rewrite (Hl y) by apply list_elem_of_here. apply IH. intros z Hz. apply Hl. by apply list_elem_of_further.
Qed.

(** The slot of a publication. *)
Definition in_slot (t p : str) (id g : Z) (q : PublicationRow) : bool :=
  bool_decide (pub_tenant q = t) && bool_decide (pub_producer q = p)
  && bool_decide (pub_bundle q = Some id) && (pub_generation q =? g)%Z.

Lemma in_slot_superseded t p id g q : in_slot t p id g (superseded_row q) = in_slot t p id g q.
Proof. done. Qed.

(** The table after a write: the old rows, some superseded and some pruned,
    then the new one. *)
Record written (d d' : Db) (new : PublicationRow) : Prop := {
  wr_inputs : same_inputs d d';
  wr_rows : exists l, relationship_publication d' = l ++ [new]
            /\ forall q', q' ∈ l -> exists q, q ∈ relationship_publication d /\ (q' = q \/ q' = superseded_row q)
}.

Lemma written_found d d' new t p id g :
  written d d' new -> wf d -> pub_id new = (publication_seq d + 1)%Z ->
  existing_publication d t p id g = None -> in_slot t p id g new = true ->
  existing_publication d' t p id g = Some new /\ load_publication_info (pub_id new) d' = Done new d'.
Proof.
  intros [_ (l & Hl & Hold)] Hwf Hid Hnone Hslot. unfold existing_publication, load_publication_info in *.
  unfold get, mbind, M_bind. rewrite Hl. split.
  - apply find_last; [|exact Hslot]. intros q' (q & Hq & Hor)%Hold.
    pose proof (find_none _ _ Hnone q) as Hno. rewrite <- list_elem_of_In in Hno. specialize (Hno Hq).
    cbn in Hno. by destruct Hor as [-> | ->].
  - rewrite find_last; [done| |apply Z.eqb_refl]. intros q' (q & Hq & Hor)%Hold.
    apply (wf_pubs d Hwf) in Hq as [_ Hle]. assert (pub_id q' = pub_id q) as -> by (by destruct Hor as [-> | ->]).
    lia.
Qed.

(** The row a submission inserts. *)
Definition new_publication (i : Z) (t p : str) (id : Z) (path : str) (g ex tok : Z) (sh : str)
    (mh : option str) (act : bool) (n : Z) : PublicationRow :=
  {| pub_id := i; pub_tenant := t; pub_producer := p; pub_bundle := Some id; pub_bundle_path := path;
     pub_generation := g; pub_expected := ex; pub_activated := if act then Some ex else None;
     pub_token := tok; pub_set_hash := sh; pub_idempotency_key := sh; pub_manifest_hash := mh;
     pub_state := if act then pub_active else pub_staged; pub_row_count := n; pub_created_at := now;
     pub_activated_at := if act then Some now else None; pub_updated_at := now |}.

Lemma clear_run id d :
  exists d', clear_relationship_coverage_missing id d = Done tt d' /\ same_inputs d d'
    /\ relationship_publication d' = relationship_publication d.
Proof.
  eexists. split; [reflexivity|]. unfold update_row. by destruct (bundle_freshness d !! id).
Qed.

(** The writing half of a submission. *)
Definition write_publication (act : bool) t p id path g ex tok sh mh n rows : M PublicationRow :=
  (if (act : bool) then supersede_active t p id else mret tt) ;;
  i ← insert_publication t p id path g ex tok sh mh act n;
  insert_rows i t id rows ;;
  (if (act : bool) then clear_relationship_coverage_missing id ;; prune_aged_superseded id else mret tt) ;;
  load_publication_info i.

Lemma publish_run act t p id path g ex tok sh mh n rows d pub d' :
  write_publication act t p id path g ex tok sh mh n rows d = Done pub d' ->
  written d d' (new_publication (publication_seq d + 1) t p id path g ex tok sh mh act n)
  /\ load_publication_info (publication_seq d + 1) d' = Done pub d'.
Proof.
  unfold write_publication. intros Hrun. destruct act.
  - apply bind_done in Hrun as (? & d1 & H1 & Hrun). injection H1 as _ <-.
    apply bind_done in Hrun as (i & d2 & H2 & Hrun). injection H2 as <- <-.
    apply bind_done in Hrun as (? & d3 & H3 & Hrun). injection H3 as _ <-.
    apply bind_done in Hrun as (? & d4 & Hclear & Hrun).
    apply bind_done in Hclear as ([] & d5 & Hclear & Hprune). injection Hprune as _ <-.
    match type of Hclear with _ ?x = _ => destruct (clear_run id x) as (d6 & H6 & Hin & Hp) end.
    rewrite H6 in Hclear. injection Hclear as <-.
    pose proof Hrun as Hload. apply (reads_publication _ _ _ _) in Hload as <-. split; [|exact Hrun].
    split.
    + destruct Hin as (? & ? & ? & ?). by split_and!.
    + cbn. rewrite Hp. cbn. rewrite filter_app. eexists. split.
      * f_equal. unfold aged_superseded. cbn. rewrite (bool_decide_eq_false_2 (pub_active = pub_superseded)).
        { by rewrite andb_false_r. } intros H. apply superseded_ne_active. by symmetry.
      * intros q' [_ (q & -> & Hq)%list_elem_of_fmap]%list_elem_of_filter. exists q. split; [done|].
        case_match; auto.
  - apply bind_done in Hrun as (? & d1 & H1 & Hrun). injection H1 as _ <-.
    apply bind_done in Hrun as (i & d2 & H2 & Hrun). injection H2 as <- <-.
    apply bind_done in Hrun as (? & d3 & H3 & Hrun). injection H3 as _ <-.
    apply bind_done in Hrun as (? & d4 & H4 & Hrun). injection H4 as _ <-.
    pose proof Hrun as Hload. apply (reads_publication _ _ _ _) in Hload as <-. split; [|exact Hrun].
    split; [done|]. cbn. eexists. split; [reflexivity|]. eauto.
Qed.

(** A checking step answers alike wherever the inputs are the same. *)
Lemma replay_step {A B} (m : M A) (k : A -> M B) d b e :
  (forall dd, same_inputs d dd -> replays m d dd) -> (m ≫= k) d = Done b e ->
  exists a, m d = Done a d /\ k a d = Done b e /\ forall dd, same_inputs d dd -> (m ≫= k) dd = k a dd.
Proof.
  intros Hm (a & d1 & Ha & Hb)%bind_done.
  destruct (Hm d ltac:(by split_and!) a d1 Ha) as [-> _]. exists a. split_and!; [done|done|].
  intros dd Hs. destruct (Hm dd Hs a d Ha) as [_ Ha']. unfold mbind, M_bind. by rewrite Ha'.
Qed.

Lemma replay_bundle {B} id (k : Bundle -> M B) d b e :
  (d ← get; bu ← lift (ok_or (unknown_bundle_error id) (bundles d !! id)); k bu) d = Done b e ->
  exists bu, k bu d = Done b e /\
    forall dd, same_inputs d dd ->
      (d ← get; bu ← lift (ok_or (unknown_bundle_error id) (bundles d !! id)); k bu) dd = k bu dd.
Proof.
  unfold get, mbind, M_bind. destruct (bundles d !! id) as [bu|] eqn:Hb; cbn; [|done].
  intros Hrun. exists bu. split; [done|]. intros dd (Hbu & _). by rewrite Hbu, Hb.
Qed.

(** What is left of a submission once its checks passed. *)
Definition settle (p : str) (id g : Z) (t : str) (set_hash : str) (write : M PublicationRow) : M PublicationRow :=
  fun d =>
  match existing_publication d t p id g with
  | Some existing =>
      if decide (pub_set_hash existing = set_hash) then load_publication_info (pub_id existing) d
      else Fail (set_conflict_error p id g)
  | None => write d
  end.

Lemma replace_replays n p id g ex tok rows d pub d' :
  replace_relationships_impl n p id g ex tok rows d = Done pub d' ->
  exists t path sh mh act k hashed,
    let write := write_publication act t p id path g ex tok sh mh k hashed in
    settle p id g t sh write d = Done pub d'
    /\ forall dd, same_inputs d dd ->
         replace_relationships_impl n p id g ex tok rows dd = settle p id g t sh write dd.
Proof.
  intros Hrun. unfold replace_relationships_impl in *.
  apply replay_step in Hrun as (? & _ & Hrun & E1); [|intros; by apply replays_authorize].
  apply replay_step in Hrun as (? & _ & Hrun & E2); [|intros; apply replays_lift].
  apply replay_step in Hrun as (? & _ & Hrun & E3); [|intros; apply replays_if].
  apply replay_step in Hrun as (? & _ & Hrun & E4); [|intros; apply replays_if].
  apply replay_step in Hrun as (? & _ & Hrun & E5); [|intros; by apply replays_enforce].
  apply replay_step in Hrun as (parsed & _ & Hrun & E6); [|intros; apply replays_lift].
  apply replay_step in Hrun as (? & _ & Hrun & E7); [|intros; apply replays_lift].
  apply replay_step in Hrun as (path & _ & Hrun & E8); [|intros; by apply replays_path].
  apply replay_bundle in Hrun as (b & Hrun & E9).
  apply replay_step in Hrun as (fence & _ & Hrun & E10); [|intros; by apply replays_fence].
  apply replay_step in Hrun as (act & _ & Hrun & E11); [|intros; apply replays_lift].
  apply replay_step in Hrun as (resolved & _ & Hrun & E12); [|intros; by apply replays_resolve].
  destruct (canonicalize resolved) as [hashed sh] eqn:Hcanon.
  exists (b_tenant b), path, sh, (fe_manifest_hash fence), act,
    (Z.min (Z.of_nat (length hashed)) i32_max), hashed. cbv zeta. split.
  - unfold settle. revert Hrun. unfold get, mbind at 1, M_bind at 1.
    by destruct (existing_publication _ _ _ _ _); [case_decide|].
  - intros dd Hs. rewrite E1, E2, E3, E4, E5, E6, E7, E8, E9, E10, E11, E12 by done.
    unfold settle, get, mbind at 1, M_bind at 1.
    by destruct (existing_publication _ _ _ _ _); [case_decide|].
Qed.

(** Sending a submission again is a no-op.  When a submission of
    relationships committed, the same call answers the same publication and
    changes nothing: it never makes a second publication, supersedes its own
    or adds rows twice. *)
Theorem resend_is_noop n p id g ex tok rows d pub d' :
  wf d -> replace_relationships_impl n p id g ex tok rows d = Done pub d' ->
  replace_relationships_impl n p id g ex tok rows d' = Done pub d'.
Proof.
  intros Hwf Hrun. destruct (replace_replays _ _ _ _ _ _ _ _ _ _ Hrun)
    as (t & path & sh & mh & act & k & hashed & Hsettle & Hagain).
  unfold settle in Hsettle. destruct (existing_publication d t p id g) as [old|] eqn:Hold.
  - assert (d' = d) as ->; [|done]. case_decide; [|done]. symmetry. by apply (reads_publication _ _ _ _) in Hsettle.
  - apply publish_run in Hsettle as [Hw Hload].
    destruct (written_found _ _ _ t p id g Hw Hwf eq_refl Hold) as [Hfound Hinfo].
    { unfold in_slot. cbn. by rewrite !bool_decide_eq_true_2, Z.eqb_refl. }
    rewrite Hagain by apply Hw. unfold settle. rewrite Hfound. cbn [new_publication pub_set_hash pub_id] in *.
    rewrite decide_True by done. exact Hload.
Qed.

End resend.

(** ** Concrete submissions *)

#[local] Existing Instances demo_text demo_rows demo_session.

Definition demo_entry (relation target : str) : demo_json :=
  DObject [(lit "source_concept_id", DText (lit "a")); (lit "relation_type", DText relation);
           (lit "target_concept_id", DText target)].
Definition demo_submission : demo_json :=
  DArray [demo_entry (lit "kg:uses") (lit "a"); demo_entry (lit "kg:cites") (lit "nowhere")].

(** A submission under the fence of generation 1. *)
Definition demo_fence : M FenceRow := issue_fence_impl 1 (lit "kg") 1 1 None 60.
Definition demo_fenced : Db := left_by demo_fence demo_catalog.
Definition demo_publish : M PublicationRow :=
  replace_relationships_impl (J := demo_rows) 100 (lit "kg") 1 1 1 1 demo_submission.
Definition demo_published : Db := left_by demo_publish demo_fenced.
Definition demo_publication : PublicationRow :=
  new_publication 1 (lit "default") (lit "kg") 1 (lit "/a") 1 1 1
    (pub_set_hash (default (new_publication 0 [] [] 0 [] 0 0 0 [] None false 0) (returned demo_publish demo_fenced)))
    None true 2.

Lemma demo_fenced_wf : wf demo_fenced.
Proof.
  apply (left_by_wf no_perms demo_fence); [apply evo_issue_fence|vm_compute; by eexists|exact demo_catalog_wf].
Qed.

Lemma resend_is_noop_witness :
  length (relationship demo_published) = 2 /\
  demo_publish demo_published = Done demo_publication demo_published.
Proof.
  split; [by vm_compute|].
  apply (resend_is_noop (J := demo_rows) 100 (lit "kg") 1 1 1 1 demo_submission demo_fenced).
  - exact demo_fenced_wf.
  - by_run demo_publish demo_fenced.
Defined.

(** The second bundle hidden or not: a session cannot tell. *)
Definition demo_hidden (enabled : bool) : Db :=
  set_bundles (<[2%Z := with_lifecycle false (Some 1%Z) 1 (demo_bundle (lit "/b") 1)]> (bundles demo_catalog))
    2 demo_catalog.
Definition demo_hidden_gone : Db :=
  set_concepts {[(1%Z, lit "a")]} (set_bundles (delete 2%Z (bundles demo_catalog)) 2 demo_catalog).

Definition demo_relation (target : Z) : @RelationshipRow demo_rows :=
  {| rr_source_concept_id := lit "a"; rr_relation_type := lit "kg:uses"; rr_direction := dir_directed;
     rr_target_bundle_id := Some target; rr_target_concept_id := Some (lit "a");
     rr_external_target := None; rr_source_location := None; rr_confidence := None;
     rr_provenance := None; rr_unresolved := false; rr_cross_bundle := false |}.

Lemma demo_hidden_bundles id :
  id <> 2%Z -> bundles demo_hidden_gone !! id = bundles (demo_hidden false) !! id.
Proof. intros Hid. cbn. by rewrite lookup_delete_ne, lookup_insert_ne by done. Qed.

Lemma demo_hidden_unseen :
  visible_active (demo_hidden false) 2 = false /\ visible_active demo_hidden_gone 2 = false.
Proof. split; vm_compute; reflexivity. Qed.

Lemma demo_hidden_concepts :
  concepts (demo_hidden false) = {[(1%Z, lit "a")]} ∪ {[(2%Z, lit "a")]}
  /\ concepts demo_hidden_gone = {[(1%Z, lit "a")]}.
Proof. split; vm_compute; reflexivity. Qed.

Lemma demo_hidden_config : config demo_hidden_gone = config (demo_hidden false).
Proof. vm_compute. reflexivity. Qed.

#[local] Opaque demo_hidden demo_hidden_gone.

Lemma demo_same_view : same_view 1 (demo_hidden false) demo_hidden_gone.
Proof.
  destruct demo_hidden_unseen as [H2 H2'], demo_hidden_concepts as [Hc Hc']. split.
  - intros id. destruct (decide (id = 2%Z)) as [->|Hid]; [by rewrite H2, H2'|].
    unfold visible_active. rewrite (demo_hidden_bundles id Hid).
    destruct (bundles (demo_hidden false) !! id); [|done]. unfold tenant_predicate.
    by rewrite demo_hidden_config.
  - intros id c Hor.
    assert (id <> 2%Z) as Hid by (intros ->; destruct Hor; congruence).
    rewrite Hc, Hc', elem_of_union, !elem_of_singleton. split; [|by left].
    intros [?|[= ? _]]; [done|]. by destruct Hid.
Qed.

Lemma resolve_endpoints_no_leak_witness :
  answer (resolve_endpoints 1 [demo_relation 2] true (demo_hidden false))
  = answer (resolve_endpoints 1 [demo_relation 2] true demo_hidden_gone).
Proof. apply resolve_endpoints_no_leak. exact demo_same_view. Defined.

Lemma canonicalize_order_free_witness :
  canonicalize [demo_relation 2; demo_relation 1] = canonicalize [demo_relation 1; demo_relation 2].
Proof.
  apply canonicalize_order_free; [by_decide|]. apply Permutation_swap.
Defined.

(** ** What modelling the rows showed *)

(** The row text writes ["-"] for an absent value, so an external target that
    is ["-"] and no target at all hash alike though their identities differ. *)
Definition demo_external (target : option str) : @RelationshipRow demo_rows :=
  {| rr_source_concept_id := lit "a"; rr_relation_type := lit "kg:cites"; rr_direction := dir_directed;
     rr_target_bundle_id := None; rr_target_concept_id := None; rr_external_target := target;
     rr_source_location := None; rr_confidence := None; rr_provenance := None;
     rr_unresolved := true; rr_cross_bundle := false |}.

Lemma dash_and_none_collide :
  canonical_identity (demo_external (Some dash)) <> canonical_identity (demo_external None)
  /\ row_hash (demo_external (Some dash)) = row_hash (demo_external None).
Proof. split; [done|]. vm_compute. reflexivity. Qed.

(** A hidden target loses its concept id together with its bundle. *)
Lemma hidden_target_drops_concept d source (row : @RelationshipRow demo_rows) target :
  rr_target_bundle_id row = Some target -> visible_active d target = false ->
  rr_target_concept_id (hide_invisible d source row) = None.
Proof. intros Ht Hv. unfold hide_invisible. rewrite Ht, Hv. reflexivity. Qed.

(** Duplicates are refused before targets are completed: a target concept with
    and without the source bundle written out pass as two rows and become one
    identity. *)
Definition demo_implicit (target : option Z) : @RelationshipRow demo_rows :=
  with_target target (Some (lit "a")) false false (demo_relation 1).

Lemma completed_rows_duplicate :
  reject_duplicates [demo_implicit (Some 1%Z); demo_implicit None] = Ok tt
  /\ canonical_identity (default_target 1 (demo_implicit None))
     = canonical_identity (default_target 1 (demo_implicit (Some 1%Z))).
Proof. split; vm_compute; reflexivity. Qed.
