(* ===== verification/Provenance.v ===== *)
(** * Provenance and activity logs ([extension/src/catalog/provenance.rs],
      [bundle_log.rs])

    The rows a sync derives from the provenance keys of a concept's
    frontmatter, with the trust tier, and from the lines of a [log.md].  An
    instant is read by [Civil.parse_iso8601_epoch], which can panic, so the
    readers answer an [outcome]. *)
From stdpp Require Import prelude strings gmap list.
From Stdlib Require Import Ascii ZArith Lia.
From S2P Require Import Prelude Str Serde Concept Civil Catalog Outbox.

(** What the projection uses of [serde_json] beyond [Serde], and the [f64] of
    the instants. *)
Class RowHost (S : Serde) : Type := {
  (** [Value::to_string], [as_i64], [as_u64] *)
  value_text : jvalue -> str;
  value_i64 : jvalue -> option Z;
  value_u64 : jvalue -> option Z;
  (** the entries of a [Map], in its order, and [Map::remove] *)
  map_entries : jmap -> list (str * jvalue);
  map_remove : str -> jmap -> jmap;
  epoch : Type;
  epoch_zero : epoch;
  epoch_of_i64 : Z -> epoch;
  epoch_add : epoch -> epoch -> epoch;
  parse_fraction : str -> option epoch
}.

Class RowHostLaws (S : Serde) (R : RowHost S) : Prop := {
  entries_get m k v : (k, v) ∈ map_entries m <-> map_get m k = Some v;
  get_remove m k k' : map_get (map_remove k m) k' = if decide (k' = k) then None else map_get m k';
  look_map m : json_look (json_object m) = JObject m
}.

(** Sequencing outcomes along a list. *)
Fixpoint omap_out {A B} (f : A -> outcome (option B)) (l : list A) : outcome (list B) :=
  match l with
  | [] => Ret []
  | x :: l' =>
      obind (f x) (fun y => obind (omap_out f l') (fun ys => Ret (option_list y ++ ys)))
  end.

Section provenance.
Context `{S : Serde} `{R : !RowHost S}.

Definition PROVENANCE_KEYS : list str :=
  [lit "generated"; lit "generated_at"; lit "generated_by"; lit "verified"; lit "sources";
   lit "usage_window"; lit "stale_after"; lit "status"].

Definition non_empty (text : str) : option str :=
  if decide (trim text = []) then None else Some (trim text).

Definition is_provenance_key (key : str) : bool := bool_decide (key ∈ PROVENANCE_KEYS).

(** [Value::get] by key. *)
Definition value_get (v : jvalue) (k : str) : option jvalue :=
  match json_look v with JObject m => map_get m k | _ => None end.

Definition json_str (v : jvalue) (k : str) : option str := value_get v k ≫= as_str.

Definition coerce_i64 (v : jvalue) : option Z :=
  match value_i64 v with
  | Some number => Some number
  | None =>
      match value_u64 v with
      | Some number => if (number <=? i64_max)%Z then Some number else None
      | None => text ← as_str v; parse_i64 (trim text)
      end
  end.

(** [and_then(parse_iso8601_epoch)] *)
Definition instant (text : option str) : outcome (option epoch) :=
  match text with
  | Some t => parse_iso8601_epoch epoch epoch_zero epoch_of_i64 epoch_add parse_fraction t
  | None => Ret None
  end.

(** ** Verification and trust *)

Record VerificationEvent : Type := {
  ve_ordinal : Z;
  ve_verified_by : str;
  ve_verified_at : option epoch
}.

(** The closure [consider] on an indexed item. *)
Definition consider (indexed : nat * jvalue) : outcome (option VerificationEvent) :=
  let '(index, item) := indexed in
  match json_str item (lit "by") ≫= non_empty with
  | None => Ret None
  | Some verified_by =>
      obind (instant (json_str item (lit "at"))) (fun verified_at =>
      Ret (Some {| ve_ordinal := count_to_i32 index; ve_verified_by := verified_by;
                   ve_verified_at := verified_at |}))
  end.

(** The items of a [verified] value with their positions. *)
Definition verified_items (value : jvalue) : list (nat * jvalue) :=
  match json_look value with
  | JArray items => imap pair items
  | JObject _ => [(0%nat, value)]
  | _ => []
  end.

Definition extract_verification_events (concept : ParsedConcept) : outcome (list VerificationEvent) :=
  match map_get (pc_metadata concept) (lit "verified") with
  | None => Ret []
  | Some value => omap_out consider (verified_items value)
  end.

Definition human_prefix : str := lit "human:".
Definition tier_human : str := lit "human-reviewed".
Definition tier_machine : str := lit "machine-confirmed".
Definition tier_none : str := lit "unverified".

Definition trust_tier (events : list VerificationEvent) : str :=
  if existsb (fun event => starts_with human_prefix (ve_verified_by event)) events then tier_human
  else match events with [] => tier_none | _ => tier_machine end.

(** ** Sources *)

Record ProvenanceSourceEntry : Type := {
  ps_ordinal : Z;
  ps_source_id : option str;
  ps_resource : option str;
  ps_title : option str;
  ps_author : option str;
  ps_usage_count : option Z;
  ps_last_modified : option epoch;
  ps_window_from : option epoch;
  ps_window_to : option epoch
}.

(** One bound of a window object. *)
Definition window_bound (window : option jvalue) (bound : str) : outcome (option epoch) :=
  instant (window ≫= fun w => json_str w bound).

Definition source_entry (indexed : nat * jvalue) : outcome (option ProvenanceSourceEntry) :=
  let '(index, item) := indexed in
  match json_look item with
  | JObject _ =>
      let window := value_get item (lit "usage_window") in
      obind (instant (json_str item (lit "last_modified"))) (fun last_modified =>
      obind (window_bound window (lit "from")) (fun from =>
      obind (window_bound window (lit "to")) (fun to =>
      Ret (Some {|
        ps_ordinal := count_to_i32 index;
        ps_source_id := json_str item (lit "id") ≫= non_empty;
        ps_resource := json_str item (lit "resource") ≫= non_empty;
        ps_title := json_str item (lit "title") ≫= non_empty;
        ps_author := json_str item (lit "author") ≫= non_empty;
        ps_usage_count := value_get item (lit "usage_count") ≫= coerce_i64;
        ps_last_modified := last_modified; ps_window_from := from; ps_window_to := to |}))))
  | _ => Ret None
  end.

Definition extract_provenance_sources (concept : ParsedConcept)
  : outcome (list ProvenanceSourceEntry) :=
  match map_get (pc_metadata concept) (lit "sources") with
  | Some value =>
      match json_look value with
      | JArray items => omap_out source_entry (imap pair items)
      | _ => Ret []
      end
  | None => Ret []
  end.

(** ** Scalars *)

Record ScalarProvenance : Type := {
  sp_generated_by : option str;
  sp_generated_at : option epoch;
  sp_status : option str;
  sp_stale_after : option epoch;
  sp_window_from : option epoch;
  sp_window_to : option epoch;
  sp_trust_tier : str
}.

Definition extract_generated_by (concept : ParsedConcept) : option str :=
  let metadata := pc_metadata concept in
  match map_get metadata (lit "generated_by") ≫= as_str with
  | Some text => non_empty text
  | None =>
      generated ← map_get metadata (lit "generated");
      match as_str generated with
      | Some text => non_empty text
      | None => json_str generated (lit "by") ≫= non_empty
      end
  end.

Definition extract_generated_at (concept : ParsedConcept) : outcome (option epoch) :=
  let metadata := pc_metadata concept in
  obind (instant (map_get metadata (lit "generated_at") ≫= as_str)) (fun given =>
  match given with
  | Some e => Ret (Some e)
  | None => instant (map_get metadata (lit "generated") ≫= fun g => json_str g (lit "at"))
  end).

Definition extract_scalar (concept : ParsedConcept) (events : list VerificationEvent)
  : outcome ScalarProvenance :=
  let metadata := pc_metadata concept in
  let window := map_get metadata (lit "usage_window") in
  obind (extract_generated_at concept) (fun generated_at =>
  obind (instant (map_get metadata (lit "stale_after") ≫= as_str)) (fun stale_after =>
  obind (window_bound window (lit "from")) (fun from =>
  obind (window_bound window (lit "to")) (fun to =>
  Ret {| sp_generated_by := extract_generated_by concept; sp_generated_at := generated_at;
         sp_status := (map_get metadata (lit "status") ≫= as_str) ≫= non_empty;
         sp_stale_after := stale_after; sp_window_from := from; sp_window_to := to;
         sp_trust_tier := trust_tier events |})))).

Definition extract_details (concept : ParsedConcept) : jmap :=
  let details := pc_metadata concept in
  let discard := List.filter (fun key => negb (is_provenance_key key)) (map fst (map_entries details)) in
  fold_left (fun m key => map_remove key m) discard details.

Definition details_is_empty (details : jmap) : bool :=
  match map_entries details with [] => true | _ => false end.

(** ** The rows of one concept *)

Record ProvenanceRows : Type := {
  pr_scalar : ScalarProvenance;
  pr_details : str;
  pr_verifications : list VerificationEvent;
  pr_sources : list ProvenanceSourceEntry
}.

(** [None] for a concept without a provenance key: the projection is sparse. *)
Definition provenance_rows (concept : ParsedConcept) : outcome (option ProvenanceRows) :=
  let details := extract_details concept in
  if details_is_empty details then Ret None
  else
    obind (extract_verification_events concept) (fun events =>
    obind (extract_scalar concept events) (fun scalar =>
    obind (extract_provenance_sources concept) (fun sources =>
    Ret (Some {| pr_scalar := scalar; pr_details := value_text (json_object details);
                 pr_verifications := events; pr_sources := sources |})))).

(** ** [bundle_log.rs] *)

Record LogEntry : Type := {
  le_ordinal : Z;
  le_logged_at : option epoch;
  le_entry : str
}.

Definition sharp : ascii := "#"%char.

Definition timestamp_candidate (entry : str) : str :=
  let trimmed := trim_start entry in
  if starts_with [sharp] trimmed
  then trim_start (trim_start_matches (fun c => bool_decide (c = sharp)) trimmed)
  else match strip_prefix (lit "- ") trimmed with
       | Some rest => trim_start rest
       | None =>
           match strip_prefix (lit "* ") trimmed with
           | Some rest => trim_start rest
           | None => match strip_prefix (lit "+ ") trimmed with
                     | Some rest => trim_start rest
                     | None => trimmed
                     end
           end
       end.

Definition leading_timestamp (candidate : str) : outcome (option epoch) :=
  match split_whitespace candidate with
  | [] => Ret None
  | [first] => instant (Some first)
  | first :: second :: _ =>
      obind (instant (Some (first ++ lit " " ++ second))) (fun joined =>
      match joined with
      | Some e => Ret (Some e)
      | None => instant (Some first)
      end)
  end.

(** The loop; [saturating_add]. *)
Fixpoint parse_lines (ordinal : Z) (ls : list str) : outcome (list LogEntry) :=
  match ls with
  | [] => Ret []
  | line :: ls' =>
      let trimmed := trim line in
      if decide (trimmed = []) then parse_lines ordinal ls'
      else
        obind (leading_timestamp (timestamp_candidate trimmed)) (fun logged_at =>
        obind (parse_lines (Z.min (ordinal + 1) i32_max) ls') (fun entries =>
        Ret ({| le_ordinal := ordinal; le_logged_at := logged_at; le_entry := trimmed |} :: entries)))
  end.

Definition parse_log (bytes : str) : outcome (list LogEntry) :=
  parse_lines 0 (lines (to_string_lossy bytes)).

End provenance.

(** * Properties *)

Lemma obind_ret {A B} (m : outcome A) (k : A -> outcome B) b :
  obind m k = Ret b <-> exists a, m = Ret a /\ k a = Ret b.
Proof. destruct m; cbn; naive_solver. Qed.

(** What a sequenced list holds: the results of the elements, in order. *)
Lemma omap_out_ret {A B} (f : A -> outcome (option B)) l ys :
  omap_out f l = Ret ys -> exists os, Forall2 (fun x o => f x = Ret o) l os /\ ys = omap id os.
Proof.
  revert ys. induction l as [|x l IH]; intros ys; cbn.
  { intros [= <-]. by exists []. }
  intros (o & Ho & (zs & (os & Hos & ->)%IH & [= <-])%obind_ret)%obind_ret.
  exists (o :: os). split; [by constructor|]. by destruct o.
Qed.

Lemma omap_out_total {A B} (f : A -> outcome (option B)) l :
  (forall x, x ∈ l -> exists o, f x = Ret o) -> exists ys, omap_out f l = Ret ys.
Proof.
  induction l as [|x l IH]; intros Hf; cbn; [by eexists|].
  destruct (Hf x) as [o ->]; [by apply list_elem_of_here|]. cbn.
  destruct IH as [ys ->]; [intros y Hy; apply Hf; by apply list_elem_of_further|]. by eexists.
Qed.

Section trust.
Context `{S : Serde} `{R : !RowHost S}.

(** The actor of an item, if it names one. *)
Definition actor_of (item : jvalue) : option str := json_str item (lit "by") ≫= non_empty.

(** Every actor the frontmatter names, with its position. *)
Definition actors (c : ParsedConcept) : list (nat * str) :=
  match map_get (pc_metadata c) (lit "verified") with
  | None => []
  | Some value => omap (fun '(i, item) => pair i <$> actor_of item) (verified_items value)
  end.

Definition is_human (a : str) : Prop := starts_with human_prefix a = true.

Lemma consider_ret it o :
  consider it = Ret o ->
  (fun e => (ve_ordinal e, ve_verified_by e)) <$> o
  = (fun '(i, a) => (count_to_i32 i, a)) <$> (pair it.1 <$> actor_of it.2).
Proof.
  destruct it as [i item]. unfold consider. cbn [fst snd].
  change (json_str item (lit "by") ≫= non_empty) with (actor_of item).
  destruct (actor_of item) as [a|]; [|by intros [= <-]]. intros (t & _ & [= <-])%obind_ret. done.
Qed.

Lemma events_actors c events :
  extract_verification_events c = Ret events ->
  map (fun e => (ve_ordinal e, ve_verified_by e)) events
  = map (fun '(i, a) => (count_to_i32 i, a)) (actors c).
Proof.
  unfold extract_verification_events, actors.
  destruct (map_get (pc_metadata c) (lit "verified")) as [v|]; [|by intros [= <-]].
  intros (os & Hos & ->)%omap_out_ret. revert Hos. generalize (verified_items v). intros l.
  induction 1 as [|it o l os Ho _ IH]; [done|]. apply consider_ret in Ho. cbn.
  destruct it as [i item]. cbn in *. destruct o as [e|], (actor_of item) as [a|]; cbn in *; try done.
  injection Ho as -> ->. by f_equal.
Qed.

(** The fold of [extract_details]. *)
Lemma removed_get `{!RowHostLaws S R} ks m k :
  map_get (fold_left (fun m key => map_remove key m) ks m) k
  = if decide (k ∈ ks) then None else map_get m k.
Proof.
  revert m. induction ks as [|k' ks IH]; intros m; cbn [fold_left].
  { rewrite decide_False by apply not_elem_of_nil. done. }
  rewrite IH, get_remove. repeat case_decide; try done; set_solver.
Qed.

Lemma details_get `{!RowHostLaws S R} c k :
  map_get (extract_details c) k = if is_provenance_key k then map_get (pc_metadata c) k else None.
Proof.
  unfold extract_details. rewrite removed_get. case_decide as Hin.
  - rewrite list_elem_of_In, filter_In, negb_true_iff in Hin. destruct Hin as [_ ->]. done.
  - destruct (is_provenance_key k) eqn:Hk; [done|].
    destruct (map_get (pc_metadata c) k) as [v|] eqn:Hv; [|done]. destruct Hin.
    rewrite list_elem_of_In, filter_In, negb_true_iff. split; [|done].
    apply entries_get in Hv. rewrite in_map_iff. exists (k, v). by rewrite <- list_elem_of_In.
Qed.

Lemma details_empty `{!RowHostLaws S R} c :
  details_is_empty (extract_details c) = true <->
  forall k, k ∈ PROVENANCE_KEYS -> map_get (pc_metadata c) k = None.
Proof.
  unfold details_is_empty. split.
  - destruct (map_entries (extract_details c)) eqn:He; [|done]. intros _ k Hk.
    destruct (map_get (pc_metadata c) k) as [v|] eqn:Hv; [|done].
    assert ((k, v) ∈ map_entries (extract_details c)) as Hin.
    { apply entries_get. rewrite details_get. unfold is_provenance_key.
      by rewrite bool_decide_eq_true_2. }
    rewrite He in Hin. by apply not_elem_of_nil in Hin.
  - intros Hno. destruct (map_entries (extract_details c)) as [|[k v] l] eqn:He; [done|].
    assert ((k, v) ∈ map_entries (extract_details c)) as Hin by (rewrite He; apply list_elem_of_here).
    apply entries_get in Hin. rewrite details_get in Hin. unfold is_provenance_key in Hin.
    case_bool_decide; [|done]. by rewrite Hno in Hin.
Qed.

Lemma tier_exact events :
  let human := exists e, e ∈ events /\ is_human (ve_verified_by e) in
  (trust_tier events = tier_human <-> human)
  /\ (trust_tier events = tier_machine <-> events <> [] /\ ~ human)
  /\ (trust_tier events = tier_none <-> events = []).
Proof.
  cbn zeta. unfold trust_tier. destruct (existsb _ events) eqn:E.
  - apply existsb_exists in E as (e & He & Hh). rewrite <- list_elem_of_In in He.
    assert (exists e, e ∈ events /\ is_human (ve_verified_by e)) as Hex by (by exists e).
    split_and!; [by split|split; [done|by intros [_ []]]|].
    split; [done|]. intros ->. by apply not_elem_of_nil in He.
  - assert (~ exists e, e ∈ events /\ is_human (ve_verified_by e)) as Hno.
    { intros (e & He & Hh). apply not_true_iff_false in E. apply E. apply existsb_exists.
      exists e. by rewrite <- list_elem_of_In. }
    destruct events as [|e events]; split_and!; (split; [intros; try done|]);
      try (by intros []; done); try (by intros; exfalso; apply Hno); try done; naive_solver.
Qed.

(** The trust a concept is shown with.  The rows of a concept are written
    exactly when its frontmatter has a provenance key, and then hold every
    such key unchanged in the details.  Each verification row is an entry of
    [verified] that names an actor, in order and under its position; the tier
    is [human-reviewed] exactly when one of those actors is a human,
    [machine-confirmed] when there are actors and none is, and [unverified]
    when there are none. *)
Theorem provenance_rows_exact `{!RowHostLaws S R} (c : ParsedConcept) rows :
  provenance_rows c = Ret rows ->
  (rows = None <-> forall k, k ∈ PROVENANCE_KEYS -> map_get (pc_metadata c) k = None)
  /\ forall r, rows = Some r ->
       (exists details, pr_details r = value_text (json_object details)
          /\ forall k, map_get details k = if is_provenance_key k then map_get (pc_metadata c) k else None)
       /\ map (fun e => (ve_ordinal e, ve_verified_by e)) (pr_verifications r)
          = map (fun '(i, a) => (count_to_i32 i, a)) (actors c)
       /\ let human := exists i a, (i, a) ∈ actors c /\ is_human a in
          let tier := sp_trust_tier (pr_scalar r) in
          (tier = tier_human <-> human) /\ (tier = tier_machine <-> actors c <> [] /\ ~ human)
          /\ (tier = tier_none <-> actors c = []).
Proof.
  unfold provenance_rows. destruct (details_is_empty (extract_details c)) eqn:Hd.
  { intros [= <-]. split; [|done]. split; [|done]. intros _. by apply details_empty. }
  intros (events & He & (scalar & Hs & (sources & _ & [= <-])%obind_ret)%obind_ret)%obind_ret.
  split.
  { split; [done|]. intros Hno%details_empty. congruence. }
  intros r [= <-]. pose proof (events_actors c events He) as Hacts.
  split; [|split].
  - exists (extract_details c). split; [done|]. apply details_get.
  - exact Hacts.
  - cbn [pr_scalar]. assert (sp_trust_tier scalar = trust_tier events) as ->.
    { unfold extract_scalar in Hs.
      by repeat (apply obind_ret in Hs as (? & _ & Hs)); injection Hs as <-. }
    assert ((exists e, e ∈ events /\ is_human (ve_verified_by e))
            <-> exists i a, (i, a) ∈ actors c /\ is_human a) as Hh.
    { assert (map ve_verified_by events = map snd (actors c)) as Hby.
      { apply (f_equal (map snd)) in Hacts. rewrite !map_map in Hacts. cbn in Hacts.
        etransitivity; [exact Hacts|]. apply map_ext. by intros []. }
      split.
      - intros (e & Hin%list_elem_of_In & Hhum). apply (in_map ve_verified_by) in Hin.
        rewrite Hby, in_map_iff in Hin. destruct Hin as ([i a] & Hea & Hin%list_elem_of_In).
        exists i, a. split; [done|]. cbn in Hea. by rewrite Hea.
      - intros (i & a & Hin%list_elem_of_In & Hhum). apply (in_map snd) in Hin.
        rewrite <- Hby, in_map_iff in Hin. destruct Hin as (e & Hea & Hin%list_elem_of_In).
        exists e. split; [done|]. by rewrite Hea. }
    assert (events = [] <-> actors c = []) as Hnil.
    { apply (f_equal length) in Hacts. rewrite !length_map in Hacts.
      split; intros Hn; rewrite Hn in Hacts; cbn in Hacts;
        [destruct (actors c)|destruct events]; done. }
    cbn zeta. pose proof (tier_exact events) as Ht. cbn zeta in Ht. tauto.
Qed.

End trust.

(** ** When reading an instant cannot panic *)

Lemma ascii_not_cont c : (byte c < 128)%N -> is_cont c = false.
Proof. unfold is_cont, in_range. intros H. apply andb_false_iff. left. by apply N.leb_gt. Qed.

Lemma ascii_boundary s i : ascii_text s -> (i <= length s)%nat -> is_char_boundary s i = true.
Proof.
  intros Hs Hi. destruct i as [|i]; [done|]. unfold is_char_boundary.
  destruct (s !! S i) as [c|] eqn:E.
  - unfold ascii_text in Hs. rewrite Forall_lookup in Hs. by rewrite ascii_not_cont by (by eapply Hs).
  - apply lookup_ge_None in E. apply Nat.eqb_eq. lia.
Qed.

Lemma ascii_slice s i : ascii_text s -> (i <= length s)%nat -> slice_from s i = Ret (drop i s) /\ slice_to s i = Ret (take i s).
Proof. intros Hs Hi. unfold slice_from, slice_to. by rewrite ascii_boundary. Qed.

Lemma split_time_zone_sub t tm z : split_time_zone t = (tm, z) -> forall c, c ∈ z -> c ∈ t.
Proof.
  revert tm z. induction t as [|a t IH]; intros tm z; cbn; [by intros [= <- <-]|].
  destruct (is_zone_marker a); [by intros [= <- <-]|].
  destruct (split_time_zone t) as [tm' z'] eqn:E. intros [= <- <-] c Hc.
  apply list_elem_of_further. by eapply IH.
Qed.

Lemma zone_offset_total z : ascii_text z -> exists o, parse_zone_offset_secs z = Ret o.
Proof.
  intros Hz. unfold parse_zone_offset_secs. destruct z as [|c rest]; [by eexists|].
  case_decide; [by eexists|]. destruct (if decide (c = "+"%char) then _ else _); [|by eexists]. cbn [qbind].
  destruct (ascii_slice (c :: rest) 1 Hz) as [-> _]; [cbn; lia|]. cbn [obind qbind drop].
  assert (exists o, split_zone_body (drop 0 rest) = Ret o) as [o ->].
  { rewrite drop_0. unfold split_zone_body. destruct (split_once _ _) as [[h m]|]; [by eexists|].
    assert (ascii_text rest) as Hr by (by inversion Hz).
    destruct (Nat.eqb (length rest) 4) eqn:E4.
    - apply Nat.eqb_eq in E4. destruct (ascii_slice rest 2 Hr) as [-> ->]; [lia|]. by eexists.
    - destruct (Nat.eqb (length rest) 2); by eexists. }
  destruct o as [[h m]|]; [|by eexists]. cbn [qbind].
  destruct (parse_i64 h); [|by eexists]. destruct (parse_i64 m); [|by eexists]. cbn [qbind].
  destruct (_ || _); by eexists.
Qed.

Section ascii.
Context `{S : Serde} `{R : !RowHost S}.

Lemma clock_total t :
  ascii_text t -> exists o, parse_clock_time epoch epoch_zero parse_fraction t = Ret o.
Proof.
  intros Ht. unfold parse_clock_time. destruct (split_time_zone t) as [tm z] eqn:E.
  destruct (zone_offset_total z) as [o Ho]; [by eapply ascii_sub; [apply (split_time_zone_sub _ _ _ E)|]|].
  destruct (split_on _ tm) as [|h rest]; [by eexists|]. destruct (parse_i64 h) as [hh|]; [|by eexists].
  cbn [qbind]. destruct rest as [|mi rest]; [by eexists|]. destruct (parse_i64 mi) as [mm|]; [|by eexists].
  cbn [qbind]. match goal with |- context [match ?o with Some _ => _ | None => Ret None end] =>
    destruct o as [[sec frac]|] end; [|by eexists].
  assert (exists o, (if negb (in_bounds 0 23 hh) || negb (in_bounds 0 59 mm) || negb (in_bounds 0 60 sec)
                     then Ret None
                     else try? offset_secs := parse_zone_offset_secs z in
                          Ret (Some {| hour := hh; minute := mm; second := sec; fraction := frac;
                                       offset_secs := offset_secs |})) = Ret o) as Hend.
  { destruct (_ || _); [by eexists|]. rewrite Ho. destruct o; by eexists. }
  destruct rest as [|? [|? ?]]; [exact Hend|exact Hend|by eexists].
Qed.

Lemma parse_civil_date_length t d : parse_civil_date t = Some d -> (10 <= length t)%nat.
Proof. unfold parse_civil_date. destruct (Nat.ltb (length t) 10) eqn:E; [done|]. by apply Nat.ltb_ge in E. Qed.

Lemma instant_total o : (forall t, o = Some t -> ascii_text t) -> exists e, instant o = Ret e.
Proof.
  destruct o as [t|]; [|by eexists]. intros Ht. specialize (Ht t eq_refl). cbn [instant].
  unfold parse_iso8601_epoch. assert (ascii_text (trim t)) as Htr.
  { eapply ascii_sub; [|exact Ht]. intros c. apply trim_sub. }
  destruct (parse_civil_date (trim t)) as [[[y m] d]|] eqn:E; [|by eexists]. cbn [qbind].
  apply parse_civil_date_length in E. destruct (ascii_slice (trim t) 10 Htr E) as [-> _]. cbn [obind].
  assert (ascii_text (drop 10 (trim t))) as Hd.
  { eapply ascii_sub; [|exact Htr]. intros c Hc. rewrite <- (take_drop 10 (trim t)). apply elem_of_app. by right. }
  assert (exists o, parse_time_section epoch epoch_zero parse_fraction (drop 10 (trim t)) = Ret o) as [o ->].
  { unfold parse_time_section. destruct (drop 10 (trim t)) as [|c rest]; [by eexists|].
    destruct (negb _); [by eexists|]. destruct (ascii_slice (c :: rest) 1 Hd) as [-> _]; [cbn; lia|].
    cbn [obind]. apply clock_total. cbn. rewrite drop_0. by inversion Hd. }
  destruct o; by eexists.
Qed.

(** ** Activity logs *)

Lemma candidate_sub t c : c ∈ timestamp_candidate t -> c ∈ t.
Proof.
  assert (forall u v, c ∈ trim_start u -> (exists w, v = w ++ u) -> c ∈ v) as Hsuf.
  { intros u v Hc [w ->]. destruct (trim_start_suffix u) as [x Hx]. rewrite Hx.
    rewrite !elem_of_app. auto. }
  assert (forall p u v, strip_prefix p u = Some v -> exists w, u = w ++ v) as Hpre.
  { intros p u v ->%strip_prefix_Some. by eexists. }
  unfold timestamp_candidate. intros Hc.
  assert (c ∈ trim_start t) as Hin; [|destruct (trim_start_suffix t) as [w Hw]; rewrite Hw, elem_of_app; auto].
  revert Hc. destruct (starts_with _ _).
  { intros Hc. eapply Hsuf; [exact Hc|].
    destruct (trim_start_matches_spec (fun x => bool_decide (x = sharp)) (trim_start t)) as (w & Hw & _).
    by exists w. }
  repeat match goal with |- context [match strip_prefix ?p ?u with _ => _ end] =>
    destruct (strip_prefix p u) eqn:?; [intros Hc; eapply Hsuf; [exact Hc|by eapply Hpre]|] end.
  done.
Qed.

Lemma timestamp_total t : ascii_text t -> exists o, leading_timestamp (timestamp_candidate t) = Ret o.
Proof.
  intros Ht. assert (ascii_text (timestamp_candidate t)) as Hc.
  { eapply ascii_sub; [|exact Ht]. intros c. apply candidate_sub. }
  unfold leading_timestamp.
  assert (forall w, w ∈ split_whitespace (timestamp_candidate t) -> ascii_text w) as Hw.
  { intros w Hw. eapply ascii_sub; [|exact Hc]. intros c. by apply split_whitespace_sub. }
  destruct (split_whitespace _) as [|first [|second ws]]; [by eexists| |].
  { apply instant_total. intros ? [= <-]. apply Hw, list_elem_of_here. }
  assert (ascii_text first /\ ascii_text second) as [H1 H2] by (split; apply Hw; set_solver).
  destruct (instant_total (Some (first ++ lit " " ++ second))) as [o ->].
  { intros ? [= <-]. apply Forall_app. split; [done|].
    change (lit " " ++ second) with (" "%char :: second). by constructor. }
  cbn [obind]. destruct o; [by eexists|]. apply instant_total. by intros ? [= <-].
Qed.

Lemma parse_lines_total ls n :
  (forall l, l ∈ ls -> ascii_text l) -> exists es, parse_lines n ls = Ret es.
Proof.
  revert n. induction ls as [|l ls IH]; intros n Hls; cbn; [by eexists|].
  assert (forall n, exists es, parse_lines n ls = Ret es) as Hrest.
  { intros m. apply IH. intros x Hx. apply Hls. by apply list_elem_of_further. }
  case_decide; [apply Hrest|]. destruct (timestamp_total (trim l)) as [o ->].
  { eapply ascii_sub; [intros c; apply trim_sub|]. apply Hls, list_elem_of_here. }
  cbn [obind]. destruct (Hrest (Z.min (n + 1) i32_max)) as [es ->]. by eexists.
Qed.

Lemma parse_lines_entries ls n es :
  parse_lines (count_to_i32 n) ls = Ret es ->
  map le_entry es = List.filter (fun t => negb (bool_decide (t = []))) (map trim ls)
  /\ forall i e, es !! i = Some e -> le_ordinal e = count_to_i32 (n + i).
Proof.
  revert n es. induction ls as [|l ls IH]; intros n es; cbn; [by intros [= <-]|].
  case_decide as Ht.
  { intros [He Ho]%IH. rewrite Ht. by split. }
  intros (o & _ & (rest & Hrest & [= <-])%obind_ret)%obind_ret.
  assert (Z.min (count_to_i32 n + 1) i32_max = count_to_i32 (n + 1)) as Hn.
  { unfold count_to_i32. lia. }
  rewrite Hn in Hrest. apply IH in Hrest as [He Ho]. rewrite bool_decide_eq_false_2 by done. cbn.
  rewrite He. split; [done|]. intros [|i] e; cbn; [intros [= <-]; cbn; f_equal; lia|].
  intros Hi. rewrite (Ho _ _ Hi). f_equal. lia.
Qed.

(** An activity log becomes its lines.  The entries of a [log.md] are its
    non-blank lines, trimmed, in order and under their positions (saturated
    at the [i32] maximum); and a log of ASCII bytes always parses.  (A log
    with other characters may not: [log_line_panics].) *)
Theorem parse_log_exact (bytes : str) :
  (ascii_text bytes -> exists es, parse_log bytes = Ret es)
  /\ forall es, parse_log bytes = Ret es ->
       map le_entry es
       = List.filter (fun t => negb (bool_decide (t = []))) (map trim (lines (to_string_lossy bytes)))
       /\ forall i e, es !! i = Some e -> le_ordinal e = count_to_i32 i.
Proof.
  split.
  - intros Ha. apply parse_lines_total. intros l Hl. eapply ascii_sub; [|exact Ha].
    intros c Hc. rewrite lossy_valid in Hl by (by apply ascii_utf8). by eapply lines_sub.
  - intros es Hes. apply (parse_lines_entries _ 0) in Hes as [He Ho]. split; [done|]. intros i e. apply Ho.
Qed.

End ascii.

(** *** Concrete rows *)

(** The shadowing list of [Toy] as a map with an order. *)
Fixpoint toy_entries (m : list (list ascii * Toy.value)) : list (list ascii * Toy.value) :=
  match m with
  | [] => []
  | (k, v) :: m' => (k, v) :: filter (fun e => e.1 <> k) (toy_entries m')
  end.

#[export] Instance toy_rows : RowHost Toy.toy := {
  value_text (_ : jvalue) := []; value_i64 (_ : jvalue) := None; value_u64 (_ : jvalue) := None;
  map_entries := toy_entries;
  map_remove (k : list ascii) (m : list (list ascii * Toy.value)) := filter (fun e => e.1 <> k) m;
  epoch := Z; epoch_zero := 0%Z; epoch_of_i64 (z : Z) := z; epoch_add := Z.add;
  parse_fraction (_ : list ascii) := None
}.

#[export] Instance toy_row_laws : RowHostLaws Toy.toy toy_rows.
Proof.
  split; cbn.
  - intros m. induction m as [|[k0 v0] m IH]; intros k v; cbn; [split; [by intros ?%not_elem_of_nil|done]|].
    rewrite elem_of_cons, list_elem_of_filter, IH. cbn. case_decide; naive_solver.
  - intros m k k'. induction m as [|[k0 v0] m IH]; [by case_decide|].
    destruct (decide (k0 = k)) as [->|Hk].
    + rewrite filter_cons_False by naive_solver. rewrite IH. cbn. by repeat case_decide.
    + rewrite filter_cons_True by done. cbn. rewrite IH. repeat case_decide; congruence.
  - done.
Qed.

Definition demo_concept (metadata : jmap (Serde := Toy.toy)) : ParsedConcept (S := Toy.toy) :=
  {| pc_id := lit "a"; pc_declared_id := None; pc_path := lit "a.md"; pc_type := lit "Note";
     pc_title := lit "A"; pc_description := None; pc_tags := []; pc_resource := None;
     pc_body_text := []; pc_links := []; pc_metadata := metadata |}.

Definition verified_by (a : string) : ParsedConcept (S := Toy.toy) :=
  demo_concept ([(lit "verified", Toy.Object [(lit "by", Toy.Scalar (lit a))])] : list (list ascii * Toy.value)).

(** The tier of the rows, if there are any. *)
Definition tier_of (rows : outcome (option (ProvenanceRows (R := toy_rows)))) : option (list ascii) :=
  match rows with Ret (Some r) => Some (sp_trust_tier (pr_scalar r)) | _ => None end.

Example tiers :
  tier_of (provenance_rows (verified_by " human:ann ")) = Some tier_human
  /\ tier_of (provenance_rows (verified_by "ci")) = Some tier_machine
  /\ tier_of (provenance_rows (verified_by "  ")) = Some tier_none
  /\ tier_of (provenance_rows (demo_concept ([] : list (list ascii * Toy.value)))) = None.
Proof. repeat split; by_eval. Qed.

Lemma tier_of_rows rows t :
  tier_of rows = Some t -> exists r, rows = Ret (Some r) /\ sp_trust_tier (pr_scalar r) = t.
Proof. destruct rows as [|[r|]]; cbn; [done| |done]. intros [= <-]. by exists r. Qed.

Lemma provenance_rows_exact_witness :
  exists i a, (i, a) ∈ actors (verified_by "human:ann") /\ is_human a.
Proof.
  assert (tier_of (provenance_rows (R := toy_rows) (verified_by "human:ann")) = Some tier_human) as Hex
    by by_eval.
  apply tier_of_rows in Hex as (r & Hr & Ht).
  exact (proj1 (proj1 (proj2 (proj2 (proj2 (provenance_rows_exact _ _ Hr) r eq_refl)))) Ht).
Defined.

Lemma parse_log_exact_witness : exists es, parse_log (R := toy_rows) (lit "- 2026-01-01 shipped") = Ret es.
Proof.
  apply (proj1 (parse_log_exact (R := toy_rows) (lit "- 2026-01-01 shipped"))). by_decide.
Defined.

(** One line of a log aborts the sync: the instant it starts with has a zone
    that is cut inside a character. *)
Example log_line_panics :
  parse_log (R := toy_rows) (lit "- 2026-01-01T00:00+1" ++ [ascii_of_N 195; ascii_of_N 169] ++ lit "2 done")
  = Panic.
Proof. by_eval. Qed.
