(* ===== verification/Projection.v ===== *)
(** * The stored projection of a bundle and its sync
      ([extension/src/catalog/sync.rs], [batch.rs], [links.rs], [packages.rs],
      [source.rs])

    The rows a bundle has in the catalog as one [Store], the statements a
    sync runs on them, and [sync_projection], the part of [run_bundle_sync]
    between the snapshot and the bundle row.  A statement that breaks a
    constraint raises and nothing of the sync stays.  Text-search vectors are
    not kept; parallel parameter arrays are lists of records; a [jsonb]
    column holds the text that is cast.  The opt-in version history is not
    modelled. *)
From stdpp Require Import prelude strings gmap list sorting.
From Stdlib Require Import Ascii ZArith Lia.
From S2P Require Import Prelude Str ParserError Serde OkfPath Frontmatter Links Concept Package BTree Discover Plan SyncDelta CatalogError Security Catalog Staging Outbox Provenance.

Abbreviation text := (list ascii).

(** ** The results of a sync's statements *)

(** A refusal, or an error PostgreSQL raises (a Rust panic becomes one). *)
Inductive projected (A : Type) : Type :=
| Projected (a : A)
| Refused (e : CatalogError)
| Raised.
Arguments Projected {A} a.
Arguments Refused {A} e.
Arguments Raised {A}.

#[export] Instance projected_bind : MBind projected := fun A B k m =>
  match m with
  | Projected a => k a
  | Refused e => Refused e
  | Raised => Raised
  end.

Definition sql {A} (o : option A) : projected A :=
  match o with Some a => Projected a | None => Raised end.
Definition checked {A} (r : result A CatalogError) : projected A :=
  match r with Ok a => Projected a | Err e => Refused e end.
Definition unwinds {A} (o : outcome A) : projected A :=
  match o with Ret a => Projected a | Panic => Raised end.

Section projection.
Context `{S : Serde} `{H : Host} `{G : !StagingHost S H} `{R : !RowHost S}.
(** PostgreSQL's [encode(sha256(_), 'hex')], the transaction's [now()], and
    whether the input function of [jsonb] takes a text. *)
Context (sha256 : str -> str) (instant_now : Z) (jsonb_text : str -> bool).

Abbreviation Concept := (StagedConcept (G := G)).

(** ** Rows *)

Record ConceptRow : Type := {
  c_path : str;
  c_type : str;
  c_title : str;
  c_description : option str;
  c_tags : list str;
  c_resource : option str;
  c_body_text : str;
  c_file_hash : str;
  c_modified_at : option seconds;
  c_indexed_at : Z
}.

Record LinkRow : Type := {
  l_target_id : option str;
  l_link_text : option str;
  l_target_path : option str;
  l_link_kind : str;
  l_resolved : bool;
  l_is_external : bool;
  l_link_relation : str
}.

Record SkillRow : Type := {
  k_visibility : str;
  k_agent_skill : str;
  k_skill_md : str;
  k_package_root : str;
  k_package_hash : str;
  k_file_hash : str
}.

Record ScriptRow : Type := {
  x_language : str;
  x_visibility : str;
  x_runtime : option str;
  x_bytes : str;
  x_byte_size : Z;
  x_sha256 : str;
  x_source_path : str;
  x_package : str;
  x_file_hash : str
}.

Record ReferenceRow : Type := {
  d_visibility : str;
  d_format : str;
  d_media_type : str;
  d_bytes : str;
  d_byte_size : Z;
  d_sha256 : str;
  d_text_body : option str;
  d_source_path : str;
  d_package : str;
  d_file_hash : str
}.

(** Every table is keyed as its primary key is, without the bundle; the three
    provenance tables hold the rows of one concept together. *)
Record Store : Type := {
  s_concepts : gmap text ConceptRow;
  s_metadata : gmap (text * text) text;
  s_links : gmap (text * Z) LinkRow;
  s_skills : gmap text SkillRow;
  s_scripts : gmap text ScriptRow;
  s_references : gmap text ReferenceRow;
  s_sources : gmap text (text * Z);
  s_embeddings : gset text;
  s_provenance : gmap text ProvenanceRows;
  s_log : gmap (text * Z) (option epoch * text)
}.

Definition empty_store : Store :=
  {| s_concepts := ∅; s_metadata := ∅; s_links := ∅; s_skills := ∅; s_scripts := ∅;
     s_references := ∅; s_sources := ∅; s_embeddings := ∅; s_provenance := ∅; s_log := ∅ |}.

Definition set_concepts (c : gmap text ConceptRow) (s : Store) : Store :=
  {| s_concepts := c; s_metadata := s_metadata s; s_links := s_links s; s_skills := s_skills s;
     s_scripts := s_scripts s; s_references := s_references s; s_sources := s_sources s;
     s_embeddings := s_embeddings s; s_provenance := s_provenance s; s_log := s_log s |}.
Definition set_metadata (m : gmap (text * text) text) (s : Store) : Store :=
  {| s_concepts := s_concepts s; s_metadata := m; s_links := s_links s; s_skills := s_skills s;
     s_scripts := s_scripts s; s_references := s_references s; s_sources := s_sources s;
     s_embeddings := s_embeddings s; s_provenance := s_provenance s; s_log := s_log s |}.
Definition set_links (l : gmap (text * Z) LinkRow) (s : Store) : Store :=
  {| s_concepts := s_concepts s; s_metadata := s_metadata s; s_links := l; s_skills := s_skills s;
     s_scripts := s_scripts s; s_references := s_references s; s_sources := s_sources s;
     s_embeddings := s_embeddings s; s_provenance := s_provenance s; s_log := s_log s |}.
Definition set_typed (k : gmap text SkillRow) (x : gmap text ScriptRow) (d : gmap text ReferenceRow)
    (s : Store) : Store :=
  {| s_concepts := s_concepts s; s_metadata := s_metadata s; s_links := s_links s; s_skills := k;
     s_scripts := x; s_references := d; s_sources := s_sources s;
     s_embeddings := s_embeddings s; s_provenance := s_provenance s; s_log := s_log s |}.
Definition set_sources (c : gmap text (text * Z)) (s : Store) : Store :=
  {| s_concepts := s_concepts s; s_metadata := s_metadata s; s_links := s_links s; s_skills := s_skills s;
     s_scripts := s_scripts s; s_references := s_references s; s_sources := c;
     s_embeddings := s_embeddings s; s_provenance := s_provenance s; s_log := s_log s |}.
Definition set_embeddings (e : gset text) (s : Store) : Store :=
  {| s_concepts := s_concepts s; s_metadata := s_metadata s; s_links := s_links s; s_skills := s_skills s;
     s_scripts := s_scripts s; s_references := s_references s; s_sources := s_sources s;
     s_embeddings := e; s_provenance := s_provenance s; s_log := s_log s |}.
Definition set_provenance (p : gmap text ProvenanceRows) (s : Store) : Store :=
  {| s_concepts := s_concepts s; s_metadata := s_metadata s; s_links := s_links s; s_skills := s_skills s;
     s_scripts := s_scripts s; s_references := s_references s; s_sources := s_sources s;
     s_embeddings := s_embeddings s; s_provenance := p; s_log := s_log s |}.
Definition set_log (l : gmap (text * Z) (option epoch * text)) (s : Store) : Store :=
  {| s_concepts := s_concepts s; s_metadata := s_metadata s; s_links := s_links s; s_skills := s_skills s;
     s_scripts := s_scripts s; s_references := s_references s; s_sources := s_sources s;
     s_embeddings := s_embeddings s; s_provenance := s_provenance s; s_log := l |}.

(** ** Statements and chunks *)

(** [BATCH_SIZE]; [slice::chunks]. *)
Definition BATCH_SIZE : nat := 1000.

Fixpoint chunks_go {A} (fuel n : nat) (l : list A) : list (list A) :=
  match fuel, l with
  | O, _ | _, [] => []
  | Datatypes.S f, _ => take n l :: chunks_go f n (drop n l)
  end.
Definition chunks {A} (n : nat) (l : list A) : list (list A) := chunks_go (length l) n l.

(** One statement after the other; [None] is an aborted transaction. *)
Fixpoint each {A} (f : A -> Store -> option Store) (l : list A) (s : Store) : option Store :=
  match l with
  | [] => Some s
  | x :: l' => s' ← f x s; each f l' s'
  end.

Definition chunked {A} (statement : list A -> Store -> option Store) (l : list A) (s : Store)
  : option Store :=
  each statement (chunks BATCH_SIZE l) s.

(** The foreign key to [pgokf.concepts]. *)
Definition has_concept (s : Store) (id : str) : bool := bool_decide (is_Some (s_concepts s !! id)).

(** [INSERT ... ON CONFLICT (concept_id) DO UPDATE] of whole rows: a key twice
    in one statement is an error, and every key names a concept. *)
Definition upsert_typed {V} (get : Store -> gmap text V) (put : gmap text V -> Store -> Store)
    (rows : list (text * V)) (s : Store) : option Store :=
  if bool_decide (NoDup rows.*1) && forallb (fun r => has_concept s r.1) rows
  then Some (put (fold_left (fun m r => <[r.1 := r.2]> m) rows (get s)) s)
  else None.

(** [INSERT] into a table keyed by a concept and something else. *)
Definition insert_keyed {K V} `{Countable K} (get : Store -> gmap (text * K) V)
    (put : gmap (text * K) V -> Store -> Store) (rows : list (text * K * V)) (s : Store) : option Store :=
  if bool_decide (NoDup rows.*1)
     && forallb (fun r => has_concept s r.1.1 && bool_decide (get s !! r.1 = None)) rows
  then Some (put (fold_left (fun m r => <[r.1 := r.2]> m) rows (get s)) s)
  else None.

(** ** Reading the stored projection *)

(** [SELECT path, file_hash, id]: the two maps, in any row order. *)
Definition stored_hashes (s : Store) : strmap :=
  fold_left (fun m '(_, r) => bt_insert (c_path r) (c_file_hash r) m) (map_to_list (s_concepts s)) [].
Definition stored_ids (s : Store) : strmap :=
  fold_left (fun m '(id, r) => bt_insert (c_path r) id m) (map_to_list (s_concepts s)) [].

(** The join with the two typed tables, scripts first. *)
Definition resource_packages (s : Store) : list (text * text) :=
  map (fun '(id, x) => (id, x_package x)) (map_to_list (s_scripts s))
  ++ map (fun '(id, d) => (id, d_package d)) (map_to_list (s_references s)).

Definition load_stored_owners (s : Store) : strmap :=
  fold_left (fun m '(id, package) =>
    match s_concepts s !! id with
    | Some r => bt_insert (c_path r) package m
    | None => m
    end) (resource_packages s) [].

Definition load_stored_skill_paths (s : Store) : gset text :=
  list_to_set (omap (fun '(id, r) => if bool_decide (is_Some (s_skills s !! id))
                                     then Some (c_path r) else None) (map_to_list (s_concepts s))).

Definition load_stored_projection (s : Store) : StoredProjection :=
  {| hashes := stored_hashes s; ids := stored_ids s; owners := load_stored_owners s;
     skills := load_stored_skill_paths s |}.

Definition load_removed_concept_ids (removed : list str) (s : Store) : list str :=
  omap (fun '(id, r) => if decide (c_path r ∈ removed) then Some id else None)
    (map_to_list (s_concepts s)).

(** ** Deleting concepts *)

(** Every row of a concept goes with it ([ON DELETE CASCADE]). *)
Definition drop_concepts (dead : text -> ConceptRow -> bool) (s : Store) : Store :=
  let gone id := match s_concepts s !! id with Some r => dead id r | None => false end in
  {| s_concepts := filter (fun e => gone e.1 = false) (s_concepts s);
     s_metadata := filter (fun e => gone e.1.1 = false) (s_metadata s);
     s_links := filter (fun e => gone e.1.1 = false) (s_links s);
     s_skills := filter (fun e => gone e.1 = false) (s_skills s);
     s_scripts := filter (fun e => gone e.1 = false) (s_scripts s);
     s_references := filter (fun e => gone e.1 = false) (s_references s);
     s_sources := filter (fun e => gone e.1 = false) (s_sources s);
     s_embeddings := filter (fun id => gone id = false) (s_embeddings s);
     s_provenance := filter (fun e => gone e.1 = false) (s_provenance s);
     s_log := s_log s |}.

Definition delete_removed_concepts (removed : list str) (s : Store) : Store :=
  drop_concepts (fun _ r => bool_decide (c_path r ∈ removed)) s.

(** A row at the path of a staged concept, under another id. *)
Definition reclassified (staged : list Concept) (id : str) (r : ConceptRow) : bool :=
  existsb (fun e => bool_decide (pc_path (st_concept e) = c_path r)
                    && negb (bool_decide (pc_id (st_concept e) = id))) staged.

Definition delete_reclassified_concepts (staged : list Concept) (s : Store) : option Store :=
  chunked (fun chunk s => Some (drop_concepts (reclassified chunk) s)) staged s.

(** [concept_ids.chunks(500)] *)
Definition invalidate_synced_concepts (concept_ids : list str) (s : Store) : Store :=
  fold_left (fun s chunk => set_embeddings (s_embeddings s ∖ list_to_set chunk) s)
    (chunks 500 concept_ids) s.

(** ** Concept rows ([batch.rs], [upsert_concepts]) *)

(** One row of the parameter arrays, with its window into the flat tags. *)
Record ConceptCells : Type := {
  cc_id : str;
  cc_path : str;
  cc_type : str;
  cc_title : str;
  cc_description : option str;
  cc_tag_lo : Z;
  cc_tag_hi : Z;
  cc_resource : option str;
  cc_body_text : str;
  cc_file_hash : str;
  cc_modified_at : option seconds
}.

Definition concept_cells (offset : nat) (e : Concept) : ConceptCells :=
  let concept := st_concept e in
  {| cc_id := pc_id concept; cc_path := pc_path concept; cc_type := pc_type concept;
     cc_title := pc_title concept; cc_description := pc_description concept;
     cc_tag_lo := count_to_i32 (offset + 1); cc_tag_hi := count_to_i32 (offset + length (pc_tags concept));
     cc_resource := value_text <$> pc_resource concept; cc_body_text := pc_body_text concept;
     cc_file_hash := st_file_hash e; cc_modified_at := st_modified_at_epoch e |}.

Fixpoint marshal_from (offset : nat) (batch : list Concept) : list ConceptCells * list str :=
  match batch with
  | [] => ([], [])
  | e :: rest =>
      let tags := pc_tags (st_concept e) in
      let '(cells, flat) := marshal_from (offset + length tags) rest in
      (concept_cells offset e :: cells, tags ++ flat)
  end.
Definition marshal_concepts (batch : list Concept) : list ConceptCells * list str :=
  marshal_from 0 batch.

(** The array slice [a[lo:hi]]; [COALESCE] makes an empty one of nothing. *)
Definition sql_slice {A} (a : list A) (lo hi : Z) : list A :=
  if (lo <=? hi)%Z then take (Z.to_nat (hi - lo + 1)) (drop (Z.to_nat (lo - 1)) a) else [].

Definition cells_row (flat : list str) (c : ConceptCells) : ConceptRow :=
  {| c_path := cc_path c; c_type := cc_type c; c_title := cc_title c;
     c_description := cc_description c; c_tags := sql_slice flat (cc_tag_lo c) (cc_tag_hi c);
     c_resource := cc_resource c; c_body_text := cc_body_text c; c_file_hash := cc_file_hash c;
     c_modified_at := cc_modified_at c; c_indexed_at := instant_now |}.

(** [concepts_bundle_path_key]: another concept already has the path. *)
Definition path_taken (m : gmap text ConceptRow) (id path : str) : bool :=
  negb (bool_decide (map_Forall (fun j r => c_path r = path -> j = id) m)).

Fixpoint upsert_rows (rows : list (text * ConceptRow)) (m : gmap text ConceptRow)
  : option (gmap text ConceptRow) :=
  match rows with
  | [] => Some m
  | (id, r) :: rest => if path_taken m id (c_path r) then None else upsert_rows rest (<[id := r]> m)
  end.

Definition upsert_chunk (chunk : list Concept) (s : Store) : option Store :=
  let '(cells, flat) := marshal_concepts chunk in
  let rows := map (fun c => (cc_id c, cells_row flat c)) cells in
  if bool_decide (NoDup rows.*1) then
    m ← upsert_rows rows (s_concepts s); Some (set_concepts m s)
  else None.

Definition upsert_concepts (staged : list Concept) (s : Store) : option Store :=
  chunked upsert_chunk staged s.

(** ** Metadata *)

Definition flatten_metadata (staged : list Concept) : list (text * text * text) :=
  concat (map (fun e => map (fun '(k, v) => (pc_id (st_concept e), k, value_text v))
                          (map_entries (pc_metadata (st_concept e)))) staged).

Definition replace_concept_metadata (staged : list Concept) (s : Store) : option Store :=
  s ← chunked (fun chunk s => Some (set_metadata
        (filter (fun e => e.1.1 ∉ map (fun c => pc_id (st_concept c)) chunk) (s_metadata s)) s)) staged s;
  chunked (fun chunk s => if forallb (fun r => jsonb_text r.2) chunk
                          then insert_keyed s_metadata set_metadata chunk s else None)
    (flatten_metadata staged) s.

(** ** Links ([links.rs]) *)

Definition link_kind_text (kind : LinkKind) : str :=
  match kind with
  | Inline => lit "inline"
  | Links.Reference => lit "reference"
  | Autolink => lit "autolink"
  | Email => lit "email"
  | Image => lit "image"
  end.

Definition delete_staged_outgoing (staged : list Concept) (s : Store) : option Store :=
  chunked (fun chunk s => Some (set_links
    (filter (fun e => e.1.1 ∉ map (fun c => pc_id (st_concept c)) chunk) (s_links s)) s)) staged s.

(** An edge to insert: its source, its ordinal, and what the row is made of. *)
Record Edge : Type := {
  e_source : str;
  e_ordinal : Z;
  e_target_id : option str;
  e_link_text : option str;
  e_target_path : option str;
  e_link_kind : str;
  e_is_external : bool;
  e_relation : str
}.

(** [i32::try_from] of a [usize]. *)
Definition i32_of (n : nat) : option Z := if (Z.of_nat n <=? i32_max)%Z then Some (Z.of_nat n) else None.

Definition RELATION_REFERENCE : str := lit "reference".

Definition link_edge (source_id : str) (link : Link) : result Edge CatalogError :=
  let? ordinal := ok_or (internal (lit "link ordinal " ++ show_Z (Z.of_nat (Links.ordinal link))
                                     ++ lit " exceeds the i32 range") []) (i32_of (Links.ordinal link)) in
  Ok {| e_source := source_id; e_ordinal := ordinal; e_target_id := Links.target_id link;
        e_link_text := Some (Links.label link); e_target_path := Links.target_path link;
        e_link_kind := link_kind_text (Links.kind link); e_is_external := Links.is_external link;
        e_relation := RELATION_REFERENCE |}.

Definition marshal_links (staged : list Concept) : result (list Edge) CatalogError :=
  rmap (@concat _) (rmap_list (fun e =>
    rmap_list (link_edge (pc_id (st_concept e))) (pc_links (st_concept e))) staged).

(** The concept at a path; a path has at most one. *)
Definition concept_at (s : Store) (p : str) : option str :=
  fst <$> List.find (fun '(_, r) => bool_decide (c_path r = p)) (map_to_list (s_concepts s)).

Definition opt_default {A} (a b : option A) : option A := match a with Some _ => a | None => b end.

(** [target_id IS NOT NULL AND NOT is_external AND EXISTS (...)], by id or path *)
Definition resolves (s : Store) (target_id target_path : option str) (is_external : bool) : bool :=
  match target_id with
  | Some id => negb is_external
      && (has_concept s id || match target_path with
                              | Some p => bool_decide (is_Some (concept_at s p))
                              | None => false
                              end)
  | None => false
  end.

Definition body_link_row (s : Store) (e : Edge) : LinkRow :=
  {| l_target_id := opt_default (e_target_path e ≫= concept_at s) (e_target_id e);
     l_link_text := e_link_text e; l_target_path := e_target_path e; l_link_kind := e_link_kind e;
     l_resolved := resolves s (e_target_id e) (e_target_path e) (e_is_external e);
     l_is_external := e_is_external e; l_link_relation := e_relation e |}.

(** The rows of attestation and membership edges: resolved by id alone. *)
Definition typed_link_row (s : Store) (e : Edge) : LinkRow :=
  {| l_target_id := e_target_id e; l_link_text := e_link_text e; l_target_path := e_target_path e;
     l_link_kind := e_link_kind e; l_resolved := resolves s (e_target_id e) None (e_is_external e);
     l_is_external := e_is_external e; l_link_relation := e_relation e |}.

Definition insert_links (row : Store -> Edge -> LinkRow) (edges : list Edge) (s : Store) : option Store :=
  chunked (fun chunk s =>
    insert_keyed s_links set_links (map (fun e => (e_source e, e_ordinal e, row s e)) chunk) s) edges s.

(** ** Attested computations *)

Definition ATTESTED_COMPUTATION_TYPE : str := lit "attested computation".

Definition ATTESTATION_KEYS : list (str * str) :=
  [(lit "computation", lit "attestation:computation");
   (lit "executor", lit "attestation:executor");
   (lit "attester", lit "attestation:attester")].

Definition is_attested_computation (concept_type : str) : bool :=
  bool_decide (map to_ascii_lowercase (trim concept_type) = ATTESTED_COMPUTATION_TYPE).

Definition reference_string (value : jvalue) : option str :=
  match as_str value with
  | Some text => Some text
  | None => json_str value (lit "resource")
  end.

(** [checked_add] on [i32]. *)
Definition i32_add (a b : Z) : option Z := if (a + b <=? i32_max)%Z then Some (a + b)%Z else None.

Definition attestation_edge (concept : ParsedConcept) (ordinal : Z) (relation reference : str) : Edge :=
  let resolved := resolve_reference reference (pc_path concept) in
  {| e_source := pc_id concept; e_ordinal := ordinal; e_target_id := rr_target_id resolved;
     e_link_text := None; e_target_path := rr_target_path resolved;
     e_link_kind := lit "reference"; e_is_external := rr_is_external resolved;
     e_relation := relation |}.

(** The loop over the keys. *)
Fixpoint attestation_edges (concept : ParsedConcept) (ordinal : Z) (keys : list (str * str))
  : result (list Edge) CatalogError :=
  match keys with
  | [] => Ok []
  | (key, relation) :: keys' =>
      match map_get (pc_metadata concept) key ≫= reference_string with
      | None => attestation_edges concept ordinal keys'
      | Some reference =>
          let? next := ok_or (internal (lit "attested concept " ++ pc_id concept
                                ++ lit " overflows the i32 ordinal range") []) (i32_add ordinal 1) in
          rmap (cons (attestation_edge concept ordinal relation reference))
            (attestation_edges concept next keys')
      end
  end.

Definition concept_attestations (e : Concept) : result (list Edge) CatalogError :=
  let concept := st_concept e in
  if is_attested_computation (pc_type concept) then
    let? ordinal := ok_or (internal (lit "attested concept " ++ pc_id concept
                             ++ lit " has more body links than the i32 ordinal range") [])
                      (i32_of (length (pc_links concept))) in
    attestation_edges concept ordinal ATTESTATION_KEYS
  else Ok [].

Definition collect_attestation_edges (staged : list Concept) : result (list Edge) CatalogError :=
  rmap (@concat _) (rmap_list concept_attestations staged).

(** ** Typed rows ([packages.rs]) *)

Definition typed_skills (staged : list Concept) : list (text * SkillRow) :=
  omap (fun e => match st_typed e with
    | Some (PSkill payload) => Some (pc_id (st_concept e),
        {| k_visibility := sk_visibility payload; k_agent_skill := value_text (sk_agent_skill payload);
           k_skill_md := sk_skill_md payload; k_package_root := sk_package_root payload;
           k_package_hash := sk_package_hash payload; k_file_hash := st_file_hash e |})
    | _ => None
    end) staged.

Definition typed_scripts (staged : list Concept) : list (text * ScriptRow) :=
  omap (fun e => match st_typed e with
    | Some (PScript payload) => Some (pc_id (st_concept e),
        {| x_language := sc_language payload; x_visibility := sc_visibility payload;
           x_runtime := value_text <$> sc_runtime payload; x_bytes := sc_bytes payload;
           x_byte_size := Z.of_nat (length (sc_bytes payload)); x_sha256 := sha256 (sc_bytes payload);
           x_source_path := sc_source_path payload; x_package := sc_package_concept_id payload;
           x_file_hash := st_file_hash e |})
    | _ => None
    end) staged.

Definition typed_references (staged : list Concept) : list (text * ReferenceRow) :=
  omap (fun e => match st_typed e with
    | Some (PReference payload) => Some (pc_id (st_concept e),
        {| d_visibility := rf_visibility payload; d_format := rf_format payload;
           d_media_type := rf_media_type payload; d_bytes := rf_bytes payload;
           d_byte_size := Z.of_nat (length (rf_bytes payload)); d_sha256 := sha256 (rf_bytes payload);
           d_text_body := rf_text_body payload; d_source_path := rf_source_path payload;
           d_package := rf_package_concept_id payload; d_file_hash := st_file_hash e |})
    | _ => None
    end) staged.

(** [CHECK (visibility IN (...))] *)
Definition visibility_ok (v : str) : bool := bool_decide (v ∈ VISIBILITIES).

Definition upsert_skills (rows : list (text * SkillRow)) (s : Store) : option Store :=
  chunked (fun chunk s =>
    if forallb (fun r => visibility_ok (k_visibility r.2) && jsonb_text (k_agent_skill r.2)) chunk
    then upsert_typed s_skills (fun m s => set_typed m (s_scripts s) (s_references s) s) chunk s
    else None) rows s.

Definition upsert_scripts (rows : list (text * ScriptRow)) (s : Store) : option Store :=
  chunked (fun chunk s =>
    if forallb (fun r => visibility_ok (x_visibility r.2)
                         && default true (jsonb_text <$> x_runtime r.2)) chunk
    then upsert_typed s_scripts (fun m s => set_typed (s_skills s) m (s_references s) s) chunk s
    else None) rows s.

Definition upsert_references (rows : list (text * ReferenceRow)) (s : Store) : option Store :=
  chunked (fun chunk s =>
    if forallb (fun r => visibility_ok (d_visibility r.2)) chunk
    then upsert_typed s_references (fun m s => set_typed (s_skills s) (s_scripts s) m s) chunk s
    else None) rows s.

(** The visibility of the skill [package], if it is one of [skill_ids]. *)
Definition visible_as (skill_ids : list str) (s : Store) (package : str) : option str :=
  if decide (package ∈ skill_ids) then k_visibility <$> s_skills s !! package else None.

Definition script_with (v : str) (x : ScriptRow) : ScriptRow :=
  {| x_language := x_language x; x_visibility := v; x_runtime := x_runtime x; x_bytes := x_bytes x;
     x_byte_size := x_byte_size x; x_sha256 := x_sha256 x; x_source_path := x_source_path x;
     x_package := x_package x; x_file_hash := x_file_hash x |}.
Definition reference_with (v : str) (d : ReferenceRow) : ReferenceRow :=
  {| d_visibility := v; d_format := d_format d; d_media_type := d_media_type d; d_bytes := d_bytes d;
     d_byte_size := d_byte_size d; d_sha256 := d_sha256 d; d_text_body := d_text_body d;
     d_source_path := d_source_path d; d_package := d_package d; d_file_hash := d_file_hash d |}.

(** The owner rows of a concept, scripts first, and the skill that decides. *)
Definition member_visibility (skill_ids : list str) (s : Store) (id : str) : option str :=
  head (omap (visible_as skill_ids s)
    (option_list (x_package <$> s_scripts s !! id) ++ option_list (d_package <$> s_references s !! id))).

(** The three statements on one chunk; an update to an equal value is none. *)
Definition propagate_chunk (skill_ids : list str) (s : Store) : Store :=
  let scripts' := (fun x => default x ((fun v => script_with v x) <$> visible_as skill_ids s (x_package x)))
                    <$> s_scripts s in
  let references' := (fun d => default d ((fun v => reference_with v d) <$> visible_as skill_ids s (d_package d)))
                       <$> s_references s in
  let metadata' := map_imap (fun (key : text * text) value =>
      Some (if decide (key.2 = lit "visibility")
            then default value ((fun v => value_text (json_string v)) <$> member_visibility skill_ids s key.1)
            else value)) (s_metadata s) in
  set_metadata metadata' (set_typed (s_skills s) scripts' references' s).

Definition propagate_visibility (skill_ids : list str) (s : Store) : Store :=
  fold_left (fun s chunk => propagate_chunk chunk s) (chunks BATCH_SIZE skill_ids) s.

(** ** Package edges *)

Definition USES_RELATION : str := lit "USES".
Definition REFERENCES_RELATION : str := lit "REFERENCES".
Definition MEMBERSHIP_LINK_KIND : str := lit "package".

Definition membership_edge (source_id : str) (ordinal : Z) (member : PackageMember) : Edge :=
  {| e_source := source_id; e_ordinal := ordinal; e_target_id := Some (m_concept_id member);
     e_link_text := None; e_target_path := Some (m_path member);
     e_link_kind := MEMBERSHIP_LINK_KIND; e_is_external := false;
     e_relation := if decide (m_class member = SkillScript) then USES_RELATION
                   else REFERENCES_RELATION |}.

Definition skill_edges (e : Concept) : result (list Edge) CatalogError :=
  match st_typed e with
  | Some (PSkill payload) =>
      let id := pc_id (st_concept e) in
      let? first := ok_or (internal (lit "skill " ++ id
                             ++ lit " has more body links than the i32 ordinal range") [])
                      (i32_of (length (pc_links (st_concept e)))) in
      rmap_list (fun '(offset, member) =>
        let? ordinal := ok_or (internal (lit "skill " ++ id ++ lit " overflows the i32 ordinal range") [])
                          (o ← i32_of offset; i32_add first o) in
        Ok (membership_edge id ordinal member))
        (zip (seq 0 (length (sk_members payload))) (sk_members payload))
  | _ => Ok []
  end.

Definition collect_membership_edges (staged : list Concept) : result (list Edge) CatalogError :=
  rmap (@concat _) (rmap_list skill_edges staged).

(** The relation of a package resource to [owner], scripts first. *)
Definition owned_relation (s : Store) (owner id : str) : option str :=
  let owned package := bool_decide (package = owner) in
  match s_scripts s !! id, s_references s !! id with
  | Some x, Some d => if owned (x_package x) then Some USES_RELATION
                      else if owned (d_package d) then Some REFERENCES_RELATION else None
  | Some x, None => if owned (x_package x) then Some USES_RELATION else None
  | None, Some d => if owned (d_package d) then Some REFERENCES_RELATION else None
  | None, None => None
  end.

Definition with_relation (relation : str) (l : LinkRow) : LinkRow :=
  {| l_target_id := l_target_id l; l_link_text := l_link_text l; l_target_path := l_target_path l;
     l_link_kind := l_link_kind l; l_resolved := l_resolved l; l_is_external := l_is_external l;
     l_link_relation := relation |}.

Definition relate_row (skill_ids : list str) (s : Store) (key : text * Z) (l : LinkRow) : LinkRow :=
  if decide (key.1 ∈ skill_ids /\ l_link_relation l = RELATION_REFERENCE) then
    default l ((fun r => with_relation r l) <$> (l_target_id l ≫= owned_relation s key.1))
  else l.

Definition relate_body_links (skill_ids : list str) (s : Store) : Store :=
  fold_left (fun s chunk => set_links (map_imap (fun key l => Some (relate_row chunk s key l)) (s_links s)) s)
    (chunks BATCH_SIZE skill_ids) s.

(** ** The projection seam *)

Definition project_links (staged : list Concept) (s : Store) : projected Store :=
  s ← sql (delete_staged_outgoing staged s);
  edges ← checked (marshal_links staged);
  s ← sql (insert_links body_link_row edges s);
  attestations ← checked (collect_attestation_edges staged);
  sql (insert_links typed_link_row attestations s).

Definition project_packages (staged : list Concept) (s : Store) : projected Store :=
  let skill_ids := (typed_skills staged).*1 in
  s ← sql (upsert_skills (typed_skills staged) s);
  s ← sql (upsert_scripts (typed_scripts staged) s);
  s ← sql (upsert_references (typed_references staged) s);
  edges ← checked (collect_membership_edges staged);
  s ← sql (insert_links typed_link_row edges (propagate_visibility skill_ids s));
  Projected (relate_body_links skill_ids s).

(** The two updates of [reresolve_bundle]. *)
Definition retarget (s : Store) (l : LinkRow) : LinkRow :=
  match l_target_path l ≫= concept_at s with
  | Some id => {| l_target_id := Some id; l_link_text := l_link_text l; l_target_path := l_target_path l;
                  l_link_kind := l_link_kind l; l_resolved := l_resolved l;
                  l_is_external := l_is_external l; l_link_relation := l_link_relation l |}
  | None => l
  end.

Definition reresolved (s : Store) (l : LinkRow) : LinkRow :=
  {| l_target_id := l_target_id l; l_link_text := l_link_text l; l_target_path := l_target_path l;
     l_link_kind := l_link_kind l;
     l_resolved := resolves s (l_target_id l) (l_target_path l) (l_is_external l);
     l_is_external := l_is_external l; l_link_relation := l_link_relation l |}.

Definition reresolve_bundle (s : Store) : Store :=
  set_links ((fun l => reresolved s (retarget s l)) <$> s_links s) s.

(** The rows of the three tables in one statement each. *)
Definition provenance_of (e : Concept) : outcome (option (text * ProvenanceRows)) :=
  obind (provenance_rows (st_concept e)) (fun rows =>
  Ret ((fun r => (pc_id (st_concept e), r)) <$> rows)).

Definition project_provenance (staged : list Concept) (s : Store) : projected Store :=
  s ← sql (chunked (fun chunk s => Some (set_provenance
        (filter (fun e => e.1 ∉ map (fun c => pc_id (st_concept c)) chunk) (s_provenance s)) s)) staged s);
  rows ← unwinds (omap_out provenance_of staged);
  sql (chunked (fun chunk s =>
    if bool_decide (NoDup chunk.*1)
       && forallb (fun r => has_concept s r.1 && bool_decide (s_provenance s !! r.1 = None)
                            && jsonb_text (pr_details r.2)) chunk
    then Some (set_provenance (fold_left (fun m r => <[r.1 := r.2]> m) chunk (s_provenance s)) s)
    else None) rows s).

Definition marshal_sources (staged : list Concept) : list (text * (text * Z)) :=
  omap (fun e => (fun content => (pc_id (st_concept e), (content, count_to_i32 (length content))))
                   <$> st_raw_content e) staged.

Definition project_sources (staged : list Concept) (s : Store) : projected Store :=
  sql (chunked (upsert_typed s_sources set_sources) (marshal_sources staged) s).

Definition run_projection_seam (staged : list Concept) (s : Store) : projected Store :=
  s ← project_links staged s;
  s ← project_packages staged s;
  s ← project_provenance staged (reresolve_bundle s);
  project_sources staged s.

(** ** Activity logs *)

Section sync.
Context (events : str -> list Event).
Context (read_bytes : str -> result str CatalogError) (limits : ParserLimits)
  (current : list FileMetadata).

(** An unreadable log is skipped. *)
Definition directory_log (metadata : FileMetadata) : outcome (option (str * list LogEntry)) :=
  let path_text := to_string_lossy (path metadata) in
  if is_reserved_log path_text then
    match read_bytes (path metadata) with
    | Err _ => Ret None
    | Ok bytes => obind (parse_log bytes) (fun es => Ret (Some (parent_directory path_text, es)))
    end
  else Ret None.

Definition flatten_logs (logs : list (str * list LogEntry)) : list (text * Z * (option epoch * text)) :=
  concat (map (fun '(directory, es) =>
    map (fun e => (directory, le_ordinal e, (le_logged_at e, le_entry e))) es) logs).

Definition insert_bundle_logs (rows : list (text * Z * (option epoch * text))) (s : Store) : option Store :=
  chunked (fun chunk s =>
    if bool_decide (NoDup chunk.*1) && forallb (fun r => bool_decide (s_log s !! r.1 = None)) chunk
    then Some (set_log (fold_left (fun m r => <[r.1 := r.2]> m) chunk (s_log s)) s)
    else None) rows s.

Definition project_bundle_logs (s : Store) : projected Store :=
  logs ← unwinds (omap_out directory_log current);
  sql (insert_bundle_logs (flatten_logs logs) (set_log ∅ s)).

(** ** [run_bundle_sync] up to the bundle row *)

(** What the rest of the sync needs: the old projection, the staged concepts,
    the removed paths and ids, the view of the stored hashes for the change
    manifest, the report, the declared version and the hash. *)
Record SyncOutcome : Type := {
  so_projection : StoredProjection;
  so_staged : list Concept;
  so_removed_paths : list str;
  so_removed_ids : list str;
  so_stored : strmap;
  so_report : SyncReport;
  so_skipped : list str;
  so_okf_version : option str;
  so_sync_hash : str
}.

(** The stored id of a staged concept's path, when it is another. *)
Definition reclassified_id (projection : StoredProjection) (e : Concept) : option str :=
  old ← bt_get (pc_path (st_concept e)) (ids projection);
  if decide (old = pc_id (st_concept e)) then None else Some old.

Definition hashes_view (projection : StoredProjection) (staged : list Concept) : strmap :=
  fold_left (fun m e => if bool_decide (is_Some (reclassified_id projection e))
                        then bt_remove (pc_path (st_concept e)) m else m) staged (hashes projection).

(** The refusal of [apply_okf_version_policy]. *)
Definition unsupported_version (version : option str) : CatalogError :=
  invalid_parameter (lit "bundle declares unsupported OKF version " ++ default [] version
    ++ lit " (this build supports 0.2 / 0.2.x); okf_version_policy=reject") [].

(** The deletes, the concept rows, the seam and the logs. *)
Definition write_projection (removed : list str) (staged : list Concept) (s : Store) : projected Store :=
  s ← sql (delete_reclassified_concepts staged (delete_removed_concepts removed s));
  s ← sql (upsert_concepts staged
             (invalidate_synced_concepts (map (fun e => pc_id (st_concept e)) staged) s));
  s ← sql (replace_concept_metadata staged s);
  s ← run_projection_seam staged s;
  project_bundle_logs s.

Definition sync_projection (strict keep_source : bool) (policy : str) (root_version : option str)
    (s : Store) : projected (SyncOutcome * Store) :=
  let projection := load_stored_projection s in
  let delta := classify_changes projection (snapshot_index current) current in
  let delta := {| to_parse := invalidate_packages (to_parse delta) (removed_paths delta) current
                                (owners projection);
                  removed_paths := removed_paths delta; report := report delta |} in
  outcome ← checked (stage_changed_concepts events read_bytes limits current delta strict keep_source);
  let '(staged, skipped) := (outcome : list Concept * list str) in
  let delta := adjust_report_for_skips delta (hashes projection) skipped in
  let removed_ids := load_removed_concept_ids (removed_paths delta) s
                       ++ omap (reclassified_id projection) staged in
  s' ← write_projection (removed_paths delta) staged s;
  okf_version ← checked (rmap_err (fun _ => unsupported_version root_version)
                           (apply_okf_version_policy root_version policy));
  Projected
    ({| so_projection := projection; so_staged := staged; so_removed_paths := removed_paths delta;
        so_removed_ids := removed_ids; so_stored := hashes_view projection staged;
        so_report := report delta; so_skipped := skipped; so_okf_version := okf_version;
        so_sync_hash := bundle_sync_hash hash_bytes current |}, s').

End sync.

End projection.
