(* ===== verification/ProjectionSteps.v ===== *)
(** * What each statement of a sync does to the stored projection

    The lemmas behind [ProjectionProps]: chunked statements, the reads, the
    deletes and the upserts of [Projection], each as an equation on the
    tables it writes and a frame for the ones it does not. *)
From stdpp Require Import prelude strings gmap list sorting.
From Stdlib Require Import Ascii ZArith Lia.
From S2P Require Import Prelude Str ParserError Serde OkfPath Frontmatter Links Concept Package BTree Discover Plan SyncDelta CatalogError Security Catalog Staging Outbox Provenance Projection.

Lemma pbind_ok {A B} (m : projected A) (k : A -> projected B) b :
  m ≫= k = Projected b <-> exists a, m = Projected a /\ k a = Projected b.
Proof. destruct m; cbn; naive_solver. Qed.

Lemma sql_ok {A} (o : option A) a : sql o = Projected a <-> o = Some a.
Proof. destruct o; cbn; naive_solver. Qed.

Lemma checked_ok {A} (r : result A CatalogError) a : checked r = Projected a <-> r = Ok a.
Proof. destruct r; cbn; naive_solver. Qed.

Lemma unwinds_ok {A} (o : outcome A) a : unwinds o = Projected a <-> o = Ret a.
Proof. destruct o; cbn; naive_solver. Qed.

(** Opens a successful run into its steps. *)
Ltac run_ok :=
  repeat match goal with
  | H : _ ≫= _ = Projected _ |- _ => apply pbind_ok in H as (? & ? & ?)
  | H : sql _ = Projected _ |- _ => apply sql_ok in H
  | H : checked _ = Projected _ |- _ => apply checked_ok in H
  | H : unwinds _ = Projected _ |- _ => apply unwinds_ok in H
  | H : Projected _ = Projected _ |- _ => injection H as H; subst
  | H : _ ≫= _ = Some _ |- _ => apply bind_Some in H as (? & ? & ?)
  | H : (if ?b then _ else None) = Some _ |- _ => destruct b eqn:?; [|discriminate H]
  | H : Some _ = Some _ |- _ => injection H as H; subst
  end.

Section chunked.
Context `{S : Serde} `{H : Host} `{G : !StagingHost S H} `{R : !RowHost S}.

Abbreviation Store := (Store (G := G) (R := R)).

Lemma chunks_go_concat {A} n fuel (l : list A) :
  0 < n -> length l <= fuel -> concat (chunks_go fuel n l) = l.
Proof.
  intros Hn. revert l. induction fuel as [|fuel IH]; intros l Hl.
  { by destruct l; [|cbn in Hl; lia]. }
  destruct l as [|a l]; [done|]. cbn [chunks_go concat].
  rewrite IH; [by rewrite take_drop|]. rewrite length_drop. cbn in Hl |- *. lia.
Qed.

Lemma chunks_concat {A} n (l : list A) : 0 < n -> concat (chunks n l) = l.
Proof. intros ?. by apply chunks_go_concat. Qed.

Lemma each_ind {A} (f : A -> Store -> option Store) (I : list A -> Store -> Prop) l s s' :
  I [] s ->
  (forall done x s1 s2, I done s1 -> f x s1 = Some s2 -> I (done ++ [x]) s2) ->
  each f l s = Some s' -> I l s'.
Proof.
  intros H0 Hstep. rewrite <- (app_nil_l l) at 2. revert H0. generalize (@nil A) as done.
  revert s. induction l as [|x l IH]; intros s done H0 Hrun; cbn in Hrun.
  - rewrite app_nil_r. by injection Hrun as <-.
  - apply bind_Some in Hrun as (s1 & H1 & Hrun). rewrite cons_middle, app_assoc.
    by eapply IH; [eapply Hstep|].
Qed.

(** What holds after every chunk holds at the end, of the whole list. *)
Lemma chunked_ind {A} (f : list A -> Store -> option Store) (I : list A -> Store -> Prop) l s s' :
  I [] s ->
  (forall done chunk s1 s2, I done s1 -> f chunk s1 = Some s2 -> I (done ++ chunk) s2) ->
  chunked f l s = Some s' -> I l s'.
Proof.
  intros H0 Hstep Hrun. rewrite <- (chunks_concat BATCH_SIZE l) by (unfold BATCH_SIZE; lia).
  eapply (each_ind f (fun cs => I (concat cs))); [done| |exact Hrun].
  intros cs c s1 s2 H1 H2. rewrite concat_app. cbn [concat]. rewrite app_nil_r. eauto.
Qed.

Lemma chunked_keeps {A} (f : list A -> Store -> option Store) (P : Store -> Store -> Prop)
    `{!Reflexive P} `{!Transitive P} l s s' :
  (forall chunk s1 s2, f chunk s1 = Some s2 -> P s1 s2) -> chunked f l s = Some s' -> P s s'.
Proof.
  intros Hf Hrun. apply (chunked_ind f (fun _ => P s) l s s'); [done| |done].
  intros ? ? ? ? ? ?%Hf. by etrans.
Qed.

(** The fields of a store that a statement leaves alone. *)
Definition same {F} (get : Store -> F) (s s' : Store) : Prop := get s' = get s.

#[export] Instance same_refl {F} (get : Store -> F) : Reflexive (same get).
Proof. done. Qed.
#[export] Instance same_trans {F} (get : Store -> F) : Transitive (same get).
Proof. intros ? ? ? E1 E2. unfold same in *. congruence. Qed.

Lemma chunked_same {A F} (get : Store -> F) (f : list A -> Store -> option Store) l s s' :
  (forall chunk s1 s2, f chunk s1 = Some s2 -> get s2 = get s1) -> chunked f l s = Some s' -> get s' = get s.
Proof. intros. by apply (chunked_keeps f (same get) l). Qed.

Lemma fold_same {A F} (get : Store -> F) (f : Store -> A -> Store) l s :
  (forall s x, get (f s x) = get s) -> get (fold_left f l s) = get s.
Proof. intros Hf. revert s. induction l as [|x l IH]; intros s; cbn; [done|]. by rewrite IH, Hf. Qed.

(** ** Insertions *)

Definition insert_all {K V} `{Countable K} (rows : list (K * V)) (m : gmap K V) : gmap K V :=
  fold_left (fun m r => <[r.1 := r.2]> m) rows m.

Lemma insert_all_app {K V} `{Countable K} (l k : list (K * V)) m :
  insert_all (l ++ k) m = insert_all k (insert_all l m).
Proof. apply fold_left_app. Qed.

Lemma insert_all_ne {K V} `{Countable K} (l : list (K * V)) m i :
  i ∉ l.*1 -> insert_all l m !! i = m !! i.
Proof.
  revert m. induction l as [|[k v] l IH]; intros m; [done|]. cbn.
  intros [Hne Hi]%not_elem_of_cons. etrans; [by apply IH|]. cbn. by apply lookup_insert_ne.
Qed.

Lemma insert_all_in {K V} `{Countable K} (l : list (K * V)) m i v :
  NoDup l.*1 -> (i, v) ∈ l -> insert_all l m !! i = Some v.
Proof.
  revert m. induction l as [|[k w] l IH]; intros m; cbn; [by intros _ ?%not_elem_of_nil|].
  intros [Hk Hl]%NoDup_cons [[= -> ->]|Hin]%elem_of_cons; [|by apply IH].
  etrans; [by apply insert_all_ne|]. apply lookup_insert_eq.
Qed.

Lemma insert_all_inv {K V} `{Countable K} (l : list (K * V)) m i v :
  insert_all l m !! i = Some v -> (i, v) ∈ l \/ (m !! i = Some v /\ i ∉ l.*1).
Proof.
  revert m. induction l as [|[k w] l IH]; intros m; cbn; [intros ?; right; split; [done|apply not_elem_of_nil]|].
  intros [Hin|[Hm Hn]]%IH; [left; by right|]. cbn in Hm.
  apply lookup_insert_Some in Hm as [[-> ->]|[Hne Hm]]; [left; by left|].
  right. split; [done|]. apply not_elem_of_cons. done.
Qed.

Lemma insert_all_is_Some {K V} `{Countable K} (l : list (K * V)) m i :
  is_Some (insert_all l m !! i) <-> is_Some (m !! i) \/ i ∈ l.*1.
Proof.
  revert m. induction l as [|[k w] l IH]; intros m; cbn.
  { split; [by left|]. by intros [?|?%not_elem_of_nil]. }
  etrans; [apply IH|]. cbn. rewrite lookup_insert_is_Some', elem_of_cons. naive_solver.
Qed.

End chunked.

(** ** Deletes *)

Section deletes.
Context `{S : Serde} `{H : Host} `{G : !StagingHost S H} `{R : !RowHost S}.

Abbreviation Store := (Store (G := G) (R := R)).
Abbreviation Concept := (StagedConcept (G := G)).
Abbreviation id_of := (fun e : Concept => pc_id (st_concept e)).
Abbreviation path_of := (fun e : Concept => pc_path (st_concept e)).

(** Whether a delete takes the row of an id. *)
Definition gone (dead : str -> ConceptRow (G := G) -> bool) (s : Store) (id : str) : bool :=
  match s_concepts s !! id with Some r => dead id r | None => false end.

Lemma drop_concepts_lookup dead s id r :
  s_concepts (drop_concepts dead s) !! id = Some r <-> s_concepts s !! id = Some r /\ dead id r = false.
Proof. cbn. rewrite map_lookup_filter_Some. cbn. destruct (s_concepts s !! id) eqn:E; naive_solver. Qed.

Lemma gone_dropped d1 d2 s id :
  gone d1 s id = false ->
  gone d2 (drop_concepts d1 s) id = gone d2 s id.
Proof.
  unfold gone. intros Hg. destruct (s_concepts s !! id) as [r|] eqn:E.
  - by rewrite (proj2 (drop_concepts_lookup d1 s id r)).
  - destruct (s_concepts (drop_concepts d1 s) !! id) as [r|] eqn:E'; [|done].
    apply drop_concepts_lookup in E' as []. congruence.
Qed.

Lemma gone_or d1 d2 s id : gone (fun i r => d1 i r || d2 i r) s id = gone d1 s id || gone d2 s id.
Proof. unfold gone. by destruct (s_concepts s !! id). Qed.

Lemma filter_drop {K V} `{Countable K} (key : K -> str) (m : gmap K V) d1 d2 s :
  filter (fun e => gone d2 (drop_concepts d1 s) (key e.1) = false)
    (filter (fun e => gone d1 s (key e.1) = false) m)
  = filter (fun e => gone (fun i r => d1 i r || d2 i r) s (key e.1) = false) m.
Proof.
  rewrite map_filter_filter. apply map_filter_ext. intros k v _. cbn.
  rewrite gone_or, orb_false_iff. split.
  - intros [H1 H2]. by rewrite gone_dropped in H1.
  - intros [H1 H2]. split; [by rewrite gone_dropped|done].
Qed.

(** Two deletes are one. *)
Lemma drop_drop d1 d2 s :
  drop_concepts d2 (drop_concepts d1 s) = drop_concepts (fun i r => d1 i r || d2 i r) s.
Proof.
  unfold drop_concepts at 1 3. f_equal.
  - apply (filter_drop id).
  - apply (filter_drop fst).
  - apply (filter_drop fst).
  - apply (filter_drop id).
  - apply (filter_drop id).
  - apply (filter_drop id).
  - apply (filter_drop id).
  - apply set_eq. intros i. cbn. rewrite !elem_of_filter.
    change (gone d2 (drop_concepts d1 s) i = false /\ gone d1 s i = false /\ i ∈ s_embeddings s
      <-> gone (fun i r => d1 i r || d2 i r) s i = false /\ i ∈ s_embeddings s).
    rewrite gone_or, orb_false_iff. split.
    + intros (H1 & H2 & ?). by rewrite gone_dropped in H1.
    + intros ((H1 & H2) & ?). split_and!; [by rewrite gone_dropped|done|done].
  - apply (filter_drop id).
Qed.

Lemma filter_true {K V} `{Countable K} (P : K * V -> Prop) `{!forall x, Decision (P x)} (m : gmap K V) :
  (forall x, P x) -> filter P m = m.
Proof. intros HP. apply map_filter_id. intros. apply HP. Qed.

Lemma gone_ext d1 d2 s i : (forall j r, d1 j r = d2 j r) -> gone d1 s i = gone d2 s i.
Proof. intros E. unfold gone. by destruct (s_concepts s !! i). Qed.

Lemma filter_gone_ext {K V} `{Countable K} (key : K -> str) (m : gmap K V) d1 d2 s :
  (forall i r, d1 i r = d2 i r) ->
  filter (fun e => gone d1 s (key e.1) = false) m = filter (fun e => gone d2 s (key e.1) = false) m.
Proof. intros E. apply map_filter_ext. intros k v _. cbn. by rewrite (gone_ext d1 d2). Qed.

Lemma drop_ext d1 d2 (s : Store) :
  (forall i r, d1 i r = d2 i r) -> drop_concepts d1 s = drop_concepts d2 s.
Proof.
  intros E. unfold drop_concepts. f_equal;
    try (by apply (filter_gone_ext id)); try (by apply (filter_gone_ext fst)).
  apply set_eq. intros i. rewrite !elem_of_filter.
  change (gone d1 s i = false /\ i ∈ s_embeddings s <-> gone d2 s i = false /\ i ∈ s_embeddings s).
  by rewrite (gone_ext d1 d2).
Qed.

Lemma drop_none (s : Store) : drop_concepts (fun _ _ => false) s = s.
Proof.
  assert (forall i, gone (fun _ _ => false) s i = false) as Hg
    by (intros i; unfold gone; by destruct (s_concepts s !! i)).
  destruct s as [cs ms ls ks xs ds ss es ps gs]. unfold drop_concepts. f_equal;
    try (apply filter_true; intros ?; apply Hg).
  apply set_eq. intros i. rewrite elem_of_filter. split; [by intros []|]. intros ?. split; [apply Hg|done].
Qed.

(** The chunks of [delete_reclassified_concepts] are one delete. *)
Lemma delete_reclassified_spec staged (s s' : Store) :
  delete_reclassified_concepts staged s = Some s' -> s' = drop_concepts (reclassified staged) s.
Proof.
  intros Hrun. eapply (chunked_ind (fun chunk s => Some (drop_concepts (reclassified chunk) s))
    (fun done s1 => s1 = drop_concepts (reclassified done) s)); [| |exact Hrun].
  - rewrite <- drop_none at 1. by apply drop_ext.
  - intros done chunk s1 s2 -> [= <-]. rewrite drop_drop. apply drop_ext. intros i r.
    unfold reclassified. by rewrite existsb_app.
Qed.

Lemma reclassified_true staged id r :
  reclassified staged id r = true <-> exists e, e ∈ staged /\ path_of e = c_path r /\ id_of e <> id.
Proof.
  unfold reclassified. rewrite existsb_exists. setoid_rewrite andb_true_iff.
  setoid_rewrite negb_true_iff. setoid_rewrite bool_decide_eq_true. setoid_rewrite bool_decide_eq_false.
  setoid_rewrite list_elem_of_In. done.
Qed.

Definition dead (removed : list str) (staged : list Concept) (id : str) (r : ConceptRow) : bool :=
  bool_decide (c_path r ∈ removed) || reclassified staged id r.

(** Both deletes of a sync. *)
Lemma deletes_spec removed staged (s s' : Store) :
  delete_reclassified_concepts staged (delete_removed_concepts removed s) = Some s' ->
  s' = drop_concepts (dead removed staged) s.
Proof. intros ->%delete_reclassified_spec. unfold delete_removed_concepts. by rewrite drop_drop. Qed.

Lemma dead_false removed staged id r :
  dead removed staged id r = false <->
  c_path r ∉ removed /\ forall e, e ∈ staged -> path_of e = c_path r -> id_of e = id.
Proof.
  unfold dead. rewrite orb_false_iff, bool_decide_eq_false, <- not_true_iff_false, reclassified_true.
  split; intros [? Hr]; (split; [done|]).
  - intros e He Hp. destruct (decide (id_of e = id)); [done|]. destruct Hr. eauto.
  - intros (e & He & Hp & Hne). by apply Hne, Hr.
Qed.

End deletes.

(** ** Concept rows *)

Section upserts.
Context `{S : Serde} `{H : Host} `{G : !StagingHost S H} `{R : !RowHost S}.
Context (instant_now : Z).

Abbreviation Store := (Store (G := G) (R := R)).
Abbreviation Concept := (StagedConcept (G := G)).
Abbreviation ConceptRow := (ConceptRow (G := G)).
Abbreviation id_of := (fun e : Concept => pc_id (st_concept e)).
Abbreviation path_of := (fun e : Concept => pc_path (st_concept e)).

Definition paths_unique (m : gmap (list ascii) ConceptRow) : Prop :=
  forall i j r r', m !! i = Some r -> m !! j = Some r' -> c_path r = c_path r' -> i = j.

(** The row of a staged concept with the given tags. *)
Definition row_with (tags : list str) (e : Concept) : ConceptRow :=
  {| c_path := pc_path (st_concept e); c_type := pc_type (st_concept e);
     c_title := pc_title (st_concept e); c_description := pc_description (st_concept e);
     c_tags := tags; c_resource := value_text <$> pc_resource (st_concept e);
     c_body_text := pc_body_text (st_concept e); c_file_hash := st_file_hash e;
     c_modified_at := st_modified_at_epoch e; c_indexed_at := instant_now |}.

(** The row of a staged concept. *)
Definition concept_row (e : Concept) : ConceptRow := row_with (pc_tags (st_concept e)) e.

Definition row_for (e : Concept) (r : str * ConceptRow) : Prop :=
  r.1 = id_of e /\ exists tags, r.2 = row_with tags e.

Definition chunk_rows (chunk : list Concept) : list (str * ConceptRow) :=
  map (fun c => (cc_id c, cells_row instant_now (marshal_concepts chunk).2 c)) (marshal_concepts chunk).1.

Lemma marshal_from_cons off e chunk :
  marshal_from off (e :: chunk)
  = (concept_cells off e :: (marshal_from (off + length (pc_tags (st_concept e))) chunk).1,
     pc_tags (st_concept e) ++ (marshal_from (off + length (pc_tags (st_concept e))) chunk).2).
Proof. cbn [marshal_from]. by destruct (marshal_from _ chunk). Qed.

Lemma chunk_rows_for chunk : Forall2 row_for chunk (chunk_rows chunk).
Proof.
  unfold chunk_rows, marshal_concepts. generalize (marshal_from 0 chunk).2 as flat. generalize 0 as off.
  induction chunk as [|e chunk IH]; intros off flat; [constructor|].
  rewrite marshal_from_cons. cbn [fst map]. constructor; [|apply IH].
  split; [done|]. by eexists.
Qed.

Lemma chunk_rows_ids chunk : (chunk_rows chunk).*1 = map id_of chunk.
Proof.
  induction (chunk_rows_for chunk) as [|e r es rs [Hr _] _ IH]; [done|]. cbn. by rewrite Hr, IH.
Qed.

Lemma path_taken_false (m : gmap (list ascii) ConceptRow) id p :
  path_taken m id p = false <-> forall j r, m !! j = Some r -> c_path r = p -> j = id.
Proof. unfold path_taken. rewrite negb_false_iff, bool_decide_eq_true. done. Qed.

Lemma upsert_rows_spec rows m m' :
  upsert_rows rows m = Some m' -> m' = insert_all rows m /\ (paths_unique m -> paths_unique m').
Proof.
  revert m. induction rows as [|[id r] rows IH]; intros m Hrun; cbn in Hrun.
  { injection Hrun as <-. done. }
  destruct (path_taken m id (c_path r)) eqn:Ht; [done|].
  pose proof (proj1 (path_taken_false _ _ _) Ht) as Hfree.
  destruct (IH _ Hrun) as [-> Hu]. split; [done|]. intros Hm. apply Hu.
  intros i j ri rj [[<- <-]|[Hi Hri]]%lookup_insert_Some [[<- <-]|[Hj Hrj]]%lookup_insert_Some Hp.
  - done.
  - symmetry. by eapply Hfree.
  - by eapply Hfree.
  - by eapply Hm.
Qed.

Lemma upsert_chunk_spec chunk (s s' : Store) :
  upsert_chunk instant_now chunk s = Some s' ->
  NoDup (map id_of chunk) /\ s' = set_concepts (insert_all (chunk_rows chunk) (s_concepts s)) s /\
  (paths_unique (s_concepts s) -> paths_unique (s_concepts s')).
Proof.
  unfold upsert_chunk. rewrite <- chunk_rows_ids. unfold chunk_rows.
  destruct (marshal_concepts chunk) as [cells flat]. cbn [fst snd].
  case_bool_decide as Hnd; [|done]. intros (m & Hm & [= <-])%bind_Some.
  apply upsert_rows_spec in Hm as [-> Hu]. split_and!; [done|done|exact Hu].
Qed.

(** ** The window of tags *)

Lemma sql_slice_window {A} (p x q : list A) (lo hi : Z) :
  lo = Z.of_nat (length p + 1) -> hi = Z.of_nat (length p + length x) ->
  sql_slice (p ++ x ++ q) lo hi = x.
Proof.
  intros -> ->. unfold sql_slice.
  replace (Z.to_nat (Z.of_nat (length p + 1) - 1)) with (length p) by lia.
  replace (Z.to_nat (Z.of_nat (length p + length x) - Z.of_nat (length p + 1) + 1)) with (length x) by lia.
  rewrite drop_app_length. destruct (_ <=? _)%Z eqn:E; [apply take_app_length|].
  apply Z.leb_gt in E. destruct x; [done|]. cbn in E. lia.
Qed.

Lemma marshal_flat off chunk : (marshal_from off chunk).2 = concat (map (fun e => pc_tags (st_concept e)) chunk).
Proof. revert off. induction chunk as [|e c IH]; intros off; [done|]. rewrite marshal_from_cons. cbn. by rewrite IH. Qed.

Lemma count_small n : (Z.of_nat n <= i32_max)%Z -> count_to_i32 n = Z.of_nat n.
Proof. unfold count_to_i32. lia. Qed.

Lemma chunk_rows_from (p : list str) chunk :
  (Z.of_nat (length p + length (concat (map (fun e => pc_tags (st_concept e)) chunk)) + 1) <= i32_max)%Z ->
  map (fun c => (cc_id c, cells_row instant_now
                            (p ++ concat (map (fun e => pc_tags (st_concept e)) chunk)) c))
    (marshal_from (length p) chunk).1
  = map (fun e => (id_of e, concept_row e)) chunk.
Proof.
  revert p. induction chunk as [|e chunk IH]; intros p Hlen; [done|].
  cbn [map concat] in Hlen |- *. rewrite marshal_from_cons. cbn [fst map].
  rewrite !length_app in Hlen. f_equal.
  - f_equal. unfold cells_row, concept_row, row_with. cbn. f_equal.
    apply sql_slice_window; apply count_small; lia.
  - rewrite <- length_app, app_assoc. apply IH. rewrite !length_app. lia.
Qed.

(** The tags of one statement's rows can be counted in an [integer]. *)
Definition tags_fit (chunk : list Concept) : Prop :=
  (Z.of_nat (length (concat (map (fun e => pc_tags (st_concept e)) chunk)) + 1) <= i32_max)%Z.

Lemma chunk_rows_exact chunk :
  tags_fit chunk -> chunk_rows chunk = map (fun e => (id_of e, concept_row e)) chunk.
Proof.
  intros Hfit. unfold chunk_rows, marshal_concepts. rewrite marshal_flat. by apply (chunk_rows_from []).
Qed.

(** The whole upsert inserts one row for every staged concept, with its own
    tags when those of every statement can be counted. *)
Lemma upsert_concepts_spec staged (s s' : Store) :
  upsert_concepts instant_now staged s = Some s' ->
  exists rows, Forall2 row_for staged rows /\
    (Forall tags_fit (chunks BATCH_SIZE staged) -> rows = map (fun e => (id_of e, concept_row e)) staged) /\
    s' = set_concepts (insert_all rows (s_concepts s)) s /\
    (paths_unique (s_concepts s) -> paths_unique (s_concepts s')).
Proof.
  intros Hrun.
  enough (exists rows, Forall2 row_for (concat (chunks BATCH_SIZE staged)) rows /\
    (Forall tags_fit (chunks BATCH_SIZE staged) ->
     rows = map (fun e => (id_of e, concept_row e)) (concat (chunks BATCH_SIZE staged))) /\
    s' = set_concepts (insert_all rows (s_concepts s)) s /\
    (paths_unique (s_concepts s) -> paths_unique (s_concepts s'))) as H'.
  { rewrite chunks_concat in H' by (unfold BATCH_SIZE; lia). exact H'. }
  eapply (each_ind (upsert_chunk instant_now) (fun cs s1 => exists rows,
    Forall2 row_for (concat cs) rows /\
    (Forall tags_fit cs -> rows = map (fun e => (id_of e, concept_row e)) (concat cs)) /\
    s1 = set_concepts (insert_all rows (s_concepts s)) s /\
    (paths_unique (s_concepts s) -> paths_unique (s_concepts s1)))); [| |exact Hrun].
  - exists []. split_and!; [constructor|done|by destruct s|done].
  - intros cs chunk s1 s2 (rows & Hr & Hx & -> & Hu) (_ & -> & Hu')%upsert_chunk_spec.
    exists (rows ++ chunk_rows chunk). rewrite concat_app. cbn [concat]. rewrite app_nil_r. split_and!.
    + by apply Forall2_app; [|apply chunk_rows_for].
    + intros [Hcs [Hc _]%Forall_cons]%Forall_app. rewrite (Hx Hcs), (chunk_rows_exact chunk Hc). symmetry. apply map_app.
    + by rewrite insert_all_app.
    + auto.
Qed.

Lemma row_for_ids staged rows : Forall2 row_for staged rows -> rows.*1 = map id_of staged.
Proof. induction 1 as [|e r es rs [Hr _] _ IH]; [done|]. cbn. by rewrite Hr, IH. Qed.

End upserts.

(** ** Reads *)

Section reads.
Context `{S : Serde} `{H : Host} `{G : !StagingHost S H} `{R : !RowHost S}.

Abbreviation Store := (Store (G := G) (R := R)).

Lemma fold_left_ext {A B} (f g : A -> B -> A) l a :
  (forall a b, f a b = g a b) -> fold_left f l a = fold_left g l a.
Proof. intros E. revert a. induction l as [|b l IH]; intros a; cbn; [done|]. by rewrite E, IH. Qed.

(** A map collected from rows: what is found was inserted, and an inserted
    key is found when its value is the only one. *)
Definition collect_step {A} (f : A -> option (str * str)) (m : strmap) (x : A) : strmap :=
  match f x with Some (k, v) => bt_insert k v m | None => m end.

Lemma collect_found {A} (f : A -> option (str * str)) l m :
  bt_sorted m -> let m' := fold_left (collect_step f) l m in
  bt_sorted m' /\
  (forall k v, bt_get k m' = Some v -> bt_get k m = Some v \/ exists x, x ∈ l /\ f x = Some (k, v)) /\
  (forall k, is_Some (bt_get k m) -> is_Some (bt_get k m')) /\
  (forall x k v, x ∈ l -> f x = Some (k, v) -> is_Some (bt_get k m')).
Proof.
  revert m. induction l as [|y l IH]; intros m Hm; cbn [fold_left].
  { split_and!; [done|by left|done|by intros ? ? ? ?%not_elem_of_nil]. }
  assert (bt_sorted (collect_step f m y)) as Hm'.
  { unfold collect_step. destruct (f y) as [[k v]|]; [by apply bt_insert_sorted|done]. }
  destruct (IH _ Hm') as (K1 & K2 & K3 & K4). split_and!; [done| | |].
  - intros k v [Hk|(x & Hx & Hf)]%K2; [|right; exists x; split; [by right|done]].
    unfold collect_step in Hk. destruct (f y) as [[k' v']|] eqn:Ey; [|by left].
    destruct (decide (k' = k)) as [->|Hne].
    + rewrite bt_get_insert in Hk by done. injection Hk as ->. right. exists y. split; [by left|done].
    + rewrite bt_get_insert_ne in Hk by done. by left.
  - intros k Hk. apply K3. unfold collect_step. destruct (f y) as [[k' v']|]; [|done].
    destruct (decide (k' = k)) as [->|Hne].
    + by rewrite bt_get_insert by done.
    + by rewrite bt_get_insert_ne by done.
  - intros x k v [->|Hx]%elem_of_cons Hf; [|by eapply K4].
    apply K3. unfold collect_step. rewrite Hf, bt_get_insert by done. done.
Qed.

Lemma collect_iff {A} (f : A -> option (str * str)) l k v :
  (forall x y k v w, x ∈ l -> y ∈ l -> f x = Some (k, v) -> f y = Some (k, w) -> v = w) ->
  bt_get k (fold_left (collect_step f) l []) = Some v <-> exists x, x ∈ l /\ f x = Some (k, v).
Proof.
  intros Hfun. destruct (collect_found f l [] ltac:(constructor)) as (_ & K2 & _ & K4). split.
  - by intros [?|?]%K2.
  - intros (x & Hx & Hf). destruct (K4 x k v Hx Hf) as [w Hw].
    destruct (K2 _ _ Hw) as [?|(y & Hy & Hg)]; [done|].
    by rewrite Hw, (Hfun x y k v w).
Qed.

(** [stored_hashes] and [stored_ids] are the two columns by path. *)
Lemma stored_hashes_get (s : Store) p h :
  paths_unique (s_concepts s) ->
  bt_get p (stored_hashes s) = Some h
  <-> exists id r, s_concepts s !! id = Some r /\ c_path r = p /\ c_file_hash r = h.
Proof.
  intros Hu. unfold stored_hashes.
  rewrite (fold_left_ext _ (collect_step (fun e => Some (c_path e.2, c_file_hash e.2)))) by (by intros ? []).
  rewrite collect_iff.
  - split.
    + intros ([id r] & Hin%elem_of_map_to_list & [= <- <-]). by exists id, r.
    + intros (id & r & Hr & <- & <-). exists (id, r). by rewrite elem_of_map_to_list.
  - intros [i r] [j r'] k v w Hi%elem_of_map_to_list Hj%elem_of_map_to_list [= Hp Hv] [= Hp' Hw].
    assert (i = j) as -> by (eapply Hu; [exact Hi|exact Hj|cbn in *; congruence]). cbn in *. congruence.
Qed.

Lemma stored_ids_get (s : Store) p id :
  paths_unique (s_concepts s) ->
  bt_get p (stored_ids s) = Some id <-> exists r, s_concepts s !! id = Some r /\ c_path r = p.
Proof.
  intros Hu. unfold stored_ids.
  rewrite (fold_left_ext _ (collect_step (fun e => Some (c_path e.2, e.1)))) by (by intros ? []).
  rewrite collect_iff.
  - split.
    + intros ([i r] & Hin%elem_of_map_to_list & [= <- <-]). by exists r.
    + intros (r & Hr & <-). exists (id, r). by rewrite elem_of_map_to_list.
  - intros [i r] [j r'] k v w Hi%elem_of_map_to_list Hj%elem_of_map_to_list [= Hp <-] [= Hp' <-].
    eapply Hu; [exact Hi|exact Hj|cbn in *; congruence].
Qed.

Lemma stored_hashes_keys (s : Store) p :
  p ∈ (stored_hashes s).*1 <-> exists id r, s_concepts s !! id = Some r /\ c_path r = p.
Proof.
  unfold stored_hashes.
  rewrite (fold_left_ext _ (collect_step (fun e => Some (c_path e.2, c_file_hash e.2)))) by (by intros ? []).
  destruct (collect_found (fun e : list ascii * ConceptRow => Some (c_path e.2, c_file_hash e.2))
              (map_to_list (s_concepts s)) [] ltac:(constructor)) as (K1 & K2 & _ & K4).
  split.
  - intros ([k v] & -> & Hin)%list_elem_of_fmap. apply bt_get_elem in Hin; [|done].
    apply K2 in Hin as [?|([id r] & Hin%elem_of_map_to_list & [= <- <-])]; [done|]. by exists id, r.
  - intros (id & r & Hr & <-). destruct (K4 (id, r) (c_path r) (c_file_hash r)) as [v Hv];
      [by apply elem_of_map_to_list|done|].
    apply bt_get_elem in Hv; [|done]. apply list_elem_of_fmap. by exists (c_path r, v).
Qed.

(** The package of a resource row, when only one kind of row exists. *)
Definition one_kind (s : Store) (id : str) : Prop := s_scripts s !! id = None \/ s_references s !! id = None.
Definition package_of (s : Store) (id : str) : option str :=
  match s_scripts s !! id with Some x => Some (x_package x) | None => d_package <$> s_references s !! id end.

Lemma resource_packages_elem (s : Store) id o :
  (id, o) ∈ resource_packages s <->
  (exists x, s_scripts s !! id = Some x /\ x_package x = o)
  \/ (exists d, s_references s !! id = Some d /\ d_package d = o).
Proof.
  unfold resource_packages. rewrite elem_of_app, !list_elem_of_fmap. split.
  - intros [([i x] & [= -> ->] & Hin%elem_of_map_to_list)|([i x] & [= -> ->] & Hin%elem_of_map_to_list)]; eauto.
  - intros [(x & Hx & <-)|(d & Hd & <-)]; [left; exists (id, x)|right; exists (id, d)];
      by rewrite elem_of_map_to_list.
Qed.

Lemma load_stored_owners_get (s : Store) id r o :
  paths_unique (s_concepts s) -> s_concepts s !! id = Some r -> one_kind s id ->
  bt_get (c_path r) (load_stored_owners s) = Some o <-> package_of s id = Some o.
Proof.
  intros Hu Hr H1. unfold load_stored_owners.
  rewrite (fold_left_ext _ (collect_step (fun e => (fun r => (c_path r, e.2)) <$> s_concepts s !! e.1)))
    by (intros ? [i q]; unfold collect_step; cbn; by destruct (s_concepts s !! i)).
  destruct (collect_found (fun e : list ascii * list ascii => (fun r => (c_path r, e.2)) <$> s_concepts s !! e.1)
    (resource_packages s) [] ltac:(constructor)) as (_ & K2 & _ & K4).
  assert (forall q, (id, q) ∈ resource_packages s <-> package_of s id = Some q) as Hq.
  { intros q. rewrite resource_packages_elem. unfold package_of.
    destruct (s_scripts s !! id) as [x|] eqn:Ex, (s_references s !! id) as [d|] eqn:Ed;
      destruct H1 as [H1|H1]; simplify_eq/=; naive_solver. }
  assert (forall q, bt_get (c_path r) (fold_left (collect_step (fun e : list ascii * list ascii =>
            (fun r => (c_path r, e.2)) <$> s_concepts s !! e.1)) (resource_packages s) []) = Some q ->
          (id, q) ∈ resource_packages s) as Hfound.
  { intros q [?|([i p] & Hin & Hf)]%K2; [done|]. cbn in Hf.
    apply fmap_Some in Hf as (r' & Hr' & [= Hp ->]).
    by rewrite (Hu id i r r' Hr Hr' Hp). }
  split.
  - intros Ho. by apply Hq, Hfound.
  - intros Ho%Hq. destruct (K4 (id, o) (c_path r) o Ho) as [q Eq]; [cbn; by rewrite Hr|].
    rewrite Eq. f_equal. apply Hfound, Hq in Eq. apply Hq in Ho. congruence.
Qed.

Lemma load_stored_skill_paths_elem (s : Store) p :
  p ∈ load_stored_skill_paths s
  <-> exists id r, s_concepts s !! id = Some r /\ c_path r = p /\ is_Some (s_skills s !! id).
Proof.
  unfold load_stored_skill_paths. rewrite elem_of_list_to_set, list_elem_of_omap. split.
  - intros ([id r] & Hin%elem_of_map_to_list & Hc). cbn in Hc. case_bool_decide; [|done].
    injection Hc as <-. by exists id, r.
  - intros (id & r & Hr & <- & Hs). exists (id, r). rewrite elem_of_map_to_list. split; [done|].
    cbn. by rewrite bool_decide_eq_true_2.
Qed.

End reads.

(** ** Statements that write one table *)

Section tables.
Context `{S : Serde} `{H : Host} `{G : !StagingHost S H} `{R : !RowHost S}.

Abbreviation Store := (Store (G := G) (R := R)).
Abbreviation Concept := (StagedConcept (G := G)).
Abbreviation id_of := (fun e : Concept => pc_id (st_concept e)).

(** A statement that writes what [put] writes. *)
Definition only {F} (put : F -> Store -> Store) (s s' : Store) : Prop := exists x, s' = put x s.

Class Put {F} (put : F -> Store -> Store) : Prop := {
  put_put x y s : put x (put y s) = put x s;
  put_same s : exists x, put x s = s
}.

#[export] Instance put_links : Put set_links.
Proof. split; [done|]. intros []. by eexists. Qed.
#[export] Instance put_metadata : Put set_metadata.
Proof. split; [done|]. intros []. by eexists. Qed.
#[export] Instance put_provenance : Put set_provenance.
Proof. split; [done|]. intros []. by eexists. Qed.
#[export] Instance put_sources : Put set_sources.
Proof. split; [done|]. intros []. by eexists. Qed.
#[export] Instance put_log : Put set_log.
Proof. split; [done|]. intros []. by eexists. Qed.
#[export] Instance put_embeddings : Put set_embeddings.
Proof. split; [done|]. intros []. by eexists. Qed.

#[export] Instance only_refl {F} (put : F -> Store -> Store) `{!Put put} : Reflexive (only put).
Proof. intros s. destruct (put_same s) as [x Hx]. by exists x. Qed.
#[export] Instance only_trans {F} (put : F -> Store -> Store) `{!Put put} : Transitive (only put).
Proof. intros s1 s2 s3 [x ->] [y ->]. exists y. apply put_put. Qed.

Lemma insert_keyed_only {K V} `{Countable K} (get : Store -> gmap (list ascii * K) V) put rows s s' :
  insert_keyed get put rows s = Some s' ->
  s' = put (insert_all rows (get s)) s /\ NoDup rows.*1 /\
  forall r, r ∈ rows -> is_Some (s_concepts s !! r.1.1) /\ get s !! r.1 = None.
Proof.
  unfold insert_keyed. destruct (_ && _) eqn:Hc; [|done]. intros [= <-].
  apply andb_true_iff in Hc as [Hnd%bool_decide_eq_true Hall]. split_and!; [done|done|].
  intros r Hr%list_elem_of_In. rewrite forallb_forall in Hall. specialize (Hall r Hr).
  apply andb_true_iff in Hall as [H1%bool_decide_eq_true H2%bool_decide_eq_true]. done.
Qed.

Lemma upsert_typed_only {V} (get : Store -> gmap (list ascii) V) put rows s s' :
  upsert_typed get put rows s = Some s' ->
  s' = put (insert_all rows (get s)) s /\ NoDup rows.*1 /\
  forall r, r ∈ rows -> is_Some (s_concepts s !! r.1).
Proof.
  unfold upsert_typed. destruct (_ && _) eqn:Hc; [|done]. intros [= <-].
  apply andb_true_iff in Hc as [Hnd%bool_decide_eq_true Hall]. split_and!; [done|done|].
  intros r Hr%list_elem_of_In. rewrite forallb_forall in Hall. specialize (Hall r Hr).
  by apply bool_decide_eq_true in Hall.
Qed.

(** Every key of a table names a concept. *)
Definition refers {K V} `{Countable K} (key : K -> str) (s : Store) (m : gmap K V) : Prop :=
  forall k v, m !! k = Some v -> is_Some (s_concepts s !! key k).

Lemma refers_insert_all {K V} `{Countable K} (key : K -> str) (s : Store) rows (m : gmap K V) :
  refers key s m -> (forall r, r ∈ rows -> is_Some (s_concepts s !! key r.1)) ->
  refers key s (insert_all rows m).
Proof.
  intros Hm Hr k v Hk.
  destruct (decide (k ∈ rows.*1)) as [Hin|Hn]; [|rewrite insert_all_ne in Hk by done; by eapply Hm].
  apply list_elem_of_fmap in Hin as (r & -> & Hin). by apply Hr.
Qed.

Lemma refers_subset {K V} `{Countable K} (key : K -> str) (s s' : Store) (m m' : gmap K V) :
  refers key s m -> (forall k v, m' !! k = Some v -> is_Some (m !! k)) ->
  (forall id, is_Some (s_concepts s !! id) -> is_Some (s_concepts s' !! id)) -> refers key s' m'.
Proof. intros Hm Hsub Hc k v Hk. destruct (Hsub k v Hk) as [w Hw]. eapply Hc, Hm, Hw. Qed.

(** *** Links *)

Lemma delete_staged_outgoing_only staged (s s' : Store) :
  delete_staged_outgoing staged s = Some s' ->
  exists l, s' = set_links l s /\ forall k v, l !! k = Some v <-> s_links s !! k = Some v /\ k.1 ∉ map id_of staged.
Proof.
  intros Hrun. eapply (chunked_ind _ (fun done s1 => exists l, s1 = set_links l s /\
    forall k v, l !! k = Some v <-> s_links s !! k = Some v /\ k.1 ∉ map id_of done)); [| |exact Hrun].
  - exists (s_links s). split; [by destruct s|]. cbn. intros k v. split; [|tauto].
    intros ?. split; [done|]. apply not_elem_of_nil.
  - intros done chunk s1 s2 (l & -> & Hl) [= <-]. eexists. split; [done|]. intros k v. cbn.
    rewrite map_lookup_filter_Some, Hl, map_app, not_elem_of_app. cbn. tauto.
Qed.

Lemma insert_links_only row edges (s s' : Store) :
  (forall s1 l e, row (set_links l s1) e = row s1 e) ->
  insert_links row edges s = Some s' ->
  s' = set_links (insert_all (map (fun e => (e_source e, e_ordinal e, row s e)) edges) (s_links s)) s /\
  (forall e, e ∈ edges -> is_Some (s_concepts s !! e_source e)) /\
  (forall e, e ∈ edges -> s_links s !! (e_source e, e_ordinal e) = None).
Proof.
  intros Hrow Hrun. set (rows := map (fun e => (e_source e, e_ordinal e, row s e))).
  enough (s' = set_links (insert_all (rows edges) (s_links s)) s /\
    (forall e, e ∈ edges -> is_Some (s_concepts s !! e_source e)) /\
    (forall e, e ∈ edges -> s_links s !! (e_source e, e_ordinal e) = None)) by done.
  eapply (chunked_ind _ (fun done s1 => s1 = set_links (insert_all (rows done) (s_links s)) s /\
    (forall e, e ∈ done -> is_Some (s_concepts s !! e_source e)) /\
    (forall e, e ∈ done -> s_links s !! (e_source e, e_ordinal e) = None))); [| |exact Hrun].
  - split_and!; [by destruct s|by intros ? ?%not_elem_of_nil..].
  - intros done chunk s1 s2 (-> & Hd & Hf) (-> & Hnd & Hc)%insert_keyed_only. cbn in Hc.
    assert (map (fun e => (e_source e, e_ordinal e, row (set_links (insert_all (rows done) (s_links s)) s) e)) chunk
            = rows chunk) as Hrows by (apply map_ext; intros e; by rewrite Hrow).
    rewrite Hrows in *. split_and!.
    + unfold rows. rewrite map_app, insert_all_app. done.
    + intros e [He|He]%elem_of_app; [by apply Hd|].
      apply (Hc (e_source e, e_ordinal e, row s e)). apply list_elem_of_fmap. by exists e.
    + intros e [He|He]%elem_of_app; [by apply Hf|].
      destruct (Hc (e_source e, e_ordinal e, row s e)) as [_ Hn]; [apply list_elem_of_fmap; by exists e|].
      cbn in Hn. destruct (s_links s !! (e_source e, e_ordinal e)) as [v|] eqn:E; [|done].
      assert (is_Some (insert_all (rows done) (s_links s) !! (e_source e, e_ordinal e))) as [w Hw].
      { apply insert_all_is_Some. left. by exists v. }
      cbn in Hn, Hw. congruence.
Qed.

Lemma project_links_only staged (s s' : Store) :
  project_links staged s = Projected s' ->
  exists l, s' = set_links l s /\ (refers fst s (s_links s) -> refers fst s l).
Proof.
  unfold project_links. intros Hrun. run_ok.
  match goal with H : delete_staged_outgoing _ _ = _ |- _ =>
    apply delete_staged_outgoing_only in H as (l1 & -> & Hl1) end.
  repeat match goal with H : insert_links _ _ _ = _ |- _ => apply insert_links_only in H as (-> & ? & ?); [|done] end.
  eexists. split; [done|]. intros Hs. cbn.
  repeat (apply (refers_insert_all fst); [|intros r (e & -> & He)%list_elem_of_fmap; cbn; eauto]).
  intros k v [Hk _]%Hl1. by eapply Hs.
Qed.

End tables.

(** ** The typed tables *)

Section packages.
Context `{S : Serde} `{H : Host} `{G : !StagingHost S H} `{R : !RowHost S}.
Context (sha256 : str -> str) (jsonb_text : str -> bool).

Abbreviation Store := (Store (G := G) (R := R)).
Abbreviation Concept := (StagedConcept (G := G)).
Abbreviation id_of := (fun e : Concept => pc_id (st_concept e)).

Lemma upsert_skills_only rows (s s' : Store) :
  upsert_skills jsonb_text rows s = Some s' ->
  s' = set_typed (insert_all rows (s_skills s)) (s_scripts s) (s_references s) s /\
  forall r, r ∈ rows -> is_Some (s_concepts s !! r.1).
Proof.
  intros Hrun. eapply (chunked_ind _ (fun done s1 =>
    s1 = set_typed (insert_all done (s_skills s)) (s_scripts s) (s_references s) s /\
    forall r, r ∈ done -> is_Some (s_concepts s !! r.1))); [| |exact Hrun].
  - split; [by destruct s|by intros ? ?%not_elem_of_nil].
  - intros done chunk s1 s2 [-> Hd] Hc. run_ok. apply upsert_typed_only in Hc as (-> & _ & Hr).
    split; [cbn; by rewrite insert_all_app|]. intros r [?|?]%elem_of_app; auto.
Qed.

Lemma upsert_scripts_only rows (s s' : Store) :
  upsert_scripts jsonb_text rows s = Some s' ->
  s' = set_typed (s_skills s) (insert_all rows (s_scripts s)) (s_references s) s /\
  forall r, r ∈ rows -> is_Some (s_concepts s !! r.1).
Proof.
  intros Hrun. eapply (chunked_ind _ (fun done s1 =>
    s1 = set_typed (s_skills s) (insert_all done (s_scripts s)) (s_references s) s /\
    forall r, r ∈ done -> is_Some (s_concepts s !! r.1))); [| |exact Hrun].
  - split; [by destruct s|by intros ? ?%not_elem_of_nil].
  - intros done chunk s1 s2 [-> Hd] Hc. run_ok. apply upsert_typed_only in Hc as (-> & _ & Hr).
    split; [cbn; by rewrite insert_all_app|]. intros r [?|?]%elem_of_app; auto.
Qed.

Lemma upsert_references_only rows (s s' : Store) :
  upsert_references rows s = Some s' ->
  s' = set_typed (s_skills s) (s_scripts s) (insert_all rows (s_references s)) s /\
  forall r, r ∈ rows -> is_Some (s_concepts s !! r.1).
Proof.
  intros Hrun. eapply (chunked_ind _ (fun done s1 =>
    s1 = set_typed (s_skills s) (s_scripts s) (insert_all done (s_references s)) s /\
    forall r, r ∈ done -> is_Some (s_concepts s !! r.1))); [| |exact Hrun].
  - split; [by destruct s|by intros ? ?%not_elem_of_nil].
  - intros done chunk s1 s2 [-> Hd] Hc. run_ok. apply upsert_typed_only in Hc as (-> & _ & Hr).
    split; [cbn; by rewrite insert_all_app|]. intros r [?|?]%elem_of_app; auto.
Qed.

(** Propagating a visibility changes nothing but visibilities. *)
Record propagated (s s' : Store) : Prop := {
  pg_concepts : s_concepts s' = s_concepts s;
  pg_links : s_links s' = s_links s;
  pg_skills : s_skills s' = s_skills s;
  pg_sources : s_sources s' = s_sources s;
  pg_embeddings : s_embeddings s' = s_embeddings s;
  pg_provenance : s_provenance s' = s_provenance s;
  pg_log : s_log s' = s_log s;
  pg_scripts id : x_package <$> s_scripts s' !! id = x_package <$> s_scripts s !! id;
  pg_references id : d_package <$> s_references s' !! id = d_package <$> s_references s !! id;
  pg_metadata k : k.2 <> lit "visibility" -> s_metadata s' !! k = s_metadata s !! k;
  pg_keys k : is_Some (s_metadata s' !! k) <-> is_Some (s_metadata s !! k)
}.

Lemma propagated_refl s : propagated s s.
Proof. by split. Qed.

Lemma propagated_trans s1 s2 s3 : propagated s1 s2 -> propagated s2 s3 -> propagated s1 s3.
Proof.
  intros A B. split; try (destruct A, B; congruence).
  - intros k Hk. by rewrite (pg_metadata _ _ B), (pg_metadata _ _ A).
  - intros k. by rewrite (pg_keys _ _ B), (pg_keys _ _ A).
Qed.

Lemma propagate_chunk_ok ids s : propagated s (propagate_chunk ids s).
Proof.
  split; try done; intros id; unfold propagate_chunk;
    cbn [s_scripts s_references s_metadata set_metadata set_typed].
  - rewrite lookup_fmap. destruct (s_scripts s !! id) as [x|]; cbn; [|done].
    by destruct (visible_as ids s (x_package x)).
  - rewrite lookup_fmap. destruct (s_references s !! id) as [x|]; cbn; [|done].
    by destruct (visible_as ids s (d_package x)).
  - intros Hk. rewrite map_lookup_imap. destruct (s_metadata s !! id); cbn; [|done].
    by rewrite decide_False.
  - rewrite map_lookup_imap. destruct (s_metadata s !! id); cbn; [|done]. split; by eexists.
Qed.

Abbreviation propagate_chunks cs s := (fold_left (fun s chunk => propagate_chunk chunk s) cs s).

Lemma propagate_chunks_ok cs s : propagated s (propagate_chunks cs s).
Proof.
  revert s. induction cs as [|c cs IH]; intros s; cbn; [apply propagated_refl|].
  eapply propagated_trans; [apply propagate_chunk_ok|apply IH].
Qed.

Lemma propagate_visibility_ok ids s : propagated s (propagate_visibility ids s).
Proof. apply propagate_chunks_ok. Qed.

(** The skills among [ids] that own the concept [id], as script or reference. *)
Definition owning_skills (ids : list str) (s : Store) (id : str) : list str :=
  filter (fun p => p ∈ ids)
    (option_list (x_package <$> s_scripts s !! id) ++ option_list (d_package <$> s_references s !! id)).

(** The visibility recorded in the metadata of [id] is the one it came with,
    or that of a skill among [ids] that owns it. *)
Definition decided (ids : list str) (s : Store) (id own recorded : str) : Prop :=
  (owning_skills ids s id = [] /\ recorded = own) \/
  exists p row, p ∈ owning_skills ids s id /\ s_skills s !! p = Some row /\
    recorded = value_text (json_string (k_visibility row)).

Lemma owning_propagated ids s s' id : propagated s s' -> owning_skills ids s' id = owning_skills ids s id.
Proof. intros P. unfold owning_skills. by rewrite (pg_scripts _ _ P), (pg_references _ _ P). Qed.

Lemma owning_nil ids s id : owning_skills ids s id = [] <-> forall p, p ∉ owning_skills ids s id.
Proof. split; [intros -> p; apply not_elem_of_nil|apply elem_of_nil_inv]. Qed.

Lemma owning_app l k s id : owning_skills (l ++ k) s id = [] <-> owning_skills l s id = [] /\ owning_skills k s id = [].
Proof.
  clear sha256 jsonb_text. rewrite !owning_nil. unfold owning_skills. setoid_rewrite list_elem_of_filter. setoid_rewrite elem_of_app. firstorder.
Qed.

Lemma owning_left l k s id p : p ∈ owning_skills l s id -> p ∈ owning_skills (l ++ k) s id.
Proof. clear. unfold owning_skills. rewrite !list_elem_of_filter, !elem_of_app. tauto. Qed.
Lemma owning_right l k s id p : p ∈ owning_skills k s id -> p ∈ owning_skills (l ++ k) s id.
Proof. clear. unfold owning_skills. rewrite !list_elem_of_filter, !elem_of_app. tauto. Qed.

Lemma member_visibility_cases ids s id :
  (forall p, p ∈ ids -> is_Some (s_skills s !! p)) ->
  (owning_skills ids s id = [] /\ member_visibility ids s id = None) \/
  exists p row, p ∈ owning_skills ids s id /\ s_skills s !! p = Some row /\
    member_visibility ids s id = Some (k_visibility row).
Proof.
  intros Hids. unfold owning_skills, member_visibility. generalize (option_list (x_package <$> s_scripts s !! id) ++
    option_list (d_package <$> s_references s !! id)) as ps. intros ps.
  induction ps as [|p ps IH]; [by left|]. destruct (decide (p ∈ ids)) as [Hp|Hp].
  - destruct (Hids p Hp) as [row Hrow]. right. exists p, row. rewrite filter_cons_True by done.
    split_and!; [apply list_elem_of_here|done|]. cbn.
    assert (visible_as ids s p = Some (k_visibility row)) as -> by (unfold visible_as; by rewrite decide_True, Hrow).
    done.
  - rewrite filter_cons_False by done. cbn.
    assert (visible_as ids s p = None) as -> by (unfold visible_as; by rewrite decide_False). exact IH.
Qed.

Lemma propagate_chunks_decide cs s id own :
  (forall p, p ∈ concat cs -> is_Some (s_skills s !! p)) ->
  s_metadata s !! (id, lit "visibility") = Some own ->
  exists v, s_metadata (propagate_chunks cs s) !! (id, lit "visibility") = Some v /\
    decided (concat cs) (propagate_chunks cs s) id own v.
Proof.
  clear sha256 jsonb_text. intros Hids Hown. induction cs as [|c cs IH] using rev_ind.
  { exists own. split; [done|]. left. split; [|done]. apply owning_nil. intros p [Hp _]%list_elem_of_filter.
    by apply not_elem_of_nil in Hp. }
  rewrite concat_app in Hids |- *. cbn [concat] in *. rewrite app_nil_r in *.
  rewrite fold_left_app. cbn [fold_left].
  destruct IH as (v & Hv & Hd); [intros p Hp; apply Hids, elem_of_app; by left|].
  pose proof (propagate_chunks_ok cs s) as P1. set (s1 := propagate_chunks cs s) in *.
  pose proof (propagate_chunk_ok c s1) as P2. unfold decided. rewrite (owning_propagated _ _ _ _ P2), (pg_skills _ _ P2).
  destruct (member_visibility_cases c s1 id) as [[Hn Hm]|(p & row & Hp & Hrow & Hm)].
  - intros p Hp. rewrite (pg_skills _ _ P1). apply Hids, elem_of_app. by right.
  - exists v. split.
    + unfold propagate_chunk. cbn [s_metadata set_metadata]. rewrite map_lookup_imap, Hv. cbn. by rewrite Hm.
    + destruct Hd as [[Ho ->]|(p & row & Hp & Hrow & ->)]; [left|right].
      * split; [by apply owning_app|done].
      * exists p, row. split_and!; [by apply owning_left|done|done].
  - exists (value_text (json_string (k_visibility row))). split.
    + unfold propagate_chunk. cbn [s_metadata set_metadata]. rewrite map_lookup_imap, Hv. cbn. by rewrite Hm.
    + right. exists p, row. split_and!; [by apply owning_right|done|done].
Qed.

Lemma propagate_visibility_decides ids s id own :
  (forall p, p ∈ ids -> is_Some (s_skills s !! p)) ->
  s_metadata s !! (id, lit "visibility") = Some own ->
  exists v, s_metadata (propagate_visibility ids s) !! (id, lit "visibility") = Some v /\
    decided ids (propagate_visibility ids s) id own v.
Proof.
  clear sha256 jsonb_text. intros Hids Hown. pose proof (propagate_chunks_decide (chunks BATCH_SIZE ids) s id own) as H0.
  rewrite chunks_concat in H0 by (unfold BATCH_SIZE; lia). by apply H0.
Qed.

Lemma relate_body_links_only ids (s : Store) :
  exists l, relate_body_links ids s = set_links l s /\
    forall k, match l !! k, s_links s !! k with
              | Some a, Some b => exists rel, a = with_relation rel b
              | None, None => True
              | _, _ => False
              end.
Proof.
  unfold relate_body_links. generalize (chunks BATCH_SIZE ids) as cs. intros cs. revert s.
  induction cs as [|c cs IH]; intros s; cbn [fold_left].
  { exists (s_links s). split; [by destruct s|]. intros k. destruct (s_links s !! k) as [b|]; [|done].
    exists (l_link_relation b). by destruct b. }
  destruct (IH (set_links (map_imap (fun key l => Some (relate_row c s key l)) (s_links s)) s)) as (l & -> & Hl).
  exists l. split; [done|]. intros k. specialize (Hl k). cbn [s_links set_links] in Hl.
  rewrite map_lookup_imap in Hl. destruct (s_links s !! k) as [b|]; cbn [mbind option_bind] in Hl; [|done].
  destruct (l !! k) as [a|]; [|done]. destruct Hl as [rel ->]. unfold relate_row.
  case_decide; [|by exists rel]. destruct (_ ≫= _) as [q|]; cbn; by exists rel.
Qed.

(** The rows of one staged concept in the typed tables. *)
Lemma typed_skills_elem (staged : list Concept) id row :
  (id, row) ∈ typed_skills staged ->
  exists e p, e ∈ staged /\ st_typed e = Some (PSkill p) /\ id = id_of e.
Proof.
  unfold typed_skills. intros (e & He & Hr)%list_elem_of_omap.
  destruct (st_typed e) as [[p|p|p]|] eqn:Et; try done. injection Hr as <- _. by exists e, p.
Qed.

Lemma typed_scripts_elem (staged : list Concept) id row :
  (id, row) ∈ typed_scripts sha256 staged <->
  exists e p, e ∈ staged /\ st_typed e = Some (PScript p) /\ id = id_of e /\
    row = {| x_language := sc_language p; x_visibility := sc_visibility p;
             x_runtime := value_text <$> sc_runtime p; x_bytes := sc_bytes p;
             x_byte_size := Z.of_nat (length (sc_bytes p)); x_sha256 := sha256 (sc_bytes p);
             x_source_path := sc_source_path p; x_package := sc_package_concept_id p;
             x_file_hash := st_file_hash e |}.
Proof.
  unfold typed_scripts. rewrite list_elem_of_omap. split.
  - intros (e & He & Hr). destruct (st_typed e) as [[p|p|p]|] eqn:Et; try done.
    injection Hr as <- <-. by exists e, p.
  - intros (e & p & He & Et & -> & ->). exists e. by rewrite Et.
Qed.

Lemma typed_references_elem (staged : list Concept) id row :
  (id, row) ∈ typed_references sha256 staged <->
  exists e p, e ∈ staged /\ st_typed e = Some (PReference p) /\ id = id_of e /\
    row = {| d_visibility := rf_visibility p; d_format := rf_format p; d_media_type := rf_media_type p;
             d_bytes := rf_bytes p; d_byte_size := Z.of_nat (length (rf_bytes p));
             d_sha256 := sha256 (rf_bytes p); d_text_body := rf_text_body p;
             d_source_path := rf_source_path p; d_package := rf_package_concept_id p;
             d_file_hash := st_file_hash e |}.
Proof.
  unfold typed_references. rewrite list_elem_of_omap. split.
  - intros (e & He & Hr). destruct (st_typed e) as [[p|p|p]|] eqn:Et; try done.
    injection Hr as <- <-. by exists e, p.
  - intros (e & p & He & Et & -> & ->). exists e. by rewrite Et.
Qed.

(** An [omap] that keeps the id keeps the ids apart. *)
Lemma NoDup_omap_ids {V} (f : Concept -> option (str * V)) staged :
  (forall e r, f e = Some r -> r.1 = id_of e) -> NoDup (map id_of staged) -> NoDup (omap f staged).*1.
Proof.
  intros Hf. induction staged as [|e staged IH]; intros Hnd; [constructor|].
  cbn [map] in Hnd. apply NoDup_cons in Hnd as [He Hnd]. cbn. destruct (f e) as [r|] eqn:Er; [|auto].
  cbn. apply NoDup_cons. split; [|auto]. intros (r' & Hr & (e' & He' & Hf')%list_elem_of_omap)%list_elem_of_fmap.
  apply He. rewrite <- (Hf _ _ Er), Hr, (Hf _ _ Hf'). apply list_elem_of_fmap. by exists e'.
Qed.

Lemma typed_scripts_ids staged : NoDup (map id_of staged) -> NoDup (typed_scripts sha256 staged).*1.
Proof. apply NoDup_omap_ids. intros e r Hr. destruct (st_typed e) as [[]|]; by simplify_eq. Qed.
Lemma typed_references_ids staged : NoDup (map id_of staged) -> NoDup (typed_references sha256 staged).*1.
Proof. apply NoDup_omap_ids. intros e r Hr. destruct (st_typed e) as [[]|]; by simplify_eq. Qed.

End packages.

(** ** The whole write *)

Section write.
Context `{S : Serde} `{H : Host} `{G : !StagingHost S H} `{R : !RowHost S}.
Context (sha256 : str -> str) (instant_now : Z) (jsonb_text : str -> bool).

Abbreviation Store := (Store (G := G) (R := R)).
Abbreviation Concept := (StagedConcept (G := G)).
Abbreviation id_of := (fun e : Concept => pc_id (st_concept e)).

(** The integrity the schema promises: one concept per path, and every row of
    a concept's table belongs to a stored concept. *)
Record store_ok (s : Store) : Prop := {
  ok_paths : paths_unique (s_concepts s);
  ok_metadata : refers fst s (s_metadata s);
  ok_links : refers fst s (s_links s);
  ok_skills : refers id s (s_skills s);
  ok_scripts : refers id s (s_scripts s);
  ok_references : refers id s (s_references s);
  ok_sources : refers id s (s_sources s);
  ok_embeddings i : i ∈ s_embeddings s -> is_Some (s_concepts s !! i);
  ok_provenance : refers id s (s_provenance s)
}.

Lemma refers_drop {K V} `{Countable K} (key : K -> str) (m : gmap K V) dead (s : Store) :
  refers key s m ->
  refers key (drop_concepts dead s) (filter (fun e => gone dead s (key e.1) = false) m).
Proof.
  intros Hm k v [Hk Hg]%map_lookup_filter_Some. destruct (Hm k v Hk) as [r Hr]. exists r.
  apply drop_concepts_lookup. split; [done|]. cbn in Hg. unfold gone in Hg. by rewrite Hr in Hg.
Qed.

Lemma drop_ok dead (s : Store) : store_ok s -> store_ok (drop_concepts dead s).
Proof.
  intros [A1 A2 A3 A4 A5 A6 A7 A8 A9]. split.
  - intros i j r r' [Hi _]%drop_concepts_lookup [Hj _]%drop_concepts_lookup. by eapply A1.
  - by apply (refers_drop fst).
  - by apply (refers_drop fst).
  - by apply (refers_drop id).
  - by apply (refers_drop id).
  - by apply (refers_drop id).
  - by apply (refers_drop id).
  - intros i [Hg Hi]%elem_of_filter. destruct (A8 i Hi) as [r Hr]. exists r.
    apply drop_concepts_lookup. split; [done|]. by rewrite Hr in Hg.
  - by apply (refers_drop id).
Qed.

Lemma invalidate_synced_only ids (s : Store) :
  invalidate_synced_concepts ids s = set_embeddings (s_embeddings s ∖ list_to_set ids) s.
Proof.
  unfold invalidate_synced_concepts. rewrite <- (chunks_concat 500 ids) at 2 by lia.
  generalize (chunks 500 ids) as cs. intros cs. revert s.
  induction cs as [|c cs IH]; intros s; cbn [fold_left concat].
  - rewrite list_to_set_nil, difference_empty_L. by destruct s.
  - rewrite IH. cbn [s_embeddings set_embeddings]. rewrite list_to_set_app_L, difference_difference_l_L. done.
Qed.

Lemma flatten_metadata_elem (staged : list Concept) r :
  r ∈ flatten_metadata staged <->
  exists e k v, e ∈ staged /\ r = (id_of e, k, value_text v) /\ (k, v) ∈ map_entries (pc_metadata (st_concept e)).
Proof.
  unfold flatten_metadata. rewrite list_elem_of_In, in_concat. setoid_rewrite in_map_iff. split.
  - intros (rows & (e & <- & He%list_elem_of_In) & Hr%list_elem_of_In).
    apply list_elem_of_fmap in Hr as ([k v] & -> & Hkv). by exists e, k, v.
  - intros (e & k & v & He & -> & Hkv). eexists. split; [exists e; split; [done|by apply list_elem_of_In]|].
    apply list_elem_of_In, list_elem_of_fmap. by exists (k, v).
Qed.

Lemma replace_metadata_only staged (s s' : Store) :
  replace_concept_metadata jsonb_text staged s = Some s' ->
  exists m, s' = set_metadata m s /\
    (refers fst s (s_metadata s) -> refers fst s m) /\
    (forall id k v, id ∈ map id_of staged ->
       m !! (id, k) = Some v -> (id, k, v) ∈ flatten_metadata staged) /\
    (forall r, r ∈ flatten_metadata staged -> is_Some (m !! r.1)) /\
    (forall id k, id ∉ map id_of staged -> m !! (id, k) = s_metadata s !! (id, k)).
Proof.
  unfold replace_concept_metadata. intros (s1 & Hdel & Hins)%bind_Some.
  assert (exists m1, s1 = set_metadata m1 s /\ forall k v, m1 !! k = Some v
            <-> s_metadata s !! k = Some v /\ k.1 ∉ map id_of staged) as (m1 & -> & Hm1).
  { eapply (chunked_ind _ (fun done s1 => exists m1, s1 = set_metadata m1 s /\ forall k v,
      m1 !! k = Some v <-> s_metadata s !! k = Some v /\ k.1 ∉ map id_of done)); [| |exact Hdel].
    - exists (s_metadata s). split; [by destruct s|]. cbn. intros k v. split; [|tauto].
      intros ?. split; [done|]. apply not_elem_of_nil.
    - intros done chunk s1' s2 (l & -> & Hl) [= <-]. eexists. split; [done|]. intros k v. cbn.
      rewrite map_lookup_filter_Some, Hl, map_app, not_elem_of_app. cbn. tauto. }
  assert (s' = set_metadata (insert_all (flatten_metadata staged) m1) s /\
    forall r, r ∈ flatten_metadata staged -> is_Some (s_concepts s !! r.1.1)) as [-> Hc].
  { eapply (chunked_ind _ (fun done s1 => s1 = set_metadata (insert_all done m1) s /\
      forall r, r ∈ done -> is_Some (s_concepts s !! r.1.1))); [| |exact Hins].
    - split; [done|by intros ? ?%not_elem_of_nil].
    - intros done chunk s1' s2 [-> Hd] Hc. run_ok. apply insert_keyed_only in Hc as (-> & _ & Hr).
      split; [cbn; by rewrite insert_all_app|]. intros r [?|Hx]%elem_of_app; [auto|]. by apply Hr in Hx as []. }
  eexists. split; [done|]. split_and!.
  - intros Hs. apply (refers_insert_all fst); [|done]. intros k v [Hk _]%Hm1. by eapply Hs.
  - intros i k v Hi [Hin|[Hm _]]%insert_all_inv; [done|]. by apply Hm1 in Hm as [].
  - intros r Hr. apply insert_all_is_Some. right. apply list_elem_of_fmap. by exists r.
  - intros i k Hi. rewrite insert_all_ne.
    + destruct (m1 !! (i, k)) as [v|] eqn:E; [by apply Hm1 in E as [-> _]|].
      destruct (s_metadata s !! (i, k)) as [v|] eqn:E'; [|done].
      assert (m1 !! (i, k) = Some v) by (by apply Hm1). congruence.
    + intros (r & Hr & (e & k' & v' & He & -> & _)%flatten_metadata_elem)%list_elem_of_fmap. apply Hi.
      injection Hr as -> _. apply list_elem_of_fmap. by exists e.
Qed.

(** [packages::project]: the typed rows of the staged concepts on top of the
    stored ones, up to visibilities. *)
Record packaged (staged : list Concept) (s s' : Store) : Prop := {
  pk_concepts : s_concepts s' = s_concepts s;
  pk_sources : s_sources s' = s_sources s;
  pk_embeddings : s_embeddings s' = s_embeddings s;
  pk_provenance : s_provenance s' = s_provenance s;
  pk_log : s_log s' = s_log s;
  pk_skills : s_skills s' = insert_all (typed_skills staged) (s_skills s);
  pk_scripts id : x_package <$> s_scripts s' !! id
                  = x_package <$> insert_all (typed_scripts sha256 staged) (s_scripts s) !! id;
  pk_references id : d_package <$> s_references s' !! id
                     = d_package <$> insert_all (typed_references sha256 staged) (s_references s) !! id;
  pk_metadata k : k.2 <> lit "visibility" -> s_metadata s' !! k = s_metadata s !! k;
  pk_keys k : is_Some (s_metadata s' !! k) <-> is_Some (s_metadata s !! k);
  pk_visibility id own : s_metadata s !! (id, lit "visibility") = Some own ->
    exists v, s_metadata s' !! (id, lit "visibility") = Some v /\ decided (typed_skills staged).*1 s' id own v;
  pk_typed r : r ∈ (typed_skills staged).*1 \/ r ∈ (typed_scripts sha256 staged).*1
               \/ r ∈ (typed_references sha256 staged).*1 -> is_Some (s_concepts s !! r);
  pk_links : refers fst s (s_links s) -> refers fst s (s_links s')
}.

Lemma project_packages_spec staged (s s' : Store) :
  project_packages sha256 jsonb_text staged s = Projected s' -> packaged staged s s'.
Proof.
  unfold project_packages. intros Hrun. run_ok.
  repeat match goal with
  | H : upsert_skills _ _ _ = _ |- _ => apply upsert_skills_only in H as [-> Hk]
  | H : upsert_scripts _ _ _ = _ |- _ => apply upsert_scripts_only in H as [-> Hx]
  | H : upsert_references _ _ = _ |- _ => apply upsert_references_only in H as [-> Hd]
  end.
  match goal with H : insert_links _ _ (propagate_visibility ?ids ?st) = _ |- _ =>
    pose proof (propagate_visibility_ok ids st) as P; pose proof (propagate_visibility_decides ids st) as PV;
    set (s1 := propagate_visibility ids st) in * end.
  match goal with H : insert_links _ _ _ = _ |- _ => apply insert_links_only in H as (-> & He & _); [|done] end.
  match goal with |- packaged _ _ (relate_body_links ?ids ?st) =>
    destruct (relate_body_links_only ids st) as (l & -> & Hl) end.
  destruct P as [P1 P2 P3 P4 P5 P6 P7 P8 P9 P10 P11]. cbn in *. split; cbn; try done.
  - intros i own Hown. apply (PV i own); [|exact Hown]. intros p Hp. apply insert_all_is_Some. by right.
  - intros r [(q & -> & Hq)%list_elem_of_fmap|[(q & -> & Hq)%list_elem_of_fmap|(q & -> & Hq)%list_elem_of_fmap]]; auto.
  - intros Hs k v Hlk. specialize (Hl k). rewrite Hlk in Hl.
    destruct (insert_all _ (s_links s1) !! k) as [w|] eqn:E; [|done].
    assert (refers fst s (insert_all (map (fun e => (e_source e, e_ordinal e, typed_link_row s1 e)) x2) (s_links s1)))
      as Href.
    { apply (refers_insert_all fst); [by rewrite P2|]. intros r (e & -> & Hin)%list_elem_of_fmap.
      cbn. rewrite <- P1. by apply He. }
    by apply (Href k w).
Qed.

Lemma project_provenance_only staged (s s' : Store) :
  project_provenance jsonb_text staged s = Projected s' ->
  exists rows m, omap_out provenance_of staged = Ret rows /\ s' = set_provenance m s /\
    (refers id s (s_provenance s) -> refers id s m) /\
    (forall id r, id ∈ map id_of staged -> m !! id = Some r <-> (id, r) ∈ rows) /\
    (forall id, id ∉ map id_of staged -> m !! id = s_provenance s !! id \/ id ∈ rows.*1).
Proof.
  unfold project_provenance. intros Hrun. run_ok.
  match goal with H : omap_out _ _ = Ret ?r |- _ => rename H into Hrows; rename r into rows end.
  match goal with H1 : chunked _ staged s = Some ?st |- _ =>
    assert (exists m1, st = set_provenance m1 s /\ forall k v, m1 !! k = Some v
            <-> s_provenance s !! k = Some v /\ k ∉ map id_of staged) as (m1 & -> & Hm1) end.
  { match goal with H1 : chunked _ staged s = Some ?st |- _ =>
    eapply (chunked_ind _ (fun done s1 => exists m1, s1 = set_provenance m1 s /\ forall k v,
      m1 !! k = Some v <-> s_provenance s !! k = Some v /\ k ∉ map id_of done)); [| |exact H1] end.
    - exists (s_provenance s). split; [by destruct s|]. cbn. intros k v. split; [|tauto].
      intros ?. split; [done|]. apply not_elem_of_nil.
    - intros done chunk s1' s2 (l & -> & Hl) [= <-]. eexists. split; [done|]. intros k v. cbn.
      rewrite map_lookup_filter_Some, Hl, map_app, not_elem_of_app. cbn. tauto. }
  match goal with H1 : chunked _ rows _ = Some ?st |- _ =>
    assert (st = set_provenance (insert_all rows m1) s /\
      (forall r, r ∈ rows -> is_Some (s_concepts s !! r.1)) /\ NoDup rows.*1) as (-> & Hc & Hnd) end.
  { match goal with H1 : chunked _ rows _ = Some ?st |- _ =>
    eapply (chunked_ind _ (fun done s1 => s1 = set_provenance (insert_all done m1) s /\
      (forall r, r ∈ done -> is_Some (s_concepts s !! r.1)) /\ NoDup done.*1)); [| |exact H1] end.
    - split_and!; [done|by intros ? ?%not_elem_of_nil|constructor].
    - intros done chunk s1' s2 (-> & Hd & Hn) Hc. run_ok.
      match goal with H : _ && _ = true |- _ => apply andb_true_iff in H as [Hc1%bool_decide_eq_true Hc2] end.
      rewrite forallb_forall in Hc2.
      assert (forall r, r ∈ chunk -> is_Some (s_concepts s !! r.1) /\ insert_all done m1 !! r.1 = None) as Hc3.
      { intros r Hr%list_elem_of_In. specialize (Hc2 r Hr). rewrite !andb_true_iff in Hc2.
        destruct Hc2 as [[Q1%bool_decide_eq_true Q2%bool_decide_eq_true] _]. done. }
      split_and!.
      + cbn. by rewrite insert_all_app.
      + intros r [?|?]%elem_of_app; [auto|]. by apply Hc3.
      + rewrite fmap_app. apply NoDup_app. split_and!; [done| |done].
        intros k Hk (r & -> & Hr)%list_elem_of_fmap. apply Hc3 in Hr as [_ Hr].
        assert (is_Some (insert_all done m1 !! r.1)) as [? ?] by (apply insert_all_is_Some; by right). congruence. }
  exists rows, (insert_all rows m1). split_and!; [done|done| | |].
  - intros Hs. apply (refers_insert_all id); [|done]. intros k v [Hk _]%Hm1. by eapply Hs.
  - intros i r Hi. split.
    + intros [?|[Hm _]]%insert_all_inv; [done|]. by apply Hm1 in Hm as [].
    + intros Hin. by apply insert_all_in.
  - intros i Hi. destruct (decide (i ∈ rows.*1)) as [?|Hn]; [by right|left].
    rewrite insert_all_ne by done.
    destruct (m1 !! i) as [v|] eqn:E; [by apply Hm1 in E as [-> _]|].
    destruct (s_provenance s !! i) as [v|] eqn:E'; [|done].
    assert (m1 !! i = Some v) by (by apply Hm1). congruence.
Qed.

Lemma project_sources_only staged (s s' : Store) :
  project_sources staged s = Projected s' ->
  s' = set_sources (insert_all (marshal_sources staged) (s_sources s)) s /\
  forall r, r ∈ marshal_sources staged -> is_Some (s_concepts s !! r.1).
Proof.
  unfold project_sources. intros Hrun%sql_ok. eapply (chunked_ind _ (fun done s1 =>
    s1 = set_sources (insert_all done (s_sources s)) s /\
    forall r, r ∈ done -> is_Some (s_concepts s !! r.1))); [| |exact Hrun].
  - split; [by destruct s|by intros ? ?%not_elem_of_nil].
  - intros done chunk s1 s2 [-> Hd] (-> & _ & Hr)%upsert_typed_only.
    split; [cbn; by rewrite insert_all_app|]. intros r [?|?]%elem_of_app; auto.
Qed.

Lemma project_bundle_logs_only read current (s s' : Store) :
  project_bundle_logs read current s = Projected s' -> only set_log s s'.
Proof.
  unfold project_bundle_logs. intros Hrun. run_ok.
  match goal with H : _ = Some s' |- _ => rename H into Hins end.
  assert (only set_log (set_log ∅ s) s') as [l ->]; [|by exists l].
  revert Hins. apply (chunked_keeps _ (only set_log)). intros chunk s1 s2 Hc. run_ok. by eexists.
Qed.

(** [write_projection] on top of the store [d] the deletes leave. *)
Record written (staged : list Concept) (d s' : Store) : Prop := {
  w_rows : exists rows, Forall2 (row_for instant_now) staged rows /\
    (Forall tags_fit (chunks BATCH_SIZE staged) -> rows = map (fun e => (id_of e, concept_row instant_now e)) staged) /\
    s_concepts s' = insert_all rows (s_concepts d);
  w_ok : store_ok d -> store_ok s';
  w_skills : s_skills s' = insert_all (typed_skills staged) (s_skills d);
  w_scripts id : x_package <$> s_scripts s' !! id
    = x_package <$> insert_all (typed_scripts sha256 staged) (s_scripts d) !! id;
  w_references id : d_package <$> s_references s' !! id
    = d_package <$> insert_all (typed_references sha256 staged) (s_references d) !! id;
  w_embeddings : s_embeddings s' = s_embeddings d ∖ list_to_set (map id_of staged);
  w_sources : s_sources s' = insert_all (marshal_sources staged) (s_sources d);
  w_metadata id k v : id ∈ map id_of staged -> k <> lit "visibility" -> s_metadata s' !! (id, k) = Some v ->
    (id, k, v) ∈ flatten_metadata staged;
  w_visibility id v : id ∈ map id_of staged -> s_metadata s' !! (id, lit "visibility") = Some v ->
    exists own, (id, lit "visibility", own) ∈ flatten_metadata staged /\ decided (typed_skills staged).*1 s' id own v;
  w_keys r : r ∈ flatten_metadata staged -> is_Some (s_metadata s' !! r.1);
  w_provenance : exists rows, omap_out provenance_of staged = Ret rows /\
    forall id r, id ∈ map id_of staged -> s_provenance s' !! id = Some r <-> (id, r) ∈ rows;
  w_links : exists s6, s_concepts s' = s_concepts s6 /\ s_links s' = s_links (reresolve_bundle s6)
}.

Lemma refers_same {K V} `{Countable K} (key : K -> str) (s s' : Store) (m : gmap K V) :
  s_concepts s' = s_concepts s -> refers key s m -> refers key s' m.
Proof. intros E Hm k v Hk. rewrite E. by eapply Hm. Qed.

Lemma refers_package {V} (pkg : V -> str) (s s' : Store) (m m' : gmap (list ascii) V) :
  s_concepts s' = s_concepts s -> (forall id, pkg <$> m' !! id = pkg <$> m !! id) ->
  refers id s m -> refers id s' m'.
Proof.
  intros E Hp Hm k v Hk. rewrite E. specialize (Hp k). rewrite Hk in Hp. cbn in Hp.
  destruct (m !! k) as [w|] eqn:Ew; [|done]. by eapply Hm.
Qed.

Lemma reresolve_links_refer (s : Store) :
  refers fst s (s_links s) -> refers fst (reresolve_bundle s) (s_links (reresolve_bundle s)).
Proof. intros Hs k v Hk. cbn in Hk. rewrite lookup_fmap_Some in Hk. destruct Hk as (l & _ & Hk). by eapply Hs. Qed.

Lemma write_projection_spec read current removed staged (s s' : Store) :
  write_projection sha256 instant_now jsonb_text read current removed staged s = Projected s' ->
  written staged (drop_concepts (dead removed staged) s) s'.
Proof.
  unfold write_projection, run_projection_seam. intros Hrun. run_ok.
  match goal with H : delete_reclassified_concepts _ _ = _ |- _ => apply deletes_spec in H as -> end.
  set (d := drop_concepts (dead removed staged) s) in *. clearbody d. clear s.
  match goal with H : upsert_concepts _ _ _ = _ |- _ =>
    rewrite invalidate_synced_only in H; apply upsert_concepts_spec in H as (rows & Hrows & Hexact & -> & Hu) end.
  match goal with H : replace_concept_metadata _ _ _ = _ |- _ =>
    apply replace_metadata_only in H as (md & -> & Hmd & Hmd1 & Hmd2 & _) end.
  match goal with H : project_links _ _ = _ |- _ => apply project_links_only in H as (l5 & -> & Hl5) end.
  match goal with H : project_packages _ _ _ _ = Projected ?x |- _ =>
    apply project_packages_spec in H as P; rename x into s6 end.
  match goal with H : project_provenance _ _ _ = _ |- _ =>
    apply project_provenance_only in H as (pr & pm & Hpr & -> & Hpm & Hpm1 & _) end.
  match goal with H : project_sources _ _ = _ |- _ => apply project_sources_only in H as [-> Hsrc] end.
  match goal with H : project_bundle_logs _ _ _ = _ |- _ => apply project_bundle_logs_only in H as [lg ->] end.
  destruct P as [P1 P2 P3 P4 P5 P6 P7 P8 P9 P10 PV P11 P12]. cbn in * |-.
  assert (forall id, is_Some (s_concepts d !! id) -> is_Some (s_concepts s6 !! id)) as Hgrow.
  { intros i Hi. rewrite P1. apply insert_all_is_Some. by left. }
  split; cbn; try done.
  - by exists rows.
  - intros [A1 A2 A3 A4 A5 A6 A7 A8 A9].
    assert (forall K V (E : EqDecision K) (C : Countable K) (key : K -> str) (m : gmap K V) (s : Store),
              s_concepts s = insert_all rows (s_concepts d) -> refers key d m -> refers key s m) as Hup.
    { intros K V E C key m s Es Hm k v Hk. rewrite Es, <- P1. eapply Hgrow, Hm, Hk. }
    set (b := set_concepts (insert_all rows (s_concepts d)) d).
    assert (s_concepts s6 = s_concepts b) as Pb by exact P1.
    split; cbn.
    + rewrite P1. by apply Hu.
    + intros k v Hk. assert (is_Some (md !! k)) as [w Hw] by (apply P10; by exists v).
      apply (refers_same fst b s6 md Pb) with (k := k) (v := w); [apply Hmd; by apply Hup|done].
    + assert (refers fst s6 (s_links s6)) as Hl6.
      { apply (refers_same fst b s6 _ Pb), P12, Hl5. by apply Hup. }
      intros k v Hk. apply lookup_fmap_Some in Hk as (l & _ & Hk). by eapply Hl6.
    + rewrite P6. apply (refers_same id b s6 _ Pb), (refers_insert_all id); [by apply Hup|].
      intros r Hr. apply (P11 r.1). left. by apply list_elem_of_fmap_2.
    + apply (refers_package x_package b s6 _ _ Pb P7), (refers_insert_all id); [by apply Hup|].
      intros r Hr. apply (P11 r.1). right. left. by apply list_elem_of_fmap_2.
    + apply (refers_package d_package b s6 _ _ Pb P8), (refers_insert_all id); [by apply Hup|].
      intros r Hr. apply (P11 r.1). right. right. by apply list_elem_of_fmap_2.
    + rewrite P2. apply (refers_same id b s6 _ Pb), (refers_insert_all id); [by apply Hup|].
      intros r Hr. rewrite <- Pb. by apply Hsrc.
    + rewrite P3. intros i [Hi _]%elem_of_difference. by apply Hgrow, A8.
    + apply Hpm. intros k v Hk. rewrite P4 in Hk. by eapply Hgrow, A9.
  - by rewrite P2.
  - intros i k v Hi Hk Hv. rewrite P9 in Hv by done. by apply Hmd1.
  - intros i v Hi Hv. assert (is_Some (md !! (i, lit "visibility"))) as [own Hown] by (apply P10; by exists v).
    destruct (PV _ _ Hown) as (w & Hw & Hd). exists own. split; [by apply Hmd1|].
    assert (v = w) as -> by congruence. exact Hd.
  - intros r Hr. by apply P10, Hmd2.
  - by exists pr.
  - by exists s6.
Qed.

End write.
