(* ===== verification/ProjectionProps.v ===== *)
(** * A sync leaves the catalog in the state of the snapshot

    What [Projection.sync_projection] guarantees: the stored projection of
    every live file, the integrity of the store, the link graph, and that the
    concept set the lifecycle records is the one the projection stores. *)
From stdpp Require Import prelude strings gmap list sorting.
From Stdlib Require Import Ascii ZArith Lia.
From S2P Require Import Prelude Str ParserError Serde OkfPath Frontmatter Links Concept Package BTree Discover Plan SyncDelta CatalogError Security Catalog Staging Outbox Relationships Lifecycle Provenance Projection ProjectionSteps.

Section staged_entries.
Context `{S : Serde} `{H : Host} `{G : !StagingHost S H}.
Context (events : str -> list Event) (read_bytes : str -> result str CatalogError)
  (limits : ParserLimits) (current : list FileMetadata).

Abbreviation Concept := (StagedConcept (G := G)).
Abbreviation index := (snapshot_index current).

(** What discovery hands to a sync: UTF-8 paths, normal ones for documents
    and manifests, each with the class of its path. *)
Definition entry_ok (m : FileMetadata) : Prop :=
  utf8_valid (path m) = true /\
  classify_path index (path m) = Some (class m) /\
  (is_resource (class m) = false -> class m <> Reserved -> concept_path (path m)).

(** The payload of a staged file follows its class. *)
Definition payload_for (m : FileMetadata) (e : Concept) : Prop :=
  match class m with
  | OkfDocument => st_typed e = None
  | SkillManifest => exists p, st_typed e = Some (PSkill p)
  | SkillScript => exists p root, st_typed e = Some (PScript p) /\
      owner_of index (path m) = Some root /\ sc_package_concept_id p = skill_concept_id_of root
  | SkillReference | SkillAsset => exists p root, st_typed e = Some (PReference p) /\
      owner_of index (path m) = Some root /\ rf_package_concept_id p = skill_concept_id_of root
  | Reserved => False
  end.

Definition staged_from (m : FileMetadata) (e : Concept) : Prop :=
  st_file_hash e = hash m /\ pc_path (st_concept e) = path m /\
  pc_id (st_concept e) = class_concept_id (class m) (path m) /\ payload_for m e.

Lemma entry_text m : entry_ok m -> text_of m = path m.
Proof. intros (Hu & _). by apply lossy_valid. Qed.

Lemma stage_manifest_from bytes m modified members keep e f :
  entry_ok m -> class m = SkillManifest ->
  stage_manifest events bytes (path m) (hash m) modified members limits keep = Ok (e, f) ->
  staged_from m e.
Proof.
  intros (Hu & _ & Hc) Hcl. rewrite Hcl in Hc. specialize (Hc eq_refl ltac:(done)).
  unfold stage_manifest. intros (c & Hp & He)%rbind_ok. apply Ok_inj in He. injection He as <- _.
  unfold parse_skill_manifest in Hp. apply rbind_ok in Hp as (q & Hn & Hp).
  rewrite (normalize_concept_path (path m)) in Hn by done. apply Ok_inj in Hn as <-.
  destruct (_ <? _); [done|]. destruct (negb _); [done|].
  apply rbind_ok in Hp as ([yaml body] & _ & Hp). apply rbind_ok in Hp as (fm & _ & Hp).
  apply rbind_ok in Hp as (name & _ & Hp). apply rbind_ok in Hp as (d & _ & Hp). apply Ok_inj in Hp as <-.
  unfold staged_from, payload_for, class_concept_id. rewrite Hcl. cbn. split_and!; try done. by eexists.
Qed.

Lemma parse_concept_from bytes m modified raw c :
  entry_ok m -> class m = OkfDocument ->
  parse_concept events bytes (path m) limits = Ok c ->
  staged_from m {| st_concept := c; st_file_hash := hash m; st_modified_at_epoch := modified;
                   st_raw_content := raw; st_typed := None |}.
Proof.
  intros (Hu & _ & Hc) Hcl. rewrite Hcl in Hc. specialize (Hc eq_refl ltac:(done)).
  intros (fm & body & Hn & _ & _ & _ & _ & Hid & _)%parse_concept_ok.
  rewrite (normalize_concept_path (path m)) in Hn by done. apply Ok_inj in Hn.
  unfold staged_from, payload_for, class_concept_id. rewrite Hcl. cbn. rewrite Hid, <- Hn. done.
Qed.

Lemma stage_resource_from st m bytes vis st' :
  entry_ok m -> is_resource (class m) = true ->
  stage_resource events st m bytes index vis = Ok st' ->
  (st' = push_skipped st (path m)) \/ exists e, st' = push_staged st e /\ staged_from m e.
Proof.
  intros (Hu & _) Hr. unfold stage_resource, to_str. rewrite Hu. cbn [ok_or rbind].
  destruct (owner_of index (path m)) as [root|] eqn:Ho; [|done].
  destruct (package_relative index (path m)) as [q|]; [|done]. cbn [rbind].
  case_decide as Hc.
  - destruct (stage_script _ _ _) as [c|e] eqn:Es; [|intros [_ ->]%malformed_ok; by left].
    intros [= <-]. right. exists c. split; [done|].
    unfold stage_script in Es. destruct (storable_text bytes); [|done]. cbn [ok_or rbind] in Es.
    destruct (infer_language _ _). apply Ok_inj in Es as <-.
    unfold staged_from, payload_for, class_concept_id. rewrite Hc. cbn. split_and!; try done. eauto.
  - intros H'. apply Ok_inj in H' as <-. right. eexists. split; [done|].
    unfold stage_reference. destruct (media_type_for _ _).
    match goal with |- context [let '(_, _) := ?t in _] => destruct t end.
    unfold staged_from, payload_for, class_concept_id. rewrite Hr.
    destruct (class m); try done; cbn; (split_and!; try done; by eauto).
Qed.

(** The files a pass has staged, in order, and those it has skipped. *)
Record covers (done : list FileMetadata) (st : Staging) : Prop := {
  cv_files : exists ms, ms `sublist_of` done /\ Forall2 staged_from ms (staged st) /\
    forall m, m ∈ done -> class m <> Reserved -> m ∈ ms \/ path m ∈ skipped st
}.

Lemma covers_nil st : staged st = [] -> covers [] st.
Proof. intros E. split. exists []. rewrite E. split_and!; [constructor|constructor|by intros ? ?%not_elem_of_nil]. Qed.

Lemma covers_staged done st m e : covers done st -> staged_from m e -> covers (done ++ [m]) (push_staged st e).
Proof.
  intros [(ms & Hs & Hf & Hc)] He. split. exists (ms ++ [m]). cbn. split_and!.
  - by apply sublist_app.
  - by apply Forall2_app; [|constructor].
  - intros m' [Hm| ->%list_elem_of_singleton]%elem_of_app Hr.
    + destruct (Hc m' Hm Hr); [left; apply elem_of_app; by left|by right].
    + left. apply elem_of_app. right. by left.
Qed.

Lemma covers_skipped done st m : covers done st -> covers (done ++ [m]) (push_skipped st (path m)).
Proof.
  intros [(ms & Hs & Hf & Hc)]. split. exists ms. cbn. split_and!; [|done|].
  - by apply sublist_inserts_r.
  - intros m' [Hm| ->%list_elem_of_singleton]%elem_of_app Hr.
    + destruct (Hc m' Hm Hr); [by left|right; apply elem_of_app; by left].
    + right. apply elem_of_app. right. by left.
Qed.

Lemma covers_reserved done st m : covers done st -> class m = Reserved -> covers (done ++ [m]) st.
Proof.
  intros [(ms & Hs & Hf & Hc)] Hr. split. exists ms. split_and!; [by apply sublist_inserts_r|done|].
  intros m' [Hm| ->%list_elem_of_singleton]%elem_of_app Hn; [by apply Hc|done].
Qed.

Lemma manifest_step_covers done st m st' :
  entry_ok m -> class m = SkillManifest -> covers done st.1.1 ->
  manifest_step events read_bytes limits current st m = Ok st' -> covers (done ++ [m]) st'.1.1.
Proof.
  intros Hm Hcl Hc. destruct st as [[st vis] roots]. unfold manifest_step. intros (bytes & _ & Hrun)%rbind_ok.
  destruct (stage_manifest _ _ _ _ _ _ _ _) as [[e f]|err] eqn:Es.
  - apply Ok_inj in Hrun as <-. cbn. apply covers_staged; [done|]. by eapply stage_manifest_from.
  - apply rbind_ok in Hrun as (st2 & [_ ->]%malformed_ok & Hrun). apply Ok_inj in Hrun as <-. cbn.
    by apply covers_skipped.
Qed.

Lemma other_step_covers vis roots done st m st' :
  entry_ok m -> class m <> SkillManifest -> covers done st ->
  other_step events read_bytes limits current vis roots st m = Ok st' -> covers (done ++ [m]) st'.
Proof.
  intros Hm Hcl Hc. unfold other_step. destruct (skipped_with_manifest _ _ _).
  { intros Hrun. apply Ok_inj in Hrun as <-. by apply covers_skipped. }
  intros (bytes & _ & Hrun)%rbind_ok.
  assert (is_resource (class m) = true ->
    stage_resource events st m bytes index vis = Ok st' -> covers (done ++ [m]) st') as Hres.
  { intros Hr Hrun'. destruct (stage_resource_from _ _ _ _ _ Hm Hr Hrun') as [->|(e & -> & He)];
      [by apply covers_skipped|by apply covers_staged]. }
  destruct (class m) eqn:Ec; try done; try (by apply Hres).
  - destruct (parse_concept _ _ _ _) as [c|err] eqn:Ep.
    + apply Ok_inj in Hrun as <-. apply covers_staged; [done|]. by eapply parse_concept_from.
    + apply malformed_ok in Hrun as [_ ->]. by apply covers_skipped.
  - apply Ok_inj in Hrun as <-. by apply covers_reserved.
Qed.

(** A pass stages its files in order, each as its class says; what it does
    not stage it has skipped. *)
Lemma stage_changed_covers delta strict keep staged skipped :
  Forall entry_ok (to_parse delta) ->
  stage_changed_concepts events read_bytes limits current delta strict keep = Ok (staged, skipped) ->
  exists ms, ms ⊆+ to_parse delta /\ Forall2 staged_from ms staged /\
    forall m, m ∈ to_parse delta -> class m <> Reserved -> m ∈ ms \/ path m ∈ skipped.
Proof.
  rewrite Forall_forall. intros Hok. unfold stage_changed_concepts.
  set (ms1 := List.filter is_manifest (to_parse delta)).
  set (ms2 := List.filter (fun e => negb (is_manifest e)) (to_parse delta)).
  intros ([[st vis] roots] & Hm & (final & Ho & Hrun)%rbind_ok)%rbind_ok. apply Ok_inj in Hrun.
  injection Hrun as <- <-.
  assert (ms1 ++ ms2 ≡ₚ to_parse delta) as Hperm.
  { unfold ms1, ms2. clear. induction (to_parse delta) as [|m l IH]; [done|]. cbn.
    destruct (is_manifest m); cbn [negb app]; [by apply perm_skip|].
    etrans; [symmetry; apply Permutation_middle|]. by apply perm_skip. }
  assert (covers ms1 st) as H1.
  { apply (rfold_inv _ (fun d s => covers d s.1.1) ms1 _ _) in Hm; [done|by apply covers_nil|].
    intros pre m post t t' Hsplit. assert (m ∈ ms1) as Hin by (rewrite Hsplit; apply elem_of_app; right; by left).
    apply list_elem_of_In, filter_In in Hin as [Hin%list_elem_of_In Hman%is_manifest_class].
    by eapply manifest_step_covers; [apply Hok|]. }
  assert (covers (ms1 ++ ms2) final) as [(ms & Hsub & Hf & Hc)].
  { apply (rfold_inv _ (fun d s => covers (ms1 ++ d) s) ms2 _ _) in Ho; [done|by rewrite app_nil_r|].
    intros pre m post t t' Hsplit. assert (m ∈ ms2) as Hin by (rewrite Hsplit; apply elem_of_app; right; by left).
    apply list_elem_of_In, filter_In in Hin as [Hin%list_elem_of_In Hman]. rewrite app_assoc.
    eapply other_step_covers; [by apply Hok|]. intros E. unfold is_manifest in Hman. by rewrite E in Hman. }
  exists ms. split_and!; [|done|].
  - rewrite <- Hperm. by apply sublist_submseteq.
  - intros m Hm'. apply Hc. by rewrite Hperm.
Qed.

End staged_entries.

(** ** The snapshot *)

Section snapshot.
Context `{S : Serde} `{H : Host} `{G : !StagingHost S H}.
Context (current : list FileMetadata).

Abbreviation index := (snapshot_index current).

(** A snapshot a scan can produce. *)
Record snapshot_ok : Prop := {
  sn_entries : Forall (entry_ok current) current;
  sn_paths : NoDup (map path current)
}.

Context (Hsn : snapshot_ok).

Lemma live_elem m : m ∈ live current <-> m ∈ current /\ is_reserved_path (text_of m) = false.
Proof. unfold live. by rewrite list_elem_of_In, filter_In, negb_true_iff, <- list_elem_of_In. Qed.

Lemma snapshot_entry m : m ∈ current -> entry_ok current m.
Proof. intros Hm. pose proof (sn_entries Hsn) as Hall. rewrite Forall_forall in Hall. auto. Qed.

Lemma entry_path m : m ∈ current -> text_of m = path m.
Proof. intros Hm. by apply (entry_text current), snapshot_entry. Qed.

Lemma NoDup_map_inj {A B} (f : A -> B) l x y : NoDup (map f l) -> x ∈ l -> y ∈ l -> f x = f y -> x = y.
Proof.
  induction l as [|a l IH]; cbn [map]; [by intros _ ?%not_elem_of_nil|].
  intros [Ha Hl]%NoDup_cons [->|Hx]%elem_of_cons [->|Hy]%elem_of_cons E; [done| | |by apply IH].
  - destruct Ha. rewrite E. apply list_elem_of_fmap. by exists y.
  - destruct Ha. rewrite <- E. apply list_elem_of_fmap. by exists x.
Qed.

Lemma path_inj m m' : m ∈ current -> m' ∈ current -> path m = path m' -> m = m'.
Proof. apply NoDup_map_inj, Hsn. Qed.

Lemma base_name_split p : base_name p = (split_parent p).2.
Proof. unfold base_name, split_parent. by destruct (rsplit_once slash p) as [[]|]. Qed.

Lemma class_reserved p : classify_path index p = Some Reserved -> is_reserved_path p = true.
Proof.
  unfold classify_path, is_reserved_path. rewrite base_name_split.
  destruct (_ ≫= _) as [c|] eqn:E.
  - intros [= ->]. apply bind_Some in E as (root & _ & Hc%resource_class_is_resource). done.
  - case_decide as Hn; [intros _; by apply bool_decide_eq_true|]. by repeat case_decide; try case_match.
Qed.

Lemma live_class m : m ∈ live current -> class m <> Reserved.
Proof.
  intros [Hm Hr]%live_elem E. destruct (snapshot_entry m Hm) as (_ & Hc & _).
  rewrite E in Hc. apply class_reserved in Hc. rewrite entry_path in Hr by done. congruence.
Qed.

(** A resource and its path with [.md] are siblings of one class. *)
Lemma resource_sibling p c :
  classify_path index p = Some c -> is_resource c = true -> classify_path index (p ++ dot_md) = Some c.
Proof.
  intros Hc Hr. apply (conj Hc), classify_resource_iff in Hr as (root & dir & file & Hn & Hd & Hp).
  apply classify_resource_iff. exists root, dir, (file ++ dot_md). split_and!; [|done|].
  - replace (split_parent (p ++ dot_md)).1 with (split_parent p).1; [done|].
    destruct (split_parent_cases p) as [[Hs E]|(d & n & -> & Hs & E)]; rewrite E.
    + destruct (split_parent_cases (p ++ dot_md)) as [[_ ->]|(d' & n' & Hx & _ & _)]; [done|].
      assert (slash ∈ p ++ dot_md) as Hin by (rewrite Hx; set_solver).
      apply elem_of_app in Hin as [?|Hin]; [done|]. exfalso. revert Hin. by_decide.
    + rewrite <- app_assoc. cbn [app]. rewrite split_parent_app; [done|].
      rewrite elem_of_app. intros [?|Hin]; [done|]. revert Hin. by_decide.
  - by rewrite Hp, <- !app_assoc.
Qed.

(** The ids of a snapshot are apart, whatever the classes. *)
Lemma ids_apart m m' :
  m ∈ current -> m' ∈ current -> class m <> Reserved -> class m' <> Reserved ->
  class_concept_id (class m) (path m) = class_concept_id (class m') (path m') -> m = m'.
Proof.
  intros Hm Hm' Hr Hr' E. apply path_inj; [done..|].
  destruct (snapshot_entry m Hm) as (_ & Hc & Hd), (snapshot_entry m' Hm') as (_ & Hc' & Hd').
  unfold class_concept_id in E.
  assert (forall (a b : FileMetadata), classify_path index (path a) = Some (class a) ->
    classify_path index (path b) = Some (class b) -> is_resource (class a) = true ->
    is_resource (class b) = false -> concept_path (path b) -> path a = concept_id (path b) -> False) as Hmix.
  { intros a b Ha Hb Ra Rb Pb Eab. pose proof (resource_sibling _ _ Ha Ra) as Hs.
    rewrite Eab, (concept_id_md _ Pb), Hb in Hs. injection Hs as Hs. congruence. }
  destruct (is_resource (class m)) eqn:R1, (is_resource (class m')) eqn:R2; cbn in E.
  - done.
  - destruct (Hmix m m'); auto.
  - destruct (Hmix m' m); auto.
  - apply concept_id_injective; auto.
Qed.

Lemma sublist_bool_filter {A} (f : A -> bool) l : List.filter f l `sublist_of` l.
Proof. induction l as [|x l IH]; cbn; [constructor|]. by destruct (f x); constructor. Qed.

(** What a sync schedules. *)
Lemma schedule_parts pr :
  let delta := classify_changes pr index current in
  let out := invalidate_packages (to_parse delta) (removed_paths delta) current (owners pr) in
  (forall m, m ∈ out -> m ∈ live current) /\
  (forall m, m ∈ live current -> settled pr index m = false -> m ∈ out) /\
  NoDup (map path out).
Proof.
  cbn zeta. destruct (classify_changes_parts pr index current) as (-> & Hrem & _).
  set (removed := removed_paths _). unfold invalidate_packages.
  set (scheduled := bs_collect _).
  assert (forall t, t ∈ scheduled <-> t ∈ map text_of (List.filter (fun m => negb (settled pr index m)) (live current)))
    as Hsch by (intros; apply elem_of_bs_collect).
  set (touched := concat _).
  match goal with |- context [?a ++ List.filter ?f current] => set (parse := a) in *; set (keep := f) end.
  assert (forall m, m ∈ parse -> m ∈ live current) as Hparse.
  { intros m Hm. apply list_elem_of_In, filter_In in Hm as [Hm _]. by apply list_elem_of_In. }
  assert (forall m, m ∈ List.filter keep current -> m ∈ live current /\ text_of m ∉ scheduled) as Hkeep.
  { intros m Hm. apply list_elem_of_In, filter_In in Hm as [Hm%list_elem_of_In Hk]. unfold keep in Hk.
    apply andb_true_iff in Hk as [Hman%is_manifest_class Hk]. fold (text_of m) in Hk.
    rewrite entry_path in Hk by done. rewrite live_elem, entry_path by done.
    destruct (manifest_directory (path m)) as [r|] eqn:Ed; [|done].
    apply andb_true_iff in Hk as [_ Hk%negb_true_iff%bool_decide_eq_false]. split; [split; [done|]|done].
    unfold is_reserved_path. rewrite base_name_split. apply bool_decide_eq_false.
    apply manifest_directory_Some in Ed as Hs. rewrite Hs. by_decide. }
  split_and!.
  - intros m [Hm|Hm]%elem_of_app; [by apply Hparse|by apply Hkeep].
  - intros m Hm Hs. apply elem_of_app. left. apply list_elem_of_In, filter_In. rewrite Hs.
    split; [by apply list_elem_of_In|done].
  - rewrite map_app. apply NoDup_app. split_and!.
    + eapply sublist_NoDup; [apply (sn_paths Hsn)|]. apply (fmap_sublist path).
      etrans; apply sublist_bool_filter.
    + intros t (m & -> & Hm)%list_elem_of_fmap (m' & E & Hm')%list_elem_of_fmap.
      apply Hkeep in Hm' as [Hl' Hn]. apply Hn, Hsch, list_elem_of_fmap. exists m. split; [|done].
      apply Hparse, live_elem in Hm as [Hm _]. apply live_elem in Hl' as [Hm' _].
      rewrite !entry_path by done. done.
    + eapply sublist_NoDup; [apply (sn_paths Hsn)|]. apply (fmap_sublist path), sublist_bool_filter.
Qed.

End snapshot.

(** ** The stored projection after a sync *)

Section after.
Context `{S : Serde} `{H : Host} `{G : !StagingHost S H} `{R : !RowHost S}.
Context (sha256 : str -> str) (instant_now : Z) (jsonb_text : str -> bool).
Context (events : str -> list Event) (read_bytes : str -> result str CatalogError)
  (limits : ParserLimits) (current : list FileMetadata).

Abbreviation Store := (Store (G := G) (R := R)).
Abbreviation Concept := (StagedConcept (G := G)).
Abbreviation index := (snapshot_index current).
Abbreviation id_of := (fun e : Concept => pc_id (st_concept e)).
Abbreviation sync := (sync_projection sha256 instant_now jsonb_text events read_bytes limits current).

(** No file of the snapshot is a script where its stored row, under the same
    id, is a reference, or the other way round. *)
Definition kinds_stable (s : Store) : Prop :=
  forall m, m ∈ live current ->
    (class m = SkillScript -> s_references s !! path m = None) /\
    (class m = SkillReference \/ class m = SkillAsset -> s_scripts s !! path m = None).

(** The parts of a successful sync. *)
Lemma sync_parts strict keep policy version (s s' : Store) out :
  snapshot_ok current ->
  sync strict keep policy version s = Projected (out, s') ->
  let pr := load_stored_projection s in
  let d := drop_concepts (dead (so_removed_paths out) (so_staged out)) s in
  written sha256 instant_now (so_staged out) d s' /\
  so_projection out = pr /\
  so_removed_paths out = filter (fun p => p ∉ map text_of (live current)) (stored_hashes s).*1 /\
  so_removed_ids out = load_removed_concept_ids (so_removed_paths out) s
                         ++ omap (reclassified_id pr) (so_staged out) /\
  exists ms, Forall2 (staged_from current) ms (so_staged out) /\
    (forall m, m ∈ ms -> m ∈ live current) /\ NoDup (map path ms) /\
    (forall m, m ∈ live current -> settled pr index m = false -> m ∈ ms \/ path m ∈ so_skipped out).
Proof.
  intros Hsn. unfold sync_projection. intros Hrun.
  destruct (classify_changes_parts (load_stored_projection s) index current) as (_ & Hrem & _).
  pose proof (schedule_parts current Hsn (load_stored_projection s)) as (Hs1 & Hs2 & Hs3).
  set (pr := load_stored_projection s) in *. run_ok.
  match goal with H : _ = Ok ?x |- _ => destruct x as [staged skipped]; rename H into Hst end.
  run_ok.
  match goal with H : write_projection _ _ _ _ _ _ _ _ = _ |- _ => apply write_projection_spec in H as W end.
  cbn in W |- *. split; [exact W|]. split; [done|]. split; [exact Hrem|]. split; [done|].
  apply stage_changed_covers in Hst as (ms & Hsub & Hf & Hc).
  - cbn in Hsub, Hc. exists ms. split_and!.
    + done.
    + intros m Hm. apply Hs1. by eapply elem_of_submseteq.
    + apply submseteq_Permutation in Hsub as [k Hk].
      assert (NoDup (map path (ms ++ k))) as Hn by (rewrite <- Hk; exact Hs3).
      rewrite map_app in Hn. by apply NoDup_app in Hn as [? _].
    + intros m Hm Hset. apply Hc; [by apply Hs2|]. by eapply live_class.
  - apply Forall_forall. cbn. intros m Hm%Hs1. apply live_elem in Hm as [Hm _]. by eapply snapshot_entry.
Qed.

(** A successful sync, taken apart. *)
Record synced (s s' : Store) (removed : list str) (staged : list Concept) (skipped : list str)
    (ms : list FileMetadata) : Prop := {
  sy_ok : store_ok s;
  sy_written : written sha256 instant_now staged (drop_concepts (dead removed staged) s) s';
  sy_removed p : p ∈ removed <-> p ∈ (stored_hashes s).*1 /\ p ∉ map text_of (live current);
  sy_files : Forall2 (staged_from current) ms staged;
  sy_live m : m ∈ ms -> m ∈ live current;
  sy_paths : NoDup (map path ms);
  sy_covered m : m ∈ live current -> settled (load_stored_projection s) index m = false ->
    m ∈ ms \/ path m ∈ skipped
}.

Definition cid (m : FileMetadata) : str := class_concept_id (class m) (path m).

Section one.
Context (Hsn : snapshot_ok current) (s s' : Store) (removed : list str) (staged : list Concept)
  (skipped : list str) (ms : list FileMetadata) (Y : synced s s' removed staged skipped ms).

Abbreviation d := (drop_concepts (dead removed staged) s).

Lemma staged_ids : map id_of staged = map cid ms.
Proof.
  pose proof (sy_files _ _ _ _ _ _ Y) as F. clear -F.
  induction F as [|m e l k (_ & _ & Hid & _) _ IH]; [done|]. cbn [map]. f_equal; [exact Hid|exact IH].
Qed.

Lemma ms_current m : m ∈ ms -> m ∈ current /\ class m <> Reserved.
Proof.
  intros Hm%(sy_live _ _ _ _ _ _ Y). split; [by apply live_elem in Hm as []|]. by eapply live_class.
Qed.

Lemma cid_inj m m' : m ∈ live current -> m' ∈ live current -> cid m = cid m' -> m = m'.
Proof.
  intros Hm Hm'. apply (ids_apart current Hsn);
    (by eapply live_class) || (by apply live_elem in Hm as []) || (by apply live_elem in Hm' as []).
Qed.

Lemma staged_ids_apart : NoDup (map id_of staged).
Proof.
  rewrite staged_ids. apply (NoDup_fmap_2_strong cid).
  - intros m m' Hm Hm'. by apply cid_inj; apply (sy_live _ _ _ _ _ _ Y).
  - eapply NoDup_fmap_1, (sy_paths _ _ _ _ _ _ Y).
Qed.

Lemma staged_file e : e ∈ staged -> exists m, m ∈ ms /\ staged_from current m e.
Proof. intros He. destruct (Forall2_elem_r _ _ _ _ (sy_files _ _ _ _ _ _ Y) He) as (m & ? & ?). eauto. Qed.

Lemma file_staged m : m ∈ ms -> exists e, e ∈ staged /\ staged_from current m e.
Proof. intros Hm. destruct (Forall2_elem_l _ _ _ _ (sy_files _ _ _ _ _ _ Y) Hm) as (e & ? & ?). eauto. Qed.

Lemma staged_same e e' : e ∈ staged -> e' ∈ staged -> id_of e = id_of e' -> e = e'.
Proof. apply NoDup_map_inj, staged_ids_apart. Qed.

(** The row a staged file has. *)
Lemma staged_row m e : m ∈ ms -> e ∈ staged -> staged_from current m e ->
  exists tags, s_concepts s' !! cid m = Some (row_with instant_now tags e).
Proof.
  intros Hm He (_ & _ & Hid & _). destruct (w_rows _ _ _ _ _ (sy_written _ _ _ _ _ _ Y)) as (rows & Hr & _ & ->).
  destruct (Forall2_elem_l _ _ _ _ Hr He) as ([i r] & Hin & Hi & tags & Ht). cbn in Hi, Ht. subst i r.
  exists tags. unfold cid. rewrite <- Hid. apply insert_all_in; [|done].
  rewrite (row_for_ids _ _ _ Hr). apply staged_ids_apart.
Qed.

(** With the tags of every statement in range, that row has its own tags. *)
Lemma staged_exact e : e ∈ staged -> Forall tags_fit (chunks BATCH_SIZE staged) ->
  s_concepts s' !! id_of e = Some (concept_row instant_now e).
Proof.
  intros He Hfit. destruct (w_rows _ _ _ _ _ (sy_written _ _ _ _ _ _ Y)) as (rows & _ & Hx & ->).
  rewrite (Hx Hfit). apply insert_all_in.
  - rewrite <- list_fmap_compose. apply staged_ids_apart.
  - apply list_elem_of_fmap. by exists e.
Qed.

(** A row of another concept is as the deletes left it. *)
Lemma unstaged_row id : id ∉ map id_of staged -> s_concepts s' !! id = s_concepts d !! id.
Proof.
  intros Hid. destruct (w_rows _ _ _ _ _ (sy_written _ _ _ _ _ _ Y)) as (rows & Hr & _ & ->).
  apply insert_all_ne. by rewrite (row_for_ids _ _ _ Hr).
Qed.

(** A stored file that is not staged keeps its rows. *)
Lemma kept_row m r :
  m ∈ live current -> m ∉ ms -> s_concepts s !! cid m = Some r -> c_path r = path m ->
  dead removed staged (cid m) r = false /\ cid m ∉ map id_of staged /\ s_concepts s' !! cid m = Some r.
Proof.
  intros Hm Hn Hr Hp.
  assert (dead removed staged (cid m) r = false) as Hd.
  { apply dead_false. rewrite Hp. split.
    - rewrite (sy_removed _ _ _ _ _ _ Y). intros [_ []]. apply list_elem_of_fmap. exists m.
      split; [|done]. apply live_elem in Hm as [Hm _]. by rewrite (entry_path current Hsn).
    - intros e (m' & Hm' & (_ & Hp' & _))%staged_file E. destruct Hn.
      replace m with m'; [done|]. apply (path_inj current Hsn); [by apply ms_current|by apply live_elem in Hm as []|].
      congruence. }
  assert (cid m ∉ map id_of staged) as Hi.
  { rewrite staged_ids. intros (m' & E & Hm')%list_elem_of_fmap. destruct Hn.
    replace m with m'; [done|]. symmetry. apply cid_inj; [done|by apply (sy_live _ _ _ _ _ _ Y)|done]. }
  split_and!; [done|done|]. rewrite unstaged_row by done. by apply drop_concepts_lookup.
Qed.

Lemma typed_ids_staged id :
  id ∈ (typed_skills staged).*1 \/ id ∈ (typed_scripts sha256 staged).*1 \/ id ∈ (typed_references sha256 staged).*1 ->
  id ∈ map id_of staged.
Proof.
  intros [([i r] & -> & Hin)%list_elem_of_fmap|[([i r] & -> & Hin)%list_elem_of_fmap|([i r] & -> & Hin)%list_elem_of_fmap]];
    [apply typed_skills_elem in Hin as (e & p & He & _ & ->)
    |apply typed_scripts_elem in Hin as (e & p & He & _ & -> & _)
    |apply typed_references_elem in Hin as (e & p & He & _ & -> & _)];
    apply list_elem_of_fmap; by exists e.
Qed.

Lemma drop_typed_scripts id x : s_scripts d !! id = Some x -> s_scripts s !! id = Some x.
Proof. by intros [? _]%map_lookup_filter_Some. Qed.
Lemma drop_typed_references id x : s_references d !! id = Some x -> s_references s !! id = Some x.
Proof. by intros [? _]%map_lookup_filter_Some. Qed.

Lemma filter_kept {V} (m : gmap (list ascii) V) id r :
  s_concepts s !! id = Some r -> dead removed staged id r = false ->
  filter (fun e => gone (dead removed staged) s e.1 = false) m !! id = m !! id.
Proof.
  intros Hr Hd. destruct (m !! id) as [v|] eqn:E.
  - apply map_lookup_filter_Some. split; [done|]. cbn. unfold gone. by rewrite Hr.
  - apply map_lookup_filter_None. by left.
Qed.

Lemma scripts_unstaged id : id ∉ (typed_scripts sha256 staged).*1 ->
  x_package <$> s_scripts s' !! id = x_package <$> s_scripts d !! id.
Proof.
  intros Hn. rewrite (w_scripts _ _ _ _ _ (sy_written _ _ _ _ _ _ Y)). f_equal. by apply insert_all_ne.
Qed.
Lemma references_unstaged id : id ∉ (typed_references sha256 staged).*1 ->
  d_package <$> s_references s' !! id = d_package <$> s_references d !! id.
Proof.
  intros Hn. rewrite (w_references _ _ _ _ _ (sy_written _ _ _ _ _ _ Y)). f_equal. by apply insert_all_ne.
Qed.

Lemma scripts_staged m e p : m ∈ ms -> e ∈ staged -> staged_from current m e -> st_typed e = Some (PScript p) ->
  x_package <$> s_scripts s' !! cid m = Some (sc_package_concept_id p) /\
  (cid m ∉ (typed_references sha256 staged).*1).
Proof.
  intros Hm He (_ & _ & Hid & _) Ht. split.
  - rewrite (w_scripts _ _ _ _ _ (sy_written _ _ _ _ _ _ Y)).
    erewrite insert_all_in; [| |apply typed_scripts_elem; exists e, p; split_and!; [done|done|symmetry; exact Hid|reflexivity]].
    + done.
    + apply typed_scripts_ids, staged_ids_apart.
  - intros ([i r] & E & Hin)%list_elem_of_fmap. apply typed_references_elem in Hin as (e' & p' & He' & Ht' & -> & _).
    cbn in E. rewrite (staged_same e e' He He') in Ht; [congruence|]. rewrite <- E. exact Hid.
Qed.

Lemma references_staged m e p : m ∈ ms -> e ∈ staged -> staged_from current m e -> st_typed e = Some (PReference p) ->
  d_package <$> s_references s' !! cid m = Some (rf_package_concept_id p) /\
  (cid m ∉ (typed_scripts sha256 staged).*1).
Proof.
  intros Hm He (_ & _ & Hid & _) Ht. split.
  - rewrite (w_references _ _ _ _ _ (sy_written _ _ _ _ _ _ Y)).
    erewrite insert_all_in; [| |apply typed_references_elem; exists e, p; split_and!; [done|done|symmetry; exact Hid|reflexivity]].
    + done.
    + apply typed_references_ids, staged_ids_apart.
  - intros ([i r] & E & Hin)%list_elem_of_fmap. apply typed_scripts_elem in Hin as (e' & p' & He' & Ht' & -> & _).
    cbn in E. rewrite (staged_same e e' He He') in Ht; [congruence|]. rewrite <- E. exact Hid.
Qed.

Lemma package_is (st : Store) id o :
  (x_package <$> s_scripts st !! id = Some o /\ s_references st !! id = None) \/
  (d_package <$> s_references st !! id = Some o /\ s_scripts st !! id = None) ->
  one_kind st id /\ package_of st id = Some o.
Proof.
  unfold one_kind, package_of. intros [[Hx Hd]|[Hd Hx]].
  - split; [by right|]. by destruct (s_scripts st !! id).
  - split; [by left|]. by rewrite Hx.
Qed.

(** The package of every live resource that is stored. *)
Lemma resource_package m root :
  kinds_stable s -> m ∈ live current -> is_resource (class m) = true ->
  owner_of index (path m) = Some root ->
  m ∈ ms \/ (m ∉ ms /\ exists r, s_concepts s !! cid m = Some r /\ c_path r = path m /\
    package_of s (cid m) = Some (skill_concept_id_of root)) ->
  one_kind s' (cid m) /\ package_of s' (cid m) = Some (skill_concept_id_of root).
Proof.
  intros Hk Hm Hres Ho Hcase. destruct (Hk m Hm) as [Hks Hkr].
  assert (cid m = path m) as Hcid by (unfold cid, class_concept_id; by rewrite Hres).
  assert (class m = SkillScript \/ class m = SkillReference \/ class m = SkillAsset) as Hcl
    by (destruct (class m); by auto).
  apply package_is. destruct Hcase as [Hin|(Hn & r & Hr & Hp & Hpkg)].
  - destruct (file_staged m Hin) as (e & He & Hf). pose proof Hf as (_ & _ & _ & Hpay).
    unfold payload_for in Hpay. destruct Hcl as [Hcl|Hcl].
    + rewrite Hcl in Hpay. destruct Hpay as (p & root' & Ht & Ho' & Hpk).
      destruct (scripts_staged m e p Hin He Hf Ht) as [Hx Hnr]. left.
      assert (root' = root) as -> by congruence. split; [by rewrite Hx, Hpk|].
      apply references_unstaged in Hnr.
      destruct (s_references s' !! cid m) as [q|] eqn:E; [|done].
      destruct (s_references d !! cid m) as [q'|] eqn:E'; [|done].
      apply drop_typed_references in E'. rewrite Hcid, (Hks Hcl) in E'. done.
    + assert (exists p root, st_typed e = Some (PReference p) /\ owner_of index (path m) = Some root
        /\ rf_package_concept_id p = skill_concept_id_of root) as (p & root' & Ht & Ho' & Hpk)
        by (by destruct Hcl as [Hcl|Hcl]; rewrite Hcl in Hpay).
      destruct (references_staged m e p Hin He Hf Ht) as [Hx Hnr]. right.
      assert (root' = root) as -> by congruence. split; [by rewrite Hx, Hpk|].
      apply scripts_unstaged in Hnr.
      destruct (s_scripts s' !! cid m) as [q|] eqn:E; [|done].
      destruct (s_scripts d !! cid m) as [q'|] eqn:E'; [|done].
      apply drop_typed_scripts in E'. rewrite Hcid, (Hkr Hcl) in E'. done.
  - destruct (kept_row m r Hm Hn Hr Hp) as (Hd & Hi & _).
    assert (x_package <$> s_scripts s' !! cid m = x_package <$> s_scripts s !! cid m) as Ex.
    { rewrite scripts_unstaged by (intros ?; apply Hi, typed_ids_staged; auto). f_equal.
      by apply (filter_kept (s_scripts s) _ r). }
    assert (d_package <$> s_references s' !! cid m = d_package <$> s_references s !! cid m) as Ed.
    { rewrite references_unstaged by (intros ?; apply Hi, typed_ids_staged; auto). f_equal.
      by apply (filter_kept (s_references s) _ r). }
    unfold package_of in Hpkg. destruct Hcl as [Hcl|Hcl].
    + left. specialize (Hks Hcl). rewrite <- Hcid in Hks. rewrite Hks in Ed, Hpkg.
      destruct (s_scripts s !! cid m) as [x|] eqn:E; [|done]. split; [rewrite Ex; exact Hpkg|].
      by destruct (s_references s' !! cid m).
    + right. specialize (Hkr Hcl). rewrite <- Hcid in Hkr. rewrite Hkr in Ex, Hpkg.
      split; [rewrite Ed; exact Hpkg|]. by destruct (s_scripts s' !! cid m).
Qed.

(** A live file that was not skipped is stored as it is. *)
Lemma file_up_to_date m :
  kinds_stable s -> m ∈ live current -> path m ∉ skipped -> up_to_date (load_stored_projection s') index m.
Proof.
  intros Hk Hm Hns. pose proof (w_ok _ _ _ _ _ (sy_written _ _ _ _ _ _ Y)
    (drop_ok _ _ (sy_ok _ _ _ _ _ _ Y))) as Hok'.
  pose proof (ok_paths _ (sy_ok _ _ _ _ _ _ Y)) as Hu. pose proof (ok_paths _ Hok') as Hu'.
  assert (m ∈ current) as Hc by (by apply live_elem in Hm as []).
  assert (text_of m = path m) as Et by (by apply (entry_path current Hsn)).
  assert (m ∈ ms \/ (m ∉ ms /\ up_to_date (load_stored_projection s) index m)) as Hcase.
  { destruct (settled (load_stored_projection s) index m) eqn:Eset.
    - destruct (decide (path m ∈ map path ms)) as [(m' & E & Hin)%list_elem_of_fmap|Hn].
      + left. replace m with m'; [done|]. symmetry. apply (path_inj current Hsn); [done|by apply ms_current|done].
      + right. split; [|by apply settled_iff]. intros Hin. apply Hn, list_elem_of_fmap. by exists m.
    - left. by destruct (sy_covered _ _ _ _ _ _ Y m Hm Eset). }
  assert (exists r, s_concepts s' !! cid m = Some r /\ c_path r = path m /\ c_file_hash r = hash m)
    as (r' & Hr' & Hp' & Hh').
  { destruct Hcase as [Hin|[Hn Hold]].
    - destruct (file_staged m Hin) as (e & He & Hf). destruct (staged_row m e Hin He Hf) as [tags Hr].
      destruct Hf as (Hh & Hp & _). eexists. split; [exact Hr|]. done.
    - destruct Hold as (Hh & Hi & _). rewrite Et in Hh, Hi. cbn in Hh, Hi.
      apply stored_hashes_get in Hh as (id & r & Hr & Hp & Hh); [|done].
      assert (id = cid m) as ->. { apply Hi, stored_ids_get; [done|]. by exists r. }
      exists r. split_and!; [|done|done]. by apply (kept_row m r). }
  unfold up_to_date. rewrite Et. cbn. split_and!.
  - apply stored_hashes_get; [done|]. by exists (cid m), r'.
  - intros id (r & Hr & Hp)%stored_ids_get; [|done]. eapply Hu'; [exact Hr|exact Hr'|congruence].
  - intros Hres. destruct (snapshot_entry current Hsn m Hc) as (_ & Hcl & _).
    assert (exists root, owner_of index (path m) = Some root) as [root Ho].
    { destruct (owner_of index (path m)) as [root|] eqn:E; [by exists root|].
      unfold classify_path in Hcl. rewrite E in Hcl. cbn in Hcl.
      repeat case_decide; try case_match; simplify_eq; rewrite <- Hcl in Hres || idtac; done. }
    exists root. split; [done|]. rewrite <- Hp'.
    destruct (resource_package m root Hk Hm Hres Ho) as [H1 H2].
    { destruct Hcase as [?|[Hn (Hh & Hi & Hown & _)]]; [by left|right]. split; [done|].
      rewrite Et in Hh, Hi, Hown. cbn in Hh, Hi, Hown.
      apply stored_hashes_get in Hh as (id & r & Hr & Hp & _); [|done].
      assert (id = cid m) as ->. { apply Hi, stored_ids_get; [done|]. by exists r. }
      exists r. split_and!; [done|done|]. destruct (Hown Hres) as (root' & Ho' & Hb).
      assert (root' = root) as -> by congruence. rewrite <- Hp in Hb.
      apply (load_stored_owners_get s (cid m) r) in Hb; [done|done|done|].
      destruct (Hk m Hm) as [Hks Hkr]. unfold one_kind, cid, class_concept_id. rewrite Hres.
      destruct (class m); by auto. }
    by apply (load_stored_owners_get s' (cid m) r').
  - intros Hcl. apply load_stored_skill_paths_elem. exists (cid m), r'. split_and!; [done|done|].
    rewrite (w_skills _ _ _ _ _ (sy_written _ _ _ _ _ _ Y)). apply insert_all_is_Some.
    destruct Hcase as [Hin|[Hn (Hh & Hi & _ & Hsk)]].
    + right. destruct (file_staged m Hin) as (e & He & (_ & _ & Hid & Hpay)). unfold payload_for in Hpay.
      rewrite Hcl in Hpay. destruct Hpay as [p Ht]. apply list_elem_of_fmap.
      eexists (cid m, _). split; [done|]. apply list_elem_of_omap. exists e. split; [done|].
      rewrite Ht. unfold cid. rewrite <- Hid. reflexivity.
    + left. specialize (Hsk Hcl). rewrite Et in Hh, Hi, Hsk. cbn in Hh, Hi, Hsk.
      apply load_stored_skill_paths_elem in Hsk as (id & r & Hr & Hp & Hsk).
      assert (id = cid m) as ->. { apply Hi, stored_ids_get; [done|]. by exists r. }
      destruct (kept_row m r Hm Hn Hr Hp) as (Hd & _). by rewrite (filter_kept (s_skills s) _ r).
Qed.

(** Nothing else is stored. *)
Lemma stored_live p : p ∈ (stored_hashes s').*1 -> p ∈ map text_of (live current).
Proof.
  intros (id & r & Hr & <-)%stored_hashes_keys.
  destruct (w_rows _ _ _ _ _ (sy_written _ _ _ _ _ _ Y)) as (rows & Hrows & _ & Hc). rewrite Hc in Hr.
  apply insert_all_inv in Hr as [Hin|[Hr _]].
  - destruct (Forall2_elem_r _ _ _ _ Hrows Hin) as (e & He & _ & tags & E). cbn in E. subst r.
    apply staged_file in He as (m & Hm & (_ & Hp & _)). cbn. rewrite Hp. apply list_elem_of_fmap. exists m.
    split; [symmetry; apply (entry_path current Hsn); by apply ms_current|by apply (sy_live _ _ _ _ _ _ Y)].
  - apply drop_concepts_lookup in Hr as [Hr [Hnr _]%dead_false].
    destruct (decide (c_path r ∈ map text_of (live current))) as [?|Hn]; [done|].
    destruct Hnr. apply (sy_removed _ _ _ _ _ _ Y). split; [|done].
    apply stored_hashes_keys. by exists id, r.
Qed.

End one.

Lemma sync_synced strict keep policy version (s s' : Store) out :
  store_ok s -> snapshot_ok current -> sync strict keep policy version s = Projected (out, s') ->
  exists ms, synced s s' (so_removed_paths out) (so_staged out) (so_skipped out) ms.
Proof.
  intros Hok Hsn Hrun. destruct (sync_parts _ _ _ _ _ _ _ Hsn Hrun) as (W & _ & Hrem & _ & ms & F & Hl & Hp & Hc).
  exists ms. split; try done. intros p. rewrite Hrem, list_elem_of_filter. tauto.
Qed.

(** C3: Syncing brings the catalog to the state of the snapshot.  From an
    intact store and a snapshot a scan can produce, in which no script has
    become a reference under the same id or the other way round since it was
    stored (the stale row of the old kind would stay beside the new one:
    [packages.rs] deletes neither), a sync that goes through leaves an intact
    store in which every live file that was not skipped is recorded with its
    current hash, the id of its class and, for a package member, its current
    owner; in which no other path is stored; and against which, provided the
    sync skipped no file, another sync finds nothing to do. *)
Theorem sync_reaches_snapshot (strict keep : bool) (policy : str) (version : option str)
    (s s' : Store) (out : SyncOutcome) :
  store_ok s -> snapshot_ok current -> kinds_stable s ->
  sync strict keep policy version s = Projected (out, s') ->
  store_ok s' /\
  (forall m, m ∈ live current -> path m ∉ so_skipped out ->
     up_to_date (load_stored_projection s') index m) /\
  (forall p, p ∈ (hashes (load_stored_projection s')).*1 -> p ∈ map text_of (live current)) /\
  (so_skipped out = [] ->
     let next := classify_changes (load_stored_projection s') index current in
     to_parse next = [] /\ removed_paths next = []).
Proof.
  intros Hok Hsn Hk Hrun. destruct (sync_synced _ _ _ _ _ _ _ Hok Hsn Hrun) as [ms Y].
  assert (forall m, m ∈ live current -> path m ∉ so_skipped out ->
     up_to_date (load_stored_projection s') index m) as Hup by (intros; by eapply file_up_to_date).
  assert (forall p, p ∈ (hashes (load_stored_projection s')).*1 -> p ∈ map text_of (live current)) as Hst
    by (intros; by eapply stored_live).
  split_and!; [|exact Hup|exact Hst|].
  - apply (w_ok _ _ _ _ _ (sy_written _ _ _ _ _ _ Y)), drop_ok, Hok.
  - intros Hskip. cbn zeta. destruct (classify_changes_parts (load_stored_projection s') index current)
      as (-> & -> & _). split.
    + apply elem_of_nil_inv. intros m [Hm Hs]%list_elem_of_In%filter_In. apply list_elem_of_In in Hm.
      rewrite (proj2 (settled_iff _ _ _)) in Hs; [done|]. apply Hup; [done|]. rewrite Hskip. apply not_elem_of_nil.
    + apply elem_of_nil_inv. intros p [Hn Hp]%list_elem_of_filter. by apply Hn, Hst.
Qed.

(** ** The link graph *)

Lemma concept_at_Some (s : Store) p id :
  paths_unique (s_concepts s) ->
  concept_at s p = Some id <-> exists r, s_concepts s !! id = Some r /\ c_path r = p.
Proof.
  intros Hu. unfold concept_at. split.
  - intros ([i r] & E & ->)%fmap_Some. apply List.find_some in E as [Hin%list_elem_of_In Hp].
    apply elem_of_map_to_list in Hin. apply bool_decide_eq_true in Hp. by exists r.
  - intros (r & Hr & Hp). destruct (List.find _ _) as [[j q]|] eqn:E.
    + apply List.find_some in E as [Hin%list_elem_of_In Hq]. apply elem_of_map_to_list in Hin.
      apply bool_decide_eq_true in Hq. cbn. f_equal. eapply Hu; [exact Hin|exact Hr|congruence].
    + apply (List.find_none _ _) with (x := (id, r)) in E;
        [|by apply list_elem_of_In, elem_of_map_to_list]. by apply bool_decide_eq_false in E.
Qed.

(** The rows [reresolve_bundle] leaves. *)
Lemma reresolved_row (s : Store) l :
  paths_unique (s_concepts s) ->
  let l' := reresolved s (retarget s l) in
  (l_resolved l' = true <-> l_is_external l' = false /\
     exists id, l_target_id l' = Some id /\ is_Some (s_concepts s !! id)) /\
  (forall p id r, l_target_path l' = Some p -> s_concepts s !! id = Some r -> c_path r = p ->
     l_target_id l' = Some id).
Proof.
  intros Hu. cbn zeta. unfold retarget.
  assert (forall id p, concept_at s p = Some id -> is_Some (s_concepts s !! id)) as Hat.
  { intros id p (r & Hr & _)%concept_at_Some; [by exists r|done]. }
  destruct (l_target_path l) as [p|] eqn:Ep; cbn [mbind option_bind].
  - destruct (concept_at s p) as [id|] eqn:Ec; cbn.
    + split.
      * unfold resolves, has_concept. rewrite andb_true_iff, negb_true_iff, orb_true_iff. split.
        -- intros [? _]. split; [done|]. exists id. split; [done|]. by eapply Hat.
        -- intros (? & i & [= <-] & Hi). split; [done|]. left. by apply bool_decide_eq_true.
      * intros p' i r E Hr Hp. assert (p' = p) as -> by congruence. rewrite <- Ec.
        apply concept_at_Some; [done|]. by exists r.
    + split.
      * unfold resolves. destruct (l_target_id l) as [t|]; [|split; [done|by intros (_ & ? & ? & _)]].
        rewrite Ep, Ec. unfold has_concept. rewrite andb_true_iff, negb_true_iff, orb_true_iff, !bool_decide_eq_true.
        split; [intros [? [?|[? ?]]]; [by eauto|done]|]. intros (? & i & [= <-] & ?). auto.
      * intros p' i r E Hr Hp. assert (p' = p) as -> by congruence.
        assert (concept_at s p = Some i) as Hx by (apply concept_at_Some; [done|]; by exists r). congruence.
  - cbn. rewrite ?Ep. split; [|intros p' i r E; congruence].
    unfold resolves. destruct (l_target_id l) as [t|]; [|split; [done|by intros (_ & ? & ? & _)]].
    unfold has_concept. rewrite andb_true_iff, negb_true_iff, orb_false_r, bool_decide_eq_true.
    split; [intros [? ?]; by eauto|]. intros (? & i & [= <-] & ?). auto.
Qed.

(** C5: After a sync the whole link graph is consistent with the stored
    concepts, the edges of files the sync did not touch included: an edge is
    marked resolved exactly when it is internal and its target is a stored
    concept, so no edge leads to a concept that is gone and none to a present
    one is missed; and an edge whose target path has a concept points at
    that concept, whatever its id. *)
Theorem link_graph_consistent (strict keep : bool) (policy : str) (version : option str)
    (s s' : Store) (out : SyncOutcome) (k : str * Z) (l : LinkRow) :
  store_ok s -> snapshot_ok current ->
  sync strict keep policy version s = Projected (out, s') -> s_links s' !! k = Some l ->
  is_Some (s_concepts s' !! k.1) /\
  (l_resolved l = true <-> l_is_external l = false /\
     exists id, l_target_id l = Some id /\ is_Some (s_concepts s' !! id)) /\
  (forall p id r, l_target_path l = Some p -> s_concepts s' !! id = Some r -> c_path r = p ->
     l_target_id l = Some id).
Proof.
  intros Hok Hsn Hrun Hl. destruct (sync_synced _ _ _ _ _ _ _ Hok Hsn Hrun) as [ms Y].
  assert (store_ok s') as Hok' by (apply (w_ok _ _ _ _ _ (sy_written _ _ _ _ _ _ Y)), drop_ok, Hok).
  split; [by eapply (ok_links _ Hok')|].
  destruct (w_links _ _ _ _ _ (sy_written _ _ _ _ _ _ Y)) as (s6 & Ec & El).
  rewrite El in Hl. cbn in Hl. apply lookup_fmap_Some in Hl as (l0 & <- & _).
  rewrite Ec. apply reresolved_row. rewrite <- Ec. apply Hok'.
Qed.

(** ** What a staged concept becomes *)

Lemma marshal_sources_elem (staged : list Concept) id row :
  (id, row) ∈ marshal_sources staged <->
  exists e content, e ∈ staged /\ st_raw_content e = Some content /\
    id = id_of e /\ row = (content, count_to_i32 (length content)).
Proof.
  unfold marshal_sources. rewrite list_elem_of_omap. split.
  - intros (e & He & (content & Hc & [= -> ->])%fmap_Some). by exists e, content.
  - intros (e & content & He & Hc & -> & ->). exists e. by rewrite Hc.
Qed.

Lemma provenance_of_elem (staged : list Concept) rows id r :
  omap_out provenance_of staged = Ret rows ->
  (id, r) ∈ rows <-> exists e, e ∈ staged /\ id = id_of e /\ provenance_rows (st_concept e) = Ret (Some r).
Proof.
  intros (os & Hf & ->)%omap_out_ret. rewrite list_elem_of_omap. split.
  - intros (o & Ho & E0). change (o = Some (id, r)) in E0. subst o.
    destruct (Forall2_elem_r _ _ _ _ Hf Ho) as (e & He & Hp).
    apply obind_ret in Hp as (q & Hq & [= E]). apply fmap_Some in E as (r' & -> & [= -> ->]).
    by exists e.
  - intros (e & He & -> & Hp). destruct (Forall2_elem_l _ _ _ _ Hf He) as (o & Ho & Hq).
    exists o. split; [done|]. unfold provenance_of in Hq. rewrite Hp in Hq. cbn in Hq. by injection Hq as <-.
Qed.

Lemma provenance_of_total (staged : list Concept) rows e :
  omap_out provenance_of staged = Ret rows -> e ∈ staged -> exists o, provenance_rows (st_concept e) = Ret o.
Proof.
  intros (os & Hf & ->)%omap_out_ret He. destruct (Forall2_elem_l _ _ _ _ Hf He) as (o & _ & Hq).
  unfold provenance_of in Hq. apply obind_ret in Hq as (q & Hq & _). by exists q.
Qed.

(** The frontmatter a staged concept has under a key. *)
Lemma flattened_own `{!RowHostLaws S R} staged e k w :
  e ∈ staged -> (forall e', e' ∈ staged -> id_of e = id_of e' -> e = e') ->
  (id_of e, k, w) ∈ flatten_metadata staged <-> value_text <$> map_get (pc_metadata (st_concept e)) k = Some w.
Proof.
  intros He Hone. rewrite flatten_metadata_elem, fmap_Some. split.
  - intros (e' & k' & v & He' & [= E <- ->] & Hin). rewrite <- (Hone e' He' E) in Hin.
    exists v. split; [by apply entries_get|done].
  - intros (v & Hv & ->). exists e, k, v. split_and!; [done|done|]. by apply entries_get.
Qed.

(** C6: A sync stores every staged concept as it was read, replacing what was
    stored: its row has the fields, the tags, the hash and the time of the
    file; its metadata is the frontmatter's, key by key, except that a
    visibility recorded for a script or reference of a skill staged in the same
    sync is that skill's; its provenance rows are those of the document, and
    gone if it has none; its source bytes are the file's when they are kept;
    and no embedding of an older text survives.  (The tags of the five hundred
    concepts one statement writes must be countable in an [integer]: their
    positions saturate there.) *)
Theorem staged_concept_stored `{!RowHostLaws S R} (strict keep : bool) (policy : str)
    (version : option str) (s s' : Store) (out : SyncOutcome) (e : Concept) :
  store_ok s -> snapshot_ok current -> Forall tags_fit (chunks BATCH_SIZE (so_staged out)) ->
  sync strict keep policy version s = Projected (out, s') -> e ∈ so_staged out ->
  let id := pc_id (st_concept e) in
  (s_concepts s' !! id = Some (concept_row instant_now e)) /\
  (forall k, k <> lit "visibility" ->
     s_metadata s' !! (id, k) = value_text <$> map_get (pc_metadata (st_concept e)) k) /\
  match map_get (pc_metadata (st_concept e)) (lit "visibility") with
  | Some own => exists v, s_metadata s' !! (id, lit "visibility") = Some v /\
      decided (typed_skills (so_staged out)).*1 s' id (value_text own) v
  | None => s_metadata s' !! (id, lit "visibility") = None
  end /\
  (exists rows, provenance_rows (st_concept e) = Ret rows /\ s_provenance s' !! id = rows) /\
  (forall content, st_raw_content e = Some content ->
     s_sources s' !! id = Some (content, count_to_i32 (length content))) /\
  (id ∉ s_embeddings s').
Proof.
  intros Hok Hsn Hfit Hrun He id. destruct (sync_synced _ _ _ _ _ _ _ Hok Hsn Hrun) as [ms Y].
  pose proof (sy_written _ _ _ _ _ _ Y) as W.
  pose proof (staged_same Hsn _ _ _ _ _ _ Y) as Hone.
  assert (id ∈ map id_of (so_staged out)) as Hid by (apply list_elem_of_fmap; by exists e).
  pose proof (fun k w => flattened_own (so_staged out) e k w He (fun e' He' => Hone e e' He He')) as Hown.
  split_and!.
  - by eapply staged_exact.
  - intros k Hk. apply option_eq. intros w. rewrite <- Hown. split; [by apply (w_metadata _ _ _ _ _ W)|].
    intros Hw. destruct (w_keys _ _ _ _ _ W _ Hw) as [w' Hw']. cbn in Hw'.
    pose proof (w_metadata _ _ _ _ _ W id k w' Hid Hk Hw') as Hin. apply Hown in Hin, Hw. unfold id. congruence.
  - destruct (map_get _ (lit "visibility")) as [own|] eqn:Ev.
    + destruct (w_keys _ _ _ _ _ W (id, lit "visibility", value_text own)) as [v Hv].
      { apply Hown. by rewrite Ev. }
      destruct (w_visibility _ _ _ _ _ W id v Hid Hv) as (own' & Hin%Hown & Hd). rewrite Ev in Hin.
      injection Hin as <-. by exists v.
    + apply eq_None_not_Some. intros [v Hv].
      destruct (w_visibility _ _ _ _ _ W id v Hid Hv) as (own' & Hin%Hown & _). by rewrite Ev in Hin.
  - destruct (w_provenance _ _ _ _ _ W) as (rows & Hrows & Hp).
    destruct (provenance_of_total _ _ e Hrows He) as [o Ho]. exists o. split; [done|].
    destruct o as [r|].
    + apply Hp; [done|]. apply (provenance_of_elem _ _ _ _ Hrows). by exists e.
    + destruct (s_provenance s' !! id) as [r|] eqn:E; [|done].
      apply Hp, (provenance_of_elem _ _ _ _ Hrows) in E as (e' & He' & E & Hr); [|done].
      rewrite <- (Hone e e' He He' E) in Hr. congruence.
  - intros content Hc. rewrite (w_sources _ _ _ _ _ W). apply insert_all_in.
    + apply NoDup_omap_ids; [|by eapply staged_ids_apart].
      by intros e' r (c & _ & ->)%fmap_Some.
    + apply marshal_sources_elem. by exists e, content.
  - rewrite (w_embeddings _ _ _ _ _ W). rewrite elem_of_difference, elem_of_list_to_set. tauto.
Qed.

End after.

(** The flat tags of a chunk are cut back into the tags of each concept: as
    long as they can be counted in an [integer], the statement stores every
    row of the chunk whole. *)
Section tags.
Context `{S : Serde} `{H : Host} `{G : !StagingHost S H} `{R : !RowHost S}.
Context (instant_now : Z).

(** The tag windows round trip.  [marshal_concepts] flattens the tags of a
    chunk into one array with a window per row; the upsert statement cuts each
    row's tags back out of it, so that whenever the tags of the chunk can be
    counted in an [integer] every concept of the chunk is stored with exactly
    its own tags, none and empty lists included. *)
Theorem tag_windows_roundtrip (chunk : list (StagedConcept (G := G)))
    (s s' : Store (G := G) (R := R)) (e : StagedConcept) :
  (Z.of_nat (length (concat (map (fun e => pc_tags (st_concept e)) chunk)) + 1) <= i32_max)%Z ->
  upsert_chunk instant_now chunk s = Some s' -> e ∈ chunk ->
  s_concepts s' !! pc_id (st_concept e) = Some (concept_row instant_now e).
Proof.
  intros Hlen (Hnd & -> & _)%upsert_chunk_spec He. cbn.
  assert (chunk_rows instant_now chunk = map (fun e => (pc_id (st_concept e), concept_row instant_now e)) chunk) as ->.
  { unfold chunk_rows, marshal_concepts. rewrite marshal_flat. by apply (chunk_rows_from instant_now []). }
  apply insert_all_in; [by rewrite <- list_fmap_compose|]. apply list_elem_of_fmap. by exists e.
Qed.

End tags.

(** ** A concrete sync *)

Lemma store_ok_empty `{S : Serde} `{H : Host} `{G : !StagingHost S H} `{R : !RowHost S} :
  store_ok (G := G) (R := R) empty_store.
Proof.
  split; try (intros k v Hk; cbn in Hk; by rewrite lookup_empty in Hk).
  - intros i j r r' Hi. cbn in Hi. by rewrite lookup_empty in Hi.
  - intros i Hi. cbn in Hi. set_solver.
Qed.

Module SyncDemo.

(** A document, and a package with a script. *)
Definition cur : list (FileMetadata (H := Demo.host)) :=
  [demo_meta "a.md" "d" OkfDocument; demo_meta "p/SKILL.md" "s" SkillManifest;
   demo_meta "p/scripts/run" "r" SkillScript].

Definition read (p : str) : result str CatalogError :=
  Ok (if decide (p = lit "p/SKILL.md") then sample_skill
      else if decide (p = lit "a.md") then sample_source
      else lit "#!/bin/bash").

Abbreviation store := (Store (G := Pass.host) (R := toy_rows)).

Definition sync (s : store) : projected (SyncOutcome (G := Pass.host) * store) :=
  sync_projection (fun b => b) 0 (fun _ => true) sample_events read sample_limits cur true true
    (lit "warn") None s.

Lemma cur_ok : snapshot_ok cur.
Proof.
  split; [|by_decide].
  apply Forall_cons; split; [|apply Forall_cons; split; [|apply Forall_cons; split; [|apply Forall_nil; done]]];
    (split; [by_eval|]; split; [by_eval|]); intros Hr _; (by_decide || discriminate Hr).
Qed.

Definition went_through (r : projected (SyncOutcome (G := Pass.host) * store)) : bool :=
  match r with Projected _ => true | _ => false end.

Example first_sync : went_through (sync empty_store) = true.
Proof. by_eval. Qed.

Lemma first_run : exists out s', sync empty_store = Projected (out, s').
Proof.
  pose proof first_sync as Hv. destruct (sync empty_store) as [[out s']| |] eqn:E; [|done..].
  by exists out, s'.
Qed.

Lemma empty_stable : kinds_stable cur (empty_store : store).
Proof. intros m _. split; intros _; apply lookup_empty. Qed.

Definition staged_of (r : projected (SyncOutcome (G := Pass.host) * store)) : list (StagedConcept (G := Pass.host)) :=
  match r with Projected (out, _) => so_staged out | _ => [] end.
Definition left_in (r : projected (SyncOutcome (G := Pass.host) * store)) : store :=
  match r with Projected (_, s') => s' | _ => empty_store end.

Example three_staged : length (staged_of (sync empty_store)) = 3.
Proof. by_eval. Qed.

Example staged_tags_fit :
  forallb (fun chunk => (Z.of_nat (length (concat (map (fun e => pc_tags (st_concept e)) chunk)) + 1) <=? i32_max)%Z)
    (chunks BATCH_SIZE (staged_of (sync empty_store))) = true.
Proof. by_eval. Qed.

(** The link of the document, and the membership edge of the package. *)
Example edge_states :
  (l_resolved <$> s_links (left_in (sync empty_store)) !! (lit "a", 0%Z),
   l_resolved <$> s_links (left_in (sync empty_store)) !! (lit "p/SKILL", 1%Z)) = (Some false, Some true).
Proof. by_eval. Qed.

End SyncDemo.

Lemma sync_reaches_snapshot_witness :
  exists out s', SyncDemo.sync empty_store = Projected (out, s') /\ store_ok s' /\
    (forall p, p ∈ (hashes (load_stored_projection s')).*1 -> p ∈ map text_of (live SyncDemo.cur)).
Proof.
  destruct SyncDemo.first_run as (out & s' & E). exists out, s'. split; [exact E|].
  destruct (sync_reaches_snapshot _ _ _ _ _ _ _ _ _ _ _ _ _ _ store_ok_empty SyncDemo.cur_ok
              SyncDemo.empty_stable E) as (H1 & _ & H2 & _). split; [exact H1|exact H2].
Defined.

Lemma link_graph_consistent_witness :
  exists s' l, s_links s' !! (lit "p/SKILL", 1%Z) = Some l /\ l_resolved l = true /\
    exists id, l_target_id l = Some id /\ is_Some (s_concepts (G := Pass.host) (R := toy_rows) s' !! id).
Proof.
  destruct SyncDemo.first_run as (out & s' & E). pose proof SyncDemo.edge_states as Hs. rewrite E in Hs.
  cbn [SyncDemo.left_in] in Hs. destruct (s_links s' !! (lit "p/SKILL", 1%Z)) as [l|] eqn:El; [|discriminate Hs].
  cbn in Hs. injection Hs as _ Hl. exists s', l. split; [exact El|]. split; [exact Hl|].
  exact (proj2 (proj1 (proj1 (proj2 (link_graph_consistent _ _ _ _ _ _ _ _ _ _ _ _ _ _ _ _
           store_ok_empty SyncDemo.cur_ok E El))) Hl)).
Defined.

Lemma staged_concept_stored_witness :
  exists out s' e, SyncDemo.sync empty_store = Projected (out, s') /\ e ∈ so_staged out /\
    s_concepts s' !! pc_id (st_concept e) = Some (concept_row 0 e) /\ (pc_id (st_concept e) ∉ s_embeddings s').
Proof.
  destruct SyncDemo.first_run as (out & s' & E). pose proof SyncDemo.three_staged as Hs.
  pose proof SyncDemo.staged_tags_fit as Hf. rewrite E in Hs, Hf. cbn [SyncDemo.staged_of] in Hs, Hf.
  assert (Forall tags_fit (chunks BATCH_SIZE (so_staged out))) as Hfit.
  { apply Forall_forall. intros c Hc%list_elem_of_In. rewrite forallb_forall in Hf. by apply Z.leb_le, Hf. }
  destruct (so_staged out) as [|e l] eqn:Es; [discriminate Hs|].
  exists out, s', e. assert (e ∈ so_staged out) as He by (rewrite Es; left). rewrite <- Es in Hfit.
  split; [exact E|]. split; [rewrite Es; left|].
  destruct (staged_concept_stored _ _ _ _ _ _ _ _ _ _ _ _ _ _ _ store_ok_empty SyncDemo.cur_ok Hfit E He)
    as (H1 & _ & _ & _ & _ & H2).
  split; [exact H1|exact H2].
Defined.

Module TagDemo.

Definition tagged (i : string) (tags : list str) : StagedConcept (G := Pass.host) :=
  {| st_concept := Build_ParsedConcept (S := Toy.toy) (lit i) None (lit i ++ lit ".md") (lit "Note")
       (lit "T") None tags None [] [] [];
     st_file_hash := lit "h"; st_modified_at_epoch := None; st_raw_content := None; st_typed := None |}.

Definition chunk : list (StagedConcept (G := Pass.host)) :=
  [tagged "a" [lit "x"; lit "y"]; tagged "b" []; tagged "c" [lit "z"]].

Definition stored_tags (o : option SyncDemo.store) (i : string) : option (list str) :=
  match o with
  | Some s => c_tags (G := Pass.host) <$> s_concepts s !! lit i
  | None => None
  end.

Example chunk_tags :
  (stored_tags (upsert_chunk 0 chunk empty_store) "a", stored_tags (upsert_chunk 0 chunk empty_store) "b")
  = (Some [lit "x"; lit "y"], Some []).
Proof. by_eval. Qed.

End TagDemo.

Lemma tag_windows_roundtrip_witness :
  exists s', upsert_chunk (R := toy_rows) 0 TagDemo.chunk empty_store = Some s' /\
    s_concepts s' !! lit "a" = Some (concept_row 0 (TagDemo.tagged "a" [lit "x"; lit "y"])).
Proof.
  destruct (upsert_chunk (R := toy_rows) 0 TagDemo.chunk empty_store) as [s'|] eqn:E.
  - exists s'. split; [reflexivity|].
    refine (tag_windows_roundtrip 0 TagDemo.chunk empty_store s' (TagDemo.tagged "a" [lit "x"; lit "y"]) _ E _);
      [apply Z.leb_le; by_eval|left].
  - exfalso. pose proof TagDemo.chunk_tags as Ht. rewrite E in Ht. discriminate Ht.
Defined.

(** ** Two rows that outlive what they describe *)

Module Stale.

(** The same document with other bytes. *)
Definition later : list (FileMetadata (H := Demo.host)) := [demo_meta "a.md" "d2" OkfDocument].
Definition later_read (p : str) : result str CatalogError := Ok (sample_source ++ lit " two").

Definition resync (s : SyncDemo.store) : projected (SyncOutcome (G := Pass.host) * SyncDemo.store) :=
  sync_projection (fun b => b) 0 (fun _ => true) sample_events later_read sample_limits later true false
    (lit "warn") None s.

(** Once [store_source] is off, a changed document is stored with its new hash
    and keeps the source bytes of the old one. *)
Example stale_source_kept :
  let s' := SyncDemo.left_in (resync (SyncDemo.left_in (SyncDemo.sync empty_store))) in
  (c_file_hash (G := Pass.host) <$> s_concepts s' !! lit "a", fst <$> s_sources s' !! lit "a")
  = (Some (lit "d2"), Some sample_source).
Proof. cbv zeta. by_eval. Qed.

(** A path that is a script of one package and becomes a reference of a
    package inside it, under the same id. *)
Definition outer : list (FileMetadata (H := Demo.host)) :=
  [demo_meta "a/SKILL.md" "s" SkillManifest; demo_meta "a/scripts/b/references/x" "r" SkillScript].
Definition inner : list (FileMetadata (H := Demo.host)) :=
  [demo_meta "a/scripts/b/SKILL.md" "s" SkillManifest; demo_meta "a/scripts/b/references/x" "r" SkillReference].
Definition skills_read (p : str) : result str CatalogError :=
  Ok (if decide (p = lit "a/SKILL.md" \/ p = lit "a/scripts/b/SKILL.md") then sample_skill
      else lit "#!/bin/bash").

Definition sync_of (cur : list (FileMetadata (H := Demo.host))) (s : SyncDemo.store) :=
  sync_projection (fun b => b) 0 (fun _ => true) sample_events skills_read sample_limits cur true false
    (lit "warn") None s.

Example both_ok :
  (omap (fun m => classify_path (snapshot_index outer) (path m)) outer,
   omap (fun m => classify_path (snapshot_index inner) (path m)) inner)
  = (class <$> outer, class <$> inner).
Proof. by_eval. Qed.

(** The script row of the first package stays beside the new reference row. *)
Example stale_kind_kept :
  let s' := SyncDemo.left_in (sync_of inner (SyncDemo.left_in (sync_of outer empty_store))) in
  (x_package <$> s_scripts s' !! lit "a/scripts/b/references/x",
   d_package <$> s_references s' !! lit "a/scripts/b/references/x")
  = (Some (lit "a/SKILL"), Some (lit "a/scripts/b/SKILL")).
Proof. cbv zeta. by_eval. Qed.

End Stale.
