(* ===== verification/BundleSync.v ===== *)
(** * One whole sync: the projection and the catalog together
      ([run_bundle_sync] in [extension/src/catalog/sync.rs])

    [Projection.sync_projection] composed with [Lifecycle.sync_tail] in one
    transaction, over the tables of the catalog and the stores of its
    bundles; and the proof that the set of concept ids the lifecycle keeps is
    the one the stores have. *)
From stdpp Require Import prelude strings gmap list sorting.
From Stdlib Require Import Ascii ZArith Lia.
From S2P Require Import Prelude Str ParserError Serde OkfPath Frontmatter Links Concept Package BTree Discover Plan SyncDelta CatalogError Security Catalog Staging Freshness FreshnessApi Outbox Relationships Lifecycle CatalogApi CatalogWf CatalogHistory Provenance Projection ProjectionSteps ProjectionProps.

Section bundle_sync.
Context `{S : Serde} `{H : Host} `{G : !StagingHost S H} `{R : !RowHost S}.
Context `{Ses : Session, PT : PgText, J : RowJson}.
Context (sha256 : str -> str) (jsonb_text : str -> bool).
Context (events : str -> list Event) (read_bytes : str -> result str CatalogError)
  (limits : ParserLimits) (current : list FileMetadata).

Abbreviation Store := (Store (G := G) (R := R)).
Abbreviation Concept := (StagedConcept (G := G)).

(** The five counters of the audit row. *)
Definition counters (report : SyncReport) : Z * Z * Z * Z * Z :=
  (count_to_i32 (n_added report), count_to_i32 (n_updated report), count_to_i32 (n_removed report),
   count_to_i32 (n_unchanged report), count_to_i32 (total report)).

Definition staged_entry (e : Concept) : Staged :=
  {| sg_id := pc_id (st_concept e); sg_path := pc_path (st_concept e); sg_file_hash := st_file_hash e |}.

Definition sync_write (out : SyncOutcome) : SyncWrite :=
  {| sd_hashes := hashes (so_projection out); sd_ids := ids (so_projection out);
     sd_staged := map staged_entry (so_staged out); sd_removed_paths := so_removed_paths out;
     sd_removed_ids := so_removed_ids out |}.

Definition store_of (stores : gmap Z Store) (bundle_id : Z) : Store :=
  default empty_store (stores !! bundle_id).

Definition run_bundle_sync (bundle_id : Z) (op bundle_path : str) (context : ChangeContext)
    (strict keep_source : bool) (policy : str) (root_version : option str)
    (d : Db) (stores : gmap Z Store) : projected (SyncReport * (Db * gmap Z Store)) :=
  written ← sync_projection sha256 now jsonb_text events read_bytes limits current strict keep_source
              policy root_version (store_of stores bundle_id);
  let '(out, s') := (written : SyncOutcome * Store) in
  match sync_tail bundle_id bundle_path op (sync_write out) context (so_sync_hash out)
          (so_okf_version out) (counters (so_report out)) d with
  | Done _ d' => Projected (so_report out, (d', <[bundle_id := s']> stores))
  | Fail e => Refused e
  | Raise => Raised
  end.

(** ** Steps that leave the concept ids and the bundle rows alone *)

Definition bystander (d d' : Db) : Prop := concepts d' = concepts d /\ bundles d' = bundles d.

#[export] Instance bystander_preorder : PreOrder bystander.
Proof. split; [by intros d|]. intros d1 d2 d3 [? ?] [? ?]. split; congruence. Qed.

(** A statement whose every outcome keeps both. *)
Ltac bystands :=
  (apply keeps_modify; intros ?) || (apply keeps_statement; intros ? ? ?; cbv beta zeta; intros ?);
  unfold update_row in *;
  repeat (case_match || match goal with H : _ ≫= _ = Some _ |- _ => apply bind_Some in H as (? & ? & ?) end);
  simplify_eq; done.

Lemma by_set_state id st rs p o : keeps bystander (set_bundle_state id st rs p o).
Proof. unfold set_bundle_state. bystands. Qed.
Lemma by_bump id : keeps bystander (bump_epoch id).
Proof. unfold bump_epoch. bystands. Qed.
Lemma by_escalate v : keeps bystander (escalate_blanket_invalidation v).
Proof. unfold escalate_blanket_invalidation. bystands. Qed.
Lemma by_scope id k key st rs p : keeps bystander (set_scope_state id k key st rs p).
Proof. unfold set_scope_state. bystands. Qed.
Lemma by_watermark id g e : keeps bystander (advance_watermark id g e).
Proof. unfold advance_watermark. bystands. Qed.
Lemma by_initialize id g h c : keeps bystander (initialize_bundle id g h c).
Proof. unfold initialize_bundle. bystands. Qed.
Lemma by_clear id : keeps bystander (clear_relationship_coverage_missing id).
Proof. unfold clear_relationship_coverage_missing. bystands. Qed.
#[local] Hint Resolve by_set_state by_bump by_escalate by_scope by_watermark by_initialize by_clear : keeps.

Lemma by_missing id : keeps bystander (mark_relationship_coverage_missing id).
Proof. unfold mark_relationship_coverage_missing. keeps_auto. bystands. Qed.
Lemma by_invalidate id : keeps bystander (invalidate_dependent_bundle id).
Proof. unfold invalidate_dependent_bundle. keeps_auto. Qed.
#[local] Hint Resolve by_missing by_invalidate : keeps.

Lemma by_walk_edges ck edges v fr : keeps bystander (walk_edges ck edges v fr).
Proof. revert v fr. induction edges as [|[t k] edges IH]; intros v fr; cbn [walk_edges]; keeps_auto. Qed.
#[local] Hint Resolve by_walk_edges : keeps.
Lemma by_walk fuel ck v fr : keeps bystander (walk fuel ck v fr).
Proof. revert v fr. induction fuel as [|fuel IH]; intros v [|b fr]; cbn [walk]; keeps_auto. Qed.
#[local] Hint Resolve by_walk : keeps.
Lemma by_propagate roots ck : keeps bystander (propagate_transitive roots ck).
Proof. unfold propagate_transitive. keeps_auto. Qed.
#[local] Hint Resolve by_propagate : keeps.
Lemma by_target id k key : keeps bystander (invalidate_target id k key).
Proof. unfold invalidate_target. keeps_auto. Qed.
#[local] Hint Resolve by_target : keeps.
Lemma by_evaluate s ev g sc ch tr ck : keeps bystander (evaluate_dependencies s ev g sc ch tr ck).
Proof.
  unfold evaluate_dependencies. keeps_auto.
  generalize (@nil Z) as acc. induction (due_dependencies _ _ _) as [|x l IH]; intros acc; cbn [evaluate_loop];
    keeps_auto. unfold evaluate_one, invalidate_registered_target. keeps_auto.
Qed.
Lemma by_record id op g ch cx h : keeps bystander (record_event id op g ch cx h).
Proof. unfold record_event. keeps_auto. bystands. Qed.
Lemma by_prune n : keeps bystander (prune_events n).
Proof. unfold prune_events. keeps_auto. bystands. Qed.
Lemma by_activate id g : keeps bystander (activate_staged id g).
Proof. unfold activate_staged. keeps_auto; bystands. Qed.
Lemma by_audit id p op c h n e : keeps bystander (audit_record id p op c h n e).
Proof. by apply keeps_audit; [apply _|]. Qed.
#[local] Hint Resolve by_evaluate by_record by_prune by_activate by_audit : keeps.

Lemma by_record_and_evaluate id w cx g h missing :
  keeps bystander (record_event_and_evaluate id w cx g h missing).
Proof. unfold record_event_and_evaluate. keeps_auto. Qed.
#[local] Hint Resolve by_record_and_evaluate : keeps.

(** ** The two concept sets *)

Definition ids_agree (d : Db) (stores : gmap Z Store) : Prop :=
  forall b id, (b, id) ∈ concepts d <-> is_Some (s_concepts (store_of stores b) !! id).

Lemma removed_ids_dead (s : Store) removed (staged : list Concept) id r :
  paths_unique (s_concepts s) -> s_concepts s !! id = Some r ->
  id ∈ load_removed_concept_ids removed s ++ omap (reclassified_id (load_stored_projection s)) staged
  <-> dead removed staged id r = true.
Proof.
  intros Hu Hr. rewrite elem_of_app. unfold dead. rewrite orb_true_iff, bool_decide_eq_true, reclassified_true.
  unfold load_removed_concept_ids. rewrite !list_elem_of_omap. split.
  - intros [([i q] & Hin%elem_of_map_to_list & Hc)|(e & He & Hc)].
    + case_decide; [|done]. injection Hc as ->. left. congruence.
    + right. unfold reclassified_id in Hc. apply bind_Some in Hc as (old & Ho & Hc).
      apply stored_ids_get in Ho as (q & Hq & Hp); [|done]. case_decide; [done|]. injection Hc as <-.
      exists e. assert (q = r) as -> by congruence. split_and!; [done|done|congruence].
  - intros [Hp|(e & He & Hp & Hne)].
    + left. exists (id, r). rewrite elem_of_map_to_list. split; [done|]. by rewrite decide_True.
    + right. exists e. split; [done|]. unfold reclassified_id.
      assert (bt_get (pc_path (st_concept e)) (ids (load_stored_projection s)) = Some id) as ->.
      { apply stored_ids_get; [done|]. by exists r. }
      cbn. by rewrite decide_False by congruence.
Qed.

(** The concepts of a store after a sync: those not removed, and the staged. *)
Lemma stored_ids_after (s s' : Store) removed (staged : list Concept) id :
  paths_unique (s_concepts s) ->
  written sha256 now staged (drop_concepts (dead removed staged) s) s' ->
  is_Some (s_concepts s' !! id) <->
  (is_Some (s_concepts s !! id) /\ id ∉ load_removed_concept_ids removed s
     ++ omap (reclassified_id (load_stored_projection s)) staged)
  \/ id ∈ map (fun e => pc_id (st_concept e)) staged.
Proof.
  intros Hu W. destruct (w_rows _ _ _ _ _ W) as (rows & Hrows & _ & ->).
  rewrite insert_all_is_Some, (row_for_ids _ _ _ Hrows). apply or_iff_compat_r. split.
  - intros [r [Hr Hd]%drop_concepts_lookup]. split; [by exists r|].
    rewrite (removed_ids_dead s removed staged id r) by done. by rewrite Hd.
  - intros [[r Hr] Hn]. exists r. apply drop_concepts_lookup. split; [done|].
    rewrite (removed_ids_dead s removed staged id r) in Hn by done. by apply not_true_iff_false.
Qed.

Lemma write_concepts_elem bundle_id removed staged d d' b id :
  write_concepts bundle_id removed staged d = Done tt d' ->
  bundles d' = bundles d /\
  ((b, id) ∈ concepts d' <-> ((b, id) ∈ concepts d /\ ~ (b = bundle_id /\ id ∈ removed))
                            \/ (b = bundle_id /\ id ∈ map sg_id staged)).
Proof.
  unfold write_concepts, modify, statement. intros [= <-]. split; [done|]. cbn.
  rewrite elem_of_union, elem_of_filter, elem_of_list_to_set, list_elem_of_fmap. cbn.
  split; (intros [[? ?]|Hin]; [by left|right]).
  - destruct Hin as (e & [= -> ->] & He). split; [done|]. apply list_elem_of_fmap. by exists e.
  - destruct Hin as [-> (e & -> & He)%list_elem_of_fmap]. by exists e.
Qed.

Lemma file_count_size (bundle_id : Z) (ids : gset (Z * list ascii)) (m : gmap (list ascii) (ConceptRow (G := G))) :
  (forall id, (bundle_id, id) ∈ ids <-> is_Some (m !! id)) ->
  size (filter (fun c => c.1 = bundle_id) ids) = size m.
Proof.
  intros Hm. assert (filter (fun c => c.1 = bundle_id) ids
    = list_to_set (pair bundle_id <$> elements (dom m))) as ->.
  { apply set_eq. intros [b id]. rewrite elem_of_filter, elem_of_list_to_set, list_elem_of_fmap. cbn. split.
    - intros [-> Hin%Hm]. exists id. split; [done|]. by apply elem_of_elements, elem_of_dom.
    - intros (i & [= -> ->] & Hi%elem_of_elements%elem_of_dom). split; [done|]. by apply Hm. }
  rewrite size_list_to_set; [|apply NoDup_fmap; [by intros ? ? [= ->]|apply NoDup_elements]].
  rewrite length_fmap. change (length (elements (dom m))) with (size (dom m)). apply size_dom.
Qed.

(** C4: The catalog row and the stored rows of a sync agree.  A committed sync
    leaves the concept ids the catalog tables record for every bundle equal
    to the ids of the bundle's stored concepts, and the bundle's file count
    equal to how many concepts it stores; the store is intact, and the stores
    of other bundles are as they were. *)
Theorem run_bundle_sync_agrees (bundle_id : Z) (op bundle_path : str) (context : ChangeContext)
    (strict keep : bool) (policy : str) (version : option str) (d d' : Db)
    (stores stores' : gmap Z Store) (report : SyncReport) :
  store_ok (store_of stores bundle_id) -> snapshot_ok current -> ids_agree d stores ->
  run_bundle_sync bundle_id op bundle_path context strict keep policy version d stores
    = Projected (report, (d', stores')) ->
  ids_agree d' stores' /\
  (exists b, bundles d' !! bundle_id = Some b /\
     b_file_count b = Z.of_nat (size (s_concepts (store_of stores' bundle_id)))) /\
  store_ok (store_of stores' bundle_id) /\
  (forall other, other <> bundle_id -> store_of stores' other = store_of stores other).
Proof.
  intros Hok Hsn Hag Hrun. unfold run_bundle_sync in Hrun.
  apply pbind_ok in Hrun as ([out s'] & Hp & Hrun).
  destruct (sync_tail _ _ _ _ _ _ _ _ d) as [ev d1|e|] eqn:Htail; [|done..].
  injection Hrun as <- <- <-.
  destruct (sync_parts _ _ _ _ _ _ _ _ _ _ _ _ _ _ Hsn Hp) as (W & Epr & _ & Erm & _).
  set (s := store_of stores bundle_id) in *. pose proof (ok_paths _ Hok) as Hu.
  assert (store_of (<[bundle_id := s']> stores) bundle_id = s') as Es
    by (unfold store_of; by rewrite lookup_insert_eq).
  assert (forall other, other <> bundle_id ->
    store_of (<[bundle_id := s']> stores) other = store_of stores other) as Eo
    by (intros other Hne; unfold store_of; by rewrite lookup_insert_ne).
  unfold sync_tail in Htail. apply bind_done in Htail as ([] & dc & Hc & Htail).
  assert (forall b id, (b, id) ∈ concepts dc
    <-> is_Some (s_concepts (store_of (<[bundle_id := s']> stores) b) !! id)) as Hdc.
  { intros b id. destruct (write_concepts_elem _ _ _ _ _ b id Hc) as [_ ->]. cbn [sync_write sd_removed_ids sd_staged].
    rewrite (Hag b id). rewrite map_map. cbn. destruct (decide (b = bundle_id)) as [->|Hne].
    - rewrite Es, (stored_ids_after s s' _ _ id Hu W), Erm. tauto.
    - rewrite Eo by done. naive_solver. }
  apply bind_done in Htail as (g & du & Hupd & Htail).
  assert (concepts du = concepts dc /\ exists b, bundles du !! bundle_id = Some b /\
    b_file_count b = Z.of_nat (size (filter (fun c => c.1 = bundle_id) (concepts dc)))) as (Eu & b & Hb & Hcount).
  { unfold update_bundle_row in Hupd. apply bind_done in Hupd as (o & d2 & Hst & Hg).
    assert (d2 = du) as ->.
    { destruct o; cbn in Hg; [by injection Hg as _ ->|done]. }
    unfold statement in Hst. destruct (bundles dc !! bundle_id) as [b|]; [|by injection Hst as <- _].
    destruct (bigint (b_catalog_generation b + 1)) as [n|]; [|done]. cbn in Hst. injection Hst as <- <-.
    cbn. split; [done|]. eexists. split; [apply lookup_insert_eq|]. done. }
  assert (bystander du d1) as [Ec Eb].
  { revert Htail. match goal with |- ?m du = Done ev d1 -> _ =>
      assert (keeps bystander m) as Hk by keeps_auto; apply Hk end. }
  split_and!; [|exists b; split|by rewrite Es; apply (w_ok _ _ _ _ _ W), drop_ok, Hok|exact Eo].
  - intros b' id. by rewrite Ec, Eu.
  - by rewrite Eb.
  - rewrite Hcount. f_equal. apply file_count_size. intros id. apply Hdc.
Qed.

End bundle_sync.

(** ** A concrete sync of a registered bundle *)

Module WholeSync.

#[local] Existing Instances demo_text demo_rows demo_session.

(** The demonstration catalog, its bundles emptied of concepts. *)
Definition catalog : Db := Catalog.set_concepts ∅ demo_catalog.

Abbreviation stores_of := (gmap Z SyncDemo.store).

Definition sync (stores : stores_of) : projected (SyncReport * (Db * stores_of)) :=
  run_bundle_sync (fun b => b) (fun _ => true) sample_events SyncDemo.read sample_limits SyncDemo.cur
    1 (lit "refresh") (lit "/a") default_context true true (lit "warn") None catalog stores.

Definition concepts_after (r : projected (SyncReport * (Db * stores_of))) : option (list (Z * str)) :=
  match r with Projected (_, (d, _)) => Some (elements (concepts d)) | _ => None end.

Example three_concepts : length <$> concepts_after (sync ∅) = Some 3.
Proof. by_eval. Qed.

Lemma nothing_stored : ids_agree (G := Pass.host) (R := toy_rows) catalog ∅.
Proof.
  intros b id. split; [intros Hin; exfalso; revert Hin; apply not_elem_of_empty|].
  intros [r Hr]. unfold store_of in Hr. rewrite lookup_empty in Hr. cbn in Hr. by rewrite lookup_empty in Hr.
Qed.

End WholeSync.

Lemma run_bundle_sync_agrees_witness :
  exists report d' stores', WholeSync.sync ∅ = Projected (report, (d', stores')) /\
    ids_agree d' stores' /\
    exists b, bundles d' !! 1%Z = Some b /\
      b_file_count b = Z.of_nat (size (s_concepts (store_of stores' 1))).
Proof.
  pose proof WholeSync.three_concepts as Hv.
  destruct (WholeSync.sync ∅) as [[report [d' stores']]|e|] eqn:E; [|discriminate Hv..].
  exists report, d', stores'. split; [reflexivity|].
  assert (store_ok (store_of (∅ : WholeSync.stores_of) 1)) as Hok
    by (unfold store_of; rewrite lookup_empty; apply store_ok_empty).
  unfold WholeSync.sync in E.
  destruct (run_bundle_sync_agrees (fun b => b) (fun _ => true) sample_events SyncDemo.read sample_limits
              SyncDemo.cur 1 (lit "refresh") (lit "/a") default_context true true (lit "warn") None
              WholeSync.catalog d' ∅ stores' report Hok SyncDemo.cur_ok WholeSync.nothing_stored E)
    as (H1 & H2 & _).
  split; [exact H1|exact H2].
Defined.
