(* ===== verification/Net.v ===== *)
(** * Addresses, ranges and forwarded clients
      ([Cidr], [TrustedProxies] in [pgokf-web/src/auth.rs]; the URL checks of
      [pgokf-web/src/oidc.rs])

    The address parser is that of the Rust standard library
    ([core::net::parser]); request headers are an interface. *)
From stdpp Require Import prelude strings list countable.
From Stdlib Require Import Ascii ZArith Lia.
From S2P Require Import Prelude Str.

(** [axum::http::HeaderMap]: the values of a header in order, each as its
    [to_str], which may fail. *)
Class HeaderMap : Type := {
  headers : Type;
  get_all : headers -> str -> list (option str)
}.

Definition comma : ascii := ","%char.
Definition colon : ascii := ":"%char.

(** ** [IpAddr] and its parser *)

(** An address with its bits ([to_bits]). *)
Inductive IpAddr : Type :=
| V4 (bits : Z)
| V6 (bits : Z).

#[export] Instance IpAddr_eq_dec : EqDecision IpAddr.
Proof. solve_decision. Defined.

#[export] Instance IpAddr_countable : Countable IpAddr.
Proof.
  apply (inj_countable' (fun a => match a with V4 b => inl b | V6 b => inr b end)
           (fun s => match s with inl b => V4 b | inr b => V6 b end)).
  by intros [].
Defined.

Definition to_digit (radix : Z) (c : ascii) : option Z :=
  let n := Z.of_N (byte c) in
  let d := if is_ascii_digit c then Some (n - 48)%Z
           else if is_ascii_lowercase c then Some (n - 87)%Z
           else if is_ascii_uppercase c then Some (n - 55)%Z else None in
  v ← d; if (v <? radix)%Z then Some v else None.

(** The digit loop of [read_number]; [count] digits have been read. *)
Fixpoint read_digits (radix : Z) (most count : nat) (acc : Z) (s : str) : option (Z * nat * str) :=
  match s with
  | c :: s' =>
      match to_digit radix c with
      | Some d => if (most <=? count)%nat then None
                  else read_digits radix most (Datatypes.S count) (acc * radix + d) s'
      | None => Some (acc, count, s)
      end
  | [] => Some (acc, count, s)
  end.

Definition read_number (radix : Z) (most : nat) (zero_prefix : bool) (limit : Z) (s : str)
  : option (Z * str) :=
  '(n, count, rest) ← read_digits radix most 0 0 s;
  if decide (count = 0%nat) then None
  else if negb zero_prefix && bool_decide (head s = Some "0"%char) && (1 <? count)%nat then None
  else if (n <=? limit)%Z then Some (n, rest) else None.

Definition read_given_char (target : ascii) (s : str) : option str :=
  match s with c :: s' => if decide (c = target) then Some s' else None | [] => None end.

Definition read_separator {A} (sep : ascii) (index : nat) (inner : str -> option (A * str)) (s : str)
  : option (A * str) :=
  match index with
  | O => inner s
  | _ => s' ← read_given_char sep s; inner s'
  end.

Fixpoint read_octets (left index : nat) (acc : Z) (s : str) : option (Z * str) :=
  match left with
  | O => Some (acc, s)
  | Datatypes.S left' =>
      '(n, s') ← read_separator dot index (read_number 10 3 false 255) s;
      read_octets left' (Datatypes.S index) (acc * 256 + n) s'
  end.
Definition read_ipv4_addr (s : str) : option (Z * str) := read_octets 4 0 0 s.

(** [read_groups] into [left] groups from the index on: the groups, whether
    they end with an embedded IPv4 address, and the rest. *)
Fixpoint read_groups (left index : nat) (s : str) : list Z * bool * str :=
  match left with
  | O => ([], false, s)
  | Datatypes.S left' =>
      match (if (1 <? left)%nat then read_separator colon index read_ipv4_addr s else None) with
      | Some (a, s') => ([(a / 65536)%Z; (a mod 65536)%Z], true, s')
      | None =>
          match read_separator colon index (read_number 16 4 true 65535) s with
          | Some (g, s') => let '(gs, v4, rest) := read_groups left' (Datatypes.S index) s' in
                            (g :: gs, v4, rest)
          | None => ([], false, s)
          end
      end
  end.

Definition groups_bits (gs : list Z) : Z := fold_left (fun acc g => (acc * 65536 + g)%Z) gs 0%Z.

Definition read_ipv6_addr (s : str) : option (Z * str) :=
  let '(head, head_ipv4, s) := read_groups 8 0 s in
  if decide (length head = 8%nat) then Some (groups_bits head, s)
  else if head_ipv4 : bool then None
  else
    s ← read_given_char colon s;
    s ← read_given_char colon s;
    let '(tail, _, s) := read_groups (8 - (length head + 1)) 0 s in
    Some (groups_bits (head ++ replicate (8 - length head - length tail) 0%Z ++ tail), s).

(** [text.parse::<IpAddr>()]: the parser must use the whole text. *)
Definition parse_ip (s : str) : option IpAddr :=
  match (match read_ipv4_addr s with
         | Some (a, rest) => Some (V4 a, rest)
         | None => '(a, rest) ← read_ipv6_addr s; Some (V6 a, rest)
         end) with
  | Some (ip, []) => Some ip
  | _ => None
  end.

(** [Ipv6Addr::to_ipv4_mapped] *)
Definition to_ipv4_mapped (bits : Z) : option Z :=
  if (Z.shiftr bits 32 =? 65535)%Z then Some (bits mod 2 ^ 32)%Z else None.

(** ** [Cidr] *)

Record Cidr : Type := { cidr_addr : IpAddr; cidr_prefix : Z }.

#[export] Instance Cidr_eq_dec : EqDecision Cidr.
Proof. solve_decision. Defined.

Inductive NetError : Type :=
| NotAnAddress (text : str)
| BadPrefix (text : str).

Definition parse_u8 (s : str) : option Z := n ← parse_u32 s; if (n <=? 255)%Z then Some n else None.

Definition cidr_parse (text : str) : result Cidr NetError :=
  let text := trim text in
  let '(addr, prefix) := match split_once slash text with
                         | Some (a, p) => (a, Some p)
                         | None => (text, None)
                         end in
  let? addr := ok_or (NotAnAddress text) (parse_ip addr) in
  let bits := match addr with V4 _ => 32%Z | V6 _ => 128%Z end in
  let? prefix := match prefix with
                 | None => Ok bits
                 | Some p => ok_or (BadPrefix text)
                               (n ← parse_u8 p; if (n <=? bits)%Z then Some n else None)
                 end in
  Ok {| cidr_addr := addr; cidr_prefix := prefix |}.

(** The two addresses as numbers of one width, when they are comparable. *)
Definition comparable (range ip : IpAddr) : option (Z * Z * Z) :=
  match range, ip with
  | V4 a, V4 b => Some (a, b, 32%Z)
  | V6 a, V6 b => Some (a, b, 128%Z)
  | V4 a, V6 b => b ← to_ipv4_mapped b; Some (a, b, 32%Z)
  | V6 _, V4 _ => None
  end.

Definition u128_max : Z := (2 ^ 128 - 1)%Z.

Definition cidr_mask (bits keep : Z) : Z :=
  if (keep =? 0)%Z then 0%Z else Z.land (Z.shiftl u128_max (bits - keep)) u128_max.

Definition cidr_contains (c : Cidr) (ip : IpAddr) : bool :=
  match comparable (cidr_addr c) ip with
  | None => false
  | Some (a, b, bits) =>
      let mask := cidr_mask bits (cidr_prefix c) in
      (Z.land a mask =? Z.land b mask)%Z
  end.

(** ** [TrustedProxies] *)

Record TrustedProxies : Type := { tp_cidrs : list Cidr; tp_any : bool }.

Definition proxies_parse (text : str) : result TrustedProxies NetError :=
  let text := trim text in
  if decide (text = []) then Ok {| tp_cidrs := []; tp_any := false |}
  else if eq_ignore_ascii_case text (lit "any") then Ok {| tp_cidrs := []; tp_any := true |}
  else
    let? cidrs := rmap_list cidr_parse
                    (List.filter (fun c => negb (bool_decide (trim c = []))) (split_on comma text)) in
    Ok {| tp_cidrs := cidrs; tp_any := false |}.

Definition proxies_trust (p : TrustedProxies) (ip : IpAddr) : bool :=
  tp_any p || existsb (fun c => cidr_contains c ip) (tp_cidrs p).

(** The hops of one header value that are addresses. *)
Definition hops_of (value : str) : list IpAddr := omap (fun hop => parse_ip (trim hop)) (split_on comma value).

Section client.
Context `{HM : HeaderMap}.

Definition X_FORWARDED_FOR : str := lit "x-forwarded-for".

Definition forwarded (h : headers) : list IpAddr :=
  concat (map hops_of (omap (fun v => v) (get_all h X_FORWARDED_FOR))).

Definition opt_or {A} (a b : option A) : option A := match a with Some _ => a | None => b end.

Definition client_ip (p : TrustedProxies) (h : headers) (peer : option IpAddr) : option IpAddr :=
  peer ← peer;
  if proxies_trust p peer then
    let hops := forwarded h in
    opt_or (opt_or (List.find (fun ip => negb (proxies_trust p ip)) (reverse hops)) (head hops)) (Some peer)
  else Some peer.

End client.

(** ** The URL checks *)

(** [s.split([...]).next().unwrap_or_default()]: up to the first of the
    characters. *)
Fixpoint up_to (stop : ascii -> bool) (s : str) : str :=
  match s with
  | [] => []
  | c :: s' => if stop c then [] else c :: up_to stop s'
  end.
Definition url_stop (c : ascii) : bool := bool_decide (c ∈ ["/"%char; "?"%char; "#"%char]).

(** [rsplit('@').next()]: what follows the last one. *)
Definition after_last (c : ascii) (s : str) : str :=
  match rsplit_once c s with Some (_, b) => b | None => s end.

Definition is_loopback_host (rest : str) : bool :=
  let authority := after_last "@"%char (up_to url_stop rest) in
  let host := match rsplit_once colon authority with
              | Some (host, port) => if negb (bool_decide (port = [])) && forallb is_ascii_digit port
                                     then host else authority
              | None => authority
              end in
  bool_decide (host ∈ [lit "localhost"; lit "127.0.0.1"; lit "[::1]"]).

Inductive UrlError : Type :=
| NoHost
| NotHttps
| NotHttp
| NotPrivate.

Definition check_url (url : str) : result unit UrlError :=
  let url := trim url in
  match strip_prefix (lit "https://") url with
  | Some rest => if bool_decide (rest = []) || starts_with [slash] rest then Err NoHost else Ok tt
  | None => if match strip_prefix (lit "http://") url with
               | Some rest => is_loopback_host rest
               | None => false
               end then Ok tt else Err NotHttps
  end.

(** [Ipv4Addr::is_private], [is_link_local], [is_loopback] and the ranges of
    the IPv6 branch. *)
Definition is_private_v4 (a : Z) : bool :=
  let o1 := (a / 2 ^ 24)%Z in
  let o2 := (a / 2 ^ 16 mod 256)%Z in
  (o1 =? 10)%Z || ((o1 =? 172) && (16 <=? o2) && (o2 <=? 31))%Z || ((o1 =? 192) && (o2 =? 168))%Z.
Definition is_link_local_v4 (a : Z) : bool :=
  ((a / 2 ^ 24 =? 169) && (a / 2 ^ 16 mod 256 =? 254))%Z.
Definition is_loopback_v4 (a : Z) : bool := (a / 2 ^ 24 =? 127)%Z.

Definition private_ip (ip : IpAddr) : bool :=
  match ip with
  | V4 a => is_private_v4 a || is_link_local_v4 a || is_loopback_v4 a
  | V6 a => (a =? 1)%Z || (Z.land (Z.shiftr a 112) 65024 =? 64512)%Z
            || (Z.land (Z.shiftr a 112) 65472 =? 65152)%Z
  end.

Definition site_host (rest : str) : str :=
  let host_port := after_last "@"%char (up_to url_stop rest) in
  match strip_prefix [ "["%char ] host_port with
  | Some h => up_to (fun c => bool_decide (c = "]"%char)) h
  | None => up_to (fun c => bool_decide (c = colon)) host_port
  end.

Definition check_site_url (url : str) : result unit UrlError :=
  if is_ok (check_url url) then Ok tt
  else match strip_prefix (lit "http://") (trim url) with
       | None => Err NotHttp
       | Some rest => if match parse_ip (site_host rest) with
                         | Some ip => private_ip ip
                         | None => false
                         end then Ok tt else Err NotPrivate
       end.

(** * Properties *)

Example parse_ips :
  map parse_ip [lit "10.0.0.14"; lit "::ffff:127.0.0.1"; lit "fd12::1"; lit "010.0.0.1"; lit "1.2.3"; lit "::";
                lit "1:2:3:4:5:6:7:8"; lit "1:2:3:4:5:6:7::"; lit "1::2::3"; lit "1.2.3.4 "]
  = [Some (V4 167772174); Some (V6 281472812449793); Some (V6 336388144277037342741976735184853139457); None; None; Some (V6 0);
     Some (V6 5192455318486707404433266433261576); Some (V6 5192455318486707404433266433261568); None; None].
Proof. by_eval. Qed.

(** ** Addresses are in range *)

Definition ip_bits (ip : IpAddr) : Z := match ip with V4 a | V6 a => a end.
Definition ip_width (ip : IpAddr) : Z := match ip with V4 _ => 32%Z | V6 _ => 128%Z end.
Definition ip_ok (ip : IpAddr) : Prop := (0 <= ip_bits ip < 2 ^ ip_width ip)%Z.

Lemma in_range_spec lo hi c : in_range lo hi c = true -> (lo <= byte c <= hi)%N.
Proof. unfold in_range. by intros [H1%N.leb_le H2%N.leb_le]%andb_prop. Qed.

Lemma to_digit_range radix c d : to_digit radix c = Some d -> (0 <= d < radix)%Z.
Proof.
  unfold to_digit. intros H.
  assert (exists d', (if is_ascii_digit c then Some (Z.of_N (byte c) - 48)%Z
           else if is_ascii_lowercase c then Some (Z.of_N (byte c) - 87)%Z
           else if is_ascii_uppercase c then Some (Z.of_N (byte c) - 55)%Z else None) = Some d'
         /\ d = d' /\ (d' <? radix)%Z = true) as (d' & Hd & -> & Hr).
  { apply bind_Some in H as (d' & Hd & H). destruct (d' <? radix)%Z eqn:E; [|done]. injection H as <-. eauto. }
  apply Z.ltb_lt in Hr. split; [|done].
  unfold is_ascii_digit, is_ascii_lowercase, is_ascii_uppercase in Hd.
  repeat case_match; simplify_eq;
    repeat match goal with H : in_range _ _ _ = true |- _ => apply in_range_spec in H end; lia.
Qed.

Lemma read_digits_nonneg radix most count acc s n k rest :
  (0 <= radix)%Z -> (0 <= acc)%Z -> read_digits radix most count acc s = Some (n, k, rest) -> (0 <= n)%Z.
Proof.
  intros Hr. revert count acc. induction s as [|c s IH]; intros count acc Ha; cbn [read_digits].
  { by intros [= <- _ _]. }
  destruct (to_digit radix c) as [d|] eqn:Hd; [|by intros [= <- _ _]].
  case_match; [done|]. apply to_digit_range in Hd. apply IH. nia.
Qed.

Lemma read_number_range radix most z limit s n rest :
  (0 <= radix)%Z -> read_number radix most z limit s = Some (n, rest) -> (0 <= n <= limit)%Z.
Proof.
  intros Hr. unfold read_number. intros (((m & count) & r) & Hd & H)%bind_Some.
  apply read_digits_nonneg in Hd; [|done..]. repeat case_match; simplify_eq; bool_prop. lia.
Qed.

Lemma read_separator_Some {A} sep i (inner : str -> option (A * str)) s r :
  read_separator sep i inner s = Some r -> exists s', inner s' = Some r.
Proof. destruct i; cbn; [by exists s|]. intros (s' & _ & H)%bind_Some. by exists s'. Qed.

Lemma read_octets_range left i acc s n rest :
  (0 <= acc)%Z -> read_octets left i acc s = Some (n, rest) -> (acc * 256 ^ Z.of_nat left <= n < (acc + 1) * 256 ^ Z.of_nat left)%Z.
Proof.
  revert i acc s. induction left as [|left IH]; intros i acc s Ha; cbn [read_octets].
  { intros [= <- _]. lia. }
  intros ((o & s') & Ho & H)%bind_Some. apply read_separator_Some in Ho as (s2 & Ho).
  apply read_number_range in Ho; [|lia]. apply IH in H; [|lia].
  replace (Z.of_nat (Datatypes.S left)) with (Z.of_nat left + 1)%Z by lia.
  rewrite Z.pow_add_r by lia. nia.
Qed.

Lemma read_ipv4_range s n rest : read_ipv4_addr s = Some (n, rest) -> (0 <= n < 2 ^ 32)%Z.
Proof. intros H. apply read_octets_range in H; [|lia]. cbn in H. lia. Qed.

Definition groups_ok (gs : list Z) : Prop := Forall (fun g => (0 <= g < 65536)%Z) gs.

Lemma read_groups_ok left i s gs v4 rest :
  read_groups left i s = (gs, v4, rest) -> groups_ok gs /\ (length gs <= left)%nat.
Proof.
  revert i s gs v4 rest. induction left as [|left IH]; intros i s gs v4 rest; cbn [read_groups].
  { intros [= <- _ _]. split; [constructor|done]. }
  destruct (if (1 <? Datatypes.S left)%nat then _ else _) as [[a s']|] eqn:E4.
  - intros [= <- _ _]. destruct (1 <? Datatypes.S left)%nat eqn:Hl; [|done]. apply Nat.ltb_lt in Hl.
    apply read_separator_Some in E4 as (s2 & E4). apply read_ipv4_range in E4.
    split; [|cbn; lia]. repeat constructor; try (apply Z.div_pos; lia);
      try (apply Z.div_lt_upper_bound; lia); apply Z.mod_pos_bound; lia.
  - destruct (read_separator colon i (read_number 16 4 true 65535) s) as [[g s']|] eqn:E;
      [|intros [= <- _ _]; split; [constructor|cbn; lia]].
    destruct (read_groups left (Datatypes.S i) s') as [[gs' v4'] r] eqn:Eg. intros [= <- _ _].
    apply IH in Eg as [Hg Hlen]. apply read_separator_Some in E as (s2 & E). apply read_number_range in E; [|lia].
    split; [constructor; [lia|done]|cbn; lia].
Qed.

Lemma groups_bits_range gs : groups_ok gs -> (0 <= groups_bits gs < 65536 ^ Z.of_nat (length gs))%Z.
Proof.
  unfold groups_bits. intros Hg.
  assert (forall acc, (0 <= acc)%Z -> (acc * 65536 ^ Z.of_nat (length gs)
    <= fold_left (fun acc g => (acc * 65536 + g)%Z) gs acc < (acc + 1) * 65536 ^ Z.of_nat (length gs))%Z) as H.
  { induction Hg as [|g gs Hg Hgs IH]; intros acc Ha; cbn [fold_left length]; [cbn; lia|].
    specialize (IH (acc * 65536 + g)%Z ltac:(lia)).
    replace (Z.of_nat (Datatypes.S (length gs))) with (Z.of_nat (length gs) + 1)%Z by lia.
    rewrite Z.pow_add_r by lia. nia. }
  specialize (H 0%Z ltac:(lia)). lia.
Qed.

Lemma read_ipv6_range s n rest : read_ipv6_addr s = Some (n, rest) -> (0 <= n < 2 ^ 128)%Z.
Proof.
  unfold read_ipv6_addr. destruct (read_groups 8 0 s) as [[hd h4] s1] eqn:Eh.
  apply read_groups_ok in Eh as [Hh Hl]. case_decide as H8.
  { intros [= <- _]. pose proof (groups_bits_range hd Hh) as Hr. rewrite H8 in Hr. exact Hr. }
  destruct h4; [done|]. intros (s2 & _ & (s3 & _ & H)%bind_Some)%bind_Some.
  destruct (read_groups _ 0 s3) as [[tl t4] s4] eqn:Et. injection H as <- _.
  apply read_groups_ok in Et as [Ht Htl].
  assert (groups_ok (hd ++ replicate (8 - length hd - length tl) 0%Z ++ tl)) as Hall.
  { apply Forall_app; split; [done|]. apply Forall_app; split; [|done]. apply Forall_replicate. lia. }
  apply groups_bits_range in Hall as Hr. rewrite !length_app, length_replicate in Hr.
  replace (length hd + (8 - length hd - length tl + length tl))%nat with 8%nat in Hr by lia. exact Hr.
Qed.

Lemma parse_ip_ok s ip : parse_ip s = Some ip -> ip_ok ip.
Proof.
  unfold parse_ip. destruct (read_ipv4_addr s) as [[a rest]|] eqn:E4.
  - destruct rest; [|done]. intros [= <-]. by apply read_ipv4_range in E4.
  - destruct (read_ipv6_addr s) as [[a rest]|] eqn:E6; [|done]. cbn. destruct rest; [|done].
    intros [= <-]. by apply read_ipv6_range in E6.
Qed.

Lemma to_ipv4_mapped_range b a : (0 <= b)%Z -> to_ipv4_mapped b = Some a -> (0 <= a < 2 ^ 32)%Z.
Proof. intros _. unfold to_ipv4_mapped. case_match; [|done]. intros [= <-]. apply Z.mod_pos_bound. lia. Qed.

(** ** A range is the addresses that share its prefix *)

Lemma cidr_mask_bit bits keep i :
  (0 <= keep <= bits)%Z -> (bits <= 128)%Z -> (0 <= i < bits)%Z ->
  Z.testbit (cidr_mask bits keep) i = (bits - keep <=? i)%Z.
Proof.
  intros Hk Hb Hi. unfold cidr_mask. destruct (Z.eqb_spec keep 0) as [->|Hne].
  { rewrite Z.bits_0. symmetry. apply Z.leb_gt. lia. }
  change u128_max with (Z.ones 128). rewrite Z.land_spec, Z.ones_spec_low by lia.
  rewrite andb_true_r, Z.shiftl_spec by lia.
  destruct (Z.leb_spec (bits - keep) i).
  - rewrite Z.ones_spec_low by lia. done.
  - apply Z.testbit_neg_r. lia.
Qed.

Lemma bits_high a bits i : (0 <= a < 2 ^ bits)%Z -> (0 <= bits <= i)%Z -> Z.testbit a i = false.
Proof.
  intros Ha Hi. destruct (decide (a = 0%Z)) as [->|Hne]; [apply Z.bits_0|].
  apply Z.bits_above_log2; [lia|]. apply Z.log2_lt_pow2; [lia|].
  eapply Z.lt_le_trans; [apply Ha|]. apply Z.pow_le_mono_r; lia.
Qed.

Lemma masked_eq a b bits keep :
  (0 <= keep <= bits)%Z -> (bits <= 128)%Z -> (0 <= a < 2 ^ bits)%Z -> (0 <= b < 2 ^ bits)%Z ->
  Z.land a (cidr_mask bits keep) = Z.land b (cidr_mask bits keep)
  <-> forall i, (bits - keep <= i < bits)%Z -> Z.testbit a i = Z.testbit b i.
Proof.
  intros Hk Hb Ha Hbb. split.
  - intros H i Hi. apply (f_equal (fun x => Z.testbit x i)) in H.
    rewrite !Z.land_spec, !cidr_mask_bit in H by lia.
    rewrite (proj2 (Z.leb_le _ _)) in H by lia. by rewrite !andb_true_r in H.
  - intros H. apply Z.bits_inj'. intros i Hi. rewrite !Z.land_spec.
    destruct (decide (i < bits)%Z) as [Hlt|Hge].
    + rewrite cidr_mask_bit by lia. destruct (Z.leb_spec (bits - keep) i); [|by rewrite !andb_false_r].
      by rewrite H by lia.
    + rewrite (bits_high a bits), (bits_high b bits) by lia. done.
Qed.

Lemma cidr_parse_ok text c :
  cidr_parse text = Ok c -> ip_ok (cidr_addr c) /\ (0 <= cidr_prefix c <= ip_width (cidr_addr c))%Z.
Proof.
  unfold cidr_parse. destruct (match split_once slash (trim text) with Some _ => _ | None => _ end) as [addr p].
  intros (ip & Hip & H)%rbind_ok. destruct (parse_ip addr) as [ip'|] eqn:E; [|done]. injection Hip as ->.
  apply parse_ip_ok in E. apply rbind_ok in H as (n & Hn & [= <-]). cbn [cidr_addr cidr_prefix]. split; [done|].
  destruct p as [p|].
  - destruct (parse_u8 p) as [m|] eqn:Em; [|done]. cbn in Hn.
    assert ((if (m <=? ip_width ip)%Z then Some m else None) = Some n) as Hm by (destruct ip; cbn in *; destruct (m <=? _)%Z; cbn in Hn; by simplify_eq).
    clear Hn. destruct (Z.leb_spec m (ip_width ip)); [|done]. injection Hm as ->. split; [|done].
    unfold parse_u8, parse_u32 in Em. apply bind_Some in Em as (v & Hv & Em). case_match; [|done]. injection Em as ->.
    assert (forall s acc r, (0 <= acc)%Z -> digits_value acc s = Some r -> (0 <= r)%Z) as Hpos.
    { induction s as [|x s IH]; intros acc r Ha; cbn; [by intros [= <-]|].
      intros (d & Hd & Hr)%bind_Some. eapply IH; [|exact Hr]. unfold digit_value, is_ascii_digit in Hd.
      destruct (in_range _ _ _) eqn:E1 in Hd; [|done]. injection Hd as <-. apply in_range_spec in E1. lia. }
    destruct (match p with [] => [] | _ :: _ => _ end) as [|x ds]; [done|].
    apply bind_Some in Hv as (r & Hr & Hv). case_match; [|done]. injection Hv as ->. by eapply Hpos in Hr.
  - injection Hn as <-. destruct ip; cbn; lia.
Qed.

(** A range contains exactly the addresses that share its prefix.  For a
    range that was parsed and any address, [contains] answers yes if and only
    if the two are of one family - an IPv4 address mapped into IPv6 counts as
    the IPv4 address it is - and agree on every one of the leading prefix bits. *)
Theorem cidr_contains_exact (text : str) (c : Cidr) (ip : IpAddr) :
  cidr_parse text = Ok c -> ip_ok ip ->
  cidr_contains c ip = true <->
  exists a b bits, comparable (cidr_addr c) ip = Some (a, b, bits) /\
    forall i, (bits - cidr_prefix c <= i < bits)%Z -> Z.testbit a i = Z.testbit b i.
Proof.
  intros [Ha Hp]%cidr_parse_ok Hip. unfold cidr_contains.
  destruct (comparable (cidr_addr c) ip) as [[[a b] bits]|] eqn:Ec; [|naive_solver].
  assert ((0 <= cidr_prefix c <= bits)%Z /\ (bits <= 128)%Z /\ (0 <= a < 2 ^ bits)%Z /\ (0 <= b < 2 ^ bits)%Z)
    as (Hk & Hb & Hab & Hbb).
  { destruct (cidr_addr c) as [x|x], ip as [y|y]; unfold ip_ok in *; cbn in *; try (by simplify_eq; lia).
    destruct (to_ipv4_mapped y) as [z|] eqn:Ez; [|done]. cbn in Ec. simplify_eq.
    apply to_ipv4_mapped_range in Ez; [|lia]. lia. }
  rewrite Z.eqb_eq, masked_eq by done. naive_solver.
Qed.

Lemma cidr_contains_exact_witness :
  exists c, cidr_parse (lit "10.0.0.0/16") = Ok c /\ cidr_contains c (V6 281470849515534) = true /\
    exists a b bits, comparable (cidr_addr c) (V6 281470849515534) = Some (a, b, bits) /\
      forall i, (bits - cidr_prefix c <= i < bits)%Z -> Z.testbit a i = Z.testbit b i.
Proof.
  exists {| cidr_addr := V4 167772160; cidr_prefix := 16 |}.
  assert (cidr_parse (lit "10.0.0.0/16") = Ok {| cidr_addr := V4 167772160; cidr_prefix := 16 |}) as E by by_eval.
  assert (cidr_contains {| cidr_addr := V4 167772160; cidr_prefix := 16 |} (V6 281470849515534) = true) as Hc by by_eval.
  split; [exact E|]. split; [exact Hc|].
  apply (cidr_contains_exact (lit "10.0.0.0/16") _ (V6 281470849515534)); [exact E| |exact Hc].
  unfold ip_ok. cbn. lia.
Defined.

(** ** The client behind trusted proxies *)

Lemma split_on_concat c s t : split_on c (s ++ c :: t) = split_on c s ++ split_on c t.
Proof.
  induction s as [|x s IH]; cbn [app split_on].
  { by rewrite decide_True. }
  rewrite IH. case_decide; [done|].
  destruct (split_on c s) as [|p ps] eqn:E; [|done]. by apply split_on_not_nil in E.
Qed.

Lemma hops_of_app s t : hops_of (s ++ comma :: t) = hops_of s ++ hops_of t.
Proof. unfold hops_of. by rewrite split_on_concat, omap_app. Qed.

Lemma find_app_skip {A} (f : A -> bool) xs ys :
  Forall (fun x => f x = false) xs -> List.find f (xs ++ ys) = List.find f ys.
Proof. induction 1 as [|x xs Hx _ IH]; [done|]. cbn. by rewrite Hx. Qed.

Section client_props.
Context `{HM : HeaderMap}.

(** What the proxies report, oldest first. *)
Lemma client_ip_hops (p : TrustedProxies) (h : headers) (peer c : IpAddr) before after :
  proxies_trust p peer = true -> forwarded h = before ++ c :: after ->
  proxies_trust p c = false -> Forall (fun ip => proxies_trust p ip = true) after ->
  client_ip p h (Some peer) = Some c.
Proof.
  intros Hp Hf Hc Ha. unfold client_ip. cbn. rewrite Hp, Hf.
  rewrite reverse_app, reverse_cons, <- app_assoc.
  rewrite find_app_skip by (apply Forall_reverse; eapply Forall_impl; [|exact Ha]; by intros ip ->).
  cbn. by rewrite Hc.
Qed.

(** Behind proxies trusted by their addresses, the client is not the
    client's to choose.  A peer that is not a trusted proxy is the client,
    whatever its headers say.  When the peer is a trusted proxy and what the
    proxies reported is the client's address [c], which no range trusts,
    followed by addresses of trusted proxies only, the answer is [c]: whatever
    header values the client sent in front of it, in the same value or in
    others, address or not. *)
Theorem client_ip_not_spoofed (p : TrustedProxies) (h : headers) (peer : IpAddr) :
  (proxies_trust p peer = false -> client_ip p h (Some peer) = Some peer) /\
  forall values spoofed reported c proxies,
    proxies_trust p peer = true ->
    get_all h X_FORWARDED_FOR = values ++ [Some (spoofed ++ comma :: reported)] ->
    hops_of reported = c :: proxies -> proxies_trust p c = false ->
    Forall (fun ip => proxies_trust p ip = true) proxies ->
    client_ip p h (Some peer) = Some c.
Proof.
  split.
  - intros Hp. unfold client_ip. cbn. by rewrite Hp.
  - intros values spoofed reported c proxies Hp Hv Hr Hc Ha.
    apply (client_ip_hops p h peer c (concat (map hops_of (omap (fun v => v) values)) ++ hops_of spoofed) proxies);
      [done| |done..].
    unfold forwarded. rewrite Hv, omap_app. cbn. rewrite map_app, concat_app. cbn.
    by rewrite app_nil_r, hops_of_app, Hr, <- app_assoc.
Qed.

End client_props.

(** *** Concrete requests *)

(** Headers as a list of pairs of lower-case names and texts. *)
#[export] Instance toy_headers : HeaderMap :=
  {| headers := list (str * str);
     get_all h name := omap (fun '(k, v) => if decide (k = name) then Some (Some v) else None) h |}.

Definition lan : TrustedProxies :=
  {| tp_cidrs := [{| cidr_addr := V4 167772160; cidr_prefix := 8 |}]; tp_any := false |}.

Lemma client_ip_not_spoofed_witness :
  proxies_parse (lit "10.0.0.0/8") = Ok lan /\
  client_ip lan [(X_FORWARDED_FOR, lit "198.51.100.9, 203.0.113.7, 10.0.0.3")] (Some (V4 167772162))
  = parse_ip (lit "203.0.113.7").
Proof.
  split; [by_eval|].
  refine (proj2 (client_ip_not_spoofed lan [(X_FORWARDED_FOR, lit "198.51.100.9, 203.0.113.7, 10.0.0.3")]
    (V4 167772162)) [] (lit "198.51.100.9") (lit " 203.0.113.7, 10.0.0.3") (V4 3405803783) [V4 167772163] _ _ _ _ _);
    [by_eval..|].
  constructor; [by_eval|constructor].
Defined.

(** A server told to trust [any] peer trusts every hop, and falls back to the
    leftmost, which is the one the client wrote. *)
Example any_takes_the_spoofed_hop :
  (proxies_parse (lit "any"),
   client_ip {| tp_cidrs := []; tp_any := true |}
     [(X_FORWARDED_FOR, lit "198.51.100.9, 203.0.113.7")] (Some (V4 167772162)))
  = (Ok {| tp_cidrs := []; tp_any := true |}, parse_ip (lit "198.51.100.9")).
Proof. by_eval. Qed.

(** A proxy that reports a port is skipped, and the hop before it believed. *)
Example unparsed_hop_exposes_the_spoofed :
  client_ip lan [(X_FORWARDED_FOR, lit "198.51.100.9, 203.0.113.7:4711")] (Some (V4 167772162))
  = parse_ip (lit "198.51.100.9").
Proof. by_eval. Qed.

(** Credentials before the host, a port after it, and a host that merely
    begins with the loopback name. *)
Example loopback_hosts :
  map is_loopback_host [lit "localhost:8080/x"; lit "me@127.0.0.1"; lit "[::1]:443"; lit "localhost.evil.example";
                        lit "evil.example/@localhost"] = [true; true; true; false; false].
Proof. by_eval. Qed.
