(* ===== verification/WebState.v ===== *)
(** * The identity state of the web console and the programs over it
      ([pgokf_web] tables in [extension/src/catalog/web_identity.rs]; the
      in-memory state of [pgokf-web/src/auth.rs] and [provider.rs])

    A request handler is a program: a tree of atomic actions, each one SQL
    statement or one critical section of a lock.  Programs of several requests
    interleave action by action ([step]), clocks move between them, and a
    statement may fail because the catalog cannot be reached. *)
From stdpp Require Import prelude strings gmap list relations.
From Stdlib Require Import Ascii ZArith Lia.
From S2P Require Import Prelude Str Net.

(** ** Roles and modes *)

Inductive Role : Type := Viewer | Uploader | Editor | Approver | Admin.

#[export] Instance Role_eq_dec : EqDecision Role.
Proof. solve_decision. Defined.

Inductive Mode : Type := MNone | MHeader | MUsers | MOidc.

#[export] Instance Mode_eq_dec : EqDecision Mode.
Proof. solve_decision. Defined.

Inductive ProviderKind : Type := KOidc | KGitHub.

#[export] Instance ProviderKind_eq_dec : EqDecision ProviderKind.
Proof. solve_decision. Defined.

(** ** Rows *)

Record UserRecord : Type := {
  u_role : Role;
  u_hash : option str;
  u_display : option str;
  u_provider : option str
}.

Record SessionRow : Type := {
  s_subject : str;
  s_mode : str;
  s_provider : option str;
  s_expires : Z
}.

Record ProviderSettings : Type := {
  ps_id : str;
  ps_enabled : bool;
  ps_kind : ProviderKind;
  ps_issuer : str;
  ps_client_id : str;
  ps_client_secret : option str;
  ps_redirect_url : str;
  ps_scopes : str;
  ps_subject_claims : str;
  ps_groups_claim : str;
  ps_provider_name : str;
  ps_role_map : str;
  ps_default_role : Role;
  ps_updated_at : str;
  ps_updated_by : str
}.

(** ** Errors the console surfaces *)

Inductive WebError : Type :=
| Unavailable
| NotUtf8Address (e : NetError)
| RoleMapEntry (entry : str)
| RoleMapRole (entry : str)
| ShortSecret
| NoRandom
| ExpiryOverflow
| NonceTaken (nonce : str)
| RowRefused (name : str)
| AlreadyExists (name : str)
| NotAUser (name : str)
| NoPasswordHere (name : str)
| LastUser
| BadName (name : str)
| DisplayControl
| DisplayTooLong
| ShortPassword
| HashFailed
| NotAdmitting
| NeitherFoundNorRecorded (name : str)
| NoLongerAUser (name : str)
| SecretWithoutSealer
| SecretDoesNotOpen
| EmptyClientId
| BadUrl (e : UrlError)
| NoSubjectClaim.

(** ** Built providers and the throttle *)

Record RoleMapping : Type := { rm_map : list (str * Role); rm_default : Role }.

Record OidcConfig : Type := {
  oc_id : option str;
  oc_kind : ProviderKind;
  oc_issuer : str;
  oc_client_id : str;
  oc_client_secret : option str;
  oc_redirect_uri : str;
  oc_scopes : str;
  oc_subject_claims : list str;
  oc_groups_claim : str;
  oc_roles : RoleMapping;
  oc_provider_name : str
}.

(** [State]: a provider, or why there is none. *)
Inductive ProviderState : Type :=
| Provider (c : OidcConfig)
| Unbuildable (why : WebError).

Record Live : Type := { lv_stamp : str; lv_at : Z; lv_state : ProviderState }.

Definition live_answer (l : Live) : option OidcConfig :=
  match lv_state l with Provider c => Some c | Unbuildable _ => None end.

(** The instant is in nanoseconds. *)
Record Failures : Type := { f_count : Z; f_until : Z }.

Abbreviation failure_key := (str * option IpAddr)%type.

(** The tables, the memory of one instance, and three clocks: the catalog's
    in microseconds, the host's in seconds, and its monotonic one. *)
Record Web : Type := {
  w_users : gmap (list ascii) UserRecord;
  w_sessions : gmap (list ascii) SessionRow;
  w_providers : gmap (list ascii) ProviderSettings;
  w_failures : gmap (list ascii * option IpAddr) Failures;
  w_live : gmap (list ascii) Live;
  w_db_now : Z;
  w_unix : Z;
  w_instant : Z
}.

Definition set_users u (w : Web) : Web :=
  {| w_users := u; w_sessions := w_sessions w; w_providers := w_providers w; w_failures := w_failures w;
     w_live := w_live w; w_db_now := w_db_now w; w_unix := w_unix w; w_instant := w_instant w |}.
Definition set_sessions s (w : Web) : Web :=
  {| w_users := w_users w; w_sessions := s; w_providers := w_providers w; w_failures := w_failures w;
     w_live := w_live w; w_db_now := w_db_now w; w_unix := w_unix w; w_instant := w_instant w |}.
Definition set_providers p (w : Web) : Web :=
  {| w_users := w_users w; w_sessions := w_sessions w; w_providers := p; w_failures := w_failures w;
     w_live := w_live w; w_db_now := w_db_now w; w_unix := w_unix w; w_instant := w_instant w |}.
Definition set_failures f (w : Web) : Web :=
  {| w_users := w_users w; w_sessions := w_sessions w; w_providers := w_providers w; w_failures := f;
     w_live := w_live w; w_db_now := w_db_now w; w_unix := w_unix w; w_instant := w_instant w |}.
Definition set_live l (w : Web) : Web :=
  {| w_users := w_users w; w_sessions := w_sessions w; w_providers := w_providers w; w_failures := w_failures w;
     w_live := l; w_db_now := w_db_now w; w_unix := w_unix w; w_instant := w_instant w |}.
Definition set_clocks (db unix instant : Z) (w : Web) : Web :=
  {| w_users := w_users w; w_sessions := w_sessions w; w_providers := w_providers w; w_failures := w_failures w;
     w_live := w_live w; w_db_now := db; w_unix := unix; w_instant := instant |}.

(** ** Programs *)

(** A program has an answer, an error it surfaces, or an action next: an SQL
    statement ([Query]), which may also fail, or a step on the instance's own
    memory ([Local]), which may not. *)
Inductive prog (A : Type) : Type :=
| Answer (a : A)
| Bail (e : WebError)
| Query {X : Type} (f : Web -> X * Web) (k : X -> prog A)
| Local {X : Type} (f : Web -> X * Web) (k : X -> prog A).
Arguments Answer {A} a.
Arguments Bail {A} e.
Arguments Query {A X} f k.
Arguments Local {A X} f k.

Fixpoint andthen {A B} (m : prog A) (k : A -> prog B) : prog B :=
  match m with
  | Answer a => k a
  | Bail e => Bail e
  | Query f k' => Query f (fun x => andthen (k' x) k)
  | Local f k' => Local f (fun x => andthen (k' x) k)
  end.

Declare Scope web_scope.
Delimit Scope web_scope with web.
Notation "'let!' x ':=' m 'in' k" := (andthen m (fun x => k))
  (at level 200, x pattern, m at level 100, k at level 200) : web_scope.
Notation "m ';;' k" := (andthen m (fun _ => k))
  (at level 100, k at level 200, right associativity) : web_scope.
Open Scope web_scope.

Definition query {X} (f : Web -> X * Web) : prog X := Query f Answer.
Definition local {X} (f : Web -> X * Web) : prog X := Local f Answer.
Definition reads {X} (f : Web -> X) : prog X := query (fun w => (f w, w)).
Definition looks {X} (f : Web -> X) : prog X := local (fun w => (f w, w)).
Definition writes (f : Web -> Web) : prog unit := query (fun w => (tt, f w)).
Definition changes (f : Web -> Web) : prog unit := local (fun w => (tt, f w)).
Definition from_result {A} (r : result A WebError) : prog A :=
  match r with Ok a => Answer a | Err e => Bail e end.

(** An error of a program as a value. *)
Fixpoint attempt {A} (m : prog A) : prog (result A WebError) :=
  match m with
  | Answer a => Answer (Ok a)
  | Bail e => Answer (Err e)
  | Query f k => Query f (fun x => attempt (k x))
  | Local f k => Local f (fun x => attempt (k x))
  end.

(** A program run alone, every statement answered. *)
Fixpoint run {A} (m : prog A) (w : Web) : result A WebError * Web :=
  match m with
  | Answer a => (Ok a, w)
  | Bail e => (Err e, w)
  | Query f k | Local f k => let '(x, w') := f w in run (k x) w'
  end.

Lemma run_andthen {A B} (m : prog A) (k : A -> prog B) w :
  run (andthen m k) w = match run m w with
                        | (Ok a, w') => run (k a) w'
                        | (Err e, w') => (Err e, w')
                        end.
Proof.
  revert w. induction m as [a|e|X f k' IH|X f k' IH]; intros w; cbn; [done..| |];
    destruct (f w) as [x w']; apply IH.
Qed.

(** ** Interleaving *)

(** The requests in flight, each under a number and with what is left of its
    program; [R] is what requests answer. *)
Record thread (R : Type) : Type := { t_tag : nat; t_prog : prog R }.
Arguments t_tag {R} _.
Arguments t_prog {R} _.

Definition on {R} (tag : nat) (m : prog R) : thread R := {| t_tag := tag; t_prog := m |}.

Inductive thread_step {R} : thread R -> Web -> thread R -> Web -> Prop :=
| query_step tag X (f : Web -> X * Web) (k : X -> prog R) w :
    thread_step (on tag (Query f k)) w (on tag (k (f w).1)) (f w).2
| query_lost tag X (f : Web -> X * Web) (k : X -> prog R) w :
    (* the statement never reached the catalog *)
    thread_step (on tag (Query f k)) w (on tag (Bail Unavailable)) w
| query_unheard tag X (f : Web -> X * Web) (k : X -> prog R) w :
    (* it was executed, but its answer was lost *)
    thread_step (on tag (Query f k)) w (on tag (Bail Unavailable)) (f w).2
| local_step tag X (f : Web -> X * Web) (k : X -> prog R) w :
    thread_step (on tag (Local f k)) w (on tag (k (f w).1)) (f w).2.

(** Requests arrive, proceed in any order, and clocks move; the monotonic
    clock never goes back. *)
Inductive step {R} (arrives : thread R -> Prop) : list (thread R) * Web -> list (thread R) * Web -> Prop :=
| step_arrive t ts w : arrives t -> step arrives (ts, w) (ts ++ [t], w)
| step_thread before t t' after w w' :
    thread_step t w t' w' -> step arrives (before ++ t :: after, w) (before ++ t' :: after, w')
| step_tick ts w db unix instant :
    (w_instant w <= instant)%Z -> step arrives (ts, w) (ts, set_clocks db unix instant w).

Definition reaches {R} (arrives : thread R -> Prop) := rtc (step arrives).

(** The next action of a program, carried out. *)
Definition advance {R} (m : prog R) (w : Web) : prog R * Web :=
  match m with
  | Query f k | Local f k => let '(x, w') := f w in (k x, w')
  | _ => (m, w)
  end.

(** A schedule says which request goes next. *)
Fixpoint schedule {R} (script : list nat) (c : list (thread R) * Web) : list (thread R) * Web :=
  match script with
  | [] => c
  | i :: script' =>
      schedule script'
        match c.1 !! i with
        | Some t => let '(m, w') := advance (t_prog t) c.2 in (<[i := on (t_tag t) m]> c.1, w')
        | None => c
        end
  end.

(** *** What every action of a program does *)

Fixpoint acts (P : Web -> Web -> Prop) {A} (m : prog A) : Prop :=
  match m with
  | Answer _ | Bail _ => True
  | Query f k | Local f k => forall w, P w (f w).2 /\ acts P (k (f w).1)
  end.

Lemma acts_answer P {A} (a : A) : acts P (Answer a).
Proof. done. Qed.
Lemma acts_bail P {A} e : acts P (@Bail A e).
Proof. done. Qed.
Lemma acts_andthen P {A B} (m : prog A) (k : A -> prog B) :
  acts P m -> (forall a, acts P (k a)) -> acts P (andthen m k).
Proof. intros Hm Hk. induction m; cbn in *; naive_solver. Qed.

Lemma acts_reads P `{!Reflexive P} {X} (f : Web -> X) : acts P (reads f).
Proof. intros w. by split. Qed.
Lemma acts_looks P `{!Reflexive P} {X} (f : Web -> X) : acts P (looks f).
Proof. intros w. by split. Qed.
Lemma acts_writes P (f : Web -> Web) : (forall w, P w (f w)) -> acts P (writes f).
Proof. intros H w. by split. Qed.
Lemma acts_changes P (f : Web -> Web) : (forall w, P w (f w)) -> acts P (changes f).
Proof. intros H w. by split. Qed.
Lemma acts_query1 P {X} (f : Web -> X * Web) : (forall w, P w (f w).2) -> acts P (query f).
Proof. intros H w. by split. Qed.
Lemma acts_result P {A} (r : result A WebError) : acts P (from_result r).
Proof. by destruct r. Qed.

Lemma acts_attempt P {A} (m : prog A) : acts P m -> acts P (attempt m).
Proof. induction m; cbn; naive_solver. Qed.

Create HintDb acts.
#[export] Hint Opaque acts : acts.

(** Split a program into its actions; the known ones are hints. *)
Ltac acts_step :=
  match goal with
  | |- acts _ (Answer _) => exact I
  | |- acts _ (Bail _) => exact I
  | |- acts _ (andthen _ _) => apply acts_andthen; [|intros ?]
  | |- acts _ (reads _) => apply acts_reads; apply _
  | |- acts _ (looks _) => apply acts_looks; apply _
  | |- acts _ (from_result _) => apply acts_result
  | |- acts _ (attempt _) => apply acts_attempt
  | |- acts _ (match ?x with _ => _ end) => destruct x
  | |- acts _ (let '(_, _) := ?x in _) => destruct x
  | |- acts _ _ => solve [eauto with acts]
  end.
Ltac acts_auto := repeat (cbv beta zeta; acts_step).

(** An invariant the actions keep holds of everything reached. *)
Definition keeps_all (I : Web -> Prop) : Web -> Web -> Prop := fun w w' => I w -> I w'.

#[export] Instance keeps_all_refl I : Reflexive (keeps_all I).
Proof. intros w Hw. exact Hw. Qed.

Lemma thread_step_acts {R} P `{!Reflexive P} (t t' : thread R) w w' :
  thread_step t w t' w' -> acts P (t_prog t) -> P w w' /\ acts P (t_prog t').
Proof. intros []; cbn; naive_solver. Qed.

(** What holds of all arriving programs' actions and of the clocks holds
    between any two states of a run. *)
Lemma reaches_acts {R} (arrives : thread R -> Prop) (P : Web -> Web -> Prop) `{!PreOrder P} c c' :
  (forall t, arrives t -> acts P (t_prog t)) ->
  (forall w db unix instant, (w_instant w <= instant)%Z -> P w (set_clocks db unix instant w)) ->
  Forall (fun t => acts P (t_prog t)) c.1 -> reaches arrives c c' ->
  Forall (fun t => acts P (t_prog t)) c'.1 /\ P c.2 c'.2.
Proof.
  intros Harr Hclock Hall Hr. induction Hr as [c|c c1 c2 Hs _ IH]; [by split|].
  assert (Forall (fun t => acts P (t_prog t)) c1.1 /\ P c.2 c1.2) as [H1 H2].
  { destruct Hs as [t ts w Ht|b t t' a w w' Ht|ts w db u i Hi]; cbn in *.
    - split; [|done]. apply Forall_app. split; [done|]. constructor; [by apply Harr|constructor].
    - apply Forall_app in Hall as [Hb Ha]. inversion_clear Ha as [|? ? Hta Haa].
      destruct (thread_step_acts P _ _ _ _ Ht Hta) as [HP Ht']. split; [|done].
      apply Forall_app. split; [done|]. by constructor.
    - split; [done|]. by apply Hclock. }
  destruct (IH H1) as [H3 H4]. split; [done|]. by etrans.
Qed.

(** *** What a program answers *)

(** Whatever the actions find in states that satisfy [I], every answer of
    the program satisfies [Q]. *)
Fixpoint answers (I : Web -> Prop) {A} (Q : A -> Prop) (m : prog A) : Prop :=
  match m with
  | Answer a => Q a
  | Bail _ => True
  | Query f k | Local f k => forall w, I w -> answers I Q (k (f w).1)
  end.

Lemma answers_andthen I {A B} (Q : A -> Prop) (R : B -> Prop) (m : prog A) (k : A -> prog B) :
  answers I Q m -> (forall a, Q a -> answers I R (k a)) -> answers I R (andthen m k).
Proof. intros Hm Hk. induction m; cbn in *; naive_solver. Qed.

Lemma acts_andthen_answers P {A B} (Q : A -> Prop) (m : prog A) (k : A -> prog B) :
  acts P m -> answers (fun _ => True) Q m -> (forall a, Q a -> acts P (k a)) -> acts P (andthen m k).
Proof. intros Hm Ha Hk. induction m; cbn in *; naive_solver. Qed.

Lemma answers_weaken I {A} (Q R : A -> Prop) (m : prog A) :
  (forall a, Q a -> R a) -> answers I Q m -> answers I R m.
Proof. intros H. induction m; cbn in *; naive_solver. Qed.

Lemma answers_any I {A} (m : prog A) : answers I (fun _ => True) m.
Proof. induction m; cbn; naive_solver. Qed.

Lemma answers_run I {A} (Q : A -> Prop) (m : prog A) w a w' :
  acts (keeps_all I) m -> answers I Q m -> I w -> run m w = (Ok a, w') -> Q a /\ I w'.
Proof.
  revert w. induction m as [x|e|X f k IH|X f k IH]; intros w Ha Hm Hw; cbn in *; [by intros [= -> ->]|done|..];
    destruct (Ha w) as [Hf Hk]; specialize (Hf Hw); specialize (Hm w Hw);
    destruct (f w) as [x w1]; eauto.
Qed.

(** Every request in flight, and every one that arrives, answers [Q] for its
    number as long as the invariant lasts. *)
Lemma reaches_answers {R} (arrives : thread R -> Prop) (I : Web -> Prop) (Q : nat -> R -> Prop) c c' :
  (forall t, arrives t -> acts (keeps_all I) (t_prog t) /\ answers I (Q (t_tag t)) (t_prog t)) ->
  (forall w db unix instant, I w -> I (set_clocks db unix instant w)) ->
  Forall (fun t => acts (keeps_all I) (t_prog t) /\ answers I (Q (t_tag t)) (t_prog t)) c.1 ->
  I c.2 -> reaches arrives c c' ->
  Forall (fun t => acts (keeps_all I) (t_prog t) /\ answers I (Q (t_tag t)) (t_prog t)) c'.1 /\ I c'.2.
Proof.
  intros Harr Hclock Hall Hi Hr. induction Hr as [c|c c1 c2 Hs _ IH]; [done|]. apply IH; clear IH.
  - destruct Hs as [t ts w Ht|b t t' a w w' Ht|ts w db u i Hle]; cbn in *; [..|done].
    + apply Forall_app. split; [done|]. constructor; [by apply Harr|constructor].
    + apply Forall_app in Hall as [Hb Ha]. inversion_clear Ha as [|? ? [H1 H2] Haa].
      apply Forall_app. split; [done|]. constructor; [|done].
      split; [by eapply (thread_step_acts (keeps_all I))|].
      destruct Ht; cbn in *; naive_solver.
  - destruct Hs as [t ts w Ht|b t t' a w w' Ht|ts w db u i Hle]; cbn in *; [done| |by apply Hclock].
    apply Forall_app in Hall as [Hb Ha]. inversion_clear Ha as [|? ? [H1 H2] Haa].
    destruct (thread_step_acts (keeps_all I) _ _ _ _ Ht H1) as [Hk _]. by apply Hk.
Qed.

(** A schedule is one of the runs. *)
Lemma schedule_reaches {R} (arrives : thread R -> Prop) script c :
  reaches arrives c (schedule script c).
Proof.
  revert c. induction script as [|i script IH]; intros [ts w]; [apply rtc_refl|]. cbn [schedule fst snd].
  destruct (ts !! i) as [[tag m]|] eqn:Hi; [|apply IH]. cbn [t_prog t_tag].
  destruct (advance m w) as [m' w'] eqn:Ha.
  eapply rtc_trans; [|apply IH].
  apply list_elem_of_split_length in Hi as (b & a & -> & ->).
  rewrite insert_app_r_alt, Nat.sub_diag by done. cbn.
  destruct m as [x|e|X f k|X f k]; cbn in Ha.
  - injection Ha as <- <-. apply rtc_refl.
  - injection Ha as <- <-. apply rtc_refl.
  - destruct (f w) as [x w1] eqn:Ef. injection Ha as <- <-. apply rtc_once, step_thread.
    pose proof (query_step (R := R) tag X f k w) as Hq. by rewrite Ef in Hq.
  - destruct (f w) as [x w1] eqn:Ef. injection Ha as <- <-. apply rtc_once, step_thread.
    pose proof (local_step (R := R) tag X f k w) as Hq. by rewrite Ef in Hq.
Qed.
