(* ===== verification/WebAuth.v ===== *)
(** * Who a request comes from
      ([pgokf-web/src/auth.rs], [user_store.rs], [session_store.rs],
      [provider.rs], [provider_settings.rs], [seal.rs]; the session side of
      [oidc.rs]; the sign-in handlers of [routes.rs])

    Cryptography, base64, Argon2 and the JSON of session claims are an
    interface.  Random bytes are arguments; [None] is a failing source. *)
From stdpp Require Import prelude strings gmap list.
From Stdlib Require Import Ascii ZArith Lia.
From S2P Require Import Prelude Str Net WebState.

(** What a session cookie carries. *)
Record SessionClaims : Type := {
  cl_subject : str;
  cl_expires : Z;
  cl_nonce : str;
  cl_binding : str;
  cl_display : option str;
  cl_groups : list str;
  cl_provider : option str;
  cl_mode : str
}.

Class Crypto : Type := {
  hmac_sha256 : str -> str -> str;
  sha256_digest : str -> str;
  b64_encode : str -> str;
  b64_decode : str -> option str;
  argon2_hash : str -> str -> option str;
  argon2_verify : str -> str -> bool;
  aead_seal : str -> str -> str -> str;
  aead_open : str -> str -> str -> option str;
  claims_json : SessionClaims -> str;
  claims_of_json : str -> option SessionClaims
}.

(** Base64 without padding round trips over its alphabet, which has no [.],
    [:] or [;]; claims, which are texts and a [u64], round trip; what was sealed
    opens. *)
Class CryptoLaws (K : Crypto) : Prop := {
  b64_round : forall s, b64_decode (b64_encode s) = Some s;
  b64_plain : forall s c, c ∈ b64_encode s -> is_ascii_alphanumeric c = true \/ c = "-"%char \/ c = "_"%char;
  claims_round : forall c, (0 <= cl_expires c < 2 ^ 64)%Z -> claims_of_json (claims_json c) = Some c;
  aead_round : forall key nonce plain, aead_open key nonce (aead_seal key nonce plain) = Some plain
}.

(** [lower] under the collation of the database. *)
Class Collation : Type := { sql_lower : str -> str }.

Definition is_ascii (c : ascii) : bool := (byte c <? 128)%N.

(** Texts of ASCII characters that it makes equal differ at most in the case of
    their letters. *)
Class CollationLaws (C : Collation) : Prop := {
  sql_lower_ascii : forall s t, forallb is_ascii s = true -> forallb is_ascii t = true -> sql_lower s = sql_lower t ->
    map to_ascii_lowercase s = map to_ascii_lowercase t
}.

(** ** [Role], [Mode], [Principal] *)

Definition all_roles : list Role := [Viewer; Uploader; Editor; Approver; Admin].

Definition role_id (r : Role) : str :=
  match r with
  | Viewer => lit "viewer"
  | Uploader => lit "uploader"
  | Editor => lit "editor"
  | Approver => lit "approver"
  | Admin => lit "admin"
  end.

Definition role_parse (id : str) : option Role :=
  let id := trim id in List.find (fun r => bool_decide (role_id r = id)) all_roles.

(** The derived order. *)
Definition role_rank (r : Role) : nat :=
  match r with Viewer => 0 | Uploader => 1 | Editor => 2 | Approver => 3 | Admin => 4 end.

Definition role_allows (r required : Role) : bool := (role_rank required <=? role_rank r)%nat.
Definition role_max (a b : Role) : Role := if (role_rank a <=? role_rank b)%nat then b else a.

Definition mode_id (m : Mode) : str :=
  match m with
  | MNone => lit "none"
  | MHeader => lit "header"
  | MUsers => lit "users"
  | MOidc => lit "oidc"
  end.

Definition mode_parse (id : str) : option Mode :=
  List.find (fun m => bool_decide (mode_id m = id)) [MNone; MHeader; MUsers; MOidc].

Definition kind_id (k : ProviderKind) : str :=
  match k with KOidc => lit "oidc" | KGitHub => lit "github" end.

Record Principal : Type := { p_subject : str; p_display : str; p_role : Role }.

Definition actor (p : Principal) : str := lit "human:" ++ p_subject p.

Definition SUBJECT_MAX : nat := 128.

Definition subject_char (c : ascii) : bool :=
  is_ascii_alphanumeric c || bool_decide (c ∈ ["."%char; "_"%char; "-"%char; "@"%char; "+"%char]).

Definition valid_subject (subject : str) : bool :=
  negb (bool_decide (subject = [])) && (length subject <=? SUBJECT_MAX)%nat && forallb subject_char subject.

Definition non_blank (s : str) : option str := if decide (s = []) then None else Some s.

(** ** [RoleMapping] *)

Definition role_map_entry (entry : str) : result (str * Role) WebError :=
  let? (group, role) := ok_or (RoleMapEntry entry) (split_once "="%char entry) in
  let? role := ok_or (RoleMapRole entry) (role_parse role) in
  Ok (trim group, role).

Definition role_mapping_parse (text : str) (default_role : Role) : result RoleMapping WebError :=
  let? map := rmap_list role_map_entry
                (List.filter (fun e => negb (bool_decide (e = []))) (map trim (split_on comma text))) in
  Ok {| rm_map := map; rm_default := default_role |}.

Definition known_groups (m : RoleMapping) (groups : list str) : list str :=
  List.filter (fun group => existsb (fun e => bool_decide (e.1 = group)) (rm_map m)) groups.

Definition role_for (m : RoleMapping) (groups : list str) : Role :=
  match map snd (List.filter (fun e => bool_decide (e.1 ∈ groups)) (rm_map m)) with
  | [] => rm_default m
  | r :: rs => fold_left role_max rs r
  end.

(** ** [HeaderAuth] *)

Record HeaderAuth : Type := {
  ha_user_header : str;
  ha_name_header : option str;
  ha_groups_header : option str;
  ha_roles : RoleMapping;
  ha_trusted : list Cidr;
  ha_trust_any_peer : bool
}.

Section auth.
Context `{HM : HeaderMap, K : Crypto}.

Definition header_text (h : headers) (name : str) : option str :=
  v ← head (get_all h name); v ← v; non_blank (trim v).

Definition header_trusts (a : HeaderAuth) (peer : option IpAddr) : bool :=
  ha_trust_any_peer a
  || match peer with Some ip => existsb (fun c => cidr_contains c ip) (ha_trusted a) | None => false end.

Definition header_identify (a : HeaderAuth) (h : headers) (peer : option IpAddr) : option Principal :=
  if header_trusts a peer then
    subject ← header_text h (ha_user_header a);
    if valid_subject subject then
      let display := default subject
        (d ← (name ← ha_name_header a; header_text h name);
         if negb (bool_decide (d = [])) && negb (has_control d) then Some d else None) in
      let groups := default [] ((fun g => map trim (split_on comma g))
                                  <$> (name ← ha_groups_header a; header_text h name)) in
      Some {| p_subject := subject; p_display := display; p_role := role_for (ha_roles a) groups |}
    else None
  else None.

(** ** [Sessions] *)

Record Sessions : Type := {
  se_secret : str;
  se_seconds : Z;
  se_cookie_secure : bool;
  se_store : bool
}.

Definition sessions_new (secret : str) (seconds : Z) (secure : bool) : result Sessions WebError :=
  if (length secret <? 32)%nat then Err ShortSecret
  else Ok {| se_secret := secret; se_seconds := seconds; se_cookie_secure := secure; se_store := false |}.

Definition SESSION_COOKIE : str := lit "pgokf_session".

(** [seal] and [open] of a value's JSON: base64, a dot, and a base64 tag. *)
Definition seal_json (ss : Sessions) (json : str) : str :=
  let payload := b64_encode json in
  payload ++ dot :: b64_encode (hmac_sha256 (se_secret ss) payload).

Definition open_json (ss : Sessions) (token : str) : option str :=
  '(payload, tag) ← split_once dot token;
  tag ← b64_decode tag;
  if decide (tag = hmac_sha256 (se_secret ss) payload) then b64_decode payload else None.

Definition seal (ss : Sessions) (c : SessionClaims) : str := seal_json ss (claims_json c).
Definition open (ss : Sessions) (token : str) : option SessionClaims :=
  json ← open_json ss token; claims_of_json json.

Definition cookie (ss : Sessions) (name value : str) (max_age : Z) : str :=
  name ++ lit "=" ++ value ++ lit "; Path=/; HttpOnly; SameSite=Lax; Max-Age=" ++ show_Z max_age
    ++ (if se_cookie_secure ss then lit "; Secure" else []).

Definition COOKIE : str := lit "cookie".

Definition cookie_value (h : headers) (name : str) : option str :=
  let pairs := omap (fun pair => split_once "="%char (trim pair))
                 (concat (map (split_on ";"%char) (omap (fun v => v) (get_all h COOKIE)))) in
  (fun kv => trim kv.2) <$> List.find (fun kv => bool_decide (kv.1 = name)) pairs.

Definition now_unix : prog Z := looks w_unix.

(** The claims of the cookie, before any clock is looked at. *)
Definition cookie_claims (ss : Sessions) (h : headers) : option SessionClaims :=
  token ← cookie_value h SESSION_COOKIE; open ss token.

Definition presented_claims (ss : Sessions) (h : headers) : prog (option SessionClaims) :=
  match cookie_claims ss h with
  | None => Answer None
  | Some claims => let! now := now_unix in
                   Answer (if (now <? cl_expires claims)%Z then Some claims else None)
  end.

Definition presented_mode (ss : Sessions) (h : headers) : prog (option Mode) :=
  let! claims := presented_claims ss h in
  Answer (c ← claims; mode_parse (cl_mode c)).

Definition open_claims (ss : Sessions) (h : headers) (mode : Mode) : prog (option SessionClaims) :=
  match cookie_claims ss h with
  | None => Answer None
  | Some claims =>
      let! now := now_unix in
      Answer (if (now <? cl_expires claims)%Z && bool_decide (cl_mode claims = mode_id mode)
              then Some claims else None)
  end.

(** *** [SessionStore] *)

Definition session_live (w : Web) (nonce subject mode : str) : bool :=
  match w_sessions w !! nonce with
  | Some s => bool_decide (s_subject s = subject) && bool_decide (s_mode s = mode)
              && (w_db_now w <? s_expires s * 1000000)%Z
  | None => false
  end.

Definition is_live (nonce subject mode : str) : prog bool := reads (fun w => session_live w nonce subject mode).

(** A slug as the catalog constrains it. *)
Definition slug_char (c : ascii) : bool := is_ascii_lowercase c || is_ascii_digit c || bool_decide (c = "-"%char).
Definition SLUG_MAX : nat := 32.
Definition valid_slug (id : str) : bool :=
  match id with
  | first :: rest => (is_ascii_lowercase first || is_ascii_digit first)
                     && forallb slug_char rest && (length id <=? SLUG_MAX)%nat
  | [] => false
  end.

(** The CHECK constraints of [pgokf_web.sessions]. *)
Definition session_row_ok (s : SessionRow) : bool :=
  bool_decide (s_mode s ∈ [mode_id MUsers; mode_id MOidc])
  && match s_provider s with
     | Some p => valid_slug p && bool_decide (s_mode s = mode_id MOidc)
     | None => true
     end.

Definition prune_sessions : prog unit :=
  writes (fun w => set_sessions (filter (fun e => (w_db_now w <= s_expires e.2 * 1000000)%Z) (w_sessions w)) w).

Definition insert_session (nonce : str) (row : SessionRow) : prog (result unit WebError) :=
  query (fun w =>
    if bool_decide (is_Some (w_sessions w !! nonce)) then (Err (NonceTaken nonce), w)
    else if session_row_ok row then (Ok tt, set_sessions (<[nonce := row]> (w_sessions w)) w)
    else (Err (RowRefused nonce), w)).

Definition add_session (nonce subject mode : str) (provider : option str) (expires : Z) : prog unit :=
  if (expires <=? i64_max)%Z then
    prune_sessions ;;
    let! r := insert_session nonce {| s_subject := subject; s_mode := mode; s_provider := provider;
                                      s_expires := expires |} in
    from_result r
  else Bail ExpiryOverflow.

Definition remove_session (nonce : str) : prog unit :=
  writes (fun w => set_sessions (delete nonce (w_sessions w)) w).
Definition remove_all_for (subject : str) : prog unit :=
  writes (fun w => set_sessions (filter (fun e => s_subject e.2 <> subject) (w_sessions w)) w).
Definition remove_provider_sessions (provider : str) : prog unit :=
  writes (fun w => set_sessions (filter (fun e => s_provider e.2 <> Some provider) (w_sessions w)) w).
Definition count_for (subject : str) : prog nat :=
  reads (fun w => size (filter (fun e => s_subject e.2 = subject /\ (w_db_now w < s_expires e.2 * 1000000)%Z)
                          (w_sessions w))).

(** *** Opening, reading and ending *)

Definition read_session (ss : Sessions) (h : headers) (mode : Mode) : prog (option SessionClaims) :=
  let! claims := open_claims ss h mode in
  match claims with
  | None => Answer None
  | Some claims =>
      if se_store ss then
        let! live := is_live (cl_nonce claims) (cl_subject claims) (mode_id mode) in
        Answer (if live : bool then Some claims else None)
      else Answer (Some claims)
  end.

Definition end_session_from (ss : Sessions) (h : headers) (mode : Mode) : prog unit :=
  if se_store ss then
    let! claims := open_claims ss h mode in
    match claims with
    | Some claims => remove_session (cl_nonce claims)
    | None => Answer tt
    end
  else Answer tt.

Definition end_all_sessions_of (ss : Sessions) (subject : str) : prog unit :=
  if se_store ss then remove_all_for subject else Answer tt.
Definition end_sessions_opened_by_provider (ss : Sessions) (provider : str) : prog unit :=
  if se_store ss then remove_provider_sessions provider else Answer tt.

(** The [u64] sum wraps in a release build. *)
Definition open_session_with (ss : Sessions) (random : option str) (subject : str) (mode : Mode)
    (binding : str) (display : option str) (groups : list str) (provider : option str) : prog str :=
  let! now := now_unix in
  match random with
  | None => Bail NoRandom
  | Some bytes =>
      let claims := {| cl_subject := subject; cl_expires := ((now + se_seconds ss) mod 2 ^ 64)%Z;
                       cl_nonce := b64_encode bytes; cl_binding := binding; cl_display := display;
                       cl_groups := groups; cl_provider := provider; cl_mode := mode_id mode |} in
      (if se_store ss then add_session (cl_nonce claims) subject (mode_id mode) provider (cl_expires claims)
       else Answer tt) ;;
      Answer (cookie ss SESSION_COOKIE (seal ss claims) (se_seconds ss))
  end.

Definition open_session (ss : Sessions) (random : option str) (subject : str) (mode : Mode) (binding : str)
  : prog str :=
  open_session_with ss random subject mode binding None [] None.

(** ** [UserStore] *)

(** The CHECK constraints of [pgokf_web.users]. *)
Definition display_ok (d : option str) : bool :=
  match d with
  | Some d => negb (bool_decide (d = [])) && negb (has_control d) && (char_count d <=? 256)%nat
  | None => true
  end.
Definition user_row_ok (name : str) (r : UserRecord) : bool :=
  valid_subject name && display_ok (u_display r)
  && match u_provider r with Some p => valid_slug p | None => true end
  && negb (bool_decide (u_hash r = None <-> u_provider r = None)).

Definition record (name : str) : prog (option UserRecord) := reads (fun w => w_users w !! name).

Definition put_user (name : str) (r : UserRecord) (w : Web) : Web := set_users (<[name := r]> (w_users w)) w.

Definition provision (name : str) (role : Role) (display : option str) (provider : str)
  : prog bool :=
  let row := {| u_role := role; u_hash := None; u_display := display; u_provider := Some provider |} in
  let! r := query (fun w =>
    if user_row_ok name row then
      if bool_decide (is_Some (w_users w !! name)) then (Ok false, w) else (Ok true, put_user name row w)
    else (Err (RowRefused name), w)) in
  from_result r.

Definition with_display (d : option str) (r : UserRecord) : UserRecord :=
  {| u_role := u_role r; u_hash := u_hash r; u_display := d; u_provider := u_provider r |}.
Definition with_role (role : Role) (r : UserRecord) : UserRecord :=
  {| u_role := role; u_hash := u_hash r; u_display := u_display r; u_provider := u_provider r |}.
Definition with_hash (hash : str) (r : UserRecord) : UserRecord :=
  {| u_role := u_role r; u_hash := Some hash; u_display := u_display r; u_provider := u_provider r |}.

Definition refresh_display (name provider : str) (display : option str) : prog unit :=
  let! r := query (fun w =>
    match w_users w !! name with
    | Some u => if decide (u_provider u = Some provider /\ u_display u <> display) then
                  if display_ok display then (Ok tt, put_user name (with_display display u) w)
                  else (Err (RowRefused name), w)
                else (Ok tt, w)
    | None => (Ok tt, w)
    end) in
  from_result r.

Definition demote_people_of (provider : str) : prog nat :=
  query (fun w =>
    let falls (e : list ascii * UserRecord) := u_provider e.2 = Some provider /\ u_role e.2 <> Viewer in
    (size (filter falls (w_users w)),
     set_users ((fun u => if decide (u_provider u = Some provider) then with_role Viewer u else u)
                  <$> w_users w) w)).

Definition insert_user (name : str) (role : Role) (hash : str) (display : option str) : prog unit :=
  let row := {| u_role := role; u_hash := Some hash; u_display := display; u_provider := None |} in
  let! r := query (fun w =>
    if user_row_ok name row then
      if bool_decide (is_Some (w_users w !! name)) then (Err (AlreadyExists name), w)
      else (Ok tt, put_user name row w)
    else (Err (RowRefused name), w)) in
  from_result r.

Definition store_set_role (name : str) (role : Role) : prog unit :=
  let! changed := query (fun w =>
    match w_users w !! name with
    | Some u => (true, put_user name (with_role role u) w)
    | None => (false, w)
    end) in
  if changed : bool then Answer tt else Bail (NotAUser name).

Definition user_exists (name : str) : prog bool := reads (fun w => bool_decide (is_Some (w_users w !! name))).

Definition set_hash (name hash : str) : prog unit :=
  let! changed := query (fun w =>
    match w_users w !! name with
    | Some u => if bool_decide (is_Some (u_hash u)) then (true, put_user name (with_hash hash u) w)
                else (false, w)
    | None => (false, w)
    end) in
  if changed : bool then Answer tt
  else
    let! exists_ := user_exists name in
    Bail (if exists_ : bool then NoPasswordHere name else NotAUser name).

Definition remove_row (name : str) : prog unit :=
  let! removed := query (fun w =>
    if bool_decide (is_Some (w_users w !! name)) && (1 <? size (w_users w))%nat
    then (true, set_users (delete name (w_users w)) w) else (false, w)) in
  if removed : bool then Answer tt
  else
    let! exists_ := user_exists name in
    Bail (if exists_ : bool then LastUser else NotAUser name).

End auth.
