(* ===== verification/WebUsers.v ===== *)
(** * People, providers and sign-ins
      ([UsersAuth] and [Authenticator] in [pgokf-web/src/auth.rs]; [seal.rs],
      [provider_settings.rs], [provider.rs]; [OidcAuth::binding], [recognize]
      in [oidc.rs]; the sign-in handlers of [routes.rs])

    Everything here is composed of the statements of [WebAuth]. *)
From stdpp Require Import prelude strings gmap list.
From Stdlib Require Import Ascii ZArith Lia.
From S2P Require Import Prelude Str Net WebState WebAuth.

Section users.
Context `{HM : HeaderMap, K : Crypto, CO : Collation}.

(** ** [Sealer]: a secret under a derived key *)

Definition VERSION : str := lit "v1".
Definition NONCE_LEN : nat := 12.

(** [splitn(3, ':')] with absent parts empty. *)
Definition splitn3 (s : str) : str * str * str :=
  match split_once colon s with
  | None => (s, [], [])
  | Some (a, r) => match split_once colon r with
                   | None => (a, r, [])
                   | Some (b, c) => (a, b, c)
                   end
  end.

Definition sealer_seal (key : str) (nonce : option str) (plain : str) : result str WebError :=
  let? nonce := ok_or NoRandom nonce in
  Ok (VERSION ++ colon :: b64_encode nonce ++ colon :: b64_encode (aead_seal key nonce plain)).

Definition sealer_open (key sealed : str) : result str WebError :=
  let '(version, nonce, sealed) := splitn3 sealed in
  ok_or SecretDoesNotOpen
    (if decide (version = VERSION) then
       nonce ← b64_decode nonce;
       if decide (length nonce = NONCE_LEN) then
         buffer ← b64_decode sealed;
         plain ← aead_open key nonce buffer;
         if utf8_valid plain then Some plain else None
       else None
     else None).

(** ** Providers as an admin set them up *)

Definition slug_for_step (acc : str * bool * bool) (c : ascii) : str * bool * bool :=
  let '(slug, pending, stopped) := acc in
  if stopped : bool then acc
  else if is_ascii_alphanumeric c then
    let dash := pending && negb (bool_decide (slug = [])) in
    let want := if dash : bool then 2 else 1 in
    if (SLUG_MAX <? length slug + want)%nat then (slug, pending, true)
    else (slug ++ (if dash then ["-"%char] else []) ++ [to_ascii_lowercase c], false, false)
  else if is_cont c then acc else (slug, true, false).

Definition dash (c : ascii) : bool := bool_decide (c = "-"%char).

Definition slug_for (name : str) (kind : ProviderKind) : str :=
  let slug := trim_end_matches dash (fold_left slug_for_step name ([], false, false)).1.1 in
  if decide (slug = []) then kind_id kind else slug.

(** The candidate with a number; the subtraction is of lengths that fit. *)
Definition numbered (base : str) (n : nat) : str :=
  let suffix := lit "-" ++ show_Z (Z.of_nat n) in
  trim_end_matches dash (take (length base `min` (SLUG_MAX - length suffix)) base) ++ suffix.

(** [(2..).find(...)], by at most [fuel] candidates. *)
Fixpoint find_free (fuel n : nat) (base : str) (taken : list str) : option str :=
  match fuel with
  | O => None
  | Datatypes.S fuel' => if decide (numbered base n ∈ taken) then find_free fuel' (Datatypes.S n) base taken
                         else Some (numbered base n)
  end.

Definition free_slug (name : str) (kind : ProviderKind) (taken : list str) : option str :=
  let base := slug_for name kind in
  if decide (base ∈ taken) then find_free (Datatypes.S (length taken)) 2 base taken else Some base.

Definition settings_config (s : ProviderSettings) (sealer : option str) : result OidcConfig WebError :=
  let? secret := match ps_client_secret s with
                 | Some ciphertext => let? key := ok_or SecretWithoutSealer sealer in
                                      rmap Some (sealer_open key ciphertext)
                 | None => Ok None
                 end in
  let? roles := role_mapping_parse (ps_role_map s) (ps_default_role s) in
  Ok {| oc_id := Some (ps_id s); oc_kind := ps_kind s; oc_issuer := ps_issuer s;
        oc_client_id := ps_client_id s; oc_client_secret := secret;
        oc_redirect_uri := ps_redirect_url s; oc_scopes := ps_scopes s;
        oc_subject_claims := List.filter (fun c => negb (bool_decide (c = [])))
                               (map trim (split_on comma (ps_subject_claims s)));
        oc_groups_claim := trim (ps_groups_claim s); oc_roles := roles;
        oc_provider_name := trim (ps_provider_name s) |}.

(** [OidcAuth::new] *)
Definition oidc_new (c : OidcConfig) : result OidcConfig WebError :=
  if decide (trim (oc_client_id c) = []) then Err EmptyClientId
  else
    let? _ := rmap_err BadUrl (check_url (oc_issuer c)) in
    let? _ := rmap_err BadUrl (check_site_url (oc_redirect_uri c)) in
    if decide (oc_subject_claims c = []) then Err NoSubjectClaim else Ok c.

Definition build (sealer : option str) (s : ProviderSettings) : result OidcConfig WebError :=
  let? c := settings_config s sealer in oidc_new c.

(** [OidcAuth::binding], [recognize] *)
Definition binding (c : OidcConfig) : str :=
  b64_encode (take 16 (sha256_digest
    (join [nl] [default [] (oc_id c); kind_id (oc_kind c);
                trim_end_matches (fun x => bool_decide (x = slash)) (oc_issuer c); oc_client_id c]))).

Definition recognize (c : OidcConfig) (claims : SessionClaims) : option Principal :=
  if negb (valid_subject (cl_subject claims)) || negb (bool_decide (cl_binding claims = binding c)) then None
  else Some {| p_subject := cl_subject claims;
               p_display := default (cl_subject claims) (cl_display claims);
               p_role := role_for (oc_roles c) (cl_groups claims) |}.

(** ** [ProviderRegistry] *)

Definition BELIEVED_FOR : Z := (30 * 1000000000)%Z.

(** [Instant::elapsed], which does not go below zero. *)
Definition elapsed (w : Web) (at_ : Z) : Z := Z.max 0 (w_instant w - at_).

Definition load (id : str) : prog (option ProviderSettings) := reads (fun w => w_providers w !! id).

Definition touch (id : str) : prog unit :=
  changes (fun w => set_live (alter (fun l => {| lv_stamp := lv_stamp l; lv_at := w_instant w;
                                                 lv_state := lv_state l |}) id (w_live w)) w).

Definition forget (id : str) : prog unit := changes (fun w => set_live (delete id (w_live w)) w).

Definition remember (id stamp : str) (state : ProviderState) : prog (option OidcConfig) :=
  local (fun w =>
    let put := let entry := {| lv_stamp := stamp; lv_at := w_instant w; lv_state := state |} in
               (live_answer entry, set_live (<[id := entry]> (w_live w)) w) in
    match w_live w !! id with
    | Some known => if bool_decide (str_cmp (lv_stamp known) stamp = Gt)
                       && (elapsed w (lv_at known) <? BELIEVED_FOR)%Z
                    then (live_answer known, w) else put
    | None => put
    end).

Definition refresh (sealer : option str) (s : ProviderSettings) : prog (option OidcConfig) :=
  let! known := looks (X := option (option OidcConfig)) (fun w => l ← w_live w !! ps_id s;
                         if decide (lv_stamp l = ps_updated_at s) then Some (live_answer l) else None) in
  match known with
  | Some answer => touch (ps_id s) ;; Answer answer
  | None => remember (ps_id s) (ps_updated_at s)
              (match build sealer s with Ok c => Provider c | Err e => Unbuildable e end)
  end.

Definition current (sealer : option str) (id : str) : prog (option OidcConfig) :=
  let! settings := load id in
  match settings with
  | Some s => if ps_enabled s then refresh sealer s else forget id ;; Answer None
  | None => forget id ;; Answer None
  end.

Definition recent (sealer : option str) (id : str) : prog (option OidcConfig) :=
  let! believed := looks (X := option (option OidcConfig)) (fun w => l ← w_live w !! id;
                            if (elapsed w (lv_at l) <? BELIEVED_FOR)%Z then Some (live_answer l) else None) in
  match believed with
  | Some answer => Answer answer
  | None => current sealer id
  end.

(** ** [UsersAuth] *)

(** The registry is there with its sealer, if there is one. *)
Record UsersAuth : Type := { ua_sessions : Sessions; ua_registry : option (option str) }.

Inductive Admission : Type := New | Known | RefusedProvider (other : str) | RefusedPassword.

Definition fingerprint (hash : str) : str := b64_encode (take 12 (sha256_digest hash)).

Definition DISPLAY_MAX : nat := 256.
Definition PASSWORD_MIN : nat := 12.

Definition validated_display (display : option str) : result (option str) WebError :=
  match (d ← display; non_blank (trim d)) with
  | None => Ok None
  | Some d => if has_control d then Err DisplayControl
              else if (DISPLAY_MAX <? char_count d)%nat then Err DisplayTooLong
              else Ok (Some d)
  end.

Definition validated_password (password : str) : result str WebError :=
  if (char_count password <? PASSWORD_MIN)%nat then Err ShortPassword else Ok password.

Definition hash_password (salt : option str) (password : str) : result str WebError :=
  let? salt := ok_or NoRandom salt in ok_or HashFailed (argon2_hash password salt).

Definition settle (name : str) (r : UserRecord) (provider : str) (display : option str) : prog Admission :=
  match u_provider r with
  | Some own => if decide (own = provider) then refresh_display name provider display ;; Answer Known
                else Answer (RefusedProvider own)
  | None => Answer RefusedPassword
  end.

Definition admit_person (p : Principal) (provider : OidcConfig) : prog Admission :=
  match oc_id provider with
  | None => Bail NotAdmitting
  | Some id =>
      let name := p_subject p in
      let shown := take_chars DISPLAY_MAX (p_display p) in
      let display := if decide (shown = p_subject p) then None else Some shown in
      let! found := record name in
      match found with
      | Some r => settle name r id display
      | None =>
          let! added := provision name Viewer display id in
          if added : bool then Answer New
          else
            let! found := record name in
            match found with
            | Some r => settle name r id display
            | None => Bail (NeitherFoundNorRecorded name)
            end
      end
  end.

Definition add_user (name : str) (role : Role) (display : option str) (password : str) (salt : option str)
  : prog unit :=
  let name := trim name in
  if valid_subject name then
    let! display := from_result (validated_display display) in
    let! hash := from_result (let? password := validated_password password in hash_password salt password) in
    insert_user name role hash display
  else Bail (BadName name).

Definition set_role (name : str) (role : Role) : prog unit := store_set_role name role.

Definition set_password (u : UsersAuth) (name password : str) (salt : option str) : prog unit :=
  let! hash := from_result (let? password := validated_password password in hash_password salt password) in
  set_hash name hash ;;
  end_all_sessions_of (ua_sessions u) name.

Definition remove_user (u : UsersAuth) (name : str) : prog unit :=
  remove_row name ;; end_all_sessions_of (ua_sessions u) name.

(** *** The sign-in throttle *)

Definition FREE_FAILURES : Z := 5.
Definition NANOS : Z := 1000000000.
Definition MAX_COOLDOWN : Z := (15 * 60 * NANOS)%Z.
Definition FAILURE_MEMORY : Z := (3600 * NANOS)%Z.
Definition MAX_NAME_LEN : nat := 256.
Definition MAX_TRACKED_FAILURES : nat := 10000.

Definition cooldown_at (w : Web) (name : str) (peer : option IpAddr) : option Z :=
  entry ← w_failures w !! (trim name, peer);
  if (w_instant w <=? f_until entry)%Z then Some (f_until entry - w_instant w)%Z else None.

Definition cooldown (name : str) (peer : option IpAddr) : prog (option Z) :=
  looks (fun w => cooldown_at w name peer).

Definition throttled (name : str) (peer : option IpAddr) : prog bool :=
  let! wait := cooldown name peer in Answer (bool_decide (is_Some wait)).

(** One more failure of an entry; the [u32] counter wraps. *)
Definition failed_again (now : Z) (f : Failures) : Failures :=
  let count := ((f_count f + 1) mod 2 ^ 32)%Z in
  {| f_count := count;
     f_until := if (FREE_FAILURES <? count)%Z
                then (now + Z.min (2 ^ Z.min (count - FREE_FAILURES) 10 * NANOS) MAX_COOLDOWN)%Z
                else f_until f |}.

Definition remembered (now : Z) (f : Failures) : bool := (Z.max 0 (now - f_until f) <? FAILURE_MEMORY)%Z.

Definition count_failure_at (name : str) (peer : option IpAddr) (w : Web) : Web :=
  if (MAX_NAME_LEN <? length name)%nat then w
  else
    let now := w_instant w in
    let kept := filter (fun e => remembered now e.2 = true) (w_failures w) in
    let key := (name, peer) in
    if bool_decide (kept !! key = None) && (MAX_TRACKED_FAILURES <=? size kept)%nat then set_failures kept w
    else
      let entry := default {| f_count := 0; f_until := now |} (kept !! key) in
      set_failures (<[key := failed_again now entry]> kept) w.

Definition count_failure (name : str) (peer : option IpAddr) : prog unit := changes (count_failure_at name peer).
Definition forget_failures (name : str) (peer : option IpAddr) : prog unit :=
  changes (fun w => set_failures (delete (name, peer) (w_failures w)) w).

Definition DECOY_HASH : str :=
  lit "$argon2id$v=19$m=19456,t=2,p=1$AAAAAAAAAAAAAAAAAAAAAA$Y6DPgaHqK98VOJvF2yIP2m1TPVK0Nk2K7jBCqZqTdxU".

Definition verify (name password : str) (peer : option IpAddr) : prog (option Principal) :=
  let name := trim name in
  if (MAX_NAME_LEN <? length name)%nat then Answer None
  else
    let! held := throttled name peer in
    if held : bool then Answer None
    else
      let! found := record name in
      let verified := argon2_verify (default DECOY_HASH (r ← found; u_hash r)) password in
      match found with
      | Some r =>
          if verified && bool_decide (is_Some (u_hash r)) then
            forget_failures name peer ;;
            Answer (Some {| p_subject := name; p_display := default name (u_display r); p_role := u_role r |})
          else count_failure name peer ;; Answer None
      | None => count_failure name peer ;; Answer None
      end.

(** *** The session of a person *)

Definition issue_cookie (u : UsersAuth) (random : option str) (p : Principal) : prog str :=
  let! found := record (p_subject p) in
  match found with
  | None => Bail (NoLongerAUser (p_subject p))
  | Some r =>
      match u_hash r with
      | None => Bail (NoPasswordHere (p_subject p))
      | Some hash => open_session (ua_sessions u) random (p_subject p) MUsers (fingerprint hash)
      end
  end.

Definition with_role_of (p : Principal) (role : Role) : Principal :=
  {| p_subject := p_subject p; p_display := p_display p; p_role := role |}.

Definition identify_through_provider (u : UsersAuth) (h : headers) : prog (option Principal) :=
  match ua_registry u with
  | None => Answer None
  | Some sealer =>
      let! claims := read_session (ua_sessions u) h MOidc in
      match claims with
      | None => Answer None
      | Some claims =>
          match cl_provider claims with
          | None => Answer None
          | Some id =>
              let! provider := recent sealer id in
              match (c ← provider; recognize c claims) with
              | None => Answer None
              | Some p =>
                  let! found := record (p_subject p) in
                  match found with
                  | Some r => if decide (u_provider r = Some id)
                              then Answer (Some (with_role_of p (role_max (p_role p) (u_role r))))
                              else Answer None
                  | None => Answer (Some p)
                  end
              end
          end
      end
  end.

Definition users_identify (u : UsersAuth) (h : headers) : prog (option Principal) :=
  let! mode := presented_mode (ua_sessions u) h in
  if decide (mode = Some MOidc) then identify_through_provider u h
  else
    let! claims := read_session (ua_sessions u) h MUsers in
    match claims with
    | None => Answer None
    | Some claims =>
        let! found := record (cl_subject claims) in
        match found with
        | None => Answer None
        | Some r =>
            match u_hash r with
            | Some hash =>
                if decide (cl_binding claims = fingerprint hash) then
                  Answer (Some {| p_subject := cl_subject claims;
                                  p_display := default (cl_subject claims) (u_display r);
                                  p_role := u_role r |})
                else Answer None
            | None => Answer None
            end
        end
    end.

(** [OidcAuth::identify] *)
Definition oidc_identify (ss : Sessions) (c : OidcConfig) (h : headers) : prog (option Principal) :=
  let! claims := read_session ss h MOidc in
  Answer (claims ← claims; recognize c claims).

(** ** [Authenticator], [Session] *)

Inductive Authenticator : Type :=
| Anonymous
| AHeader (a : HeaderAuth)
| AUsers (u : UsersAuth)
| AOidc (ss : Sessions) (c : OidcConfig).

Definition auth_mode (a : Authenticator) : Mode :=
  match a with Anonymous => MNone | AHeader _ => MHeader | AUsers _ => MUsers | AOidc _ _ => MOidc end.

Definition identify (a : Authenticator) (h : headers) (peer : option IpAddr) : prog (option Principal) :=
  match a with
  | Anonymous => Answer None
  | AHeader ha => Answer (header_identify ha h peer)
  | AUsers u => users_identify u h
  | AOidc ss c => oidc_identify ss c h
  end.

Definition auth_sessions (a : Authenticator) : option Sessions :=
  match a with AUsers u => Some (ua_sessions u) | AOidc ss _ => Some ss | _ => None end.

(** [Session::role], [Session::allows] *)
Definition session_role (p : option Principal) : Role := match p with Some p => p_role p | None => Viewer end.
Definition session_allows (p : option Principal) (required : Role) : bool := role_allows (session_role p) required.

(** ** The handlers that change who is signed in ([routes.rs]) *)

(** [login_submit]: the cookie of a successful sign-in. *)
Definition login_submit (u : UsersAuth) (proxies : TrustedProxies) (h : headers) (peer : option IpAddr)
    (username password : str) (random : option str) : prog (option str) :=
  let client := client_ip proxies h peer in
  let! verified := verify username password client in
  match verified with
  | Some person => let! c := issue_cookie u random person in Answer (Some c)
  | None => let! _ := cooldown username client in Answer None
  end.

(** [logout], without the provider's own sign-out. *)
Definition logout (a : Authenticator) (h : headers) : prog unit :=
  match auth_sessions a with
  | None => Answer tt
  | Some ss =>
      let! mode := presented_mode ss h in
      end_session_from ss h (default (auth_mode a) mode)
  end.

(** [profile_sessions_end] *)
Definition sign_out_everywhere (a : Authenticator) (person : Principal) : prog unit :=
  match auth_sessions a with
  | None => Answer tt
  | Some ss => end_all_sessions_of ss (p_subject person)
  end.

(** [profile_password]: [None] is a refusal shown on the page. *)
Definition profile_password (u : UsersAuth) (person : Principal) (peer : option IpAddr)
    (current_ new again : str) (salt random : option str) : prog (option str) :=
  let! verified := verify (p_subject person) current_ peer in
  match verified with
  | None => Answer None
  | Some _ =>
      if decide (new = again) then
        let! changed := attempt (set_password u (p_subject person) new salt) in
        match changed with
        | Ok _ => let! c := issue_cookie u random person in Answer (Some c)
        | Err _ => Answer None
        end
      else Answer None
  end.

(** [auth_callback] once the provider's answer is verified: [None] when the
    name is somebody else's. *)
Definition finish_sign_in (a : Authenticator) (ss : Sessions) (provider : OidcConfig) (person : Principal)
    (groups : list str) (random : option str) : prog (option str) :=
  let! refused := match a with
                  | AUsers _ => let! ad := admit_person person provider in
                                Answer match ad with New | Known => false | _ => true end
                  | _ => Answer false
                  end in
  if refused : bool then Answer None
  else
    let! c := open_session_with ss random (p_subject person) MOidc (binding provider)
                (Some (p_display person)) groups (oc_id provider) in
    Answer (Some c).

(** [provider_save] after the provider answered: store, end the sessions and
    the roles of what the registration was before. *)
Definition changed_provider (before settings : ProviderSettings) : bool :=
  let bare s := trim_end_matches (fun x => bool_decide (x = slash)) (ps_issuer s) in
  negb (bool_decide (ps_kind before = ps_kind settings)) || negb (bool_decide (bare before = bare settings))
  || negb (bool_decide (ps_client_id before = ps_client_id settings)).

Definition stamped (stamp : str) (s : ProviderSettings) : ProviderSettings :=
  {| ps_id := ps_id s; ps_enabled := ps_enabled s; ps_kind := ps_kind s; ps_issuer := ps_issuer s;
     ps_client_id := ps_client_id s; ps_client_secret := ps_client_secret s;
     ps_redirect_url := ps_redirect_url s; ps_scopes := ps_scopes s;
     ps_subject_claims := ps_subject_claims s; ps_groups_claim := ps_groups_claim s;
     ps_provider_name := ps_provider_name s; ps_role_map := ps_role_map s;
     ps_default_role := ps_default_role s; ps_updated_at := stamp; ps_updated_by := ps_updated_by s |}.

(** [chars().any(char::is_whitespace)] *)
Fixpoint has_space (s : str) : bool := ws_head false s || match s with [] => false | _ :: s' => has_space s' end.

Definition text_ok (min max : nat) (s : str) : bool :=
  (min <=? char_count s)%nat && (char_count s <=? max)%nat && negb (has_control s).

Definition url_ok (s : str) : bool :=
  match (match strip_prefix (lit "https://") s with Some r => Some r | None => strip_prefix (lit "http://") s end) with
  | Some rest => negb (bool_decide (rest = []))
  | None => false
  end && negb (has_space s) && text_ok 1 2048 s.

(** [client_secret ~ '^v1:[A-Za-z0-9_-]{16}:[A-Za-z0-9_-]{22,}$'] *)
Definition sealed_char (c : ascii) : bool := is_ascii_alphanumeric c || bool_decide (c ∈ ["_"%char; "-"%char]).
Definition sealed_ok (secret : str) : bool :=
  match strip_prefix (VERSION ++ [colon]) secret ≫= split_once colon with
  | Some (nonce, sealed) => (length nonce =? 16)%nat && forallb sealed_char nonce
                            && (22 <=? length sealed)%nat && forallb sealed_char sealed
  | None => false
  end.

(** The CHECK constraints of [pgokf_web.identity_providers]; a [NULL] secret
    passes. *)
Definition provider_row_ok (s : ProviderSettings) : bool :=
  valid_slug (ps_id s) && default true (sealed_ok <$> ps_client_secret s) && url_ok (ps_issuer s) && text_ok 1 512 (ps_client_id s) && url_ok (ps_redirect_url s)
  && text_ok 0 512 (ps_scopes s) && text_ok 1 512 (ps_subject_claims s)
  && text_ok 1 128 (ps_groups_claim s) && negb (has_space (ps_groups_claim s))
  && text_ok 1 64 (ps_provider_name s) && text_ok 0 4096 (ps_role_map s).

(** [identity_providers_provider_name_idx], the unique index on
    [lower(provider_name)]. *)
Definition name_taken (s : ProviderSettings) (w : Web) : bool :=
  negb (bool_decide (map_Forall (fun id o => id = ps_id s
     \/ sql_lower (ps_provider_name o) <> sql_lower (ps_provider_name s)) (w_providers w))).

(** [INSERT], with [ON CONFLICT (id) DO UPDATE] for a change: the constraints
    of the row, then the unique indexes. *)
Definition save_row (s : ProviderSettings) (stamp : str) (is_new : bool) : prog ProviderSettings :=
  let! r := query (fun w =>
    if negb (provider_row_ok s) then (Err (RowRefused (ps_id s)), w)
    else if (is_new && bool_decide (is_Some (w_providers w !! ps_id s))) || name_taken s w
    then (Err (AlreadyExists (ps_id s)), w)
    else (Ok (stamped stamp s), set_providers (<[ps_id s := stamped stamp s]> (w_providers w)) w)) in
  from_result r.

Definition registry_store (s : ProviderSettings) (stamp : str) (provider : OidcConfig) (is_new : bool)
  : prog ProviderSettings :=
  let! saved := save_row s stamp is_new in
  (if ps_enabled saved then let! _ := remember (ps_id saved) (ps_updated_at saved) (Provider provider) in Answer tt
   else forget (ps_id saved)) ;;
  Answer saved.

Definition save_provider (u : UsersAuth) (stored : option ProviderSettings) (settings : ProviderSettings)
    (stamp : str) (provider : OidcConfig) : prog nat :=
  let changed := match stored with Some before => changed_provider before settings | None => false end in
  let is_new := bool_decide (stored = None) in
  let! saved := registry_store settings stamp provider is_new in
  (if negb (ps_enabled saved) || changed then end_sessions_opened_by_provider (ua_sessions u) (ps_id saved)
   else Answer tt) ;;
  if is_new || changed then demote_people_of (ps_id saved) else Answer 0%nat.

Definition remove_settings (id : str) : prog bool :=
  query (fun w => (bool_decide (is_Some (w_providers w !! id)), set_providers (delete id (w_providers w)) w)).

Definition registry_remove (id : str) : prog bool :=
  let! removed := remove_settings id in forget id ;; Answer removed.

Definition remove_provider (u : UsersAuth) (id : str) : prog bool :=
  let! found := load id in
  match found with
  | None => Answer false
  | Some _ =>
      let! _ := registry_remove id in
      end_sessions_opened_by_provider (ua_sessions u) id ;;
      Answer true
  end.

(** ** Requests *)

Inductive request : Type :=
| RIdentify (a : Authenticator) (h : headers) (peer : option IpAddr)
| RLogin (u : UsersAuth) (proxies : TrustedProxies) (h : headers) (peer : option IpAddr)
    (username password : str) (random : option str)
| RLogout (a : Authenticator) (h : headers)
| REverywhere (a : Authenticator) (person : Principal)
| RPassword (u : UsersAuth) (person : Principal) (peer : option IpAddr) (current_ new again : str)
    (salt random : option str)
| RSignIn (a : Authenticator) (ss : Sessions) (provider : OidcConfig) (person : Principal)
    (groups : list str) (random : option str)
| RAddUser (name : str) (role : Role) (display : option str) (password : str) (salt : option str)
| RSetRole (name : str) (role : Role)
| RResetPassword (u : UsersAuth) (name password : str) (salt : option str)
| RRemoveUser (u : UsersAuth) (name : str)
| REndSessions (ss : Sessions) (name : str)
| RSaveProvider (u : UsersAuth) (stored : option ProviderSettings) (settings : ProviderSettings)
    (stamp : str) (provider : OidcConfig)
| RRemoveProvider (u : UsersAuth) (id : str).

Inductive reply : Type :=
| Person (p : option Principal)
| Cookie (c : option str)
| Done.

Definition program (r : request) : prog reply :=
  match r with
  | RIdentify a h peer => let! p := identify a h peer in Answer (Person p)
  | RLogin u proxies h peer name password random =>
      let! c := login_submit u proxies h peer name password random in Answer (Cookie c)
  | RLogout a h => logout a h ;; Answer Done
  | REverywhere a person => sign_out_everywhere a person ;; Answer Done
  | RPassword u person peer current_ new again salt random =>
      let! c := profile_password u person peer current_ new again salt random in Answer (Cookie c)
  | RSignIn a ss provider person groups random =>
      let! c := finish_sign_in a ss provider person groups random in Answer (Cookie c)
  | RAddUser name role display password salt => add_user name role display password salt ;; Answer Done
  | RSetRole name role => set_role name role ;; Answer Done
  | RResetPassword u name password salt => set_password u name password salt ;; Answer Done
  | RRemoveUser u name => remove_user u name ;; Answer Done
  | REndSessions ss name => end_all_sessions_of ss name ;; Answer Done
  | RSaveProvider u stored settings stamp provider =>
      let! _ := save_provider u stored settings stamp provider in Answer Done
  | RRemoveProvider u id => let! _ := remove_provider u id in Answer Done
  end.

(** The nonce of the session a request may open. *)
Definition draws (r : request) : option str :=
  match r with
  | RLogin _ _ _ _ _ _ random | RPassword _ _ _ _ _ _ _ random | RSignIn _ _ _ _ _ random =>
      b64_encode <$> random
  | _ => None
  end.

End users.
