(* ===== verification/WebProps.v ===== *)
(** * What the identity state of the web console guarantees

    Every action of every request is one of the [effect]s below, within what
    the request may do; the theorems are about runs of interleaved requests
    ([WebState.reaches]) and about single requests run alone. *)
From stdpp Require Import prelude strings gmap list relations.
From Stdlib Require Import Ascii ZArith Lia.
From S2P Require Import Prelude Str Net WebState WebAuth WebUsers.

Section effects.
Context `{HM : HeaderMap, K : Crypto, CO : Collation}.

(** ** What a request may do to the state *)

Definition adds_person (r : request) (name : str) : Prop :=
  match r with RAddUser n _ _ _ _ => trim n = name | _ => False end.
Definition sets_role (r : request) (name : str) : Prop :=
  match r with RSetRole n _ => n = name | _ => False end.
Definition sets_password (r : request) (name : str) : Prop :=
  match r with
  | RPassword _ person _ _ _ _ _ _ => p_subject person = name
  | RResetPassword _ n _ _ => n = name
  | _ => False
  end.
Definition removes_person (r : request) (name : str) : Prop :=
  match r with RRemoveUser _ n => n = name | _ => False end.
Definition demotes (r : request) (provider : str) : Prop :=
  match r with RSaveProvider _ _ settings _ _ => ps_id settings = provider | _ => False end.

Inductive effect (r : request) : Web -> Web -> Prop :=
| eff_none w : effect r w w
| eff_fewer_sessions w s : s ⊆ w_sessions w -> effect r w (set_sessions s w)
| eff_session w n row :
    draws r = Some n -> w_sessions w !! n = None ->
    effect r w (set_sessions (<[n := row]> (w_sessions w)) w)
| eff_brought w name d p :
    let row := {| u_role := Viewer; u_hash := None; u_display := d; u_provider := Some p |} in
    user_row_ok name row = true -> w_users w !! name = None -> effect r w (put_user name row w)
| eff_added w name role hash d :
    let row := {| u_role := role; u_hash := Some hash; u_display := d; u_provider := None |} in
    adds_person r name -> user_row_ok name row = true -> w_users w !! name = None ->
    effect r w (put_user name row w)
| eff_display w name u d :
    w_users w !! name = Some u -> display_ok d = true -> effect r w (put_user name (with_display d u) w)
| eff_role w name u role :
    sets_role r name -> w_users w !! name = Some u -> effect r w (put_user name (with_role role u) w)
| eff_hash w name u hash :
    sets_password r name -> w_users w !! name = Some u -> is_Some (u_hash u) ->
    effect r w (put_user name (with_hash hash u) w)
| eff_removed w name :
    removes_person r name -> effect r w (set_users (delete name (w_users w)) w)
| eff_demoted w p :
    demotes r p ->
    effect r w (set_users ((fun u => if decide (u_provider u = Some p) then with_role Viewer u else u)
                             <$> w_users w) w)
| eff_providers w p : effect r w (set_providers p w)
| eff_live w l : effect r w (set_live l w)
| eff_failed w name peer : effect r w (count_failure_at name peer w)
| eff_forgiven w key : effect r w (set_failures (delete key (w_failures w)) w).

#[export] Instance effect_refl r : Reflexive (effect r).
Proof. intros w. constructor. Qed.

Section program.
Context (r : request).

Lemma effects_add_session n subject mode provider expires :
  draws r = Some n -> acts (effect r) (add_session n subject mode provider expires).
Proof.
  intros Hn. unfold add_session, prune_sessions, insert_session. case_match; [|done].
  apply acts_andthen; [apply acts_writes; intros w; apply eff_fewer_sessions, map_filter_subseteq|intros _].
  apply acts_andthen; [apply acts_query1|intros res; apply acts_result].
  intros w. case_bool_decide as Hs; cbn; [constructor|]. case_match; cbn; [|constructor].
  constructor; [done|]. by apply eq_None_not_Some.
Qed.

Lemma effects_remove_session n : acts (effect r) (remove_session n).
Proof. apply acts_writes. intros w. apply eff_fewer_sessions, delete_subseteq. Qed.
Lemma effects_remove_all_for n : acts (effect r) (remove_all_for n).
Proof. apply acts_writes. intros w. apply eff_fewer_sessions, map_filter_subseteq. Qed.
Lemma effects_remove_provider_sessions n : acts (effect r) (remove_provider_sessions n).
Proof. apply acts_writes. intros w. apply eff_fewer_sessions, map_filter_subseteq. Qed.
#[local] Hint Resolve effects_add_session effects_remove_session effects_remove_all_for
  effects_remove_provider_sessions : acts.

Lemma effects_provision name d p : acts (effect r) (provision name Viewer d p).
Proof.
  unfold provision. apply acts_andthen; [apply acts_query1|intros res; apply acts_result].
  intros w. destruct (user_row_ok name _) eqn:Hok; [|constructor]. case_bool_decide as Hs; [constructor|].
  apply eff_brought; [done|]. by apply eq_None_not_Some.
Qed.

Lemma effects_refresh_display name p d : acts (effect r) (refresh_display name p d).
Proof.
  unfold refresh_display. apply acts_andthen; [apply acts_query1|intros res; apply acts_result].
  intros w. destruct (w_users w !! name) as [u|] eqn:Hu; [|constructor].
  case_decide; [|constructor]. destruct (display_ok d) eqn:Hd; [by apply eff_display|constructor].
Qed.

Lemma effects_demote p : demotes r p -> acts (effect r) (demote_people_of p).
Proof. intros H. apply acts_query1. intros w. by apply eff_demoted. Qed.

Lemma effects_insert_user name role hash d : adds_person r name -> acts (effect r) (insert_user name role hash d).
Proof.
  intros H. unfold insert_user. apply acts_andthen; [apply acts_query1|intros res; apply acts_result].
  intros w. destruct (user_row_ok name _) eqn:Hok; [|constructor]. case_bool_decide as Hs; [constructor|].
  apply eff_added; [done..|]. by apply eq_None_not_Some.
Qed.

Lemma effects_store_set_role name role : sets_role r name -> acts (effect r) (store_set_role name role).
Proof.
  intros H. unfold store_set_role. apply acts_andthen; [apply acts_query1|by intros []].
  intros w. destruct (w_users w !! name) as [u|] eqn:Hu; [by apply eff_role|constructor].
Qed.

Lemma effects_set_hash name hash : sets_password r name -> acts (effect r) (set_hash name hash).
Proof.
  intros H. unfold set_hash. apply acts_andthen; [apply acts_query1|intros []; [done|]].
  - intros w. destruct (w_users w !! name) as [u|] eqn:Hu; [|constructor].
    case_bool_decide; [by apply eff_hash|constructor].
  - apply acts_andthen; [apply acts_reads, _|done].
Qed.

Lemma effects_remove_row name : removes_person r name -> acts (effect r) (remove_row name).
Proof.
  intros H. unfold remove_row. apply acts_andthen; [apply acts_query1|intros []; [done|]].
  - intros w. case_match; [by apply eff_removed|constructor].
  - apply acts_andthen; [apply acts_reads, _|done].
Qed.

Lemma effects_touch id : acts (effect r) (touch id).
Proof. apply acts_changes. intros w. apply eff_live. Qed.
Lemma effects_forget id : acts (effect r) (forget id).
Proof. apply acts_changes. intros w. apply eff_live. Qed.
Lemma effects_remember id stamp st : acts (effect r) (remember id stamp st).
Proof. intros w. split; [|done]. repeat case_match; (constructor || apply eff_live). Qed.
Lemma effects_save_row s stamp new : acts (effect r) (save_row s stamp new).
Proof.
  unfold save_row. apply acts_andthen; [apply acts_query1|intros res; apply acts_result].
  intros w. repeat case_match; (constructor || apply eff_providers).
Qed.
Lemma effects_remove_settings id : acts (effect r) (remove_settings id).
Proof. apply acts_query1. intros w. apply eff_providers. Qed.
Lemma effects_count_failure name peer : acts (effect r) (count_failure name peer).
Proof. apply acts_changes. intros w. apply eff_failed. Qed.
Lemma effects_forget_failures name peer : acts (effect r) (forget_failures name peer).
Proof. apply acts_changes. intros w. apply eff_forgiven. Qed.

End program.

#[local] Hint Resolve effects_add_session effects_remove_session effects_remove_all_for
  effects_remove_provider_sessions effects_provision effects_refresh_display effects_demote
  effects_insert_user effects_store_set_role effects_set_hash effects_remove_row effects_touch
  effects_forget effects_remember effects_save_row effects_remove_settings effects_count_failure
  effects_forget_failures : acts.

Ltac effects := acts_auto.

Lemma effects_read_session r ss h m : acts (effect r) (read_session ss h m).
Proof. unfold read_session, open_claims, now_unix, is_live. effects. Qed.
Lemma effects_recent r sealer id : acts (effect r) (recent sealer id).
Proof. unfold recent, current, refresh, load. effects. Qed.
#[local] Hint Resolve effects_read_session effects_recent : acts.

Lemma effects_identify r a h peer : acts (effect r) (identify a h peer).
Proof.
  unfold identify, users_identify, identify_through_provider, oidc_identify, presented_mode, presented_claims,
    now_unix, record. destruct a as [| |u|]; effects.
Qed.

Lemma effects_verify r name password peer : acts (effect r) (verify name password peer).
Proof. unfold verify, throttled, cooldown, record. effects. Qed.
#[local] Hint Resolve effects_identify effects_verify : acts.

Lemma effects_open_session r ss random subject mode b d g p :
  draws r = b64_encode <$> random -> acts (effect r) (open_session_with ss random subject mode b d g p).
Proof.
  intros Hr. unfold open_session_with, now_unix. apply acts_andthen; [apply acts_looks, _|intros now].
  destruct random as [bytes|]; [|done]. apply acts_andthen; [|done].
  case_match; [|done]. by apply effects_add_session.
Qed.

Lemma effects_issue_cookie r u random p :
  draws r = b64_encode <$> random -> acts (effect r) (issue_cookie u random p).
Proof.
  intros Hr. unfold issue_cookie, record. apply acts_andthen; [apply acts_reads, _|intros [u'|]; [|done]].
  case_match; [|done]. by apply effects_open_session.
Qed.

Lemma effects_admit r p c : acts (effect r) (admit_person p c).
Proof. unfold admit_person, settle, record. effects. Qed.

Lemma effects_set_password r u name password salt :
  sets_password r name -> acts (effect r) (set_password u name password salt).
Proof. intros Hr. unfold set_password, end_all_sessions_of. effects. Qed.

Lemma effects_end_session r ss h m : acts (effect r) (end_session_from ss h m).
Proof. unfold end_session_from, open_claims, now_unix. effects. Qed.
#[local] Hint Resolve effects_admit effects_set_password effects_end_session effects_issue_cookie
  effects_open_session : acts.

Lemma effects_end_all r ss name : acts (effect r) (end_all_sessions_of ss name).
Proof. unfold end_all_sessions_of. effects. Qed.
Lemma effects_end_provider r ss p : acts (effect r) (end_sessions_opened_by_provider ss p).
Proof. unfold end_sessions_opened_by_provider. effects. Qed.
#[local] Hint Resolve effects_end_all effects_end_provider : acts.

(** The row that was saved is the row of the same provider. *)
Lemma registry_store_id s stamp c new :
  answers (fun _ => True) (fun saved => ps_id saved = ps_id s) (registry_store s stamp c new).
Proof.
  unfold registry_store. eapply (answers_andthen _ (fun saved => ps_id saved = ps_id s)).
  - unfold save_row. cbn. intros w _. repeat case_match; cbn; done.
  - intros saved Hid. eapply answers_andthen; [apply answers_any|]. by intros _ _.
Qed.

Lemma effects_registry_store r s stamp c new : acts (effect r) (registry_store s stamp c new).
Proof. unfold registry_store. effects. Qed.

Lemma effects_save_provider r u stored s stamp c :
  demotes r (ps_id s) -> acts (effect r) (save_provider u stored s stamp c).
Proof.
  intros Hd. unfold save_provider.
  eapply acts_andthen_answers; [apply effects_registry_store|apply registry_store_id|].
  intros saved Hid. rewrite Hid. effects.
Qed.

#[local] Hint Extern 1 (sets_password _ _) => reflexivity : acts.
#[local] Hint Extern 1 (sets_role _ _) => reflexivity : acts.
#[local] Hint Extern 1 (adds_person _ _) => reflexivity : acts.
#[local] Hint Extern 1 (removes_person _ _) => reflexivity : acts.
#[local] Hint Extern 1 (demotes _ _) => reflexivity : acts.
#[local] Hint Resolve effects_save_provider : acts.

(** Every action of a request is one of its effects. *)
Lemma program_effects (r : request) : acts (effect r) (program r).
Proof.
  destruct r; unfold program, login_submit, cooldown, logout, presented_mode, presented_claims, now_unix,
    sign_out_everywhere, profile_password, finish_sign_in, add_user, set_role, remove_user,
    remove_provider, registry_remove, load; acts_auto.
Qed.

End effects.

(** Requests that satisfy a condition on their number and what they are. *)
Definition arriving `{HM : HeaderMap, K : Crypto, CO : Collation} (ok : nat -> request -> Prop) (t : thread reply) : Prop :=
  exists tag r, t = on tag (program r) /\ ok tag r.

Section safety.
Context `{HM : HeaderMap, K : Crypto, CO : Collation}.

Lemma arriving_acts (ok : nat -> request -> Prop) (P : Web -> Web -> Prop) (t : thread reply) :
  (forall tag r w w', ok tag r -> effect r w w' -> P w w') -> arriving ok t -> acts P (t_prog t).
Proof.
  intros HP (tag & r & -> & Hok). cbn. pose proof (program_effects r) as Hr.
  induction (program r) as [a|e|X f k IH|X f k IH]; cbn in *; [done..| |];
    intros w; destruct (Hr w) as [H1 H2]; (split; [by eapply HP|by apply IH]).
Qed.

(** *** One request among the others *)

(** What is in flight under other numbers than [k] and keeps [I]. *)
Definition others (I : Web -> Prop) (k : nat) (ts : list (thread reply)) : Prop :=
  Forall (fun t => acts (keeps_all I) (t_prog t) /\ t_tag t <> k) ts.

#[local] Instance keeps_all_preorder I : PreOrder (keeps_all I).
Proof. split; [intros x Hx; exact Hx|]. intros x y z H1 H2 H3. by apply H2, H1. Qed.

Lemma arriving_keeps (ok : nat -> request -> Prop) (I : Web -> Prop) t :
  (forall tag r w w', ok tag r -> effect r w w' -> I w -> I w') -> arriving ok t -> acts (keeps_all I) (t_prog t).
Proof.
  intros H. apply arriving_acts. intros tag r w w' Hr He Hw. exact (H tag r w w' Hr He Hw).
Qed.

(** Every state reached from a state with the invariant has it. *)
Lemma reaches_keeps (ok : nat -> request -> Prop) (I : Web -> Prop) (w : Web) (c : list (thread reply) * Web) :
  (forall tag r w w', ok tag r -> effect r w w' -> I w -> I w') ->
  (forall w db unix instant, (w_instant w <= instant)%Z -> I w -> I (set_clocks db unix instant w)) ->
  I w -> reaches (arriving ok) ([], w) c -> I c.2.
Proof.
  intros He Hclock Hw Hr.
  destruct (reaches_acts (arriving ok) (keeps_all I) ([], w) c) as [_ H]; [| |constructor|done|by apply H].
  - intros t. by apply arriving_keeps.
  - intros x db unix i Hi Hx. by apply Hclock.
Qed.

Lemma reaches_others (ok : nat -> request -> Prop) (I : Web -> Prop) (k : nat) w (c : list (thread reply) * Web) :
  (forall tag r w w', ok tag r -> effect r w w' -> I w -> I w') ->
  (forall w db unix instant, I w -> I (set_clocks db unix instant w)) ->
  k ∉ map t_tag c.1 -> reaches (arriving ok) ([], w) c -> others I k c.1.
Proof.
  intros He Hclock Hk Hr. apply Forall_forall. intros t Ht. split; [|intros <-; by apply Hk, list_elem_of_fmap_2].
  revert t Ht. apply Forall_forall.
  apply (reaches_acts (arriving ok) (keeps_all I) ([], w) c); [|intros x ? ? ? _ Hx; by apply Hclock|constructor|done].
  intros t. by apply arriving_keeps.
Qed.

(** A request that arrives among others answers as the invariant they all
    keep lets it answer. *)
Lemma in_flight_answers (ok : nat -> request -> Prop) (I : Web -> Prop) (k : nat) (q : request)
    (Q : reply -> Prop) (w : Web) (ts : list (thread reply)) (c : list (thread reply) * Web) :
  (forall tag r w w', ok tag r -> effect r w w' -> I w -> I w') ->
  (forall w w', effect q w w' -> I w -> I w') ->
  (forall w db unix instant, I w -> I (set_clocks db unix instant w)) ->
  (forall tag r, ok tag r -> tag <> k) -> others I k ts -> I w -> answers I Q (program q) ->
  reaches (arriving ok) (ts ++ [on k (program q)], w) c ->
  forall a, on k (Answer a) ∈ c.1 -> Q a.
Proof.
  intros He Hq Hclock Hk Hts Hw Ha Hr a Hin.
  assert (forall tag x, tag <> k -> answers I (fun a => tag = k -> Q a) (x : prog reply)) as Hany.
  { intros tag x Hne. eapply answers_weaken; [|apply answers_any]. by intros ? _ ?. }
  destruct (reaches_answers (arriving ok) I (fun tag a => tag = k -> Q a) (ts ++ [on k (program q)], w) c)
    as [Hall _]; [|done| |done|exact Hr|].
  - intros t Ht. split; [by eapply arriving_keeps|]. destruct Ht as (tag & r & -> & Hokr). by apply Hany, (Hk tag r).
  - apply Forall_app. split; [|constructor; [split|constructor]].
    + eapply Forall_impl; [exact Hts|]. intros t [H1 H2]. split; [done|]. by apply Hany.
    + apply (arriving_keeps (fun _ r => r = q)); [by intros tag r x y ->; apply Hq|]. by exists k, q.
    + eapply answers_weaken; [|exact Ha]. by intros ? ? _.
  - rewrite Forall_forall in Hall. by apply (Hall _ Hin).
Qed.

(** ** A session that ended stays ended *)

Definition dead (nonce : str) (w : Web) : Prop := w_sessions w !! nonce = None.

Lemma count_failure_same name peer w :
  w_sessions (count_failure_at name peer w) = w_sessions w /\ w_users (count_failure_at name peer w) = w_users w
  /\ w_instant (count_failure_at name peer w) = w_instant w.
Proof. unfold count_failure_at. by repeat case_match. Qed.

Lemma effect_dead r n w w' : draws r <> Some n -> effect r w w' -> keeps_all (dead n) w w'.
Proof.
  intros Hd He. unfold keeps_all, dead.
  destruct He as [|w s Hs|w n' row Hn|name d p|name|w name u d|w name u|w name u|w name|w p|w p|w l|w name peer|w key];
    try done; cbn.
  - intros Hw. by eapply lookup_weaken_None.
  - intros Hw. rewrite lookup_insert_ne; [done|]. congruence.
  - by destruct (count_failure_same name peer w) as [-> _].
Qed.

Lemma dead_session_unread ss h mode claims :
  se_store ss = true -> cookie_claims ss h = Some claims ->
  answers (dead (cl_nonce claims)) (fun c => c = None) (read_session ss h mode).
Proof.
  intros Hs Hc. unfold read_session, open_claims. rewrite Hc, Hs. cbn. intros w Hw.
  destruct (_ && _); [|done]. cbn. intros w' Hw'. unfold dead in Hw'. unfold session_live. by rewrite Hw'.
Qed.

Lemma dead_session_names_nobody a ss h peer claims :
  auth_sessions a = Some ss -> se_store ss = true -> cookie_claims ss h = Some claims ->
  answers (dead (cl_nonce claims)) (fun p => p = None) (identify a h peer).
Proof.
  intros Ha Hs Hc. destruct a as [|ha|u|ss' c]; try done; cbn in Ha; injection Ha as <-; cbn [identify].
  - unfold users_identify. eapply answers_andthen; [apply answers_any|]. intros m _. case_decide.
    + unfold identify_through_provider. destruct (ua_registry u); [|done].
      eapply answers_andthen; [by apply dead_session_unread|]. by intros ? ->.
    + eapply answers_andthen; [by apply dead_session_unread|]. by intros ? ->.
  - unfold oidc_identify. eapply answers_andthen; [by apply dead_session_unread|]. by intros ? ->.
Qed.

(** C7: A session that ended stays ended, in every browser that holds its
    cookie.  Once the row of the session a cookie names is gone, a request
    that presents the cookie never resolves to a person - in whatever order
    its statements and those of any other requests interleave, with requests
    in flight when the row went, statements lost or unheard, and clocks set
    back - as long as no later sign-in draws the same random nonce. *)
Theorem ended_session_stays_ended (a : Authenticator) (ss : Sessions) (h : headers) (peer : option IpAddr)
    (claims : SessionClaims) (k : nat) (w0 w : Web) (ts : list (thread reply)) (c : list (thread reply) * Web) :
  auth_sessions a = Some ss -> se_store ss = true -> cookie_claims ss h = Some claims ->
  reaches (arriving (fun _ r => draws r <> Some (cl_nonce claims))) ([], w0) (ts, w) ->
  w_sessions w !! cl_nonce claims = None -> k ∉ map t_tag ts ->
  reaches (arriving (fun tag r => tag <> k /\ draws r <> Some (cl_nonce claims)))
    (ts ++ [on k (program (RIdentify a h peer))], w) c ->
  forall p, on k (Answer (Person (Some p))) ∉ c.1.
Proof.
  intros Ha Hs Hc Hr1 Hw Hk Hr2 p Hin. set (n := cl_nonce claims) in *.
  assert (forall r w w', draws r <> Some n -> effect r w w' -> dead n w -> dead n w') as Hkeep.
  { intros r w1 w2 Hd He. exact (effect_dead r n w1 w2 Hd He). }
  refine (in_flight_answers (fun tag r => tag <> k /\ draws r <> Some n) (dead n) k (RIdentify a h peer)
    (fun x => forall p, x <> Person (Some p)) w ts c _ _ _ _ _ Hw _ Hr2 _ Hin p eq_refl); try done.
  - intros tag r w1 w2 [_ Hd]. by apply Hkeep.
  - intros w1 w2. by apply Hkeep.
  - by intros tag r [].
  - apply (reaches_others (fun _ r => draws r <> Some n) _ _ w0 (ts, w)); by eauto.
  - eapply answers_andthen; [by apply (dead_session_names_nobody a ss h peer claims)|]. by intros x -> p'.
Qed.

End safety.
