(* ===== verification/WebPeople.v ===== *)
(** * Names, roles and the sign-in throttle

    Invariants of the people table and of the failure table over every
    interleaving of requests, and the exact behaviour of a password sign-in. *)
From stdpp Require Import prelude strings gmap list relations.
From Stdlib Require Import Ascii ZArith Lia.
From S2P Require Import Prelude Str Net WebState WebAuth WebUsers WebProps.

Section people.
Context `{HM : HeaderMap, K : Crypto, CO : Collation}.

(** ** A name belongs to one way in *)

Definition people_ok (w : Web) : Prop := map_Forall (fun name r => user_row_ok name r = true) (w_users w).

(** Two rows of one way in. *)
Definition same_way (r r' : UserRecord) : Prop :=
  u_provider r' = u_provider r /\ (u_hash r' = None <-> u_hash r = None).

Lemma user_row_ok_display name r d :
  display_ok d = true -> user_row_ok name r = true -> user_row_ok name (with_display d r) = true.
Proof. unfold user_row_ok. cbn. rewrite !andb_true_iff. intros -> [[[? ?] ?] ?]. done. Qed.

Lemma user_row_ok_role name r role : user_row_ok name r = true -> user_row_ok name (with_role role r) = true.
Proof. done. Qed.

Lemma user_row_ok_hash name r hash :
  is_Some (u_hash r) -> user_row_ok name r = true -> user_row_ok name (with_hash hash r) = true.
Proof.
  intros [h Hh]. unfold user_row_ok. cbn. rewrite Hh, !andb_true_iff, !negb_true_iff, !bool_decide_eq_false.
  intros [[[? ?] ?] Hn]. split_and!; try done. naive_solver.
Qed.

Lemma effect_people r w w' : effect r w w' -> people_ok w -> people_ok w'.
Proof.
  unfold people_ok.
  intros [x|x s Hs|x n row Hn Hs|x name d p row Hok Ha|x name role hash d row Hadd Hok Ha|x name u d Hu Hd
         |x name u role Hr Hu|x name u hash Hp Hu Hh|x name Hr|x p Hd|x p|x l|x name peer|x key]; try done; cbn.
  - by apply map_Forall_insert_2.
  - by apply map_Forall_insert_2.
  - intros Hx. apply map_Forall_insert_2; [|done]. apply user_row_ok_display; [done|]. by apply Hx.
  - intros Hx. apply map_Forall_insert_2; [|done]. by apply user_row_ok_role, Hx.
  - intros Hx. apply map_Forall_insert_2; [|done]. apply user_row_ok_hash; [done|]. by apply Hx.
  - by apply map_Forall_delete.
  - intros Hx. apply map_Forall_fmap. intros name r' Hr'. cbn. unfold compose; case_decide; [apply user_row_ok_role|]; by apply Hx.
  - by destruct (count_failure_same name peer x) as (_ & -> & _).
Qed.

(** What a request leaves of the row of a name it does not remove. *)
Lemma effect_row r name w w' u :
  ~ removes_person r name -> effect r w w' -> w_users w !! name = Some u ->
  exists u', w_users w' !! name = Some u' /\ same_way u u'
    /\ (~ sets_password r name -> u_hash u' = u_hash u)
    /\ (~ sets_role r name -> (forall p, u_provider u = Some p -> ~ demotes r p) -> u_role u' = u_role u).
Proof.
  intros Hrm He Hu.
  destruct He as [x|x s Hs|x n row Hn Hs|x n d p row Hok Ha|x n role hash d row Hadd Hok Ha|x n u0 d Hu0 Hd
         |x n u0 role Hr Hu0|x n u0 hash Hp Hu0 Hh|x n Hr|x p Hd|x p|x l|x n peer|x key];
    try (exists u; cbn; split_and!; done); cbn;
    try (destruct (decide (n = name)) as [->|Hne];
         [simplify_eq|rewrite lookup_insert_ne by done; exists u; split_and!; done]).
  - rewrite lookup_insert_eq. eexists. split; [done|]. cbn. split_and!; done.
  - rewrite lookup_insert_eq. eexists. split; [done|]. cbn. split_and!; (done || tauto).
  - rewrite lookup_insert_eq. eexists. split; [done|]. destruct Hh as [h Hh]. cbn. rewrite Hh.
    split_and!; [split; cbn; [done|by rewrite Hh]|tauto|done].
  - rewrite lookup_delete_ne by naive_solver. exists u. split_and!; done.
  - rewrite lookup_fmap, Hu. cbn. case_decide as Hp; eexists; (split; [done|]); cbn; split_and!; try done.
    intros _ Hno. destruct (Hno p Hp Hd).
  - destruct (count_failure_same n peer x) as (_ & -> & _). exists u. split_and!; done.
Qed.

(** C10: A name keeps its way in, and its rights change only where an admin
    changes them.  In every interleaving of requests, the people table keeps
    satisfying its constraints - exactly one of a password and a provider in
    each row - and as long as nobody removes the person of a name, the row of
    the name stays, with the provider it had or without one, and with a
    password exactly if it had one; its hash changes only by requests that set
    the password of that name, and its role only by requests that set the role
    of that name or re-register its provider. *)
Theorem name_keeps_its_way_in (ok : nat -> request -> Prop) (name : str) (w0 w : Web)
    (ts : list (thread reply)) (u : UserRecord) :
  (forall tag r, ok tag r -> ~ removes_person r name) ->
  reaches (arriving ok) ([], w0) (ts, w) -> people_ok w0 -> w_users w0 !! name = Some u ->
  people_ok w /\
  exists u', w_users w !! name = Some u' /\ same_way u u'
    /\ ((forall tag r, ok tag r -> ~ sets_password r name) -> u_hash u' = u_hash u)
    /\ ((forall tag r, ok tag r -> ~ sets_role r name /\ forall p, u_provider u = Some p -> ~ demotes r p) ->
        u_role u' = u_role u).
Proof.
  intros Hrm Hr Hok Hu.
  pose (P w w' := (people_ok w -> people_ok w') /\ forall u, w_users w !! name = Some u ->
    exists u', w_users w' !! name = Some u' /\ same_way u u'
    /\ ((forall tag r, ok tag r -> ~ sets_password r name) -> u_hash u' = u_hash u)
    /\ ((forall tag r, ok tag r -> ~ sets_role r name /\ forall p, u_provider u = Some p -> ~ demotes r p) ->
        u_role u' = u_role u)).
  assert (PreOrder P) as HP.
  { split.
    - intros x. split; [done|]. intros v Hv. exists v. by repeat split.
    - intros x y z [H1 H2] [H3 H4]. split; [by auto|]. intros v Hv.
      destruct (H2 v Hv) as (v1 & Hv1 & [Hp1 Hh1] & Ha1 & Hr1).
      destruct (H4 v1 Hv1) as (v2 & Hv2 & [Hp2 Hh2] & Ha2 & Hr2). exists v2. split_and!.
      + done.
      + split; [congruence|tauto].
      + intros Hx. by rewrite Ha2, Ha1.
      + intros Hx. rewrite Hr2, Hr1; [done|done|]. by rewrite Hp1. }
  destruct (reaches_acts (arriving ok) P ([], w0) (ts, w)) as [_ [Hpok Hrow]]; [| |constructor|done|].
  - intros t Ht. eapply arriving_acts; [|exact Ht]. intros tag r x y Hokr He. split.
    + by apply (effect_people r).
    + intros v Hv. destruct (effect_row r name x y v) as (v' & ? & ? & Hh & Hro); [by eapply Hrm|done..|].
      exists v'. split_and!; [done..| |]; intros Hx; [apply Hh|apply Hro]; by eapply Hx.
  - intros x ? ? ? _. split; [done|]. intros v Hv. exists v. by repeat split.
  - split; [by apply Hpok|]. by apply Hrow.
Qed.

(** *** A provider does not take a name that is somebody else's *)

Definition anothers (name id : str) (w : Web) : Prop :=
  exists u, w_users w !! name = Some u /\ u_provider u <> Some id.

Lemma admit_anothers p c id :
  oc_id c = Some id ->
  answers (anothers (p_subject p) id) (fun ad => ad <> New /\ ad <> Known) (admit_person p c).
Proof.
  intros Hid. unfold admit_person, record. rewrite Hid.
  assert (forall u d, u_provider u <> Some id ->
    answers (anothers (p_subject p) id) (fun ad => ad <> New /\ ad <> Known) (settle (p_subject p) u id d)) as Hs.
  { intros u d Hu. unfold settle. destruct (u_provider u) as [own|]; [|done]. case_decide; [congruence|done]. }
  cbn. intros w (u & Hu & Hne). rewrite Hu. by apply Hs.
Qed.

(** C11: A provider never signs anybody in under a name that is somebody
    else's.  While the row of a name belongs to a password person or was
    brought by another provider, and whatever else happens at the same time
    short of removing that person, a sign-in of that name through the provider
    never ends with a session: its request never answers with a cookie. *)
Theorem provider_never_takes_a_name (ok : nat -> request -> Prop) (k : nat) (u : UsersAuth) (ss : Sessions)
    (provider : OidcConfig) (id : str) (person : Principal) (groups : list str) (random : option str)
    (w : Web) (ts : list (thread reply)) (c : list (thread reply) * Web) (r : UserRecord) (w0 : Web) :
  (forall tag r, ok tag r -> tag <> k /\ ~ removes_person r (p_subject person)) ->
  k ∉ map t_tag ts -> oc_id provider = Some id ->
  reaches (arriving ok) ([], w0) (ts, w) ->
  w_users w !! p_subject person = Some r -> u_provider r <> Some id ->
  reaches (arriving ok) (ts ++ [on k (program (RSignIn (AUsers u) ss provider person groups random))], w) c ->
  forall cookie, on k (Answer (Cookie (Some cookie))) ∉ c.1.
Proof.
  intros Hok Hk Hid Hr1 Hu Hne Hr2 cookie Hin. set (name := p_subject person) in *.
  assert (forall r w1 w2, ~ removes_person r name -> effect r w1 w2 ->
            anothers name id w1 -> anothers name id w2) as Hkeep.
  { intros q w1 w2 Hq He (v & Hv & Hvne). destruct (effect_row q name w1 w2 v) as (v' & Hv' & [Hp _] & _); [done..|].
    exists v'. split; [done|]. by rewrite Hp. }
  refine (in_flight_answers ok (anothers name id) k (RSignIn (AUsers u) ss provider person groups random)
    (fun x => forall c, x <> Cookie (Some c)) w ts c _ _ _ _ _ _ _ Hr2 _ Hin cookie eq_refl); try done.
  - intros tag q w1 w2 Hq. by apply Hkeep, (Hok tag q).
  - intros w1 w2. apply Hkeep. by intros [].
  - intros tag q Hq. by apply (Hok tag q).
  - apply (reaches_others ok _ _ w0 (ts, w)); try done. intros tag q w1 w2 Hq. by apply Hkeep, (Hok tag q).
  - by exists r.
  - cbn [program]. eapply (answers_andthen _ (fun c => c = None)); [|by intros x -> cc].
    unfold finish_sign_in. eapply (answers_andthen _ (fun b => b = true)); [|by intros ? ->].
    eapply answers_andthen; [by apply admit_anothers|]. by intros [] [? ?].
Qed.

End people.
