(* ===== verification/WebThrottle.v ===== *)
(** * The throttle of password sign-ins, and what a sign-in does

    Bounds of the failure table over every interleaving, and a password
    verification run alone. *)
From stdpp Require Import prelude strings gmap list relations.
From Stdlib Require Import Ascii ZArith Lia.
From S2P Require Import Prelude Str Net WebState WebAuth WebUsers WebProps.

Section throttle.
Context `{HM : HeaderMap, K : Crypto, CO : Collation}.

Definition kept (w : Web) : gmap (list ascii * option IpAddr) Failures :=
  filter (fun e => remembered (w_instant w) e.2 = true) (w_failures w).

(** The failure table within its bounds. *)
Definition throttle_ok (w : Web) : Prop :=
  (size (w_failures w) <= MAX_TRACKED_FAILURES)%nat /\
  map_Forall (fun key f => (length key.1 <= MAX_NAME_LEN)%nat /\
                           (f_until f <= w_instant w + MAX_COOLDOWN)%Z) (w_failures w).

Lemma size_filter_le {V} (P : list ascii * option IpAddr * V -> Prop) `{!forall x, Decision (P x)}
    (m : gmap (list ascii * option IpAddr) V) :
  (size (filter P m) <= size m)%nat.
Proof. apply map_subseteq_size, map_filter_subseteq. Qed.

Lemma failed_again_bound now f :
  (f_until f <= now + MAX_COOLDOWN)%Z -> (f_until (failed_again now f) <= now + MAX_COOLDOWN)%Z.
Proof.
  intros Hf. unfold failed_again. cbn [f_until]. case_match; [|done].
  apply Z.add_le_mono_l, Z.le_min_r.
Qed.

Lemma kept_lookup w key f : kept w !! key = Some f -> w_failures w !! key = Some f.
Proof. unfold kept. by intros [? _]%map_lookup_filter_Some. Qed.

Lemma count_failure_ok name peer w : throttle_ok w -> throttle_ok (count_failure_at name peer w).
Proof.
  intros [Hs Hf]. unfold count_failure_at. fold (kept w).
  destruct (MAX_NAME_LEN <? length name)%nat eqn:Hn; [by split|]. apply Nat.ltb_ge in Hn.
  assert (size (kept w) <= size (w_failures w))%nat as Hk by (unfold kept; apply size_filter_le).
  assert (map_Forall (fun key f => (length key.1 <= MAX_NAME_LEN)%nat /\
            (f_until f <= w_instant w + MAX_COOLDOWN)%Z) (kept w)) as Hkf.
  { intros key f Hkey. by apply Hf, kept_lookup. }
  destruct (_ && _) eqn:Hfull; [by split; [exact (Nat.le_trans _ _ _ Hk Hs)|]|].
  split; cbn [w_failures w_instant set_failures].
  - destruct (kept w !! (name, peer)) as [f|] eqn:Hkey.
    + rewrite map_size_insert_Some by (by rewrite Hkey). lia.
    + rewrite map_size_insert_None by done. apply andb_false_iff in Hfull as [Hb|Hb].
      * by rewrite bool_decide_eq_false in Hb.
      * by apply Nat.leb_gt in Hb.
  - apply map_Forall_insert_2; [|done]. split; [done|]. apply failed_again_bound.
    destruct (kept w !! (name, peer)) as [f|] eqn:Hkey; cbn; [by apply Hkf in Hkey as [_ ?]|].
    unfold MAX_COOLDOWN, NANOS. lia.
Qed.

Lemma effect_throttle r w w' : effect r w w' -> throttle_ok w -> throttle_ok w'.
Proof.
  intros He Hok. destruct He; try done; [by apply count_failure_ok|].
  destruct Hok as [Hs Hf]. split; cbn.
  - etrans; [|exact Hs]. apply map_subseteq_size, delete_subseteq.
  - by apply map_Forall_delete.
Qed.

Lemma cooldown_bound w name peer d :
  throttle_ok w -> cooldown_at w name peer = Some d -> (0 <= d <= MAX_COOLDOWN)%Z.
Proof.
  intros [_ Hf]. unfold cooldown_at. intros (f & Hl & H)%bind_Some. apply Hf in Hl as [_ Hu].
  destruct (Z.leb_spec (w_instant w) (f_until f)); [|done]. injection H as <-. lia.
Qed.

(** C32: No flood of sign-ins grows the throttle or locks anyone out for long.
    In every state any interleaving of requests reaches, the failure table has
    at most [MAX_TRACKED_FAILURES] entries, each for a name of at most
    [MAX_NAME_LEN] bytes, and no name at any address waits longer than
    [MAX_COOLDOWN]. *)
Theorem throttle_bounded (ok : nat -> request -> Prop) (w0 : Web) (c : list (thread reply) * Web) :
  throttle_ok w0 -> reaches (arriving ok) ([], w0) c ->
  (size (w_failures c.2) <= MAX_TRACKED_FAILURES)%nat /\
  (forall key f, w_failures c.2 !! key = Some f -> (length key.1 <= MAX_NAME_LEN)%nat) /\
  (forall name peer d, cooldown_at c.2 name peer = Some d -> (0 <= d <= MAX_COOLDOWN)%Z).
Proof.
  intros Hok Hr. assert (throttle_ok c.2) as H.
  { apply (reaches_keeps ok _ w0); [|intros w db unix i Hi [Hs Hf]; split; [done|]|done|done].
    - intros tag r w w' _. by apply effect_throttle.
    - intros key f Hl. destruct (Hf key f Hl). split; [done|]. cbn. lia. }
  split_and!; [apply H| |intros name peer d; by apply cooldown_bound].
  intros key f Hl. by apply H in Hl as [? _].
Qed.

(** ** A password sign-in *)

Lemma trim_trim_cooldown w name peer : cooldown_at w (trim name) peer = cooldown_at w name peer.
Proof. unfold cooldown_at. by rewrite trim_idem. Qed.

(** The person a right password signs in. *)
Definition right_password (w : Web) (name password : str) : option Principal :=
  u ← w_users w !! name;
  hash ← u_hash u;
  if argon2_verify hash password
  then Some {| p_subject := name; p_display := default name (u_display u); p_role := u_role u |}
  else None.

Lemma run_verify (name password : str) (peer : option IpAddr) (w : Web) :
  run (verify name password peer) w =
    (if (MAX_NAME_LEN <? length (trim name))%nat then (Ok None, w)
     else if cooldown_at w name peer then (Ok None, w)
     else match right_password w (trim name) password with
          | Some p => (Ok (Some p), set_failures (delete (trim name, peer) (w_failures w)) w)
          | None => (Ok None, count_failure_at (trim name) peer w)
          end).
Proof.
  unfold verify. set (n := trim name). destruct (MAX_NAME_LEN <? length n)%nat; [done|].
  rewrite run_andthen. unfold throttled, cooldown. rewrite run_andthen. cbn.
  unfold n. rewrite trim_trim_cooldown. fold n.
  destruct (cooldown_at w name peer) as [d|]; [by rewrite bool_decide_true|]. rewrite bool_decide_false by by intros [? ?].
  cbn. unfold right_password. destruct (w_users w !! n) as [u|]; cbn; [|done].
  destruct (u_hash u) as [hash|]; cbn.
  - destruct (argon2_verify hash password); cbn; done.
  - rewrite andb_false_r. done.
Qed.

(** How long a failure makes a name wait. *)
Lemma failure_waits name peer w f :
  kept w !! (trim name, peer) = Some f -> (FREE_FAILURES <= f_count f < 2 ^ 32 - 1)%Z ->
  (length (trim name) <= MAX_NAME_LEN)%nat ->
  cooldown_at (count_failure_at (trim name) peer w) name peer
  = Some (Z.min (2 ^ Z.min (f_count f + 1 - FREE_FAILURES) 10 * NANOS) MAX_COOLDOWN).
Proof.
  set (n := trim name). intros Hf Hc Hn. unfold count_failure_at. fold (kept w). rewrite (proj2 (Nat.ltb_ge _ _)) by done.
  rewrite Hf. rewrite bool_decide_false by done. cbn [andb default]. unfold cooldown_at. cbn.
  fold n. rewrite lookup_insert_eq. cbn. rewrite Z.mod_small by (unfold FREE_FAILURES in *; lia).
  rewrite (proj2 (Z.ltb_lt _ _)) by lia.
  assert (0 <= Z.min (2 ^ Z.min (f_count f + 1 - FREE_FAILURES) 10 * NANOS) MAX_COOLDOWN)%Z as Hpos.
  { apply Z.min_glb; [|unfold MAX_COOLDOWN, NANOS; lia]. apply Z.mul_nonneg_nonneg; [|unfold NANOS; lia].
    apply Z.pow_nonneg. lia. }
  rewrite (proj2 (Z.leb_le _ _)) by lia. f_equal. lia.
Qed.

(** How long a name waits after its [count]-th failure in a row: not at all for
    the first five, then two seconds, doubling, up to fifteen minutes. *)
Definition wait_after (count : Z) : Z := Z.min (2 ^ Z.min (count - FREE_FAILURES) 10 * NANOS) MAX_COOLDOWN.

(** [w'] is [w] with one more failure of the name at the address: entries an
    hour past are gone, the others are as they were, and the entry of the name
    counts one more and holds it when that is more than the free ones - except
    that a table full of remembered failures takes no new name. *)
Record counts_failure (name : str) (peer : option IpAddr) (w w' : Web) : Prop := {
  cf_rest : w' = set_failures (w_failures w') w;
  cf_others : forall key, key <> (name, peer) -> w_failures w' !! key = kept w !! key;
  cf_again : forall f, kept w !! (name, peer) = Some f -> (0 <= f_count f < 2 ^ 32 - 1)%Z ->
    w_failures w' !! (name, peer)
    = Some {| f_count := f_count f + 1;
              f_until := if (FREE_FAILURES <=? f_count f)%Z then (w_instant w + wait_after (f_count f + 1))%Z
                         else f_until f |};
  cf_first : kept w !! (name, peer) = None ->
    w_failures w' !! (name, peer)
    = if (size (kept w) <? MAX_TRACKED_FAILURES)%nat then Some {| f_count := 1; f_until := w_instant w |} else None
}.

Lemma first_failure now :
  failed_again now {| f_count := 0; f_until := now |} = {| f_count := 1; f_until := now |}.
Proof.
  unfold failed_again. change ((0 + 1) mod 2 ^ 32)%Z with 1%Z. reflexivity.
Qed.

Lemma count_failure_counts name peer w :
  (length name <= MAX_NAME_LEN)%nat -> counts_failure name peer w (count_failure_at name peer w).
Proof.
  intros Hn. unfold count_failure_at. fold (kept w). rewrite (proj2 (Nat.ltb_ge _ _)) by done.
  destruct (kept w !! (name, peer)) as [f|] eqn:Hk.
  - rewrite bool_decide_false by done. cbn [andb default]. split; cbn [w_failures set_failures]; [done| | |by rewrite Hk].
    + intros key Hne. by rewrite lookup_insert_ne.
    + intros f' Hf Hc. rewrite Hk in Hf. injection Hf as <-. rewrite lookup_insert_eq. unfold failed_again, id.
      rewrite Z.mod_small by lia. do 2 f_equal.
      destruct (Z.leb_spec FREE_FAILURES (f_count f)); [rewrite (proj2 (Z.ltb_lt _ _)) by lia; done|].
      by rewrite (proj2 (Z.ltb_ge _ _)) by lia.
  - rewrite bool_decide_true by done. cbn [andb]. rewrite Nat.leb_antisym.
    destruct (size (kept w) <? MAX_TRACKED_FAILURES)%nat eqn:Hs; cbn [negb].
    + split; cbn [w_failures set_failures]; [done| |by rewrite Hk|].
      2:{ intros _. rewrite Hs, lookup_insert_eq. exact (f_equal Some (first_failure _)). }
      intros key Hne. by rewrite lookup_insert_ne.
    + split; cbn [w_failures set_failures]; [done|done|by rewrite Hk|]. by rewrite Hs.
Qed.

(** C33: A password sign-in answers by the name, the throttle and the stored
    hash alone.  A name that is too long or under cooldown is refused without
    looking anyone up and without touching the table of failures; otherwise
    the answer is the person whose stored hash the password verifies against,
    with the role their row has now, and their failures are forgotten - and
    anything else, a name nobody has, a person without a password, a wrong
    password, is one refusal that counts as one failure: the name's entry at
    the address counts one more, a first one starting at one, unless the table
    is full of remembered failures and has no entry for it; no other
    remembered entry changes, and nothing but that table does.  The sixth
    failure in a row and every later one makes the name wait, two seconds and
    doubling up to fifteen minutes. *)
Theorem sign_in_exact (name password : str) (peer : option IpAddr) (w : Web) :
  let n := trim name in
  run (verify name password peer) w =
    (if (MAX_NAME_LEN <? length n)%nat then (Ok None, w)
     else if cooldown_at w name peer then (Ok None, w)
     else match right_password w n password with
          | Some p => (Ok (Some p), set_failures (delete (n, peer) (w_failures w)) w)
          | None => (Ok None, count_failure_at n peer w)
          end)
  /\ ((length n <= MAX_NAME_LEN)%nat -> counts_failure n peer w (count_failure_at n peer w))
  /\ forall f, kept w !! (n, peer) = Some f -> (FREE_FAILURES <= f_count f < 2 ^ 32 - 1)%Z ->
     (length n <= MAX_NAME_LEN)%nat ->
     cooldown_at (count_failure_at n peer w) name peer = Some (wait_after (f_count f + 1)).
Proof. intros n. split_and!; [apply run_verify|apply count_failure_counts|]. intros f. apply failure_waits. Qed.

(** ** A full table *)

(** When the table is full of remembered failures, a name that has no entry
    gets none: it is never held, however often it fails. *)
Lemma full_table_never_holds name peer w :
  (MAX_TRACKED_FAILURES <= size (kept w))%nat -> kept w !! (trim name, peer) = None ->
  cooldown_at (count_failure_at (trim name) peer w) name peer = cooldown_at w name peer \/
  cooldown_at (count_failure_at (trim name) peer w) name peer = None.
Proof.
  intros Hfull Hnone. unfold count_failure_at. fold (kept w). destruct (_ <? _)%nat; [by left|]. right.
  rewrite Hnone, bool_decide_true, (proj2 (Nat.leb_le _ _)) by done. cbn. unfold cooldown_at. cbn. by rewrite Hnone.
Qed.

End throttle.
