(* ===== verification/WebSettings.v ===== *)
(** * Slugs of providers

    The slug of a new provider is found, is what the catalog accepts, and is
    nobody else's. *)
From stdpp Require Import prelude strings list.
From Stdlib Require Import Ascii ZArith Lia.
From S2P Require Import Prelude Str Net WebState WebAuth WebUsers.

(** ** What [slug_for] makes *)

Lemma lower_slug c : is_ascii_alphanumeric c = true ->
  is_ascii_lowercase (to_ascii_lowercase c) || is_ascii_digit (to_ascii_lowercase c) = true.
Proof. by destruct c as [[] [] [] [] [] [] [] []]. Qed.

(** A slug, or nothing. *)
Definition slug_or_empty (s : str) : Prop := s = [] \/ valid_slug s = true.

Lemma valid_slug_snoc s t :
  valid_slug s = true -> forallb slug_char t = true -> length s + length t <= SLUG_MAX ->
  valid_slug (s ++ t) = true.
Proof.
  destruct s as [|c s]; [done|]. cbn [valid_slug app]. rewrite !andb_true_iff, !Nat.leb_le. intros [[Hc Hs] _] Ht Hl.
  split_and!; [done| |by rewrite length_cons, length_app; cbn in Hl].
  by rewrite forallb_app, Hs, Ht.
Qed.

Lemma slug_for_step_ok acc c :
  slug_or_empty acc.1.1 -> slug_or_empty (slug_for_step acc c).1.1.
Proof.
  destruct acc as [[slug pending] stopped]. cbn [fst]. intros Hs. unfold slug_for_step.
  destruct stopped; [done|]. destruct (is_ascii_alphanumeric c) eqn:Hc; [|by case_match].
  set (lower := to_ascii_lowercase c). pose proof (lower_slug c Hc) as Hl. fold lower in Hl.
  assert (slug_char lower = true) as Hlc by (unfold slug_char; by rewrite Hl).
  destruct (Nat.ltb_spec SLUG_MAX (length slug + (if pending && negb (bool_decide (slug = [])) then 2 else 1))) as [|Hle];
    [done|]. cbn [fst]. right. destruct Hs as [->|Hs].
  - rewrite andb_false_r. cbn [app valid_slug]. by rewrite Hl.
  - destruct (pending && _); apply valid_slug_snoc; cbn in *; rewrite ?Hlc; done || lia.
Qed.

(** Trimming dashes at the end leaves a slug of what begins with none. *)
Lemma trim_dash_prefix s : exists t, s = trim_end_matches dash s ++ t.
Proof. destruct (trim_end_matches_spec dash s) as (t & Ht & _). by exists t. Qed.

Lemma valid_slug_prefix s t : s <> [] -> valid_slug (s ++ t) = true -> valid_slug s = true.
Proof.
  destruct s as [|c s]; [done|]. intros _. cbn [valid_slug app].
  rewrite forallb_app, length_cons, length_app, !andb_true_iff, !Nat.leb_le. intros [[? [? ?]] ?].
  split_and!; [done..|cbn; lia].
Qed.

Lemma slug_for_ok name kind : valid_slug (slug_for name kind) = true.
Proof.
  unfold slug_for.
  assert (slug_or_empty (fold_left slug_for_step name ([], false, false)).1.1) as H.
  { assert (slug_or_empty (([], false, false) : str * bool * bool).1.1) as H0 by by left.
    revert H0. generalize (([], false, false) : str * bool * bool). induction name as [|c name IH]; [done|].
    intros acc Ha. cbn. apply IH. by apply slug_for_step_ok. }
  set (slug := (fold_left _ _ _).1.1) in *. case_decide as He; [by destruct kind|].
  destruct (trim_dash_prefix slug) as (t & Ht). eapply (valid_slug_prefix _ t); [done|].
  rewrite <- Ht. destruct H as [H|H]; [|done]. rewrite H in He. done.
Qed.

(** ** The numbered candidates *)

Definition suffix_of (n : nat) : str := lit "-" ++ show_Z (Z.of_nat n).

(** Numbers whose suffix leaves room for a character of the base. *)
Definition MOST : Z := (10 ^ 30)%Z.

Lemma suffix_length n : (Z.of_nat n < MOST)%Z -> length (suffix_of n) < SLUG_MAX.
Proof.
  intros Hn. unfold suffix_of, show_Z. rewrite (proj2 (Z.ltb_ge _ _)), length_app by lia.
  pose proof (show_go_length (Datatypes.S (Z.to_nat (Z.log2 (Z.of_nat n)))) (Z.of_nat n) [] 29) as H.
  cbn [length] in H. unfold show_digits, SLUG_MAX. cbn [length lit String.list_ascii_of_string].
  assert (10 ^ Z.of_nat 30 = MOST)%Z as He by by_eval. rewrite He in H. lia.
Qed.

Lemma suffix_chars n : forallb slug_char (suffix_of n) = true.
Proof.
  unfold suffix_of. rewrite forallb_app, andb_true_iff. split; [by_eval|].
  pose proof (show_Z_digits (Z.of_nat n)) as H. rewrite forallb_forall in *. intros c Hc.
  unfold slug_char. rewrite H by (lia || done). by rewrite orb_true_r.
Qed.

Lemma numbered_ok base n : valid_slug base = true -> (Z.of_nat n < MOST)%Z -> valid_slug (numbered base n) = true.
Proof.
  intros Hb Hn. apply suffix_length in Hn. unfold numbered. fold (suffix_of n).
  set (k := length base `min` (SLUG_MAX - length (suffix_of n))). set (start := trim_end_matches dash (take k base)).
  destruct (trim_dash_prefix (take k base)) as (t & Ht). fold start in Ht.
  assert (length start <= k) as Hl by (pose proof (length_take base k); rewrite Ht, length_app in *; lia).
  apply valid_slug_snoc; [|apply suffix_chars|unfold k in Hl; lia].
  assert (start <> []) as Hne.
  { intros He. destruct base as [|c base]; [done|].
    assert (0 < k) as Hk by (unfold k; cbn [length]; lia).
    destruct (trim_end_matches_spec dash (take k (c :: base))) as (w & Hw & Hall).
    fold start in Hw. rewrite He in Hw. cbn [app] in Hw. rewrite <- Hw in Hall.
    destruct k as [|k']; [lia|]. cbn [take] in Hall. inversion_clear Hall as [|? ? Hc _].
    apply bool_decide_eq_true in Hc. subst c. cbn in Hb. done. }
  apply (valid_slug_prefix start t); [done|]. rewrite <- Ht.
  rewrite <- (take_drop k base) in Hb. apply valid_slug_prefix in Hb; [done|]. rewrite Ht. by destruct start.
Qed.

Lemma dash_notin_digits n : "-"%char ∉ show_Z (Z.of_nat n).
Proof.
  intros Hin. pose proof (show_Z_digits (Z.of_nat n)) as H. rewrite forallb_forall in H.
  apply list_elem_of_In, H in Hin; [done|lia].
Qed.

Lemma numbered_inj base n m : numbered base n = numbered base m -> n = m.
Proof.
  intros H. apply Nat2Z.inj, show_Z_inj; [lia..|].
  assert (forall i, rsplit_once "-"%char (numbered base i)
                    = Some (trim_end_matches dash (take (length base `min` (SLUG_MAX - length (suffix_of i))) base),
                            show_Z (Z.of_nat i))) as Hr.
  { intros i. apply rsplit_once_app, dash_notin_digits. }
  pose proof (Hr n) as Hn. rewrite H, (Hr m) in Hn. by injection Hn.
Qed.

Lemma find_free_spec fuel n base taken :
  match find_free fuel n base taken with
  | Some s => s ∉ taken /\ exists i, n <= i < n + fuel /\ s = numbered base i
  | None => forall i, n <= i < n + fuel -> numbered base i ∈ taken
  end.
Proof.
  revert n. induction fuel as [|f IH]; intros n; cbn; [lia|]. case_decide as Hd.
  - specialize (IH (Datatypes.S n)). destruct (find_free f _ _ _) as [s|].
    + destruct IH as (? & i & ? & ?). split; [done|]. exists i. split; [lia|done].
    + intros i Hi. destruct (decide (i = n)) as [->|]; [done|]. apply IH. lia.
  - split; [done|]. exists n. split; [lia|done].
Qed.

(** One more candidate than there are names taken is enough. *)
Lemma find_free_total n base taken : is_Some (find_free (Datatypes.S (length taken)) n base taken).
Proof.
  pose proof (find_free_spec (Datatypes.S (length taken)) n base taken) as H.
  destruct (find_free _ _ _ _); [done|]. exfalso.
  assert (NoDup (numbered base <$> seq n (Datatypes.S (length taken)))) as Hnd.
  { apply NoDup_fmap_2; [|apply NoDup_seq]. intros a b. apply numbered_inj. }
  assert ((numbered base <$> seq n (Datatypes.S (length taken))) ⊆+ taken) as Hs.
  { apply NoDup_submseteq; [done|]. intros x (i & -> & Hi%elem_of_seq)%list_elem_of_fmap. apply H. lia. }
  apply submseteq_length in Hs. rewrite length_fmap, length_seq in Hs. lia.
Qed.

Lemma find_free_slug (name : str) (kind : ProviderKind) (taken : list str) :
  (Z.of_nat (length taken) + 2 < MOST)%Z ->
  exists slug, free_slug name kind taken = Some slug /\ valid_slug slug = true /\ slug ∉ taken
    /\ (slug_for name kind ∉ taken -> slug = slug_for name kind).
Proof.
  intros Hl. unfold free_slug. case_decide as Hd.
  - destruct (find_free_total 2 (slug_for name kind) taken) as [s Hs]. exists s. split; [done|].
    pose proof (find_free_spec (Datatypes.S (length taken)) 2 (slug_for name kind) taken) as H. rewrite Hs in H.
    destruct H as (? & i & Hi & ->). split_and!; [|done..]. apply numbered_ok; [apply slug_for_ok|lia].
  - eexists. split_and!; [done|apply slug_for_ok|done..].
Qed.

(** A new provider always gets a slug.  Whatever its name is - blank, not
    Latin, as long as one likes - and whatever slugs are taken, the search for
    a free one ends within one more candidate than there are names taken, and
    what it finds is a slug the catalog accepts that nobody has: the slug of
    the name itself when that is free. *)
Theorem free_slug_total (name : str) (kind : ProviderKind) (taken : list str) :
  (Z.of_nat (length taken) + 2 < MOST)%Z ->
  exists slug, free_slug name kind taken = Some slug /\ valid_slug slug = true /\ slug ∉ taken
    /\ (slug_for name kind ∉ taken -> slug = slug_for name kind).
Proof. apply find_free_slug. Qed.

Lemma free_slug_total_witness :
  free_slug (lit "Entra ID (staff)") KOidc [lit "github"; lit "entra-id-staff"; lit "entra-id-staff-2"]
  = Some (lit "entra-id-staff-3")
  /\ exists slug, free_slug (lit "!!") KGitHub [lit "github"; lit "github-2"] = Some slug /\ valid_slug slug = true.
Proof.
  split; [by_eval|].
  destruct (free_slug_total (lit "!!") KGitHub [lit "github"; lit "github-2"]) as (s & H1 & H2 & _); [by vm_compute|].
  by exists s.
Defined.

(** ** Sealed secrets *)

Section sealer.
Context `{L : CryptoLaws}.

Lemma colon_not_b64 s : colon ∉ b64_encode s.
Proof. intros H. apply b64_plain in H. by destruct H as [H|[H|H]]. Qed.

(** What was sealed opens, to the text it was. *)
Lemma sealer_opens_what_it_sealed key nonce plain sealed :
  length nonce = NONCE_LEN -> utf8_valid plain = true ->
  sealer_seal key (Some nonce) plain = Ok sealed -> sealer_open key sealed = Ok plain.
Proof.
  intros Hn Hu [= <-]. unfold sealer_open, splitn3.
  rewrite (proj2 (split_once_Some colon _ VERSION _)) by (split; [done|apply (bool_decide_eq_true_1 (colon ∉ VERSION)); by_eval]).
  rewrite (proj2 (split_once_Some colon _ (b64_encode nonce) _)) by (split; [done|apply colon_not_b64]).
  rewrite decide_True by done. rewrite !b64_round. cbn. rewrite decide_True by done.
  rewrite aead_round. cbn. by rewrite Hu.
Qed.

End sealer.
