(* ===== verification/WebSignIn.v ===== *)
(** * Whom a request is from

    The exact answer of a request under people sign-ins, the way from a
    sign-in to the next request, and what ends a session. *)
From stdpp Require Import prelude strings gmap list.
From Stdlib Require Import Ascii ZArith Lia.
From S2P Require Import Prelude Str Net WebState WebAuth WebUsers WebProps WebThrottle.

Section identify.
Context `{HM : HeaderMap, K : Crypto, CO : Collation}.

(** ** Sessions read *)

(** The claims of a cookie that is good in [w]. *)
Definition good_claims (ss : Sessions) (h : headers) (mode : Mode) (w : Web) (claims : SessionClaims) : Prop :=
  cookie_claims ss h = Some claims /\ (w_unix w < cl_expires claims)%Z /\ cl_mode claims = mode_id mode /\
  (se_store ss = true -> session_live w (cl_nonce claims) (cl_subject claims) (mode_id mode) = true).

Lemma run_read_session ss h mode w :
  exists c, run (read_session ss h mode) w = (Ok c, w) /\ forall claims, c = Some claims <-> good_claims ss h mode w claims.
Proof.
  unfold read_session, open_claims, good_claims. destruct (cookie_claims ss h) as [claims|].
  - rewrite run_andthen. cbn. destruct (Z.ltb_spec (w_unix w) (cl_expires claims)); cbn.
    + case_bool_decide as Hm; cbn.
      * destruct (se_store ss); cbn.
        -- exists (if session_live w (cl_nonce claims) (cl_subject claims) (mode_id mode) then Some claims else None).
           split; [done|]. intros c. destruct (session_live _ _ _ _) eqn:Hl; split.
           ++ by intros [= <-].
           ++ by intros ([= ->] & _).
           ++ done.
           ++ intros ([= ->] & _ & _ & Hs). by rewrite Hs in Hl.
        -- exists (Some claims). split; [done|]. intros c. split; [by intros [= <-]|by intros ([= ->] & _)].
      * exists None. split; [done|]. intros c. split; [done|]. by intros ([= ->] & _ & ? & _).
    + exists None. split; [done|]. intros c. split; [done|]. intros ([= ->] & ? & _). lia.
  - exists None. split; [done|]. intros c. split; [done|]. by intros ([=] & _).
Qed.

Lemma mode_parse_id s m : mode_parse s = Some m <-> s = mode_id m.
Proof.
  split; [|intros ->; by destruct m]. unfold mode_parse. intros H%find_some.
  destruct H as [_ H%bool_decide_eq_true]. done.
Qed.

Lemma run_presented_mode ss h w :
  exists m, run (presented_mode ss h) w = (Ok m, w) /\
    forall mode, m = Some mode <->
      exists claims, cookie_claims ss h = Some claims /\ (w_unix w < cl_expires claims)%Z /\ cl_mode claims = mode_id mode.
Proof.
  unfold presented_mode, presented_claims. rewrite run_andthen. destruct (cookie_claims ss h) as [claims|]; cbn.
  - destruct (Z.ltb_spec (w_unix w) (cl_expires claims)); cbn.
    + exists (mode_parse (cl_mode claims)). split; [done|]. intros mode. rewrite mode_parse_id.
      split; [by intros Hm; exists claims|]. by intros (c & [= ->] & _ & Hm).
    + exists None. split; [done|]. intros m. split; [done|]. intros (c & [= ->] & ? & _). lia.
  - exists None. split; [done|]. intros m. split; [done|]. by intros (c & [=] & _).
Qed.

(** ** The provider a session names *)

(** Every provider row is under its own id. *)
Definition providers_keyed (w : Web) : Prop := map_Forall (fun id s => ps_id s = id) (w_providers w).

(** What the registry answers about an id: what it remembers for thirty
    seconds, and else the row, when it is there, enabled and can be built; a
    row whose stamp is the remembered one is not built again. *)
Definition believed (sealer : option str) (id : str) (w : Web) : option OidcConfig :=
  let stored :=
    s ← w_providers w !! id;
    if ps_enabled s then
      match w_live w !! id with
      | Some l => if decide (lv_stamp l = ps_updated_at s) then live_answer l
                  else match build sealer s with Ok c => Some c | Err _ => None end
      | None => match build sealer s with Ok c => Some c | Err _ => None end
      end
    else None in
  match w_live w !! id with
  | Some l => if (elapsed w (lv_at l) <? BELIEVED_FOR)%Z then live_answer l else stored
  | None => stored
  end.

Lemma run_recent sealer id w : providers_keyed w ->
  exists l, run (recent sealer id) w = (Ok (believed sealer id w), set_live l w).
Proof.
  intros Hk. assert (w = set_live (w_live w) w) as Hw by by destruct w.
  unfold recent, believed. rewrite run_andthen. cbn.
  assert (forall x, (forall l, w_live w !! id = Some l -> (elapsed w (lv_at l) <? BELIEVED_FOR)%Z = false) ->
    x = (s ← w_providers w !! id;
    if ps_enabled s then
      match w_live w !! id with
      | Some l => if decide (lv_stamp l = ps_updated_at s) then live_answer l
                  else match build sealer s with Ok c => Some c | Err _ => None end
      | None => match build sealer s with Ok c => Some c | Err _ => None end
      end
    else None) -> exists l, run (current sealer id) w = (Ok x, set_live l w)) as Hcur.
  { intros x Hold ->. unfold current. rewrite run_andthen. cbn.
    destruct (w_providers w !! id) as [s|] eqn:Hs; cbn; [|by eexists].
    destruct (ps_enabled s); [|by eexists]. unfold refresh. cbn.
    rewrite (Hk _ _ Hs). destruct (w_live w !! id) as [l|] eqn:Hl; cbn.
    - case_decide; [by eexists|]. unfold remember. cbn. rewrite Hl, (Hold l) by done. rewrite andb_false_r.
      destruct (build sealer s); by eexists.
    - unfold remember. cbn. rewrite Hl. destruct (build sealer s); by eexists. }
  destruct (w_live w !! id) as [l|] eqn:Hl; cbn; [|by apply Hcur].
  destruct (elapsed w (lv_at l) <? BELIEVED_FOR)%Z eqn:He; cbn; [by exists (w_live w); rewrite <- Hw|].
  apply Hcur; [|done]. by intros ? [= <-].
Qed.

(** ** Whom a request is from *)

Definition claimed_through (c : OidcConfig) (claims : SessionClaims) (role : Role) : Principal :=
  {| p_subject := cl_subject claims; p_display := default (cl_subject claims) (cl_display claims); p_role := role |}.

Definition from_password (u : UsersAuth) (h : headers) (w : Web) (p : Principal) : Prop :=
  exists claims row hash,
    good_claims (ua_sessions u) h MUsers w claims /\
    w_users w !! cl_subject claims = Some row /\ u_hash row = Some hash /\ cl_binding claims = fingerprint hash /\
    p = {| p_subject := cl_subject claims; p_display := default (cl_subject claims) (u_display row);
           p_role := u_role row |}.

Definition from_provider (u : UsersAuth) (h : headers) (w : Web) (p : Principal) : Prop :=
  exists claims sealer id c,
    good_claims (ua_sessions u) h MOidc w claims /\
    ua_registry u = Some sealer /\ cl_provider claims = Some id /\ believed sealer id w = Some c /\
    valid_subject (cl_subject claims) = true /\ cl_binding claims = binding c /\
    match w_users w !! cl_subject claims with
    | Some row => u_provider row = Some id /\
                  p = claimed_through c claims (role_max (role_for (oc_roles c) (cl_groups claims)) (u_role row))
    | None => p = claimed_through c claims (role_for (oc_roles c) (cl_groups claims))
    end.

Lemma good_claims_mode ss h w c1 c2 m1 m2 :
  good_claims ss h m1 w c1 -> good_claims ss h m2 w c2 -> m1 = m2.
Proof. intros (H1 & _ & H2 & _) (H3 & _ & H4 & _). rewrite H1 in H3. injection H3 as <-. rewrite H2 in H4. by destruct m1, m2. Qed.

Lemma recognize_Some c claims p :
  recognize c claims = Some p <->
  valid_subject (cl_subject claims) = true /\ cl_binding claims = binding c /\
  p = claimed_through c claims (role_for (oc_roles c) (cl_groups claims)).
Proof.
  unfold recognize, claimed_through. destruct (valid_subject _); cbn; [|by split; [|intros []]].
  case_bool_decide as Hb; cbn; split.
  - by intros [= <-].
  - by intros (_ & _ & ->).
  - done.
  - by intros (_ & ? & _).
Qed.

Lemma set_live_same w : set_live (w_live w) w = w.
Proof. by destruct w. Qed.

Lemma good_claims_one ss h m w c1 c2 : good_claims ss h m w c1 -> good_claims ss h m w c2 -> c1 = c2.
Proof. intros [H1 _] [H2 _]. congruence. Qed.

(** The person of a provider's session, of its one set of claims. *)
Lemma from_provider_of u h w sealer claims id person :
  good_claims (ua_sessions u) h MOidc w claims -> ua_registry u = Some sealer -> cl_provider claims = Some id ->
  from_provider u h w person <->
  exists c p, believed sealer id w = Some c /\ recognize c claims = Some p /\
    match w_users w !! cl_subject claims with
    | Some row => u_provider row = Some id /\ person = with_role_of p (role_max (p_role p) (u_role row))
    | None => person = p
    end.
Proof.
  intros Hg Hr Hp. split.
  - intros (c' & s & i & c & Hg' & Hr' & Hp' & Hb & Hv & Hbind & Hrow).
    rewrite (good_claims_one _ _ _ _ _ _ Hg' Hg) in *. rewrite Hr in Hr'. rewrite Hp in Hp'. simplify_eq.
    eexists c, _. split; [done|]. split; [by apply recognize_Some|]. exact Hrow.
  - intros (c & p & Hb & (Hv & Hbind & ->)%recognize_Some & Hrow). exists claims, sealer, id, c. by split_and!.
Qed.

Lemma answers_nobody {A} (P : A -> Prop) : (forall p, ~ P p) -> forall p, None = Some p <-> P p.
Proof. intros H p. split; [done|]. intros Hp. by destruct (H p). Qed.

Lemma run_through_provider u h w : providers_keyed w ->
  exists p l, run (identify_through_provider u h) w = (Ok p, set_live l w)
    /\ forall person, p = Some person <-> from_provider u h w person.
Proof.
  intros Hk. unfold identify_through_provider. destruct (ua_registry u) as [sealer|] eqn:Hreg.
  2: { exists None, (w_live w). rewrite set_live_same. split; [done|]. apply answers_nobody.
       intros p (? & ? & ? & ? & _ & ? & _). congruence. }
  destruct (run_read_session (ua_sessions u) h MOidc w) as (found & Hr & Hc). rewrite run_andthen, Hr.
  destruct found as [claims|].
  2: { exists None, (w_live w). rewrite set_live_same. split; [done|]. apply answers_nobody.
       intros p (c & ? & ? & ? & Hg%Hc & _). done. }
  assert (good_claims (ua_sessions u) h MOidc w claims) as Hg by by apply Hc.
  destruct (cl_provider claims) as [id|] eqn:Hid.
  2: { exists None, (w_live w). rewrite set_live_same. split; [done|]. apply answers_nobody.
       intros p (c & ? & ? & ? & Hg' & _ & Hp & _). rewrite (good_claims_one _ _ _ _ _ _ Hg' Hg) in Hp. congruence. }
  destruct (run_recent sealer id w Hk) as (l & Hl). rewrite run_andthen, Hl.
  assert (forall person, from_provider u h w person <-> _) as Hfrom by (intros p; by apply from_provider_of).
  destruct (believed sealer id w) as [c|]; cbn.
  2: { exists None, l. split; [done|]. apply answers_nobody. intros p (? & ? & ? & _)%Hfrom. done. }
  destruct (recognize c claims) as [p|] eqn:Hrec.
  2: { exists None, l. split; [done|]. apply answers_nobody. intros p (? & ? & [= <-] & ? & _)%Hfrom. congruence. }
  assert (p_subject p = cl_subject claims) as -> by by apply recognize_Some in Hrec as (_ & _ & ->).
  cbn. destruct (w_users w !! cl_subject claims) as [row|]; cbn.
  - case_decide as Hown.
    + eexists _, l. split; [done|]. intros person. rewrite Hfrom. split; [by intros [= <-]; exists c, p|].
      intros (? & ? & [= <-] & Hp & _ & ->). rewrite Hrec in Hp. by injection Hp as <-.
    + exists None, l. split; [done|]. apply answers_nobody. intros q (? & ? & _ & _ & ? & _)%Hfrom. done.
  - exists (Some p), l. split; [done|]. intros person. rewrite Hfrom. split; [by intros [= <-]; exists c, p|].
    intros (? & ? & [= <-] & Hp & ->). rewrite Hrec in Hp. by injection Hp as <-.
Qed.

Lemma run_through_password u h w :
  exists p, run (let! claims := read_session (ua_sessions u) h MUsers in
                 match claims with
                 | None => Answer None
                 | Some claims =>
                     let! found := record (cl_subject claims) in
                     match found with
                     | None => Answer None
                     | Some r =>
                         match u_hash r with
                         | Some hash =>
                             if decide (cl_binding claims = fingerprint hash) then
                               Answer (Some {| p_subject := cl_subject claims;
                                               p_display := default (cl_subject claims) (u_display r);
                                               p_role := u_role r |})
                             else Answer None
                         | None => Answer None
                         end
                     end
                 end) w = (Ok p, w)
    /\ forall person, p = Some person <-> from_password u h w person.
Proof.
  destruct (run_read_session (ua_sessions u) h MUsers w) as (found & Hr & Hc). rewrite run_andthen, Hr.
  destruct found as [claims|].
  2: { exists None. split; [done|]. apply answers_nobody. intros p (c & ? & ? & Hg%Hc & _). done. }
  assert (good_claims (ua_sessions u) h MUsers w claims) as Hg by by apply Hc.
  assert (forall p, from_password u h w p <-> exists row hash, w_users w !! cl_subject claims = Some row /\
            u_hash row = Some hash /\ cl_binding claims = fingerprint hash /\
            p = {| p_subject := cl_subject claims; p_display := default (cl_subject claims) (u_display row);
                   p_role := u_role row |}) as Hfrom.
  { intros p. split; [|intros (row & hash & H); by exists claims, row, hash].
    intros (c & row & hash & Hg' & H). rewrite (good_claims_one _ _ _ _ _ _ Hg' Hg) in H. by exists row, hash. }
  cbn. destruct (w_users w !! cl_subject claims) as [row|].
  2: { exists None. split; [done|]. apply answers_nobody. intros p (? & ? & ? & _)%Hfrom. done. }
  destruct (u_hash row) as [hash|] eqn:Hh.
  2: { exists None. split; [done|]. apply answers_nobody. intros p (? & ? & [= <-] & ? & _)%Hfrom. congruence. }
  case_decide as Hb.
  - eexists. split; [done|]. intros p. rewrite Hfrom. split; [by intros [= <-]; exists row, hash|].
    intros (? & ? & [= <-] & _ & _ & ->). done.
  - exists None. split; [done|]. apply answers_nobody. intros p (? & ? & [= <-] & Hh' & Hb' & _)%Hfrom. congruence.
Qed.

Lemma run_users_identify u h w : providers_keyed w ->
  exists p l, run (users_identify u h) w = (Ok p, set_live l w)
    /\ forall person, p = Some person <-> from_password u h w person \/ from_provider u h w person.
Proof.
  intros Hk. unfold users_identify.
  destruct (run_presented_mode (ua_sessions u) h w) as (m & Hr & Hm). rewrite run_andthen, Hr. case_decide as Hd.
  - destruct (run_through_provider u h w Hk) as (p & l & Hp & Hiff). exists p, l. split; [done|].
    intros person. rewrite Hiff. split; [by right|]. intros [(c & ? & ? & (Hc & _ & Hmode & _) & _)|?]; [|done].
    apply Hm in Hd as (c' & Hc' & _ & Hmode'). rewrite Hc in Hc'. simplify_eq. by rewrite Hmode in Hmode'.
  - destruct (run_through_password u h w) as (p & Hp & Hiff). exists p, (w_live w). rewrite set_live_same.
    split; [exact Hp|]. intros person. rewrite Hiff. split; [by left|].
    intros [?|(c & ? & ? & ? & (Hc & He & Hmode & _) & _)]; [done|]. destruct Hd. apply Hm. by exists c.
Qed.

(** C9: A request is from the person its session names, under what the tables
    say now, and from nobody otherwise.  It is answered with a person exactly
    when its cookie is one this site sealed, unexpired, opened for the same
    way in, with a live session row of the same subject and mode when sessions
    are kept, and either the subject has a password whose fingerprint is the
    one the session was opened under - then the person has the role of the row
    now - or the provider the session names, as it is set up now, recognizes
    it and no one else's row has the name - then the role is the larger of the
    row's and the one the session's groups give.  Nothing but the memory of
    providers changes. *)
Theorem users_identify_exact (u : UsersAuth) (h : headers) (w : Web) :
  providers_keyed w ->
  exists p l, run (users_identify u h) w = (Ok p, set_live l w)
    /\ forall person, p = Some person <-> from_password u h w person \/ from_provider u h w person.
Proof. apply run_users_identify. Qed.

(** ** From a sign-in to the next request *)

(** A request whose browser sends back the session cookie [token]. *)
Definition presents (h : headers) (token : str) : Prop :=
  get_all h COOKIE = [Some (SESSION_COOKIE ++ lit "=" ++ token)].

Definition token_char (c : ascii) : bool :=
  is_ascii_alphanumeric c || bool_decide (c ∈ ["-"%char; "_"%char; dot]).

Lemma token_char_visible c : token_char c = true -> visible c = true /\ c <> ";"%char.
Proof. destruct c as [[] [] [] [] [] [] [] []]; vm_compute; intros H; (split; congruence). Qed.

Lemma cookie_value_token h token :
  presents h token -> forallb token_char token = true -> cookie_value h SESSION_COOKIE = Some token.
Proof.
  intros Hp Ht. unfold cookie_value. rewrite Hp. cbn [omap list_omap].
  assert (forallb visible token = true /\ ";"%char ∉ token) as [Hv Hsemi].
  { rewrite forallb_forall in *. split; [intros c Hc; by apply token_char_visible, Ht|].
    intros Hc%list_elem_of_In. by apply Ht, token_char_visible in Hc as [_ ?]. }
  set (pair := SESSION_COOKIE ++ lit "=" ++ token).
  assert (";"%char ∉ pair) as Hpair.
  { unfold pair. rewrite !elem_of_app. intros [H|[H|H]]; [| |done];
      by apply (bool_decide_eq_true_2 _) in H. }
  assert (trim pair = pair) as Htrim.
  { apply trim_visible. unfold pair. by rewrite !forallb_app, Hv. }
  cbn [map concat app]. rewrite split_on_plain by done. cbn [concat map app omap list_omap].
  rewrite Htrim. unfold pair. change (lit "=" ++ token) with ("="%char :: token).
  rewrite (proj2 (split_once_Some "="%char _ SESSION_COOKIE token)).
  - cbn [omap list_omap List.find fst]. rewrite bool_decide_true by done. exact (f_equal Some (trim_visible token Hv)).
  - split; [done|]. intros H. by apply (bool_decide_eq_true_2 _) in H.
Qed.

Context `{!CryptoLaws K}.

Lemma b64_token s : forallb token_char (b64_encode s) = true.
Proof.
  rewrite forallb_forall. intros c Hc%list_elem_of_In%b64_plain. unfold token_char.
  destruct Hc as [->|[->| ->]]; [done|by_eval..].
Qed.

Lemma seal_json_token ss json : forallb token_char (seal_json ss json) = true.
Proof. unfold seal_json. rewrite forallb_app. cbn. by rewrite !b64_token. Qed.

Lemma open_seal_json ss json : open_json ss (seal_json ss json) = Some json.
Proof.
  unfold open_json, seal_json. set (payload := b64_encode json).
  rewrite (proj2 (split_once_Some dot _ payload (b64_encode (hmac_sha256 (se_secret ss) payload)))).
  - cbn. rewrite b64_round. cbn. rewrite decide_True by done. apply b64_round.
  - split; [done|]. intros H%b64_plain. by destruct H as [H|[H|H]].
Qed.

Lemma open_seal ss claims : (0 <= cl_expires claims < 2 ^ 64)%Z -> open ss (seal ss claims) = Some claims.
Proof. intros He. unfold open, seal. rewrite open_seal_json. by apply claims_round. Qed.

Lemma cookie_claims_seal ss h claims :
  (0 <= cl_expires claims < 2 ^ 64)%Z -> presents h (seal ss claims) -> cookie_claims ss h = Some claims.
Proof.
  intros He Hp. unfold cookie_claims. rewrite (cookie_value_token _ _ Hp); [by apply open_seal|apply seal_json_token].
Qed.

(** *** What opening a session leaves *)

(** The claims and the row of a session opened now. *)
Definition new_claims (ss : Sessions) (w : Web) (bytes subject : str) (mode : Mode) (b : str)
    (display : option str) (groups : list str) (provider : option str) : SessionClaims :=
  {| cl_subject := subject; cl_expires := (w_unix w + se_seconds ss)%Z; cl_nonce := b64_encode bytes;
     cl_binding := b; cl_display := display; cl_groups := groups; cl_provider := provider; cl_mode := mode_id mode |}.

Definition in_time (ss : Sessions) (w : Web) (unix db : Z) : Prop :=
  (unix < w_unix w + se_seconds ss)%Z /\ (db < (w_unix w + se_seconds ss) * 1000000)%Z.

(** The lifetime of a session fits in the [u64] it is kept in. *)
Definition lifetime_fits (ss : Sessions) (w : Web) : Prop := (0 <= w_unix w + se_seconds ss < 2 ^ 64)%Z.

Lemma run_open_session ss random subject mode b d g p w c w' :
  lifetime_fits ss w -> run (open_session_with ss random subject mode b d g p) w = (Ok c, w') ->
  exists bytes, random = Some bytes /\
    let claims := new_claims ss w bytes subject mode b d g p in
    c = cookie ss SESSION_COOKIE (seal ss claims) (se_seconds ss) /\
    w_users w' = w_users w /\ w_providers w' = w_providers w /\ w_live w' = w_live w /\
    (se_store ss = true -> w_sessions w' !! cl_nonce claims
       = Some {| s_subject := subject; s_mode := mode_id mode; s_provider := p; s_expires := cl_expires claims |}).
Proof.
  intros Hfit. unfold open_session_with. rewrite run_andthen. cbn. destruct random as [bytes|]; [|done].
  rewrite run_andthen. cbv zeta. cbn [cl_nonce cl_expires]. rewrite Z.mod_small by done. fold (new_claims ss w bytes subject mode b d g p).
  destruct (se_store ss).
  - unfold add_session. destruct (_ <=? i64_max)%Z; [|done]. unfold prune_sessions, insert_session. cbn.
    case_bool_decide; [done|]. destruct (session_row_ok _); [|done]. cbn. intros [= <- <-].
    exists bytes. split_and!; try done. intros _. cbn. by rewrite lookup_insert_eq.
  - intros [= <- <-]. by exists bytes.
Qed.

(** The session is good for whoever presents its cookie in time. *)
Lemma opened_is_good ss bytes subject mode b d g p w later h :
  lifetime_fits ss w -> in_time ss w (w_unix later) (w_db_now later) -> presents h (seal ss (new_claims ss w bytes subject mode b d g p)) ->
  (se_store ss = true -> w_sessions later !! b64_encode bytes
     = Some {| s_subject := subject; s_mode := mode_id mode; s_provider := p;
               s_expires := (w_unix w + se_seconds ss)%Z |}) ->
  good_claims ss h mode later (new_claims ss w bytes subject mode b d g p).
Proof.
  intros Hfit [Hu Hd] Hp Hrow. split_and!; [by apply cookie_claims_seal|done..|].
  intros Hs. unfold session_live. cbn. rewrite (Hrow Hs). cbn.
  rewrite !bool_decide_true by done. by apply Z.ltb_lt.
Qed.

Lemma run_issue_cookie u random p w c w' :
  lifetime_fits (ua_sessions u) w -> run (issue_cookie u random p) w = (Ok c, w') ->
  exists row hash bytes, w_users w !! p_subject p = Some row /\ u_hash row = Some hash /\ random = Some bytes /\
    let claims := new_claims (ua_sessions u) w bytes (p_subject p) MUsers (fingerprint hash) None [] None in
    c = cookie (ua_sessions u) SESSION_COOKIE (seal (ua_sessions u) claims) (se_seconds (ua_sessions u)) /\
    w_users w' = w_users w /\
    (se_store (ua_sessions u) = true -> w_sessions w' !! cl_nonce claims
       = Some {| s_subject := p_subject p; s_mode := mode_id MUsers; s_provider := None;
                 s_expires := cl_expires claims |}).
Proof.
  intros Hfit. unfold issue_cookie. rewrite run_andthen. cbn [run record reads query].
  destruct (w_users w !! p_subject p) as [row|] eqn:Hrow; [|done].
  destruct (u_hash row) as [hash|] eqn:Hhash; [|done].
  intros (bytes & ? & ? & ? & _ & _ & ?)%run_open_session; [|done].
  by exists row, hash, bytes.
Qed.

(** C12: Whoever signs in with the right password is the person the next
    requests come from, as long as the session and the password stand.  When
    the sign-in form answers with a cookie, that is the session cookie of a
    token the site sealed, the name has a row whose hash the password verifies
    against, and (when the site keeps sessions in the catalog) the session has
    its row.  In any later state of the tables, whatever was written since, in
    which that session row is still there and the name still has that hash,
    every request that presents the token within the lifetime of the session,
    by the host's clock and the catalog's, is from that name with the role and
    the display name its row then has.  (The expiry fits its integers, and the
    provider rows are under their slugs.) *)
Theorem sign_in_opens_session (u : UsersAuth) (proxies : TrustedProxies) (h : headers) (peer : option IpAddr)
    (username password : str) (random : option str) (w w' : Web) (c : str) :
  lifetime_fits (ua_sessions u) w ->
  run (login_submit u proxies h peer username password random) w = (Ok (Some c), w') ->
  exists token nonce row hash,
    c = cookie (ua_sessions u) SESSION_COOKIE token (se_seconds (ua_sessions u)) /\
    w_users w !! trim username = Some row /\ u_hash row = Some hash /\ argon2_verify hash password = true /\
    (se_store (ua_sessions u) = true -> w_sessions w' !! nonce
       = Some {| s_subject := trim username; s_mode := mode_id MUsers; s_provider := None;
                 s_expires := (w_unix w + se_seconds (ua_sessions u))%Z |}) /\
    forall h' later row', in_time (ua_sessions u) w (w_unix later) (w_db_now later) -> presents h' token ->
      providers_keyed later ->
      (se_store (ua_sessions u) = true -> w_sessions later !! nonce = w_sessions w' !! nonce) ->
      w_users later !! trim username = Some row' -> u_hash row' = Some hash ->
      exists l, run (users_identify u h') later
        = (Ok (Some {| p_subject := trim username; p_display := default (trim username) (u_display row');
                       p_role := u_role row' |}), set_live l later).
Proof.
  intros Hfit. unfold login_submit. rewrite run_andthen, run_verify.
  destruct (_ <? _)%nat; [done|]. destruct (cooldown_at _ _ _); [done|].
  destruct (right_password w (trim username) password) as [p|] eqn:Hright; [|done].
  apply bind_Some in Hright as (row & Hrow & (hash & Hhash & Hv)%bind_Some).
  destruct (argon2_verify hash password) eqn:Hver; [|done]. injection Hv as <-.
  set (w1 := set_failures _ _). rewrite run_andthen.
  destruct (run (issue_cookie u random _) w1) as [[c0|e] w2] eqn:Hissue; [|done]. intros [= <- <-].
  apply run_issue_cookie in Hissue as (row' & hash' & bytes & Hrow' & Hhash' & _ & -> & _ & Hs); [|done].
  cbn in Hrow'. rewrite Hrow in Hrow'. injection Hrow' as <-. rewrite Hhash in Hhash'. injection Hhash' as <-.
  eexists _, _, row, hash. split_and!; [done..|exact Hs|].
  intros h' later row' Ht Hp Hk Hsess Hrow' Hhash'.
  destruct (run_users_identify u h' later Hk) as (p & l & Hrun & Hiff).
  exists l. rewrite Hrun. do 2 f_equal. apply Hiff. left.
  eexists _, row', hash. split; [eapply opened_is_good; [exact Hfit|exact Ht|exact Hp|]|cbn; by split_and!].
  intros Hst. etransitivity; [exact (Hsess Hst)|exact (Hs Hst)].
Qed.

(** ** What ends a session *)

(** No session of the subject is live, under any nonce and mode. *)
Definition no_session_of (subject : str) (w : Web) : Prop :=
  forall nonce row, w_sessions w !! nonce = Some row -> s_subject row <> subject.

Lemma run_end_all ss subject w : se_store ss = true ->
  run (end_all_sessions_of ss subject) w
  = (Ok tt, set_sessions (filter (fun e => s_subject e.2 <> subject) (w_sessions w)) w).
Proof. intros Hs. unfold end_all_sessions_of. by rewrite Hs. Qed.

Lemma run_then_end_all ss subject (m : prog unit) w w' : se_store ss = true ->
  run (m ;; end_all_sessions_of ss subject) w = (Ok tt, w') -> no_session_of subject w'.
Proof.
  intros Hs. rewrite run_andthen. destruct (run m w) as [[[]|e] w1]; [|done]. rewrite run_end_all by done.
  intros [= <-] nonce row. cbn. by intros [_ ?]%map_lookup_filter_Some.
Qed.

Lemma run_set_password_ends u name password salt w w' : se_store (ua_sessions u) = true ->
  run (set_password u name password salt) w = (Ok tt, w') -> no_session_of name w'.
Proof.
  intros Hs. unfold set_password. rewrite run_andthen.
  destruct (run _ w) as [[hash|e] w1]; [|done]. by apply run_then_end_all.
Qed.

(** What ends sessions ends them in the catalog.  With sessions kept there,
    a sign-out leaves no row of the session whose cookie it was sent with; an
    admin's password reset, the removal of a person and a sign-out everywhere
    leave no session of that person, through a password or a provider; and the
    removal of a provider leaves none that the provider opened. *)
Theorem endings_end (u : UsersAuth) (w w' : Web) :
  se_store (ua_sessions u) = true ->
  (forall h claims m, cookie_claims (ua_sessions u) h = Some claims -> (w_unix w < cl_expires claims)%Z ->
     mode_parse (cl_mode claims) = Some m ->
     run (logout (AUsers u) h) w = (Ok tt, w') -> w_sessions w' = delete (cl_nonce claims) (w_sessions w)) /\
  (forall name password salt, run (set_password u name password salt) w = (Ok tt, w') -> no_session_of name w') /\
  (forall name, run (remove_user u name) w = (Ok tt, w') -> w_users w' !! name = None /\ no_session_of name w') /\
  (forall person, run (sign_out_everywhere (AUsers u) person) w = (Ok tt, w') -> no_session_of (p_subject person) w') /\
  (forall id, run (remove_provider u id) w = (Ok true, w') ->
     w_providers w' !! id = None /\
     forall nonce row, w_sessions w' !! nonce = Some row -> s_provider row <> Some id).
Proof.
  intros Hs. split_and!.
  - intros h claims m Hc He Hm%mode_parse_id. unfold logout. cbn [auth_sessions].
    destruct (run_presented_mode (ua_sessions u) h w) as (m' & Hr & Hiff). rewrite run_andthen, Hr.
    assert (m' = Some m) as -> by by apply Hiff; exists claims.
    unfold end_session_from, open_claims. rewrite Hs, Hc, Hm. cbn.
    rewrite (proj2 (Z.ltb_lt _ _)), bool_decide_true by done. cbn. by intros [= <-].
  - intros name password salt. by apply run_set_password_ends.
  - intros name Hr. split; [|by eapply run_then_end_all]. revert Hr. unfold remove_user, remove_row.
    rewrite run_andthen. cbn. destruct (_ && _); cbn; [|done]. rewrite run_end_all by done. intros [= <-].
    cbn. by rewrite lookup_delete_eq.
  - intros person. cbn [sign_out_everywhere auth_sessions]. rewrite run_end_all by done. intros [= <-] nonce row. cbn.
    by intros [_ ?]%map_lookup_filter_Some.
  - intros id. unfold remove_provider, load. cbn. destruct (w_providers w !! id); [|done]. cbn.
    unfold end_sessions_opened_by_provider. rewrite Hs. cbn. intros [= <-]. cbn.
    split; [by rewrite lookup_delete_eq|]. intros nonce row. by intros [_ ?]%map_lookup_filter_Some.
Qed.

End identify.
