(* ===== verification/WebExamples.v ===== *)
(** * A console to try

    The cryptographic interface by concrete functions that satisfy its laws,
    a small site, and the theorems on the console at concrete requests. *)
From stdpp Require Import prelude strings gmap list relations countable.
From Stdlib Require Import Ascii ZArith Lia.
From S2P Require Import Prelude Str Net WebState WebAuth WebUsers WebProps WebPeople WebThrottle WebSignIn.

(** ** Codes *)

(** A text as two letters for each byte. *)
Definition nibble (n : N) : ascii := ascii_of_N (97 + n).
Definition hex (s : str) : str := concat (map (fun c => [nibble (byte c / 16); nibble (byte c mod 16)]) s).
Definition nibble_of (c : ascii) : option N :=
  if in_range 97 112 c then Some (byte c - 97)%N else None.

Fixpoint unhex (s : str) : option str :=
  match s with
  | [] => Some []
  | [_] => None
  | a :: b :: r => a ← nibble_of a; b ← nibble_of b; r ← unhex r; Some (ascii_of_N (a * 16 + b) :: r)
  end.

Lemma nibbles c : nibble_of (nibble (byte c / 16)) = Some (byte c / 16)%N
  /\ nibble_of (nibble (byte c mod 16)) = Some (byte c mod 16)%N
  /\ ascii_of_N (byte c / 16 * 16 + byte c mod 16) = c.
Proof. destruct c as [[] [] [] [] [] [] [] []]; by vm_compute. Qed.

Lemma unhex_hex s : unhex (hex s) = Some s.
Proof.
  induction s as [|c s IH]; [done|]. cbn [hex map concat app unhex]. fold (hex s).
  destruct (nibbles c) as (H1 & H2 & H3). rewrite H1, H2, IH. cbn. by rewrite H3.
Qed.

Lemma hex_plain s c : c ∈ hex s -> is_ascii_alphanumeric c = true.
Proof.
  induction s as [|d s IH]; cbn; [by intros ?%elem_of_nil|]. rewrite !elem_of_cons.
  intros [->|[->|?]]; [..|by apply IH]; clear; by destruct d as [[] [] [] [] [] [] [] []].
Qed.

(** Any countable value as a text of bits. *)
Fixpoint bits (p : positive) : str :=
  match p with
  | xH => []
  | xO p => "0"%char :: bits p
  | xI p => "1"%char :: bits p
  end.

Fixpoint of_bits (s : str) : positive :=
  match s with
  | [] => xH
  | c :: s => if decide (c = "0"%char) then xO (of_bits s) else xI (of_bits s)
  end.

Lemma of_bits_bits p : of_bits (bits p) = p.
Proof. induction p as [p IH|p IH|]; cbn; by rewrite ?IH. Qed.

(** Several texts as one: the codes of the parts, with a dot between two. *)
Definition pack (fields : list str) : str := join [dot] (map hex fields).
Definition unpack (s : str) : option (list str) := mapM unhex (split_on dot s).

Lemma unpack_pack fields : fields <> [] -> unpack (pack fields) = Some fields.
Proof.
  intros Hne. unfold unpack, pack. rewrite split_on_join.
  - clear Hne. induction fields as [|f fs IH]; cbn; [done|]. by rewrite unhex_hex; cbn; rewrite IH.
  - by destruct fields.
  - apply Forall_map, Forall_true. intros f Hf. by apply hex_plain in Hf.
Qed.

(** An absent text is empty, a present one has a mark. *)
Definition mark (o : option str) : str := match o with Some s => dot :: s | None => [] end.
Definition unmark (s : str) : option str := match s with _ :: s => Some s | [] => None end.

Lemma unmark_mark o : unmark (mark o) = o.
Proof. by destruct o. Qed.

Definition claims_fields (c : SessionClaims) : list str :=
  [cl_subject c; bits (encode (cl_expires c)); cl_nonce c; cl_binding c; mark (cl_display c); mark (cl_provider c);
   cl_mode c] ++ cl_groups c.

Definition fields_claims (fields : list str) : option SessionClaims :=
  match fields with
  | s :: e :: n :: b :: d :: p :: m :: groups =>
      e ← decode (of_bits e);
      Some {| cl_subject := s; cl_expires := e; cl_nonce := n; cl_binding := b; cl_display := unmark d;
              cl_groups := groups; cl_provider := unmark p; cl_mode := m |}
  | _ => None
  end.

(** The tag and the ciphertext hold what they are made of: the laws ask for no
    secrecy. *)
#[export] Instance toy_crypto : Crypto := {|
  hmac_sha256 key s := key ++ s;
  sha256_digest s := s;
  b64_encode := hex;
  b64_decode := unhex;
  argon2_hash password salt := Some (salt ++ dot :: password);
  argon2_verify hash password :=
    match split_once dot hash with Some (_, p) => bool_decide (p = password) | None => false end;
  aead_seal key nonce plain := key ++ nonce ++ plain;
  aead_open key nonce sealed := strip_prefix (key ++ nonce) sealed;
  claims_json c := pack (claims_fields c);
  claims_of_json s := fields ← unpack s; fields_claims fields
|}.

#[export] Instance toy_laws : CryptoLaws toy_crypto.
Proof.
  constructor; cbn.
  - apply unhex_hex.
  - intros s c H. left. by eapply hex_plain.
  - intros c _. change (unpack (pack (claims_fields c)) ≫= fields_claims = Some c).
    rewrite unpack_pack by done. cbn. rewrite of_bits_bits, decode_encode, !unmark_mark. by destruct c.
  - intros key nonce plain. rewrite app_assoc. apply strip_prefix_app.
Qed.

(** A collation that folds the letters of ASCII only. *)
#[export] Instance c_collation : Collation := {| sql_lower := map to_ascii_lowercase |}.
#[export] Instance c_collation_laws : CollationLaws c_collation.
Proof. constructor. done. Qed.

(** ** A site *)

Definition site : Sessions :=
  {| se_secret := lit "0123456789abcdef0123456789abcdef"; se_seconds := 3600; se_cookie_secure := true;
     se_store := true |}.

Definition site_users : UsersAuth := {| ua_sessions := site; ua_registry := Some None |}.

Definition ada : UserRecord :=
  {| u_role := Editor; u_hash := Some (lit "salt.correct horse"); u_display := Some (lit "Ada"); u_provider := None |}.
Definition bob : UserRecord :=
  {| u_role := Admin; u_hash := Some (lit "pepper.battery staple"); u_display := None; u_provider := None |}.

Definition empty_web : Web :=
  {| w_users := {[lit "ada" := ada; lit "bob" := bob]}; w_sessions := ∅; w_providers := ∅; w_failures := ∅;
     w_live := ∅; w_db_now := 1000000000; w_unix := 1000; w_instant := 5 |}.

Definition nobody : TrustedProxies := {| tp_cidrs := []; tp_any := false |}.

(** A request without headers, and one with the session cookie. *)
Definition no_headers : headers := [].
Definition with_cookie (token : str) : headers := [(COOKIE, SESSION_COOKIE ++ lit "=" ++ token)].

Definition ada_claims : SessionClaims :=
  {| cl_subject := lit "ada"; cl_expires := 4600; cl_nonce := hex (lit "n1");
     cl_binding := fingerprint (lit "salt.correct horse"); cl_display := None; cl_groups := []; cl_provider := None;
     cl_mode := mode_id MUsers |}.

Definition sign_in (random : str) : prog reply :=
  program (RLogin site_users nobody no_headers None (lit " ada ") (lit "correct horse") (Some random)).

Example sign_in_gives_the_cookie :
  (run (sign_in (lit "n1")) empty_web).1
  = Ok (Cookie (Some (cookie site SESSION_COOKIE (seal site ada_claims) 3600))).
Proof. by_eval. Qed.

Definition signed : Web := (run (sign_in (lit "n1")) empty_web).2.
Definition token : str := seal site ada_claims.

(** Everything that arrives, in order, before anything moves. *)
Lemma arrive_all (ok : nat -> request -> Prop) (ts ts' : list (thread reply)) (w : Web) (script : list nat) :
  Forall (arriving ok) ts' -> reaches (arriving ok) (ts, w) (schedule script (ts ++ ts', w)).
Proof.
  intros H. eapply rtc_trans; [|apply schedule_reaches]. revert ts H. induction ts' as [|t ts' IH]; intros ts H.
  - by rewrite app_nil_r.
  - inversion_clear H. eapply rtc_l; [by apply step_arrive|]. replace (ts ++ t :: ts') with ((ts ++ [t]) ++ ts')
      by by rewrite <- app_assoc. by apply IH.
Qed.

Lemma no_providers_keyed w : w_providers w = ∅ -> providers_keyed w.
Proof. unfold providers_keyed. intros ->. apply map_Forall_empty. Qed.

Lemma users_identify_exact_witness :
  providers_keyed signed /\ exists p l,
    run (users_identify site_users (with_cookie token)) signed = (Ok p, set_live l signed)
    /\ (p = Some {| p_subject := lit "ada"; p_display := lit "Ada"; p_role := Editor |} <->
        from_password site_users (with_cookie token) signed {| p_subject := lit "ada"; p_display := lit "Ada"; p_role := Editor |}
        \/ from_provider site_users (with_cookie token) signed {| p_subject := lit "ada"; p_display := lit "Ada"; p_role := Editor |}).
Proof.
  split; [apply no_providers_keyed; by_eval|].
  destruct (users_identify_exact site_users (with_cookie token) signed) as (p & l & H1 & H2);
    [apply no_providers_keyed; by_eval|].
  exists p, l. split; [exact H1|apply H2].
Defined.

Example identified :
  (run (users_identify site_users (with_cookie token)) signed).1
  = Ok (Some {| p_subject := lit "ada"; p_display := lit "Ada"; p_role := Editor |}).
Proof. by_eval. Qed.

Lemma sign_in_opens_session_witness :
  lifetime_fits site empty_web /\
  exists l, run (users_identify site_users (with_cookie token)) signed
    = (Ok (Some {| p_subject := trim (lit " ada "); p_display := lit "Ada"; p_role := Editor |}), set_live l signed).
Proof.
  assert (lifetime_fits site empty_web) as Hfit by by vm_compute. split; [exact Hfit|].
  destruct (sign_in_opens_session site_users nobody no_headers None (lit " ada ") (lit "correct horse")
    (Some (lit "n1")) empty_web signed (cookie site SESSION_COOKIE token 3600)) as (t & n & row & hash & Hc & Hr & Hh & _ & _ & Hlater);
    [exact Hfit|by_eval|].
  assert (t = token) as ->.
  { unfold cookie in Hc. do 2 apply app_inv_head in Hc. by apply app_inv_tail in Hc. }
  assert (w_users signed !! trim (lit " ada ") = Some row) as Hnow by (rewrite <- Hr; by_eval).
  destruct (Hlater (with_cookie token) signed row) as (l & Hrun).
  - split; by vm_compute.
  - unfold presents. by_eval.
  - apply no_providers_keyed; by_eval.
  - done.
  - exact Hnow.
  - exact Hh.
  - exists l. rewrite Hrun. vm_compute in Hr. injection Hr as <-. by_eval.
Defined.

Lemma endings_end_witness :
  se_store site = true /\
  run (remove_user site_users (lit "ada")) signed = (Ok tt, (run (remove_user site_users (lit "ada")) signed).2) /\
  no_session_of (lit "ada") (run (remove_user site_users (lit "ada")) signed).2.
Proof.
  split; [done|]. split; [by_eval|].
  destruct (endings_end site_users signed (run (remove_user site_users (lit "ada")) signed).2) as (_ & _ & H & _); [done|].
  apply (H (lit "ada")). by_eval.
Defined.

(** A sign-out, and a request with the old cookie. *)
Definition signed_out : list (thread reply) * Web :=
  schedule [0; 0; 0; 0]%nat ([on 0 (program (RLogout (AUsers site_users) (with_cookie token)))], signed).
Definition old_cookie : list (thread reply) * Web :=
  schedule [1; 1; 1; 1]%nat (signed_out.1 ++ [on 1 (program (RIdentify (AUsers site_users) (with_cookie token) None))],
                            signed_out.2).

Lemma ended_session_stays_ended_witness :
  w_sessions signed !! cl_nonce ada_claims <> None /\ w_sessions signed_out.2 !! cl_nonce ada_claims = None /\
  old_cookie.1 !! 1 = Some (on 1 (Answer (Person None))) /\
  forall p, on 1 (Answer (Person (Some p))) ∉ old_cookie.1.
Proof.
  split; [by vm_compute|]. split; [by_eval|]. split; [by_eval|].
  apply (ended_session_stays_ended (AUsers site_users) site (with_cookie token) None ada_claims 1 signed signed_out.2
           signed_out.1 old_cookie); try by_eval.
  - rewrite <- surjective_pairing. apply (arrive_all _ []). constructor; [|constructor].
    eexists 0%nat, _. by split.
  - refine (bool_decide_eq_true_1 (1 ∉ map t_tag signed_out.1) _). by_eval.
  - apply schedule_reaches.
Defined.

(** An admin resets the password of bob and makes him an uploader while ada
    signs in: ada's row is as it was. *)
Definition about_bob (tag : nat) (r : request) : Prop :=
  match r with RSetRole n _ | RResetPassword _ n _ _ => n = lit "bob" | RLogin _ _ _ _ _ _ _ => True | _ => False end.

Definition busy : list (thread reply) * Web :=
  schedule [0; 1; 2; 0; 1; 2; 0; 1; 2; 0; 1; 2; 0; 1; 2; 0; 1; 2; 0; 1; 2; 0; 1; 2]%nat
    ([on 0 (program (RSetRole (lit "bob") Uploader));
      on 1 (program (RResetPassword site_users (lit "bob") (lit "a new password") (Some (lit "salt"))));
      on 2 (sign_in (lit "n1"))], empty_web).

Lemma empty_web_ok : people_ok empty_web.
Proof. refine (bool_decide_eq_true_1 (map_Forall (fun name r => user_row_ok name r = true) (w_users empty_web)) _). by_eval. Qed.

Lemma name_keeps_its_way_in_witness :
  (u_role <$> w_users busy.2 !! lit "bob") = Some Uploader /\
  exists u', w_users busy.2 !! lit "ada" = Some u' /\ u_role u' = Editor /\ u_hash u' = u_hash ada.
Proof.
  split; [by_eval|].
  destruct (name_keeps_its_way_in about_bob (lit "ada") empty_web busy.2 busy.1 ada) as (_ & u' & H1 & _ & H2 & H3);
    [| |exact empty_web_ok|by_eval|].
  - intros tag [] H1 H2; cbn in *; done.
  - rewrite <- surjective_pairing. apply (arrive_all _ []). repeat constructor; by eexists _, _.
  - assert (lit "bob" <> lit "ada") as Hne by by vm_compute. exists u'. split; [exact H1|]. split.
    + apply H3. intros tag r Hr. split; [intros Hs|by intros p]. apply Hne. destruct r; cbn in Hr, Hs; (contradiction || congruence).
    + apply H2. intros tag r Hr Hs. apply Hne. destruct r; cbn in Hr, Hs; (contradiction || congruence).
Defined.

(** A provider says a visitor is ada. *)
Definition github : OidcConfig :=
  {| oc_id := Some (lit "github"); oc_kind := KGitHub; oc_issuer := lit "https://github.com"; oc_client_id := lit "x";
     oc_client_secret := None; oc_redirect_uri := lit "https://kb.example.com/auth/callback"; oc_scopes := [];
     oc_subject_claims := [lit "login"]; oc_groups_claim := []; oc_roles := {| rm_map := []; rm_default := Viewer |};
     oc_provider_name := lit "GitHub" |}.

Definition visitor (name : str) : Principal := {| p_subject := name; p_display := name; p_role := Viewer |}.

Definition taking : list (thread reply) * Web :=
  schedule [0; 0; 0; 0; 0; 0]%nat
    ([on 0 (program (RSignIn (AUsers site_users) site github (visitor (lit "ada")) [] (Some (lit "n2"))))], empty_web).

Lemma provider_never_takes_a_name_witness :
  taking.1 !! 0 = Some (on 0 (Answer (Cookie None))) /\
  forall cookie, on 0 (Answer (Cookie (Some cookie))) ∉ taking.1.
Proof.
  split; [by_eval|].
  apply (provider_never_takes_a_name (fun _ _ => False) 0 site_users site github (lit "github") (visitor (lit "ada")) []
           (Some (lit "n2")) empty_web [] taking ada empty_web); [done| |done|apply rtc_refl|by_eval|done|].
  - by intros ?%elem_of_nil.
  - apply schedule_reaches.
Defined.

(** Six wrong passwords. *)
Definition wrong (tag : nat) : thread reply :=
  on tag (program (RLogin site_users nobody no_headers None (lit "ada") (lit "nope") None)).
Definition six_wrong : list (thread reply) * Web :=
  schedule (concat (replicate 8 [0; 1; 2; 3; 4; 5]%nat)) (map wrong [0; 1; 2; 3; 4; 5]%nat, empty_web).

Lemma throttle_bounded_witness :
  cooldown_at six_wrong.2 (lit "ada") None = Some 2000000000%Z /\
  size (w_failures six_wrong.2) <= MAX_TRACKED_FAILURES.
Proof.
  split; [by_eval|].
  destruct (throttle_bounded (fun _ _ => True) empty_web six_wrong) as [H _]; [| |exact H].
  - split; [by vm_compute; lia|]. apply map_Forall_empty.
  - apply (arrive_all _ []). repeat constructor; by eexists _, _.
Defined.

Lemma sign_in_exact_witness :
  kept six_wrong.2 !! (lit "ada", None) = Some {| f_count := 6; f_until := 2000000005 |} /\
  cooldown_at (count_failure_at (lit "ada") None six_wrong.2) (lit "ada") None = Some 4000000000%Z.
Proof.
  split; [by_eval|].
  refine (eq_trans (proj2 (proj2 (sign_in_exact (lit "ada") [] None six_wrong.2)) {| f_count := 6; f_until := 2000000005 |} _ _ _) _);
    [by_eval|by vm_compute|by vm_compute; lia|by_eval].
Defined.

(** ** Orders that do harm *)

(** A sign-in verifies the old password; then an admin resets the password,
    which ends every session of the person; then the sign-in opens its session,
    bound to the new password, and the old password keeps its holder signed in. *)
Definition raced : list (thread reply) * Web :=
  schedule [0; 0; 0; 1; 1; 1; 0; 0; 0; 0]%nat
    ([on 0 (sign_in (lit "n1"));
      on 1 (program (RResetPassword site_users (lit "ada") (lit "a new password") (Some (lit "salt"))))], empty_web).

Definition raced_token : str :=
  seal site {| cl_subject := lit "ada"; cl_expires := 4600; cl_nonce := hex (lit "n1");
               cl_binding := fingerprint (lit "salt.a new password"); cl_display := None; cl_groups := [];
               cl_provider := None; cl_mode := mode_id MUsers |}.

Example reset_misses_a_sign_in_in_flight :
  (raced.1, u_hash <$> w_users raced.2 !! lit "ada",
   (run (users_identify site_users (with_cookie raced_token)) raced.2).1)
  = ([on 0 (Answer (Cookie (Some (cookie site SESSION_COOKIE raced_token 3600)))); on 1 (Answer Done)],
     Some (Some (lit "salt.a new password")),
     Ok (Some {| p_subject := lit "ada"; p_display := lit "Ada"; p_role := Editor |})).
Proof. by_eval. Qed.
