(* ===== verification/WebUrl.v ===== *)
(** * Addresses the console writes and follows
      ([safe_next], [percent_encode], [percent_decode], [encode_path] in
      [pgokf-web/src/routes.rs]; the URL helpers of [oidc.rs]) *)
From stdpp Require Import prelude strings list.
From Stdlib Require Import Ascii ZArith Lia.
From S2P Require Import Prelude Str Net WebState WebAuth WebUsers.

(** ** Percent encoding *)

Definition unreserved (c : ascii) : bool :=
  is_ascii_alphanumeric c || bool_decide (c ∈ ["-"%char; "_"%char; "."%char; "~"%char]).

(** A digit of [{:02X}]. *)
Definition hex_digit (n : N) : ascii := if (n <? 10)%N then ascii_of_N (48 + n) else ascii_of_N (55 + n).

Definition percent_byte (c : ascii) : str :=
  if unreserved c then [c] else ["%"%char; hex_digit (byte c / 16); hex_digit (byte c mod 16)].

Definition percent_encode (value : str) : str := concat (map percent_byte value).

Definition hex_value (c : ascii) : option N :=
  if is_ascii_digit c then Some (byte c - 48)%N
  else if in_range 97 102 c then Some (byte c - 97 + 10)%N
  else if in_range 65 70 c then Some (byte c - 65 + 10)%N
  else None.

(** [hi * 16 + lo] in a byte. *)
Definition hex_byte (hi lo : N) : ascii := ascii_of_N ((hi * 16 + lo) mod 256).

(** One escape, or the character as it is. *)
Fixpoint decoded (value : str) : str :=
  match value with
  | [] => []
  | c :: rest =>
      if decide (c = "+"%char) then " "%char :: decoded rest
      else if decide (c = "%"%char) then
        match rest with
        | a :: b :: rest' =>
            match hex_value a, hex_value b with
            | Some hi, Some lo => hex_byte hi lo :: decoded rest'
            | _, _ => c :: decoded rest
            end
        | _ => c :: decoded rest
        end
      else c :: decoded rest
  end.

Definition percent_decode (value : str) : str := to_string_lossy (decoded value).

Definition encode_path (value : str) : str := join [slash] (map percent_encode (split_on slash value)).

(** ** Where a browser is sent *)

Definition backslash : ascii := "\"%char.

(** [s.contains(p)] for a text. *)
Fixpoint contains_str (p s : str) : bool :=
  starts_with p s || match s with [] => false | _ :: s' => contains_str p s' end.

Definition safe_next (next : str) : str :=
  let next := trim next in
  let plain := negb (has_control next) && negb (bool_decide (backslash ∈ next)) in
  if plain && starts_with [slash] next && negb (starts_with [slash; slash] next)
     && negb (contains_str (lit "://") next)
  then next else [slash].

Definition authorization_url (endpoint : str) (params : list (str * str)) : str :=
  let separator := if bool_decide ("?"%char ∈ endpoint) then "&"%char else "?"%char in
  endpoint ++ separator :: join ["&"%char] (map (fun '(key, value) => key ++ "="%char :: percent_encode value) params).

Definition openid : str := lit "openid".

(** First occurrences, in order ([seen.insert]). *)
Fixpoint first_of_each (seen : list str) (l : list str) : list str :=
  match l with
  | [] => []
  | s :: l' => if decide (s ∈ seen) then first_of_each seen l' else s :: first_of_each (s :: seen) l'
  end.

Definition scopes (kind : ProviderKind) (configured : str) : str :=
  let words := split_whitespace configured in
  match kind with
  | KGitHub => join [" "%char] words
  | KOidc =>
      let words := if decide (openid ∈ words) then words else openid :: words in
      join [" "%char] (first_of_each [] words)
  end.

(** ** GitHub's addresses *)

(** [trim_start_matches] of a text takes every repetition. *)
Fixpoint strip_all (fuel : nat) (p s : str) : str :=
  match fuel with
  | O => s
  | Datatypes.S fuel' => match strip_prefix p s with Some s' => strip_all fuel' p s' | None => s end
  end.
Definition trim_start_str (p s : str) : str := strip_all (length s) p s.

Definition github_api_base (issuer : str) : str :=
  let host := trim_end_matches (fun c => bool_decide (c = slash)) issuer in
  let authority := default [] (head (split_on slash (trim_start_str (lit "http://") (trim_start_str (lit "https://") host)))) in
  if eq_ignore_ascii_case authority (lit "github.com") || eq_ignore_ascii_case authority (lit "www.github.com")
  then lit "https://api.github.com"
  else host ++ lit "/api/v3".

(** [s.find(p)], as what is before and after the first occurrence. *)
Fixpoint split_sub (p s : str) : option (str * str) :=
  match strip_prefix p s with
  | Some r => Some ([], r)
  | None => match s with
            | [] => None
            | c :: s' => '(a, b) ← split_sub p s'; Some (c :: a, b)
            end
  end.

Definition api_origin (url : str) : str :=
  match split_sub (lit "://") url with
  | Some (scheme, rest) =>
      scheme ++ lit "://" ++ match split_once slash rest with Some (authority, _) => authority | None => rest end
  | None => url
  end.

Definition angle_open (c : ascii) : bool := bool_decide (c = "<"%char).
Definition angle_close (c : ascii) : bool := bool_decide (c = ">"%char).
Definition rel_next : str := lit "rel=" ++ ["034"%char] ++ lit "next" ++ ["034"%char].

Definition next_link_part (part : str) : option str :=
  '(url, rel) ← split_once ";"%char part;
  if contains_str rel_next rel then Some (trim_end_matches angle_close (trim_start_matches angle_open (trim url)))
  else None.

Definition next_link (header : str) : option str := head (omap next_link_part (split_on comma header)).

(** A list separated by commas or blanks. *)
Definition list_char (c : ascii) : bool := bool_decide (c = comma) || bool_decide (c = " "%char).
Fixpoint split_chars (p : ascii -> bool) (acc s : str) : list str :=
  match s with
  | [] => [reverse acc]
  | c :: s' => if p c then reverse acc :: split_chars p [] s' else split_chars p (c :: acc) s'
  end.
Definition listed (s : str) : list str :=
  List.filter (fun s => negb (bool_decide (s = []))) (map trim (split_chars list_char [] s)).

Definition covers (scope wanted : str) : bool :=
  bool_decide (scope = wanted)
  || if decide (wanted = lit "read:user" \/ wanted = lit "user:email") then bool_decide (scope = lit "user")
     else if decide (wanted = lit "read:org")
          then bool_decide (scope = lit "admin:org") || bool_decide (scope = lit "write:org")
          else false.

Definition scope_granted (granted wanted : str) : bool := existsb (fun scope => covers scope wanted) (listed granted).

(** ** Secrets compared *)

Definition constant_time_eq (a b : str) : bool :=
  if decide (length a = length b)
  then (fold_left (fun acc '(x, y) => N.lor acc (N.lxor (byte x) (byte y))) (combine a b) 0 =? 0)%N
  else false.

(** ** Encoded texts are read back *)

Lemma unreserved_plain c : unreserved c = true ->
  c <> "+"%char /\ c <> "%"%char /\ c <> "&"%char /\ c <> "="%char /\ c <> slash.
Proof. destruct c as [[] [] [] [] [] [] [] []]; vm_compute; intros H; (split_and!; congruence). Qed.

Lemma hex_digits c :
  let h := hex_digit (byte c / 16) in let l := hex_digit (byte c mod 16) in
  unreserved h = true /\ unreserved l = true /\
  exists a b, hex_value h = Some a /\ hex_value l = Some b /\ hex_byte a b = c.
Proof. destruct c as [[] [] [] [] [] [] [] []]; cbv zeta; (split_and!; [by_eval|by_eval|eexists _, _; by split_and!]). Qed.

Lemma decoded_byte c t : decoded (percent_byte c ++ t) = c :: decoded t.
Proof.
  unfold percent_byte. destruct (unreserved c) eqn:Hu.
  - apply unreserved_plain in Hu as (? & ? & _). cbn. by rewrite !decide_False by done.
  - destruct (hex_digits c) as (_ & _ & a & b & Ha & Hb & Hc). cbn. by rewrite Ha, Hb, Hc.
Qed.

Lemma decoded_encode s t : decoded (percent_encode s ++ t) = s ++ decoded t.
Proof.
  unfold percent_encode. induction s as [|c s IH]; [done|]. cbn [map concat]. rewrite <- app_assoc, decoded_byte.
  by rewrite IH.
Qed.

Lemma percent_encode_plain s c : c ∈ percent_encode s ->
  c <> "+"%char /\ c <> "&"%char /\ c <> "="%char /\ c <> slash.
Proof.
  unfold percent_encode. induction s as [|d s IH]; cbn; [by intros ?%elem_of_nil|].
  rewrite elem_of_app. intros [H|H]; [|by apply IH]. clear IH. unfold percent_byte in H.
  destruct (unreserved d) eqn:Hu.
  - apply list_elem_of_singleton in H as ->. by apply unreserved_plain in Hu as (? & ? & ? & ? & ?).
  - destruct (hex_digits d) as (H1 & H2 & _). apply unreserved_plain in H1, H2.
    rewrite !elem_of_cons in H. destruct H as [->|[->|[->|H]]]; [done|naive_solver..|by apply elem_of_nil in H].
Qed.

(** A path of percent-encoded segments has the segments of the original. *)
Lemma encode_path_segments s :
  map decoded (split_on slash (encode_path s)) = split_on slash s.
Proof.
  unfold encode_path. rewrite split_on_join.
  - rewrite map_map. rewrite <- (map_id (split_on slash s)) at 2. apply map_ext. intros t.
    rewrite <- (app_nil_r (percent_encode t)), decoded_encode. by rewrite app_nil_r.
  - intros H%map_eq_nil. by apply split_on_not_nil in H.
  - apply Forall_forall. intros x (t & -> & _)%list_elem_of_fmap H. by apply percent_encode_plain in H as (_ & _ & _ & ?).
Qed.

(** *** The query of an address *)

(** A query string as its reader takes it apart. *)
Definition read_param (pair : str) : str * str :=
  match split_once "="%char pair with
  | Some (k, v) => (decoded k, decoded v)
  | None => (decoded pair, [])
  end.
Definition read_query (query : str) : list (str * str) := map read_param (split_on "&"%char query).

(** A parameter name that needs no encoding. *)
Definition plain_key (k : str) : bool := forallb unreserved k.

Lemma decoded_plain k : plain_key k = true -> decoded k = k.
Proof.
  unfold plain_key. induction k as [|c k IH]; [done|]. cbn [forallb]. intros [Hc Hk]%andb_true_iff. cbn.
  apply unreserved_plain in Hc as (? & ? & _). rewrite !decide_False by done. by rewrite IH.
Qed.

(** No value can add, drop or change a parameter of an address the
    console builds.  Whatever the values hold - separators, signs, escapes -
    the query of the address, read the way a server reads it, is exactly the
    parameters that were written, in order. *)
Theorem authorization_url_read (endpoint : str) (params : list (str * str)) :
  params <> [] -> Forall (fun p => plain_key p.1 = true) params ->
  exists separator query,
    authorization_url endpoint params = endpoint ++ separator :: query /\
    (separator = "?"%char <-> "?"%char ∉ endpoint) /\
    read_query query = params.
Proof.
  intros Hne Hk. unfold authorization_url. eexists _, _. split; [done|]. split.
  - case_bool_decide as H; naive_solver.
  - unfold read_query. rewrite split_on_join.
    + rewrite map_map. rewrite <- (map_id params) at 2. apply map_ext_in. intros [k v] Hin%list_elem_of_In.
      rewrite Forall_forall in Hk. apply Hk in Hin. cbn in Hin. unfold read_param.
      rewrite (proj2 (split_once_Some "="%char _ k (percent_encode v))).
      * by rewrite decoded_plain, <- (app_nil_r (percent_encode v)), decoded_encode, app_nil_r.
      * split; [done|]. intros Heq%list_elem_of_In. unfold plain_key in Hin. rewrite forallb_forall in Hin.
        by apply Hin, unreserved_plain in Heq as (_ & _ & _ & ? & _).
    + by intros ?%map_eq_nil.
    + apply Forall_forall. intros x ([k v] & -> & Hin)%list_elem_of_fmap Hamp.
      rewrite Forall_forall in Hk. apply Hk in Hin. cbn in Hin.
      rewrite elem_of_app, elem_of_cons in Hamp. destruct Hamp as [H|[H|H]]; [|done|by apply percent_encode_plain in H as (_ & ? & _)].
      unfold plain_key in Hin. rewrite forallb_forall in Hin.
      by apply list_elem_of_In, Hin, unreserved_plain in H as (_ & _ & ? & _).
Qed.

Lemma authorization_url_read_witness :
  exists separator query,
    authorization_url (lit "https://id.example.com/authorize")
      [(lit "state", lit "a&admin=1"); (lit "redirect_uri", lit "https://kb/x?y=z+%20")]
    = lit "https://id.example.com/authorize" ++ separator :: query /\
    (separator = "?"%char <-> "?"%char ∉ lit "https://id.example.com/authorize") /\
    read_query query = [(lit "state", lit "a&admin=1"); (lit "redirect_uri", lit "https://kb/x?y=z+%20")].
Proof.
  apply authorization_url_read; [done|]. repeat constructor; by_eval.
Defined.

Lemma percent_roundtrip s : utf8_valid s = true -> percent_decode (percent_encode s) = s.
Proof.
  intros Hs. unfold percent_decode, to_string_lossy.
  rewrite <- (app_nil_r (percent_encode s)), decoded_encode, app_nil_r. by apply lossy_run_valid.
Qed.

(** ** A browser stays on this site *)

Lemma contains_str_app p a b : contains_str p (a ++ p ++ b) = true.
Proof.
  induction a as [|c a IH].
  - destruct (p ++ b) as [|c s] eqn:Hs; cbn; unfold starts_with; rewrite <- ?Hs;
      (assert (strip_prefix p (p ++ b) = Some b) as -> by (clear; induction p; cbn; [done|by rewrite decide_True])); done.
  - cbn. by rewrite IH, orb_true_r.
Qed.

(** A sign-in never sends the browser to another site.  Whatever the
    [next] parameter says, the address redirected to is a path of this site:
    it begins with one slash that no slash and no backslash follows, it has no
    scheme anywhere, no backslash and no control character - and it is the
    parameter itself, trimmed, or the home page. *)
Theorem safe_next_stays (next : str) :
  exists rest, safe_next next = slash :: rest /\ head rest <> Some slash /\
    backslash ∉ safe_next next /\ has_control (safe_next next) = false /\
    (forall a b, safe_next next <> a ++ lit "://" ++ b) /\
    (safe_next next = trim next \/ safe_next next = [slash]).
Proof.
  unfold safe_next. destruct (_ && _ && _ && _) eqn:H.
  - rewrite !andb_true_iff, !negb_true_iff, bool_decide_eq_false in H. destruct H as [[[[Hc Hb] Hs] Hss] Hp].
    unfold starts_with in Hs. destruct (strip_prefix [slash] (trim next)) as [r|] eqn:Hr; [|done].
    apply strip_prefix_Some in Hr. cbn in Hr. exists r. split_and!; try done; [|..|by left].
    + intros Hh. destruct r as [|c r]; [done|]. injection Hh as ->. unfold starts_with in Hss. rewrite Hr in Hss. done.
    + intros a b He. rewrite He, contains_str_app in Hp. done.
  - exists []. split_and!; try done; [| |by right].
    + by intros ?%list_elem_of_singleton.
    + intros a b Hab. apply (f_equal length) in Hab. rewrite !length_app in Hab. cbn in Hab. lia.
Qed.

(** ** Addresses of one origin *)

Lemma strip_prefix_short p u t :
  length p <= length u -> strip_prefix p (u ++ t) = (fun r => r ++ t) <$> strip_prefix p u.
Proof.
  revert u. induction p as [|c p IH]; intros u; [done|]. destruct u as [|d u]; cbn; [lia|]. intros H.
  case_decide; [apply IH; lia|done].
Qed.

Lemma split_sub_eq p s : split_sub p s =
  match strip_prefix p s with
  | Some r => Some ([], r)
  | None => match s with [] => None | c :: s' => '(a, b) ← split_sub p s'; Some (c :: a, b) end
  end.
Proof. by destruct s. Qed.

Lemma split_sub_Some p s a b : split_sub p s = Some (a, b) -> s = a ++ p ++ b.
Proof.
  revert a b. induction s as [|c s IH]; intros a b; rewrite split_sub_eq;
    (destruct (strip_prefix p _) as [r|] eqn:Hr; [apply strip_prefix_Some in Hr; by intros [= <- <-]|]); [done|].
  intros ([a' b'] & ->%IH & [= <- <-])%bind_Some. done.
Qed.

(** The first occurrence is decided by what comes up to its end. *)
Lemma split_sub_tail p a b b' : split_sub p (a ++ p ++ b) = Some (a, b) -> split_sub p (a ++ p ++ b') = Some (a, b').
Proof.
  induction a as [|c a IH]; rewrite !(split_sub_eq p (_ ++ _)).
  - intros _. by rewrite (proj2 (strip_prefix_Some p ([] ++ p ++ b') b')).
  - change ((c :: a) ++ p ++ b) with ((c :: a ++ p ++ b)). change ((c :: a) ++ p ++ b') with ((c :: a ++ p ++ b')).
    assert (forall x, strip_prefix p (c :: a ++ p ++ x) = (fun r => r ++ x) <$> strip_prefix p (c :: a ++ p)) as Hs.
    { intros x. rewrite <- strip_prefix_short by (cbn; rewrite length_app; lia). cbn [app]. by rewrite <- app_assoc. }
    rewrite !Hs. destruct (strip_prefix p (c :: a ++ p)); cbn; [done|].
    intros ([a' b''] & Hab & [= -> ->])%bind_Some. by rewrite (IH Hab).
Qed.

Lemma api_origin_same url page :
  is_Some (split_sub (lit "://") url) -> starts_with (api_origin url ++ [slash]) page = true ->
  api_origin page = api_origin url /\ is_Some (split_sub (lit "://") page).
Proof.
  intros [[scheme rest] Hu]. unfold api_origin at 1 3. rewrite Hu.
  set (authority := match split_once slash rest with Some (a, _) => a | None => rest end).
  assert (slash ∉ authority) as Ha.
  { unfold authority. destruct (split_once slash rest) as [[a b]|] eqn:Hs; [by apply split_once_Some in Hs as [_ ?]|].
    by apply split_once_None in Hs. }
  unfold starts_with. destruct (strip_prefix _ page) as [r|] eqn:Hp; [intros _|done]. apply strip_prefix_Some in Hp.
  rewrite (split_sub_Some _ _ _ _ Hu) in Hu.
  assert (split_sub (lit "://") page = Some (scheme, authority ++ slash :: r)) as Hsp.
  { rewrite Hp. rewrite <- !app_assoc. by eapply split_sub_tail. }
  rewrite Hsp. split; [|done]. unfold api_origin. rewrite Hsp.
  by rewrite (proj2 (split_once_Some slash _ authority r)).
Qed.

(** *** Secrets *)

Lemma xor_zero (x y : ascii) : N.lxor (byte x) (byte y) = 0%N <-> x = y.
Proof.
  rewrite N.lxor_eq_0_iff. split; [|by intros ->]. unfold byte. intros H.
  by rewrite <- (ascii_N_embedding x), H, ascii_N_embedding.
Qed.

Lemma constant_time_eq_spec a b : constant_time_eq a b = true <-> a = b.
Proof.
  unfold constant_time_eq. case_decide as Hl; [|split; [done|by intros ->]]. rewrite N.eqb_eq.
  assert (forall acc, fold_left (fun acc '(x, y) => N.lor acc (N.lxor (byte x) (byte y))) (combine a b) acc = 0%N
            <-> acc = 0%N /\ a = b) as Hf; [|rewrite Hf; naive_solver].
  revert b Hl. induction a as [|x a IH]; intros [|y b] Hl acc; try done; cbn [combine fold_left]; [naive_solver|].
  rewrite IH by (cbn in Hl; lia). rewrite N.lor_eq_0_iff, xor_zero. naive_solver.
Qed.
