(* ===== verification/Oidc.v ===== *)
(** * Sign-in through an identity provider ([pgokf-web/src/oidc.rs])

    A sign-in as the console does it: the flow cookie, the provider's
    configuration and its cache, the token endpoint, ID tokens and GitHub's
    API, and the person the claims name.  The network, the clocks and the JWT
    library are the class [World]; every consultation has its own number, so
    answers may differ each time. *)
From stdpp Require Import prelude strings gmap list.
From Stdlib Require Import Ascii ZArith Lia.
From S2P Require Import Prelude Str Net WebState WebAuth WebUsers WebUrl.

(** ** [serde_json::Value] *)

Inductive Value : Type :=
| VNull
| VBool (b : bool)
| VUint (n : N)  (* a number that fits [u64] *)
| VNumber        (* any other *)
| VString (s : str)
| VArray (l : list Value)
| VObject (fields : list (str * Value)).

Definition get (v : Value) (key : str) : option Value :=
  match v with
  | VObject fields => snd <$> List.find (fun e => bool_decide (e.1 = key)) fields
  | _ => None
  end.
Definition as_str (v : Value) : option str := match v with VString s => Some s | _ => None end.
Definition as_bool (v : Value) : option bool := match v with VBool b => Some b | _ => None end.
Definition as_u64 (v : Value) : option N := match v with VUint n => Some n | _ => None end.
Definition items_of (v : Value) : list Value := match v with VArray l => l | _ => [] end.

(** ** Data *)

Inductive Algorithm : Type :=
| RS256 | RS384 | RS512 | PS256 | PS384 | PS512 | ES256 | ES384 | EdDSA
| OtherAlgorithm (name : str).

#[export] Instance Algorithm_eq_dec : EqDecision Algorithm.
Proof. solve_decision. Defined.

Definition ALLOWED_ALGORITHMS : list Algorithm :=
  [RS256; RS384; RS512; PS256; PS384; PS512; ES256; ES384; EdDSA].

Record Discovery : Type := {
  d_issuer : str;
  d_authorization_endpoint : str;
  d_token_endpoint : str;
  d_jwks_uri : str;
  d_end_session_endpoint : option str;
  d_signing_algs : option (list str);
  d_auth_methods : option (list str);
  d_challenge_methods : option (list str)
}.

Record Flow : Type := {
  fl_provider : option str;
  fl_state : str;
  fl_nonce : str;
  fl_verifier : str;
  fl_next : str;
  fl_expires : Z
}.

Record IdClaims : Type := {
  ic_sub : str;
  ic_nonce : option str;
  ic_azp : option str;
  ic_other : gmap (list ascii) Value
}.

Record TokenResponse : Type := { tr_id_token : option str; tr_access_token : option str; tr_scope : option str }.

Record Validation : Type := {
  v_algorithms : list Algorithm;
  v_issuer : str;
  v_audience : str;
  v_required : list str;
  v_exp : bool;
  v_nbf : bool
}.

Inductive OidcError : Type :=
| ENoFlow | EForeignFlow | ETooLong | EState | EOtherProvider | ERandom
| EUrl (e : UrlError) | EIssuer | EPkce | EUnreachable | ERefused (code : option str) | EUnusable
| ENoIdToken | ENoAccessToken
| EHeader | EAlgorithm | ENoKey | ESeveralKeys | EKey | ENoAlgorithm | EToken | EClient | EOtherNonce | ENoNonce
| ENoAccount | ETooManyPages | EOtherOrigin | ENobody.

(** The cookie of a flow as JSON. *)
Class FlowCodec : Type := { flow_json : Flow -> str; flow_of_json : str -> option Flow }.

(** A flow round trips; and its JSON has no field that session claims keep
    their mode in, so read as claims it has the default one. *)
Class FlowLaws `{K : Crypto} (F : FlowCodec) : Prop := {
  flow_round : forall f, (0 <= fl_expires f < 2 ^ 64)%Z -> flow_of_json (flow_json f) = Some f;
  flow_no_claims : forall f c, claims_of_json (flow_json f) = Some c -> cl_mode c = []
}.

(** The answer of the token endpoint: its status and its body. *)
Inductive Answered : Type := Unreached | Status (ok : bool) (body : str).

(** What is outside the repository, at the [n]th consultation. *)
Class World : Type := {
  unix_at : nat -> Z;
  instant_at : nat -> Z;
  jwk : Type;
  jwk_id : jwk -> option str;
  jwk_algorithm : jwk -> option str;
  jwk_usable : jwk -> bool;
  document : nat -> str -> result Discovery OidcError;
  key_set : nat -> str -> result (list jwk) OidcError;
  token_answer : nat -> str -> list (str * str) -> option (str * str) -> Answered;
  github_answer : nat -> str -> str -> result (Value * option str) OidcError;
  json_of : str -> option Value;
  token_response_of : str -> option TokenResponse;
  algorithm_named : str -> option Algorithm;
  token_header : str -> option (Algorithm * option str);
  token_claims : str -> jwk -> Validation -> option IdClaims
}.

(** ** The person claims name *)

Definition string_list (value : option Value) : list str :=
  match value with
  | Some (VArray items) => omap as_str items
  | Some (VString one) => listed one
  | _ => []
  end.

Definition email_verified (claims : IdClaims) : bool :=
  match ic_other claims !! lit "email_verified" with
  | Some (VBool verified) => verified
  | Some (VString text) => eq_ignore_ascii_case text (lit "true")
  | _ => false
  end.

(** What a configured claim says of the person. *)
Definition claim_value (claims : IdClaims) (name : str) : option str :=
  if decide (name = lit "sub") then Some (ic_sub claims)
  else if decide (name = lit "email" /\ email_verified claims = false) then None
  else v ← ic_other claims !! name; as_str v.

Definition principal_from (c : OidcConfig) (claims : IdClaims) : result (Principal * list str) OidcError :=
  let? subject := ok_or ENobody
    (List.find valid_subject (map trim (omap (claim_value claims) (oc_subject_claims c)))) in
  let display :=
    default subject
      (v ← ic_other claims !! lit "name"; s ← as_str v;
       let name := trim s in
       if negb (bool_decide (name = [])) && negb (has_control name) then Some name else None) in
  let groups := string_list (ic_other claims !! oc_groups_claim c) in
  Ok ({| p_subject := subject; p_display := display; p_role := role_for (oc_roles c) groups |},
      known_groups (oc_roles c) groups).

(** [claims_from_github] *)
Definition github_text (user : Value) (key : str) : option Value :=
  v ← get user key; s ← as_str v; VString <$> non_blank (trim s).

Definition primary_verified (e : Value) : bool :=
  bool_decide ((v ← get e (lit "primary"); as_bool v) = Some true)
  && bool_decide ((v ← get e (lit "verified"); as_bool v) = Some true).

Definition team_group (team : Value) : option Value :=
  org ← get team (lit "organization"); login ← get org (lit "login"); org ← as_str login;
  slug ← get team (lit "slug"); slug ← as_str slug;
  Some (VString (org ++ lit "/" ++ slug)).

Definition put_text (key : str) (v : option Value) (m : gmap (list ascii) Value) : gmap (list ascii) Value :=
  match v with Some v => <[key := v]> m | None => m end.

Definition claims_from_github (user emails orgs teams : Value) (groups_claim : str) : result IdClaims OidcError :=
  let? id := ok_or ENoAccount (v ← get user (lit "id"); as_u64 v) in
  let other := put_text (lit "name") (github_text user (lit "name"))
                 (put_text (lit "login") (github_text user (lit "login")) ∅) in
  let other := match other !! lit "name" with
               | None => put_text (lit "name") (other !! lit "login") other
               | Some _ => other
               end in
  let email := e ← List.find primary_verified (items_of emails); v ← get e (lit "email"); as_str v in
  let other := match email with
               | Some email => <[lit "email_verified" := VBool true]> (<[lit "email" := VString email]> other)
               | None => other
               end in
  let groups := omap (fun org => login ← get org (lit "login"); VString <$> as_str login) (items_of orgs)
                ++ omap team_group (items_of teams) in
  Ok {| ic_sub := show_Z (Z.of_N id); ic_nonce := None; ic_azp := None;
        ic_other := <[groups_claim := VArray groups]> other |}.

Section oidc.
Context `{HM : HeaderMap, K : Crypto, F : FlowCodec, W : World}.

(** ** Steps *)

Record Metadata : Type := { md_discovery : Discovery; md_keys : list jwk; md_read_at : Z; md_keys_read_at : Z }.

(** The number of the next consultation, the cached configuration, and where
    the person's access token was sent. *)
Record OState : Type := { os_tick : nat; os_metadata : option Metadata; os_sent : list str }.

Definition M (A : Type) : Type := OState -> result A OidcError * OState.

Definition ret {A} (a : A) : M A := fun s => (Ok a, s).
Definition fail {A} (e : OidcError) : M A := fun s => (Err e, s).
Definition bind {A B} (m : M A) (k : A -> M B) : M B :=
  fun s => match m s with (Ok a, s') => k a s' | (Err e, s') => (Err e, s') end.
Definition lift {A} (r : result A OidcError) : M A := fun s => (r, s).
Definition tick (s : OState) : OState :=
  {| os_tick := Datatypes.S (os_tick s); os_metadata := os_metadata s; os_sent := os_sent s |}.
(** A consultation. *)
Definition ask {A} (f : nat -> A) : M A := fun s => (Ok (f (os_tick s)), tick s).
Definition ask_result {A} (f : nat -> result A OidcError) : M A := fun s => (f (os_tick s), tick s).
Definition cached {A} (f : option Metadata -> A) : M A := fun s => (Ok (f (os_metadata s)), s).
Definition keep (m : Metadata) : M unit :=
  fun s => (Ok tt, {| os_tick := os_tick s; os_metadata := Some m; os_sent := os_sent s |}).
Definition sends (url : str) : M unit :=
  fun s => (Ok tt, {| os_tick := os_tick s; os_metadata := os_metadata s; os_sent := os_sent s ++ [url] |}).

#[local] Notation "'do' x '<-' m ';' k" := (bind m (fun x => k))
  (at level 200, x pattern, m at level 100, k at level 200).
#[local] Notation "m ;;; k" := (bind m (fun _ => k)) (at level 100, k at level 200, right associativity).

Definition guard_ (b : bool) (e : OidcError) : M unit := if b then ret tt else fail e.

(** ** The provider's configuration *)

Definition NANO : Z := 1000000000.
Definition METADATA_TTL : Z := (3600 * NANO)%Z.
Definition JWKS_REFETCH_GAP : Z := (60 * NANO)%Z.
Definition FLOW_SECONDS : Z := 600.

Definition no_slash (url : str) : str := trim_end_matches (fun c => bool_decide (c = slash)) url.
Definition check (url : str) : M unit := lift (rmap_err EUrl (rmap (fun _ => tt) (check_url url))).

Definition github_discovery (host : str) : Discovery :=
  {| d_issuer := host; d_authorization_endpoint := host ++ lit "/login/oauth/authorize";
     d_token_endpoint := host ++ lit "/login/oauth/access_token"; d_jwks_uri := [];
     d_end_session_endpoint := None; d_signing_algs := None;
     d_auth_methods := Some [lit "client_secret_post"]; d_challenge_methods := Some [lit "S256"] |}.

Definition refresh (c : OidcConfig) : M Metadata :=
  if decide (oc_kind c = KGitHub) then
    do now <- ask instant_at;
    let m := {| md_discovery := github_discovery (no_slash (oc_issuer c)); md_keys := []; md_read_at := now;
                md_keys_read_at := now |} in
    keep m ;;; ret m
  else
    do d <- ask_result (fun n => document n (no_slash (oc_issuer c) ++ lit "/.well-known/openid-configuration"));
    guard_ (bool_decide (no_slash (d_issuer d) = no_slash (oc_issuer c))) EIssuer ;;;
    check (d_authorization_endpoint d) ;;; check (d_token_endpoint d) ;;; check (d_jwks_uri d) ;;;
    match d_end_session_endpoint d with Some url => check url | None => ret tt end ;;;
    guard_ (match d_challenge_methods d with Some methods => bool_decide (lit "S256" ∈ methods) | None => true end)
      EPkce ;;;
    do keys <- ask_result (fun n => key_set n (d_jwks_uri d));
    do now <- ask instant_at;
    let m := {| md_discovery := d; md_keys := keys; md_read_at := now; md_keys_read_at := now |} in
    keep m ;;; ret m.

Definition metadata (c : OidcConfig) : M Discovery :=
  do now <- ask instant_at;
  do fresh <- cached (fun held => m ← held;
                        if (Z.max 0 (now - md_read_at m) <? METADATA_TTL)%Z then Some (md_discovery m) else None);
  match fresh with
  | Some d => ret d
  | None => do m <- refresh c; ret (md_discovery m)
  end.

Definition find_key (keys : list jwk) (kid : str) : option jwk :=
  List.find (fun k => bool_decide (jwk_id k = Some kid)) keys.

Definition keys_for (c : OidcConfig) (kid : option str) : M (list jwk) :=
  do now <- ask instant_at;
  do usable <- cached (fun held => m ← held;
                         let known := match kid with
                                      | Some kid => bool_decide (is_Some (find_key (md_keys m) kid))
                                      | None => true
                                      end in
                         if known || (Z.max 0 (now - md_keys_read_at m) <? JWKS_REFETCH_GAP)%Z
                         then Some (md_keys m) else None);
  match usable with
  | Some keys => ret keys
  | None => do m <- refresh c; ret (md_keys m)
  end.

(** ** Tokens *)

Definition client_secret_basic (d : Discovery) : bool :=
  match d_auth_methods d with
  | Some methods => bool_decide (lit "client_secret_basic" ∈ methods)
                    || negb (bool_decide (lit "client_secret_post" ∈ methods))
  | None => true
  end.

Definition code_char (c : ascii) : bool := is_ascii_alphanumeric c || bool_decide (c = "_"%char).

Definition oauth_error (body : str) : option str :=
  value ← json_of body; error ← get value (lit "error"); error ← as_str error;
  non_blank (take 64 (List.filter code_char error)).

Definition exchange (c : OidcConfig) (code verifier : str) : M TokenResponse :=
  do d <- metadata c;
  let basic := client_secret_basic d in
  let form := [(lit "grant_type", lit "authorization_code"); (lit "code", code);
               (lit "redirect_uri", oc_redirect_uri c); (lit "client_id", oc_client_id c);
               (lit "code_verifier", verifier)]
              ++ match oc_client_secret c with
                 | Some secret => if basic then [] else [(lit "client_secret", secret)]
                 | None => []
                 end in
  let authorization := match oc_client_secret c with
                       | Some secret => if basic then Some (oc_client_id c, secret) else None
                       | None => None
                       end in
  do answer <- ask (fun n => token_answer n (d_token_endpoint d) form authorization);
  match answer with
  | Unreached => fail EUnreachable
  | Status false body => fail (ERefused (oauth_error body))
  | Status true body =>
      match oauth_error body with
      | Some error => fail (ERefused (Some error))
      | None => lift (ok_or EUnusable (token_response_of body))
      end
  end.

Definition allowed (a : Algorithm) : bool := bool_decide (a ∈ ALLOWED_ALGORITHMS).

Definition accepted_algorithms (key_algorithm : option str) (advertised : option (list str)) : list Algorithm :=
  match (a ← key_algorithm; a ← algorithm_named a; if allowed a then Some a else None) with
  | Some declared => [declared]
  | None =>
      match advertised with
      | None => ALLOWED_ALGORITHMS
      | Some names => match List.filter allowed (omap algorithm_named names) with
                      | [] => ALLOWED_ALGORITHMS
                      | named => named
                      end
      end
  end.

Definition required_claims : list str := [lit "exp"; lit "iss"; lit "aud"; lit "sub"].

Definition choose_key (keys : list jwk) (kid : option str) : result jwk OidcError :=
  match kid with
  | Some kid => ok_or ENoKey (find_key keys kid)
  | None => match keys with [only] => Ok only | _ => Err ESeveralKeys end
  end.

(** The checks after the signature. *)
Definition check_claims (c : OidcConfig) (nonce : str) (claims : IdClaims) : result IdClaims OidcError :=
  if match ic_azp claims with Some azp => negb (bool_decide (azp = oc_client_id c)) | None => false end then Err EClient
  else match ic_nonce claims with
       | Some theirs => if constant_time_eq theirs nonce then Ok claims else Err EOtherNonce
       | None => Err ENoNonce
       end.

Definition verify_id_token (c : OidcConfig) (token nonce : str) : M IdClaims :=
  do d <- metadata c;
  do (alg, kid) <- lift (ok_or EHeader (token_header token));
  guard_ (allowed alg) EAlgorithm ;;;
  do keys <- keys_for c kid;
  do key <- lift (choose_key keys kid);
  guard_ (jwk_usable key) EKey ;;;
  let algorithms := accepted_algorithms (jwk_algorithm key) (d_signing_algs d) in
  guard_ (negb (bool_decide (algorithms = []))) ENoAlgorithm ;;;
  do claims <- lift (ok_or EToken (token_claims token key
                  {| v_algorithms := algorithms; v_issuer := d_issuer d; v_audience := oc_client_id c;
                     v_required := required_claims; v_exp := true; v_nbf := true |}));
  lift (check_claims c nonce claims).

(** ** GitHub *)

Definition GITHUB_PAGES : nat := 5.

Definition github_json (url token : str) : M (Value * option str) :=
  sends url ;;; ask_result (fun n => github_answer n url token).

(** The loop of [github_list] with [left] pages still allowed. *)
Fixpoint github_pages (left : nat) (token url : str) (items : list Value) : M (list Value) :=
  match left with
  | O => fail ETooManyPages
  | Datatypes.S left' =>
      do (page, link) <- github_json url token;
      let items := items ++ items_of page in
      match link ≫= next_link with
      | Some next => if starts_with (api_origin url ++ [slash]) next then github_pages left' token next items
                     else fail EOtherOrigin
      | None => ret items
      end
  end.

Definition github_list (url token : str) : M (list Value) := github_pages GITHUB_PAGES token url [].

Definition github_forget_token (c : OidcConfig) (api token : str) : M unit :=
  match oc_client_secret c with
  | None => ret tt
  | Some _ => sends (api ++ lit "/applications/" ++ oc_client_id c ++ lit "/token")
  end.

Definition github_claims (c : OidcConfig) (token granted : str) : M IdClaims :=
  let api := github_api_base (oc_issuer c) in
  do (user, _) <- github_json (api ++ lit "/user") token;
  do emails <- (if scope_granted granted (lit "user:email")
                then github_list (api ++ lit "/user/emails?per_page=100") token else ret []);
  do (orgs, teams) <- (if scope_granted granted (lit "read:org") then
                          do orgs <- github_list (api ++ lit "/user/orgs?per_page=100") token;
                          do teams <- github_list (api ++ lit "/user/teams?per_page=100") token;
                          ret (orgs, teams)
                        else ret ([], []));
  let claims := claims_from_github user (VArray emails) (VArray orgs) (VArray teams) (oc_groups_claim c) in
  github_forget_token c api token ;;;
  lift claims.

(** ** The flow *)

Definition FLOW_COOKIE : str := lit "pgokf_signin".

Definition open_flow (ss : Sessions) (token : str) : option Flow := json ← open_json ss token; flow_of_json json.

(** [start]: where to send the browser, and the flow's cookie. *)
Definition start (ss : Sessions) (c : OidcConfig) (next : str) (random : option (str * str * str)) : M (str * str) :=
  do d <- metadata c;
  do (state, nonce, verifier) <- lift (ok_or ERandom random);
  let '(state, nonce, verifier) := (b64_encode state, b64_encode nonce, b64_encode verifier) in
  let challenge := b64_encode (sha256_digest verifier) in
  do now <- ask unix_at;
  let flow := {| fl_provider := oc_id c; fl_state := state; fl_nonce := nonce; fl_verifier := verifier;
                 fl_next := next; fl_expires := (now + FLOW_SECONDS)%Z |} in
  ret (authorization_url (d_authorization_endpoint d)
         [(lit "response_type", lit "code"); (lit "client_id", oc_client_id c);
          (lit "redirect_uri", oc_redirect_uri c); (lit "scope", scopes (oc_kind c) (oc_scopes c));
          (lit "state", state); (lit "nonce", nonce); (lit "code_challenge", challenge);
          (lit "code_challenge_method", lit "S256")],
       cookie ss FLOW_COOKIE (seal_json ss (flow_json flow)) FLOW_SECONDS).

Definition complete (ss : Sessions) (c : OidcConfig) (h : headers) (code state : str)
  : M (Principal * list str * str) :=
  do token <- lift (ok_or ENoFlow (cookie_value h FLOW_COOKIE));
  do flow <- lift (ok_or EForeignFlow (open_flow ss token));
  do now <- ask unix_at;
  guard_ (negb (fl_expires flow <=? now)%Z) ETooLong ;;;
  guard_ (constant_time_eq (fl_state flow) state) EState ;;;
  guard_ (bool_decide (fl_provider flow = oc_id c)) EOtherProvider ;;;
  do tokens <- exchange c code (fl_verifier flow);
  do claims <- match oc_kind c with
               | KOidc => do id_token <- lift (ok_or ENoIdToken (tr_id_token tokens));
                          verify_id_token c id_token (fl_nonce flow)
               | KGitHub => do access_token <- lift (ok_or ENoAccessToken (tr_access_token tokens));
                            github_claims c access_token
                              (default (scopes (oc_kind c) (oc_scopes c)) (tr_scope tokens))
               end;
  do (principal, groups) <- lift (principal_from c claims);
  ret (principal, groups, fl_next flow).

Inductive StartedAt : Type := Own | Stored (id : str).

Definition flow_provider (ss : Sessions) (h : headers) : M (option StartedAt) :=
  match (token ← cookie_value h FLOW_COOKIE; open_flow ss token) with
  | None => ret None
  | Some flow => do now <- ask unix_at;
                 ret (if (fl_expires flow <=? now)%Z then None
                      else Some match fl_provider flow with Some id => Stored id | None => Own end)
  end.

(** Where a sign-out goes, when the provider offers it. *)
Definition end_session_url (c : OidcConfig) : M (option str) :=
  cached (fun held =>
    m ← held; endpoint ← d_end_session_endpoint (md_discovery m);
    let home := (fun base => base ++ lit "/") <$> strip_suffix (lit "/auth/callback") (oc_redirect_uri c) in
    Some (authorization_url endpoint
            ((lit "client_id", oc_client_id c)
             :: match home with Some home => [(lit "post_logout_redirect_uri", home)] | None => [] end))).

End oidc.
