(* ===== verification/OidcProps.v ===== *)
(** * What a provider sign-in guarantees

    Whom a sign-in names and from which answers, where the access token goes,
    and what a flow's cookie is good for. *)
From stdpp Require Import prelude strings gmap list.
From Stdlib Require Import Ascii ZArith Lia.
From S2P Require Import Prelude Str Net WebState WebAuth WebUsers WebUrl Oidc.

(** ** Algorithms and claims *)

Section algorithms.
Context `{W : World}.

(** Only the asymmetric algorithms of the allow-list, and never none. *)
Lemma accepted_allowed key advertised :
  accepted_algorithms key advertised <> [] /\
  forall a, a ∈ accepted_algorithms key advertised -> a ∈ ALLOWED_ALGORITHMS.
Proof.
  unfold accepted_algorithms.
  destruct (a ← key; a ← algorithm_named a; if allowed a then Some a else None) as [declared|] eqn:Hk.
  { apply bind_Some in Hk as (k & _ & (a & _ & Ha)%bind_Some). destruct (allowed a) eqn:Hall; [|done].
    injection Ha as <-. split; [done|]. intros b ->%list_elem_of_singleton. by apply bool_decide_eq_true in Hall. }
  destruct advertised as [names|]; [|by split].
  destruct (List.filter allowed (omap algorithm_named names)) as [|x l] eqn:Hf; [by split|]. split; [done|].
  intros a Ha%list_elem_of_In. rewrite <- Hf in Ha. apply filter_In in Ha as [_ Ha]. by apply bool_decide_eq_true in Ha.
Qed.

End algorithms.

(** *** The groups a session keeps *)

Lemma known_groups_mem (m : RoleMapping) groups e :
  e ∈ rm_map m -> (e.1 ∈ known_groups m groups <-> e.1 ∈ groups).
Proof.
  intros He. unfold known_groups. rewrite !list_elem_of_In, filter_In. split; [by intros []|]. intros Hg.
  split; [done|]. apply existsb_exists. exists e. split; [by apply list_elem_of_In|]. by apply bool_decide_eq_true.
Qed.

(** They give the role all groups give. *)
Lemma role_of_known (m : RoleMapping) groups : role_for m (known_groups m groups) = role_for m groups.
Proof.
  unfold role_for.
  assert (forall l, (forall e, e ∈ l -> e ∈ rm_map m) ->
    List.filter (fun e => bool_decide (e.1 ∈ known_groups m groups)) l
    = List.filter (fun e => bool_decide (e.1 ∈ groups)) l) as H.
  { induction l as [|e l IH]; [done|]. intros Hl. cbn.
    rewrite (bool_decide_ext _ _ (known_groups_mem m groups e (Hl e (list_elem_of_here _ _)))), IH; [done|].
    intros x Hx. apply Hl. by right. }
  by rewrite H.
Qed.

(** *** The first usable claim *)

Definition usable_value (claims : IdClaims) (name : str) : option str :=
  v ← claim_value claims name; if valid_subject (trim v) then Some (trim v) else None.

Lemma first_usable claims names subject :
  List.find valid_subject (map trim (omap (claim_value claims) names)) = Some subject <->
  exists before name after, names = before ++ name :: after /\ usable_value claims name = Some subject /\
    Forall (fun n => usable_value claims n = None) before.
Proof.
  unfold usable_value. induction names as [|n names IH].
  - split; [done|]. by intros ([] & ? & ? & ? & _).
  - cbn. destruct (claim_value claims n) as [v|] eqn:Hv; cbn.
    + destruct (valid_subject (trim v)) eqn:Hok; cbn.
      * split.
        -- intros [= <-]. exists [], n, names. split_and!; [done| |constructor]. by rewrite Hv; cbn; rewrite Hok.
        -- intros ([|b bs] & name & after & [= -> ->] & Hu & Hb); [rewrite Hv in Hu; cbn in Hu; by rewrite Hok in Hu|].
           apply Forall_cons in Hb as [Hb _]. rewrite Hv in Hb. cbn in Hb. by rewrite Hok in Hb.
      * rewrite IH. split.
        -- intros (b & name & after & -> & Hu & Hb). exists (n :: b), name, after. split_and!; [done..|].
           constructor; [|done]. by rewrite Hv; cbn; rewrite Hok.
        -- intros ([|b bs] & name & after & [= -> ->] & Hu & Hb); [rewrite Hv in Hu; cbn in Hu; by rewrite Hok in Hu|].
           apply Forall_cons in Hb as [_ Hb]. by exists bs, name, after.
    + rewrite IH. split.
      * intros (b & name & after & -> & Hu & Hb). exists (n :: b), name, after. split_and!; [done..|].
        constructor; [|done]. by rewrite Hv.
      * intros ([|b bs] & name & after & [= -> ->] & Hu & Hb); [by rewrite Hv in Hu|].
        apply Forall_cons in Hb as [_ Hb]. by exists bs, name, after.
Qed.

(** A provider's answer names a person by the first configured claim that
    gives a usable name, and an address nobody verified names nobody.  The
    name is one the catalog can record; it is taken from the email claim only
    when the provider says the address is verified; no earlier configured
    claim had a usable value; the role is what the groups of the configured
    claim map to, and the few groups kept in the session give the same role on
    every later request. *)
Theorem principal_from_exact (c : OidcConfig) (claims : IdClaims) (p : Principal) (kept : list str) :
  principal_from c claims = Ok (p, kept) ->
  valid_subject (p_subject p) = true /\
  (exists before name after, oc_subject_claims c = before ++ name :: after /\
     usable_value claims name = Some (p_subject p) /\
     Forall (fun n => usable_value claims n = None) before /\
     (name = lit "email" -> email_verified claims = true)) /\
  p_role p = role_for (oc_roles c) (string_list (ic_other claims !! oc_groups_claim c)) /\
  role_for (oc_roles c) kept = p_role p.
Proof.
  unfold principal_from. destruct (List.find _ _) as [subject|] eqn:Hf; [|done]. cbn. intros [= <- <-]. cbn.
  apply first_usable in Hf as (b & name & a & Hs & Hu & Hb). split_and!.
  - apply bind_Some in Hu as (v & _ & Hv). by destruct (valid_subject (trim v)) eqn:Hok; [injection Hv as <-|].
  - exists b, name, a. split_and!; [done..|]. intros ->. unfold usable_value, claim_value in Hu.
    rewrite decide_False in Hu by done. by case_decide; [|destruct (email_verified claims)]; [..|naive_solver].
  - done.
  - apply role_of_known.
Qed.

(** ** Reasoning about steps *)

Section oidc.
Context `{HM : HeaderMap, K : Crypto, F : FlowCodec, W : World}.

(** When [m] succeeds from a state with [I], the state has [I] and the value
    has [Q]. *)
Definition holds (I : OState -> Prop) {A} (Q : A -> Prop) (m : M A) : Prop :=
  forall s a s', I s -> m s = (Ok a, s') -> I s' /\ Q a.

Lemma holds_bind I {A B} (Q : A -> Prop) (R : B -> Prop) (m : M A) (k : A -> M B) :
  holds I Q m -> (forall a, Q a -> holds I R (k a)) -> holds I R (bind m k).
Proof.
  intros Hm Hk s b s' Hs. unfold bind. destruct (m s) as [[a|e] s1] eqn:Hms; [|done].
  intros H. destruct (Hm s a s1 Hs Hms) as [H1 H2]. by apply (Hk a H2 s1).
Qed.

Lemma holds_ret I {A} (Q : A -> Prop) a : Q a -> holds I Q (ret a).
Proof. by intros HQ s b s' Hs [= -> ->]. Qed.
Lemma holds_fail I {A} (Q : A -> Prop) e : holds I Q (fail e).
Proof. done. Qed.
Lemma holds_lift I {A} (Q : A -> Prop) r : (forall a, r = Ok a -> Q a) -> holds I Q (lift r).
Proof. intros HQ s a s' Hs [= -> ->]. auto. Qed.
Lemma holds_guard I b e : holds I (fun _ => b = true) (guard_ b e).
Proof. by destruct b; [apply holds_ret|apply holds_fail]. Qed.
Lemma holds_weaken I {A} (Q R : A -> Prop) m : holds I Q m -> (forall a, Q a -> R a) -> holds I R m.
Proof. intros Hm HQ s a s' Hs H. destruct (Hm s a s' Hs H). auto. Qed.

(** *** What the provider published *)

Definition of_issuer (c : OidcConfig) (d : Discovery) : Prop := no_slash (d_issuer d) = no_slash (oc_issuer c).

(** The configuration document the provider serves; GitHub has none and is
    known. *)
Definition published (c : OidcConfig) (d : Discovery) : Prop :=
  match oc_kind c with
  | KOidc => of_issuer c d
             /\ exists n, document n (no_slash (oc_issuer c) ++ lit "/.well-known/openid-configuration") = Ok d
  | KGitHub => d = github_discovery (no_slash (oc_issuer c))
  end.

(** Keys read from the address such a document names. *)
Definition published_keys (c : OidcConfig) (keys : list jwk) : Prop :=
  match oc_kind c with
  | KOidc => exists d n, published c d /\ key_set n (d_jwks_uri d) = Ok keys
  | KGitHub => keys = []
  end.

(** The cache holds nothing but what the provider published. *)
Definition cache_ok (c : OidcConfig) (s : OState) : Prop :=
  forall m, os_metadata s = Some m -> published c (md_discovery m) /\ published_keys c (md_keys m).

Lemma holds_ask c {A} (Q : A -> Prop) f : (forall n, Q (f n)) -> holds (cache_ok c) Q (ask f).
Proof. intros HQ s a s' Hs [= <- <-]. by split. Qed.
Lemma holds_ask_result c {A} (Q : A -> Prop) f :
  (forall n a, f n = Ok a -> Q a) -> holds (cache_ok c) Q (ask_result f).
Proof. intros HQ s a s' Hs [= Hf <-]. split; [done|]. by eapply HQ. Qed.
Lemma holds_keep c m : published c (md_discovery m) -> published_keys c (md_keys m) -> holds (cache_ok c) (fun _ => True) (keep m).
Proof. intros Hm Hk s a s' Hs [= <- <-]. split; [|done]. by intros x [= <-]. Qed.
Lemma holds_sends c url : holds (cache_ok c) (fun _ => True) (sends url).
Proof. by intros s a s' Hs [= <- <-]. Qed.
Lemma holds_check c url : holds (cache_ok c) (fun _ => is_ok (check_url url) = true) (check url).
Proof. apply holds_lift. intros []. by destruct (check_url url). Qed.

Lemma no_slash_idem url : no_slash (no_slash url) = no_slash url.
Proof.
  unfold no_slash, trim_end_matches. rewrite reverse_involutive. f_equal.
  generalize (reverse url). intros s. induction s as [|x s IH]; [done|]. cbn. destruct (bool_decide (x = slash)) eqn:H; [done|].
  cbn. by rewrite H.
Qed.

Lemma refresh_spec c :
  holds (cache_ok c) (fun m => published c (md_discovery m) /\ published_keys c (md_keys m)) (refresh c).
Proof.
  unfold refresh. case_decide as Hkind.
  - eapply (holds_bind _ (fun _ => True)); [by apply holds_ask|]. intros now _.
    assert (published c (github_discovery (no_slash (oc_issuer c))) /\ published_keys c []) as [Hp Hk]
      by (unfold published, published_keys; by rewrite Hkind).
    eapply holds_bind; [by apply holds_keep|]. intros _ _. by apply holds_ret.
  - assert (oc_kind c = KOidc) as Hk by by destruct (oc_kind c).
    eapply (holds_bind _ (fun d => exists n, document n (no_slash (oc_issuer c) ++ lit "/.well-known/openid-configuration") = Ok d));
      [apply holds_ask_result; eauto|]. intros d Hdoc.
    eapply holds_bind; [apply holds_guard|]. intros [] Hd%bool_decide_eq_true.
    do 3 (eapply holds_bind; [apply holds_check|]; intros _ _).
    eapply (holds_bind _ (fun _ => True)).
    { case_match; [|by apply holds_ret]. eapply holds_weaken; [apply holds_check|done]. }
    intros _ _. eapply holds_bind; [apply holds_guard|]. intros _ _.
    eapply (holds_bind _ (fun keys => exists n, key_set n (d_jwks_uri d) = Ok keys)); [apply holds_ask_result; eauto|].
    intros keys (n & Hkeys). eapply (holds_bind _ (fun _ => True)); [by apply holds_ask|]. intros now _.
    assert (published c d) as Hpub by (unfold published; by rewrite Hk).
    assert (published_keys c keys) by (unfold published_keys; rewrite Hk; by exists d, n).
    eapply holds_bind; [by apply holds_keep|]. intros _ _. by apply holds_ret.
Qed.

Lemma metadata_spec c : holds (cache_ok c) (published c) (metadata c).
Proof.
  unfold metadata. eapply (holds_bind _ (fun _ => True)); [by apply holds_ask|]. intros now _.
  eapply (holds_bind _ (fun fresh => forall d, fresh = Some d -> published c d)).
  - intros s a s' Hs [= <- <-]. split; [done|]. intros d (m & Hm & Hd)%bind_Some. case_match; [|done].
    injection Hd as <-. by apply Hs.
  - intros [d|] Hd; [apply holds_ret; by apply Hd|].
    eapply holds_bind; [apply refresh_spec|]. intros m [Hm _]. by apply holds_ret.
Qed.

Lemma keys_for_spec c kid : holds (cache_ok c) (published_keys c) (keys_for c kid).
Proof.
  unfold keys_for. eapply (holds_bind _ (fun _ => True)); [by apply holds_ask|]. intros now _.
  eapply (holds_bind _ (fun usable => forall keys, usable = Some keys -> published_keys c keys)).
  - intros s a s' Hs [= <- <-]. split; [done|]. intros keys (m & Hm & Hk)%bind_Some. cbv zeta in Hk.
    destruct (_ || _); [|done]. injection Hk as <-. by apply Hs.
  - intros [keys|] Hk; [by apply holds_ret, Hk|].
    eapply holds_bind; [apply refresh_spec|]. intros m [_ Hm]. by apply holds_ret.
Qed.

(** *** What an ID token was checked for *)

(** The claims were read off the token with the one key of the provider's
    published keys that the token names (or the only one it publishes), under
    a validation that asks for the issuer and client configured, an expiry and
    a permitted algorithm, and they name this sign-in and no other client. *)
Definition token_checked (c : OidcConfig) (nonce token : str) (claims : IdClaims) : Prop :=
  exists d keys alg kid key v,
    published c d /\ published_keys c keys /\
    token_header token = Some (alg, kid) /\ alg ∈ ALLOWED_ALGORITHMS /\
    key ∈ keys /\ match kid with Some kid => jwk_id key = Some kid | None => keys = [key] end /\
    jwk_usable key = true /\ token_claims token key v = Some claims /\
    v_issuer v = d_issuer d /\ no_slash (v_issuer v) = no_slash (oc_issuer c) /\ v_audience v = oc_client_id c /\
    v_exp v = true /\ v_nbf v = true /\ v_required v = required_claims /\
    v_algorithms v <> [] /\ (forall a, a ∈ v_algorithms v -> a ∈ ALLOWED_ALGORITHMS) /\
    ic_nonce claims = Some nonce /\ (forall azp, ic_azp claims = Some azp -> azp = oc_client_id c).

Lemma choose_key_spec keys kid key :
  choose_key keys kid = Ok key ->
  key ∈ keys /\ match kid with Some kid => jwk_id key = Some kid | None => keys = [key] end.
Proof.
  unfold choose_key. destruct kid as [kid|].
  - destruct (find_key keys kid) as [k|] eqn:Hf; [|done]. intros [= ->].
    apply find_some in Hf as [Hin Hid%bool_decide_eq_true]. by rewrite list_elem_of_In.
  - destruct keys as [|k [|]]; [done| |done]. intros [= ->]. split; [apply list_elem_of_here|done].
Qed.

Lemma check_claims_spec c nonce claims claims' :
  check_claims c nonce claims = Ok claims' ->
  claims' = claims /\ ic_nonce claims = Some nonce /\ (forall azp, ic_azp claims = Some azp -> azp = oc_client_id c).
Proof.
  unfold check_claims. intros H. destruct (ic_azp claims) as [azp|] eqn:Ha.
  - case_bool_decide as Hb; [|done]. cbn in H. destruct (ic_nonce claims) as [n|]; [|done].
    destruct (constant_time_eq n nonce) eqn:Hn; [|done]. apply constant_time_eq_spec in Hn as ->.
    injection H as <-. split_and!; [done..|]. by intros ? [= <-].
  - destruct (ic_nonce claims) as [n|]; [|done].
    destruct (constant_time_eq n nonce) eqn:Hn; [|done]. apply constant_time_eq_spec in Hn as ->.
    injection H as <-. by split_and!.
Qed.

Lemma published_issuer c d : published c d -> no_slash (d_issuer d) = no_slash (oc_issuer c).
Proof. unfold published. destruct (oc_kind c); [by intros [? _]|]. intros ->. apply no_slash_idem. Qed.

Lemma verify_id_token_spec c token nonce :
  holds (cache_ok c) (token_checked c nonce token) (verify_id_token c token nonce).
Proof.
  unfold verify_id_token. eapply holds_bind; [apply metadata_spec|]. intros d Hd.
  eapply (holds_bind _ (fun h => token_header token = Some h)).
  { apply holds_lift. intros h. by destruct (token_header token); [intros [= ->]|]. }
  intros [alg kid] Hh.
  eapply holds_bind; [apply holds_guard|]. intros _ Halg%bool_decide_eq_true.
  eapply holds_bind; [apply keys_for_spec|]. intros keys Hkeys.
  eapply (holds_bind _ (fun key => choose_key keys kid = Ok key)); [by apply holds_lift|].
  intros key [Hin Hkid]%choose_key_spec.
  eapply holds_bind; [apply holds_guard|]. intros [] Husable. cbv beta in Husable. cbv zeta.
  eapply holds_bind; [apply holds_guard|]. intros _ _.
  destruct (accepted_allowed (jwk_algorithm key) (d_signing_algs d)) as [Hne Hall].
  eapply (holds_bind _ (fun claims => token_claims token key
                  {| v_algorithms := accepted_algorithms (jwk_algorithm key) (d_signing_algs d);
                     v_issuer := d_issuer d; v_audience := oc_client_id c;
                     v_required := required_claims; v_exp := true; v_nbf := true |} = Some claims)).
  { apply holds_lift. intros claims. by destruct (token_claims _ _ _); [intros [= <-]|]. }
  intros claims Hc. apply holds_lift. intros claims' (-> & Hn & Hazp)%check_claims_spec.
  exists d, keys, alg, kid, key. eexists. split_and!; [..|exact Hc| | | | | | | | | |]; try done; by apply published_issuer.
Qed.

(** *** The sign-in *)

(** What the provider's token endpoint answered for this code and this
    flow's verifier. *)
Definition exchanged (c : OidcConfig) (code verifier : str) (tokens : TokenResponse) : Prop :=
  exists d n form authorization body,
    published c d /\ token_answer n (d_token_endpoint d) form authorization = Status true body /\
    (lit "code", code) ∈ form /\ (lit "code_verifier", verifier) ∈ form /\
    (lit "client_id", oc_client_id c) ∈ form /\ (lit "redirect_uri", oc_redirect_uri c) ∈ form /\
    oauth_error body = None /\ token_response_of body = Some tokens.

Lemma exchange_spec c code verifier :
  holds (cache_ok c) (exchanged c code verifier) (exchange c code verifier).
Proof.
  unfold exchange. eapply holds_bind; [apply metadata_spec|]. intros d Hd. cbv zeta.
  match goal with |- context [token_answer _ _ ?f ?a] => set (form := f); set (auth := a) end.
  eapply (holds_bind _ (fun answer => exists n, token_answer n (d_token_endpoint d) form auth = answer));
    [apply holds_ask; eauto|]. intros [|[] body] (n & Hn); [done| |done].
  destruct (oauth_error body) eqn:He; [done|]. apply holds_lift. intros tokens Ht.
  exists d, n, form, auth, body. unfold form in *. split_and!; try done; [set_solver..|].
  by destruct (token_response_of body); [injection Ht as ->|].
Qed.

(** A list of GitHub's API: the items of its pages, each at the address the
    page before it names, on one origin. *)
Inductive github_listed (token : str) : str -> list Value -> Prop :=
| listed_last n url page link :
    github_answer n url token = Ok (page, link) -> link ≫= next_link = None ->
    github_listed token url (items_of page)
| listed_more n url page link next rest :
    github_answer n url token = Ok (page, link) -> link ≫= next_link = Some next ->
    starts_with (api_origin url ++ [slash]) next = true -> github_listed token next rest ->
    github_listed token url (items_of page ++ rest).

(** The list at [url], if the scope to read it was granted. *)
Definition github_granted (granted scope token url : str) (items : list Value) : Prop :=
  if scope_granted granted scope then github_listed token url items else items = [].

(** Claims of what GitHub's API answered to this access token. *)
Definition github_answered (c : OidcConfig) (token granted : str) (claims : IdClaims) : Prop :=
  let api := github_api_base (oc_issuer c) in
  exists n user link emails orgs teams,
    github_answer n (api ++ lit "/user") token = Ok (user, link) /\
    github_granted granted (lit "user:email") token (api ++ lit "/user/emails?per_page=100") emails /\
    github_granted granted (lit "read:org") token (api ++ lit "/user/orgs?per_page=100") orgs /\
    github_granted granted (lit "read:org") token (api ++ lit "/user/teams?per_page=100") teams /\
    claims_from_github user (VArray emails) (VArray orgs) (VArray teams) (oc_groups_claim c) = Ok claims.

Lemma github_json_spec c url token :
  holds (cache_ok c) (fun r => exists n, github_answer n url token = Ok r) (github_json url token).
Proof. unfold github_json. eapply holds_bind; [apply holds_sends|]. intros _ _. apply holds_ask_result. eauto. Qed.

Lemma github_pages_spec c left token url items :
  holds (cache_ok c) (fun all => exists rest, all = items ++ rest /\ github_listed token url rest)
    (github_pages left token url items).
Proof.
  revert url items. induction left as [|left IH]; intros url items; [done|]. cbn [github_pages].
  eapply holds_bind; [apply github_json_spec|]. intros [page link] (n & Hn). cbv zeta.
  destruct (link ≫= next_link) as [next|] eqn:Hl.
  - destruct (starts_with _ next) eqn:Ho; [|done]. eapply holds_weaken; [apply IH|].
    intros all (rest & -> & Hrest). exists (items_of page ++ rest). rewrite app_assoc. split; [done|].
    by eapply listed_more.
  - apply holds_ret. exists (items_of page). split; [done|]. by eapply listed_last.
Qed.

Lemma github_list_spec c token url : holds (cache_ok c) (github_listed token url) (github_list url token).
Proof. eapply holds_weaken; [apply github_pages_spec|]. by intros all (rest & -> & Hr). Qed.

Lemma github_claims_spec c token granted :
  holds (cache_ok c) (github_answered c token granted) (github_claims c token granted).
Proof.
  unfold github_claims, github_answered, github_granted. cbv zeta.
  eapply holds_bind; [apply github_json_spec|]. intros [user link] (n & Hn).
  eapply (holds_bind _ (fun emails => if scope_granted granted (lit "user:email") then
            github_listed token (github_api_base (oc_issuer c) ++ lit "/user/emails?per_page=100") emails
            else emails = [])); [destruct (scope_granted granted (lit "user:email")); [apply github_list_spec|by apply holds_ret]|]. intros emails He.
  eapply (holds_bind _ (fun r => (if scope_granted granted (lit "read:org") then
            github_listed token (github_api_base (oc_issuer c) ++ lit "/user/orgs?per_page=100") r.1 else r.1 = [])
            /\ (if scope_granted granted (lit "read:org") then
            github_listed token (github_api_base (oc_issuer c) ++ lit "/user/teams?per_page=100") r.2 else r.2 = []))).
  { destruct (scope_granted granted (lit "read:org")); [|by apply holds_ret]. eapply holds_bind; [apply github_list_spec|]. intros orgs Ho.
    eapply holds_bind; [apply github_list_spec|]. intros teams Ht. by apply holds_ret. }
  intros [orgs teams] [Ho Ht]. eapply (holds_bind _ (fun _ => True)).
  { unfold github_forget_token. destruct (oc_client_secret c); [apply holds_sends|by apply holds_ret]. }
  intros _ _. apply holds_lift. intros claims Hc. by exists n, user, link, emails, orgs, teams.
Qed.

(** Where the claims of a completed sign-in come from. *)
Definition answered (c : OidcConfig) (tokens : TokenResponse) (nonce : str) (claims : IdClaims) : Prop :=
  match oc_kind c with
  | KOidc => exists token, tr_id_token tokens = Some token /\ token_checked c nonce token claims
  | KGitHub => exists token, tr_access_token tokens = Some token /\
                 github_answered c token (default (scopes (oc_kind c) (oc_scopes c)) (tr_scope tokens)) claims
  end.

Lemma complete_spec ss c h code state :
  holds (cache_ok c)
    (fun r => exists token flow n tokens claims,
       cookie_value h FLOW_COOKIE = Some token /\ open_flow ss token = Some flow /\
       (unix_at n < fl_expires flow)%Z /\ fl_state flow = state /\ fl_provider flow = oc_id c /\
       r.2 = fl_next flow /\ exchanged c code (fl_verifier flow) tokens /\
       answered c tokens (fl_nonce flow) claims /\ principal_from c claims = Ok r.1)
    (complete ss c h code state).
Proof.
  unfold complete. destruct (cookie_value h FLOW_COOKIE) as [token|]; [|done].
  eapply (holds_bind _ (fun t => t = token)); [apply holds_lift; cbn; congruence|]. intros t ->.
  destruct (open_flow ss token) as [flow|] eqn:Hflow; [|done].
  eapply (holds_bind _ (fun f => f = flow)); [apply holds_lift; cbn; congruence|]. intros f ->.
  eapply (holds_bind _ (fun now => exists n, now = unix_at n)); [by apply holds_ask; intros n; exists n|].
  intros now (n & ->).
  eapply holds_bind; [apply holds_guard|]. intros _ He%negb_true_iff%Z.leb_gt.
  eapply holds_bind; [apply holds_guard|]. intros _ Hs%constant_time_eq_spec.
  eapply holds_bind; [apply holds_guard|]. intros _ Hp%bool_decide_eq_true.
  eapply holds_bind; [apply exchange_spec|]. intros tokens Hx.
  eapply (holds_bind _ (answered c tokens (fl_nonce flow))).
  { unfold answered. destruct (oc_kind c).
    - eapply (holds_bind _ (fun t => tr_id_token tokens = Some t)).
      { apply holds_lift. intros t. by destruct (tr_id_token tokens); [intros [= ->]|]. }
      intros id_token Ht. eapply holds_weaken; [apply verify_id_token_spec|]. intros claims Hc. by exists id_token.
    - eapply (holds_bind _ (fun t => tr_access_token tokens = Some t)).
      { apply holds_lift. intros t. by destruct (tr_access_token tokens); [intros [= ->]|]. }
      intros access Ht. eapply holds_weaken; [apply github_claims_spec|]. intros claims Hc. by exists access. }
  intros claims Hc. eapply (holds_bind _ (fun r => principal_from c claims = Ok r)); [by apply holds_lift|].
  intros [p groups] Hpf. apply holds_ret. exists token, flow, n, tokens, claims. by split_and!.
Qed.

(** C8: A provider sign-in completes only for the browser that started it, and
    names only whom the provider vouched for in this very sign-in.  When it
    completes, the request carried a flow cookie this site sealed, not yet
    expired, for the state the provider sent back and for this very provider;
    it goes on to the page the flow recorded; the token endpoint of the
    configuration the provider publishes answered with tokens to this code and
    to the verifier of this flow; and the person is read from what GitHub's
    API answered to the access token among them, or from the ID token among
    them, checked with the key it names of the keys the provider publishes, for
    the configured issuer and client, its expiry and one of the asymmetric
    algorithms of the allow-list, and carrying the nonce of this flow.  (The
    cache the sign-in starts with holds only what the provider published
    before, as it does when it is empty, and as it does afterwards.) *)
Theorem complete_only_what_started (ss : Sessions) (c : OidcConfig) (h : headers) (code state : str)
    (s s' : OState) (p : Principal) (groups : list str) (next : str) :
  cache_ok c s -> complete ss c h code state s = (Ok (p, groups, next), s') ->
  exists token flow n tokens claims,
    cookie_value h FLOW_COOKIE = Some token /\ open_flow ss token = Some flow /\
    (unix_at n < fl_expires flow)%Z /\ fl_state flow = state /\ fl_provider flow = oc_id c /\
    next = fl_next flow /\ exchanged c code (fl_verifier flow) tokens /\
    answered c tokens (fl_nonce flow) claims /\ principal_from c claims = Ok (p, groups) /\
    cache_ok c s'.
Proof.
  intros Hs Hr. destruct (complete_spec ss c h code state s _ s' Hs Hr) as (Hs' & token & flow & n & tokens & claims & H).
  exists token, flow, n, tokens, claims. cbn in H. intuition.
Qed.

(** *** Where the access token goes *)

(** Whatever its outcome, [m] sends the token to at most [n] addresses, each
    with [P]. *)
Definition sends_within (P : str -> Prop) (n : nat) {A} (m : M A) : Prop :=
  forall s, exists urls, os_sent (m s).2 = os_sent s ++ urls /\ Forall P urls /\ length urls <= n.

Lemma within_bind P n k {A B} (m : M A) (f : A -> M B) :
  sends_within P n m -> (forall a, sends_within P k (f a)) -> sends_within P (n + k) (bind m f).
Proof.
  intros Hm Hf s. unfold bind. destruct (Hm s) as (u1 & H1 & HP1 & Hl1). destruct (m s) as [[a|e] s1]; cbn in H1.
  - destruct (Hf a s1) as (u2 & H2 & HP2 & Hl2). exists (u1 ++ u2). rewrite H2, H1, app_assoc, length_app.
    split_and!; [done|by apply Forall_app|lia].
  - exists u1. split_and!; [done..|lia].
Qed.

Lemma within_none P {A} (m : M A) : (forall s, os_sent (m s).2 = os_sent s) -> sends_within P 0 m.
Proof. intros H s. exists []. rewrite app_nil_r. by split_and!. Qed.

Lemma within_more P n k {A} (m : M A) : n <= k -> sends_within P n m -> sends_within P k m.
Proof. intros Hk Hm s. destruct (Hm s) as (u & ? & ? & ?). exists u. split_and!; [done..|lia]. Qed.

Lemma within_sends (P : str -> Prop) url : P url -> sends_within P 1 (sends url).
Proof. intros HP s. exists [url]. split_and!; [done|by repeat constructor|done]. Qed.

Lemma github_json_within (P : str -> Prop) url token : P url -> sends_within P 1 (github_json url token).
Proof. intros HP. apply (within_bind P 1 0); [by apply within_sends|]. intros _. by apply within_none. Qed.

(** The origin of GitHub's API here. *)
Definition at_api (api url : str) : Prop := api_origin url = api_origin api /\ is_Some (split_sub (lit "://") url).

Lemma github_pages_within api left token url items :
  at_api api url -> sends_within (at_api api) left (github_pages left token url items).
Proof.
  revert url items. induction left as [|left IH]; intros url items Hu; [by apply within_none|]. cbn [github_pages].
  apply (within_bind _ 1 left); [by apply github_json_within|]. intros [page link]. cbv zeta.
  destruct (link ≫= next_link) as [next|]; [|apply (within_more _ 0); [lia|by apply within_none]].
  destruct (starts_with _ next) eqn:Hs; [|apply (within_more _ 0); [lia|by apply within_none]].
  apply IH. destruct Hu as [Ho Hsome]. destruct (api_origin_same url next Hsome Hs) as [H1 H2]. split; [by rewrite H1|done].
Qed.

Lemma at_api_below api t : is_Some (split_sub (lit "://") api) -> at_api api (api ++ slash :: t).
Proof.
  intros [[scheme rest] Hs]. pose proof (split_sub_Some _ _ _ _ Hs) as Ha. rewrite Ha in Hs.
  assert (split_sub (lit "://") (api ++ slash :: t) = Some (scheme, rest ++ slash :: t)) as Hst.
  { rewrite Ha, <- !app_assoc. by eapply split_sub_tail. }
  split; [|by rewrite Hst]. unfold api_origin. rewrite Hst. rewrite Ha at 1. rewrite Hs. do 2 f_equal.
  destruct (split_once slash rest) as [[a b]|] eqn:Hr.
  - apply split_once_Some in Hr as [-> Hn].
    by rewrite (proj2 (split_once_Some slash _ a (b ++ slash :: t))) by (by rewrite <- app_assoc).
  - apply split_once_None in Hr. by rewrite (proj2 (split_once_Some slash _ rest t)).
Qed.

(** The most addresses: the account, three lists and the revocation. *)
Definition MOST_SENT : nat := 1 + (GITHUB_PAGES + (GITHUB_PAGES + GITHUB_PAGES)) + 1.

Lemma github_claims_within c token granted :
  is_Some (split_sub (lit "://") (github_api_base (oc_issuer c))) ->
  sends_within (at_api (github_api_base (oc_issuer c))) MOST_SENT (github_claims c token granted).
Proof.
  intros Ha. unfold github_claims, github_list. cbv zeta. set (api := github_api_base (oc_issuer c)) in *.
  apply (within_bind _ 1 (GITHUB_PAGES + (GITHUB_PAGES + GITHUB_PAGES + 1))).
  { apply github_json_within. by apply (at_api_below api (lit "user")). }
  intros [user link]. apply within_bind.
  { case_match; [|by apply (within_more _ 0); [lia|apply within_none]].
    apply github_pages_within. by apply (at_api_below api (lit "user/emails?per_page=100")). }
  intros emails. apply within_bind.
  { case_match; [|by apply (within_more _ 0); [lia|apply within_none]]. apply within_bind.
    { apply github_pages_within. by apply (at_api_below api (lit "user/orgs?per_page=100")). }
    intros orgs. rewrite <- (Nat.add_0_r GITHUB_PAGES). apply within_bind; [|by intros teams; apply within_none].
    apply github_pages_within. by apply (at_api_below api (lit "user/teams?per_page=100")). }
  intros [orgs teams]. apply (within_bind _ 1 0); [|by intros _; apply within_none].
  unfold github_forget_token. case_match; [|by apply (within_more _ 0); [lia|apply within_none]].
  apply within_sends. by apply (at_api_below api (lit "applications/" ++ oc_client_id c ++ lit "/token")).
Qed.

Lemma quiet_bind P {A B} (m : M A) (f : A -> M B) :
  sends_within P 0 m -> (forall a, sends_within P 0 (f a)) -> sends_within P 0 (bind m f).
Proof. intros Hm Hf. by apply (within_bind P 0 0). Qed.

Ltac quiet :=
  repeat (cbv zeta; match goal with
  | |- sends_within _ 0 (bind _ _) => apply quiet_bind; [|intros ?]
  | |- sends_within _ 0 (match ?x with _ => _ end) => destruct x
  | |- sends_within _ 0 _ => by apply within_none
  end).

Lemma metadata_quiet P c : sends_within P 0 (metadata c).
Proof. unfold metadata, refresh, check, guard_. quiet. Qed.
Lemma keys_for_quiet P c kid : sends_within P 0 (keys_for c kid).
Proof. unfold keys_for, refresh, check, guard_. quiet. Qed.
Lemma exchange_quiet P c code verifier : sends_within P 0 (exchange c code verifier).
Proof. unfold exchange. apply quiet_bind; [apply metadata_quiet|]. intros d. quiet. Qed.
Lemma verify_id_token_quiet P c token nonce : sends_within P 0 (verify_id_token c token nonce).
Proof.
  unfold verify_id_token, guard_. apply quiet_bind; [apply metadata_quiet|]. intros d. apply quiet_bind; [quiet|].
  intros [alg kid]. apply quiet_bind; [quiet|]. intros _. apply quiet_bind; [apply keys_for_quiet|]. intros keys. quiet.
Qed.

(** *** The host of a checked address *)

Lemma check_url_scheme url : check_url url = Ok tt ->
  exists a r b, url = a ++ lit "://" ++ r :: b /\ r <> slash.
Proof.
  unfold check_url. destruct (trim_infix url) as (x & y & Hurl). intros H.
  assert (exists a r b, trim url = a ++ lit "://" ++ r :: b /\ r <> slash) as (a & r & b & Ht & Hr).
  - destruct (strip_prefix (lit "https://") (trim url)) as [rest|] eqn:Hs.
    + apply strip_prefix_Some in Hs. destruct rest as [|r rest]; [done|].
      exists (lit "https"), r, rest. split; [done|]. intros ->. done.
    + destruct (strip_prefix (lit "http://") (trim url)) as [rest|] eqn:Hp; [|done].
      apply strip_prefix_Some in Hp. destruct (is_loopback_host rest) eqn:Hl; [|done].
      destruct rest as [|r rest]; [done|]. exists (lit "http"), r, rest. split; [done|]. intros ->. done.
  - exists (x ++ a), r, (b ++ y). split; [|done]. by rewrite Hurl, Ht, <- !app_assoc.
Qed.

Lemma no_slash_scheme url a r b : url = a ++ lit "://" ++ r :: b -> r <> slash ->
  exists b', no_slash url = a ++ lit "://" ++ r :: b'.
Proof.
  intros Hu Hr. destruct (trim_end_matches_spec (fun c => bool_decide (c = slash)) url) as (w & Hw & Hall).
  fold (no_slash url) in Hw. rewrite Hu in Hw at 1.
  change (a ++ lit "://" ++ r :: b) with (a ++ lit "://" ++ [r] ++ b) in Hw. rewrite !app_assoc in Hw.
  apply app_eq_app in Hw as (l & [[Ha Hb]|[Ha Hb]]).
  - destruct (decide (l = [])) as [->|Hl].
    + rewrite app_nil_r in Ha. exists []. by rewrite <- Ha, <- !app_assoc.
    + exfalso. destruct (exists_last Hl) as (l' & x & ->). rewrite app_assoc in Ha. apply app_inj_tail in Ha as [_ <-].
      rewrite Hb, <- app_assoc in Hall. apply Forall_app in Hall as [_ Hall]. apply Forall_app in Hall as [Hall _].
      apply Forall_singleton, bool_decide_eq_true in Hall. done.
  - exists l. by rewrite Ha, <- !app_assoc.
Qed.

Lemma split_sub_contains p a b : is_Some (split_sub p (a ++ p ++ b)).
Proof.
  induction a as [|c a IH]; rewrite split_sub_eq.
  - by rewrite (proj2 (strip_prefix_Some p ([] ++ p ++ b) b)).
  - destruct (strip_prefix p _); [done|]. cbn [app]. destruct IH as [[x y] ->]. done.
Qed.

Lemma github_api_scheme issuer : check_url issuer = Ok tt -> is_Some (split_sub (lit "://") (github_api_base issuer)).
Proof.
  intros (a & r & b & Hu & Hr)%check_url_scheme. unfold github_api_base. case_match; [by eexists|].
  destruct (no_slash_scheme issuer a r b Hu Hr) as (b' & Hb). unfold no_slash in Hb. rewrite Hb, <- !app_assoc.
  apply split_sub_contains.
Qed.

Lemma within_skip P n {A B} (m : M A) (f : A -> M B) :
  sends_within P 0 m -> (forall a, sends_within P n (f a)) -> sends_within P n (bind m f).
Proof. apply (within_bind P 0 n). Qed.

Lemma complete_within ss c h code state :
  check_url (oc_issuer c) = Ok tt ->
  sends_within (at_api (github_api_base (oc_issuer c))) MOST_SENT (complete ss c h code state).
Proof.
  intros Hc. unfold complete. do 3 (apply within_skip; [by apply within_none|]; intros ?).
  do 3 (apply within_skip; [unfold guard_; quiet|]; intros _).
  apply within_skip; [apply exchange_quiet|]. intros tokens.
  rewrite <- (Nat.add_0_r MOST_SENT). apply within_bind; [|intros claims; quiet].
  destruct (oc_kind c).
  - apply (within_more _ 0); [lia|]. apply quiet_bind; [quiet|]. intros t. apply verify_id_token_quiet.
  - apply within_skip; [by apply within_none|]. intros t. by apply github_claims_within, github_api_scheme.
Qed.

(** C34: A person's access token goes to GitHub's API and nowhere else.  For
    every provider that can be built, whatever GitHub answers - pages of lists,
    links to further pages, links to other hosts - and however the sign-in
    ends, each address the token was sent to has the origin of the API of the
    configured host, and there are at most seventeen of them. *)
Theorem token_stays_at_the_api (ss : Sessions) (c c' : OidcConfig) (h : headers) (code state : str) (s : OState) :
  oidc_new c = Ok c' ->
  exists urls, os_sent (complete ss c h code state s).2 = os_sent s ++ urls /\
    Forall (fun url => api_origin url = api_origin (github_api_base (oc_issuer c))) urls /\ length urls <= 17.
Proof.
  intros Hn. assert (check_url (oc_issuer c) = Ok tt) as Hc.
  { unfold oidc_new in Hn. case_decide; [done|]. by destruct (check_url (oc_issuer c)) as [[]|]. }
  destruct (complete_within ss c h code state Hc s) as (urls & H1 & H2 & H3). exists urls. split_and!; [done| |done].
  eapply Forall_impl; [exact H2|]. by intros url [? _].
Qed.

(** *** A flow is no session *)

Lemma flow_is_no_session `{!FlowLaws F} ss h flow mode w claims :
  (token ← cookie_value h SESSION_COOKIE; open_json ss token) = Some (flow_json flow) ->
  run (open_claims ss h mode) w = (Ok (Some claims), w) -> False.
Proof.
  intros Hj. unfold open_claims, cookie_claims.
  apply bind_Some in Hj as (token & -> & Hopen). cbn. unfold open. rewrite Hopen. cbn.
  destruct (claims_of_json (flow_json flow)) as [c|] eqn:Hc; [|done]. cbn.
  apply flow_no_claims in Hc. rewrite Hc, (bool_decide_false ([] = mode_id mode)) by by destruct mode.
  by rewrite andb_false_r.
Qed.

(** *** Keys are not fetched again at once *)

(** Within a minute of reading the keys, a token that names an unknown one
    does not make the console ask the provider: the only consultation is the
    clock. *)
Lemma keys_not_refetched c kid s m :
  os_metadata s = Some m -> (Z.max 0 (instant_at (os_tick s) - md_keys_read_at m) < JWKS_REFETCH_GAP)%Z ->
  keys_for c kid s = (Ok (md_keys m), tick s).
Proof.
  intros Hm Hg. unfold keys_for, bind, ask, cached. cbn. rewrite Hm. cbn.
  by rewrite (proj2 (Z.ltb_lt _ _)), orb_true_r by done.
Qed.

End oidc.
