(* ===== verification/WebProviders.v ===== *)
(** * Setting up a provider ([pgokf-web/src/provider.rs])

    The form an admin fills in, checked and made into the row the catalog
    keeps. *)
From stdpp Require Import prelude strings gmap list.
From Stdlib Require Import Ascii ZArith Lia.
From S2P Require Import Prelude Str Net WebState WebAuth WebUsers WebSignIn WebSettings.

Inductive SecretChange : Type := KeepSecret | SetSecret (secret : str) | ClearSecret.

Record ProviderDraft : Type := {
  dr_id : option str;
  dr_enabled : bool;
  dr_kind : ProviderKind;
  dr_issuer : str;
  dr_client_id : str;
  dr_client_secret : SecretChange;
  dr_redirect_url : str;
  dr_scopes : str;
  dr_subject_claims : str;
  dr_groups_claim : str;
  dr_provider_name : str;
  dr_role_map : str;
  dr_default_role : Role
}.

Inductive DraftError : Type :=
| DMissing (what : str)
| DTooLong (what : str)
| DControl (what : str)
| DSpace (what : str)
| DGitHubScope
| DNoProvider (id : str)
| DNotASlug (id : str)
| DNameTaken (name : str)
| DNoSlug
| DNoSealer
| DSecretNeeded
| DWeb (e : WebError).

Definition plain (what value : str) (min max : nat) : result unit DraftError :=
  let value := trim value in
  let n := char_count value in
  if (n <? min)%nat then Err (DMissing what)
  else if (max <? n)%nat then Err (DTooLong what)
  else if has_control value then Err (DControl what)
  else Ok tt.

Definition no_space (what value : str) : result unit DraftError :=
  if has_space (trim value) then Err (DSpace what) else Ok tt.

Definition GITHUB : str := lit "https://github.com".

Definition checked (draft : ProviderDraft) : result str DraftError :=
  let trimmed := trim (dr_issuer draft) in
  let issuer := if decide (dr_kind draft = KGitHub /\ trimmed = []) then GITHUB else trimmed in
  let? _ := plain (lit "the issuer URL") issuer 1 2048 in
  let? _ := plain (lit "the client id") (dr_client_id draft) 1 512 in
  let? _ := plain (lit "the callback URL") (dr_redirect_url draft) 1 2048 in
  let? _ := no_space (lit "the issuer URL") issuer in
  let? _ := no_space (lit "the callback URL") (dr_redirect_url draft) in
  if bool_decide (dr_kind draft = KGitHub)
     && existsb (fun scope => bool_decide (scope = lit "openid") || bool_decide (scope = lit "profile"))
          (split_whitespace (dr_scopes draft))
  then Err DGitHubScope
  else
    let? _ := plain (lit "the scopes") (dr_scopes draft) 0 512 in
    let? _ := plain (lit "the identity claims") (dr_subject_claims draft) 1 512 in
    let? _ := plain (lit "the groups claim") (dr_groups_claim draft) 1 128 in
    let? _ := no_space (lit "the groups claim") (dr_groups_claim draft) in
    let? _ := plain (lit "the provider name") (dr_provider_name draft) 1 64 in
    let? _ := plain (lit "the role map") (dr_role_map draft) 0 4096 in
    let? _ := match dr_client_secret draft with
              | SetSecret secret => plain (lit "the client secret") secret 1 4096
              | _ => Ok tt
              end in
    Ok issuer.

Definition placed (draft : ProviderDraft) (all : list ProviderSettings) (provider_name : str)
  : result (str * option ProviderSettings) DraftError :=
  let? (id, stored) :=
    match (id ← dr_id draft; non_blank (trim id)) with
    | Some id => let? stored := ok_or (DNoProvider id) (List.find (fun s => bool_decide (ps_id s = id)) all) in
                 Ok (id, Some stored)
    | None => let? id := ok_or DNoSlug (free_slug provider_name (dr_kind draft) (map ps_id all)) in
              Ok (id, None)
    end in
  if valid_slug id then
    match List.find (fun s => negb (bool_decide (ps_id s = id)) && eq_ignore_ascii_case (ps_provider_name s) provider_name)
            all with
    | Some other => Err (DNameTaken (ps_provider_name other))
    | None => Ok (id, stored)
    end
  else Err (DNotASlug id).

Section prepare.
Context `{HM : HeaderMap, K : Crypto, CO : Collation}.

Definition new_secret (sealer nonce : option str) (draft : ProviderDraft) (stored : option ProviderSettings)
  : result (option str) DraftError :=
  match dr_client_secret draft with
  | KeepSecret => Ok (s ← stored; ps_client_secret s)
  | ClearSecret => Ok None
  | SetSecret secret => let? key := ok_or DNoSealer sealer in
                        rmap Some (rmap_err DWeb (sealer_seal key nonce secret))
  end.

Definition prepare (sealer nonce : option str) (draft : ProviderDraft) (all : list ProviderSettings) (by_ : str)
  : result (ProviderSettings * OidcConfig) DraftError :=
  let? issuer := checked draft in
  let provider_name := trim (dr_provider_name draft) in
  let? (id, stored) := placed draft all provider_name in
  let? client_secret := new_secret sealer nonce draft stored in
  if decide (dr_kind draft = KGitHub /\ client_secret = None) then Err DSecretNeeded
  else
    let settings :=
      {| ps_id := id; ps_enabled := dr_enabled draft; ps_kind := dr_kind draft; ps_issuer := issuer;
         ps_client_id := trim (dr_client_id draft); ps_client_secret := client_secret;
         ps_redirect_url := trim (dr_redirect_url draft); ps_scopes := trim (dr_scopes draft);
         ps_subject_claims := trim (dr_subject_claims draft); ps_groups_claim := trim (dr_groups_claim draft);
         ps_provider_name := provider_name; ps_role_map := trim (dr_role_map draft);
         ps_default_role := dr_default_role draft; ps_updated_at := []; ps_updated_by := by_ |} in
    let? provider := rmap_err DWeb (build sealer settings) in
    Ok (settings, provider).

(** ** The constraints of [pgokf_web.identity_providers] *)

Lemma plain_ok what value min max : plain what value min max = Ok tt -> text_ok min max (trim value) = true.
Proof.
  unfold plain, text_ok. destruct (Nat.ltb_spec (char_count (trim value)) min); [done|].
  destruct (Nat.ltb_spec max (char_count (trim value))); [done|]. destruct (has_control _); [done|]. intros _.
  by rewrite !(proj2 (Nat.leb_le _ _)) by lia.
Qed.

Lemma no_space_ok what value : no_space what value = Ok tt -> has_space (trim value) = false.
Proof. unfold no_space. by destruct (has_space _). Qed.

(** A trimmed text that was checked is the text. *)
Lemma checked_spec draft issuer : checked draft = Ok issuer ->
  trim issuer = issuer /\ text_ok 1 2048 issuer = true /\ has_space issuer = false
  /\ text_ok 1 512 (trim (dr_client_id draft)) = true
  /\ text_ok 1 2048 (trim (dr_redirect_url draft)) = true /\ has_space (trim (dr_redirect_url draft)) = false
  /\ text_ok 0 512 (trim (dr_scopes draft)) = true /\ text_ok 1 512 (trim (dr_subject_claims draft)) = true
  /\ text_ok 1 128 (trim (dr_groups_claim draft)) = true /\ has_space (trim (dr_groups_claim draft)) = false
  /\ text_ok 1 64 (trim (dr_provider_name draft)) = true /\ text_ok 0 4096 (trim (dr_role_map draft)) = true.
Proof.
  unfold checked. set (i := if decide _ then GITHUB else _).
  assert (trim i = i) as Hi by (unfold i; case_decide; [by_eval|apply trim_idem]).
  intros H. repeat match type of H with
  | rbind ?m _ = Ok _ => let E := fresh "E" in destruct m as [[]|] eqn:E; cbn [rbind] in H; [|discriminate]
  | (if ?b then _ else _) = Ok _ => let E := fresh "E" in destruct b eqn:E; [discriminate|]
  end.
  injection H as <-.
  repeat match goal with
  | E : plain _ _ _ _ = Ok tt |- _ => apply plain_ok in E
  | E : no_space _ _ = Ok tt |- _ => apply no_space_ok in E
  end.
  rewrite Hi in *. by split_and!.
Qed.

Lemma url_scheme_ok s : trim s = s -> text_ok 1 2048 s = true -> has_space s = false ->
  (exists rest, rest <> [] /\ (s = lit "https://" ++ rest \/ s = lit "http://" ++ rest)) -> url_ok s = true.
Proof.
  intros Ht Hok Hs (rest & Hne & [-> | ->]); unfold url_ok; rewrite Hok, Hs; cbn; by destruct rest.
Qed.

Lemma check_url_rest url : check_url url = Ok tt ->
  exists rest, rest <> [] /\ (trim url = lit "https://" ++ rest \/ trim url = lit "http://" ++ rest).
Proof.
  unfold check_url. intros H. destruct (strip_prefix (lit "https://") (trim url)) as [rest|] eqn:Hs.
  - apply strip_prefix_Some in Hs. exists rest. split; [|by left]. by intros ->.
  - destruct (strip_prefix (lit "http://") (trim url)) as [rest|] eqn:Hp; [|done].
    apply strip_prefix_Some in Hp. exists rest. split; [|by right]. by intros ->.
Qed.

Lemma check_site_url_rest url : check_site_url url = Ok tt ->
  exists rest, rest <> [] /\ (trim url = lit "https://" ++ rest \/ trim url = lit "http://" ++ rest).
Proof.
  unfold check_site_url. destruct (check_url url) as [[]|] eqn:Hc; [intros _; by apply check_url_rest|]. cbn [is_ok].
  destruct (strip_prefix (lit "http://") (trim url)) as [rest|] eqn:Hp; [|done]. apply strip_prefix_Some in Hp.
  intros H. exists rest. split; [|by right]. by intros ->.
Qed.


Definition same_name (a b : ProviderSettings) : Prop :=
  map to_ascii_lowercase (ps_provider_name a) = map to_ascii_lowercase (ps_provider_name b).

Lemma placed_spec draft all name id stored :
  (Z.of_nat (length all) + 2 < MOST)%Z -> placed draft all name = Ok (id, stored) ->
  valid_slug id = true /\
  Forall (fun o => ps_id o = id \/ map to_ascii_lowercase (ps_provider_name o) <> map to_ascii_lowercase name) all /\
  match stored with
  | Some s => s ∈ all /\ ps_id s = id
  | None => id ∉ map ps_id all
  end.
Proof.
  intros Hl. unfold placed. set (r := match _ with Some id => _ | None => _ end). intros H.
  destruct r as [[id' st]|] eqn:Hr; [|done]. cbn in H.
  destruct (valid_slug id') eqn:Hv; [|done].
  destruct (List.find (fun s => negb (bool_decide (ps_id s = id')) && _) all) as [o|] eqn:Hf; [done|].
  injection H as <- <-. split_and!; [done| |].
  - apply Forall_forall. intros o Ho%list_elem_of_In. pose proof (find_none _ _ Hf o Ho) as Hn. cbn in Hn.
    destruct (decide (ps_id o = id')) as [?|Hne]; [by left|]. right. rewrite bool_decide_false in Hn by done. cbn in Hn.
    unfold eq_ignore_ascii_case in Hn. by apply bool_decide_eq_false in Hn.
  - subst r. destruct (i ← dr_id draft; non_blank (trim i)) as [i|].
    + destruct (List.find _ all) as [s|] eqn:Hs; [|done]. cbn in Hr. injection Hr as <- <-.
      apply find_some in Hs as [Hs Hid%bool_decide_eq_true]. split; [by apply list_elem_of_In|done].
    + destruct (free_slug name (dr_kind draft) (map ps_id all)) as [x|] eqn:Hx; [|done]. cbn in Hr. injection Hr as <- <-.
      destruct (find_free_slug name (dr_kind draft) (map ps_id all)) as (y & Hy & _ & Hn & _); [by rewrite length_map|].
      rewrite Hx in Hy. by injection Hy as ->.
Qed.

(** A settings row under construction. *)
Lemma prepare_inv sealer nonce draft all by_ settings provider :
  prepare sealer nonce draft all by_ = Ok (settings, provider) ->
  exists issuer stored,
    checked draft = Ok issuer /\ placed draft all (trim (dr_provider_name draft)) = Ok (ps_id settings, stored) /\
    new_secret sealer nonce draft stored = Ok (ps_client_secret settings) /\
    (dr_kind draft = KGitHub -> is_Some (ps_client_secret settings)) /\
    build sealer settings = Ok provider /\
    ps_issuer settings = issuer /\ ps_kind settings = dr_kind draft /\ ps_enabled settings = dr_enabled draft /\
    ps_client_id settings = trim (dr_client_id draft) /\ ps_redirect_url settings = trim (dr_redirect_url draft) /\
    ps_scopes settings = trim (dr_scopes draft) /\ ps_subject_claims settings = trim (dr_subject_claims draft) /\
    ps_groups_claim settings = trim (dr_groups_claim draft) /\
    ps_provider_name settings = trim (dr_provider_name draft) /\ ps_role_map settings = trim (dr_role_map draft).
Proof.
  unfold prepare. intros H.
  destruct (checked draft) as [issuer|] eqn:Hc; [|done]. cbn [rbind] in H.
  destruct (placed draft all (trim (dr_provider_name draft))) as [[id stored]|] eqn:Hp; [|done]. cbn [rbind] in H.
  destruct (new_secret sealer nonce draft stored) as [secret|] eqn:Hs; [|done]. cbn [rbind] in H.
  case_decide as Hg; [done|]. cbv zeta in H. set (row := Build_ProviderSettings _ _ _ _ _ _ _ _ _ _ _ _ _ _ _) in H.
  destruct (build sealer row) as [c|] eqn:Hb; [|done]. cbn in H. injection H as <- <-.
  exists issuer, stored. split_and!; try done. cbn. intros Hk. apply not_eq_None_Some. naive_solver.
Qed.

Lemma build_urls sealer s c : build sealer s = Ok c ->
  check_url (ps_issuer s) = Ok tt /\ check_site_url (ps_redirect_url s) = Ok tt.
Proof.
  unfold build. intros H. destruct (settings_config s sealer) as [cfg|] eqn:Hc; [|done]. cbn in H.
  assert (oc_issuer cfg = ps_issuer s /\ oc_redirect_uri cfg = ps_redirect_url s) as [Hi Hr].
  { unfold settings_config in Hc. destruct (match ps_client_secret s with Some _ => _ | None => _ end); [|done].
    cbn in Hc. destruct (role_mapping_parse _ _); [|done]. cbn in Hc. by injection Hc as <-. }
  unfold oidc_new in H. case_decide; [done|]. rewrite Hi, Hr in H.
  destruct (check_url (ps_issuer s)) as [[]|]; [|done]. cbn in H.
  by destruct (check_site_url (ps_redirect_url s)) as [[]|].
Qed.

(** What [b64_encode] and the cipher with its tag of sixteen bytes give. *)
Class SealLaws (K : Crypto) : Prop := {
  b64_alphabet : forall s, forallb sealed_char (b64_encode s) = true;
  b64_length : forall s, length (b64_encode s) = (4 * length s + 2) / 3;
  aead_tag : forall key nonce plain, length (aead_seal key nonce plain) = length plain + 16
}.

(** A sealed secret has the form the table asks for. *)
Lemma sealer_seal_ok `{!SealLaws K} key nonce plain sealed :
  length nonce = NONCE_LEN -> sealer_seal key (Some nonce) plain = Ok sealed -> sealed_ok sealed = true.
Proof.
  intros Hn Hs. assert (sealed = VERSION ++ colon :: b64_encode nonce ++ colon :: b64_encode (aead_seal key nonce plain)) as ->.
  { unfold sealer_seal in Hs. cbn [ok_or rbind] in Hs. congruence. }
  unfold sealed_ok.
  assert (strip_prefix (VERSION ++ [colon]) (VERSION ++ colon :: b64_encode nonce ++ colon :: b64_encode (aead_seal key nonce plain))
          = Some (b64_encode nonce ++ colon :: b64_encode (aead_seal key nonce plain))) as ->.
  { rewrite <- (strip_prefix_app (VERSION ++ [colon])). by rewrite <- app_assoc. }
  cbn [mbind option_bind]. rewrite (proj2 (split_once_Some colon _ (b64_encode nonce) (b64_encode (aead_seal key nonce plain)))).
  - rewrite !b64_alphabet, !b64_length, aead_tag, Hn. cbn [andb].
    assert (22 <= (4 * (length plain + 16) + 2) / 3) as Hlen by (apply Nat.div_le_lower_bound; lia).
    apply Nat.leb_le in Hlen. rewrite Hlen. done.
  - split; [done|]. intros Hin. pose proof (b64_alphabet nonce) as Hall. rewrite forallb_forall in Hall.
    apply list_elem_of_In, Hall in Hin. by vm_compute in Hin.
Qed.

(** A draft that names a stored provider changes it. *)
Lemma placed_stored draft all name id stored : placed draft all name = Ok (id, stored) ->
  stored = None <-> (i ← dr_id draft; non_blank (trim i)) = None.
Proof.
  unfold placed. destruct (_ ← dr_id draft; _) as [i|].
  - destruct (List.find _ all); [|done]. cbn. repeat case_match; by intros [= <- <-].
  - destruct (free_slug _ _ _); [|done]. cbn. repeat case_match; by intros [= <- <-].
Qed.

(** The row of an accepted form satisfies the constraints of the table. *)
Lemma prepare_row_ok `{!SealLaws K} sealer nonce draft all by_ settings provider :
  (Z.of_nat (length all) + 2 < MOST)%Z -> (forall n, nonce = Some n -> length n = NONCE_LEN) ->
  prepare sealer nonce draft all by_ = Ok (settings, provider) ->
  (forall o, o ∈ all -> provider_row_ok o = true) -> provider_row_ok settings = true.
Proof.
  intros Hl Hnonce H Hrows.
  apply prepare_inv in H as (issuer & stored & Hc & Hp & Hsec & Hg & Hb & Hiss & Hkind & _ & Hf).
  destruct Hf as (Hcid & Hred & Hsc & Hsub & Hgr & Hname & Hrm).
  destruct (checked_spec draft issuer Hc) as (Ht & Hi & His & Hck).
  destruct (build_urls _ _ _ Hb) as [Hu1 Hu2].
  destruct (placed_spec draft all _ _ _ Hl Hp) as (Hslug & _ & Hst).
  assert (default true (sealed_ok <$> ps_client_secret settings) = true) as Hsealed.
  { unfold new_secret in Hsec. destruct (dr_client_secret draft) as [|secret|].
    - injection Hsec as <-. destruct stored as [o|]; [|done]. destruct Hst as [Hin _]. apply Hrows in Hin.
      unfold provider_row_ok in Hin. rewrite !andb_true_iff in Hin. cbn. tauto.
    - destruct sealer as [key|]; [|done]. cbn in Hsec. destruct nonce as [n|]; [|done]. cbn in Hsec.
      injection Hsec as <-. cbn [fmap option_fmap option_map default from_option id].
      by apply (sealer_seal_ok key n (secret)); [apply Hnonce|].
    - by injection Hsec as <-. }
  unfold provider_row_ok. destruct Hck as (? & Hr1 & Hr2 & ?).
  rewrite Hslug, Hsealed, Hiss, Hcid, Hred, Hsc, Hsub, Hgr, Hname, Hrm.
  rewrite (url_scheme_ok issuer), (url_scheme_ok (trim (dr_redirect_url draft))); try done.
  - intuition. cbn. rewrite !andb_true_iff, !negb_true_iff. by split_and!.
  - apply trim_idem.
  - rewrite Hred in Hu2. destruct (check_site_url_rest _ Hu2) as (rest & ? & Hx). rewrite trim_idem in Hx. by exists rest.
  - rewrite Hiss in Hu1. destruct (check_url_rest _ Hu1) as (rest & ? & Hx). rewrite Ht in Hx. by exists rest.
Qed.

(** C35: What the form lets through, the catalog takes.  A provider that
    [prepare] accepts - read from rows that satisfy the constraints of the
    table, with a nonce of the length the site draws - can be built and
    satisfies every constraint of the table; a new one is under a free slug, a
    change under the slug of a stored provider, and a GitHub provider always
    has a client secret.  Saving it is then refused for one reason only: another
    provider's name is the same to the unique index on [lower(provider_name)]
    although the form, which folds ASCII letters alone, tells the two apart,
    and that takes a name with a character outside ASCII. *)
Theorem prepared_row_accepted `{!SealLaws K, !CollationLaws CO} (sealer nonce : option str) (draft : ProviderDraft)
    (w : Web) (by_ stamp : str) (settings : ProviderSettings) (provider : OidcConfig) :
  let all := (map_to_list (w_providers w)).*2 in
  let is_new := bool_decide ((i ← dr_id draft; non_blank (trim i)) = None) in
  providers_keyed w -> map_Forall (fun _ o => provider_row_ok o = true) (w_providers w) ->
  (Z.of_nat (length all) + 2 < MOST)%Z -> (forall n, nonce = Some n -> length n = NONCE_LEN) ->
  prepare sealer nonce draft all by_ = Ok (settings, provider) ->
  provider_row_ok settings = true /\ build sealer settings = Ok provider /\
  (ps_kind settings = KGitHub -> is_Some (ps_client_secret settings)) /\
  (w_providers w !! ps_id settings = None <-> is_new = true) /\
  run (save_row settings stamp is_new) w
  = (if name_taken settings w then (Err (AlreadyExists (ps_id settings)), w)
     else (Ok (stamped stamp settings), set_providers (<[ps_id settings := stamped stamp settings]> (w_providers w)) w)) /\
  (name_taken settings w = true -> exists id o, w_providers w !! id = Some o /\ id <> ps_id settings /\
     sql_lower (ps_provider_name o) = sql_lower (ps_provider_name settings) /\
     eq_ignore_ascii_case (ps_provider_name o) (ps_provider_name settings) = false /\
     ~ (forallb is_ascii (ps_provider_name o) = true /\ forallb is_ascii (ps_provider_name settings) = true)).
Proof.
  intros all is_new Hk Hrows Hl Hnonce H.
  assert (forall o, w_providers w !! ps_id o = Some o <-> o ∈ all) as Hall.
  { intros o. unfold all. rewrite list_elem_of_fmap. split.
    - intros Ho. exists (ps_id o, o). split; [done|]. by apply elem_of_map_to_list.
    - intros ([i x] & -> & Hx%elem_of_map_to_list). cbn. by rewrite (Hk _ _ Hx). }
  pose proof (prepare_row_ok sealer nonce draft all by_ settings provider Hl) as Hok.
  apply prepare_inv in H as Hinv. destruct Hinv as (issuer & stored & _ & Hp & _ & Hg & Hb & _ & Hkind & _ & Hf).
  destruct Hf as (_ & _ & _ & _ & _ & Hname & _).
  destruct (placed_spec draft all _ _ _ Hl Hp) as (_ & Hnames & Hst).
  assert (provider_row_ok settings = true) as Hrow.
  { apply Hok; [done|done|]. intros o Ho%Hall. by apply (Hrows (ps_id o)). }
  assert (w_providers w !! ps_id settings = None <-> is_new = true) as Hnew.
  { unfold is_new. rewrite bool_decide_eq_true. pose proof (placed_stored draft all _ _ _ Hp) as Hdr.
    rewrite <- Hdr. destruct stored as [s|]; split; try done.
    - destruct Hst as [Hin <-]. apply Hall in Hin. by rewrite Hin.
    - intros _. apply eq_None_not_Some. intros [o Ho]. apply Hst, list_elem_of_fmap. exists o.
      pose proof (Hk _ _ Ho) as Hid. split; [done|]. apply Hall. by rewrite Hid. }
  split_and!; [done|done|by rewrite Hkind|done|..].
  - unfold save_row. cbn. rewrite Hrow. cbn [negb]. destruct is_new.
    + rewrite (proj2 Hnew eq_refl). rewrite bool_decide_false by by intros [? ?]. cbn [andb orb].
      by destruct (name_taken settings w).
    + cbn [andb orb]. by destruct (name_taken settings w).
  - unfold name_taken. intros Ht%negb_true_iff%bool_decide_eq_false.
    apply map_not_Forall in Ht as (id & o & Ho & Hno); [|apply _]. exists id, o.
    assert (id <> ps_id settings /\ sql_lower (ps_provider_name o) = sql_lower (ps_provider_name settings)) as [Hid Hlow].
    { split; [by intros ?; apply Hno; left|]. destruct (decide (sql_lower (ps_provider_name o) = sql_lower (ps_provider_name settings)));
        [done|]. by destruct Hno; right. }
    assert (map to_ascii_lowercase (ps_provider_name o) <> map to_ascii_lowercase (ps_provider_name settings)) as Happart.
    { rewrite Forall_forall in Hnames. pose proof (Hk _ _ Ho) as Hido. rewrite Hname.
      destruct (Hnames o) as [?|?]; [|congruence|done]. apply Hall. by rewrite Hido. }
    split_and!; [done|done|done|by apply bool_decide_eq_false|].
    intros [H1 H2]. by apply Happart, sql_lower_ascii.
Qed.

End prepare.
