(* ===== verification/OidcExamples.v ===== *)
(** * A provider to try

    The network and the JWT library by concrete functions, and the theorems on
    provider sign-ins at concrete ones. *)
From stdpp Require Import prelude strings gmap list countable.
From Stdlib Require Import Ascii ZArith Lia.
From S2P Require Import Prelude Str Net WebState WebAuth WebUsers WebSignIn WebExamples WebUrl WebSettings WebProviders Oidc OidcProps.

Definition flow_fields (f : Flow) : list str :=
  [mark (fl_provider f); fl_state f; fl_nonce f; fl_verifier f; fl_next f; bits (encode (fl_expires f))].

Definition fields_flow (fields : list str) : option Flow :=
  match fields with
  | [p; s; n; v; x; e] =>
      e ← decode (of_bits e);
      Some {| fl_provider := unmark p; fl_state := s; fl_nonce := n; fl_verifier := v; fl_next := x; fl_expires := e |}
  | _ => None
  end.

#[export] Instance toy_flow : FlowCodec :=
  {| flow_json f := pack (flow_fields f); flow_of_json s := fields ← unpack s; fields_flow fields |}.

Lemma toy_flow_round f : flow_of_json (flow_json f) = Some f.
Proof.
  change (unpack (pack (flow_fields f)) ≫= fields_flow = Some f). rewrite unpack_pack by done. cbn.
  rewrite of_bits_bits, decode_encode, unmark_mark.
  by destruct f.
Qed.

(** GitHub, with one organization and a second page of teams. *)
Definition org (login : string) : Value := VObject [(lit "login", VString (lit login))].
Definition team (o slug : string) : Value :=
  VObject [(lit "organization", org o); (lit "slug", VString (lit slug))].

Definition teams_url : str := lit "https://api.github.com/user/teams?per_page=100".
Definition second_page : str := lit "https://api.github.com/user/teams?page=2".

Definition octocat (url : str) : result (Value * option str) OidcError :=
  if decide (url = lit "https://api.github.com/user") then
    Ok (VObject [(lit "id", VUint 583231); (lit "login", VString (lit "octocat")); (lit "name", VNull)], None)
  else if decide (url = lit "https://api.github.com/user/orgs?per_page=100") then Ok (VArray [org "acme"], None)
  else if decide (url = teams_url) then
    Ok (VArray [team "acme" "docs"], Some (lit "<" ++ second_page ++ lit ">; rel=" ++ ["034"%char] ++ lit "next" ++ ["034"%char]))
  else if decide (url = second_page) then Ok (VArray [team "acme" "editors"], None)
  else Err EUnreachable.

Definition oidc_discovery : Discovery :=
  {| d_issuer := lit "https://id.example.com"; d_authorization_endpoint := lit "https://id.example.com/authorize";
     d_token_endpoint := lit "https://id.example.com/token"; d_jwks_uri := lit "https://id.example.com/keys";
     d_end_session_endpoint := None; d_signing_algs := Some [lit "HS256"; lit "ES256"]; d_auth_methods := None;
     d_challenge_methods := None |}.

Definition dana : IdClaims :=
  {| ic_sub := lit "248289"; ic_nonce := Some (lit "n0nce"); ic_azp := None;
     ic_other := {[lit "email" := VString (lit "dana@example.com"); lit "email_verified" := VBool false;
                   lit "preferred" := VString (lit " dana "); lit "groups" := VArray [VString (lit "staff"); VString (lit "kb")]]} |}.

#[export] Instance toy_world : World := {|
  unix_at n := 1000%Z;
  instant_at n := Z.of_nat n;
  jwk := unit;
  jwk_id _ := Some (lit "k1");
  jwk_algorithm _ := None;
  jwk_usable _ := true;
  document n url := if decide (url = lit "https://id.example.com/.well-known/openid-configuration")
                    then Ok oidc_discovery else Err EUnreachable;
  key_set n url := Ok [tt];
  token_answer n url form authorization := Status true (lit "{}");
  github_answer n url token := octocat url;
  json_of s := Some (VObject []);
  token_response_of s := Some {| tr_id_token := Some (lit "signed"); tr_access_token := Some (lit "gho_1"); tr_scope := Some (lit "read:org") |};
  algorithm_named s := if decide (s = lit "ES256") then Some ES256 else Some (OtherAlgorithm s);
  token_header s := Some (ES256, Some (lit "k1"));
  token_claims s k v := if decide (v_algorithms v = [ES256]) then Some dana else None
|}.

Definition example_oidc : OidcConfig :=
  {| oc_id := Some (lit "example"); oc_kind := KOidc; oc_issuer := lit "https://id.example.com/"; oc_client_id := lit "kb";
     oc_client_secret := None; oc_redirect_uri := lit "https://kb.example.com/auth/callback"; oc_scopes := lit "profile";
     oc_subject_claims := [lit "email"; lit "preferred"; lit "sub"]; oc_groups_claim := lit "groups";
     oc_roles := {| rm_map := [(lit "kb", Editor); (lit "admins", Admin)]; rm_default := Viewer |};
     oc_provider_name := lit "Example" |}.

Definition fresh : OState := {| os_tick := 0; os_metadata := None; os_sent := [] |}.

Definition some_flow (provider : option str) : Flow :=
  {| fl_provider := provider; fl_state := lit "st4te"; fl_nonce := lit "n0nce"; fl_verifier := lit "v"; fl_next := lit "/kb";
     fl_expires := 1600 |}.

Definition with_flow (provider : option str) : headers :=
  [(COOKIE, lit "theme=dark; " ++ FLOW_COOKIE ++ lit "=" ++ seal_json site (flow_json (some_flow provider)))].

Abbreviation dana_signs_in :=
  (complete site example_oidc (with_flow (Some (lit "example"))) (lit "c0de") (lit "st4te") fresh).

(** An unverified address names nobody: the next configured claim does. *)
Example dana_is_named :
  dana_signs_in.1 = Ok ({| p_subject := lit "dana"; p_display := lit "dana"; p_role := Editor |}, [lit "kb"], lit "/kb").
Proof. by_eval. Qed.

Lemma outcome_pair {A B} (x : A * B) a : x.1 = a -> x = (a, x.2).
Proof. intros <-. apply surjective_pairing. Qed.

Lemma complete_only_what_started_witness :
  cache_ok example_oidc fresh /\
  exists token flow n tokens claims,
    cookie_value (with_flow (Some (lit "example"))) FLOW_COOKIE = Some token /\ open_flow site token = Some flow /\
    (unix_at n < fl_expires flow)%Z /\ exchanged example_oidc (lit "c0de") (fl_verifier flow) tokens /\
    answered example_oidc tokens (fl_nonce flow) claims.
Proof.
  split; [done|].
  destruct (complete_only_what_started site example_oidc (with_flow (Some (lit "example"))) (lit "c0de") (lit "st4te")
              fresh dana_signs_in.2 {| p_subject := lit "dana"; p_display := lit "dana"; p_role := Editor |}
              [lit "kb"] (lit "/kb")) as (token & flow & n & tokens & claims & H1 & H2 & H3 & _ & _ & _ & H4 & H5 & _); [done| |].
  - exact (outcome_pair _ _ dana_is_named).
  - exists token, flow, n, tokens, claims. split_and!; [exact H1|exact H2|exact H3|exact H4|exact H5].
Defined.

Lemma principal_from_exact_witness :
  principal_from example_oidc dana = Ok ({| p_subject := lit "dana"; p_display := lit "dana"; p_role := Editor |}, [lit "kb"]) /\
  role_for (oc_roles example_oidc) [lit "kb"] = Editor.
Proof.
  assert (principal_from example_oidc dana
          = Ok ({| p_subject := lit "dana"; p_display := lit "dana"; p_role := Editor |}, [lit "kb"])) as H by by_eval.
  split; [exact H|]. apply (principal_from_exact example_oidc dana _ _ H).
Defined.

Definition github_oidc : OidcConfig :=
  {| oc_id := Some (lit "github"); oc_kind := KGitHub; oc_issuer := lit "https://github.com"; oc_client_id := lit "kb";
     oc_client_secret := Some (lit "s"); oc_redirect_uri := lit "https://kb.example.com/auth/callback"; oc_scopes := [];
     oc_subject_claims := [lit "login"]; oc_groups_claim := lit "groups";
     oc_roles := {| rm_map := [(lit "acme/editors", Editor)]; rm_default := Viewer |}; oc_provider_name := lit "GitHub" |}.

Abbreviation octocat_signs_in :=
  (complete site github_oidc (with_flow (Some (lit "github"))) (lit "c0de") (lit "st4te") fresh).

Example octocat_is_named :
  (octocat_signs_in.1, os_sent octocat_signs_in.2)
  = (Ok ({| p_subject := lit "octocat"; p_display := lit "octocat"; p_role := Editor |}, [lit "acme/editors"], lit "/kb"),
     [lit "https://api.github.com/user"; lit "https://api.github.com/user/orgs?per_page=100"; teams_url; second_page;
      lit "https://api.github.com/applications/kb/token"]).
Proof. by_eval. Qed.

Lemma token_stays_at_the_api_witness :
  oidc_new github_oidc = Ok github_oidc /\
  exists urls, os_sent octocat_signs_in.2 = [] ++ urls /\
    Forall (fun url => api_origin url = api_origin (github_api_base (lit "https://github.com"))) urls /\ length urls <= 17.
Proof.
  split; [by_eval|].
  apply (token_stays_at_the_api site github_oidc github_oidc (with_flow (Some (lit "github"))) (lit "c0de") (lit "st4te") fresh).
  by_eval.
Defined.

(** A new provider from the form. *)
Definition entra : ProviderDraft :=
  {| dr_id := None; dr_enabled := true; dr_kind := KOidc; dr_issuer := lit " https://login.example.com/t ";
     dr_client_id := lit "kb"; dr_client_secret := ClearSecret; dr_redirect_url := lit "https://kb.example.com/auth/callback";
     dr_scopes := lit "openid profile"; dr_subject_claims := lit "sub"; dr_groups_claim := lit "groups";
     dr_provider_name := lit "Entra ID"; dr_role_map := lit "kb=editor"; dr_default_role := Viewer |}.

(** Base64 with the alphabet of addresses, without padding. *)
Definition base64_chars : str := lit "ABCDEFGHIJKLMNOPQRSTUVWXYZabcdefghijklmnopqrstuvwxyz0123456789-_".
Definition sextet (n : N) : ascii := List.nth (N.to_nat n) base64_chars "A"%char.
Definition sextet_of (c : ascii) : option N := N.of_nat <$> (fst <$> list_find (eq c) base64_chars).

Fixpoint base64 (s : str) : str :=
  match s with
  | [] => []
  | [a] => [sextet (byte a / 4); sextet (byte a mod 4 * 16)]
  | [a; b] => [sextet (byte a / 4); sextet (byte a mod 4 * 16 + byte b / 16); sextet (byte b mod 16 * 4)]
  | a :: b :: c :: r =>
      sextet (byte a / 4) :: sextet (byte a mod 4 * 16 + byte b / 16) :: sextet (byte b mod 16 * 4 + byte c / 64)
      :: sextet (byte c mod 64) :: base64 r
  end.

Fixpoint unbase64 (s : str) : option str :=
  match s with
  | [] => Some []
  | [_] => None
  | [w; x] => w ← sextet_of w; x ← sextet_of x; Some [ascii_of_N (w * 4 + x / 16)]
  | [w; x; y] => w ← sextet_of w; x ← sextet_of x; y ← sextet_of y;
                 Some [ascii_of_N (w * 4 + x / 16); ascii_of_N (x mod 16 * 16 + y / 4)]
  | w :: x :: y :: z :: r =>
      w ← sextet_of w; x ← sextet_of x; y ← sextet_of y; z ← sextet_of z; r ← unbase64 r;
      Some (ascii_of_N (w * 4 + x / 16) :: ascii_of_N (x mod 16 * 16 + y / 4) :: ascii_of_N (y mod 4 * 64 + z) :: r)
  end.

Example base64_there_and_back : unbase64 (base64 (lit "any carnal pleas")) = Some (lit "any carnal pleas") /\
  base64 (lit "any carnal pleas") = lit "YW55IGNhcm5hbCBwbGVhcw".
Proof. split; by_eval. Qed.

(** The toy functions with that encoding, and a tag of sixteen bytes. *)
Definition tag : str := lit "0123456789abcdef".
Definition seal_crypto : Crypto := {|
  hmac_sha256 := hmac_sha256; sha256_digest := sha256_digest;
  b64_encode := base64; b64_decode := unbase64;
  argon2_hash := argon2_hash; argon2_verify := argon2_verify;
  aead_seal key nonce plain := plain ++ tag;
  aead_open key nonce sealed := reverse <$> strip_prefix (reverse tag) (reverse sealed);
  claims_json := claims_json; claims_of_json := claims_of_json
|}.

Lemma sextet_sealed n : sealed_char (sextet n) = true.
Proof.
  assert (forallb sealed_char base64_chars = true) as H by by_eval. rewrite forallb_forall in H.
  unfold sextet. destruct (nth_in_or_default (N.to_nat n) base64_chars "A"%char) as [Hin | ->]; [by apply H|by_eval].
Qed.

#[export] Instance seal_laws : SealLaws seal_crypto.
Proof.
  constructor; cbn [b64_encode aead_seal seal_crypto].
  - fix IH 1. intros [|a [|b [|c r]]]; [done|..]; cbn [base64 forallb]; rewrite ?sextet_sealed; [done..|]. apply IH.
  - fix IH 1. intros [|a [|b [|c r]]]; [done..|]. cbn [base64 length]. rewrite IH.
    replace (4 * S (S (S (length r))) + 2) with (4 * length r + 2 + 4 * 3) by lia. rewrite Nat.div_add by lia. lia.
  - intros key nonce plain. by rewrite length_app.
Qed.

(** A new provider with a secret of its own, beside a stored one. *)
Definition with_secret : ProviderDraft :=
  {| dr_id := dr_id entra; dr_enabled := true; dr_kind := KOidc; dr_issuer := dr_issuer entra; dr_client_id := dr_client_id entra;
     dr_client_secret := SetSecret (lit "s3cret"); dr_redirect_url := dr_redirect_url entra; dr_scopes := dr_scopes entra;
     dr_subject_claims := dr_subject_claims entra; dr_groups_claim := dr_groups_claim entra;
     dr_provider_name := dr_provider_name entra; dr_role_map := dr_role_map entra; dr_default_role := Viewer |}.

Definition prepared : result (ProviderSettings * OidcConfig) DraftError :=
  prepare (K := seal_crypto) (Some (lit "key")) (Some (lit "twelve bytes")) with_secret [] (lit "bob").

Lemma prepared_row_accepted_witness :
  exists settings provider, prepared = Ok (settings, provider) /\ ps_id settings = lit "entra-id" /\
    provider_row_ok settings = true /\ is_Some (ps_client_secret settings) /\
    run (save_row settings [] true) empty_web
    = (Ok (stamped [] settings), set_providers (<[ps_id settings := stamped [] settings]> (w_providers empty_web)) empty_web).
Proof.
  destruct prepared as [[settings provider]|] eqn:Hp; [|by vm_compute in Hp]. exists settings, provider.
  assert (ps_id settings = lit "entra-id" /\ is_Some (ps_client_secret settings)) as [Hid Hsec]
    by (vm_compute in Hp; injection Hp as <- _; by split; [|eexists]).
  destruct (prepared_row_accepted (K := seal_crypto) (Some (lit "key")) (Some (lit "twelve bytes")) with_secret empty_web (lit "bob") []
              settings provider) as (Hrow & _ & _ & Hnew & Hrun & _).
  - apply no_providers_keyed. by_eval.
  - exact (map_Forall_empty _).
  - by vm_compute.
  - by intros n [= <-].
  - rewrite <- Hp. by_eval.
  - split_and!; [done|done|done|done|]. assert (name_taken settings empty_web = false) as Hfree by by_eval.
    rewrite Hfree in Hrun. exact Hrun.
Defined.

(** A collation that folds an accented letter as well: É is é. *)
Fixpoint fold_accent (s : str) : str :=
  match s with
  | a :: ((b :: r) as s') =>
      if ((byte a =? 195) && (byte b =? 137))%N then a :: ascii_of_N 169 :: fold_accent r
      else to_ascii_lowercase a :: fold_accent s'
  | [a] => [to_ascii_lowercase a]
  | [] => []
  end.
Definition accents : Collation := {| sql_lower := fold_accent |}.

Lemma fold_accent_ascii s : forallb is_ascii s = true -> fold_accent s = map to_ascii_lowercase s.
Proof.
  induction s as [|a [|b r] IH]; [done..|]. intros [Ha Hs]%andb_true_iff.
  change (fold_accent (a :: b :: r)) with
    (if ((byte a =? 195) && (byte b =? 137))%N then a :: ascii_of_N 169 :: fold_accent r
     else to_ascii_lowercase a :: fold_accent (b :: r)).
  assert ((byte a =? 195)%N = false) as -> by (unfold is_ascii in Ha; apply N.ltb_lt in Ha; apply N.eqb_neq; lia).
  cbn [andb]. by rewrite (IH Hs).
Qed.

#[local] Instance accents_laws : CollationLaws accents.
Proof. constructor. intros s t Hs Ht. cbn. by rewrite !fold_accent_ascii. Qed.

Definition named (name : str) : ProviderDraft :=
  {| dr_id := None; dr_enabled := true; dr_kind := KOidc; dr_issuer := dr_issuer entra; dr_client_id := dr_client_id entra;
     dr_client_secret := ClearSecret; dr_redirect_url := dr_redirect_url entra; dr_scopes := dr_scopes entra;
     dr_subject_claims := dr_subject_claims entra; dr_groups_claim := dr_groups_claim entra; dr_provider_name := name;
     dr_role_map := dr_role_map entra; dr_default_role := Viewer |}.

Definition big_e : str := [ascii_of_N 195; ascii_of_N 137] ++ lit "cole".
Definition small_e : str := [ascii_of_N 195; ascii_of_N 169] ++ lit "COLE".

(** The form lets a second name through, and the index refuses it. *)
Example accented_name_refused :
  match prepare None None (named big_e) [] (lit "bob") with
  | Ok (first, _) =>
      let w := set_providers {[ps_id first := first]} empty_web in
      match prepare None None (named small_e) [first] (lit "bob") with
      | Ok (second, _) => (run (@save_row accents second [] true) w).1 = Err (AlreadyExists (ps_id second))
      | Err _ => False
      end
  | Err _ => False
  end.
Proof. by vm_compute. Qed.
