(* ===== verification/TypedWalk.v ===== *)
(** * Typed traversal ([extension/src/catalog/relationships.rs], the reader)

    [current_relationships] is the view; [typed_breadth_first] the traversal
    core over an injected edge lookup, with its ceiling on results;
    [relationship_neighbors_impl] the entry point [concept_relationship_neighbors]
    without the titles, freshness and embedding columns it adds to a row.  The
    queries run with the caller's rights: a concept is seen when its bundle is
    active and the session's tenant may see it. *)
From stdpp Require Import prelude strings gmap list sorting.
From Stdlib Require Import Ascii ZArith Lia.
From S2P Require Import Prelude Str BTree CatalogError Security Catalog Neighbors.

(** A concept by identity. *)
Abbreviation node := (Z * list ascii)%type.

Record TypedVisit : Type := {
  tv_hops : Z;
  tv_bundle_ids : list Z;
  tv_concept_ids : list str;
  tv_relation_type : str
}.

Record TypedEdge : Type := { te_from : node; te_to : node; te_type : str }.

Abbreviation TypedVisited := (gmap (Z * list ascii) TypedVisit).

(** ** The traversal core *)

(** The edges of one level: [(visited, discovered, next)]; the loop breaks at
    the ceiling, and an edge from an unvisited node panics. *)
Fixpoint typed_level (max_results : nat) (hop : Z) (edges : list TypedEdge)
    (visited : TypedVisited) (discovered next : list node)
  : outcome (TypedVisited * list node * list node) :=
  match edges with
  | [] => Ret (visited, discovered, next)
  | edge :: edges' =>
      if (max_results <=? length discovered)%nat then Ret (visited, discovered, next)
      else match visited !! te_to edge with
           | Some _ => typed_level max_results hop edges' visited discovered next
           | None =>
               match visited !! te_from edge with
               | None => Panic
               | Some from_record =>
                   typed_level max_results hop edges'
                     (<[te_to edge := {| tv_hops := hop;
                                         tv_bundle_ids := tv_bundle_ids from_record ++ [(te_to edge).1];
                                         tv_concept_ids := tv_concept_ids from_record ++ [(te_to edge).2];
                                         tv_relation_type := te_type edge |}]> visited)
                     (discovered ++ [te_to edge]) (next ++ [te_to edge])
               end
           end
  end.

Section bfs.
Context {E : Type} (edges_from : list node -> result (list TypedEdge) E).

(** The [while] loop, one unit of fuel per test of its condition. *)
Fixpoint typed_loop (fuel : nat) (max_hops : Z) (max_results : nat) (hop : Z)
    (visited : TypedVisited) (discovered frontier : list node)
  : outcome (result (TypedVisited * list node) E) :=
  match fuel with
  | 0 => Panic
  | S fuel' =>
      if (hop <=? max_hops)%Z && negb (bool_decide (frontier = [])) && (length discovered <? max_results)%nat then
        match edges_from frontier with
        | Err e => Ret (Err e)
        | Ok edges =>
            obind (typed_level max_results hop edges visited discovered []) (fun '(visited', discovered', next) =>
            if (hop =? i32_max)%Z then Panic
            else typed_loop fuel' max_hops max_results (hop + 1) visited' discovered' next)
        end
      else Ret (Ok (visited, discovered))
  end.

(** [visited.remove(&node).expect(..)] for every discovered node. *)
Fixpoint typed_detach (visited : TypedVisited) (discovered : list node) : outcome (list (node * TypedVisit)) :=
  match discovered with
  | [] => Ret []
  | n :: rest =>
      match visited !! n with
      | None => Panic
      | Some record => obind (typed_detach (delete n visited) rest) (fun l => Ret ((n, record) :: l))
      end
  end.

Definition seed_visit (seed : node) : TypedVisit :=
  {| tv_hops := 0; tv_bundle_ids := [seed.1]; tv_concept_ids := [seed.2]; tv_relation_type := [] |}.

Definition typed_breadth_first (seed : node) (max_hops : Z) (max_results : nat)
  : outcome (result (list (node * TypedVisit)) E) :=
  obind (typed_loop (S (Z.to_nat max_hops)) max_hops max_results 1 {[seed := seed_visit seed]} [] [seed])
    (fun r => match r with
              | Err e => Ret (Err e)
              | Ok (visited, discovered) => obind (typed_detach visited discovered) (fun l => Ret (Ok l))
              end).

End bfs.

(** ** The view and the queries *)

Definition bundle_active (d : Db) (id : Z) : bool :=
  match bundles d !! id with
  | Some b => b_enabled b && bool_decide (b_retired_at b = None)
  | None => false
  end.

(** [ORDER BY 1, 2, 3, 4, 5] of the two edge queries: text sorts by the
    database's collation. *)
Definition edge_row : Type := Z * str * option Z * option str * str.
Class EdgeOrder : Type := { order_edges : list edge_row -> list edge_row }.

Class EdgeOrderLaws `{EdgeOrder} : Prop := { order_edges_perm : forall l, order_edges l ≡ₚ l }.

Section catalog.
Context `{Ses : Session, EO : EdgeOrder}.

(** The bundle is active and its rows pass the tenant predicate. *)
Definition bundle_visible (d : Db) (id : Z) : bool :=
  bundle_active d id
  && match bundles d !! id with Some b => tenant_predicate d (b_tenant b) | None => false end.

Definition concept_visible (d : Db) (n : node) : bool := bool_decide (n ∈ concepts d) && bundle_visible d n.1.

(** [pgokf.current_relationships]. *)
Definition current_relationship (d : Db) (r : RelationRow) : bool :=
  match List.find (fun p => bool_decide (pub_id p = rl_publication r)) (relationship_publication d) with
  | None => false
  | Some p =>
      match pub_bundle p with Some sb => bundle_active d sb | None => false end
      && bool_decide (pub_state p = lit "active") && tenant_predicate d (pub_tenant p)
      && (rl_unresolved r
          || match rl_target_bundle r with None => true | Some tb => bundle_visible d tb end)
  end.

Definition current_relationships (d : Db) : list RelationRow :=
  List.filter (current_relationship d) (relationship d).

Definition type_selected (relation_types : option (list str)) (r : RelationRow) : bool :=
  match relation_types with None => true | Some types => bool_decide (rl_type r ∈ types) end.

Definition source_node (r : RelationRow) : node := (rl_source_bundle r, rl_source_concept r).

(** An endpoint column pair that equals a frontier node. *)
Definition target_in (frontier : list node) (r : RelationRow) : bool :=
  match rl_target_bundle r, rl_target_concept r with
  | Some b, Some c => bool_decide ((b, c) ∈ frontier)
  | _, _ => false
  end.

Definition undirected (r : RelationRow) : bool := bool_decide (rl_direction r = lit "undirected").

Definition resolved_rows (d : Db) (types : option (list str)) : list RelationRow :=
  List.filter (fun r => negb (rl_unresolved r) && type_selected types r) (current_relationships d).

(** Source to target of the rows whose source is in the frontier, and target
    to source of those whose target is. *)
Definition leaving (d : Db) (frontier : list node) (types : option (list str)) (p : RelationRow -> bool) : list edge_row :=
  map (fun r => (rl_source_bundle r, rl_source_concept r, rl_target_bundle r, rl_target_concept r, rl_type r))
    (List.filter (fun r => bool_decide (source_node r ∈ frontier) && p r) (resolved_rows d types)).
Definition entering (d : Db) (frontier : list node) (types : option (list str)) (p : RelationRow -> bool) : list edge_row :=
  omap (fun r => b ← rl_target_bundle r; c ← rl_target_concept r;
                 Some (b, c, Some (rl_source_bundle r), Some (rl_source_concept r), rl_type r))
    (List.filter (fun r => target_in frontier r && p r) (resolved_rows d types)).

(** [FORWARD_EDGE_QUERY] and [BACKWARD_EDGE_QUERY]. *)
Definition forward_edges (d : Db) (frontier : list node) (types : option (list str)) : list edge_row :=
  order_edges (leaving d frontier types (fun _ => true) ++ entering d frontier types undirected).
Definition backward_edges (d : Db) (frontier : list node) (types : option (list str)) : list edge_row :=
  order_edges (entering d frontier types (fun _ => true) ++ leaving d frontier types undirected).

Definition null_column (name : str) : CatalogError :=
  internal (lit "relationship column " ++ name ++ lit " is unexpectedly NULL") [].

Definition read_edge (row : edge_row) : result TypedEdge CatalogError :=
  let '(from_bundle, from_concept, to_bundle, to_concept, relation_type) := row in
  let? b := ok_or (null_column (lit "to_bundle_id")) to_bundle in
  let? c := ok_or (null_column (lit "to_concept_id")) to_concept in
  Ok {| te_from := (from_bundle, from_concept); te_to := (b, c); te_type := relation_type |}.

Definition outward (direction : str) : bool := bool_decide (direction ∈ [lit "outbound"; lit "both"]).
Definition inward (direction : str) : bool := bool_decide (direction ∈ [lit "inbound"; lit "both"]).

Definition expand_typed_frontier (d : Db) (direction : str) (types : option (list str)) (frontier : list node)
  : result (list TypedEdge) CatalogError :=
  let? forward := if outward direction then rmap_list read_edge (forward_edges d frontier types) else Ok [] in
  let? backward := if inward direction then rmap_list read_edge (backward_edges d frontier types) else Ok [] in
  Ok (forward ++ backward).

(** ** The entry point *)

Definition MAX_NEIGHBOR_RESULTS : Z := 10000.
Definition MAX_RELATION_TYPE_FILTERS : nat := 256.
Definition TRAVERSAL_DIRECTIONS : list str := [lit "outbound"; lit "inbound"; lit "both"].

Definition bad_direction (direction : str) : CatalogError :=
  invalid_parameter (lit "direction must be one of "
    ++ join (lit ", ") (map (fun d => lit "'" ++ d ++ lit "'") TRAVERSAL_DIRECTIONS) ++ lit ", got " ++ direction) [].

Definition validated_types (relation_types : option (list str)) : result (option (list str)) CatalogError :=
  match relation_types with
  | None | Some [] => Ok None
  | Some types =>
      if (MAX_RELATION_TYPE_FILTERS <? length types)%nat then
        Err (invalid_parameter (lit "relation_types holds " ++ show_Z (Z.of_nat (length types))
               ++ lit " entries but the limit is 256") [])
      else if bool_decide ([] ∈ types) then
        Err (invalid_parameter (lit "relation_types must not contain empty entries") [])
      else Ok (Some types)
  end.

Definition validated_traversal_args (max_graph_hops max_hops : Z) (direction : str)
    (relation_types : option (list str)) (max_results : Z) : result (Z * nat * option (list str)) CatalogError :=
  if bool_decide (direction ∈ TRAVERSAL_DIRECTIONS) then
    if (max_hops <? 1)%Z then
      Err (invalid_parameter (lit "max_hops must be at least 1, got " ++ show_Z max_hops) [])
    else
      let limit := to_limit max_graph_hops in
      let ceiling := if (limit <=? i32_max)%Z then limit else i32_max in
      let hops := Z.min max_hops (Z.max ceiling 1) in
      if (1 <=? max_results)%Z && (max_results <=? MAX_NEIGHBOR_RESULTS)%Z then
        let? types := validated_types relation_types in Ok (hops, Z.to_nat max_results, types)
      else
        Err (invalid_parameter (lit "max_results must be between 1 and 10000, got " ++ show_Z max_results) [])
  else Err (bad_direction direction).

Record TypedNeighborHit : Type := {
  th_start : node;
  th_node : node;
  th_hops : Z;
  th_path_bundle_ids : list Z;
  th_path_concept_ids : list str;
  th_relation_type : str
}.

(** By hops, bundle and concept. *)
Definition hit_key (h : TypedNeighborHit) : Z * node := (th_hops h, th_node h).
Definition typed_hit_le (a b : TypedNeighborHit) : bool :=
  match kcmp (hit_key a) (hit_key b) with Gt => false | _ => true end.

(** The nodes whose concept is still there, of an active bundle. *)
Definition annotated (d : Db) (start : node) (visits : list (node * TypedVisit)) : list TypedNeighborHit :=
  omap (fun '(n, record) =>
    if concept_visible d n then
      Some {| th_start := start; th_node := n; th_hops := tv_hops record;
              th_path_bundle_ids := tv_bundle_ids record; th_path_concept_ids := tv_concept_ids record;
              th_relation_type := tv_relation_type record |}
    else None) visits.

(** [max_graph_hops] is the setting [pgokf.max_graph_hops]. *)
Definition relationship_neighbors_impl (max_graph_hops : Z) (d : Db) (start : node) (max_hops : Z) (direction : str)
    (relation_types : option (list str)) (max_results : Z) : outcome (result (list TypedNeighborHit) CatalogError) :=
  match (let? _ := @authorize_current_user (session_backend d) Search [] in
         validated_traversal_args max_graph_hops max_hops direction relation_types max_results) with
  | Err e => Ret (Err e)
  | Ok (hops, max_results, types) =>
      if concept_visible d start then
        obind (typed_breadth_first (expand_typed_frontier d direction types) start hops max_results) (fun r => Ret
          (let? visits := r in
           Ok (take max_results (sort_by typed_hit_le (annotated d start visits)))))
      else Ret (Ok [])
  end.

End catalog.

(** ** Walks along typed edges *)

(** [twalk edge s p t]: [p] lists the nodes of a walk from [s] to [t]. *)
Inductive twalk (edge : node -> node -> str -> Prop) (s : node) : list node -> node -> Prop :=
| twalk_nil : twalk edge s [s] s
| twalk_snoc p u v ty : twalk edge s p u -> edge u v ty -> twalk edge s (p ++ [v]) v.

(** What a visit promises: its two arrays list a walk of [tv_hops] edges whose
    last edge has the recorded type, and no walk is shorter. *)
Definition visit_of (edge : node -> node -> str -> Prop) (s n : node) (r : TypedVisit) : Prop :=
  exists p, twalk edge s p n /\ tv_bundle_ids r = p.*1 /\ tv_concept_ids r = p.*2 /\
    Z.of_nat (length p) = (tv_hops r + 1)%Z /\
    (forall p', twalk edge s p' n -> (tv_hops r + 1 <= Z.of_nat (length p'))%Z) /\
    (tv_hops r = 0%Z \/ exists q u, p = q ++ [n] /\ twalk edge s q u /\ edge u n (tv_relation_type r)).

Lemma twalk_length edge s p t : twalk edge s p t -> 1 <= length p.
Proof. destruct 1; [done|]. rewrite length_app. cbn. lia. Qed.

Lemma visit_hops edge s n r : visit_of edge s n r -> (0 <= tv_hops r)%Z.
Proof. intros (p & Hw & _ & _ & Hl & _). apply twalk_length in Hw. lia. Qed.

Section walk_props.
Context {E : Type} (edges_from : list node -> result (list TypedEdge) E).
Context (edge : node -> node -> str -> Prop).
Context (Hedges : forall f es, edges_from f = Ok es ->
  forall e, e ∈ es <-> te_from e ∈ f /\ edge (te_from e) (te_to e) (te_type e)).
Context (seed : node) (max_results : nat).

(** Whatever is visited is visited rightly, and listed once. *)
Record sound (V : TypedVisited) (D : list node) : Prop := {
  so_seed : V !! seed = Some (seed_visit seed);
  so_good n r : V !! n = Some r -> visit_of edge seed n r;
  so_nodup : NoDup D;
  so_found n : n ∈ D <-> n <> seed /\ is_Some (V !! n);
  so_bound : length D <= max_results
}.

(** Before the level of hop count [h]. *)
Record at_level (h : Z) (V : TypedVisited) (D F : list node) : Prop := {
  al_sound : sound V D;
  al_hops n r : V !! n = Some r -> (tv_hops r < h)%Z;
  al_reach n p : twalk edge seed p n -> (Z.of_nat (length p) <= h)%Z -> is_Some (V !! n);
  al_frontier n : n ∈ F <-> exists r, V !! n = Some r /\ tv_hops r = (h - 1)%Z
}.

Lemma at_level_init : at_level 1 {[seed := seed_visit seed]} [] [seed].
Proof.
  split; [split| | |].
  - by rewrite lookup_singleton_eq.
  - intros n r [<- <-]%lookup_singleton_Some. exists [seed]. split_and!; [constructor|done..| |by left].
    intros p' Hp'. apply twalk_length in Hp'. cbn. lia.
  - constructor.
  - intros n. split; [by intros ?%not_elem_of_nil|].
    intros [Hne [r [? _]%lookup_singleton_Some]]. congruence.
  - cbn. lia.
  - intros n r [<- <-]%lookup_singleton_Some. cbn. lia.
  - intros n p Hw Hl. inversion Hw as [|p' u v ty Hw' He]; subst; [by rewrite lookup_singleton_eq|].
    apply twalk_length in Hw'. rewrite length_app in Hl. cbn in Hl. lia.
  - intros n. rewrite list_elem_of_singleton. split.
    + intros ->. rewrite lookup_singleton_eq. eauto.
    + by intros (r & [<- _]%lookup_singleton_Some & _).
Qed.

(** While the edges of level [h] are processed: what [V'] adds to [V]. *)
Record during (h : Z) (V : TypedVisited) (past : list TypedEdge) (V' : TypedVisited) (D' N : list node) : Prop := {
  du_sound : sound V' D';
  du_sub : V ⊆ V';
  du_new n r : V !! n = None -> V' !! n = Some r -> tv_hops r = h;
  du_next n : n ∈ N <-> V !! n = None /\ is_Some (V' !! n);
  du_past e : e ∈ past -> is_Some (V' !! te_to e)
}.

Lemma during_step h V D F past e V' D' N :
  at_level h V D F -> te_from e ∈ F -> edge (te_from e) (te_to e) (te_type e) ->
  during h V past V' D' N -> V' !! te_to e = None -> length D' < max_results ->
  exists r, V' !! te_from e = Some r /\
    during h V (past ++ [e])
      (<[te_to e := {| tv_hops := h; tv_bundle_ids := tv_bundle_ids r ++ [(te_to e).1];
                       tv_concept_ids := tv_concept_ids r ++ [(te_to e).2]; tv_relation_type := te_type e |}]> V')
      (D' ++ [te_to e]) (N ++ [te_to e]).
Proof.
  intros L Hs He M Et Hmax. destruct e as [s t ty]. cbn [te_from te_to te_type] in *.
  apply (al_frontier _ _ _ _ L) in Hs as (rs & Hrs & Hh).
  destruct (so_good _ _ (al_sound _ _ _ _ L) _ _ Hrs) as (p & Hw & Hb & Hc & Hlen & _).
  pose proof (lookup_weaken _ _ _ _ Hrs (du_sub _ _ _ _ _ _ M)) as Hrs'. exists rs. split; [done|].
  assert (V !! t = None) as HtV.
  { destruct (V !! t) eqn:HtV; [|done]. by rewrite (lookup_weaken _ _ _ _ HtV (du_sub _ _ _ _ _ _ M)) in Et. }
  assert (t <> seed) as Hne.
  { intros ->. by rewrite (so_seed _ _ (du_sound _ _ _ _ _ _ M)) in Et. }
  pose proof (du_sound _ _ _ _ _ _ M) as S. split; [split| | | |].
  - rewrite lookup_insert_ne by done. apply S.
  - intros n r [[<- <-]|[Hn Hr]]%lookup_insert_Some; [|by eapply so_good].
    exists (p ++ [t]). rewrite !fmap_app, Hb, Hc, length_app. cbn. split_and!; [by econstructor|done..|lia| |].
    + intros p' Hp'. destruct (decide (Z.of_nat (length p') <= h)%Z) as [Hle|]; [|lia].
      destruct (al_reach _ _ _ _ L _ _ Hp' Hle) as [? ?]. congruence.
    + right. eauto.
  - apply NoDup_app. split_and!; [apply S| |apply NoDup_singleton].
    intros x Hx ->%list_elem_of_singleton. apply (so_found _ _ S) in Hx as [_ Hx]. rewrite Et in Hx. by destruct Hx.
  - intros n. rewrite elem_of_app, list_elem_of_singleton, (so_found _ _ S), lookup_insert_is_Some'. naive_solver.
  - rewrite length_app. cbn. lia.
  - etrans; [apply M|]. by apply insert_subseteq.
  - intros n r Hn [[<- <-]|[? Hr]]%lookup_insert_Some; [done|by eapply du_new].
  - intros n. rewrite elem_of_app, list_elem_of_singleton, (du_next _ _ _ _ _ _ M), lookup_insert_is_Some'.
    naive_solver.
  - intros e [Hd| ->%list_elem_of_singleton]%elem_of_app; apply lookup_insert_is_Some'; [|by left].
    right. by eapply du_past.
Qed.

Lemma during_level h V D F es past V' D' N :
  at_level h V D F -> (forall e, e ∈ es -> te_from e ∈ F /\ edge (te_from e) (te_to e) (te_type e)) ->
  during h V past V' D' N ->
  exists V'' D'' N'', typed_level max_results h es V' D' N = Ret (V'', D'', N'') /\
    ((during h V (past ++ es) V'' D'' N'' /\ length D' <= length D'') \/
     (exists past', during h V past' V'' D'' N'' /\ length D'' = max_results)).
Proof.
  intros L. revert past V' D' N. induction es as [|e es IH]; intros past V' D' N Hes M; cbn [typed_level].
  - do 3 eexists. split; [done|]. left. by rewrite app_nil_r.
  - pose proof (so_bound _ _ (du_sound _ _ _ _ _ _ M)) as Hb.
    destruct (Nat.leb_spec max_results (length D')) as [Hm|Hm].
    { do 3 eexists. split; [done|]. right. exists past. split; [done|lia]. }
    destruct (Hes e) as [Hs He]; [by left|].
    assert (forall e', e' ∈ es -> te_from e' ∈ F /\ edge (te_from e') (te_to e') (te_type e')) as Hes'
      by (intros; apply Hes; by right).
    destruct (V' !! te_to e) as [rt|] eqn:Et.
    + rewrite cons_middle, app_assoc. apply IH; [done|]. split; try apply M.
      intros e' [?| ->%list_elem_of_singleton]%elem_of_app; [by eapply du_past|by rewrite Et].
    + destruct (during_step _ _ _ _ _ _ _ _ _ L Hs He M Et Hm) as (r & -> & M').
      destruct (IH _ _ _ _ Hes' M') as (V'' & D'' & N'' & -> & H). do 3 eexists. split; [done|].
      rewrite <- app_assoc in H. destruct H as [[H Hl]|H]; [left|by right]. split; [done|].
      rewrite length_app in Hl. lia.
Qed.

Lemma next_level h V D F es V' D' N :
  at_level h V D F -> (0 < h)%Z -> edges_from F = Ok es -> during h V es V' D' N -> at_level (h + 1) V' D' N.
Proof.
  intros L Hh Hes M.
  assert (forall n r, V' !! n = Some r -> V !! n = Some r \/ (V !! n = None /\ tv_hops r = h)) as Hsplit.
  { intros n r Hr. destruct (V !! n) as [r'|] eqn:HV.
    - left. by rewrite (lookup_weaken _ _ _ _ HV (du_sub _ _ _ _ _ _ M)) in Hr.
    - right. split; [done|]. by eapply du_new. }
  split; [apply M| | |].
  - intros n r [HV|[_ ->]]%Hsplit; [|lia]. pose proof (al_hops _ _ _ _ L _ _ HV). lia.
  - intros n p Hw Hl. destruct (decide (Z.of_nat (length p) <= h)%Z) as [Hle|Hgt].
    { destruct (al_reach _ _ _ _ L _ _ Hw Hle) as [r Hr]. exists r. by eapply lookup_weaken; [|apply M]. }
    inversion Hw as [|p' u v ty Hw' He]; subst; [cbn in Hgt; lia|].
    rewrite length_app in Hl, Hgt. cbn in Hl, Hgt.
    destruct (al_reach _ _ _ _ L u p' Hw') as [ru Hru]; [lia|].
    destruct (so_good _ _ (al_sound _ _ _ _ L) _ _ Hru) as (q & Hq & _ & _ & Hlq & Hmin & _).
    pose proof (Hmin _ Hw'). pose proof (al_hops _ _ _ _ L _ _ Hru).
    destruct (decide (tv_hops ru = h - 1)%Z) as [Heq|Hne].
    + assert ({| te_from := u; te_to := n; te_type := ty |} ∈ es) as Hin.
      { apply (Hedges _ _ Hes). split; [|done]. apply (al_frontier _ _ _ _ L). eauto. }
      apply (du_past _ _ _ _ _ _ M) in Hin. done.
    + destruct (al_reach _ _ _ _ L n (q ++ [n])) as [r Hr].
      * by econstructor.
      * rewrite length_app. cbn. lia.
      * exists r. by eapply lookup_weaken; [|apply M].
  - intros n. rewrite (du_next _ _ _ _ _ _ M). split.
    + intros [HV [r Hr]]. exists r. split; [done|]. pose proof (du_new _ _ _ _ _ _ M _ _ HV Hr). lia.
    + intros (r & Hr & Hhr). destruct (Hsplit _ _ Hr) as [HV|[HV _]]; [|by eauto].
      pose proof (al_hops _ _ _ _ L _ _ HV). lia.
Qed.

(** An empty frontier means that every reachable node has been visited. *)
Lemma closed_level h V D n p : at_level h V D [] -> twalk edge seed p n -> is_Some (V !! n).
Proof.
  intros L. induction 1 as [|p u v ty Hw [ru Hru] He].
  - rewrite (so_seed _ _ (al_sound _ _ _ _ L)). done.
  - destruct (so_good _ _ (al_sound _ _ _ _ L) _ _ Hru) as (q & Hq & _ & _ & Hlq & _).
    pose proof (al_hops _ _ _ _ L _ _ Hru).
    assert (tv_hops ru <> h - 1)%Z as Hne.
    { intros Heq. assert (u ∈ []) as ?%not_elem_of_nil; [|done]. apply (al_frontier _ _ _ _ L). eauto. }
    apply (al_reach _ _ _ _ L v (q ++ [v])); [by econstructor|]. rewrite length_app. cbn. lia.
Qed.

(** The loop ends within its fuel: at the ceiling, or with everything within
    [m] hops. *)
Lemma typed_loop_ok m h V D F :
  at_level h V D F -> (0 < h <= m + 1)%Z -> (m < i32_max)%Z ->
  exists r, typed_loop edges_from (S (Z.to_nat (m + 1 - h))) m max_results h V D F = Ret r /\
    match r with
    | Err e => exists f, edges_from f = Err e
    | Ok (V', D') => sound V' D' /\ (forall n r, V' !! n = Some r -> (tv_hops r <= m)%Z) /\ (length D' = max_results \/
        forall n p, twalk edge seed p n -> (Z.of_nat (length p) <= m + 1)%Z -> is_Some (V' !! n))
    end.
Proof.
  intros L Hh Hm. remember (Z.to_nat (m + 1 - h)) as k eqn:Hk.
  revert h V D F L Hh Hk. induction k as [|k IH]; intros h V D F L Hh Hk; cbn [typed_loop].
  - assert (h = m + 1)%Z as -> by lia. rewrite (proj2 (Z.leb_gt _ _)) by lia. cbn.
    eexists. split; [done|]. split; [apply L|]. split; [|right; intros n p Hw Hl; by eapply al_reach].
    intros n r Hr. pose proof (al_hops _ _ _ _ L _ _ Hr). lia.
  - assert (forall n r, V !! n = Some r -> (tv_hops r <= m)%Z) as Hhops.
    { intros n r Hr. pose proof (al_hops _ _ _ _ L _ _ Hr). lia. }
    rewrite (proj2 (Z.leb_le h m)) by lia. cbn [andb]. case_bool_decide as HF; cbn [negb andb].
    { eexists. split; [done|]. subst F. split; [apply L|]. split; [done|]. right. intros n p Hw _. by eapply closed_level. }
    pose proof (so_bound _ _ (al_sound _ _ _ _ L)) as Hb.
    destruct (Nat.ltb_spec (length D) max_results) as [Hlt|Hge].
    2: { eexists. split; [done|]. split; [apply L|]. split; [done|left; lia]. }
    destruct (edges_from F) as [es|e] eqn:Hes; [|exists (Err e); split; [done|by exists F]].
    destruct (during_level h V D F es [] V D []) as (V' & D' & N & -> & H); [done| | |].
    { intros e He. by apply (Hedges _ _ Hes). }
    { split; [apply L|done|intros; congruence| |by intros ? ?%not_elem_of_nil].
      intros n. split; [by intros ?%not_elem_of_nil|]. intros [Hn Hs]. rewrite Hn in Hs. by destruct Hs. }
    cbn [obind]. rewrite (proj2 (Z.eqb_neq h i32_max)) by lia. destruct H as [[M _]|(past' & M & Hl)].
    + apply IH; [by eapply next_level; try lia|lia..].
    + exists (Ok (V', D')). split; [|split; [apply M|split; [|by left]]].
      2: { intros n r Hr. destruct (V !! n) as [r'|] eqn:HV; [|pose proof (du_new _ _ _ _ _ _ M _ _ HV Hr); lia].
           rewrite (lookup_weaken _ _ _ _ HV (du_sub _ _ _ _ _ _ M)) in Hr. injection Hr as <-. by eapply Hhops. }
      destruct k as [|k]; cbn [typed_loop]; rewrite (proj2 (Nat.ltb_ge _ _)), andb_false_r by lia; done.
Qed.

Lemma typed_detach_ok V D :
  NoDup D -> (forall n, n ∈ D -> is_Some (V !! n)) ->
  exists l, typed_detach V D = Ret l /\ l.*1 = D /\ forall n r, (n, r) ∈ l -> V !! n = Some r.
Proof.
  intros Hnd. revert V. induction Hnd as [|n D Hn Hnd IH]; intros V Hin; cbn [typed_detach].
  - exists []. split_and!; [done..|]. by intros ? ? ?%not_elem_of_nil.
  - destruct (Hin n) as [r Hr]; [by left|]. rewrite Hr.
    destruct (IH (delete n V)) as (l & -> & Hl & Hin').
    { intros n' Hn'. rewrite lookup_delete_ne; [apply Hin; by right|]. by intros ->. }
    exists ((n, r) :: l). cbn. split_and!; [done|by rewrite Hl|].
    intros n' r' [[= -> ->]|Hn']%elem_of_cons; [done|].
    apply Hin', lookup_delete_Some in Hn' as [_ ?]. done.
Qed.

(** What a traversal of at most [m] hops and [max_results] nodes returns. *)
Record typed_neighborhood (m : Z) (visits : list (node * TypedVisit)) : Prop := {
  tn_nodup : NoDup visits.*1;
  tn_bound : length visits <= max_results;
  tn_visit n r : (n, r) ∈ visits -> n <> seed /\ visit_of edge seed n r /\ (tv_hops r <= m)%Z;
  tn_complete n p : length visits < max_results -> n <> seed -> twalk edge seed p n ->
    (Z.of_nat (length p) <= m + 1)%Z -> n ∈ visits.*1
}.

Lemma typed_bfs_ok m : (0 <= m < i32_max)%Z ->
  exists r, typed_breadth_first edges_from seed m max_results = Ret r /\
    match r with
    | Err e => exists f, edges_from f = Err e
    | Ok visits => typed_neighborhood m visits
    end.
Proof.
  intros Hm. unfold typed_breadth_first.
  destruct (typed_loop_ok m 1 _ _ _ at_level_init) as (r & Hr & Hspec); [lia..|].
  replace (m + 1 - 1)%Z with m in Hr by lia. rewrite Hr. cbn [obind].
  destruct r as [[V D]|e]; [|by exists (Err e)]. destruct Hspec as (S & Hhops & Hend).
  destruct (typed_detach_ok V D) as (l & Hl & HD & Hlook); [apply S| |].
  { intros n Hn. by apply (so_found _ _ S) in Hn as [_ ?]. }
  rewrite Hl. cbn [obind]. exists (Ok l). split; [done|].
  assert (length l = length D) as Hlen by (by rewrite <- HD, length_fmap).
  split.
  - rewrite HD. apply S.
  - rewrite Hlen. apply S.
  - intros n r Hnr. split; [|split; [by eapply so_good, Hlook|by eapply Hhops, Hlook]].
    assert (n ∈ D) as Hn by (rewrite <- HD; apply list_elem_of_fmap; by exists (n, r)).
    by apply (so_found _ _ S) in Hn as [? _].
  - intros n p Hlt Hne Hw Hp. rewrite HD. apply (so_found _ _ S). split; [done|].
    destruct Hend as [?|Hall]; [lia|by eapply Hall].
Qed.

End walk_props.

(** ** The entry point *)

Section entry.
Context `{Ses : Session, EO : EdgeOrder, EL : !EdgeOrderLaws}.

(** The row points at a concept. *)
Definition target_is (r : RelationRow) (v : node) : Prop :=
  (rl_target_bundle r, rl_target_concept r) = (Some v.1, Some v.2).

(** The edges a direction follows: a resolved current row of a selected type,
    from source to target outbound, from target to source inbound, and an
    undirected one both ways. *)
Definition follows (d : Db) (direction : str) (types : option (list str)) (u v : node) (ty : str) : Prop :=
  exists r, r ∈ resolved_rows d types /\ rl_type r = ty /\
    ((source_node r = u /\ target_is r v /\
      (outward direction || inward direction && undirected r) = true) \/
     (target_is r u /\ source_node r = v /\
      (inward direction || outward direction && undirected r) = true)).

(** The order of the result. *)
Definition hit_before (a b : TypedNeighborHit) : Prop := kcmp (hit_key a) (hit_key b) <> Gt.

#[local] Opaque resolved_rows.

Lemma leaving_spec d f types p u v ty :
  (u.1, u.2, Some v.1, Some v.2, ty) ∈ leaving d f types p <->
  u ∈ f /\ exists r, r ∈ resolved_rows d types /\ rl_type r = ty /\ source_node r = u /\
    target_is r v /\ p r = true.
Proof.
  unfold leaving, target_is. rewrite list_elem_of_fmap. setoid_rewrite elem_of_filter_list.
  setoid_rewrite andb_true_iff. setoid_rewrite bool_decide_eq_true.
  destruct u as [ub uc], v as [vb vc]. cbn. split.
  - intros (r & [= -> -> Hb Hc ->] & Hr & Hs & Hp). split; [done|]. exists r. by rewrite <- Hb, <- Hc.
  - intros (Hu & r & Hr & <- & Hs & [= Hb Hc] & Hp). exists r. rewrite Hs, Hb, Hc.
    unfold source_node in Hs. injection Hs as -> ->. done.
Qed.

Lemma entering_spec d f types p u v ty :
  (u.1, u.2, Some v.1, Some v.2, ty) ∈ entering d f types p <->
  u ∈ f /\ exists r, r ∈ resolved_rows d types /\ rl_type r = ty /\ source_node r = v /\
    target_is r u /\ p r = true.
Proof.
  unfold entering, target_is. rewrite list_elem_of_omap. setoid_rewrite elem_of_filter_list.
  setoid_rewrite andb_true_iff. unfold target_in. destruct u as [ub uc], v as [vb vc]. cbn. split.
  - intros (r & (Hr & Ht & Hp) & Hx). destruct (rl_target_bundle r) eqn:Eb, (rl_target_concept r) eqn:Ec; try done.
    cbn in Hx. apply bool_decide_eq_true in Ht. unfold source_node in *. simplify_eq. split; [done|].
    exists r. by rewrite Eb, Ec.
  - intros (Hu & r & Hr & <- & Hs & [= Hb Hc] & Hp). exists r. rewrite Hb, Hc. cbn. rewrite bool_decide_eq_true.
    unfold source_node in Hs. injection Hs as -> ->. done.
Qed.

(** Every row of the edge queries has its [from] columns and, when it is read,
    its [to] columns. *)
Lemma read_rows l es : rmap_list read_edge l = Ok es ->
  forall u v ty, {| te_from := u; te_to := v; te_type := ty |} ∈ es <-> (u.1, u.2, Some v.1, Some v.2, ty) ∈ l.
Proof.
  intros Hes%rmap_list_ok u v ty. split.
  - intros Hin. destruct (Forall2_elem_r _ _ _ _ Hes Hin) as ([[[[b c] [b'|]] [c'|]] ty'] & Hl & Hr); try done.
    cbn in Hr. by injection Hr as <- <- <-.
  - intros Hin. destruct (Forall2_elem_l _ _ _ _ Hes Hin) as ([f' t' ty'] & Hl & Hr).
    cbn in Hr. injection Hr as <- <- <-. by destruct u, v.
Qed.

Lemma expand_follows d direction types f es :
  expand_typed_frontier d direction types f = Ok es ->
  forall e, e ∈ es <-> te_from e ∈ f /\ follows d direction types (te_from e) (te_to e) (te_type e).
Proof.
  unfold expand_typed_frontier. intros H [u v ty]. cbn [te_from te_to te_type].
  apply rbind_ok in H as (fs & Hf & H). apply rbind_ok in H as (bs & Hb & [= <-]).
  rewrite elem_of_app. assert ({| te_from := u; te_to := v; te_type := ty |} ∈ fs <->
    outward direction = true /\ (u.1, u.2, Some v.1, Some v.2, ty) ∈ forward_edges d f types) as ->.
  { destruct (outward direction); [|injection Hf as <-]; [|by rewrite elem_of_nil; naive_solver].
    rewrite (read_rows _ _ Hf). naive_solver. }
  assert ({| te_from := u; te_to := v; te_type := ty |} ∈ bs <->
    inward direction = true /\ (u.1, u.2, Some v.1, Some v.2, ty) ∈ backward_edges d f types) as ->.
  { destruct (inward direction); [|injection Hb as <-]; [|by rewrite elem_of_nil; naive_solver].
    rewrite (read_rows _ _ Hb). naive_solver. }
  unfold forward_edges, backward_edges. rewrite !order_edges_perm, !elem_of_app, !leaving_spec, !entering_spec.
  unfold follows. setoid_rewrite orb_true_iff. setoid_rewrite andb_true_iff. naive_solver.
Qed.

#[export] Instance hit_before_trans : Transitive hit_before.
Proof.
  unfold hit_before. intros a b c H1 H2 Hgt.
  destruct (kcmp (hit_key a) (hit_key b)) eqn:E1; [| |done].
  - apply kcmp_eq in E1. by rewrite E1 in Hgt.
  - destruct (kcmp (hit_key b) (hit_key c)) eqn:E2; [| |done].
    + apply kcmp_eq in E2. by rewrite <- E2, E1 in Hgt.
    + by rewrite (kcmp_trans _ _ _ E1 E2) in Hgt.
Qed.

(** The neighbours of a concept, as the SQL surface promises them, within [m]
    hops and at most [max_results] of them. *)
Record typed_promise (d : Db) (start : node) (m : Z) (direction : str) (types : option (list str))
    (max_results : nat) (hits : list TypedNeighborHit) : Prop := {
  tp_sorted : StronglySorted hit_before hits;
  tp_once : NoDup (th_node <$> hits);
  tp_bound : length hits <= max_results;
  tp_sound h : h ∈ hits -> th_start h = start /\ th_node h <> start /\ concept_visible d (th_node h) = true /\
    (1 <= th_hops h <= m)%Z /\
    visit_of (follows d direction types) start (th_node h)
      {| tv_hops := th_hops h; tv_bundle_ids := th_path_bundle_ids h; tv_concept_ids := th_path_concept_ids h;
         tv_relation_type := th_relation_type h |};
  tp_complete :
    (exists l, NoDup l /\ length l = max_results /\ forall n, n ∈ l -> n <> start /\
       (exists p, twalk (follows d direction types) start p n /\ (Z.of_nat (length p) <= m + 1)%Z) /\
       (concept_visible d n = true -> n ∈ th_node <$> hits)) \/
    forall n p, n <> start -> twalk (follows d direction types) start p n -> (Z.of_nat (length p) <= m + 1)%Z ->
      concept_visible d n = true -> n ∈ th_node <$> hits
}.

Lemma annotated_elem d start visits h : h ∈ annotated d start visits <->
  exists n r, (n, r) ∈ visits /\ concept_visible d n = true /\
    h = {| th_start := start; th_node := n; th_hops := tv_hops r; th_path_bundle_ids := tv_bundle_ids r;
           th_path_concept_ids := tv_concept_ids r; th_relation_type := tv_relation_type r |}.
Proof.
  unfold annotated. rewrite list_elem_of_omap. split.
  - intros ([n r] & Hin & Hh). destruct (concept_visible d n) eqn:Hv; [|done]. injection Hh as <-. eauto.
  - intros (n & r & Hin & Hv & ->). exists (n, r). by rewrite Hv.
Qed.

Lemma annotated_sub d start visits : th_node <$> annotated d start visits `sublist_of` visits.*1.
Proof.
  induction visits as [|[n r] visits IH]; [constructor|]. cbn. destruct (concept_visible d n); cbn; by constructor.
Qed.

Lemma pack_typed d start m direction types mx visits :
  typed_neighborhood (follows d direction types) start mx m visits ->
  typed_promise d start m direction types mx (take mx (sort_by typed_hit_le (annotated d start visits))).
Proof.
  intros N. set (hits := annotated d start visits).
  assert (length hits <= length visits) as Hlen.
  { unfold hits. pose proof (sublist_length _ _ (annotated_sub d start visits)) as H. by rewrite !length_fmap in H. }
  pose proof (tn_bound _ _ _ _ _ N) as Hb.
  rewrite take_ge by (rewrite sort_by_perm; lia). split.
  - apply sort_by_sorted; [apply _| |].
    + intros a b. unfold typed_hit_le, hit_before. by destruct (kcmp (hit_key a) (hit_key b)).
    + intros a b. unfold typed_hit_le, hit_before. rewrite (kcmp_antisym (hit_key a) (hit_key b)).
      by destruct (kcmp (hit_key a) (hit_key b)).
  - rewrite sort_by_perm. eapply sublist_NoDup; [apply (tn_nodup _ _ _ _ _ N)|apply annotated_sub].
  - rewrite sort_by_perm. lia.
  - intros h. rewrite sort_by_perm. intros (n & r & Hin & Hv & ->)%annotated_elem. cbn.
    destruct (tn_visit _ _ _ _ _ N _ _ Hin) as (Hne & Hvis & Hm). split_and!; [done..| |done|by destruct r].
    pose proof (visit_hops _ _ _ _ Hvis). destruct (decide (tv_hops r = 0)%Z) as [H0|]; [exfalso|lia].
    destruct Hvis as (p & Hw & _ & _ & Hl & _). inversion Hw as [|q u v ty Hq]; subst; [done|].
    apply twalk_length in Hq. rewrite length_app in Hl. cbn in Hl. lia.
  - assert (forall n, n ∈ visits.*1 -> concept_visible d n = true -> n ∈ th_node <$> sort_by typed_hit_le hits) as Hin.
    { intros n ([n' r] & -> & Hin)%list_elem_of_fmap Hv. apply list_elem_of_fmap. eexists.
      split; [|rewrite sort_by_perm; apply annotated_elem; by exists n', r]. done. }
    destruct (decide (length visits < mx)) as [Hlt|Hge].
    + right. intros n p Hne Hw Hp Hv. apply Hin; [by eapply tn_complete|done].
    + left. exists visits.*1. split_and!; [apply N|rewrite length_fmap; lia|].
      intros n Hn. split_and!; [| |by apply Hin]; apply list_elem_of_fmap in Hn as ([n' r] & -> & Hnr);
        destruct (tn_visit _ _ _ _ _ N _ _ Hnr) as (Hne & (p & Hw & _ & _ & Hl & _) & Hm); [done|].
      exists p. split; [done|cbn in *; lia].
Qed.

(** What the arguments of an accepted call satisfy, and what its call becomes. *)
Lemma validated_args_ok guc m direction types mx hops n types' : (1 <= guc <= 1000)%Z ->
  validated_traversal_args guc m direction types mx = Ok (hops, n, types') ->
  direction ∈ TRAVERSAL_DIRECTIONS /\ (1 <= m)%Z /\ hops = Z.min m guc /\ (1 <= mx <= 10000)%Z /\ n = Z.to_nat mx /\
  types' = match types with Some [] => None | t => t end.
Proof.
  intros Hg. unfold validated_traversal_args, to_limit. case_bool_decide as Hd; [|done].
  rewrite (proj2 (Z.ltb_ge guc 0)) by lia. rewrite (proj2 (Z.leb_le guc i32_max)) by (unfold i32_max; lia).
  destruct (Z.ltb_spec m 1); [done|]. destruct (_ && _) eqn:Hm; [|done]. unfold MAX_NEIGHBOR_RESULTS in Hm. bool_prop.
  intros (t & Ht & [= <- <- <-])%rbind_ok. split_and!; [done|lia|f_equal; lia|lia..|].
  unfold validated_types in Ht. destruct types as [[|x l]|]; [by injection Ht as <-| |by injection Ht as <-].
  destruct (_ <? _)%nat; [done|]. case_bool_decide; [done|]. by injection Ht as <-.
Qed.

(** The call by cases. *)
Lemma relationship_neighbors_cases (guc : Z) (d : Db) (start : node) (m : Z) (direction : str)
    (types : option (list str)) (mx : Z) (Hguc : (1 <= guc <= 1000)%Z) :
  exists r, relationship_neighbors_impl guc d start m direction types mx = Ret r /\
    match r with
    | Ok hits =>
        @authorize_current_user (session_backend d) Search [] = Ok tt /\
        direction ∈ TRAVERSAL_DIRECTIONS /\ (1 <= m)%Z /\ (1 <= mx <= 10000)%Z /\
        if concept_visible d start then
          typed_promise d start (Z.min m guc) direction (match types with Some [] => None | t => t end) (Z.to_nat mx) hits
        else hits = []
    | Err e =>
        @authorize_current_user (session_backend d) Search [] = Err e \/
        validated_traversal_args guc m direction types mx = Err e \/
        exists types' frontier, expand_typed_frontier d direction types' frontier = Err e
    end.
Proof.
  unfold relationship_neighbors_impl.
  destruct (@authorize_current_user (session_backend d) Search []) as [[]|e]; cbn [rbind];
    [|exists (Err e); split; [done|by left]].
  destruct (validated_traversal_args _ _ _ _ _) as [[[hops n] types']|e] eqn:Hv;
    [|exists (Err e); split; [done|right; by left]].
  apply validated_args_ok in Hv as (Hd & Hm & -> & Hx & -> & ->); [|done].
  destruct (concept_visible d start) eqn:Hs; [|exists (Ok []); split_and!; done || lia].
  destruct (typed_bfs_ok (expand_typed_frontier d direction (match types with Some [] => None | t => t end)) _
    (expand_follows d direction _) start (Z.to_nat mx) (Z.min m guc)) as (r & -> & Hr); [unfold i32_max; lia|].
  cbn [obind]. eexists. split; [done|]. destruct r as [visits|e]; cbn [rbind].
  - do 2 (split; [done|]). do 2 (split; [lia|]). by apply pack_typed.
  - right; right. destruct Hr as [f Hf]. eauto.
Qed.

(** C20: [concept_relationship_neighbors] never panics.  A successful call came
    from a reader with arguments in range; a start concept that is unknown, or
    of a bundle the session does not see, has no neighbours; otherwise the call
    returns, ordered by hops, bundle and concept, other visible concepts that
    the current typed relationships reach within the capped number of hops in
    the given direction, each once, with the least number of hops, a walk of
    that length and the type of its last edge; and it returns all of them
    unless it found [max_results] concepts within reach, of which it returns the
    visible ones.  A failing call was refused authorization, had an argument out of range, or read a row without a
    target. *)
Theorem typed_neighbors_exact (guc : Z) (d : Db) (start : node) (m : Z) (direction : str)
    (types : option (list str)) (mx : Z) (Hguc : (1 <= guc <= 1000)%Z) :
  exists r, relationship_neighbors_impl guc d start m direction types mx = Ret r /\
    match r with
    | Ok hits =>
        @authorize_current_user (session_backend d) Search [] = Ok tt /\
        direction ∈ TRAVERSAL_DIRECTIONS /\ (1 <= m)%Z /\ (1 <= mx <= 10000)%Z /\
        if concept_visible d start then
          typed_promise d start (Z.min m guc) direction (match types with Some [] => None | t => t end) (Z.to_nat mx) hits
        else hits = []
    | Err e =>
        @authorize_current_user (session_backend d) Search [] = Err e \/
        validated_traversal_args guc m direction types mx = Err e \/
        exists types' frontier, expand_typed_frontier d direction types' frontier = Err e
    end.
Proof. by apply relationship_neighbors_cases. Qed.

End entry.

(** ** A concrete graph *)

Definition demo_edge_order : EdgeOrder := {| order_edges l := l |}.

Lemma demo_edge_laws : @EdgeOrderLaws demo_edge_order.
Proof. by split. Qed.

Definition demo_edge (bundle : Z) (source : string) (direction : string) (target : option (Z * str)) : RelationRow :=
  {| rl_publication := 1; rl_ordinal := 1; rl_tenant := lit "default"; rl_source_bundle := bundle;
     rl_source_concept := lit source; rl_type := lit "doc:cites"; rl_direction := lit direction;
     rl_target_bundle := fst <$> target; rl_target_concept := snd <$> target; rl_external_target := None;
     rl_location := None; rl_confidence := None; rl_unresolved := bool_decide (target = None);
     rl_cross_bundle := false; rl_provenance := None; rl_hash := [] |}.

(** [a] cites [b], [b] and [c] are related, [c] cites [a], and [c] cites [d] of
    another bundle. *)
Definition demo_graph : Db :=
  {| bundles := {[1%Z := demo_bundle (lit "/one") 1; 2%Z := demo_bundle (lit "/two") 1]};
     bundle_freshness := ∅; concept_freshness := ∅; freshness_dependency := [];
     publication_fence := ∅; catalog_change_event := [];
     relationship_publication :=
       [{| pub_id := 1; pub_tenant := lit "default"; pub_producer := lit "p"; pub_bundle := Some 1%Z;
           pub_bundle_path := lit "/one"; pub_generation := 1; pub_expected := 1; pub_activated := Some 1%Z;
           pub_token := 1; pub_set_hash := []; pub_idempotency_key := []; pub_manifest_hash := None;
           pub_state := lit "active"; pub_row_count := 4; pub_created_at := 0; pub_activated_at := None;
           pub_updated_at := 0 |}];
     relationship := [demo_edge 1 "a" "directed" (Some (1%Z, lit "b")); demo_edge 1 "c" "undirected" (Some (1%Z, lit "b"));
                      demo_edge 1 "c" "directed" (Some (1%Z, lit "a")); demo_edge 1 "c" "directed" (Some (2%Z, lit "d"));
                      demo_edge 1 "a" "directed" None];
     concepts := list_to_set [(1%Z, lit "a"); (1%Z, lit "b"); (1%Z, lit "c"); (2%Z, lit "d")];
     sync_log := [];
     config := default_config;
     bundle_seq := 2; dependency_seq := 0; event_seq := 0; publication_seq := 1; log_seq := 0 |}.

Abbreviation demo_walk m mx :=
  (@relationship_neighbors_impl demo_session demo_edge_order 5 demo_graph (1%Z, lit "a") m (lit "outbound") None mx).

Definition hit_of (n : node) (hops : Z) (path : list node) : TypedNeighborHit :=
  {| th_start := (1%Z, lit "a"); th_node := n; th_hops := hops; th_path_bundle_ids := path.*1;
     th_path_concept_ids := path.*2; th_relation_type := lit "doc:cites" |}.

Example demo_walk_found :
  demo_walk 7 500 = Ret (Ok
    [hit_of (1%Z, lit "b") 1 [(1%Z, lit "a"); (1%Z, lit "b")];
     hit_of (1%Z, lit "c") 2 [(1%Z, lit "a"); (1%Z, lit "b"); (1%Z, lit "c")];
     hit_of (2%Z, lit "d") 3 [(1%Z, lit "a"); (1%Z, lit "b"); (1%Z, lit "c"); (2%Z, lit "d")]]).
Proof. by_eval. Qed.

Lemma typed_neighbors_exact_witness :
  exists hits, demo_walk 7 500 = Ret (Ok hits) /\ length hits = 3 /\
    @typed_promise demo_session demo_graph (1%Z, lit "a") 5 (lit "outbound") None 500 hits.
Proof.
  destruct (@typed_neighbors_exact demo_session demo_edge_order demo_edge_laws 5 demo_graph (1%Z, lit "a") 7
              (lit "outbound") None 500) as (r & H & Hr); [lia|].
  eexists. split; [exact demo_walk_found|]. split; [done|].
  pose proof (eq_trans (eq_sym H) demo_walk_found) as [= ->]. destruct Hr as (_ & _ & _ & _ & Hr). exact Hr.
Defined.
