(* ===== verification/Selection.v ===== *)
(** * What goes into a plugin ([pgokf-workspace/src/selection.rs])

    A selection is resolved against the rows a session sees: the selectors
    and the picks through one statement, the seeds through the typed
    relationships ([TypedWalk]), every record's freshness through
    the bundle and concept rows of [pgokf.effective_freshness], and then the stale policy.  [Reader] is the
    connection: the contents of its snapshot and which statements fail.
    Timestamps stay [timestamptz]; a [usize] of a selection is a [Z]. *)
From stdpp Require Import prelude strings gmap list sorting.
From Stdlib Require Import Ascii ZArith Lia.
From S2P Require Import Prelude Str BTree CatalogError Security Catalog TypedWalk.

Definition MAX_CONCEPTS : Z := 500.
Definition MAX_PACKAGE_MEMBERS : nat := 2000.
Definition MAX_CONTENT_BYTES : Z := 256 * 1024 * 1024.
Definition DEFAULT_LIMIT : Z := 100.
Definition DEFAULT_HOPS : Z := 2.
Definition MAX_HOPS : Z := 8.

(** ** Selectors *)

Inductive StalePolicy : Type := Warn | Exclude.
#[export] Instance StalePolicy_eq_dec : EqDecision StalePolicy.
Proof. solve_decision. Defined.

Definition stale_policy_id (p : StalePolicy) : str :=
  match p with Warn => lit "warn" | Exclude => lit "exclude" end.
Definition stale_policy_parse (id : str) : option StalePolicy :=
  let id := trim id in
  if decide (id = lit "warn") then Some Warn else if decide (id = lit "exclude") then Some Exclude else None.

Inductive Direction : Type := Outbound | Inbound | Both.
#[export] Instance Direction_eq_dec : EqDecision Direction.
Proof. solve_decision. Defined.

Definition direction_id (d : Direction) : str :=
  match d with Outbound => lit "outbound" | Inbound => lit "inbound" | Both => lit "both" end.
Definition direction_parse (id : str) : option Direction :=
  let id := trim id in
  if decide (id = lit "outbound") then Some Outbound
  else if decide (id = lit "inbound") then Some Inbound
  else if decide (id = lit "both") then Some Both else None.

(** [ConceptRef] is a [node]: the bundle, and the concept's id. *)
Definition parse_ref (text : str) : option node :=
  '(bundle, id) ← split_once ":"%char (trim text);
  bundle_id ← parse_i64 (trim bundle);
  let concept_id := trim id in
  if (0 <? bundle_id)%Z && negb (bool_decide (concept_id = [])) then Some (bundle_id, concept_id) else None.

Definition show_ref (r : node) : str := show_Z r.1 ++ ":"%char :: r.2.

(** [parse_entries]: the picks, first seen first, and the malformed entries. *)
Definition entry_step (acc : list node * list str) (entry : str) : list node * list str :=
  match parse_ref entry with
  | Some pick => if bool_decide (pick ∈ acc.1) then acc else (acc.1 ++ [pick], acc.2)
  | None => (acc.1, acc.2 ++ [entry])
  end.

Definition entries_of (text : str) : list str :=
  List.filter (fun e => negb (bool_decide (e = [])))
    (map trim (concat (map (split_on ","%char) (split_on nl text)))).

Definition parse_entries (text : str) : list node * list str := fold_left entry_step (entries_of text) ([], []).

Definition parse_list (text : str) : result (list node) str :=
  match parse_entries text with
  | (_, entry :: _) => Err entry
  | (picks, []) => Ok picks
  end.

Record Selection : Type := {
  sel_all : bool;
  sel_bundle_ids : list Z;
  sel_concept_ids : list str;
  sel_tags : list str;
  sel_types : list str;
  sel_query : option str;
  sel_verified_only : bool;
  sel_limit : option Z;
  sel_picks : list node;
  sel_stale_policy : StalePolicy;
  sel_seeds : list node;
  sel_relation_types : list str;
  sel_direction : Direction;
  sel_hops : option Z;
  sel_require_closure : bool
}.

(** [Selection::default()], with some picks. *)
Definition picks_only (picks : list node) (verified_only : bool) : Selection :=
  {| sel_all := false; sel_bundle_ids := []; sel_concept_ids := []; sel_tags := []; sel_types := [];
     sel_query := None; sel_verified_only := verified_only; sel_limit := None; sel_picks := picks;
     sel_stale_policy := Warn; sel_seeds := []; sel_relation_types := []; sel_direction := Outbound;
     sel_hops := None; sel_require_closure := false |}.

Definition is_nil {A} (l : list A) : bool := match l with [] => true | _ => false end.

Definition query_text (s : Selection) : option str :=
  q ← sel_query s; if is_nil (trim q) then None else Some (trim q).

Definition has_filters (s : Selection) : bool :=
  sel_all s
  || negb (is_nil (sel_bundle_ids s) && is_nil (sel_concept_ids s) && is_nil (sel_tags s) && is_nil (sel_types s)
           && match query_text s with None => true | Some _ => false end).

Definition sel_is_empty (s : Selection) : bool :=
  negb (has_filters s) && is_nil (sel_picks s) && is_nil (sel_seeds s).

Definition clamp (lo hi n : Z) : Z := Z.max lo (Z.min hi n).
Definition effective_limit (s : Selection) : Z := clamp 1 MAX_CONCEPTS (default DEFAULT_LIMIT (sel_limit s)).
Definition effective_hops (s : Selection) : Z := clamp 1 MAX_HOPS (default DEFAULT_HOPS (sel_hops s)).

(** ** Records *)

Record Freshness : Type := {
  f_state : str;
  f_reasons : list str;
  f_scope : str;
  f_stale_since : option Z;
  f_observed_revision : option str;
  f_indexed_revision : option str;
  f_published_revision : option str;
  f_catalog_generation : option Z;
  f_last_reconciled_at : option Z
}.

Definition unknown : Freshness :=
  {| f_state := lit "unknown"; f_reasons := []; f_scope := []; f_stale_since := None; f_observed_revision := None;
     f_indexed_revision := None; f_published_revision := None; f_catalog_generation := None;
     f_last_reconciled_at := None |}.

Definition is_stale (f : Freshness) : bool :=
  negb (bool_decide (f_state f = lit "fresh")) && negb (bool_decide (f_state f = lit "unknown")).

Record Origin : Type := { o_pick : bool; o_seed : bool; o_closure : bool }.

Definition role (o : Origin) (require_closure : bool) : str :=
  if o_pick o then lit "pick"
  else if o_seed o then lit "seed"
  else if o_closure o && require_closure then lit "required-closure"
  else if o_closure o then lit "closure"
  else lit "selected".

Definition required (o : Origin) (require_closure : bool) : bool :=
  o_pick o || o_seed o || (o_closure o && require_closure).

Record ResourceFile : Type := {
  rf_concept_id : str;
  rf_class : str;
  rf_path : str;
  rf_sha256 : str;
  rf_file_hash : str;
  rf_bytes : str
}.

(** [member_freshness] is a [BTreeMap]: its entries in key order. *)
Record PackageRecord : Type := {
  pk_name : str;
  pk_root : str;
  pk_hash : str;
  pk_resources : list ResourceFile;
  pk_member_freshness : list (str * Freshness)
}.

Record ResourceRecord : Type := {
  rs_class : str;
  rs_source_path : str;
  rs_package_concept_id : str;
  rs_sha256 : str
}.

Record ConceptRecord : Type := {
  cr_bundle_id : Z;
  cr_bundle_name : str;
  cr_concept_id : str;
  cr_path : str;
  cr_title : option str;
  cr_description : option str;
  cr_type : option str;
  cr_tags : list str;
  cr_file_hash : str;
  cr_trust_tier : str;
  cr_status : str;
  cr_exact : bool;
  cr_bytes : str;
  cr_package : option PackageRecord;
  cr_resource : option ResourceRecord;
  cr_freshness : Freshness;
  cr_origin : Origin
}.

Definition key (r : ConceptRecord) : node := (cr_bundle_id r, cr_concept_id r).

Definition with_origin (o : Origin) (r : ConceptRecord) : ConceptRecord :=
  {| cr_bundle_id := cr_bundle_id r; cr_bundle_name := cr_bundle_name r; cr_concept_id := cr_concept_id r;
     cr_path := cr_path r; cr_title := cr_title r; cr_description := cr_description r; cr_type := cr_type r;
     cr_tags := cr_tags r; cr_file_hash := cr_file_hash r; cr_trust_tier := cr_trust_tier r;
     cr_status := cr_status r; cr_exact := cr_exact r; cr_bytes := cr_bytes r; cr_package := cr_package r;
     cr_resource := cr_resource r; cr_freshness := cr_freshness r; cr_origin := o |}.
Definition with_freshness (f : Freshness) (r : ConceptRecord) : ConceptRecord :=
  {| cr_bundle_id := cr_bundle_id r; cr_bundle_name := cr_bundle_name r; cr_concept_id := cr_concept_id r;
     cr_path := cr_path r; cr_title := cr_title r; cr_description := cr_description r; cr_type := cr_type r;
     cr_tags := cr_tags r; cr_file_hash := cr_file_hash r; cr_trust_tier := cr_trust_tier r;
     cr_status := cr_status r; cr_exact := cr_exact r; cr_bytes := cr_bytes r; cr_package := cr_package r;
     cr_resource := cr_resource r; cr_freshness := f; cr_origin := cr_origin r |}.
Definition with_content (exact : bool) (bytes : str) (p : option PackageRecord) (r : ConceptRecord) : ConceptRecord :=
  {| cr_bundle_id := cr_bundle_id r; cr_bundle_name := cr_bundle_name r; cr_concept_id := cr_concept_id r;
     cr_path := cr_path r; cr_title := cr_title r; cr_description := cr_description r; cr_type := cr_type r;
     cr_tags := cr_tags r; cr_file_hash := cr_file_hash r; cr_trust_tier := cr_trust_tier r;
     cr_status := cr_status r; cr_exact := exact; cr_bytes := bytes; cr_package := p;
     cr_resource := cr_resource r; cr_freshness := cr_freshness r; cr_origin := cr_origin r |}.

(** ** Refusals and reports *)

Record StaleConcept : Type := {
  sc_bundle_id : Z;
  sc_concept_id : str;
  sc_role : str;
  sc_state : str;
  sc_reasons : list str
}.

Definition stale_of (r : ConceptRecord) (require_closure : bool) : StaleConcept :=
  {| sc_bundle_id := cr_bundle_id r; sc_concept_id := cr_concept_id r; sc_role := role (cr_origin r) require_closure;
     sc_state := f_state (cr_freshness r); sc_reasons := f_reasons (cr_freshness r) |}.
Definition stale_member (r : ConceptRecord) (member : str * Freshness) (require_closure : bool) : StaleConcept :=
  {| sc_bundle_id := cr_bundle_id r; sc_concept_id := member.1; sc_role := role (cr_origin r) require_closure;
     sc_state := f_state member.2; sc_reasons := f_reasons member.2 |}.

Definition stale_members (r : ConceptRecord) : list (str * Freshness) :=
  match cr_package r with
  | Some p => List.filter (fun m => is_stale m.2) (pk_member_freshness p)
  | None => []
  end.

Record UnresolvedEdge : Type := {
  ue_source_bundle_id : Z;
  ue_source_concept_id : str;
  ue_relation_type : str;
  ue_direction : str;
  ue_target_bundle_id : option Z;
  ue_target_concept_id : option str;
  ue_external_target : option str
}.

Record ClosureNode : Type := {
  cn_bundle_id : Z;
  cn_concept_id : str;
  cn_hops : Z;
  cn_via : option node;
  cn_relation_type : option str
}.

Record ClosureReport : Type := {
  cl_seeds : list node;
  cl_direction : Direction;
  cl_relation_types : list str;
  cl_hops : Z;
  cl_required : bool;
  cl_nodes : list ClosureNode;
  cl_unresolved : list UnresolvedEdge
}.

Inductive BuildRefusal : Type :=
| StaleRequired (concepts : list StaleConcept)
| NoFreshConcepts (concepts : list StaleConcept)
| UnresolvedRequired (edges : list UnresolvedEdge)
| SeedNotFound (seeds : list node)
| ClosureNodesMissing (nodes : list node)
| ClosureExceedsLimit (limit : Z).

Record Capabilities : Type := { cap_freshness : bool; cap_catalog_generation : bool; cap_typed_relationships : bool }.

Record BuildReport : Type := {
  rp_freshness_available : bool;
  rp_closure : option ClosureReport;
  rp_excluded : list StaleConcept;
  rp_capabilities : Capabilities
}.

(** ** The connection *)

(** The columns of [pgokf.concepts] and of the rows joined to it: the trust
    tier and status of its provenance; name, root and hash of a skill; source
    path, package and digest of a script or a reference document. *)
Record ConceptColumns : Type := {
  cc_path : str;
  cc_title : option str;
  cc_description : option str;
  cc_type : option str;
  cc_tags : option (list str);
  cc_file_hash : str;
  cc_trust_tier : option str;
  cc_status : option str;
  cc_skill : option (option str * str * str);
  cc_script : option (str * str * str);
  cc_reference : option (str * str * str)
}.

(** The statements of a build; [true] in [fails] is a failure of the
    statement. *)
Inductive query : Type :=
| QCapabilities
| QRank (q : str)
| QResolve (picks : list node)
| QWalk (seed : node)
| QUnresolved
| QFreshness
| QMembers
| QSkill (n : node)
| QResource (n : node)
| QSource (n : node)
| QBody (n : node)
| QSnapshot.

(** [None] is PostgreSQL's [invalid_parameter_value], "no such visible
    concept"; [Some None] an answer without a row or with a NULL. *)
Record SkillAnswer : Type := {
  sk_skill_md : str;
  sk_root : str;
  sk_hash : str;
  sk_name : option str;
  (** concept id, class, path, sha256, file hash *)
  sk_listing : list (str * str * str * str * str)
}.

Class Reader : Type := {
  rd_db : Db;
  rd_concepts : gmap (Z * list ascii) ConceptColumns;
  (** what [pgokf.capabilities()] declares; [None]: no such function *)
  rd_capabilities : option (list (str * Z));
  rd_max_graph_hops : Z;
  (** [pgokf.concept_search]: query, bundle, limit, type, tags *)
  rd_search : str -> option Z -> Z -> option str -> option (list str) -> list node;
  rd_skill : node -> option (option SkillAnswer);
  rd_script : node -> option (option str);
  rd_reference : node -> option (option str);
  rd_source : node -> option (option str);
  rd_body : node -> option str;
  fails : query -> bool;
  (** [<=] on text in the database's collation *)
  text_le : str -> str -> bool
}.

Inductive BuildError : Type :=
| EmptySelection
| TooManyPicks (n : nat)
| NoTypedRelationships
| Refusal (r : BuildRefusal)
| CatalogFailed (q : query)
| TooManyMembers (concept_id : str)
| MemberUnreadable (package member : str)
| ResourceChanged (concept_id : str)
| ContentTooLarge.

(** One node a seed's walk returned; the nodes of a closure are a [BTreeMap]. *)
Record NeighborHit : Type := {
  nh_node : node;
  nh_hops : Z;
  nh_via : option node;
  nh_relation_type : option str
}.

Abbreviation Nodes := (list (Z * list ascii * NeighborHit)).

Section resolve.
Context `{Ses : Session, EO : EdgeOrder, R : Reader}.

Definition ask {A} (q : query) (a : A) : result A BuildError := if fails q then Err (CatalogFailed q) else Ok a.

(** ** [resolve] *)

(** [sort] and [dedup]. *)
Fixpoint dedup {K} `{EqDecision K} (l : list K) : list K :=
  match l with
  | x :: (y :: _) as l' => if decide (x = y) then dedup l' else x :: dedup l'
  | l => l
  end.

Definition sort_le {K} `{OrdKey K} (a b : K) : bool := match kcmp a b with Gt => false | _ => true end.
Definition sort_dedup {K} `{OrdKey K} (l : list K) : list K := dedup (sort_by sort_le l).

Definition TRUSTED_TIERS : list str := [lit "human-reviewed"; lit "machine-confirmed"].

(** [concept_search], restricted to the selected bundles. *)
Definition ranked_ids (s : Selection) : result (option (list node)) BuildError :=
  match query_text s with
  | None => Ok None
  | Some q =>
      let one_bundle := match sel_bundle_ids s with [only] => Some only | _ => None end in
      let first_type := match sel_types s with [only] => Some only | _ => None end in
      let tags := if is_nil (sel_tags s) then None else Some (sel_tags s) in
      let? rows := ask (QRank q) (rd_search q one_bundle MAX_CONCEPTS first_type tags) in
      Ok (Some (List.filter (fun r => is_nil (sel_bundle_ids s) || bool_decide (r.1 ∈ sel_bundle_ids s)) rows))
  end.

(** [$n IS NULL OR ...] for a list that is NULL when empty. *)
Definition unless_empty {A} (l : list A) (b : bool) : bool := is_nil l || b.

Definition trust_tier (c : ConceptColumns) : str := default (lit "unverified") (cc_trust_tier c).

(** [min(ord)] of the concept in the ranking, from 1. *)
Fixpoint ordinal (n : node) (i : Z) (ranking : list node) : option Z :=
  match ranking with
  | [] => None
  | m :: ranking' => if decide (m = n) then Some i else ordinal n (i + 1) ranking'
  end.

(** The [WHERE] clause. *)
Definition narrowed (s : Selection) (ranking : option (list node)) (n : node) (c : ConceptColumns) : bool :=
  has_filters s
  && unless_empty (sel_bundle_ids s) (bool_decide (n.1 ∈ sel_bundle_ids s))
  && unless_empty (sel_types s) (match cc_type c with Some t => bool_decide (t ∈ sel_types s) | None => false end)
  && unless_empty (sel_tags s)
       (match cc_tags c with Some tags => forallb (fun t => bool_decide (t ∈ tags)) (sel_tags s) | None => false end)
  && unless_empty (sel_concept_ids s) (bool_decide (n.2 ∈ sel_concept_ids s))
  && match ranking with None => true | Some r => bool_decide (is_Some (ordinal n 1 r)) end.

Definition selected (s : Selection) (picks : list node) (ranking : option (list node)) (n : node) (c : ConceptColumns) : bool :=
  (bool_decide (n ∈ picks) || narrowed s ranking n c)
  && (negb (sel_verified_only s) || bool_decide (trust_tier c ∈ TRUSTED_TIERS)).

(** [regexp_replace(b.path, '^.*/', '')] *)
Definition last_segment (path : str) : str := match rsplit_once slash path with Some (_, name) => name | None => path end.

Definition bundle_name (id : Z) : str :=
  match bundles rd_db !! id with
  | Some b => default (last_segment (b_path b)) (b_name b)
  | None => []
  end.

Definition package_from_row (c : ConceptColumns) : option PackageRecord :=
  '(name, root, hash) ← cc_skill c;
  Some {| pk_name := default (last_segment root) name; pk_root := root; pk_hash := hash; pk_resources := [];
          pk_member_freshness := [] |}.

(** A script before a reference document, an asset by its path. *)
Definition resource_from_row (c : ConceptColumns) : option ResourceRecord :=
  match cc_script c, cc_reference c with
  | Some (path, package, sha), _ =>
      Some {| rs_class := lit "script"; rs_source_path := path; rs_package_concept_id := package; rs_sha256 := sha |}
  | None, Some (path, package, sha) =>
      Some {| rs_class := if starts_with (lit "assets/") path then lit "asset" else lit "reference";
              rs_source_path := path; rs_package_concept_id := package; rs_sha256 := sha |}
  | None, None => None
  end.

Definition record_from_row (picks : list node) (n : node) (c : ConceptColumns) : ConceptRecord :=
  {| cr_bundle_id := n.1; cr_bundle_name := bundle_name n.1; cr_concept_id := n.2; cr_path := cc_path c;
     cr_title := cc_title c; cr_description := cc_description c; cr_type := cc_type c;
     cr_tags := default [] (cc_tags c); cr_file_hash := cc_file_hash c; cr_trust_tier := trust_tier c;
     cr_status := default (lit "stable") (cc_status c); cr_exact := false; cr_bytes := [];
     cr_package := package_from_row c; cr_resource := resource_from_row c; cr_freshness := unknown;
     cr_origin := {| o_pick := bool_decide (n ∈ picks); o_seed := false; o_closure := false |} |}.

(** [ORDER BY picked DESC, r.ord NULLS LAST, c.bundle_id, c.id] *)
Definition row_le (picks : list node) (ranking : option (list node)) (a b : node) : bool :=
  let pa := bool_decide (a ∈ picks) in
  let pb := bool_decide (b ∈ picks) in
  if Bool.eqb pa pb then
    let ord n := r ← ranking; ordinal n 1 r in
    match ord a, ord b with
    | Some _, None => true
    | None, Some _ => false
    | Some i, Some j => if (i =? j)%Z then (a.1 <? b.1)%Z || ((a.1 =? b.1)%Z && text_le a.2 b.2) else (i <? j)%Z
    | None, None => (a.1 <? b.1)%Z || ((a.1 =? b.1)%Z && text_le a.2 b.2)
    end
  else pa.

(** The rows of [pgokf.concepts] the session sees, in active bundles. *)
Definition visible_concepts : list (node * ConceptColumns) :=
  List.filter (fun e => concept_visible rd_db e.1) (map_to_list rd_concepts).

Definition resolve_rows (s : Selection) (picks : list node) (ranking : option (list node)) (limit : Z)
  : list (node * ConceptColumns) :=
  take (Z.to_nat limit)
    (sort_by (fun a b => row_le picks ranking a.1 b.1)
       (List.filter (fun e => selected s picks ranking e.1 e.2) visible_concepts)).

Definition resolve (s : Selection) : result (list ConceptRecord) BuildError :=
  if sel_is_empty s then Err EmptySelection
  else
    let picks := sort_dedup (sel_picks s) in
    if (MAX_CONCEPTS <? Z.of_nat (length picks))%Z then Err (TooManyPicks (length picks))
    else
      let limit := Z.max (effective_limit s) (Z.of_nat (length picks)) in
      let? ranking := ranked_ids s in
      let? rows := ask (QResolve picks) (resolve_rows s picks ranking limit) in
      Ok (map (fun e => record_from_row picks e.1 e.2) rows).

(** ** Capabilities *)

Definition has_capability (declared : option (list (str * Z))) (name : str) : bool :=
  match d ← declared; List.find (fun e => bool_decide (e.1 = name)) d with
  | Some (_, version) => (1 <=? version)%Z
  | None => false
  end.

Definition parse_capabilities (declared : option (list (str * Z))) : Capabilities :=
  {| cap_freshness := has_capability declared (lit "effective_freshness");
     cap_catalog_generation := has_capability declared (lit "catalog_generation");
     cap_typed_relationships := has_capability declared (lit "typed_relationships") |}.

Definition capabilities : result Capabilities BuildError := ask QCapabilities (parse_capabilities rd_capabilities).

(** ** Freshness *)

(** [pgokf.effective_freshness]: bundle, scope kind, scope key, tenant and
    the row's columns.  The override rows keep no revisions. *)
Definition bundle_row (id : Z) (b : BundleFreshness) : option (Z * str * option str * Freshness) :=
  row ← bundles rd_db !! id;
  if tenant_predicate rd_db (bf_tenant b) then
    Some (id, lit "bundle", None,
      {| f_state := bf_state b; f_reasons := bf_reasons b; f_scope := lit "bundle"; f_stale_since := bf_stale_since b;
         f_observed_revision := bf_observed b; f_indexed_revision := bf_materialized_source b;
         f_published_revision := show_Z <$> bf_materialized_catalog b;
         f_catalog_generation := Some (b_catalog_generation row); f_last_reconciled_at := bf_last_reconciled_at b |})
  else None.
Definition scope_row (k : Z * str * str) (f : ScopeFreshness) : option (Z * str * option str * Freshness) :=
  row ← bundles rd_db !! k.1.1;
  if tenant_predicate rd_db (sf_tenant f) then
    Some (k.1.1, k.1.2, Some k.2,
      {| f_state := sf_state f; f_reasons := sf_reasons f; f_scope := k.1.2; f_stale_since := sf_stale_since f;
         f_observed_revision := None; f_indexed_revision := None; f_published_revision := None;
         f_catalog_generation := Some (b_catalog_generation row); f_last_reconciled_at := None |})
  else None.

Definition bundle_fresh (id : Z) : option Freshness :=
  b ← bundle_freshness rd_db !! id; snd <$> bundle_row id b.
Definition concept_fresh (n : node) : option Freshness :=
  f ← concept_freshness rd_db !! (n.1, lit "concept", n.2); snd <$> scope_row (n.1, lit "concept", n.2) f.

(** The row a build reads: the concept's own, or else its bundle's.  The rows of
    a path, which the view [effective_freshness] has too and the catalog puts
    between the two, are not selected. *)
Definition freshness_read (n : node) : option Freshness :=
  match concept_fresh n with Some f => Some f | None => bundle_fresh n.1 end.

Definition apply_freshness (records : list ConceptRecord) : result (list ConceptRecord) BuildError :=
  match records with
  | [] => Ok []
  | _ => ask QFreshness
           (map (fun r => match freshness_read (key r) with Some f => with_freshness f r | None => r end) records)
  end.

(** The package a visible concept is a member of. *)
Definition member_of (c : ConceptColumns) : option str :=
  match cc_script c, cc_reference c with
  | Some (_, package, _), _ => Some package
  | None, Some (_, package, _) => Some package
  | None, None => None
  end.

(** [insert] of every entry in turn. *)
Definition bt_extend {V} (l m : list (str * V)) : list (str * V) := fold_left (fun m e => bt_insert e.1 e.2 m) l m.

(** The members of a package with a freshness row, in the order of their
    ids. *)
Definition members_freshness (package : node) : list (str * Freshness) :=
  bt_extend
    (omap (fun e => if bool_decide (e.1.1 = package.1 /\ member_of e.2 = Some package.2)
                    then f ← freshness_read e.1; Some (e.1.2, f) else None) visible_concepts) [].

Definition with_members (r : ConceptRecord) : ConceptRecord :=
  match cr_package r with
  | None => r
  | Some p =>
      with_content (cr_exact r) (cr_bytes r)
        (Some {| pk_name := pk_name p; pk_root := pk_root p; pk_hash := pk_hash p; pk_resources := pk_resources p;
                 pk_member_freshness := bt_extend (members_freshness (key r)) (pk_member_freshness p) |}) r
  end.

Definition apply_member_freshness (records : list ConceptRecord) : result (list ConceptRecord) BuildError :=
  if existsb (fun r => bool_decide (is_Some (cr_package r))) records then ask QMembers (map with_members records)
  else Ok records.

(** ** The closure of the seeds *)

Definition hit_of_row (h : TypedNeighborHit) : NeighborHit :=
  {| nh_node := th_node h; nh_hops := th_hops h;
     nh_via := if (1 <=? th_hops h)%Z then
                 b ← th_path_bundle_ids h !! Z.to_nat (th_hops h - 1);
                 c ← th_path_concept_ids h !! Z.to_nat (th_hops h - 1); Some (b, c)
               else None;
     nh_relation_type := Some (th_relation_type h) |}.

Definition merge_hit (nodes : Nodes) (hit : NeighborHit) : Nodes :=
  match bt_get (nh_node hit) nodes with
  | Some existing => if (nh_hops existing <=? nh_hops hit)%Z then nodes else bt_insert (nh_node hit) hit nodes
  | None => bt_insert (nh_node hit) hit nodes
  end.
Definition merge_closure_nodes (nodes : Nodes) (hits : list NeighborHit) : Nodes := fold_left merge_hit hits nodes.

Definition relation_types_of (s : Selection) : option (list str) :=
  if is_nil (sel_relation_types s) then None else Some (sel_relation_types s).

(** [pgokf.concept_relationship_neighbors(seed, hops, direction, types, 500)]; a
    panic of the extension is an error of the statement. *)
Definition walk_seed (s : Selection) (seed : node) : result (list NeighborHit) BuildError :=
  let? rows := ask (QWalk seed)
                 (relationship_neighbors_impl rd_max_graph_hops rd_db seed (effective_hops s)
                    (direction_id (sel_direction s)) (relation_types_of s) MAX_CONCEPTS) in
  match rows with
  | Ret (Ok hits) => Ok (map hit_of_row hits)
  | _ => Err (CatalogFailed (QWalk seed))
  end.

Definition walk_seeds (s : Selection) (seeds : list node) : result Nodes BuildError :=
  rfold (fun nodes seed => let? hits := walk_seed s seed in Ok (merge_closure_nodes nodes hits)) seeds [].

Definition set_pick (b : bool) (r : ConceptRecord) : ConceptRecord :=
  with_origin {| o_pick := b; o_seed := o_seed (cr_origin r); o_closure := o_closure (cr_origin r) |} r.
Definition set_seed (r : ConceptRecord) : ConceptRecord :=
  with_origin {| o_pick := o_pick (cr_origin r); o_seed := true; o_closure := o_closure (cr_origin r) |} r.
Definition set_closure (r : ConceptRecord) : ConceptRecord :=
  with_origin {| o_pick := o_pick (cr_origin r); o_seed := o_seed (cr_origin r); o_closure := true |} r.

Definition clear_internal_pick_origins (records : list ConceptRecord) (caller_picks : list node) : list ConceptRecord :=
  map (fun r => if bool_decide (key r ∈ caller_picks) then r else set_pick false r) records.

(** The first record of a seed is marked; a seed without a record is absent. *)
Fixpoint mark_first (seed : node) (records : list ConceptRecord) : option (list ConceptRecord) :=
  match records with
  | [] => None
  | r :: records' =>
      if decide (key r = seed) then Some (set_seed r :: records') else cons r <$> mark_first seed records'
  end.

Definition mark_seed (acc : list ConceptRecord * list node) (seed : node) : list ConceptRecord * list node :=
  match mark_first seed acc.1 with
  | Some records => (records, acc.2)
  | None => (acc.1, acc.2 ++ [seed])
  end.

Definition unmaterialized_nodes (nodes : Nodes) (records : list ConceptRecord) : list node :=
  List.filter (fun n => negb (bool_decide (n ∈ map key records))) (map fst nodes).

Definition MAX_UNRESOLVED_REPORTED : nat := 100.

(** [UNRESOLVED_SQL] *)
Definition unresolved_row (types : option (list str)) (direction : str) (frontier : list node) (r : RelationRow) : bool :=
  rl_unresolved r && type_selected types r
  && ((outward direction && bool_decide (source_node r ∈ frontier))
      || (inward direction
          && (target_in frontier r || (undirected r && bool_decide (source_node r ∈ frontier))))).

Definition edge_le (a b : RelationRow) : bool :=
  (rl_source_bundle a <? rl_source_bundle b)%Z
  || ((rl_source_bundle a =? rl_source_bundle b)%Z
      && (if decide (rl_source_concept a = rl_source_concept b) then text_le (rl_type a) (rl_type b)
          else text_le (rl_source_concept a) (rl_source_concept b))).

Definition unresolved_edge (r : RelationRow) : UnresolvedEdge :=
  {| ue_source_bundle_id := rl_source_bundle r; ue_source_concept_id := rl_source_concept r;
     ue_relation_type := rl_type r; ue_direction := rl_direction r; ue_target_bundle_id := rl_target_bundle r;
     ue_target_concept_id := rl_target_concept r; ue_external_target := rl_external_target r |}.

Definition frontier_of (nodes : Nodes) (seeds : list node) (hops : Z) : list node :=
  sort_dedup (seeds ++ map fst (List.filter (fun e => (nh_hops e.2 <? hops)%Z) nodes)).

Definition unresolved_edges (s : Selection) (nodes : Nodes) (seeds : list node) : result (list UnresolvedEdge) BuildError :=
  match frontier_of nodes seeds (effective_hops s) with
  | [] => Ok []
  | frontier =>
      ask QUnresolved
        (map unresolved_edge
           (take MAX_UNRESOLVED_REPORTED
              (sort_by edge_le
                 (List.filter (unresolved_row (relation_types_of s) (direction_id (sel_direction s)) frontier)
                    (current_relationships rd_db)))))
  end.

Definition closure_node (e : node * NeighborHit) : ClosureNode :=
  {| cn_bundle_id := (nh_node e.2).1; cn_concept_id := (nh_node e.2).2; cn_hops := nh_hops e.2; cn_via := nh_via e.2;
     cn_relation_type := nh_relation_type e.2 |}.

Definition closure_node_le (a b : ClosureNode) : bool :=
  sort_le (cn_hops a, (cn_bundle_id a, cn_concept_id a)) (cn_hops b, (cn_bundle_id b, cn_concept_id b)).

(** The records the closure adds: what is wanted and not there. *)
Definition missing_nodes (records : list ConceptRecord) (seeds : list node) (nodes : Nodes) : list node :=
  List.filter (fun n => negb (bool_decide (n ∈ map key records))) (sort_dedup (seeds ++ map fst nodes)).

Definition fetch_missing (s : Selection) (records : list ConceptRecord) (missing : list node)
  : result (list ConceptRecord) BuildError :=
  match missing with
  | [] => Ok records
  | _ => let? fetched := resolve (picks_only missing (sel_verified_only s)) in
         Ok (records ++ clear_internal_pick_origins fetched (sel_picks s))
  end.

Definition refuse_if {A} (l : list A) (r : list A -> BuildRefusal) : result unit BuildError :=
  match l with [] => Ok tt | _ => Err (Refusal (r l)) end.

Definition mark_closure (nodes : Nodes) (records : list ConceptRecord) : list ConceptRecord :=
  map (fun r => match bt_get (key r) nodes with Some _ => set_closure r | None => r end) records.

Definition apply_closure (s : Selection) (records : list ConceptRecord)
  : result (list ConceptRecord * ClosureReport) BuildError :=
  let seeds := sort_dedup (sel_seeds s) in
  let? nodes := walk_seeds s seeds in
  let missing := missing_nodes records seeds nodes in
  if (MAX_CONCEPTS <? Z.of_nat (length records + length missing))%Z
  then Err (Refusal (ClosureExceedsLimit MAX_CONCEPTS))
  else
    let? records := fetch_missing s records missing in
    let '(records, absent_seeds) := fold_left mark_seed seeds (records, []) in
    let? _ := refuse_if absent_seeds SeedNotFound in
    let records := mark_closure nodes records in
    let? _ := if sel_require_closure s then refuse_if (unmaterialized_nodes nodes records) ClosureNodesMissing else Ok tt in
    let? unresolved := unresolved_edges s nodes seeds in
    let? _ := if sel_require_closure s then refuse_if unresolved UnresolvedRequired else Ok tt in
    Ok (records,
        {| cl_seeds := seeds; cl_direction := sel_direction s; cl_relation_types := sel_relation_types s;
           cl_hops := effective_hops s; cl_required := sel_require_closure s;
           cl_nodes := sort_by closure_node_le (map closure_node nodes);
           cl_unresolved := if sel_require_closure s then [] else unresolved |}).

(** ** The stale policy *)

(** [dedup_stale]: the first mention of a concept stays. *)
Fixpoint dedup_from (seen : list node) (l : list StaleConcept) : list StaleConcept :=
  match l with
  | [] => []
  | c :: l' =>
      let k := (sc_bundle_id c, sc_concept_id c) in
      if bool_decide (k ∈ seen) then dedup_from seen l' else c :: dedup_from (k :: seen) l'
  end.
Definition dedup_stale (l : list StaleConcept) : list StaleConcept := dedup_from [] l.

(** Why a record cannot ship under [exclude]: its own state and its stale
    members'. *)
Definition blocking (require_closure : bool) (r : ConceptRecord) : list StaleConcept :=
  (if is_stale (cr_freshness r) then [stale_of r require_closure] else [])
  ++ map (fun m => stale_member r m require_closure) (stale_members r).

(** What dropping a record reports, or nothing when it stays. *)
Definition dropped (require_closure : bool) (r : ConceptRecord) : list StaleConcept :=
  if is_stale (cr_freshness r) then [stale_of r require_closure]
  else map (fun m => stale_member r m require_closure) (stale_members r).

Definition apply_stale_policy (s : Selection) (records : list ConceptRecord)
  : result (list ConceptRecord * list StaleConcept) BuildError :=
  match sel_stale_policy s with
  | Warn => Ok (records, [])
  | Exclude =>
      let rc := sel_require_closure s in
      let blocked := concat (map (blocking rc) (List.filter (fun r => required (cr_origin r) rc) records)) in
      match blocked with
      | _ :: _ => Err (Refusal (StaleRequired (dedup_stale blocked)))
      | [] =>
          let kept := List.filter (fun r => is_nil (dropped rc r)) records in
          let excluded := dedup_stale (concat (map (dropped rc) records)) in
          if negb (is_nil excluded) && is_nil kept then Err (Refusal (NoFreshConcepts excluded))
          else Ok (kept, excluded)
      end
  end.

(** ** [resolve_selected] *)

Definition resolve_selected (s : Selection) : result (list ConceptRecord * BuildReport) BuildError :=
  let? caps := capabilities in
  let? records := resolve s in
  let? (records, closure) :=
    (if is_nil (sel_seeds s) then Ok (records, None)
     else if cap_typed_relationships caps then
       let? (records, report) := apply_closure s records in Ok (records, Some report)
     else Err NoTypedRelationships) in
  let? records := (if cap_freshness caps
                   then let? records := apply_freshness records in apply_member_freshness records
                   else Ok records) in
  let? (records, excluded) := apply_stale_policy s records in
  Ok (records, {| rp_freshness_available := cap_freshness caps; rp_closure := closure; rp_excluded := excluded;
                  rp_capabilities := caps |}).

Definition engaged (s : Selection) (records : list ConceptRecord) : bool :=
  negb (is_nil (sel_seeds s)) || bool_decide (sel_stale_policy s = Exclude)
  || existsb (fun r => is_stale (cr_freshness r) || negb (is_nil (stale_members r))) records.

(** ** Loading content *)

Definition drop_packaged_resources (records : list ConceptRecord) : list ConceptRecord :=
  let owned := map key (List.filter (fun r => bool_decide (is_Some (cr_package r))) records) in
  List.filter (fun r => match cr_resource r with
                        | None => true
                        | Some res => negb (bool_decide ((cr_bundle_id r, rs_package_concept_id res) ∈ owned))
                        end) records.

Context (sha256_hex : str -> str).

Definition verify_sha256 (bytes expected concept_id : str) : result unit BuildError :=
  if negb (is_nil expected) && negb (bool_decide (sha256_hex bytes = expected)) then Err (ResourceChanged concept_id)
  else Ok tt.

(** The reader for the class; "no such concept" and no bytes are [None]. *)
Definition resource_bytes (n : node) (class : str) : result (option str) BuildError :=
  ask (QResource n) (default None (if decide (class = lit "script") then rd_script n else rd_reference n)).

Definition stored_source (n : node) : result (option str) BuildError := ask (QSource n) (default None (rd_source n)).

(** [serde_json] text of a string. *)
Context (yaml_string : str -> str).

Definition field (name : string) (v : option str) : str :=
  match v with Some v => lit name ++ lit ": " ++ yaml_string v ++ [nl] | None => [] end.

Definition reconstruct (r : ConceptRecord) (body : str) : str :=
  lit "---" ++ [nl] ++ field "type" (cr_type r) ++ field "title" (cr_title r) ++ field "description" (cr_description r)
  ++ (if is_nil (cr_tags r) then []
      else lit "tags:" ++ [nl] ++ concat (map (fun tag => lit "  - " ++ yaml_string tag ++ [nl]) (cr_tags r)))
  ++ lit "---" ++ [nl; nl]
  ++ lit "<!-- Reconstructed from the catalog's indexed text: the bundle was ingested without store_source, so this is not the original file. -->"
  ++ [nl; nl] ++ body ++ (if ends_with [nl] body then [] else [nl]).

Definition load_member (record : ConceptRecord) (entry : str * str * str * str * str)
  : result (option ResourceFile) BuildError :=
  let '(concept_id, class, path, sha256, file_hash) := entry in
  if is_nil concept_id || is_nil path then Ok None
  else
    let? bytes := resource_bytes (cr_bundle_id record, concept_id) class in
    match bytes with
    | None => Err (MemberUnreadable (cr_concept_id record) concept_id)
    | Some bytes =>
        let? _ := verify_sha256 bytes sha256 concept_id in
        Ok (Some {| rf_concept_id := concept_id; rf_class := class; rf_path := path; rf_sha256 := sha256;
                    rf_file_hash := file_hash; rf_bytes := bytes |})
    end.

(** [false]: the package vanished. *)
Definition load_package (record : ConceptRecord) : result (ConceptRecord * bool) BuildError :=
  let? row := ask (QSkill (key record)) (default None (rd_skill (key record))) in
  match row with
  | None => Ok (with_content (cr_exact record) [] (cr_package record) record, false)
  | Some answer =>
      if (MAX_PACKAGE_MEMBERS <? length (sk_listing answer))%nat then Err (TooManyMembers (cr_concept_id record))
      else
        let? members := rmap_list (load_member record) (sk_listing answer) in
        let old := cr_package record in
        Ok (with_content true (sk_skill_md answer)
              (Some {| pk_name := default (match old with Some p => pk_name p | None => [] end) (sk_name answer);
                       pk_root := sk_root answer; pk_hash := sk_hash answer; pk_resources := omap (fun m => m) members;
                       pk_member_freshness := match old with Some p => pk_member_freshness p | None => [] end |})
              record, true)
  end.

Definition load_one (record : ConceptRecord) : result (ConceptRecord * bool) BuildError :=
  match cr_package record, cr_resource record with
  | Some _, _ => load_package record
  | None, Some resource =>
      let? bytes := resource_bytes (key record) (rs_class resource) in
      match bytes with
      | Some bytes =>
          let? _ := verify_sha256 bytes (rs_sha256 resource) (cr_concept_id record) in
          Ok (with_content true bytes None record, true)
      | None => Ok (record, false)
      end
  | None, None =>
      let? source := stored_source (key record) in
      let bytes := default (cr_bytes record) source in
      let exact := match source with Some b => negb (is_nil b) | None => false end in
      if exact then Ok (with_content true bytes None record, true)
      else
        let? body := ask (QBody (key record)) (rd_body (key record)) in
        Ok (with_content false (match body with Some b => reconstruct record b | None => [] end) None record, true)
  end.

Definition len (s : str) : Z := Z.of_nat (length s).

Definition record_bytes (r : ConceptRecord) : Z :=
  (len (cr_bytes r) + match cr_package r with
                      | Some p => fold_right Z.add 0 (map (fun f => len (rf_bytes f)) (pk_resources p))
                      | None => 0
                      end)%Z.

(** One record after the other, with the running total. *)
Fixpoint load_all (loaded : Z) (records : list ConceptRecord) : result (list (ConceptRecord * bool)) BuildError :=
  match records with
  | [] => Ok []
  | r :: records' =>
      let? (r, there) := load_one r in
      let loaded := (loaded + record_bytes r)%Z in
      if (MAX_CONTENT_BYTES <? loaded)%Z then Err ContentTooLarge
      else let? rest := load_all loaded records' in Ok ((r, there) :: rest)
  end.

Definition load_sources (records : list ConceptRecord) : result (list ConceptRecord) BuildError :=
  let? loaded := load_all 0 (drop_packaged_resources records) in
  Ok (map fst (List.filter (fun e => e.2 && (bool_decide (is_Some (cr_resource e.1)) || negb (is_nil (cr_bytes e.1)))) loaded)).

End resolve.
