(* ===== verification/SelectionProps.v ===== *)
(** * What a selection resolves to

    The theorems on [Selection]: picks and limits of the statement, the
    closure of the seeds, the stale policy, and the content that is loaded. *)
From stdpp Require Import prelude strings gmap list sorting.
From Stdlib Require Import Ascii ZArith Lia.
From S2P Require Import Prelude Str BTree CatalogError Security Catalog Neighbors TypedWalk Selection.

(** ** [sort] and [dedup] *)

Section sorting.
Context {K : Type} `{OrdKey K}.

Definition kle (x y : K) : Prop := kcmp x y <> Gt.

#[export] Instance kle_trans : Transitive kle.
Proof.
  unfold kle. intros a b c H1 H2 Hgt. destruct (kcmp a b) eqn:E1; [| |done].
  - apply kcmp_eq in E1. by rewrite E1 in Hgt.
  - destruct (kcmp b c) eqn:E2; [| |done].
    + apply kcmp_eq in E2. by rewrite <- E2, E1 in Hgt.
    + by rewrite (kcmp_trans _ _ _ E1 E2) in Hgt.
Qed.

Lemma sort_le_kle (l : list K) : StronglySorted kle (sort_by sort_le l).
Proof.
  apply sort_by_sorted; [apply _| |]; intros x y; unfold sort_le, kle.
  - by destruct (kcmp x y).
  - rewrite (kcmp_antisym x y). by destruct (kcmp x y).
Qed.

Lemma dedup_cons2 (a b : K) l : dedup (a :: b :: l) = if decide (a = b) then dedup (b :: l) else a :: dedup (b :: l).
Proof. done. Qed.

Lemma elem_of_dedup (l : list K) x : x ∈ dedup l <-> x ∈ l.
Proof.
  induction l as [|a [|b l] IH]; [done..|]. rewrite dedup_cons2. case_decide as Hab.
  - subst. rewrite IH, !elem_of_cons. naive_solver.
  - rewrite (elem_of_cons _ _ a), (elem_of_cons (b :: l) x a), IH. done.
Qed.

Lemma dedup_sorted (l : list K) : StronglySorted kle l -> StronglySorted klt (dedup l).
Proof.
  induction l as [|a [|b l] IH]; intros Hs; [constructor|repeat constructor|].
  inversion Hs as [|? ? Hs' HF]; subst. rewrite dedup_cons2. case_decide as Hab; [by apply IH|].
  constructor; [by apply IH|]. apply Forall_forall. intros x Hx. rewrite elem_of_dedup in Hx.
  rewrite Forall_forall in HF. pose proof (HF x Hx) as Hax. pose proof (HF b ltac:(by left)) as Hab'.
  unfold kle, klt in *. destruct (kcmp a x) eqn:E; [|done|done]. apply kcmp_eq in E as <-.
  apply elem_of_cons in Hx as [->|Hx]; [done|]. inversion Hs' as [|? ? _ HF']; subst.
  rewrite Forall_forall in HF'. pose proof (HF' a Hx) as Hba. rewrite (kcmp_antisym a b) in Hba.
  destruct (kcmp a b) eqn:E; [by apply kcmp_eq in E|done|done].
Qed.

Lemma elem_of_sort_dedup (l : list K) x : x ∈ sort_dedup l <-> x ∈ l.
Proof. unfold sort_dedup. by rewrite elem_of_dedup, sort_by_perm. Qed.

Lemma sort_dedup_nodup (l : list K) : NoDup (sort_dedup l).
Proof.
  assert (StronglySorted klt (sort_dedup l)) as Hs by apply dedup_sorted, sort_le_kle.
  induction Hs as [|x l' _ IH HF]; constructor; [|done]. rewrite Forall_forall in HF.
  intros Hx. by apply HF, klt_irrefl in Hx.
Qed.

End sorting.

(** ** [resolve] *)

(** Every concept of the projection has its columns. *)
Class ReaderLaws `{Reader} : Prop := { rd_dom : forall n, is_Some (rd_concepts !! n) <-> n ∈ concepts rd_db }.

Section resolve.
Context `{Ses : Session, EO : EdgeOrder, R : Reader}.

Lemma ask_ok {A} q (a b : A) : ask q a = Ok b -> a = b.
Proof. unfold ask. by destruct (fails q); intros [=]. Qed.

Lemma is_nil_spec {A} (l : list A) : is_nil l = true <-> l = [].
Proof. by destruct l. Qed.

(** A visible concept of acceptable trust. *)
Definition selectable (verified_only : bool) (n : node) (c : ConceptColumns) : Prop :=
  rd_concepts !! n = Some c /\ concept_visible rd_db n = true /\ (verified_only = true -> trust_tier c ∈ TRUSTED_TIERS).

(** What a row of the statement is. *)
Lemma selected_rows s picks ranking n c :
  (n, c) ∈ List.filter (fun e => selected s picks ranking e.1 e.2) visible_concepts <->
  selectable (sel_verified_only s) n c /\ (n ∈ picks \/ narrowed s ranking n c = true).
Proof.
  unfold visible_concepts, selectable, selected. rewrite !elem_of_filter_list, elem_of_map_to_list. cbn.
  rewrite andb_true_iff, !orb_true_iff, negb_true_iff, !bool_decide_eq_true.
  destruct (sel_verified_only s); naive_solver.
Qed.

Lemma rows_nodup s picks ranking : NoDup (List.filter (fun e => selected s picks ranking e.1 e.2) visible_concepts).*1.
Proof.
  eapply sublist_NoDup; [apply (NoDup_fst_map_to_list rd_concepts)|]. apply (fmap_sublist fst).
  etrans; apply filter_list_sublist.
Qed.

(** In a sorted list the picked rows come first. *)
Lemma picked_first (picks : list node) (l : list (node * ConceptColumns)) :
  StronglySorted (fun a b => b.1 ∈ picks -> a.1 ∈ picks) l ->
  exists p q, l = p ++ q /\ (forall e, e ∈ p -> e.1 ∈ picks) /\ forall e, e ∈ q -> e.1 ∉ picks.
Proof.
  induction 1 as [|e l Hs (p & q & -> & Hp & Hq) HF].
  - exists [], []. split_and!; [done|by intros ? ?%not_elem_of_nil..].
  - rewrite Forall_forall in HF. destruct (decide (e.1 ∈ picks)) as [He|He].
    + exists (e :: p), q. split_and!; [done| |done]. intros x [->|?]%elem_of_cons; auto.
    + exists [], (e :: p ++ q). split_and!; [done|by intros ? ?%not_elem_of_nil|].
      intros x [->|Hx]%elem_of_cons; [done|]. intros Hx'. apply He. by apply (HF x).
Qed.

Lemma row_le_sorted (picks : list node) ranking (l : list (node * ConceptColumns)) :
  StronglySorted (fun a b => b.1 ∈ picks -> a.1 ∈ picks) (sort_by (fun a b => row_le picks ranking a.1 b.1) l).
Proof.
  apply sort_by_sorted; [intros a b c; naive_solver| |]; intros a b; unfold row_le;
    repeat case_bool_decide; cbn [Bool.eqb]; naive_solver.
Qed.

(** The picks of a statement whose limit holds them are all in its answer. *)
Lemma picks_not_cut s (picks : list node) ranking limit n c :
  NoDup picks -> (Z.of_nat (length picks) <= limit)%Z ->
  n ∈ picks -> selectable (sel_verified_only s) n c -> (n, c) ∈ resolve_rows s picks ranking limit.
Proof.
  intros Hnd Hl Hn Hc. unfold resolve_rows. set (rows := List.filter _ _). set (sorted := sort_by _ rows).
  assert (sorted ≡ₚ rows) as Hperm by apply sort_by_perm.
  destruct (picked_first picks sorted) as (p & q & Hpq & Hp & Hq); [apply row_le_sorted|].
  assert ((n, c) ∈ sorted) as Hin by (rewrite Hperm; apply selected_rows; by auto).
  assert (length p <= length picks) as Hlp.
  { rewrite <- (length_fmap fst p). apply submseteq_length, NoDup_submseteq.
    - eapply (sublist_NoDup _ (p ++ q).*1); [rewrite <- Hpq, Hperm; apply rows_nodup|].
      rewrite fmap_app. apply sublist_inserts_r. done.
    - intros x (e & -> & He)%list_elem_of_fmap. by apply Hp. }
  rewrite Hpq in Hin |- *. rewrite take_app, elem_of_app. left. rewrite take_ge by lia.
  apply elem_of_app in Hin as [?|Hin]; [done|]. by apply Hq in Hin.
Qed.

Lemma record_key picks n c : key (record_from_row picks n c) = n.
Proof. by destruct n. Qed.

(** Resolving a selection.  When [resolve] answers, no concept comes twice
    and there are at most 500; every record is a visible concept, verified if
    the selection asks for it, that was picked or passed every given selector,
    and it is marked as a pick exactly when it was picked; and every pick that
    is visible and passes the trust filter is there, whatever the limit.  It
    refuses an empty selection and more than 500 distinct picks. *)
Lemma resolve_exact (s : Selection) :
  match resolve s with
  | Ok records =>
      NoDup (map key records) /\ (Z.of_nat (length records) <= MAX_CONCEPTS)%Z /\
      (exists ranking, ranked_ids s = Ok ranking /\
       forall r, r ∈ records -> exists c, r = record_from_row (sort_dedup (sel_picks s)) (key r) c /\
         selectable (sel_verified_only s) (key r) c /\
         (key r ∈ sel_picks s \/ narrowed s ranking (key r) c = true) /\
         (o_pick (cr_origin r) = true <-> key r ∈ sel_picks s)) /\
      forall n c, n ∈ sel_picks s -> selectable (sel_verified_only s) n c ->
        exists r, r ∈ records /\ key r = n /\ o_pick (cr_origin r) = true
  | Err EmptySelection => has_filters s = false /\ sel_picks s = [] /\ sel_seeds s = []
  | Err (TooManyPicks n) => n = length (sort_dedup (sel_picks s)) /\ (MAX_CONCEPTS < Z.of_nat n)%Z
  | Err (CatalogFailed q) => fails q = true
  | Err _ => False
  end.
Proof.
  unfold resolve. destruct (sel_is_empty s) eqn:He.
  { unfold sel_is_empty in He. bool_prop. by rewrite !is_nil_spec in *. }
  set (picks := sort_dedup (sel_picks s)).
  destruct (Z.ltb_spec MAX_CONCEPTS (Z.of_nat (length picks))) as [Hl|Hl]; [done|].
  set (limit := Z.max _ _). destruct (ranked_ids s) as [ranking|e] eqn:Hr; cbn [rbind].
  2: { unfold ranked_ids in Hr. destruct (query_text s); [|done]. unfold ask in Hr.
       destruct (fails _) eqn:Hf; cbn in Hr; by simplify_eq. }
  unfold ask at 1. destruct (fails (QResolve picks)) eqn:Hf; cbn [rbind]; [done|].
  set (rows := resolve_rows s picks ranking limit).
  assert (map key (map (fun e => record_from_row picks e.1 e.2) rows) = rows.*1) as Hkeys.
  { rewrite map_map. apply map_ext. intros [n c]. apply record_key. }
  assert (forall n c, (n, c) ∈ rows -> selectable (sel_verified_only s) n c /\ (n ∈ picks \/ narrowed s ranking n c = true)) as Hrows.
  { intros n c Hin. apply selected_rows. unfold rows, resolve_rows in Hin.
    apply subseteq_take in Hin. by rewrite sort_by_perm in Hin. }
  split_and!.
  - rewrite Hkeys. unfold rows, resolve_rows. rewrite fmap_take.
    eapply sublist_NoDup; [|apply sublist_take]. rewrite sort_by_perm. apply rows_nodup.
  - rewrite length_map. unfold rows, resolve_rows. rewrite length_take.
    unfold limit, effective_limit, clamp, MAX_CONCEPTS in *. lia.
  - exists ranking. split; [done|]. intros r ([n c] & -> & Hin)%list_elem_of_fmap. exists c. rewrite record_key. cbn.
    destruct (Hrows n c Hin) as [Hs Hp]. split_and!; [done|done| |].
    + by rewrite <- (elem_of_sort_dedup (sel_picks s)).
    + rewrite bool_decide_eq_true. apply elem_of_sort_dedup.
  - intros n c Hn Hc. assert (n ∈ picks) as Hnp by by apply elem_of_sort_dedup.
    assert ((n, c) ∈ rows) as Hin.
    { apply picks_not_cut; [apply sort_dedup_nodup|unfold limit; lia|done|done]. }
    exists (record_from_row picks n c). split_and!; [|by rewrite record_key|by apply bool_decide_eq_true].
    apply list_elem_of_fmap. by exists (n, c).
Qed.

End resolve.

(** ** The closure *)

Section closure.
Context `{Ses : Session, EO : EdgeOrder, EL : !EdgeOrderLaws, R : Reader, RL : !ReaderLaws}.

(** The nodes after some seeds: for every node one of the hits, and none has
    fewer hops. *)
Record merged (hits : list NeighborHit) (nodes : Nodes) : Prop := {
  mg_sorted : bt_sorted nodes;
  mg_from n h : bt_get n nodes = Some h -> nh_node h = n /\ h ∈ hits;
  mg_least h : h ∈ hits -> exists h', bt_get (nh_node h) nodes = Some h' /\ (nh_hops h' <= nh_hops h)%Z
}.

Lemma merged_step hits nodes h : merged hits nodes -> merged (hits ++ [h]) (merge_hit nodes h).
Proof.
  intros [Hs Hf Hl]. unfold merge_hit. set (k := nh_node h).
  assert (merged (hits ++ [h]) (bt_insert k h nodes) <->
          (forall h', bt_get k nodes = Some h' -> (nh_hops h <= nh_hops h')%Z)) as Hins.
  { split.
    - intros [_ _ Hl'] h' Hh'. destruct (Hf _ _ Hh') as [Hn Hin].
      destruct (Hl' h') as (x & Hx & ?); [apply elem_of_app; by left|]. rewrite Hn, bt_get_insert in Hx by done.
      by injection Hx as <-.
    - intros Hmin. split; [by apply bt_insert_sorted| |].
      + intros n h'. rewrite bt_get_insert_decide by done. case_decide as Hn.
        * intros [= <-]. split; [done|]. apply elem_of_app. right. by left.
        * intros [? ?]%Hf. split; [done|]. apply elem_of_app. by left.
      + intros h' [Hin| ->%list_elem_of_singleton]%elem_of_app; rewrite bt_get_insert_decide by done.
        * destruct (Hl _ Hin) as (x & Hx & ?). case_decide as Hn; [|by exists x].
          exists h. split; [done|]. rewrite Hn in Hx. pose proof (Hmin _ Hx). lia.
        * rewrite decide_True by done. exists h. split; [done|lia]. }
  destruct (bt_get k nodes) as [old|] eqn:Hold; [|apply Hins; by intros ?].
  destruct (Z.leb_spec (nh_hops old) (nh_hops h)) as [Hle|Hlt].
  - split; [done| |].
    + intros n h' [? ?]%Hf. split; [done|]. apply elem_of_app. by left.
    + intros h' [Hin| ->%list_elem_of_singleton]%elem_of_app; [by apply Hl|]. by exists old.
  - apply Hins. intros h' [= <-]. lia.
Qed.

Lemma merged_hits hits nodes more : merged hits nodes -> merged (hits ++ more) (merge_closure_nodes nodes more).
Proof.
  revert hits nodes. induction more as [|h more IH]; intros hits nodes Hm; cbn; [by rewrite app_nil_r|].
  rewrite cons_middle, app_assoc. by apply IH, merged_step.
Qed.

(** The hits of every seed, in the order of the seeds. *)
Lemma walk_seeds_ok s seeds nodes : walk_seeds s seeds = Ok nodes ->
  exists hits, Forall2 (fun seed hs => walk_seed s seed = Ok hs) seeds hits /\ merged (concat hits) nodes.
Proof.
  unfold walk_seeds. assert (merged [] []) as H0.
  { split; [constructor|done|by intros ? ?%not_elem_of_nil]. }
  assert (forall past acc, merged past acc -> forall nodes,
    rfold (fun nodes seed => let? hits := walk_seed s seed in Ok (merge_closure_nodes nodes hits)) seeds acc = Ok nodes ->
    exists hits, Forall2 (fun seed hs => walk_seed s seed = Ok hs) seeds hits /\ merged (past ++ concat hits) nodes) as H;
    [|by apply (H [] [])].
  clear. induction seeds as [|seed seeds IH]; intros past acc Hm nodes; cbn [rfold].
  - intros [= <-]. exists []. cbn. by rewrite app_nil_r.
  - intros (acc' & Hacc & Hrest)%rbind_ok. apply rbind_ok in Hacc as (hits & Hw & [= <-]).
    destruct (IH _ _ (merged_hits _ _ hits Hm) _ Hrest) as (hs & HF & Hmg). exists (hits :: hs).
    split; [by constructor|]. cbn. by rewrite app_assoc.
Qed.

(** *** Records *)

(** The same row; only the seed mark may be new. *)
Definition marked (r r' : ConceptRecord) : Prop :=
  key r' = key r /\ o_pick (cr_origin r') = o_pick (cr_origin r) /\ o_closure (cr_origin r') = o_closure (cr_origin r) /\
  (o_seed (cr_origin r) = true -> o_seed (cr_origin r') = true).

#[local] Instance marked_preorder : PreOrder marked.
Proof. unfold marked. split; [done|]. intros a b c (-> & -> & -> & H1) (-> & -> & -> & H2). naive_solver. Qed.

Lemma marked_keys l l' : Forall2 marked l l' -> map key l' = map key l.
Proof. induction 1 as [|r r' l l' [H _] _ IH]; cbn; [done|]. by rewrite H, IH. Qed.

Lemma mark_first_ok seed records :
  match mark_first seed records with
  | Some records' => Forall2 marked records records' /\ exists r, r ∈ records' /\ key r = seed /\ o_seed (cr_origin r) = true
  | None => seed ∉ map key records
  end.
Proof.
  induction records as [|r records IH]; cbn [mark_first]; [by intros ?%not_elem_of_nil|]. case_decide as Hk.
  - split.
    + constructor; [|done]. by unfold marked.
    + exists (set_seed r). split_and!; [by left|done..].
  - destruct (mark_first seed records) as [records'|]; cbn.
    + destruct IH as (HF & x & Hx & ? & ?). split; [by constructor|]. exists x. split_and!; [by right|done..].
    + rewrite not_elem_of_cons. by split.
Qed.

Lemma mark_seeds_ok seeds records absent records' :
  fold_left mark_seed seeds (records, absent) = (records', []) ->
  absent = [] /\ Forall2 marked records records' /\
  forall seed, seed ∈ seeds -> exists r, r ∈ records' /\ key r = seed /\ o_seed (cr_origin r) = true.
Proof.
  revert records absent. induction seeds as [|seed seeds IH]; intros records absent; cbn [fold_left].
  - intros [= -> ->]. split_and!; [done|done|by intros ? ?%not_elem_of_nil].
  - unfold mark_seed at 2. cbn [fst snd]. pose proof (mark_first_ok seed records) as Hm.
    destruct (mark_first seed records) as [records1|]; intros H; apply IH in H as (Ha & HF & Hs); [|by destruct absent].
    destruct Hm as (HF1 & r & Hr & Hk & Ho). split; [done|]. split; [by etrans|].
    intros x [->|Hx]%elem_of_cons; [|by apply Hs].
    destruct (Forall2_elem_l _ _ _ _ HF Hr) as (r' & Hr' & Hk' & _ & _ & Hseed). exists r'.
    split_and!; [done|congruence|by apply Hseed].
Qed.

Lemma clear_keys records picks : map key (clear_internal_pick_origins records picks) = map key records.
Proof. unfold clear_internal_pick_origins. rewrite map_map. apply map_ext. intros r. by case_bool_decide. Qed.

Lemma closure_keys nodes records : map key (mark_closure nodes records) = map key records.
Proof. unfold mark_closure. rewrite map_map. apply map_ext. intros r. by destruct (bt_get _ _). Qed.

(** What the records of a build keep to. *)
Definition rightly (s : Selection) (r : ConceptRecord) : Prop :=
  (exists c, selectable (sel_verified_only s) (key r) c) /\ o_closure (cr_origin r) = false /\
  (o_pick (cr_origin r) = true <-> key r ∈ sel_picks s).

Lemma resolved_rightly s records : resolve s = Ok records -> Forall (rightly s) records.
Proof.
  intros Hr. pose proof (resolve_exact s) as H. rewrite Hr in H. destruct H as (_ & _ & (ranking & _ & H) & _).
  apply Forall_forall. intros r Hin. destruct (H r Hin) as (c & Hc & Hs & _ & Hp).
  split_and!; [by exists c|by rewrite Hc|apply Hp..].
Qed.

(** The internal fetch adds the missing concepts that can be selected, and
    marks none of them as a pick of its own. *)
Lemma fetched_ok s records missing records' :
  (forall n, n ∈ missing -> n ∉ map key records) -> NoDup (map key records) -> Forall (rightly s) records ->
  fetch_missing s records missing = Ok records' ->
  NoDup (map key records') /\ Forall (rightly s) records' /\ (exists more, records' = records ++ more) /\
  forall n, n ∈ map key records' <-> n ∈ map key records \/ (n ∈ missing /\ exists c, selectable (sel_verified_only s) n c).
Proof.
  intros Hnew Hnd Hall. unfold fetch_missing. destruct missing as [|m ms] eqn:Em.
  { intros [= <-]. split_and!; [done..|exists []; by rewrite app_nil_r|]. set_solver. }
  rewrite <- Em in *. clear Em m ms. intros (fetched & Hf & [= <-])%rbind_ok.
  pose proof (resolve_exact (picks_only missing (sel_verified_only s))) as Hx. rewrite Hf in Hx. cbn in Hx.
  destruct Hx as (Hndf & _ & (ranking & _ & Hrows) & Hpicks).
  assert (forall n, n ∈ map key fetched <-> n ∈ missing /\ exists c, selectable (sel_verified_only s) n c) as Hk.
  { intros n. split.
    - intros (r & -> & Hr)%list_elem_of_fmap. destruct (Hrows r Hr) as (c & _ & Hs & [Hin|Hin] & _); [by eauto|done].
    - intros (Hn & c & Hc). destruct (Hpicks n c Hn Hc) as (r & Hr & <- & _). apply list_elem_of_fmap. by exists r. }
  split_and!.
  - rewrite map_app, clear_keys. apply NoDup_app. split_and!; [done| |done].
    intros n Hn Hf'. apply Hk in Hf' as [Hm _]. by apply (Hnew n).
  - apply Forall_app. split; [done|]. apply Forall_forall.
    intros r' (r & -> & Hr)%list_elem_of_fmap. destruct (Hrows r Hr) as (c & Hc & Hs & Hm & Hp).
    assert (o_closure (cr_origin r) = false) as Hcl by by rewrite Hc.
    case_bool_decide as Hpick; (split; [by exists c|split; [done|]]); cbn; [|by split].
    rewrite Hp. split; [done|]. intros _. destruct Hm as [Hm|Hm]; [exact Hm|done].
  - by eexists.
  - intros n. rewrite map_app, clear_keys, elem_of_app, Hk. done.
Qed.

Lemma refuse_ok {A} (l : list A) f : refuse_if l f = Ok tt -> l = [].
Proof. by destruct l. Qed.

Lemma node_keys hits nodes n : merged hits nodes -> n ∈ map fst nodes <-> exists h, bt_get n nodes = Some h.
Proof.
  intros Hm. rewrite list_elem_of_fmap. setoid_rewrite (bt_get_elem _ _ _ (mg_sorted _ _ Hm)). split.
  - intros ([m h] & -> & Hin). by exists h.
  - intros (h & Hin). by exists (n, h).
Qed.

(** What a computed closure is made of. *)
Record computed (s : Selection) (records records' : list ConceptRecord) (report : ClosureReport)
    (hits : list (list NeighborHit)) (nodes : Nodes) : Prop := {
  cp_walks : Forall2 (fun seed hs => walk_seed s seed = Ok hs) (sort_dedup (sel_seeds s)) hits;
  cp_merged : merged (concat hits) nodes;
  cp_fits : length records + length (missing_nodes records (sort_dedup (sel_seeds s)) nodes) <= 500;
  cp_nodes : cl_nodes report = sort_by closure_node_le (map closure_node nodes);
  cp_nodup : NoDup (map key records');
  cp_limit : (Z.of_nat (length records') <= MAX_CONCEPTS)%Z;
  cp_visible : Forall (fun r => exists c, selectable (sel_verified_only s) (key r) c) records';
  cp_seeds seed : seed ∈ sel_seeds s -> exists r, r ∈ records' /\ key r = seed /\ o_seed (cr_origin r) = true;
  cp_keys n : n ∈ map key records' <-> n ∈ map key records \/
    ((n ∈ sel_seeds s \/ n ∈ map fst nodes) /\ exists c, selectable (sel_verified_only s) n c);
  cp_marks r : r ∈ records' -> (o_closure (cr_origin r) = true <-> key r ∈ map fst nodes) /\
                               (o_pick (cr_origin r) = true <-> key r ∈ sel_picks s);
  cp_required : sel_require_closure s = true ->
    unmaterialized_nodes nodes records' = [] /\ unresolved_edges s nodes (sort_dedup (sel_seeds s)) = Ok []
}.

Lemma marked_closure hits nodes records r' : merged hits nodes ->
  Forall (fun r => o_closure (cr_origin r) = false) records -> r' ∈ mark_closure nodes records ->
  (o_closure (cr_origin r') = true <-> key r' ∈ map fst nodes).
Proof.
  intros Hm Hc (r & -> & Hr)%list_elem_of_fmap. rewrite Forall_forall in Hc. rewrite (node_keys _ _ _ Hm).
  destruct (bt_get (key r) nodes) as [h|] eqn:Hb.
  - split; [|done]. intros _. by exists h.
  - rewrite (Hc r Hr). split; [done|]. intros [h Hh]. congruence.
Qed.

Lemma closure_computed s records records' report :
  resolve s = Ok records -> apply_closure s records = Ok (records', report) ->
  exists hits nodes, computed s records records' report hits nodes.
Proof.
  intros Hres Hok. pose proof (resolve_exact s) as Hex. rewrite Hres in Hex. destruct Hex as (Hnd & _).
  pose proof (resolved_rightly _ _ Hres) as Hright. unfold apply_closure in Hok.
  set (seeds := sort_dedup (sel_seeds s)) in *.
  apply rbind_ok in Hok as (nodes & Hnodes & Hok). destruct (walk_seeds_ok _ _ _ Hnodes) as (hits & HF & Hm).
  exists hits, nodes. set (missing := missing_nodes records seeds nodes) in *.
  destruct (Z.ltb_spec MAX_CONCEPTS (Z.of_nat (length records + length missing))) as [|Hlim]; [done|].
  apply rbind_ok in Hok as (records1 & Hfetch & Hok).
  assert (forall n, n ∈ missing <-> (n ∈ sel_seeds s \/ n ∈ map fst nodes) /\ n ∉ map key records) as Hmissing.
  { intros n. unfold missing, missing_nodes. rewrite elem_of_filter_list, elem_of_sort_dedup, elem_of_app.
    unfold seeds. by rewrite elem_of_sort_dedup, negb_true_iff, bool_decide_eq_false. }
  assert (forall n, n ∈ missing -> n ∉ map key records) as Hnew by by intros n [_ ?]%Hmissing.
  destruct (fetched_ok _ _ _ _ Hnew Hnd Hright Hfetch) as (Hnd1 & Hright1 & _ & Hkeys1).
  destruct (fold_left mark_seed seeds (records1, [])) as [records2 absent] eqn:Hmark.
  apply rbind_ok in Hok as ([] & Habsent & Hok). apply refuse_ok in Habsent as ->.
  destruct (mark_seeds_ok _ _ _ _ Hmark) as (_ & HF2 & Hseeds).
  apply rbind_ok in Hok as ([] & Hmat & Hok). apply rbind_ok in Hok as (unresolved & Hunres & Hok).
  apply rbind_ok in Hok as ([] & Hreq & [= <- <-]).
  assert (map key (mark_closure nodes records2) = map key records1) as Hkeys by by rewrite closure_keys, (marked_keys _ _ HF2).
  assert (Forall (rightly s) records2) as Hright2.
  { rewrite Forall_forall in Hright1 |- *. intros r Hr. destruct (Forall2_elem_r _ _ _ _ HF2 Hr) as (r0 & Hr0 & Hk & Hp & Hc & _).
    destruct (Hright1 r0 Hr0) as (Hs & Hc0 & Hp0). unfold rightly. by rewrite Hk, Hp, Hc. }
  rewrite Forall_forall in Hright2. split; try done; cbn.
  - unfold MAX_CONCEPTS, missing in Hlim. fold seeds. lia.
  - by rewrite Hkeys.
  - assert (length (map key records1) <= length (map key records ++ missing)) as Hle.
    { apply submseteq_length, NoDup_submseteq; [done|]. intros n [?|[? _]]%Hkeys1; apply elem_of_app; by auto. }
    rewrite length_app, <- Hkeys, !length_map in Hle. lia.
  - apply Forall_forall. intros r' (r & -> & Hr)%list_elem_of_fmap. destruct (Hright2 r Hr) as (Hs & _).
    by destruct (bt_get _ _).
  - intros seed Hs. destruct (Hseeds seed) as (r & Hr & Hk & Ho); [by apply elem_of_sort_dedup|].
    exists (match bt_get (key r) nodes with Some _ => set_closure r | None => r end).
    split; [apply list_elem_of_fmap; by exists r|]. by destruct (bt_get _ _).
  - intros n. rewrite Hkeys, Hkeys1, Hmissing. destruct (decide (n ∈ map key records)); naive_solver.
  - intros r' Hr'. split.
    + apply (marked_closure _ _ _ _ Hm) in Hr'; [done|]. apply Forall_forall. by intros r (_ & ? & _)%Hright2.
    + apply list_elem_of_fmap in Hr' as (r & -> & Hr). destruct (Hright2 r Hr) as (_ & _ & Hp). by destruct (bt_get _ _).
  - intros Hrc. rewrite Hrc in Hmat, Hreq. apply refuse_ok in Hmat, Hreq. by subst unresolved.
Qed.

(** What one seed's walk answers. *)
Definition seed_edge (s : Selection) : node -> node -> str -> Prop :=
  follows rd_db (direction_id (sel_direction s)) (relation_types_of s).

Definition hop_bound (s : Selection) : Z := Z.min (effective_hops s) rd_max_graph_hops.

(** [n] is another concept at the end of a walk of [k] edges from the seed,
    and of no shorter walk, within the bound. *)
Definition reached (s : Selection) (seed n : node) (k : Z) : Prop :=
  n <> seed /\ (k <= hop_bound s)%Z /\
  (exists p, twalk (seed_edge s) seed p n /\ Z.of_nat (length p) = (k + 1)%Z) /\
  forall p, twalk (seed_edge s) seed p n -> (k + 1 <= Z.of_nat (length p))%Z.

Context (Hguc : (1 <= rd_max_graph_hops <= 1000)%Z).

(** [n] is another concept on a walk from the seed within the bound. *)
Definition within (s : Selection) (seed n : node) : Prop :=
  n <> seed /\ exists p, twalk (seed_edge s) seed p n /\ (Z.of_nat (length p) <= hop_bound s + 1)%Z.

(** A seed with 500 others within the bound sees all of them: a walk stops at
    500 concepts, the invisible ones among them counted. *)
Definition walks_fit (s : Selection) : Prop :=
  forall seed l, seed ∈ sel_seeds s -> NoDup l -> length l = 500 -> (forall n, n ∈ l -> within s seed n) ->
    forall n, n ∈ l -> concept_visible rd_db n = true.

Lemma walk_seed_ok s seed hits : walk_seed s seed = Ok hits -> concept_visible rd_db seed = true ->
  exists raw, hits = map hit_of_row raw /\
    typed_promise rd_db seed (hop_bound s) (direction_id (sel_direction s)) (relation_types_of s) 500 raw.
Proof.
  intros Hw Hv. unfold walk_seed in Hw. apply rbind_ok in Hw as (rows & Hrows & Hw). apply ask_ok in Hrows. subst rows.
  destruct (relationship_neighbors_cases rd_max_graph_hops rd_db seed (effective_hops s) (direction_id (sel_direction s))
    (relation_types_of s) MAX_CONCEPTS Hguc) as (r & Hr & Hspec).
  rewrite Hr in Hw. destruct r as [raw|]; [|done]. injection Hw as <-. exists raw. split; [done|].
  destruct Hspec as (_ & _ & _ & _ & Hp). rewrite Hv in Hp. revert Hp.
  unfold relation_types_of. by destruct (sel_relation_types s).
Qed.

Lemma hit_reached s seed raw h :
  typed_promise rd_db seed (hop_bound s) (direction_id (sel_direction s)) (relation_types_of s) 500 raw ->
  h ∈ map hit_of_row raw -> reached s seed (nh_node h) (nh_hops h) /\ concept_visible rd_db (nh_node h) = true.
Proof.
  intros Hp (t & -> & Ht)%list_elem_of_fmap. cbn. destruct (tp_sound _ _ _ _ _ _ _ Hp _ Ht) as (_ & Hne & Hsee & Hb & Hvis).
  destruct Hvis as (p & Hw & _ & _ & Hl & Hmin & _). cbn in *. split; [|done].
  split_and!; [done|lia|by exists p|done].
Qed.

(** Every visible concept that is reached is a hit, or the walk found 500
    concepts. *)
Lemma reached_hit s seed raw n k :
  walks_fit s -> seed ∈ sel_seeds s -> concept_visible rd_db n = true ->
  typed_promise rd_db seed (hop_bound s) (direction_id (sel_direction s)) (relation_types_of s) 500 raw ->
  reached s seed n k ->
  (exists h, h ∈ map hit_of_row raw /\ nh_node h = n /\ (nh_hops h = k)%Z) \/
  exists l, NoDup l /\ length l = 500 /\ forall m, m ∈ l -> m <> seed /\ m ∈ map nh_node (map hit_of_row raw).
Proof.
  intros Hall Hseed Hv Hp (Hne & Hk & (p & Hw & Hl) & Hmin).
  assert (forall m, m ∈ th_node <$> raw -> m ∈ map nh_node (map hit_of_row raw)) as Hmap.
  { intros m Hm. by rewrite map_map. }
  destruct (tp_complete _ _ _ _ _ _ _ Hp) as [(l & Hnd & Hlen & Hin)|Hin].
  - right. exists l. split_and!; [done..|]. intros m Hm. destruct (Hin m Hm) as (Hms & (q & Hq & _) & Hhit).
    split; [done|]. apply Hmap, Hhit, (Hall seed l); [done..| |done]. intros x Hx.
    destruct (Hin x Hx) as (? & ? & _). by split.
  - left. specialize (Hin n p Hne Hw). apply list_elem_of_fmap in Hin as (t & -> & Ht); [|lia|done].
    exists (hit_of_row t). split_and!; [apply list_elem_of_fmap; by exists t|done|].
    destruct (tp_sound _ _ _ _ _ _ _ Hp _ Ht) as (_ & _ & _ & _ & (q & Hq & _ & _ & Hlq & Hminq & _)). cbn in *.
    pose proof (Hmin _ Hq). pose proof (Hminq _ Hw). lia.
Qed.

(** The nodes of a report, as concepts with their hops. *)
Definition report_node (n : node) (k : Z) (report : ClosureReport) : Prop :=
  exists c, c ∈ cl_nodes report /\ (cn_bundle_id c, cn_concept_id c) = n /\ cn_hops c = k.

(** The concepts whose edges the walk followed. *)
Definition expanded (s : Selection) (report : ClosureReport) (n : node) : Prop :=
  n ∈ sel_seeds s \/ exists k, report_node n k report /\ (k < effective_hops s)%Z.

Lemma report_spec hits nodes report n k :
  merged hits nodes -> cl_nodes report = sort_by closure_node_le (map closure_node nodes) ->
  report_node n k report <-> exists h, bt_get n nodes = Some h /\ nh_hops h = k.
Proof.
  intros Hm Hr. unfold report_node. rewrite Hr. setoid_rewrite sort_by_perm. setoid_rewrite list_elem_of_fmap. split.
  - intros (c & ([m h] & -> & Hin) & Hn & Hk). exists h. split; [|done].
    apply (bt_get_elem _ _ _ (mg_sorted _ _ Hm)) in Hin. destruct (mg_from _ _ Hm _ _ Hin) as [He _].
    cbn in Hn. rewrite <- Hn, <- surjective_pairing, He. done.
  - intros (h & Hh & Hk). destruct (mg_from _ _ Hm _ _ Hh) as [He _]. apply (bt_get_elem _ _ _ (mg_sorted _ _ Hm)) in Hh.
    exists (closure_node (n, h)). split_and!; [by exists (n, h)| |done]. cbn. by rewrite <- surjective_pairing.
Qed.

(** The merged nodes are the visible concepts some seed reaches, with the
    fewest hops, when the records and what is missing fit. *)
Lemma merged_reached s seeds hits nodes records n k :
  walks_fit s -> (forall seed, seed ∈ seeds -> seed ∈ sel_seeds s /\ concept_visible rd_db seed = true) ->
  Forall2 (fun seed hs => walk_seed s seed = Ok hs) seeds hits -> merged (concat hits) nodes ->
  length records + length (missing_nodes records seeds nodes) <= 500 ->
  (exists h, bt_get n nodes = Some h /\ nh_hops h = k) <->
  concept_visible rd_db n = true /\ (exists seed, seed ∈ seeds /\ reached s seed n k) /\ forall seed k', seed ∈ seeds -> reached s seed n k' -> (k <= k')%Z.
Proof.
  intros Hall Hvis HF Hm Hlim.
  assert (forall h, h ∈ concat hits -> exists seed, seed ∈ seeds /\ reached s seed (nh_node h) (nh_hops h) /\
            concept_visible rd_db (nh_node h) = true) as Hsound.
  { intros h Hh. apply list_elem_of_In, in_concat in Hh as (hs & Hhs & Hh). apply list_elem_of_In in Hhs, Hh.
    destruct (Forall2_elem_r _ _ _ _ HF Hhs) as (seed & Hs & Hw). exists seed. split; [done|].
    destruct (walk_seed_ok _ _ _ Hw (proj2 (Hvis _ Hs))) as (raw & -> & Hp). by eapply hit_reached. }
  assert (forall seed m k', seed ∈ seeds -> concept_visible rd_db m = true -> reached s seed m k' -> exists h, h ∈ concat hits /\ nh_node h = m /\ nh_hops h = k') as Hcomp.
  { intros seed m k' Hs Hmv Hr. destruct (Forall2_elem_l _ _ _ _ HF Hs) as (hs & Hhs & Hw).
    assert (forall h, h ∈ hs -> h ∈ concat hits) as Hconcat.
    { intros h Hh. apply list_elem_of_In, in_concat. exists hs. by rewrite <- !list_elem_of_In. }
    destruct (Hvis _ Hs) as [Hsel Hsv]. destruct (walk_seed_ok _ _ _ Hw Hsv) as (raw & -> & Hp).
    destruct (reached_hit _ _ _ _ _ Hall Hsel Hmv Hp Hr) as [(h & Hh & ? & ?)|(l & Hnd & Hlen & Hl)].
    { exists h. split_and!; [by apply Hconcat|done..]. }
    exfalso. assert (length (seed :: l) <= length (map key records ++ missing_nodes records seeds nodes)) as Hle.
    { apply submseteq_length, NoDup_submseteq.
      - constructor; [|done]. intros Hin. by apply Hl in Hin as [? _].
      - intros x Hx. apply elem_of_app. destruct (decide (x ∈ map key records)) as [?|Hnx]; [by left|right].
        unfold missing_nodes. apply elem_of_filter_list. split; [|by rewrite bool_decide_false].
        apply elem_of_sort_dedup, elem_of_app. apply elem_of_cons in Hx as [->|Hx]; [by left|right].
        apply (node_keys _ _ _ Hm). destruct (Hl x Hx) as [_ (h & -> & Hh)%list_elem_of_fmap].
        destruct (mg_least _ _ Hm h (Hconcat h Hh)) as (h' & Hh' & _). by exists h'. }
    rewrite length_app, length_map in Hle. cbn [length] in Hle. lia. }
  split.
  - intros (h & Hh & <-). destruct (mg_from _ _ Hm _ _ Hh) as [<- Hin].
    destruct (Hsound _ Hin) as (seed0 & Hs0 & Hr0 & Hv). split_and!; [done|by exists seed0|].
    intros seed k' Hs Hr. destruct (Hcomp _ _ _ Hs Hv Hr) as (h' & Hh' & Hn & <-).
    destruct (mg_least _ _ Hm _ Hh') as (h'' & Hh'' & ?). rewrite Hn, Hh in Hh''. injection Hh'' as <-. lia.
  - intros (Hv & (seed & Hs & Hr) & Hmin). destruct (Hcomp _ _ _ Hs Hv Hr) as (h & Hh & Hn & Hk).
    destruct (mg_least _ _ Hm _ Hh) as (h' & Hh' & Hle). rewrite Hn in Hh'. exists h'. split; [done|].
    destruct (mg_from _ _ Hm _ _ Hh') as [Hn' Hin']. destruct (Hsound _ Hin') as (seed' & Hs' & Hr' & _).
    rewrite Hn' in Hr'. pose proof (Hmin _ _ Hs' Hr'). lia.
Qed.

Lemma frontier_expanded s hits nodes report n :
  merged hits nodes -> cl_nodes report = sort_by closure_node_le (map closure_node nodes) ->
  n ∈ frontier_of nodes (sort_dedup (sel_seeds s)) (effective_hops s) <-> expanded s report n.
Proof.
  intros Hm Hr. unfold frontier_of, expanded. rewrite elem_of_sort_dedup, elem_of_app, elem_of_sort_dedup.
  setoid_rewrite (report_spec _ _ _ _ _ Hm Hr). rewrite list_elem_of_fmap. setoid_rewrite elem_of_filter_list.
  setoid_rewrite Z.ltb_lt. split; intros [?|H]; [by left| |by left|]; right.
  - destruct H as ([m h] & -> & Hin & Hk). exists (nh_hops h). split; [|done]. exists h. split; [|done].
    by apply bt_get_elem; [apply Hm|].
  - destruct H as (k & (h & Hh & <-) & Hk). exists (n, h). split_and!; [done| |done].
    by apply bt_get_elem in Hh; [|apply Hm].
Qed.

Lemma unresolved_mono types direction (f f' : list node) r : (forall n, n ∈ f -> n ∈ f') ->
  unresolved_row types direction f r = true -> unresolved_row types direction f' r = true.
Proof.
  intros Hf. unfold unresolved_row, target_in.
  assert (forall n, bool_decide (n ∈ f) = true -> bool_decide (n ∈ f') = true) as Hb
    by (intros n; rewrite !bool_decide_eq_true; apply Hf).
  rewrite !andb_true_iff, !orb_true_iff, !andb_true_iff, !orb_true_iff, !andb_true_iff.
  destruct (rl_target_bundle r), (rl_target_concept r); naive_solver.
Qed.

Lemma unresolved_none s nodes seeds : unresolved_edges s nodes seeds = Ok [] ->
  forall r, r ∈ current_relationships rd_db ->
    unresolved_row (relation_types_of s) (direction_id (sel_direction s))
      (frontier_of nodes seeds (effective_hops s)) r = false.
Proof.
  unfold unresolved_edges. destruct (frontier_of _ _ _) as [|x f] eqn:Ef.
  - intros _ r _. unfold unresolved_row, target_in. rewrite !bool_decide_false by by intros ?%not_elem_of_nil.
    destruct (rl_target_bundle r), (rl_target_concept r); rewrite ?bool_decide_false by (by intros ?%not_elem_of_nil);
      by rewrite !andb_false_r.
  - rewrite <- Ef. clear Ef x f. intros H%ask_ok r Hr. apply map_eq_nil in H.
    set (f := frontier_of _ _ _) in *.
    destruct (unresolved_row _ _ f r) eqn:Hu; [|done]. exfalso.
    assert (r ∈ List.filter (unresolved_row (relation_types_of s) (direction_id (sel_direction s)) f)
                  (current_relationships rd_db)) as Hin by by apply elem_of_filter_list.
    rewrite <- (sort_by_perm edge_le) in Hin. destruct (sort_by edge_le _) as [|y l]; [|done].
    by apply not_elem_of_nil in Hin.
Qed.


End closure.

(** ** The stale policy *)

(** Fresh, with no stale member. *)
Definition shippable (r : ConceptRecord) : Prop := is_stale (cr_freshness r) = false /\ stale_members r = [].

Definition mention (c : StaleConcept) : node := (sc_bundle_id c, sc_concept_id c).

Lemma dedup_from_mentions seen l n : n ∈ map mention (dedup_from seen l) <-> n ∈ map mention l /\ n ∉ seen.
Proof.
  revert seen. induction l as [|c l IH]; intros seen; cbn [dedup_from map]; [set_solver|]. fold (mention c).
  case_bool_decide as Hc.
  - rewrite IH, elem_of_cons. naive_solver.
  - cbn [map]. rewrite !elem_of_cons, IH, not_elem_of_cons.
    destruct (decide (n = mention c)); naive_solver.
Qed.

Lemma dedup_stale_mentions l n : n ∈ map mention (dedup_stale l) <-> n ∈ map mention l.
Proof. unfold dedup_stale. rewrite dedup_from_mentions. set_solver. Qed.

Lemma dedup_stale_nodup l : NoDup (map mention (dedup_stale l)).
Proof.
  unfold dedup_stale. generalize (@nil node). induction l as [|c l IH]; intros seen; cbn [dedup_from]; [constructor|].
  case_bool_decide; [apply IH|]. cbn [map]. constructor; [|apply IH].
  rewrite dedup_from_mentions. unfold mention. set_solver.
Qed.

Lemma dedup_stale_nil l : is_nil (dedup_stale l) = is_nil l.
Proof. by destruct l. Qed.

Lemma dropped_nil rc r : is_nil (dropped rc r) = true <-> shippable r.
Proof. unfold dropped, shippable. destruct (is_stale _), (stale_members r); cbn; naive_solver. Qed.

Lemma blocking_nil rc r : blocking rc r = [] <-> shippable r.
Proof. unfold blocking, shippable. destruct (is_stale _), (stale_members r); cbn; naive_solver. Qed.

Lemma mentions_concat {A} (f : A -> list StaleConcept) (l : list A) n :
  n ∈ map mention (concat (map f l)) <-> exists x, x ∈ l /\ n ∈ map mention (f x).
Proof.
  rewrite list_elem_of_fmap. setoid_rewrite elem_of_concat_map. setoid_rewrite list_elem_of_fmap. naive_solver.
Qed.

(** The stale policy.  [warn] keeps every record.  Under [exclude] a pick,
    a seed or a concept of a required closure that is stale, or is a package
    with a stale member, refuses the build, and the refusal names exactly the
    stale things among the required records; otherwise the records kept are, in
    order, exactly those that are fresh with fresh members, every required one
    among them, the exclusions name exactly what kept the others out, each
    once, and a build that would keep nothing although it had records is
    refused. *)
Lemma stale_policy_exact (s : Selection) (records : list ConceptRecord) :
  let rc := sel_require_closure s in
  match apply_stale_policy s records with
  | Ok (kept, excluded) =>
      (sel_stale_policy s = Warn /\ kept = records /\ excluded = []) \/
      (sel_stale_policy s = Exclude /\ kept = filter shippable records /\
       (forall r, r ∈ records -> required (cr_origin r) rc = true -> r ∈ kept) /\
       NoDup (map mention excluded) /\
       (forall n, n ∈ map mention excluded <-> exists r, r ∈ records /\ r ∉ kept /\ n ∈ map mention (dropped rc r)) /\
       (kept = [] -> records = []))
  | Err (Refusal (StaleRequired concepts)) =>
      sel_stale_policy s = Exclude /\ NoDup (map mention concepts) /\ concepts <> [] /\
      forall n, n ∈ map mention concepts <->
        exists r, r ∈ records /\ required (cr_origin r) rc = true /\ ~ shippable r /\ n ∈ map mention (blocking rc r)
  | Err (Refusal (NoFreshConcepts concepts)) =>
      sel_stale_policy s = Exclude /\ records <> [] /\ NoDup (map mention concepts) /\
      (forall r, r ∈ records -> required (cr_origin r) rc = false /\ ~ shippable r) /\
      forall n, n ∈ map mention concepts <-> exists r, r ∈ records /\ n ∈ map mention (dropped rc r)
  | Err _ => False
  end.
Proof.
  intros rc. unfold apply_stale_policy. fold rc. destruct (sel_stale_policy s); [by left|].
  set (must := List.filter _ records). set (out := concat (map (dropped rc) records)).
  destruct (concat (map (blocking rc) must)) as [|b bs] eqn:Hb.
  2: { split_and!; [done|apply dedup_stale_nodup|done|]. rewrite <- Hb. intros n.
       rewrite dedup_stale_mentions, mentions_concat. unfold must. setoid_rewrite elem_of_filter_list. split.
       - intros (r & [Hr Hq] & Hn). exists r. split_and!; [done..| |done]. intros Hs.
         by rewrite (proj2 (blocking_nil rc r) Hs) in Hn; apply not_elem_of_nil in Hn.
       - intros (r & Hr & Hq & _ & Hn). by exists r. }
  rewrite concat_map_nil in Hb. set (kept := List.filter _ records).
  assert (kept = filter shippable records) as Hkept.
  { unfold kept. clear. induction records as [|r records IH]; [done|]. cbn [List.filter]. rewrite IH.
    destruct (is_nil (dropped rc r)) eqn:Hd.
    - rewrite filter_cons_True; [done|]. by apply (dropped_nil rc).
    - rewrite filter_cons_False; [done|]. intros Hs%(dropped_nil rc). congruence. }
  assert (forall r, r ∈ records -> required (cr_origin r) rc = true -> shippable r) as Hreq.
  { intros r Hr Hq. apply (blocking_nil rc), Hb. unfold must. by apply elem_of_filter_list. }
  rewrite dedup_stale_nil. destruct (negb (is_nil out) && is_nil kept) eqn:He.
  - bool_prop. apply is_nil_spec in H0. rewrite Hkept in H0.
    assert (forall r, r ∈ records -> ~ shippable r) as Hno.
    { intros r Hr Hs. apply (not_elem_of_nil r). rewrite <- H0. by apply list_elem_of_filter. }
    split_and!; [done| |apply dedup_stale_nodup| |].
    + intros Hnil. unfold out in H. by rewrite Hnil in H.
    + intros r Hr. split; [|by apply Hno]. destruct (required _ _) eqn:Hq; [|done]. by destruct (Hno r Hr (Hreq r Hr Hq)).
    + intros n. rewrite dedup_stale_mentions. apply mentions_concat.
  - right. rewrite Hkept. split_and!; [done..| |apply dedup_stale_nodup| |].
    + intros r Hr Hq. apply list_elem_of_filter. auto.
    + intros n. rewrite dedup_stale_mentions. unfold out. rewrite mentions_concat. split.
      * intros (r & Hr & Hn). exists r. split_and!; [done| |done]. intros [Hs%(dropped_nil rc) _]%list_elem_of_filter.
        apply is_nil_spec in Hs. rewrite Hs in Hn. by apply not_elem_of_nil in Hn.
      * intros (r & Hr & _ & Hn). by exists r.
    + intros Hnil. rewrite Hkept, Hnil, andb_true_r in He. apply negb_false_iff, is_nil_spec in He.
      unfold out in He. rewrite concat_map_nil in He. destruct records as [|r rs]; [done|exfalso].
      apply (not_elem_of_nil r). rewrite <- Hnil. apply list_elem_of_filter. split; [|by left].
      apply (dropped_nil rc). rewrite He; [done|by left].
Qed.

(** ** The whole resolution *)

Section selected.
Context `{Ses : Session, EO : EdgeOrder, EL : !EdgeOrderLaws, R : Reader, RL : !ReaderLaws}.

Lemma bt_extend_sorted {V} (l m : list (str * V)) : bt_sorted m -> bt_sorted (bt_extend l m).
Proof. revert m. induction l as [|x l IH]; intros m Hs; [done|]. by apply IH, bt_insert_sorted. Qed.

Lemma bt_extend_ne {V} (l m : list (str * V)) k : bt_sorted m -> k ∉ l.*1 -> bt_get k (bt_extend l m) = bt_get k m.
Proof.
  revert m. induction l as [|[k' v] l IH]; intros m Hs Hn; [done|]. cbn in Hn. apply not_elem_of_cons in Hn as [Hne Hn].
  change (bt_extend ((k', v) :: l) m) with (bt_extend l (bt_insert k' v m)).
  rewrite IH by (done || by apply bt_insert_sorted). apply bt_get_insert_ne; [done|congruence].
Qed.

Lemma bt_extend_elem {V} (l m : list (str * V)) k v :
  bt_sorted m -> NoDup l.*1 -> (k, v) ∈ l -> (k, v) ∈ bt_extend l m.
Proof.
  intros Hs Hnd Hin. apply bt_get_elem; [by apply bt_extend_sorted|]. revert m Hs.
  induction l as [|[k' v'] l IH]; intros m Hs; [by apply not_elem_of_nil in Hin|].
  cbn in Hnd. apply NoDup_cons in Hnd as [Hk Hnd].
  change (bt_extend ((k', v') :: l) m) with (bt_extend l (bt_insert k' v' m)).
  apply elem_of_cons in Hin as [[= -> ->]|Hin]; [|by apply IH, bt_insert_sorted].
  rewrite bt_extend_ne by (done || by apply bt_insert_sorted). by apply bt_get_insert.
Qed.

Lemma bt_sorted_nodup {V} (m : list (str * V)) : bt_sorted m -> NoDup m.*1.
Proof.
  unfold bt_sorted. induction 1 as [|x l _ IH HF]; constructor; [|done].
  rewrite Forall_forall in HF. intros Hx. by apply HF, klt_irrefl in Hx.
Qed.

(** The freshness of a visible member is in the package's map. *)
Lemma members_complete package m c f :
  concept_visible rd_db (package.1, m) = true -> rd_concepts !! (package.1, m) = Some c ->
  member_of c = Some package.2 -> freshness_read (package.1, m) = Some f -> (m, f) ∈ members_freshness package.
Proof.
  intros Hv Hc Hm Hf. unfold members_freshness. apply bt_extend_elem; [constructor| |].
  - unfold visible_concepts. pose proof (NoDup_fst_map_to_list rd_concepts) as Hnd.
    induction (map_to_list rd_concepts) as [|[[b i] c'] es IH]; [constructor|].
    apply NoDup_cons in Hnd as [Hn Hnd]. specialize (IH Hnd). cbn [List.filter fst].
    destruct (concept_visible rd_db (b, i)); [|exact IH]. cbn. case_bool_decide as Hb; [|exact IH].
    destruct (freshness_read (b, i)); [|exact IH]. cbn in *. constructor; [|exact IH].
    intros ([i' f'] & -> & Hin)%list_elem_of_fmap. apply Hn.
    apply list_elem_of_omap in Hin as ([[b2 i2] c2] & Hin & He). cbn in He. case_bool_decide as Hb2; [|done].
    destruct (freshness_read (b2, i2)); [|done]. cbn in *. simplify_eq. apply elem_of_filter_list in Hin as [Hin _].
    apply list_elem_of_fmap. exists ((b2, i'), c2). split; [|done]. cbn. destruct Hb, Hb2. by subst.
  - apply list_elem_of_omap. exists ((package.1, m), c). split.
    + unfold visible_concepts. apply elem_of_filter_list. by rewrite elem_of_map_to_list.
    + cbn. rewrite bool_decide_true by done. by rewrite Hf.
Qed.

Lemma members_sorted package : bt_sorted (members_freshness package).
Proof. apply bt_extend_sorted. constructor. Qed.

(** What freshness adds to a record. *)
Definition freshened (r r' : ConceptRecord) : Prop :=
  key r' = key r /\ cr_origin r' = cr_origin r /\
  (forall f, freshness_read (key r) = Some f -> cr_freshness r' = f) /\
  (forall p, cr_package r' = Some p -> pk_member_freshness p = bt_extend (members_freshness (key r)) []).

(** A record as the statement made it. *)
Definition bare (r : ConceptRecord) : Prop := forall p, cr_package r = Some p -> pk_member_freshness p = [].

Lemma freshness_ok records records1 records2 :
  Forall bare records -> apply_freshness records = Ok records1 -> apply_member_freshness records1 = Ok records2 ->
  Forall2 freshened records records2.
Proof.
  intros Hb H1 H2. set (add := fun r => match freshness_read (key r) with Some f => with_freshness f r | None => r end).
  assert (records1 = map add records) as ->.
  { unfold apply_freshness in H1. destruct records; [by injection H1|]. by apply ask_ok in H1. }
  assert (forall r, key (add r) = key r /\ cr_origin (add r) = cr_origin r /\ cr_package (add r) = cr_package r /\
                    forall f, freshness_read (key r) = Some f -> cr_freshness (add r) = f) as Hadd.
  { intros r. unfold add. destruct (freshness_read (key r)) eqn:E; split_and!; try done; naive_solver. }
  unfold apply_member_freshness in H2. destruct (existsb _ _) eqn:Hp.
  - apply ask_ok in H2. subst records2. clear Hp H1. rewrite map_map.
    induction Hb as [|r records Hr _ IH]; [constructor|]. cbn [map]. constructor; [|exact IH].
    destruct (Hadd r) as (Hk & Ho & Hpk & Hf). unfold with_members, freshened. rewrite Hpk.
    destruct (cr_package r) as [p|] eqn:Ep.
    + split_and!; [exact Hk|exact Ho|exact Hf|]. cbn. intros p' [= <-]. cbn. by rewrite (Hr p Ep), Hk.
    + split_and!; [exact Hk|exact Ho|exact Hf|]. intros p'. by rewrite Hpk.
  - injection H2 as <-. clear H1. induction Hb as [|r records Hr _ IH]; [constructor|].
    cbn in Hp. apply orb_false_iff in Hp as [Hp Hps]. destruct (Hadd r) as (Hk & Ho & Hpk & Hf).
    constructor; [|by apply IH].
    unfold freshened. split_and!; [done..|]. intros p Hpr. rewrite Hpr in Hp. by apply bool_decide_eq_false in Hp as [].
Qed.

Lemma resolved_bare s records : resolve s = Ok records -> Forall bare records.
Proof.
  intros Hr. pose proof (resolve_exact s) as H. rewrite Hr in H. destruct H as (_ & _ & (ranking & _ & H) & _).
  apply Forall_forall. intros r Hin p Hp. destruct (H r Hin) as (c & Hc & _). rewrite Hc in Hp. cbn in Hp.
  unfold package_from_row in Hp. destruct (cc_skill c) as [[[name root] hash]|]; [|done]. by injection Hp as <-.
Qed.

(** The records of the selection and its closure, before freshness. *)
Definition gathered (s : Selection) (records : list ConceptRecord) : Prop :=
  Forall bare records /\ NoDup (map key records) /\ (Z.of_nat (length records) <= MAX_CONCEPTS)%Z /\
  (forall r, r ∈ records -> o_pick (cr_origin r) = true <-> key r ∈ sel_picks s) /\
  (forall n c, n ∈ sel_picks s -> selectable (sel_verified_only s) n c -> n ∈ map key records) /\
  (forall seed, seed ∈ sel_seeds s -> exists r, r ∈ records /\ key r = seed /\ o_seed (cr_origin r) = true) /\
  Forall (fun r => exists c, selectable (sel_verified_only s) (key r) c) records.

Lemma resolved_gathered s records : resolve s = Ok records -> sel_seeds s = [] -> gathered s records.
Proof.
  intros Hr Hs. pose proof (resolve_exact s) as H. rewrite Hr in H. destruct H as (Hnd & Hl & (ranking & _ & H) & Hp).
  split_and!; [by eapply resolved_bare|done|done| | | |].
  - intros r Hin. by destruct (H r Hin) as (c & _ & _ & _ & ?).
  - intros n c Hn Hc. destruct (Hp n c Hn Hc) as (r & Hin & <- & _). apply list_elem_of_fmap. by exists r.
  - rewrite Hs. by intros seed ?%not_elem_of_nil.
  - apply Forall_forall. intros r Hin. destruct (H r Hin) as (c & _ & Hc & _). by exists c.
Qed.

Lemma set_origin_bare records f : Forall bare records -> (forall r, cr_package (f r) = cr_package r) -> Forall bare (map f records).
Proof. intros Hb Hf. apply Forall_map. eapply Forall_impl; [exact Hb|]. intros r Hr p. cbn. rewrite Hf. apply Hr. Qed.

Lemma mark_first_bare seed records records' : mark_first seed records = Some records' -> Forall bare records -> Forall bare records'.
Proof.
  revert records'. induction records as [|r records IH]; intros records'; cbn; [done|]. intros H [Hr Hb]%Forall_cons.
  case_decide; [injection H as <-; by constructor|]. destruct (mark_first seed records); [|done]. injection H as <-.
  constructor; [done|by apply IH].
Qed.

Lemma closure_bare s records records' report :
  Forall bare records -> apply_closure s records = Ok (records', report) -> Forall bare records'.
Proof.
  intros Hb Hok. unfold apply_closure in Hok. apply rbind_ok in Hok as (nodes & _ & Hok). destruct (_ <? _)%Z; [done|].
  apply rbind_ok in Hok as (records1 & Hf & Hok).
  assert (Forall bare records1) as Hb1.
  { unfold fetch_missing in Hf. destruct (missing_nodes _ _ _); [by injection Hf as <-|].
    apply rbind_ok in Hf as (fetched & Hr & [= <-]). apply Forall_app. split; [done|].
    apply set_origin_bare; [by eapply resolved_bare|]. intros r. by case_bool_decide. }
  destruct (fold_left mark_seed _ _) as [records2 absent] eqn:Hm.
  apply rbind_ok in Hok as ([] & _ & Hok). apply rbind_ok in Hok as ([] & _ & Hok).
  apply rbind_ok in Hok as (unresolved & _ & Hok). apply rbind_ok in Hok as ([] & _ & [= <- _]).
  apply set_origin_bare; [|intros r; by destruct (bt_get _ _)].
  revert Hm Hb1. generalize (@nil node). clear. revert records1. induction (sort_dedup (sel_seeds s)) as [|seed seeds IH];
    intros records1 ab; cbn; [by intros [= -> _]|]. unfold mark_seed at 2. cbn.
  destruct (mark_first seed records1) as [r1|] eqn:Hf; intros Hm Hb; [|by eapply IH].
  eapply IH; [exact Hm|]. by eapply mark_first_bare.
Qed.

Lemma closure_gathered s records records' report :
  resolve s = Ok records -> apply_closure s records = Ok (records', report) -> gathered s records'.
Proof.
  intros Hr Hok. destruct (closure_computed _ _ _ _ Hr Hok) as (hits & nodes & C).
  split_and!; [by eapply closure_bare, Hok; eapply resolved_bare|apply C|apply C| | |apply C|apply C].
  - intros r Hin. by apply C.
  - intros n c Hn Hc. apply (cp_keys _ _ _ _ _ _ C). left. pose proof (resolve_exact s) as H. rewrite Hr in H.
    destruct H as (_ & _ & _ & Hp). destruct (Hp n c Hn Hc) as (r & Hin & <- & _). apply list_elem_of_fmap. by exists r.
Qed.

(** What the policy leaves of the records. *)
Lemma policy_keeps s records kept excluded : apply_stale_policy s records = Ok (kept, excluded) ->
  kept `sublist_of` records /\ (forall r, r ∈ records -> required (cr_origin r) (sel_require_closure s) = true -> r ∈ kept) /\
  (sel_stale_policy s = Exclude -> Forall shippable kept).
Proof.
  intros Hp. pose proof (stale_policy_exact s records) as H. cbn in H. rewrite Hp in H.
  destruct H as [(Hw & -> & _)|(_ & -> & Hreq & _)].
  - split_and!; [done|done|by rewrite Hw].
  - split_and!; [apply sublist_filter|done|]. intros _. apply Forall_forall. by intros r [? _]%list_elem_of_filter.
Qed.

(** What a successful resolution is: its records are distinct, few and
    selectable, it has the picks and the seeds, and exclude excludes. *)
Lemma resolved_facts (s : Selection) (records : list ConceptRecord) (report : BuildReport)
    (Hok : resolve_selected s = Ok (records, report)) :
  NoDup (map key records) /\ (Z.of_nat (length records) <= MAX_CONCEPTS)%Z /\
  (forall n c, n ∈ sel_picks s -> selectable (sel_verified_only s) n c -> n ∈ map key records) /\
  (forall seed, seed ∈ sel_seeds s -> seed ∈ map key records) /\
  (rp_freshness_available report = true -> sel_stale_policy s = Exclude -> forall r, r ∈ records ->
     (forall f, freshness_read (key r) = Some f -> is_stale f = false) /\
     forall m c f, is_Some (cr_package r) -> concept_visible rd_db (cr_bundle_id r, m) = true ->
       rd_concepts !! (cr_bundle_id r, m) = Some c -> member_of c = Some (cr_concept_id r) ->
       freshness_read (cr_bundle_id r, m) = Some f -> is_stale f = false) /\
  Forall (fun r => exists c, selectable (sel_verified_only s) (key r) c) records.
Proof.
  unfold resolve_selected in Hok. apply rbind_ok in Hok as (caps & _ & Hok).
  apply rbind_ok in Hok as (records0 & Hres & Hok). apply rbind_ok in Hok as ([records1 closure] & Hclo & Hok).
  assert (gathered s records1) as (Hb & Hnd & Hl & Hpick & Hpicks & Hseeds & Hselectable).
  { destruct (is_nil (sel_seeds s)) eqn:Hs.
    - injection Hclo as <- _. by apply resolved_gathered, is_nil_spec.
    - destruct (cap_typed_relationships caps); [|done]. apply rbind_ok in Hclo as ([r c] & Hc & [= <- _]).
      by eapply closure_gathered. }
  apply rbind_ok in Hok as (records2 & Hfresh & Hok). apply rbind_ok in Hok as ([kept excluded] & Hpol & [= <- <-]).
  assert (Forall2 (fun r r' => key r' = key r /\ cr_origin r' = cr_origin r) records1 records2 /\
          (cap_freshness caps = true -> Forall2 freshened records1 records2)) as [HF HF'].
  { destruct (cap_freshness caps).
    - apply rbind_ok in Hfresh as (r & H1 & H2). pose proof (freshness_ok _ _ _ Hb H1 H2) as HF.
      split; [|done]. eapply Forall2_impl; [exact HF|]. by intros ? ? (? & ? & _).
    - injection Hfresh as <-. split; [|done]. apply Forall_Forall2_diag, Forall_forall. done. }
  assert (map key records2 = map key records1) as Hkeys.
  { clear -HF. induction HF as [|? ? ? ? [? _] _ IH]; cbn; congruence. }
  destruct (policy_keeps _ _ _ _ Hpol) as (Hsub & Hreq & Hship).
  assert (forall n, (exists r, r ∈ records1 /\ key r = n /\ (o_pick (cr_origin r) = true \/ o_seed (cr_origin r) = true)) ->
                    n ∈ map key kept) as Hin.
  { intros n (r & Hr & <- & Ho). destruct (Forall2_elem_l _ _ _ _ HF Hr) as (r' & Hr' & Hk & Hor).
    apply list_elem_of_fmap. exists r'. split; [done|]. apply Hreq; [done|]. unfold required. rewrite Hor.
    destruct Ho as [-> | ->]; [done|]. by rewrite orb_true_r. }
  split_and!.
  - eapply sublist_NoDup; [|apply (fmap_sublist key _ _ Hsub)]. by rewrite <- Hkeys in Hnd.
  - pose proof (sublist_length _ _ Hsub) as Hlen. rewrite <- (length_map key records2), Hkeys, length_map in Hlen. lia.
  - intros n c Hn Hc. apply Hin. pose proof (Hpicks n c Hn Hc) as (r & -> & Hr)%list_elem_of_fmap.
    exists r. split_and!; [done..|]. left. by apply Hpick.
  - intros seed Hs. apply Hin. destruct (Hseeds seed Hs) as (r & Hr & Hk & Ho). eauto.
  - cbn. intros Hcap Hex r Hr. specialize (HF' Hcap). specialize (Hship Hex). rewrite Forall_forall in Hship.
    destruct (Hship r Hr) as [Hfr Hmem]. assert (r ∈ records2) as Hr2 by (by eapply sublist_subseteq).
    destruct (Forall2_elem_r _ _ _ _ HF' Hr2) as (r0 & _ & Hk & _ & Hf & Hm). split.
    + intros f He. rewrite Hk in He. by rewrite <- (Hf f He).
    + intros m c f [p Hp] Hv Hc Hmc He. destruct (is_stale f) eqn:Hst; [|done]. exfalso.
      assert ((m, f) ∈ stale_members r) as Hin'.
      { unfold stale_members. rewrite Hp. apply elem_of_filter_list. split; [|done]. rewrite (Hm p Hp), <- Hk.
        apply bt_extend_elem; [constructor|apply bt_sorted_nodup, members_sorted|].
        by eapply (members_complete (key r)). }
      rewrite Hmem in Hin'. by apply not_elem_of_nil in Hin'.
  - apply Forall_forall. intros r Hr. assert (key r ∈ map key records1) as (r1 & Hk & Hr1)%list_elem_of_fmap.
    { rewrite <- Hkeys. apply (list_elem_of_fmap_2 key). by eapply sublist_subseteq. }
    rewrite Forall_forall in Hselectable. rewrite Hk. by apply Hselectable.
Qed.

(** C14: A resolved build.  Every pick the session can select and every seed is
    among its records.  If the catalog reports freshness and the policy is
    [exclude], no record is stale by the row a build reads for it, the concept's
    own or else its bundle's (the override of a path, which the catalog puts
    between the two, is not read), nor is by its row any visible member of a
    package among the records. *)
Theorem resolved_build (s : Selection) (records : list ConceptRecord) (report : BuildReport)
    (Hok : resolve_selected s = Ok (records, report)) :
  (forall n c, n ∈ sel_picks s -> selectable (sel_verified_only s) n c -> n ∈ map key records) /\
  (forall seed, seed ∈ sel_seeds s -> seed ∈ map key records) /\
  (rp_freshness_available report = true -> sel_stale_policy s = Exclude -> forall r, r ∈ records ->
     (forall f, freshness_read (key r) = Some f -> is_stale f = false) /\
     forall m c f, is_Some (cr_package r) -> concept_visible rd_db (cr_bundle_id r, m) = true ->
       rd_concepts !! (cr_bundle_id r, m) = Some c -> member_of c = Some (cr_concept_id r) ->
       freshness_read (cr_bundle_id r, m) = Some f -> is_stale f = false).
Proof. by destruct (resolved_facts s records report Hok) as (_ & _ & ? & ? & ? & _). Qed.

End selected.

(** ** Content *)

Section content.
Context `{R : Reader} (sha256_hex yaml_string : str -> str).

Abbreviation load_one := (load_one sha256_hex yaml_string).

(** The bytes are those the listing promised. *)
Definition promised_bytes (bytes sha : str) : Prop := sha = [] \/ sha256_hex bytes = sha.

Lemma verify_ok bytes sha id : verify_sha256 sha256_hex bytes sha id = Ok tt -> promised_bytes bytes sha.
Proof.
  unfold verify_sha256, promised_bytes. destruct sha as [|c sha]; [by left|]. cbn. case_bool_decide; [by right|done].
Qed.

(** What is there of a record once it is loaded. *)
Definition intact (r : ConceptRecord) : Prop :=
  (forall p f, cr_package r = Some p -> f ∈ pk_resources p -> promised_bytes (rf_bytes f) (rf_sha256 f)) /\
  (forall res, cr_package r = None -> cr_resource r = Some res ->
     cr_exact r = true /\ promised_bytes (cr_bytes r) (rs_sha256 res)).

Lemma load_member_ok r entry f : load_member sha256_hex r entry = Ok (Some f) -> promised_bytes (rf_bytes f) (rf_sha256 f).
Proof.
  destruct entry as [[[[id class] path] sha] hash]. unfold load_member. destruct (_ || _); [done|].
  intros (bytes & _ & H)%rbind_ok. destruct bytes as [bytes|]; [|done].
  apply rbind_ok in H as ([] & Hv & [= <-]). by apply verify_ok in Hv.
Qed.

Lemma load_one_ok r r' there : load_one r = Ok (r', there) ->
  key r' = key r /\ cr_resource r' = cr_resource r /\ (there = true -> intact r').
Proof.
  unfold Selection.load_one, intact. destruct (cr_package r) as [p|] eqn:Hp.
  - unfold load_package. intros (row & _ & H)%rbind_ok. destruct row as [answer|]; [|by injection H as <- <-].
    destruct (_ <? _)%nat; [done|]. apply rbind_ok in H as (members & Hm & [= <- <-]). cbn. split_and!; [done..|].
    intros _. split; [|done]. intros p' f [= <-] Hf. cbn in Hf. apply rmap_list_ok in Hm.
    apply list_elem_of_omap in Hf as (m & Hin & Hf). destruct (Forall2_elem_r _ _ _ _ Hm Hin) as (e & _ & He).
    subst m. by eapply load_member_ok.
  - destruct (cr_resource r) as [res|] eqn:Hr.
    + intros (bytes & _ & H)%rbind_ok. destruct bytes as [bytes|]; [|injection H as <- <-; by rewrite Hr].
      apply rbind_ok in H as ([] & Hv & [= <- <-]). cbn. split_and!; [done..|]. intros _. split; [done|].
      intros res' _. rewrite Hr. intros [= <-]. split; [done|]. by eapply verify_ok.
    + intros (source & _ & H)%rbind_ok. destruct (match source with Some _ => _ | None => _ end).
      * injection H as <- <-. cbn. rewrite Hr. by split_and!.
      * apply rbind_ok in H as (body & _ & [= <- <-]). cbn. rewrite Hr. by split_and!.
Qed.

Definition total (records : list ConceptRecord) : Z := fold_right Z.add 0%Z (map record_bytes records).

Lemma record_bytes_pos r : (0 <= record_bytes r)%Z.
Proof.
  unfold record_bytes, len. destruct (cr_package r) as [p|]; [|lia].
  induction (pk_resources p); cbn; lia.
Qed.

Lemma total_sub l l' : l `sublist_of` l' -> (total l <= total l')%Z.
Proof.
  unfold total. induction 1 as [|r l l' _ IH|r l l' _ IH]; cbn; [lia|lia|]. pose proof (record_bytes_pos r). lia.
Qed.

Lemma load_all_ok before records loaded : (before <= MAX_CONTENT_BYTES)%Z ->
  load_all sha256_hex yaml_string before records = Ok loaded ->
  Forall2 (fun r e => key e.1 = key r /\ cr_resource e.1 = cr_resource r /\ (e.2 = true -> intact e.1)) records loaded /\
  (before + total (map fst loaded) <= MAX_CONTENT_BYTES)%Z.
Proof.
  revert before loaded. induction records as [|r records IH]; intros before loaded Hb; cbn [load_all].
  - intros [= <-]. cbn. split; [constructor|lia].
  - intros ([r' there] & Hr & H)%rbind_ok. destruct (Z.ltb_spec MAX_CONTENT_BYTES (before + record_bytes r')) as [|Hle]; [done|].
    apply rbind_ok in H as (rest & Hrest & [= <-]). destruct (IH _ _ Hle Hrest) as [HF Ht].
    split; [constructor; [by apply load_one_ok|done]|]. unfold total in *. cbn. lia.
Qed.

(** Loading content.  What is loaded are records of the resolution, in
    their order; no resource comes along whose package is in the selection;
    every resource, on its own or in a package, has the bytes whose digest the
    catalog listed; a document that loaded nothing is gone; and all of it
    together stays within the ceiling, which is checked after every record. *)
Lemma load_sources_intact (records loaded : list ConceptRecord)
    (Hok : load_sources sha256_hex yaml_string records = Ok loaded) :
  map key loaded `sublist_of` map key records /\
  (forall r, r ∈ loaded -> intact r /\ (cr_resource r = None -> cr_bytes r <> []) /\
     forall res p, cr_resource r = Some res -> p ∈ records -> is_Some (cr_package p) ->
       key p <> (cr_bundle_id r, rs_package_concept_id res)) /\
  (total loaded <= MAX_CONTENT_BYTES)%Z.
Proof.
  unfold load_sources in Hok. apply rbind_ok in Hok as (all & Hall & [= <-]).
  set (kept := drop_packaged_resources records) in *.
  destruct (load_all_ok 0 kept all) as [HF Ht]; [done..|]. set (keep := fun e : ConceptRecord * bool => _).
  split_and!.
  - transitivity (map key kept); [|apply (fmap_sublist key), filter_list_sublist].
    assert (map key kept = map (fun e => key e.1) all) as ->.
    { clear -HF. induction HF as [|? ? ? ? [Hk _] _ IH]; cbn; [done|]. by rewrite Hk, IH. }
    rewrite map_map. apply (fmap_sublist (fun e : ConceptRecord * bool => key e.1)), filter_list_sublist.
  - intros r ([r0 there] & -> & [Hin Hk]%elem_of_filter_list)%list_elem_of_fmap. unfold keep in Hk. cbn in Hk |- *.
    apply andb_true_iff in Hk as [Hthere Hb]. apply orb_true_iff in Hb.
    destruct (Forall2_elem_r _ _ _ _ HF Hin) as (r1 & Hr1 & Hkey & Hres & Hint). cbn in *. split_and!.
    + by apply Hint.
    + intros Hn Hnil. rewrite Hn, Hnil in Hb. by destruct Hb.
    + intros res p Hr Hp Hpk Heq. unfold kept, drop_packaged_resources in Hr1.
      apply elem_of_filter_list in Hr1 as [_ Hr1]. rewrite <- Hres, Hr in Hr1. apply negb_true_iff, bool_decide_eq_false in Hr1. apply Hr1.
      injection Hkey as Hkb _. rewrite <- Hkb, <- Heq. apply list_elem_of_fmap. exists p. split; [done|].
      apply elem_of_filter_list. by rewrite bool_decide_eq_true.
  - assert (total (map fst (List.filter keep all)) <= total (map fst all))%Z; [|lia].
    apply total_sub, (fmap_sublist fst), filter_list_sublist.
Qed.

End content.
