(* ===== verification/SelectionExamples.v ===== *)
(** * A build to try

    The catalog of [TypedWalk.demo_graph] with columns and freshness, and the
    theorems on selections at a concrete one. *)
From stdpp Require Import prelude strings gmap list sorting.
From Stdlib Require Import Ascii ZArith Lia.
From S2P Require Import Prelude Str BTree CatalogError Security Catalog Neighbors TypedWalk Selection SelectionProps.

#[export] Existing Instance demo_session.
#[export] Existing Instance demo_edge_order.
#[export] Existing Instance demo_edge_laws.

Definition plain_columns (path title : string) : ConceptColumns :=
  {| cc_path := lit path; cc_title := Some (lit title); cc_description := None; cc_type := Some (lit "Note");
     cc_tags := Some [lit "x"]; cc_file_hash := lit "h"; cc_trust_tier := Some (lit "human-reviewed"); cc_status := None;
     cc_skill := None; cc_script := None; cc_reference := None |}.

(** [b] is a package, [c] its script; the other bundle is stale. *)
Definition demo_columns : gmap (Z * list ascii) ConceptColumns :=
  {[ (1%Z, lit "a") := plain_columns "a.md" "A";
     (1%Z, lit "b") := {| cc_path := lit "skills/b/SKILL.md"; cc_title := Some (lit "B"); cc_description := None;
       cc_type := Some (lit "Skill"); cc_tags := None; cc_file_hash := lit "h"; cc_trust_tier := None; cc_status := None;
       cc_skill := Some (Some (lit "b"), lit "skills/b", lit "hash"); cc_script := None; cc_reference := None |};
     (1%Z, lit "c") := {| cc_path := lit "skills/b/scripts/c.sh"; cc_title := None; cc_description := None;
       cc_type := None; cc_tags := None; cc_file_hash := lit "h"; cc_trust_tier := None; cc_status := None;
       cc_skill := None; cc_script := Some (lit "scripts/c.sh", lit "b", lit "sha"); cc_reference := None |};
     (2%Z, lit "d") := plain_columns "d.md" "D" ]}.

Definition stale_row : BundleFreshness :=
  {| bf_tenant := lit "default"; bf_state := lit "stale"; bf_reasons := [lit "source_changed"]; bf_observed := None;
     bf_materialized_source := None; bf_materialized_catalog := None; bf_stale_since := None;
     bf_last_reconciled_at := None; bf_producer := None; bf_manifest_hash := None; bf_embedding_contract := None;
     bf_epoch := 0; bf_claimed := 0; bf_coverage_missing := None; bf_updated_at := 0 |}.

Definition demo_build_db : Db :=
  {| bundles := bundles demo_graph; bundle_freshness := {[ 2%Z := stale_row ]};
     concept_freshness := ∅; freshness_dependency := []; publication_fence := ∅; catalog_change_event := [];
     relationship_publication := relationship_publication demo_graph; relationship := take 4 (relationship demo_graph);
     concepts := concepts demo_graph; sync_log := []; config := config demo_graph;
     bundle_seq := 2; dependency_seq := 0; event_seq := 0; publication_seq := 1; log_seq := 0 |}.

Definition reader_of (d : Db) : Reader := {|
  rd_db := d;
  rd_concepts := demo_columns;
  rd_capabilities := Some [(lit "effective_freshness", 1%Z); (lit "typed_relationships", 1%Z)];
  rd_max_graph_hops := 5;
  rd_search q bundle limit type tags := [];
  rd_skill n := if decide (n = (1%Z, lit "b"))
                then Some (Some {| sk_skill_md := lit "# B"; sk_root := lit "skills/b"; sk_hash := lit "hash"; sk_name := None;
                                   sk_listing := [(lit "c", lit "script", lit "scripts/c.sh", lit "sha", lit "h")] |})
                else None;
  rd_script n := if decide (n = (1%Z, lit "c")) then Some (Some (lit "exit 0")) else None;
  rd_reference n := None;
  rd_source n := None;
  rd_body n := if decide (n = (1%Z, lit "a")) then Some (lit "Text of A.") else None;
  fails q := false;
  text_le a b := sort_le a b
|}.

#[export] Instance demo_reader : Reader := reader_of demo_build_db.

#[export] Instance demo_reader_laws : ReaderLaws.
Proof.
  constructor. intros n. assert (dom demo_columns = concepts demo_build_db) as Hdom.
  { refine (bool_decide_eq_true_1 (dom demo_columns = concepts demo_build_db) _). by_eval. }
  change (is_Some (demo_columns !! n) <-> n ∈ concepts demo_build_db). by rewrite <- elem_of_dom, Hdom.
Qed.

(** From [a], three hops out, picking the script. *)
Definition demo_selection (policy : StalePolicy) (require_closure : bool) : Selection :=
  {| sel_all := false; sel_bundle_ids := []; sel_concept_ids := []; sel_tags := []; sel_types := []; sel_query := None;
     sel_verified_only := false; sel_limit := Some 1%Z; sel_picks := [(1%Z, lit "c")]; sel_stale_policy := policy;
     sel_seeds := [(1%Z, lit "a")]; sel_relation_types := []; sel_direction := Outbound; sel_hops := Some 4%Z;
     sel_require_closure := require_closure |}.

Abbreviation resolved s := (match resolve s with Ok r => r | Err _ => [] end).
Abbreviation closed s := (apply_closure s (resolved s)).

Example closure_found :
  match closed (demo_selection Warn false) with
  | Ok (records, report) => (map key records, map (fun c => (cn_concept_id c, cn_hops c)) (cl_nodes report))
  | Err _ => ([], [])
  end
  = ([(1%Z, lit "c"); (1%Z, lit "a"); (1%Z, lit "b"); (2%Z, lit "d")], [(lit "b", 1%Z); (lit "c", 2%Z); (lit "d", 3%Z)]).
Proof. by_eval. Qed.

(** Every endpoint of a current resolved relationship is visible, so a seed sees
    all its walks reach. *)
Lemma demo_fits policy require_closure : walks_fit (demo_selection policy require_closure).
Proof.
  assert (Forall (fun r => concept_visible rd_db (source_node r) = true /\
            match rl_target_bundle r, rl_target_concept r with
            | Some b, Some c => concept_visible rd_db (b, c) = true
            | _, _ => True
            end) (resolved_rows rd_db None)) as Hends.
  { repeat constructor; by vm_compute. }
  rewrite Forall_forall in Hends. intros seed l Hseed _ _ Hin n Hn. destruct (Hin n Hn) as (_ & p & Hw & _).
  assert (concept_visible rd_db seed = true) as Hv by (by apply list_elem_of_singleton in Hseed as ->; vm_compute).
  clear Hin Hn. induction Hw as [|p u v ty Hw IH He]; [done|].
  destruct He as (r & Hr & _ & [(_ & Ht & _)|(_ & Hs & _)]); destruct (Hends r Hr) as [H1 H2].
  - unfold target_is in Ht. injection Ht as Hb Hc. rewrite Hb, Hc in H2. by destruct v.
  - by rewrite <- Hs.
Qed.


(** Under [exclude] the concept of the stale bundle is dropped; as part of a
    required closure it refuses the build. *)
Example excluded_or_refused :
  (match resolve_selected (demo_selection Exclude false) with
   | Ok (records, report) => (map key records, map mention (rp_excluded report))
   | Err _ => ([], [])
   end,
   match resolve_selected (demo_selection Exclude true) with
   | Err (Refusal (StaleRequired concepts)) => map sc_role concepts
   | _ => []
   end)
  = (([(1%Z, lit "c"); (1%Z, lit "a"); (1%Z, lit "b")], [(2%Z, lit "d")]), [lit "required-closure"]).
Proof. by_eval. Qed.

(** A stale override of the path of [a], the seed: neither refused nor
    dropped, although for the catalog an override of the path of a concept
    comes before the row of its bundle. *)
Definition path_override : ScopeFreshness :=
  {| sf_tenant := lit "default"; sf_state := lit "stale"; sf_reasons := [lit "source_changed"]; sf_stale_since := None;
     sf_producer := None; sf_updated_at := 0 |}.
Definition path_stale_db : Db :=
  {| bundles := bundles demo_graph; bundle_freshness := {[ 2%Z := stale_row ]};
     concept_freshness := {[ (1%Z, lit "path", lit "a.md") := path_override ]};
     freshness_dependency := []; publication_fence := ∅; catalog_change_event := [];
     relationship_publication := relationship_publication demo_graph; relationship := take 4 (relationship demo_graph);
     concepts := concepts demo_graph; sync_log := []; config := config demo_graph;
     bundle_seq := 2; dependency_seq := 0; event_seq := 0; publication_seq := 1; log_seq := 0 |}.

Example path_override_ships :
  match @resolve_selected demo_session demo_edge_order (reader_of path_stale_db) (demo_selection Exclude false) with
  | Ok (records, _) => map (fun r => (key r, f_state (cr_freshness r))) records
  | Err _ => []
  end = [((1%Z, lit "c"), lit "unknown"); ((1%Z, lit "a"), lit "unknown"); ((1%Z, lit "b"), lit "unknown")].
Proof. by_eval. Qed.

Lemma resolved_build_witness :
  exists records report, resolve_selected (demo_selection Exclude false) = Ok (records, report) /\
    rp_freshness_available report = true /\ (1%Z, lit "a") ∈ map key records /\ (1%Z, lit "c") ∈ map key records.
Proof.
  destruct (resolve_selected (demo_selection Exclude false)) as [[records report]|e] eqn:Hok; [|by vm_compute in Hok].
  exists records, report. split; [done|]. split; [vm_compute in Hok; by injection Hok as _ <-|].
  destruct (resolved_build (demo_selection Exclude false) records report Hok) as (Hp & Hs & _). split.
  - apply Hs. by left.
  - destruct (rd_concepts !! (1%Z, lit "c")) as [c|] eqn:Hc; [|by vm_compute in Hc].
    apply (Hp _ c); [by left|]. split_and!; [exact Hc|by vm_compute|done].
Defined.

(** The package carries its script, [a] is rebuilt from its text, and [d], of
    which the catalog has nothing, is gone. *)
Abbreviation warned := (match resolve_selected (demo_selection Warn false) with Ok (r, _) => r | Err _ => [] end).
Abbreviation demo_loaded := (load_sources (fun _ => lit "sha") (fun s => s) warned).

Example demo_loaded_keys :
  match demo_loaded with Ok loaded => map key loaded | Err _ => [] end = [(1%Z, lit "a"); (1%Z, lit "b")].
Proof. by_eval. Qed.

Lemma load_sources_intact_witness :
  exists loaded, demo_loaded = Ok loaded /\ map key loaded = [(1%Z, lit "a"); (1%Z, lit "b")] /\
    (forall r, r ∈ loaded -> intact (fun _ => lit "sha") r) /\ (total loaded <= MAX_CONTENT_BYTES)%Z.
Proof.
  pose proof demo_loaded_keys as Hkeys. destruct demo_loaded as [loaded|e] eqn:Hok; [|discriminate Hkeys].
  exists loaded. split; [done|]. split; [exact Hkeys|].
  revert Hok. generalize warned. intros records Hok.
  destruct (load_sources_intact (fun _ => lit "sha") (fun s => s) records loaded Hok) as (_ & Hr & Ht).
  split; [|exact Ht]. intros r Hin. by apply Hr.
Defined.
