(* ===== verification/PluginTree.v ===== *)
(** * Where the files of a plugin go ([pgokf-workspace/src/plugin.rs], [profile.rs])

    Slugs, the directories of bundles and packages, the paths of concepts in
    the tree, relative links, the layout of each shape, and the check that no
    two files collide.  Of a profile the display texts are left out. *)
From stdpp Require Import prelude strings gmap list sorting.
From Stdlib Require Import Ascii ZArith Lia.
From S2P Require Import Prelude Str BTree Selection.

Definition NAME_MAX : nat := 64.
Definition DEFAULT_NAME : str := lit "okf-knowledge".

(** ** Slugs *)

Definition hyphen (c : ascii) : bool := bool_decide (c = "-"%char).

(** Pushing one letter or digit, after the hyphen that is pending. *)
Definition push_slug (out : str) (pending : bool) (c : ascii) : str :=
  out ++ (if pending && negb (is_nil out) then lit "-" else []) ++ [c].

(** The loop, on bytes: of the characters beyond ASCII only the capital I
    with a dot (an [i] and a combining dot) and the Kelvin sign (a [k]) have a
    lowercase with an ASCII letter in it. *)
Fixpoint slug_go (out : str) (pending : bool) (s : str) : str :=
  match s with
  | [] => out
  | c :: s' =>
      if is_ascii_alphanumeric c then slug_go (push_slug out pending (to_ascii_lowercase c)) false s'
      else match s' with
           | d :: s'' =>
               if (byte c =? 196)%N && (byte d =? 176)%N then slug_go (push_slug out pending "i"%char) true s''
               else match s'' with
                    | e :: s''' =>
                        if (byte c =? 226)%N && (byte d =? 132)%N && (byte e =? 170)%N
                        then slug_go (push_slug out pending "k"%char) false s'''
                        else slug_go out true s'
                    | [] => slug_go out true s'
                    end
           | [] => slug_go out true s'
           end
  end.

Definition slug (name : str) : str :=
  let trimmed := trim_end_matches hyphen (take NAME_MAX (slug_go [] false (trim name))) in
  if is_nil trimmed then DEFAULT_NAME else trimmed.

Inductive TreeError : Type :=
| NameWithoutLetters (name : str)
| UnwritablePath (path : str)
| OnePath (path : str)
| OneFile (first second : str)
| FileAndDirectory (path : str)
| PackageCollides (name dir : str) (bundle : Z).

Definition package_name (name : str) : result str TreeError :=
  let trimmed := trim name in
  if is_nil trimmed then Ok DEFAULT_NAME
  else if existsb is_ascii_alphanumeric trimmed then Ok (slug trimmed)
  else Err (NameWithoutLetters trimmed).

(** ** Directories *)

(** [-<bundle>], and from the second attempt on [-<bundle>-<n>]. *)
Definition dir_suffix (bundle : Z) (n : nat) : str :=
  lit "-" ++ show_Z bundle ++ match n with 0 => [] | _ => lit "-" ++ show_Z (Z.of_nat n) end.

Definition suffixed (base : str) (bundle : Z) (n : nat) : str :=
  trim_end_matches hyphen (take (NAME_MAX - length (dir_suffix bundle n)) base) ++ dir_suffix bundle n.

(** The [while] loop, one unit of fuel per test of its condition. *)
Fixpoint free_dir (fuel : nat) (taken : list str) (base : str) (bundle : Z) (n : nat) (dir : str) : str :=
  match fuel with
  | 0 => dir
  | S fuel' =>
      if bool_decide (dir ∈ taken) then free_dir fuel' taken base bundle (S n) (suffixed base bundle n) else dir
  end.

(** One record: [taken] and the directories so far. *)
Definition package_step (acc : list str * list (Z * list ascii * str)) (r : ConceptRecord)
  : list str * list (Z * list ascii * str) :=
  match cr_package r with
  | None => acc
  | Some p =>
      let base := slug (pk_name p) in
      let dir := free_dir (3 + length acc.1) acc.1 base (cr_bundle_id r) 0 base in
      (dir :: acc.1, bt_insert (key r) dir acc.2)
  end.

Definition package_directories (records : list ConceptRecord) (plugin_name : str) : list (Z * list ascii * str) :=
  (fold_left package_step records ([plugin_name], [])).2.

(** The bundles in the order of their ids, each with the name its first
    record gives it. *)
Definition bundle_names (records : list ConceptRecord) : list (Z * str) :=
  fold_left (fun names r => match bt_get (cr_bundle_id r) names with
                            | Some _ => names
                            | None => bt_insert (cr_bundle_id r) (cr_bundle_name r) names
                            end) records [].

Definition bundle_step (acc : list str * list (Z * str)) (entry : Z * str) : list str * list (Z * str) :=
  let base := slug entry.2 in
  let dir := if bool_decide (base ∈ acc.1) then base ++ lit "-" ++ show_Z entry.1 else base in
  (dir :: acc.1, bt_insert entry.1 dir acc.2).

Definition bundle_directories (records : list ConceptRecord) : list (Z * str) :=
  (fold_left bundle_step (bundle_names records) ([], [])).2.

(** ** Paths *)

Definition segments (path : str) : list str := List.filter (fun s => negb (is_nil s)) (split_on slash path).

(** How many segments two paths share. *)
Fixpoint common (from to : list str) : nat :=
  match from, to with
  | a :: from', b :: to' => if decide (a = b) then S (common from' to') else 0
  | _, _ => 0
  end.

Definition relative_prefix (index_dir dir : str) : str :=
  let from := segments index_dir in
  let to := segments dir in
  let n := common from to in
  concat (repeat (lit "../") (length from - n)) ++ concat (map (fun s => s ++ [slash]) (drop n to)).

Definition backslash : ascii := "\"%char.
Definition colon : ascii := ":"%char.
Definition underscore : ascii := "_"%char.

(** The characters of [tree_path]: a control character of Latin-1 is two
    bytes. *)
Fixpoint cleaned (path : str) : str :=
  match path with
  | [] => []
  | c :: rest =>
      if bool_decide (c ∈ [backslash; colon]) || in_range 0 31 c || (byte c =? 127)%N then underscore :: cleaned rest
      else match rest with
           | d :: rest' => if (byte c =? 194)%N && in_range 128 159 d then underscore :: cleaned rest'
                           else c :: cleaned rest
           | [] => [c]
           end
  end.

(** The marks that change the direction of text: U+200E, U+200F, U+202A to
    U+202E and U+2066 to U+2069. *)
Fixpoint has_direction_mark (s : str) : bool :=
  match s with
  | [] => false
  | c :: s' =>
      match s' with
      | d :: e :: _ =>
          (byte c =? 226)%N
          && (((byte d =? 128)%N && (in_range 142 143 e || in_range 170 174 e))
              || ((byte d =? 129)%N && in_range 166 169 e))
      | _ => false
      end || has_direction_mark s'
  end.

Definition space_or_dot (c : ascii) : bool := bool_decide (c ∈ [" "%char; dot]).

Definition safe_segment (segment : str) : bool :=
  let squared := trim_end_matches space_or_dot segment in
  negb (is_nil segment) && negb (is_nil squared) && negb (bool_decide (squared = lit ".."))
  && negb (bool_decide (segment = lit ".")) && negb (has_control segment || has_direction_mark segment).

Definition tree_path (path : str) : result str TreeError :=
  let cleaned := cleaned path in
  if existsb (fun seg => negb (safe_segment seg)) (split_on slash cleaned) then Err (UnwritablePath path)
  else Ok cleaned.

Definition STALE_WARNING_SUFFIX : str := lit ".stale-warning.md".

Definition adjacent_warning_path (path : str) : str :=
  let '(dir, name) := match rsplit_once slash path with Some (d, n) => (d, n) | None => ([], path) end in
  let stem := match rsplit_once dot name with
              | Some (stem, _) => if is_nil stem then name else stem
              | None => name
              end in
  if is_nil dir then stem ++ STALE_WARNING_SUFFIX else dir ++ [slash] ++ stem ++ STALE_WARNING_SUFFIX.

(** ** Collisions *)

(** [str::nfc] and [str::to_lowercase], the tables of Unicode. *)
Class Unicode : Type := { nfc : str -> str; to_lowercase : str -> str }.

Section collisions.
Context `{Unicode}.

Definition collision_key (path : str) : str := to_lowercase (nfc path).

(** The prefixes of a path that end before a separator, outermost first. *)
Fixpoint prefixes (prefix : str) (segments : list str) : list str :=
  match segments with
  | [] | [_] => []
  | segment :: segments' =>
      let prefix := prefix ++ (if is_nil prefix then [] else [slash]) ++ segment in
      prefix :: prefixes prefix segments'
  end.
Definition directories_of (path : str) : list str := prefixes [] (split_on slash path).

Fixpoint ensure_distinct (seen : list (str * str)) (paths : list str) : result unit TreeError :=
  match paths with
  | [] => Ok tt
  | p :: paths' =>
      match bt_get (collision_key p) seen with
      | Some first => Err (if decide (first = p) then OnePath p else OneFile first p)
      | None => ensure_distinct (bt_insert (collision_key p) p seen) paths'
      end
  end.

Fixpoint ensure_no_directory (directories : list str) (paths : list str) : result unit TreeError :=
  match paths with
  | [] => Ok tt
  | p :: paths' =>
      if bool_decide (collision_key p ∈ directories) then Err (FileAndDirectory p)
      else ensure_no_directory directories paths'
  end.

Definition ensure_unique_paths (paths : list str) : result unit TreeError :=
  let? _ := ensure_distinct [] paths in
  ensure_no_directory (map collision_key (concat (map directories_of paths))) paths.

End collisions.

(** ** Shapes and profiles *)

Inductive Shape : Type := AgentPlugin | Skills | InstructionFile | PromptBundle | Generic.
#[export] Instance Shape_eq_dec : EqDecision Shape.
Proof. solve_decision. Defined.

Definition all_shapes : list Shape := [AgentPlugin; Skills; InstructionFile; PromptBundle; Generic].
Definition shape_id (s : Shape) : str :=
  match s with
  | AgentPlugin => lit "agent-plugin"
  | Skills => lit "skills"
  | InstructionFile => lit "instruction-file"
  | PromptBundle => lit "prompt-bundle"
  | Generic => lit "generic"
  end.
Definition shape_parse (id : str) : option Shape := List.find (fun s => bool_decide (shape_id s = trim id)) all_shapes.

Inductive Target : Type :=
| TAgentPlugin | TClaudeCode | TCodex | TCopilot | THermesAgent | TKimi | TGeminiCli | TCursor
| TAgentsDir | TAgentsMd | TOllama | TGeneric | TCustom.
#[export] Instance Target_eq_dec : EqDecision Target.
Proof. solve_decision. Defined.

Inductive EnvRef : Type := Dollar | DollarEnv | Forward | Placeholder | PluginData | Inherit.
Inductive TokenRef : Type := TokenDollar | TokenDollarEnv | NamedEnvVar | Merge | Forbidden.
Inductive McpFormat : Type := McpServersJson | CopilotJson | CodexToml | HermesYaml | AgentPluginJson.

Definition fragment_path (f : McpFormat) : str :=
  match f with
  | CodexToml => lit "okf-mcp.toml"
  | HermesYaml => lit "okf-hermes-mcp.yaml"
  | McpServersJson | CopilotJson | AgentPluginJson => lit "okf-mcp.json"
  end.

Record RemoteSpec : Type := { rs_url_key : str; rs_type_word : option str; rs_token_ref : TokenRef }.
Record McpSpec : Type := {
  ms_path : str;
  ms_format : McpFormat;
  ms_env_ref : EnvRef;
  ms_auto_loaded : bool;
  ms_merge_into : option str;
  ms_remote : option RemoteSpec
}.

(** [McpSpec::location]: the path, and whether the harness loads it. *)
Definition location (spec : McpSpec) (remote : bool) : str * bool :=
  match ms_remote spec with
  | Some r => match rs_token_ref r with
              | Merge => if remote then (fragment_path (ms_format spec), false) else (ms_path spec, ms_auto_loaded spec)
              | _ => (ms_path spec, ms_auto_loaded spec)
              end
  | None => (ms_path spec, ms_auto_loaded spec)
  end.

Definition merge_target (spec : McpSpec) (remote : bool) : option str :=
  let '(path, auto_loaded) := location spec remote in
  if auto_loaded then None
  else match ms_merge_into spec with
       | Some named => Some named
       | None => if decide (path = ms_path spec) then None else Some (ms_path spec)
       end.

Record Profile : Type := {
  pr_target : Target;
  pr_id : str;
  pr_shape : Shape;
  pr_root : str;
  pr_mcp : option McpSpec
}.

Definition spec (path : string) (format : McpFormat) (env : EnvRef) (auto_loaded : bool) (merge_into : option str)
    (type_word : option str) (token : TokenRef) : option McpSpec :=
  Some {| ms_path := lit path; ms_format := format; ms_env_ref := env; ms_auto_loaded := auto_loaded;
          ms_merge_into := merge_into;
          ms_remote := Some {| rs_url_key := lit "url"; rs_type_word := type_word; rs_token_ref := token |} |}.

Definition http : option str := Some (lit "http").

Definition PROFILES : list Profile := [
  {| pr_target := TAgentPlugin; pr_id := lit "agent-plugin"; pr_shape := AgentPlugin; pr_root := [];
     pr_mcp := spec "mcp.json" AgentPluginJson PluginData true None (Some (lit "streamable-http")) Forbidden |};
  {| pr_target := TClaudeCode; pr_id := lit "claude-code"; pr_shape := Skills; pr_root := lit ".claude/skills";
     pr_mcp := spec ".mcp.json" McpServersJson Dollar true None http TokenDollar |};
  {| pr_target := TCodex; pr_id := lit "codex"; pr_shape := Skills; pr_root := lit ".agents/skills";
     pr_mcp := spec ".codex/config.toml" CodexToml Forward true None None NamedEnvVar |};
  {| pr_target := THermesAgent; pr_id := lit "hermes-agent"; pr_shape := Skills; pr_root := lit ".hermes/skills";
     pr_mcp := spec "okf-hermes-mcp.yaml" HermesYaml Dollar false (Some (lit "~/.hermes/config.yaml")) None TokenDollar |};
  {| pr_target := TKimi; pr_id := lit "kimi"; pr_shape := Skills; pr_root := lit ".kimi/skills";
     pr_mcp := spec "okf-mcp.json" McpServersJson Dollar false (Some (lit "~/.kimi/mcp.json")) None Merge |};
  {| pr_target := TGeminiCli; pr_id := lit "gemini-cli"; pr_shape := Skills; pr_root := lit ".gemini/skills";
     pr_mcp := spec ".gemini/settings.json" McpServersJson Dollar true None http TokenDollar |};
  {| pr_target := TCursor; pr_id := lit "cursor"; pr_shape := Skills; pr_root := lit ".cursor/skills";
     pr_mcp := spec ".cursor/mcp.json" McpServersJson DollarEnv true None None TokenDollarEnv |};
  {| pr_target := TCopilot; pr_id := lit "copilot"; pr_shape := Skills; pr_root := lit ".github/skills";
     pr_mcp := spec ".github/mcp.json" CopilotJson Inherit true None http Merge |};
  {| pr_target := TAgentsDir; pr_id := lit "agents"; pr_shape := Skills; pr_root := lit ".agents/skills";
     pr_mcp := spec "okf-mcp.json" McpServersJson Dollar false None http TokenDollar |};
  {| pr_target := TAgentsMd; pr_id := lit "agents-md"; pr_shape := InstructionFile; pr_root := [];
     pr_mcp := spec "okf-mcp.json" McpServersJson Dollar false None http TokenDollar |};
  {| pr_target := TOllama; pr_id := lit "ollama"; pr_shape := PromptBundle; pr_root := lit "okf-prompt"; pr_mcp := None |};
  {| pr_target := TGeneric; pr_id := lit "generic"; pr_shape := Generic; pr_root := lit "okf-knowledge";
     pr_mcp := spec "okf-mcp.json" McpServersJson Dollar false None http TokenDollar |} ].

Definition CUSTOM_TARGET_ID : str := lit "custom".

Definition profile_of (t : Target) : option Profile := List.find (fun p => bool_decide (pr_target p = t)) PROFILES.
Definition profile_by_id (id : str) : option Profile := List.find (fun p => bool_decide (pr_id p = id)) PROFILES.
Definition target_parse (id : str) : option Target :=
  let id := trim id in
  if decide (id = CUSTOM_TARGET_ID) then Some TCustom else pr_target <$> profile_by_id id.
Definition target_id (t : Target) : str :=
  match profile_of t with Some p => pr_id p | None => CUSTOM_TARGET_ID end.

(** [Shape::base] names the target; the registry has its profile. *)
Definition base_target (s : Shape) : Target :=
  match s with
  | AgentPlugin => TAgentPlugin
  | Skills => TAgentsDir
  | InstructionFile => TAgentsMd
  | PromptBundle => TOllama
  | Generic => TGeneric
  end.
Definition base (s : Shape) : outcome Profile := match profile_of (base_target s) with Some p => Ret p | None => Panic end.

(** ** Harnesses the user describes *)

Definition LABEL_MAX : nat := 60.
Definition SKILLS_DIR_MAX : nat := 200.

Record CustomHarness : Type := { ch_label : str; ch_shape : Shape; ch_skills_dir : option str }.

Inductive HarnessError : Type := NoLabel | BadLabel | NoSkillsDir (label : str) | BadSkillsDir.

Definition plain_char (c : ascii) : bool :=
  is_ascii_alphanumeric c || bool_decide (c ∈ [dot; underscore; "-"%char]).

Definition validated_skills_dir (dir : str) : result str HarnessError :=
  let dir := trim_end_matches (fun c => bool_decide (c = slash)) (trim dir) in
  if negb (is_nil dir) && (length dir <=? SKILLS_DIR_MAX)%nat && negb (starts_with [slash] dir)
     && forallb (fun seg => negb (is_nil seg) && negb (bool_decide (seg = lit ".")) && negb (bool_decide (seg = lit ".."))
                            && forallb plain_char seg) (split_on slash dir)
  then Ok dir else Err BadSkillsDir.

Definition harness_new (label : str) (shape : Shape) (skills_dir : option str) : result CustomHarness HarnessError :=
  let label := trim label in
  if is_nil label then Err NoLabel
  else if (LABEL_MAX <? char_count label)%nat || has_control label then Err BadLabel
  else
    let given := d ← skills_dir; if is_nil (trim d) then None else Some (trim d) in
    let? dir := match shape, given with
                | Skills, None => Err (NoSkillsDir label)
                | Skills, Some dir => rmap Some (validated_skills_dir dir)
                | _, _ => Ok None
                end in
    Ok {| ch_label := label; ch_shape := shape; ch_skills_dir := dir |}.

Definition harness_profile (h : CustomHarness) : outcome Profile :=
  obind (base (ch_shape h)) (fun b => Ret
    {| pr_target := TCustom; pr_id := CUSTOM_TARGET_ID; pr_shape := ch_shape h;
       pr_root := default (pr_root b) (ch_skills_dir h); pr_mcp := pr_mcp b |}).

(** ** The layout *)

Record Layout : Type := {
  la_root : str;
  la_index_path : str;
  la_content_dir : str;
  la_packages_dir : str;
  la_scripts_dir : str;
  la_meta_dir : str
}.

Definition under (dir : str) (name : string) : str := dir ++ [slash] ++ lit name.

Definition meta_path (l : Layout) (name : str) : str :=
  if is_nil (la_meta_dir l) then name else la_meta_dir l ++ [slash] ++ name.

Definition layout (profile : Profile) (name : str) : Layout :=
  let root := pr_root profile in
  match pr_shape profile with
  | AgentPlugin =>
      let skill := name ++ lit "/skills/" ++ name in
      {| la_root := name; la_index_path := under skill "SKILL.md"; la_content_dir := under skill "references";
         la_packages_dir := under name "skills"; la_scripts_dir := under skill "scripts"; la_meta_dir := name |}
  | Skills =>
      let own := root ++ [slash] ++ name in
      {| la_root := own; la_index_path := under own "SKILL.md"; la_content_dir := under own "references";
         la_packages_dir := root; la_scripts_dir := under own "scripts"; la_meta_dir := [] |}
  | InstructionFile =>
      {| la_root := []; la_index_path := lit "AGENTS.md"; la_content_dir := lit "knowledge";
         la_packages_dir := lit "knowledge/skills"; la_scripts_dir := lit "knowledge"; la_meta_dir := [] |}
  | PromptBundle =>
      {| la_root := root; la_index_path := under root "INDEX.md"; la_content_dir := under root "knowledge";
         la_packages_dir := under root "skills"; la_scripts_dir := under root "knowledge"; la_meta_dir := [] |}
  | Generic =>
      {| la_root := root; la_index_path := under root "INDEX.md"; la_content_dir := under root "concepts";
         la_packages_dir := under root "skills"; la_scripts_dir := under root "concepts"; la_meta_dir := [] |}
  end.

(** The directory of the index. *)
Definition index_dir (l : Layout) : str := match rsplit_once slash (la_index_path l) with Some (d, _) => d | None => [] end.
