(* ===== verification/PluginTreeProps.v ===== *)
(** * The tree of a plugin holds together

    Slugs are names of Agent Skills, packages get directories of their own,
    links lead where the files are, paths are safe to write, and a tree that
    passes the check has no two files in one place. *)
From stdpp Require Import prelude strings gmap list sorting.
From Stdlib Require Import Ascii ZArith Lia.
From S2P Require Import Prelude Str BTree Net Selection PluginTree.

(** ** Names *)

Definition name_char (c : ascii) : bool := is_ascii_lowercase c || is_ascii_digit c.

(** Words of letters and digits with single hyphens between them; [after] is
    true at the start and after a hyphen, [whole] asks for no hyphen at the
    end. *)
Fixpoint hyphenated (whole after : bool) (s : str) : bool :=
  match s with
  | [] => negb (whole && after)
  | c :: s' => if hyphen c then negb after && hyphenated whole true s' else name_char c && hyphenated whole false s'
  end.

(** An Agent Skills [name]. *)
Definition valid_name (s : str) : bool := hyphenated true true s && (length s <=? NAME_MAX)%nat.

Lemma name_char_hyphen c : name_char c = true -> hyphen c = false.
Proof. by destruct c as [[] [] [] [] [] [] [] []]. Qed.

Lemma lower_name_char c : is_ascii_alphanumeric c = true -> name_char (to_ascii_lowercase c) = true.
Proof. by destruct c as [[] [] [] [] [] [] [] []]. Qed.

Lemma digit_name_char c : is_ascii_digit c = true -> name_char c = true.
Proof. unfold name_char. intros ->. by rewrite orb_true_r. Qed.

Lemma hyphenated_app whole after s t :
  hyphenated true after s = true -> hyphenated whole false t = true -> hyphenated whole after (s ++ t) = true.
Proof.
  revert after. induction s as [|c s IH]; intros after; cbn.
  - by destruct after.
  - destruct (hyphen c); intros [? ?]%andb_true_iff Ht; rewrite andb_true_iff; auto.
Qed.

Lemma hyphenated_prefix after s t : hyphenated false after (s ++ t) = true -> hyphenated false after s = true.
Proof.
  revert after. induction s as [|c s IH]; intros after; cbn; [done|].
  destruct (hyphen c); intros [-> H]%andb_true_iff; by eapply IH.
Qed.

Lemma hyphenated_loose after s : hyphenated true after s = true -> hyphenated false after s = true.
Proof.
  revert after. induction s as [|c s IH]; intros after; cbn; [done|].
  destruct (hyphen c); intros [-> H]%andb_true_iff; by apply IH.
Qed.

Lemma trim_hyphen_snoc s c : trim_end_matches hyphen (s ++ [c]) = if hyphen c then trim_end_matches hyphen s else s ++ [c].
Proof.
  unfold trim_end_matches. rewrite reverse_snoc. cbn [trim_start_matches]. destruct (hyphen c); [done|].
  by rewrite reverse_cons, reverse_involutive.
Qed.

Lemma hyphenated_whole after s c :
  hyphen c = false -> hyphenated false after (s ++ [c]) = true -> hyphenated true after (s ++ [c]) = true.
Proof.
  intros Hc. revert after. induction s as [|d s IH]; intros after; cbn; [by rewrite Hc, !andb_true_r|].
  destruct (hyphen d); intros [-> H]%andb_true_iff; by apply IH.
Qed.

(** Trimming the hyphens of the end leaves a name, or nothing. *)
Lemma hyphenated_trim s : hyphenated false true s = true ->
  trim_end_matches hyphen s = [] \/ hyphenated true true (trim_end_matches hyphen s) = true.
Proof.
  induction s as [|c s IH] using rev_ind; [by left|]. intros H. rewrite trim_hyphen_snoc.
  destruct (hyphen c) eqn:Hc; [by apply IH, (hyphenated_prefix _ _ [c])|]. right. by apply hyphenated_whole.
Qed.

Lemma push_slug_ok out pending c : (out = [] \/ hyphenated true true out = true) -> name_char c = true ->
  hyphenated true true (push_slug out pending c) = true.
Proof.
  intros Ho Hc. pose proof (name_char_hyphen c Hc) as Hh. unfold push_slug. destruct out as [|d out].
  - cbn. rewrite andb_false_r. cbn. by rewrite Hh, Hc.
  - destruct Ho as [|Ho]; [done|]. apply (hyphenated_app true); [done|]. destruct pending; cbn; by rewrite ?Hh, ?Hc.
Qed.

Lemma slug_go_ok out pending s : (out = [] \/ hyphenated true true out = true) ->
  slug_go out pending s = [] \/ hyphenated true true (slug_go out pending s) = true.
Proof.
  remember (length s) as n eqn:Hn. assert (length s <= n) as Hl by lia. clear Hn.
  revert out pending s Hl. induction n as [|n IH]; intros out pending [|c s] Hl Ho; cbn in Hl |- *; [done|lia|done|].
  destruct (is_ascii_alphanumeric c) eqn:Hc; [apply IH; [lia|right; apply push_slug_ok; [done|by apply lower_name_char]]|].
  destruct s as [|d s]; [apply IH; [cbn; lia|done]|]. cbn in Hl.
  destruct (_ && _); [apply IH; [lia|right; by apply push_slug_ok]|].
  destruct s as [|e s]; [apply IH; [cbn; lia|done]|]. cbn in Hl.
  destruct (_ && _ && _); [apply IH; [lia|right; by apply push_slug_ok]|apply IH; [cbn; lia|done]].
Qed.

Lemma trim_end_length p (s : str) : length (trim_end_matches p s) <= length s.
Proof.
  destruct (trim_end_matches_spec p s) as (w & Hw & _). rewrite Hw at 2. rewrite length_app. lia.
Qed.

(** Every slug is a name. *)
Lemma slug_valid name : valid_name (slug name) = true.
Proof.
  unfold slug. set (all := slug_go [] false (trim name)). set (t := trim_end_matches hyphen _).
  destruct (is_nil t) eqn:Ht; [by_eval|]. unfold valid_name. rewrite andb_true_iff, Nat.leb_le. split.
  - assert (all = [] \/ hyphenated true true all = true) as Ha by (apply slug_go_ok; by left).
    destruct (hyphenated_trim (take NAME_MAX all)) as [Hn|]; [|fold t in Hn; by rewrite Hn in Ht|done].
    destruct Ha as [->|Ha]; [by destruct NAME_MAX|].
    apply (hyphenated_prefix _ _ (drop NAME_MAX all)). rewrite take_drop. by apply hyphenated_loose.
  - unfold t. etrans; [apply trim_end_length|]. rewrite length_take. lia.
Qed.

Lemma valid_name_cons s : valid_name s = true -> exists c s', s = c :: s' /\ hyphen c = false.
Proof.
  unfold valid_name. destruct s as [|c s]; [done|]. cbn. destruct (hyphen c) eqn:E; [done|]. eauto.
Qed.

(** ** Directories of packages *)

Lemma digits_hyphenated s : s <> [] -> forallb is_ascii_digit s = true -> hyphenated true true s = true.
Proof.
  intros Hne Hd. assert (forall b, (b = true -> s <> []) -> hyphenated true b s = true) as H; [|by apply H].
  clear Hne. induction s as [|c s IH]; intros b Hb; cbn; [by destruct b; [destruct Hb|]|]. cbn in Hd.
  apply andb_true_iff in Hd as [Hc Hd]. apply digit_name_char in Hc. rewrite (name_char_hyphen _ Hc), Hc. by apply IH.
Qed.

Lemma show_Z_hyphenated n : (0 <= n)%Z -> hyphenated true true (show_Z n) = true.
Proof.
  intros Hn. apply digits_hyphenated; [|by apply show_Z_digits]. intros He. pose proof (show_Z_value n Hn) as Hv.
  rewrite He in Hv. injection Hv as Hv. subst n. by vm_compute in He.
Qed.

Lemma dir_suffix_hyphenated bundle n : (0 <= bundle)%Z -> hyphenated true false (dir_suffix bundle n) = true.
Proof.
  intros Hb. unfold dir_suffix.
  change (hyphenated true true (show_Z bundle ++ match n with 0 => [] | _ => lit "-" ++ show_Z (Z.of_nat n) end) = true).
  apply hyphenated_app; [by apply show_Z_hyphenated|]. destruct n as [|n]; [done|]. apply show_Z_hyphenated. lia.
Qed.

Lemma show_Z_length n k : (0 <= n < 10 ^ Z.of_nat (S k))%Z -> length (show_Z n) <= S k.
Proof.
  intros Hn. unfold show_Z. rewrite (proj2 (Z.ltb_ge _ _)) by lia. unfold show_digits.
  pose proof (show_go_length (S (Z.to_nat (Z.log2 n))) n [] k Hn) as H. cbn [length] in H. lia.
Qed.

(** More attempts than any tree needs. *)
Definition MOST_ATTEMPTS : nat := Z.to_nat 1000000.

Lemma dir_suffix_length bundle n : (0 <= bundle <= i64_max)%Z -> n <= MOST_ATTEMPTS -> length (dir_suffix bundle n) <= 28.
Proof.
  intros Hb Hn. unfold dir_suffix. rewrite !length_app. cbn [length lit String.list_ascii_of_string].
  assert (length (show_Z bundle) <= 19) as H1.
  { apply show_Z_length. unfold i64_max in Hb. change (Z.of_nat 19) with 19%Z. lia. }
  destruct n as [|n]; [cbn; lia|]. rewrite length_app.
  assert (length (show_Z (Z.of_nat (S n))) <= 7) as H2; [|cbn; lia].
  apply show_Z_length. change (Z.of_nat 7) with 7%Z. unfold MOST_ATTEMPTS in Hn. lia.
Qed.

Lemma suffixed_valid name bundle n :
  valid_name name = true -> (0 <= bundle <= i64_max)%Z -> n <= MOST_ATTEMPTS -> valid_name (suffixed name bundle n) = true.
Proof.
  intros Hv Hb Hn. pose proof (dir_suffix_length bundle n Hb Hn) as Hl. unfold suffixed.
  set (keep := NAME_MAX - length (dir_suffix bundle n)).
  assert (0 < keep) as Hk by (unfold keep, NAME_MAX; lia).
  destruct (valid_name_cons _ Hv) as (c & s & -> & Hc).
  unfold valid_name in *. apply andb_true_iff in Hv as [Hv _]. rewrite andb_true_iff, Nat.leb_le. split.
  - apply hyphenated_app; [|by apply dir_suffix_hyphenated; lia].
    destruct (hyphenated_trim (take keep (c :: s))) as [He|]; [|exfalso|done].
    + apply (hyphenated_prefix _ _ (drop keep (c :: s))). rewrite take_drop. by apply hyphenated_loose.
    + destruct keep as [|k]; [lia|]. destruct (trim_end_matches_spec hyphen (take (S k) (c :: s))) as (w & Hw & Hall).
      rewrite He in Hw. cbn in Hw. subst w. apply Forall_cons in Hall as [Hall _]. congruence.
  - rewrite length_app. pose proof (trim_end_length hyphen (take keep (c :: s))) as Ht. rewrite length_take in Ht.
    unfold keep in *. unfold NAME_MAX in *. lia.
Qed.

Lemma hyphen_notin_digits n : (0 <= n)%Z -> "-"%char ∉ show_Z n.
Proof.
  intros Hn Hin. pose proof (show_Z_digits n Hn) as H. rewrite forallb_forall in H.
  by apply list_elem_of_In, H in Hin.
Qed.

Lemma suffixed_inj name bundle n m : suffixed name bundle (S n) = suffixed name bundle (S m) -> n = m.
Proof.
  intros H. assert (forall i, exists head, suffixed name bundle (S i) = head ++ "-"%char :: show_Z (Z.of_nat (S i))) as Hr.
  { intros i. unfold suffixed, dir_suffix. eexists (trim_end_matches hyphen _ ++ lit "-" ++ show_Z bundle).
    rewrite <- !(assoc_L app). reflexivity. }
  destruct (Hr n) as (a & Ha), (Hr m) as (b & Hb). rewrite Ha, Hb in H.
  pose proof (rsplit_once_app _ a _ (hyphen_notin_digits (Z.of_nat (S n)) ltac:(lia))) as H1.
  pose proof (rsplit_once_app _ b _ (hyphen_notin_digits (Z.of_nat (S m)) ltac:(lia))) as H2.
  rewrite H, H2 in H1. injection H1 as _ H1. apply show_Z_inj in H1; lia.
Qed.

(** What the search ends with: the name itself if it is free, else one of
    the suffixed ones that is. *)
Lemma free_dir_from fuel taken name bundle n : fuel <= length taken ->
  let d := free_dir (S fuel) taken name bundle (S n) (suffixed name bundle n) in
  (exists i, n <= i <= n + fuel /\ d = suffixed name bundle i /\ d ∉ taken) \/
  forall i, n <= i <= n + fuel -> suffixed name bundle i ∈ taken.
Proof.
  revert n. induction fuel as [|fuel IH]; intros n Hl; cbn [free_dir]; case_bool_decide as Hd.
  - right. intros i Hi. by replace i with n by lia.
  - left. exists n. split_and!; [lia..|done|done].
  - destruct (IH (S n)) as [(i & Hi & Hs & Hf)|H]; [lia|left; exists i; split_and!; [lia..|done|done]|].
    right. intros i Hi. destruct (decide (i = n)) as [->|]; [done|]. apply H. lia.
  - left. exists n. split_and!; [lia..|done|done].
Qed.

Lemma suffixed_pigeonhole (taken : list str) name bundle :
  ~ forall i, 1 <= i <= S (length taken) -> suffixed name bundle i ∈ taken.
Proof.
  intros H. assert (NoDup ((fun i => suffixed name bundle (S i)) <$> seq 0 (S (length taken)))) as Hnd.
  { apply NoDup_fmap_2; [|apply NoDup_seq]. intros a b. apply suffixed_inj. }
  assert (((fun i => suffixed name bundle (S i)) <$> seq 0 (S (length taken))) ⊆+ taken) as Hs.
  { apply NoDup_submseteq; [done|]. intros x (i & -> & Hi%elem_of_seq)%list_elem_of_fmap. apply H. lia. }
  apply submseteq_length in Hs. rewrite length_fmap, length_seq in Hs. lia.
Qed.

Lemma free_dir_spec (taken : list str) name bundle :
  let d := free_dir (3 + length taken) taken name bundle 0 name in
  d ∉ taken /\ (d = name \/ name ∈ taken /\ exists i, i <= S (length taken) /\ d = suffixed name bundle i).
Proof.
  cbn [Nat.add free_dir]. case_bool_decide as H0; [|by split; [|left]].
  case_bool_decide as H1; [|split; [done|right; split; [done|]; exists 0; split; [lia|done]]].
  change (S (length taken)) with (1 + length taken).
  destruct (free_dir_from (length taken) taken name bundle 1) as [(i & Hi & Hs & Hf)|H]; [done| |].
  - cbn [Nat.add] in *. split; [done|right]. split; [done|]. exists i. split; [lia|done].
  - destruct (suffixed_pigeonhole taken name bundle). intros i Hi. apply H. lia.
Qed.

(** What [package_directories] has done after some records. *)
Record placed (plugin_name : str) (past : list ConceptRecord) (taken : list str) (dirs : list (Z * list ascii * str)) : Prop := {
  pl_sorted : bt_sorted dirs;
  pl_taken : length taken <= S (length past);
  pl_name : plugin_name ∈ taken;
  pl_dirs k d : bt_get k dirs = Some d ->
    d ∈ taken /\ d <> plugin_name /\ exists r p, r ∈ past /\ key r = k /\ cr_package r = Some p /\
      (d = slug (pk_name p) \/ exists i, i <= S (length past) /\ d = suffixed (slug (pk_name p)) (cr_bundle_id r) i);
  pl_inj k k' d : bt_get k dirs = Some d -> bt_get k' dirs = Some d -> k = k';
  pl_all r : r ∈ past -> is_Some (cr_package r) -> is_Some (bt_get (key r) dirs)
}.

Lemma placed_step name past taken dirs r : key r ∉ map key past -> placed name past taken dirs ->
  let acc := package_step (taken, dirs) r in placed name (past ++ [r]) acc.1 acc.2.
Proof.
  intros Hk P. unfold package_step. assert (length (past ++ [r]) = S (length past)) as Hlen by (rewrite length_app; cbn; lia).
  assert (forall k d, bt_get k dirs = Some d -> k <> key r) as Hnew.
  { intros k d (_ & _ & r' & p & Hr' & <- & _)%(pl_dirs _ _ _ _ P) He. apply Hk. rewrite <- He.
    apply list_elem_of_fmap. eauto. }
  destruct (cr_package r) as [p|] eqn:Hp; cbn [fst snd].
  - destruct (free_dir_spec taken (slug (pk_name p)) (cr_bundle_id r)) as [Hfree Hfrom].
    pose proof (pl_taken _ _ _ _ P) as Htk. set (d := free_dir _ _ _ _ _ _) in *. split.
    + apply bt_insert_sorted, P.
    + rewrite Hlen. cbn. lia.
    + right. apply P.
    + intros k d'. rewrite bt_get_insert_decide by apply P. case_decide as He.
      * intros [= <-]. split; [by left|]. split; [intros ->; by apply Hfree, P|]. exists r, p.
        split_and!; [apply elem_of_app; right; by left|done|done|]. rewrite Hlen.
        destruct Hfrom as [|(_ & i & Hi & ?)]; [by left|right]. exists i. split; [lia|done].
      * intros (Ht & Hn & r' & p' & Hr' & Hk' & Hp' & Hd)%(pl_dirs _ _ _ _ P). split; [by right|]. split; [done|].
        exists r', p'. split_and!; [apply elem_of_app; by left|done|done|]. rewrite Hlen.
        destruct Hd as [|(i & Hi & ?)]; [by left|right]. exists i. split; [lia|done].
    + intros k k' d'. rewrite !bt_get_insert_decide by apply P. case_decide as He; case_decide as He'; [congruence| | |apply P].
      * intros [= <-] (Ht & _)%(pl_dirs _ _ _ _ P). done.
      * intros (Ht & _)%(pl_dirs _ _ _ _ P) [= <-]. done.
    + intros r' [Hr'| ->%list_elem_of_singleton]%elem_of_app Hp'; rewrite bt_get_insert_decide by apply P; case_decide; [done| |done|done].
      by apply P.
  - split; try apply P.
    + rewrite Hlen. pose proof (pl_taken _ _ _ _ P). lia.
    + intros k d (Ht & Hn & r' & p' & Hr' & Hk' & Hp' & Hd)%(pl_dirs _ _ _ _ P). split_and!; [done..|]. exists r', p'.
      split_and!; [apply elem_of_app; by left|done|done|]. rewrite Hlen. destruct Hd as [|(i & Hi & ?)]; [by left|right].
      exists i. split; [lia|done].
    + intros r' [Hr'| ->%list_elem_of_singleton]%elem_of_app Hp'; [by apply P|]. rewrite Hp in Hp'. by destruct Hp'.
Qed.

Lemma placed_all name past taken dirs records : NoDup (map key (past ++ records)) -> placed name past taken dirs ->
  let acc := fold_left package_step records (taken, dirs) in placed name (past ++ records) acc.1 acc.2.
Proof.
  revert past taken dirs. induction records as [|r records IH]; intros past taken dirs Hnd P; [by rewrite app_nil_r|].
  cbn [fold_left]. assert (key r ∉ map key past) as Hk.
  { rewrite map_app, NoDup_app in Hnd. intros Hin. destruct Hnd as (_ & Hd & _). by apply (Hd _ Hin); left. }
  pose proof (placed_step _ _ _ _ _ Hk P) as P'. destruct (package_step (taken, dirs) r) as [taken' dirs'].
  specialize (IH (past ++ [r]) taken' dirs'). rewrite <- (assoc_L app) in IH. by apply IH.
Qed.

(** Every package of distinct records has a directory, no two the same and
    none the plugin's own, and every directory is an Agent Skills name: that
    of the package, or one derived from it. *)
Lemma package_directories_ok name records : NoDup (map key records) ->
  let dirs := package_directories records name in
  (forall r p, r ∈ records -> cr_package r = Some p -> exists d, bt_get (key r) dirs = Some d) /\
  (forall k d, bt_get k dirs = Some d -> d <> name) /\
  (forall k k' d, bt_get k dirs = Some d -> bt_get k' dirs = Some d -> k = k') /\
  (length records < MOST_ATTEMPTS -> (forall r, r ∈ records -> (0 <= cr_bundle_id r <= i64_max)%Z) ->
     forall k d, bt_get k dirs = Some d -> valid_name d = true).
Proof.
  intros Hnd. cbn. unfold package_directories. assert (placed name [] [name] []) as P0.
  { split; [constructor|done|by left|done..|]. by intros r ?%not_elem_of_nil. }
  pose proof (placed_all name [] [name] [] records Hnd P0) as P. cbn [app] in P. split_and!.
  - intros r p Hr Hp. apply (pl_all _ _ _ _ P r Hr). rewrite Hp. eauto.
  - by intros k d (_ & ? & _)%(pl_dirs _ _ _ _ P).
  - apply P.
  - intros Hmost Hb k d (_ & _ & r & p & Hr & _ & _ & Hd)%(pl_dirs _ _ _ _ P).
    destruct Hd as [->|(i & Hi & ->)]; [apply slug_valid|]. apply suffixed_valid; [apply slug_valid|by apply Hb|lia].
Qed.

(** The bundles [docs-3], [docs] and [docs] with the ids 1, 2 and 3: the
    directory made for the third is the one the first already has. *)
Definition a_document (bundle : Z) (name : string) : ConceptRecord :=
  {| cr_bundle_id := bundle; cr_bundle_name := lit name; cr_concept_id := lit "a"; cr_path := lit "a.md"; cr_title := None;
     cr_description := None; cr_type := None; cr_tags := []; cr_file_hash := []; cr_trust_tier := []; cr_status := [];
     cr_exact := true; cr_bytes := lit "text"; cr_package := None; cr_resource := None; cr_freshness := unknown;
     cr_origin := {| o_pick := false; o_seed := false; o_closure := false |} |}.

Example bundle_directories_collide :
  bundle_directories [a_document 1 "docs-3"; a_document 2 "docs"; a_document 3 "docs"]
  = [(1%Z, lit "docs-3"); (2%Z, lit "docs"); (3%Z, lit "docs-3")].
Proof. by_eval. Qed.

(** ** Relative links *)

(** Where a relative link leads from a directory. *)
Definition follow_step (at_ : list str) (segment : str) : list str :=
  if decide (segment = lit "..") then removelast at_
  else if decide (segment = [] \/ segment = lit ".") then at_
  else at_ ++ [segment].
Definition follow (from : list str) (link : str) : list str := fold_left follow_step (split_on slash link) from.

Definition plain_segment (s : str) : Prop := s <> [] /\ s <> lit "." /\ s <> lit ".." /\ slash ∉ s.

Lemma follow_plain at_ ps : Forall plain_segment ps -> fold_left follow_step ps at_ = at_ ++ ps.
Proof.
  revert at_. induction ps as [|p ps IH]; intros at_ Hp; cbn; [by rewrite app_nil_r|].
  apply Forall_cons in Hp as [(H1 & H2 & H3 & _) Hp]. unfold follow_step at 2.
  rewrite decide_False, decide_False by (done || intros [?|?]; done). rewrite IH by done. by rewrite <- (assoc_L app).
Qed.

Lemma follow_up n at_ : n <= length at_ ->
  fold_left follow_step (repeat (lit "..") n) at_ = take (length at_ - n) at_.
Proof.
  revert at_. induction n as [|n IH]; intros at_ Hn; cbn; [by rewrite take_ge by lia|].
  destruct at_ as [|x at_ _] using rev_ind; [cbn in Hn; lia|]. rewrite length_app in Hn |- *. cbn in Hn |- *.
  unfold follow_step at 2. rewrite decide_True by done. rewrite removelast_last, IH by lia.
  rewrite take_app_le by lia. f_equal. lia.
Qed.

Lemma common_spec from to : common from to <= length from /\ common from to <= length to /\
  take (common from to) from = take (common from to) to.
Proof.
  revert to. induction from as [|a from IH]; intros [|b to]; cbn; [split_and!; done || lia..|].
  case_decide as Hab; [|split_and!; done || lia]. subst. destruct (IH to) as (? & ? & H). cbn. rewrite H.
  split_and!; done || lia.
Qed.

Lemma split_up n rest : split_on slash (concat (repeat (lit "../") n) ++ rest) = repeat (lit "..") n ++ split_on slash rest.
Proof.
  induction n as [|n IH]; [done|]. cbn [repeat concat]. rewrite <- (assoc_L app).
  change (lit "../" ++ ?x) with (lit ".." ++ slash :: x).
  rewrite split_on_app, IH; [done|]. by_decide.
Qed.

Lemma split_down ps rest : Forall plain_segment ps ->
  split_on slash (concat (map (fun s => s ++ [slash]) ps) ++ rest) = ps ++ split_on slash rest.
Proof.
  induction 1 as [|p ps (_ & _ & _ & Hp) _ IH]; [done|]. cbn. rewrite <- !(assoc_L app). cbn. by rewrite split_on_app, IH.
Qed.

(** The prefix of a link leads from the directory of the index to the
    directory of the files. *)
Lemma relative_prefix_follows index_dir dir rest :
  Forall plain_segment (segments dir) -> Forall plain_segment (split_on slash rest) ->
  follow (segments index_dir) (relative_prefix index_dir dir ++ rest) = segments dir ++ split_on slash rest.
Proof.
  intros Hd Hr. unfold follow, relative_prefix. set (from := segments index_dir). set (to := segments dir) in *.
  destruct (common_spec from to) as (Hf & Ht & Heq). set (n := common from to) in *.
  rewrite <- (assoc_L app), split_up, split_down by by apply Forall_drop. rewrite !fold_left_app.
  rewrite follow_up by lia. replace (length from - (length from - n)) with n by lia.
  rewrite Heq, (follow_plain _ (drop n to)) by by apply Forall_drop. by rewrite take_drop, follow_plain.
Qed.

(** ** Paths of the tree *)

(** What may be written as a file name anywhere: no separator of any
    platform, no control character, no mark that turns the text around, and
    nothing a platform reads as this or the parent directory. *)
Definition writable (s : str) : Prop :=
  safe_segment s = true /\ slash ∉ s /\ backslash ∉ s /\ colon ∉ s.

Lemma writable_plain s : writable s -> plain_segment s.
Proof.
  intros (H & Hs & _). unfold plain_segment. split_and!; [intros ->; by vm_compute in H..|done].
Qed.

Lemma cleaned_chars path c : c ∈ cleaned path -> c <> backslash /\ c <> colon.
Proof.
  remember (length path) as n eqn:Hn. assert (length path <= n) as Hl by lia. clear Hn.
  revert path Hl. induction n as [|n IH]; intros [|a path] Hl; cbn in Hl |- *; [by intros ?%not_elem_of_nil|lia|by intros ?%not_elem_of_nil|].
  assert (underscore <> backslash /\ underscore <> colon) as Hu by by_decide.
  destruct (_ || _ || _) eqn:Ha.
  - intros [->|H]%elem_of_cons; [done|]. apply (IH path); [lia|done].
  - apply orb_false_iff in Ha as [Ha _]. apply orb_false_iff in Ha as [Ha _]. rewrite bool_decide_eq_false in Ha.
    rewrite !not_elem_of_cons in Ha. destruct_and!.
    destruct path as [|d path]; [by intros ->%list_elem_of_singleton|]. destruct (_ && _).
    + intros [->|H']%elem_of_cons; [done|]. apply (IH path); [cbn in Hl; lia|done].
    + intros [->|H']%elem_of_cons; [done|]. apply (IH (d :: path)); [lia|done].
Qed.

Lemma split_on_sub c s p d : p ∈ split_on c s -> d ∈ p -> d ∈ s.
Proof.
  intros Hp Hd. rewrite <- (join_split_on c s). revert Hp. generalize (split_on c s). intros ps.
  induction ps as [|q ps IH]; [by intros ?%not_elem_of_nil|]. destruct ps as [|q' ps].
  - intros ->%list_elem_of_singleton. done.
  - intros [->|Hp]%elem_of_cons; rewrite join_cons2, elem_of_app; [by left|]. right. apply elem_of_app. right. by apply IH.
Qed.

(** A path that is let through has writable segments only. *)
Lemma tree_path_writable path p : tree_path path = Ok p -> Forall writable (split_on slash p).
Proof.
  unfold tree_path. destruct (existsb _ _) eqn:He; [done|]. intros [= <-]. apply Forall_forall. intros s Hs.
  split_and!.
  - destruct (safe_segment s) eqn:E; [done|]. exfalso. enough (existsb (fun seg => negb (safe_segment seg)) (split_on slash (cleaned path)) = true) by congruence.
    apply existsb_exists. exists s. split; [by apply list_elem_of_In|]. by rewrite E.
  - pose proof (split_on_notin slash (cleaned path)) as H. rewrite Forall_forall in H. by apply H.
  - intros Hin. by destruct (cleaned_chars path _ (split_on_sub _ _ _ _ Hs Hin)).
  - intros Hin. by destruct (cleaned_chars path _ (split_on_sub _ _ _ _ Hs Hin)).
Qed.

(** ** Collisions *)

Section collisions.
Context `{Unicode}.

Lemma ensure_distinct_spec seen paths : bt_sorted seen ->
  ensure_distinct seen paths = Ok tt <->
  NoDup (map collision_key paths) /\ forall p, p ∈ paths -> bt_get (collision_key p) seen = None.
Proof.
  revert seen. induction paths as [|p paths IH]; intros seen Hs; cbn.
  - split; [|done]. intros _. split; [constructor|by intros ? ?%not_elem_of_nil].
  - destruct (bt_get (collision_key p) seen) eqn:Hp.
    + split; [done|]. intros [_ Hn]. rewrite (Hn p ltac:(by left)) in Hp. done.
    + rewrite IH by by apply bt_insert_sorted. rewrite NoDup_cons. split.
      * intros [Hnd Hn]. split; [split; [|done]|].
        -- intros (q & Hq & Hin)%list_elem_of_fmap. pose proof (Hn q Hin) as Hg.
           by rewrite bt_get_insert_decide, decide_True in Hg by done.
        -- intros q [->|Hq]%elem_of_cons; [done|]. pose proof (Hn q Hq) as Hg.
           rewrite bt_get_insert_decide in Hg by done. by case_decide.
      * intros [[Hni Hnd] Hn]. split; [done|]. intros q Hq. rewrite bt_get_insert_decide by done.
        rewrite decide_False; [apply Hn; by right|]. intros He. apply Hni. rewrite <- He. by apply (list_elem_of_fmap_2 collision_key).
Qed.

Lemma ensure_no_directory_spec directories paths :
  ensure_no_directory directories paths = Ok tt <-> forall p, p ∈ paths -> collision_key p ∉ directories.
Proof.
  induction paths as [|p paths IH]; cbn; [split; [|done]; by intros _ ? ?%not_elem_of_nil|].
  case_bool_decide as Hp; [split; [done|]; intros Hn; by destruct (Hn p ltac:(by left))|]. rewrite IH.
  setoid_rewrite elem_of_cons. naive_solver.
Qed.

(** The check lets a tree through exactly when no two of its paths are one
    path to a file system that ignores case and composition, and none is a
    directory another one needs. *)
Lemma ensure_unique_paths_exact paths :
  ensure_unique_paths paths = Ok tt <->
  NoDup (map collision_key paths) /\
  forall p q d, p ∈ paths -> q ∈ paths -> d ∈ directories_of q -> collision_key p <> collision_key d.
Proof.
  unfold ensure_unique_paths. destruct (ensure_distinct [] paths) as [[]|e] eqn:Hd; cbn [rbind].
  - apply ensure_distinct_spec in Hd as [Hnd _]; [|constructor]. rewrite ensure_no_directory_spec. split.
    + intros Hn. split; [done|]. intros p q d Hp Hq Hdir He. apply (Hn p Hp). rewrite He.
      apply (list_elem_of_fmap_2 collision_key), elem_of_concat_map. eauto.
    + intros [_ Hn] p Hp (d & He & (q & Hq & Hdir)%elem_of_concat_map)%list_elem_of_fmap. exact (Hn p q d Hp Hq Hdir He).
  - split; [done|]. intros [Hnd _]. assert (ensure_distinct [] paths = Ok tt) as He; [|by rewrite He in Hd].
    apply ensure_distinct_spec; [constructor|]. done.
Qed.

End collisions.

(** ** The layout *)

(** A path of plain segments, each writable. *)
Definition plain_path (p : str) : Prop := Forall writable (split_on slash p).

Lemma plain_path_app p q : plain_path p -> plain_path q -> plain_path (p ++ [slash] ++ q).
Proof. unfold plain_path. cbn [app]. rewrite split_on_concat. intros ? ?. by apply Forall_app. Qed.

Lemma plain_path_split p : plain_path p -> segments p = split_on slash p /\ Forall plain_segment (segments p).
Proof.
  intros Hp. assert (segments p = split_on slash p) as ->.
  { unfold segments, plain_path in *. induction Hp as [|s ps (Hs & _) _ IH]; [done|]. cbn.
    destruct s as [|c s]; [by vm_compute in Hs|]. cbn. by rewrite IH. }
  split; [done|]. eapply Forall_impl; [exact Hp|]. apply writable_plain.
Qed.

Lemma plain_char_facts c : plain_char c = true ->
  in_range 0 31 c = false /\ (byte c < 127)%N /\ c <> slash /\ c <> backslash /\ c <> colon /\ c <> " "%char.
Proof.
  intros Hc. assert (negb (plain_char c) || (negb (in_range 0 31 c) && (byte c <? 127)%N
    && forallb (fun d => negb (Ascii.eqb c d)) [slash; backslash; colon; " "%char]) = true) as H.
  { clear Hc. by destruct c as [[] [] [] [] [] [] [] []]; vm_compute. }
  rewrite Hc in H. cbn [negb orb forallb] in H. bool_prop. rewrite <- N.ltb_lt.
  repeat match goal with E : Ascii.eqb _ _ = false |- _ => apply Ascii.eqb_neq in E end. by split_and!.
Qed.

(** Ordinary names are writable. *)
Lemma plain_chars_unmarked s : forallb plain_char s = true -> has_control s || has_direction_mark s = false.
Proof.
  induction s as [|c s IH]; [done|]. cbn [forallb]. intros [Hc Hs]%andb_true_iff.
  destruct (plain_char_facts c Hc) as (H1 & H2 & _). apply IH, orb_false_iff in Hs as [IH1 IH2].
  apply orb_false_iff. cbn. rewrite H1, IH1, IH2. split.
  - rewrite bool_decide_eq_false_2 by (intros ->; by vm_compute in H2). destruct s; [done|].
    rewrite bool_decide_eq_false_2; [done|]. intros ->. by vm_compute in H2.
  - destruct s as [|d [|e s]]; [done..|]. destruct (N.eqb_spec (byte c) 226); [lia|done].
Qed.

Lemma plain_chars_writable s :
  forallb plain_char s = true -> forallb (fun c => bool_decide (c = dot)) s = false -> writable s.
Proof.
  intros Hc Hd. assert (forall c, c ∈ s -> plain_char c = true) as Hall.
  { intros c Hin. rewrite forallb_forall in Hc. by apply Hc, list_elem_of_In. }
  split_and!; [|intros Hin; by destruct (plain_char_facts _ (Hall _ Hin)) as (_ & _ & ? & ? & ? & ?)..].
  unfold safe_segment. rewrite plain_chars_unmarked by done.
  destruct (trim_end_matches_spec space_or_dot s) as (w & Hw & Hdots). set (t := trim_end_matches space_or_dot s) in *.
  assert (forallb (fun c => bool_decide (c = dot)) w = true) as Hwd.
  { apply forallb_forall. intros c Hin%list_elem_of_In. rewrite Forall_forall in Hdots. pose proof (Hdots c Hin) as Hsp.
    assert (c ∈ s) as Hcs by (rewrite Hw; apply elem_of_app; by right).
    unfold space_or_dot in Hsp. rewrite bool_decide_eq_true, !elem_of_cons in Hsp. apply bool_decide_eq_true.
    destruct (plain_char_facts c (Hall c Hcs)) as (_ & _ & _ & _ & _ & Hns). by destruct Hsp as [?|[?|?%not_elem_of_nil]]. }
  assert (forallb (fun c => bool_decide (c = dot)) t = false) as Htd.
  { rewrite Hw, forallb_app, Hwd, andb_true_r in Hd. done. }
  rewrite !andb_true_iff, !negb_true_iff, !bool_decide_eq_false. split_and!; [|..|done].
  - by destruct s.
  - by destruct t.
  - intros He. rewrite He in Htd. by vm_compute in Htd.
  - intros He. rewrite He in Hd. by vm_compute in Hd.
Qed.

Lemma hyphenated_writable s : hyphenated true true s = true -> writable s.
Proof.
  intros Hv. assert (forallb plain_char s = true /\ forallb (fun c => negb (bool_decide (c = dot))) s = true) as [Hp Hd].
  { revert Hv. generalize true at 2. induction s as [|c s IH]; intros b; [done|].
    assert (negb (hyphen c || name_char c) || (plain_char c && negb (bool_decide (c = dot))) = true) as Hc.
    { clear. by destruct c as [[] [] [] [] [] [] [] []]; vm_compute. }
    cbn [hyphenated forallb]. destruct (hyphen c); cbn [orb negb] in Hc.
    - intros [_ Hs]%andb_true_iff. apply IH in Hs as [-> ->]. apply andb_true_iff in Hc as [-> ->]. done.
    - intros [Hn Hs]%andb_true_iff. apply IH in Hs as [-> ->]. rewrite Hn in Hc. apply andb_true_iff in Hc as [-> ->]. done. }
  apply plain_chars_writable; [done|]. destruct s as [|c s]; [done|]. cbn in Hd |- *.
  apply andb_true_iff in Hd as [Hd _]. by apply negb_true_iff in Hd as ->.
Qed.

Lemma valid_name_writable s : valid_name s = true -> writable s.
Proof. intros [Hv _]%andb_true_iff. by apply hyphenated_writable. Qed.

Lemma plain_path_one s : writable s -> plain_path s.
Proof. intros H. unfold plain_path. rewrite split_on_plain by apply H. by apply Forall_singleton. Qed.

(** A path of ordinary characters, by evaluation. *)
Definition ordinary (p : str) : bool :=
  forallb (fun s => forallb plain_char s && negb (forallb (fun c => bool_decide (c = dot)) s)) (split_on slash p).

Lemma ordinary_plain p : ordinary p = true -> plain_path p.
Proof.
  unfold ordinary, plain_path. rewrite forallb_forall. intros H. apply Forall_forall. intros s Hs%list_elem_of_In.
  apply H, andb_true_iff in Hs as [Hc Hd]. apply plain_chars_writable; [done|]. by apply negb_true_iff.
Qed.

Lemma under_plain dir name : plain_path dir -> ordinary (lit name) = true -> plain_path (under dir name).
Proof. intros Hd Hn. by apply plain_path_app, ordinary_plain. Qed.

(** The shapes that use the root of their profile have one that is plain. *)
Definition rooted (p : Profile) : Prop :=
  match pr_shape p with
  | AgentPlugin | InstructionFile => True
  | Skills | PromptBundle | Generic => plain_path (pr_root p)
  end.

Lemma registry_rooted p : p ∈ PROFILES -> rooted p.
Proof.
  intros Hp. assert (Forall (fun p => match pr_shape p with
                                      | AgentPlugin | InstructionFile => True
                                      | _ => ordinary (pr_root p) = true end) PROFILES) as H by (repeat constructor; by_eval).
  rewrite Forall_forall in H. apply H in Hp. unfold rooted. destruct (pr_shape p); auto using ordinary_plain.
Qed.

(** Everything a layout names is a plain path below the workspace. *)
Lemma layout_plain p name : rooted p -> valid_name name = true ->
  let l := layout p name in
  plain_path (la_index_path l) /\ plain_path (la_content_dir l) /\ plain_path (la_packages_dir l) /\
  plain_path (la_scripts_dir l) /\ (la_meta_dir l = [] \/ plain_path (la_meta_dir l)) /\
  (pr_shape p = InstructionFile \/ plain_path (la_root l)).
Proof.
  intros Hr Hn. apply valid_name_writable, plain_path_one in Hn. unfold rooted in Hr. unfold layout.
  assert (forall s, ordinary (lit s) = true -> plain_path (lit s)) as Hlit by auto using ordinary_plain.
  assert (plain_path (name ++ lit "/skills/" ++ name)) as Hskill.
  { change (name ++ lit "/skills/" ++ name) with (name ++ [slash] ++ lit "skills" ++ [slash] ++ name).
    apply plain_path_app, plain_path_app; [done|by apply Hlit|done]. }
  destruct (pr_shape p); cbn [la_root la_index_path la_content_dir la_packages_dir la_scripts_dir la_meta_dir];
    split_and!; lazymatch goal with |- _ \/ _ => first [by left | right] | _ => idtac end; first [assumption | by apply Hlit | apply under_plain; [|by_eval] | idtac];
    first [assumption | by apply plain_path_app].
Qed.
