(* ===== verification/PluginText.v ===== *)
(** * Texts of a plugin that something reads back ([pgokf-workspace/src/plugin.rs])

    The checks of the commands and URLs a build is asked to write down, link
    destinations, the frontmatter and the banners of stale documents, the
    bounded system prompt, the Modelfile and the helper script.  The indexes,
    the guide and the manifest are prose for people and are not here. *)
From stdpp Require Import prelude strings gmap list sorting.
From Stdlib Require Import Ascii ZArith Lia.
From S2P Require Import Prelude Str BTree Net Selection PluginTree.

Definition squote : ascii := "'"%char.
Definition dquote : ascii := "034"%char.
Definition backquote : ascii := "`"%char.

(** [s.replace(c, t)] for a character. *)
Definition replace_with (c : ascii) (t : str) (s : str) : str :=
  concat (map (fun d => if decide (d = c) then t else [d]) s).

(** [s.trim_end_matches('/')] *)
Definition no_end_slash (s : str) : str := trim_end_matches (fun c => bool_decide (c = slash)) s.

(** [raw.map(str::trim).filter(|s| !s.is_empty())] *)
Definition given (raw : option str) : option str := s ← raw; if is_nil (trim s) then None else Some (trim s).

Inductive TextError : Type :=
| NotAModel (model : str)
| NotAPluginCommand (command : str)
| NotACommand (command : str)
| NotAWebUrl (url : str)
| EndpointTooLong (length : nat)
| EndpointNotHttp (url : str)
| EndpointNotAUrl (url : str)
| EndpointNoHost (url : str)
| EndpointCredentials (url : str)
| EndpointQuery (url : str).

(** ** What may be written down *)

Definition model_char (c : ascii) : bool :=
  is_ascii_alphanumeric c || bool_decide (c ∈ [dot; underscore; colon; slash; "-"%char]).

Definition validated_base_model (raw : option str) : result str TextError :=
  let model := default (lit "llama3.1") (given raw) in
  if forallb model_char model then Ok model else Err (NotAModel model).

Definition validated_plugin_command (command : str) : result str TextError :=
  let bare := negb (existsb (fun c => bool_decide (c ∈ [slash; backslash; colon])) command) in
  let relative := starts_with (lit "./") command && negb (contains_char backslash command)
                  && negb (contains_char colon command)
                  && negb (existsb (fun seg => bool_decide (seg = lit "..")) (split_on slash command)) in
  if bare || relative then Ok command else Err (NotAPluginCommand command).

Definition command_char (c : ascii) : bool :=
  is_ascii_alphanumeric c || bool_decide (c ∈ [dot; underscore; slash; "-"%char; backslash; colon]).

Definition validated_command (raw : option str) : result str TextError :=
  let command := default (lit "pgokf-mcp") (given raw) in
  if forallb command_char command then Ok command else Err (NotACommand command).

Definition SHELL_METACHARACTERS : list ascii :=
  [squote; dquote; backquote; "$"%char; backslash; "("%char; ")"%char; "{"%char; "}"%char; ";"%char; "&"%char; "|"%char;
   "<"%char; ">"%char].

(** [char::is_ascii_graphic] *)
Definition is_ascii_graphic (c : ascii) : bool := in_range 33 126 c.

Definition validated_web_url (raw : option str) : result (option str) TextError :=
  match given raw with
  | None => Ok None
  | Some url =>
      if (starts_with (lit "http://") url || starts_with (lit "https://") url)
         && forallb (fun c => is_ascii_graphic c && negb (bool_decide (c ∈ SHELL_METACHARACTERS))) url
      then Ok (Some (no_end_slash url))
      else Err (NotAWebUrl url)
  end.

Definition MCP_URL_MAX : nat := 512.

(** The text after the scheme. *)
Definition after_scheme (url : str) : option str :=
  match strip_prefix (lit "https://") url with
  | Some rest => Some rest
  | None => strip_prefix (lit "http://") url
  end.

(** [rest.split(['/', '?', '#']).next()] *)
Fixpoint until (p : ascii -> bool) (s : str) : str :=
  match s with
  | [] => []
  | c :: s' => if p c then [] else c :: until p s'
  end.

Definition validated_mcp_url (raw : option str) : result (option str) TextError :=
  match given raw with
  | None => Ok None
  | Some url =>
      if (MCP_URL_MAX <? length url)%nat then Err (EndpointTooLong (length url))
      else match after_scheme url with
           | None => Err (EndpointNotHttp url)
           | Some rest =>
               if negb (forallb (fun c => is_ascii_graphic c && negb (bool_decide (c ∈ [squote; dquote; backquote]))) url)
               then Err (EndpointNotAUrl url)
               else
                 let authority := until (fun c => bool_decide (c ∈ [slash; "?"%char; "#"%char])) rest in
                 if is_nil authority then Err (EndpointNoHost url)
                 else if contains_char "@"%char authority then Err (EndpointCredentials url)
                 else if existsb (fun c => bool_decide (c ∈ ["?"%char; "#"%char])) rest then Err (EndpointQuery url)
                 else Ok (Some url)
           end
  end.

(** The host of an authority: without a port, but for the colons of an IPv6
    literal. *)
Definition host_of (authority : str) : str :=
  match rsplit_once colon authority with
  | Some (head, port) =>
      if negb (is_nil port) && forallb is_ascii_digit port && (ends_with (lit "]") head || negb (contains_char colon head))
      then head else authority
  | None => authority
  end.

Definition is_loopback_endpoint (url : str) : bool :=
  match after_scheme url with
  | None => false
  | Some rest =>
      let host := host_of (until (fun c => bool_decide (c = slash)) rest) in
      eq_ignore_ascii_case host (lit "localhost") || bool_decide (host = lit "[::1]")
      || match read_ipv4_addr host with Some (a, []) => is_loopback_v4 a | _ => false end
  end.

(** ** Links *)

Definition link_char (c : ascii) : bool :=
  is_ascii_alphanumeric c || bool_decide (c ∈ [slash; dot; underscore; "-"%char; "~"%char]).

Definition link_destination (path : str) : str :=
  if forallb link_char path then path
  else lit "<" ++ replace_with ">"%char (lit "%3E") (replace_with "<"%char (lit "%3C") path) ++ lit ">".

(** ** Frontmatter and banners *)

Definition BOM : str := [ascii_of_N 239; ascii_of_N 187; ascii_of_N 191].

Definition fence_line (line : str) : bool :=
  bool_decide (trim_end_matches (fun c => bool_decide (c ∈ [cr; nl])) line = lit "---").

(** What follows the first line that closes the block. *)
Fixpoint after_fence (lines : list str) : option str :=
  match lines with
  | [] => None
  | line :: lines' => if fence_line line then Some (concat lines') else after_fence lines'
  end.

Definition strip_frontmatter (text : str) : str :=
  let rest := default text (strip_prefix BOM text) in
  match (match strip_prefix (lit "---" ++ [nl]) rest with
         | Some after => Some after
         | None => strip_prefix (lit "---" ++ [cr; nl]) rest
         end) with
  | None => text
  | Some after => default text (after_fence (split_inclusive nl after))
  end.

Definition with_stale_banner (bytes banner : str) : str :=
  if utf8_valid bytes then
    let body := strip_frontmatter bytes in
    match (if (length body <? length bytes)%nat then strip_suffix body bytes else None) with
    | Some head => head ++ (if ends_with [nl] head then [] else [nl]) ++ [nl] ++ banner ++ body
    | None => banner ++ bytes
    end
  else bytes.

(** ** Warnings *)

Definition ticked (s : str) : str := backquote :: s ++ [backquote].

Definition revision_label (label : string) (value : option str) : str :=
  match value with
  | None => lit label ++ lit " unknown"
  | Some v => lit label ++ lit " " ++ ticked v
  end.

Definition revision_sentence (f : Freshness) : str :=
  lit "state " ++ ticked (f_state f)
  ++ (if is_nil (f_reasons f) then [] else lit ", reasons: " ++ join (lit ", ") (f_reasons f))
  ++ lit "; " ++ revision_label "observed" (f_observed_revision f) ++ lit ", "
  ++ revision_label "indexed" (f_indexed_revision f) ++ lit ", " ++ revision_label "published" (f_published_revision f)
  ++ match f_catalog_generation f with Some g => lit ", catalog generation " ++ show_Z g | None => [] end.

(** [serde_json]: the evidence of a warning as one JSON object. *)
Class Evidence : Type := { evidence_json : Z -> str -> Freshness -> str }.

Section texts.
Context `{Evidence}.

Definition freshness_json_line (bundle_id : Z) (concept_id : str) (f : Freshness) : str :=
  lit "<!-- pgokf-stale " ++ evidence_json bundle_id concept_id f ++ lit " -->".

Definition stale_banner (r : ConceptRecord) : str :=
  lit "> [!WARNING]" ++ [nl]
  ++ lit "> **Stale catalog content** — when this workspace was built, the catalog reported this concept as not fresh ("
  ++ revision_sentence (cr_freshness r)
  ++ lit "). Rebuild the plugin to pick up the reconciled version; see `FRESHNESS.md` for the full report." ++ [nl; nl]
  ++ freshness_json_line (cr_bundle_id r) (cr_concept_id r) (cr_freshness r) ++ [nl; nl].

Definition warning_doc (bundle_id : Z) (concept_id : str) (title : option str) (fallback_path : str) (f : Freshness)
    (warning_path : str) : str :=
  let title := default concept_id title in
  let referred := default fallback_path (stem ← strip_suffix STALE_WARNING_SUFFIX warning_path;
                                         '(_, name) ← rsplit_once slash stem; Some name) in
  lit "# Stale content warning: " ++ replace_with "]"%char (lit "\]") (replace_with "["%char (lit "\[") title) ++ [nl; nl]
  ++ lit "Generated by pgokf-workspace. When this workspace was built, the catalog reported concept `("
  ++ show_Z bundle_id ++ lit ":" ++ concept_id ++ lit ")` as not fresh (" ++ revision_sentence f
  ++ lit "). The document beside this file (" ++ ticked referred
  ++ lit " and, for a skill package, its whole directory) was materialized byte for byte and is **not** modified; treat its content as out of date and rebuild the plugin once the catalog reconciles. See `FRESHNESS.md` at the workspace root for every stale entry."
  ++ [nl; nl] ++ freshness_json_line bundle_id concept_id f ++ [nl].

Definition stale_warning_doc (r : ConceptRecord) (warning_path : str) : str :=
  warning_doc (cr_bundle_id r) (cr_concept_id r) (cr_title r) (cr_path r) (cr_freshness r) warning_path.

(** [member_freshness.get(..)] *)
Definition member_fresh (p : PackageRecord) (concept_id : str) : option Freshness :=
  bt_get concept_id (pk_member_freshness p).

Definition stale_member_warning_doc (r : ConceptRecord) (member : ResourceFile) (warning_path : str) : str :=
  match (p ← cr_package r; member_fresh p (rf_concept_id member)) with
  | None => []
  | Some f => warning_doc (cr_bundle_id r) (rf_concept_id member) None (rf_path member) f warning_path
  end.

(** ** The prompt of a bare model *)

Definition PROMPT_BUDGET : nat := Z.to_nat 24000.

Definition tier_rank (r : ConceptRecord) : nat :=
  if decide (cr_trust_tier r = lit "human-reviewed") then 0
  else if decide (cr_trust_tier r = lit "machine-confirmed") then 1 else 2.

Definition prompt_header (r : ConceptRecord) : str :=
  [nl] ++ lit "## " ++ default (cr_concept_id r) (cr_title r) ++ lit " (" ++ default (lit "concept") (cr_type r)
  ++ (if is_nil (cr_tags r) then [] else lit "; " ++ join (lit ", ") (cr_tags r)) ++ lit ")" ++ [nl; nl].

(** One document: the text so far, how much of the budget is used, how many
    documents are in. *)
Definition prompt_step (acc : str * nat * nat) (r : ConceptRecord) : str * nat * nat :=
  let '(out, used, included) := acc in
  if utf8_valid (cr_bytes r) then
    let body := strip_frontmatter (cr_bytes r) in
    let header := prompt_header r in
    let notice := if is_stale (cr_freshness r) then stale_banner r else [] in
    let used' := used + length header + length notice + length body in
    if (PROMPT_BUDGET <? used')%nat then acc
    else (out ++ header ++ notice ++ trim body ++ [nl], used', S included)
  else acc.

Definition prompt_intro (title catalog_name : str) : str :=
  lit "You have curated knowledge from " ++ catalog_name ++ lit " (a pgokf catalog), titled " ++ title
  ++ lit ". Use it when relevant; say so when it does not cover a question." ++ [nl; nl].

Definition system_prompt (title catalog_name : str) (records : list ConceptRecord) : str :=
  let intro := prompt_intro title catalog_name in
  let ordered := sort_by (fun a b => (tier_rank a <=? tier_rank b)%nat) records in
  let '(out, _, included) := fold_left prompt_step ordered (intro, length intro, 0) in
  out ++ (if (included <? length records)%nat
          then [nl] ++ lit "(" ++ show_Z (Z.of_nat included) ++ lit " of " ++ show_Z (Z.of_nat (length records))
               ++ lit " documents inlined; the rest are under knowledge/.)" ++ [nl]
          else []).

End texts.

Definition quotes3 : str := [dquote; dquote; dquote].

(** [prompt.replace] of three double quotes by three single ones. *)
Fixpoint neutralized (s : str) : str :=
  match s with
  | a :: ((b :: c :: s') as rest) =>
      if decide ([a; b; c] = quotes3) then [squote; squote; squote] ++ neutralized s' else a :: neutralized rest
  | _ => s
  end.

Definition modelfile (base prompt : str) : str :=
  lit "FROM " ++ base ++ [nl] ++ lit "PARAMETER temperature 0.2" ++ [nl] ++ lit "SYSTEM " ++ quotes3 ++ [nl]
  ++ neutralized prompt ++ [nl] ++ quotes3 ++ [nl].

(** ** The helper script *)

(** The text of [OKF_SH] up to the address in its comment, between the two
    uses of the address, and after them; a tilde stands for a double quote. *)
Definition quoted (s : string) : str := replace_with "~"%char [dquote] (lit s).

Definition okf_sh_head : str :=
  lit "#!/bin/sh" ++ [nl]
  ++ lit "# okf.sh - query the pgokf catalog through its JSON API (generated by pgokf-workspace)." ++ [nl]
  ++ lit "# Usage: okf.sh search <query> [limit] | get <bundle_id> <concept_id> | graph <bundle_id> <concept_id> [hops] | bundles | health"
  ++ [nl] ++ lit "# Needs curl; set OKF_WEB_URL to the pgokf-web base URL (default: ".
Definition okf_sh_middle : str :=
  lit ")." ++ [nl] ++ lit "set -eu" ++ [nl]
  ++ lit "# Single-quoted: the shell expands nothing inside, so the URL below is data" ++ [nl]
  ++ lit "# whatever it contains." ++ [nl] ++ lit "OKF_DEFAULT_URL=".
Definition okf_sh_tail : str :=
  [nl] ++ quoted "BASE=~${OKF_WEB_URL:-$OKF_DEFAULT_URL}~" ++ [nl]
  ++ quoted "enc() { printf '%s' ~$1~ | od -An -tx1 -v | tr -d ' \n' | sed 's/\([0-9a-f][0-9a-f]\)/%\1/g'; }" ++ [nl]
  ++ quoted "case ~${1:-}~ in" ++ [nl]
  ++ quoted "  search) [ $# -ge 2 ] || { echo 'usage: okf.sh search <query> [limit]' >&2; exit 2; }" ++ [nl]
  ++ quoted "    curl -fsS ~$BASE/api/search?q=$(enc ~$2~)&limit=${3:-20}~ ;;" ++ [nl]
  ++ quoted "  get) [ $# -ge 3 ] || { echo 'usage: okf.sh get <bundle_id> <concept_id>' >&2; exit 2; }" ++ [nl]
  ++ quoted "    curl -fsS ~$BASE/api/concepts/$2/$3~ ;;" ++ [nl]
  ++ quoted "  graph) [ $# -ge 3 ] || { echo 'usage: okf.sh graph <bundle_id> <concept_id> [hops]' >&2; exit 2; }" ++ [nl]
  ++ quoted "    curl -fsS ~$BASE/api/graph/$2/$3?hops=${4:-2}~ ;;" ++ [nl]
  ++ quoted "  bundles) curl -fsS ~$BASE/api/bundles~ ;;" ++ [nl]
  ++ quoted "  health) curl -fsS ~$BASE/api/health~ ;;" ++ [nl]
  ++ quoted "  *) echo 'usage: okf.sh search|get|graph|bundles|health ...' >&2; exit 2 ;;" ++ [nl]
  ++ lit "esac" ++ [nl] ++ lit "echo" ++ [nl].

Definition tools_script (web_url : option str) : str :=
  let default_url := match web_url with Some u => no_end_slash u | None => lit "http://localhost:8080" end in
  okf_sh_head ++ default_url ++ okf_sh_middle ++ [squote] ++ default_url ++ [squote] ++ okf_sh_tail.
