(* ===== verification/PluginTextProps.v ===== *)
(** * What the texts of a plugin promise

    The Modelfile's prompt cannot end its own block, a banner goes after the
    frontmatter and loses nothing, the prompt keeps to its budget, an endpoint
    that is written down carries no secret, and the address in the helper
    script is data. *)
From stdpp Require Import prelude strings gmap list sorting.
From Stdlib Require Import Ascii ZArith Lia.
From S2P Require Import Prelude Str BTree Net Selection PluginTree PluginText.

(** ** The Modelfile *)

Definition is_dquote (c : ascii) : bool := bool_decide (c = dquote).

(** No three double quotes in a row, after [n] of them. *)
Fixpoint few_quotes (n : nat) (s : str) : bool :=
  match s with
  | [] => true
  | c :: s' => if is_dquote c then (S n <? 3)%nat && few_quotes (S n) s' else few_quotes 0 s'
  end.

Lemma few_quotes_weaken n m s : n <= m -> few_quotes m s = true -> few_quotes n s = true.
Proof.
  revert n m. induction s as [|c s IH]; intros n m Hn; cbn [few_quotes]; [done|]. destruct (is_dquote c); [|done].
  rewrite !andb_true_iff, !Nat.ltb_lt. intros [? H]. split; [lia|]. by apply (IH _ (S m)); [lia|].
Qed.

Lemma few_quotes_contains s : few_quotes 0 s = true -> contains quotes3 s = false.
Proof.
  induction s as [|c s IH]; cbn [contains]; [by vm_compute|]. intros H. apply orb_false_iff. split.
  - destruct (starts_with quotes3 (c :: s)) eqn:E; [|done]. apply starts_with_spec in E as (r & E).
    rewrite E in H. by vm_compute in H.
  - apply IH. cbn [few_quotes] in H. destruct (is_dquote c); [|done]. apply andb_true_iff in H as [_ H].
    by apply (few_quotes_weaken 0 1); [lia|].
Qed.

Lemma few_quotes_app n s c t : is_dquote c = false ->
  few_quotes n (s ++ c :: t) = few_quotes n s && few_quotes 0 t.
Proof.
  intros Hc. revert n. induction s as [|d s IH]; intros n; cbn [few_quotes app]; [by rewrite Hc|].
  destruct (is_dquote d); [|done]. by rewrite IH, andb_assoc.
Qed.

Definition starts_quoted (n : nat) (s : str) : Prop := take n s = replicate n dquote.

#[local] Instance starts_quoted_dec n s : Decision (starts_quoted n s).
Proof. unfold starts_quoted. apply _. Defined.

Lemma neutralized_cons a t : ~ (a = dquote /\ starts_quoted 2 t) -> neutralized (a :: t) = a :: neutralized t.
Proof.
  intros H. destruct t as [|b [|c t]]; [done..|]. change (neutralized (a :: b :: c :: t)) with
    (if decide ([a; b; c] = quotes3) then [squote; squote; squote] ++ neutralized t else a :: neutralized (b :: c :: t)).
  rewrite decide_False; [done|]. intros [= -> -> ->]. by apply H.
Qed.

(** What is left has at most two in a row, and fewer where the text before
    already ends in some. *)
Lemma few_quotes_neutralized k s : length s <= k ->
  few_quotes 0 (neutralized s) = true /\
  (~ starts_quoted 2 s -> few_quotes 1 (neutralized s) = true) /\
  (~ starts_quoted 1 s -> few_quotes 2 (neutralized s) = true).
Proof.
  revert s. induction k as [|k IH]; intros [|a s] Hk; cbn in Hk; [done|lia|done|].
  destruct (IH s) as (I0 & I1 & I2); [lia|]. destruct (is_dquote a) eqn:Ha.
  - apply bool_decide_eq_true in Ha as ->. split_and!.
    + destruct (decide (starts_quoted 2 s)) as [Hq|Hq].
      * destruct s as [|b [|c s]]; [done..|]. injection Hq as -> ->.
        change (few_quotes 0 (neutralized s) = true). apply IH. cbn in Hk. lia.
      * rewrite neutralized_cons by (by intros [_ ?]). by apply I1.
    + intros Hn. assert (~ starts_quoted 1 s) as H1.
      { intros H1. apply Hn. destruct s as [|b s]; [done|]. by injection H1 as ->. }
      rewrite neutralized_cons; [by apply I2|]. intros [_ H2]. apply H1. destruct s as [|b [|c s]]; [done..|].
      by injection H2 as -> ->.
    + intros []. done.
  - assert (neutralized (a :: s) = a :: neutralized s) as ->.
    { apply neutralized_cons. intros [-> _]. by vm_compute in Ha. }
    cbn [few_quotes]. rewrite Ha. by split_and!.
Qed.

(** Whatever the prompt says, the block of the Modelfile that holds it ends
    where the Modelfile ends: the three quotes that close it are the first
    after the ones that open it. *)
Lemma modelfile_closed base prompt : exists body,
  modelfile base prompt = lit "FROM " ++ base ++ [nl] ++ lit "PARAMETER temperature 0.2" ++ [nl] ++ lit "SYSTEM " ++ quotes3
                          ++ body ++ quotes3 ++ [nl] /\
  contains quotes3 (body ++ [dquote; dquote]) = false.
Proof.
  exists ([nl] ++ neutralized prompt ++ [nl]). split; [unfold modelfile; by rewrite <- !(assoc_L app)|].
  apply few_quotes_contains. rewrite <- !(assoc_L app). change ([nl] ++ ?x) with (nl :: x). cbn [few_quotes app].
  replace (is_dquote nl) with false by by_eval. rewrite few_quotes_app by by_eval.
  rewrite (proj1 (few_quotes_neutralized (length prompt) prompt (le_n _))). by_eval.
Qed.

(** ** Frontmatter *)

Lemma split_inclusive_app_line l rest : nl ∉ l -> split_inclusive nl (l ++ nl :: rest) = (l ++ [nl]) :: split_inclusive nl rest.
Proof.
  induction l as [|c l IH]; cbn; [by rewrite decide_True|]. rewrite not_elem_of_cons. intros [Hc Hl].
  rewrite decide_False by done. by rewrite IH.
Qed.

Lemma split_inclusive_no c s : c ∉ s -> s <> [] -> split_inclusive c s = [s].
Proof.
  induction s as [|x s IH]; [done|]. rewrite not_elem_of_cons. intros [Hx Hs] _. cbn. rewrite decide_False by done.
  destruct s as [|y s]; [done|]. by rewrite IH.
Qed.

(** The lines of a text: each but the last ends in the separator, and what
    comes after some lines does not change how they are cut. *)
Lemma split_inclusive_at s pre line post : split_inclusive nl s = pre ++ line :: post ->
  (forall t, split_inclusive nl (concat pre ++ t) = pre ++ split_inclusive nl t) /\
  exists w, nl ∉ w /\ (line = w ++ [nl] \/ (line = w /\ w <> [] /\ post = [])).
Proof.
  remember (length s) as n eqn:Hn. assert (length s <= n) as Hl by lia. clear Hn.
  revert s pre Hl. induction n as [|n IH]; intros s pre Hl Hs.
  { destruct s; [|cbn in Hl; lia]. by destruct pre. }
  destruct (split_once nl s) as [[w r]|] eqn:Ho.
  - apply split_once_Some in Ho as [-> Hw]. rewrite split_inclusive_app_line in Hs by done.
    destruct pre as [|p pre]; injection Hs as Hp Hr; subst.
    + split; [done|]. exists w. auto.
    + destruct (IH r pre) as [Ht Hline]; [rewrite length_app in Hl; cbn in Hl; lia|done|]. split; [|done].
      intros t. cbn. rewrite <- !(assoc_L app). cbn. by rewrite split_inclusive_app_line, Ht.
  - apply split_once_None in Ho. destruct s as [|c s]; [by destruct pre|].
    rewrite split_inclusive_no in Hs by done. destruct pre as [|p pre]; [|by destruct pre]. injection Hs as <- <-.
    split; [done|]. exists (c :: s). auto.
Qed.

Lemma after_fence_Some lines b : after_fence lines = Some b <->
  exists pre line post, lines = pre ++ line :: post /\ Forall (fun l => fence_line l = false) pre /\
    fence_line line = true /\ b = concat post.
Proof.
  split.
  - induction lines as [|l lines IH]; cbn; [done|]. destruct (fence_line l) eqn:Hl.
    + intros [= <-]. exists [], l, lines. by repeat constructor.
    + intros (pre & line & post & -> & ? & ? & ?)%IH. exists (l :: pre), line, post. split_and!; try done. by constructor.
  - intros (pre & line & post & -> & Hpre & Hl & ->). induction Hpre as [|l pre Hp _ IH]; cbn; [by rewrite Hl|by rewrite Hp].
Qed.

Lemma fence_line_nl w : fence_line (w ++ [nl]) = fence_line w.
Proof. unfold fence_line, trim_end_matches. rewrite reverse_snoc. done. Qed.

(** The opening of a block, with what precedes it. *)
Definition opening (o : str) : Prop :=
  exists bom eol, (bom = [] \/ bom = BOM) /\ (eol = [nl] \/ eol = [cr; nl]) /\ o = bom ++ lit "---" ++ eol.

Lemma strip_frontmatter_open o after : opening o -> strip_frontmatter (o ++ after) = default (o ++ after) (after_fence (split_inclusive nl after)).
Proof. by intros (bom & eol & [-> | ->] & [-> | ->] & ->). Qed.

Lemma strip_frontmatter_cases text :
  strip_frontmatter text = text \/
  exists o after b, text = o ++ after /\ opening o /\ after_fence (split_inclusive nl after) = Some b /\ strip_frontmatter text = b.
Proof.
  unfold strip_frontmatter. set (rest := default text _).
  assert (exists bom, (bom = [] \/ bom = BOM) /\ text = bom ++ rest) as (bom & Hbom & Hrest).
  { subst rest. destruct (strip_prefix BOM text) as [r|] eqn:E; cbn; [exists BOM; split; [by right|by apply strip_prefix_Some]|].
    exists []. auto. }
  set (cut := match strip_prefix _ rest with Some after => Some after | None => _ end).
  destruct cut as [after|] eqn:Hc; [|by left].
  destruct (after_fence (split_inclusive nl after)) as [b|] eqn:Hb; [right|by left].
  assert (exists eol, (eol = [nl] \/ eol = [cr; nl]) /\ rest = lit "---" ++ eol ++ after) as (eol & Heol & Hr).
  { subst cut. destruct (strip_prefix (lit "---" ++ [nl]) rest) as [r|] eqn:E.
    - injection Hc as ->. apply strip_prefix_Some in E. exists [nl]. auto.
    - apply strip_prefix_Some in Hc. exists [cr; nl]. auto. }
  exists (bom ++ lit "---" ++ eol), after, b. split_and!; [|by exists bom, eol|done|done].
  rewrite Hrest at 1. rewrite Hr. by rewrite <- !(assoc_L app).
Qed.

(** A banner is added and nothing else changes: at the front of a document
    without frontmatter, else after the frontmatter, which still is one. *)
Lemma stale_banner_placed bytes banner : utf8_valid bytes = true ->
  (strip_frontmatter bytes = bytes /\ with_stale_banner bytes banner = banner ++ bytes) \/
  exists head, bytes = head ++ strip_frontmatter bytes /\
    exists gap, (gap = [nl] \/ gap = [nl; nl]) /\
      with_stale_banner bytes banner = head ++ gap ++ banner ++ strip_frontmatter bytes /\
      strip_frontmatter (with_stale_banner bytes banner) = [nl] ++ banner ++ strip_frontmatter bytes.
Proof.
  intros Hu. unfold with_stale_banner. rewrite Hu.
  destruct (strip_frontmatter_cases bytes) as [He|(o & after & b & Ht & Ho & Hb & Hs)].
  { left. split; [done|]. by rewrite He, Nat.ltb_irrefl. }
  right. rewrite Hs. apply after_fence_Some in Hb as (pre & line & post & Hlines & Hpre & Hline & ->).
  destruct (split_inclusive_at _ _ _ _ Hlines) as (Hcut & w & Hw & Hend).
  assert (bytes = (o ++ concat pre ++ line) ++ concat post) as Hbytes.
  { rewrite Ht, <- (split_inclusive_concat nl after), Hlines, concat_app. cbn. by rewrite <- !(assoc_L app). }
  assert (o <> []) as Hne by (by destruct Ho as (bom & eol & [-> | ->] & _ & ->)).
  rewrite Hbytes. exists (o ++ concat pre ++ line). split; [done|].
  assert ((length (concat post) <? length ((o ++ concat pre ++ line) ++ concat post))%nat = true) as ->.
  { apply Nat.ltb_lt. rewrite length_app. destruct o; [done|]. cbn. lia. }
  rewrite strip_suffix_app.
  assert (forall rest, strip_frontmatter (o ++ concat pre ++ (w ++ [nl]) ++ rest) = rest) as Hrest.
  { intros rest. rewrite strip_frontmatter_open by done. rewrite Hcut, <- (assoc_L app w). cbn [app].
    rewrite split_inclusive_app_line by done.
    assert (after_fence (pre ++ (w ++ [nl]) :: split_inclusive nl rest) = Some rest) as ->; [|done].
    apply after_fence_Some. exists pre, (w ++ [nl]), (split_inclusive nl rest). split_and!; [done..| |by rewrite split_inclusive_concat].
    rewrite fence_line_nl. destruct Hend as [-> | [-> _]]; [by rewrite <- fence_line_nl|done]. }
  destruct Hend as [-> | (-> & Hw' & ->)].
  - exists [nl]. split; [by left|]. assert (ends_with [nl] (o ++ concat pre ++ w ++ [nl]) = true) as ->.
    { apply ends_with_spec. exists (o ++ concat pre ++ w). by rewrite <- !(assoc_L app). }
    split; [by rewrite <- !(assoc_L app)|]. pose proof (Hrest ([nl] ++ banner ++ concat post)) as H.
    rewrite <- !app_assoc in H |- *. cbn [app] in H |- *. rewrite <- ?app_assoc. exact H.
  - exists [nl; nl]. split; [by right|]. assert (ends_with [nl] (o ++ concat pre ++ w) = false) as ->.
    { destruct (ends_with _ _) eqn:E; [|done]. exfalso. apply ends_with_spec in E as (r & E).
      destruct w as [|c w _] using rev_ind; [done|]. rewrite !(assoc_L app) in E. apply app_inj_tail in E as [_ ->].
      apply Hw, elem_of_app. right. by left. }
    split; [by rewrite <- !(assoc_L app)|]. pose proof (Hrest ([nl] ++ banner ++ concat [])) as H.
    rewrite <- !app_assoc in H |- *. cbn [app] in H |- *. rewrite <- ?app_assoc. exact H.
Qed.

(** ** Endpoints and addresses *)

Lemma given_spec raw s : given raw = Some s -> exists r, raw = Some r /\ s = trim r /\ s <> [].
Proof.
  unfold given. destruct raw as [r|]; cbn; [|done]. destruct (trim r) eqn:E; cbn; intros [= <-]. by exists r.
Qed.

Lemma after_scheme_spec url rest : after_scheme url = Some rest -> url = lit "https://" ++ rest \/ url = lit "http://" ++ rest.
Proof.
  unfold after_scheme. destruct (strip_prefix (lit "https://") url) eqn:E.
  - intros [= ->]. left. by apply strip_prefix_Some.
  - intros H. right. by apply strip_prefix_Some.
Qed.

Lemma until_spec p s : exists t, s = until p s ++ t /\ (forall c, c ∈ until p s -> p c = false) /\
  (t = [] \/ exists c t', t = c :: t' /\ p c = true).
Proof.
  induction s as [|c s (t & Ht & Hu & He)]; cbn; [exists []; split_and!; [done|by intros ? ?%not_elem_of_nil|by left]|].
  destruct (p c) eqn:Hc.
  - exists (c :: s). split_and!; [done|by intros ? ?%not_elem_of_nil|]. right. eauto.
  - exists t. split_and!; [cbn; by rewrite <- Ht| |done]. intros d [->|Hd]%elem_of_cons; auto.
Qed.

(** An endpoint that is let through is an address of http or https, of a host
    and a path: it names a host, it has nowhere for a user name, a query or a
    fragment, no quote and nothing unprintable, and is not overlong. *)
Lemma validated_mcp_url_ok raw url : validated_mcp_url raw = Ok (Some url) ->
  given raw = Some url /\ length url <= MCP_URL_MAX /\
  exists rest host path, (url = lit "https://" ++ rest \/ url = lit "http://" ++ rest) /\
    rest = host ++ path /\ host <> [] /\ "@"%char ∉ host /\ slash ∉ host /\ (path = [] \/ exists p, path = slash :: p) /\
    "?"%char ∉ rest /\ "#"%char ∉ rest /\
    forall c, c ∈ url -> is_ascii_graphic c = true /\ c <> squote /\ c <> dquote /\ c <> backquote.
Proof.
  unfold validated_mcp_url. destruct (given raw) as [u|] eqn:Hg; [|done].
  destruct (Nat.ltb_spec MCP_URL_MAX (length u)) as [|Hl]; [done|].
  destruct (after_scheme u) as [rest|] eqn:Hr; [|done].
  destruct (forallb _ u) eqn:Hc; [|done]. cbn [negb]. set (stop := fun c : ascii => _).
  destruct (until_spec stop rest) as (path & Hpath & Hhost & Hend).
  destruct (is_nil (until stop rest)) eqn:Hn; [done|]. destruct (contains_char _ _) eqn:Hat; [done|].
  destruct (existsb _ rest) eqn:Hq; [done|]. intros [= <-]. split; [done|]. split; [done|].
  assert (forall c, c ∈ rest -> c <> "?"%char /\ c <> "#"%char) as Hrest.
  { intros c Hin. assert (bool_decide (c ∈ ["?"%char; "#"%char]) = false) as Hd.
    { destruct (bool_decide _) eqn:E; [|done]. rewrite <- Hq. symmetry. apply existsb_exists. exists c.
      split; [by apply list_elem_of_In|done]. }
    rewrite bool_decide_eq_false, !not_elem_of_cons in Hd. naive_solver. }
  exists rest, (until stop rest), path. split_and!.
  - by apply after_scheme_spec.
  - done.
  - intros He. by rewrite He in Hn.
  - unfold contains_char in Hat. by apply bool_decide_eq_false in Hat.
  - intros Hin%Hhost. by vm_compute in Hin.
  - destruct Hend as [->|(c & t & -> & Hs)]; [by left|right]. exists t. f_equal.
    unfold stop in Hs. rewrite bool_decide_eq_true, !elem_of_cons in Hs.
    destruct (Hrest c) as [? ?]; [rewrite Hpath; apply elem_of_app; right; by left|].
    by destruct Hs as [?|[?|[?|?%not_elem_of_nil]]].
  - intros Hin. by destruct (Hrest _ Hin).
  - intros Hin. by destruct (Hrest _ Hin).
  - intros c Hin. rewrite forallb_forall in Hc. apply list_elem_of_In, Hc, andb_true_iff in Hin as [Hg' Hb].
    apply negb_true_iff in Hb. rewrite bool_decide_eq_false, !not_elem_of_cons in Hb. naive_solver.
Qed.

Lemma no_end_slash_sub c s : c ∈ no_end_slash s -> c ∈ s.
Proof.
  unfold no_end_slash. destruct (trim_end_matches_spec (fun c => bool_decide (c = slash)) s) as (w & Hw & _).
  intros Hc. rewrite Hw. apply elem_of_app. by left.
Qed.

(** A web address that is let through and written as it was checked is data
    to the shell: the script is the fixed text around it, the address stands
    between single quotes and has no quote and no line break in it. *)
Lemma tools_script_quoted url checked : validated_web_url (Some url) = Ok (Some checked) -> trim url = url ->
  tools_script (Some url) = okf_sh_head ++ checked ++ okf_sh_middle ++ [squote] ++ checked ++ [squote] ++ okf_sh_tail /\
  forall c, c ∈ checked -> is_ascii_graphic c = true /\ c ∉ SHELL_METACHARACTERS.
Proof.
  intros H Ht. unfold validated_web_url in H. destruct (given (Some url)) as [u|] eqn:Hg; [|done].
  apply given_spec in Hg as (r & [= <-] & -> & _). rewrite Ht in H.
  destruct (_ && forallb _ url) eqn:Hc; [|done]. injection H as <-. split; [done|].
  intros c Hin%no_end_slash_sub. apply andb_true_iff in Hc as [_ Hc]. rewrite forallb_forall in Hc.
  apply list_elem_of_In, Hc, andb_true_iff in Hin as [Hg Hb]. split; [done|]. by apply negb_true_iff, bool_decide_eq_false in Hb.
Qed.

(** The address is checked without the white space around it but written with
    it: a line break before it ends the comment of the script early. *)
Example tools_script_breaks_a_line :
  is_ok (validated_web_url (Some (nl :: lit "https://x"))) = true /\
  lines (tools_script (Some (nl :: lit "https://x"))) !! 4%nat = Some (lit "https://x).").
Proof. split; by_eval. Qed.

(** ** Link destinations *)

Lemma replace_with_char c t s d : d ∈ replace_with c t s <-> (d ∈ s /\ d <> c) \/ (d ∈ t /\ c ∈ s).
Proof.
  unfold replace_with. rewrite elem_of_concat_map. split.
  - intros (x & Hx & Hd). case_decide; [subst; by right|]. apply list_elem_of_singleton in Hd as ->. by left.
  - intros [[Hd Hne]|[Hd Hc]]; [exists d|exists c]; (split; [done|]); [rewrite decide_False by done; by left|by rewrite decide_True].
Qed.

(** A destination is either plain or between angle brackets with none
    inside, so the link ends where it should. *)
Lemma link_destination_ok path : nl ∉ path ->
  (link_destination path = path /\ forall c, c ∈ path -> link_char c = true) \/
  exists inner, link_destination path = lit "<" ++ inner ++ lit ">" /\ "<"%char ∉ inner /\ ">"%char ∉ inner /\ nl ∉ inner.
Proof.
  intros Hnl. unfold link_destination. destruct (forallb link_char path) eqn:Hc.
  - left. split; [done|]. intros c Hin%list_elem_of_In. rewrite forallb_forall in Hc. by apply Hc.
  - right. eexists. split; [done|].
    assert (forall x t, bool_decide (x ∈ lit t) = false -> x ∉ lit t) as Hlit by (intros x t; apply bool_decide_eq_false_1).
    split_and!; rewrite !replace_with_char; intros [[[[? ?]|[Hin ?]] ?]|[Hin ?]]; try done;
      revert Hin; apply Hlit; by_eval.
Qed.

(** ** The prompt *)

Section prompt.
Context `{Evidence}.

Lemma trim_length s : length (trim s) <= length s.
Proof. destruct (trim_infix s) as (a & b & Hs). rewrite Hs at 2. rewrite !length_app. lia. Qed.

Lemma prompt_fold records out used included out' used' included' :
  fold_left prompt_step records (out, used, included) = (out', used', included') ->
  length out <= used + included -> used <= Nat.max PROMPT_BUDGET used ->
  length out' <= used' + included' /\ used' <= Nat.max PROMPT_BUDGET used /\ included' <= included + length records.
Proof.
  revert out used included. induction records as [|r records IH]; intros out used included; cbn [fold_left].
  - intros [= <- <- <-] Hl Hb. cbn. split_and!; lia.
  - unfold prompt_step at 2. destruct (utf8_valid (cr_bytes r)).
    + destruct (Nat.ltb_spec PROMPT_BUDGET (used + length (prompt_header r)
        + length (if is_stale (cr_freshness r) then stale_banner r else []) + length (strip_frontmatter (cr_bytes r)))) as [Hlt|Hle].
      * intros Hf Hl Hb. destruct (IH _ _ _ Hf Hl Hb) as (? & ? & ?). cbn. split_and!; lia.
      * intros Hf Hl Hb. pose proof (trim_length (strip_frontmatter (cr_bytes r))) as Ht.
        destruct (IH _ _ _ Hf) as (? & ? & ?); [rewrite !length_app; cbn; lia|lia|]. cbn. split_and!; lia.
    + intros Hf Hl Hb. destruct (IH _ _ _ Hf Hl Hb) as (? & ? & ?). cbn. split_and!; lia.
Qed.

(** The documents of a prompt stay within the budget, but for a line break
    each; what comes on top is the introduction, if it alone is larger, and
    the closing note. *)
Lemma system_prompt_bounded title catalog_name records : exists text note,
  system_prompt title catalog_name records = text ++ note /\
  length text <= Nat.max PROMPT_BUDGET (length (prompt_intro title catalog_name)) + length records /\
  (note = [] \/ exists n, n < length records /\
     note = [nl] ++ lit "(" ++ show_Z (Z.of_nat n) ++ lit " of " ++ show_Z (Z.of_nat (length records))
            ++ lit " documents inlined; the rest are under knowledge/.)" ++ [nl]).
Proof.
  unfold system_prompt. set (intro := prompt_intro _ _). set (ordered := sort_by _ records).
  destruct (fold_left prompt_step ordered _) as [[out used] included] eqn:Hf.
  apply prompt_fold in Hf as (Hl & Hu & Hi); [|lia..].
  assert (length ordered = length records) as Hlen by (apply Permutation_length, sort_by_perm).
  do 2 eexists. split; [done|]. split; [lia|].
  destruct (Nat.ltb_spec included (length records)); [right; eauto|by left].
Qed.

End prompt.
