(* ===== verification/PluginBuild.v ===== *)
(** * Building a plugin ([pgokf-workspace/src/plugin.rs], [lib.rs])

    [assemble_with_report] lays the loaded records of a selection out as a
    tree of files; [build_scoped] resolves, loads, takes the snapshot of the
    catalog and assembles.  What a file says for people (the index, the guide,
    the reports, the manifests) and how JSON is written are [Texts]; where
    every file goes, what it holds byte for byte and what the lockfile records
    of it are here. *)
From stdpp Require Import prelude strings gmap list sorting.
From Stdlib Require Import Ascii ZArith Lia.
From S2P Require Import Prelude Str BTree Security Catalog TypedWalk Selection PluginTree PluginText.

(** ** What to build *)

Inductive Component : Type := Mcp | Guide | Tools.
#[export] Instance Component_eq_dec : EqDecision Component.
Proof. solve_decision. Defined.

Definition component_parse (id : str) : option Component :=
  let id := trim id in
  if decide (id = lit "mcp") then Some Mcp
  else if bool_decide (id ∈ [lit "guide"; lit "docs"; lit "documentation"]) then Some Guide
  else if bool_decide (id ∈ [lit "tools"; lit "scripts"]) then Some Tools else None.
Definition component_id (c : Component) : str :=
  match c with Mcp => lit "mcp" | Guide => lit "guide" | Tools => lit "tools" end.
Definition all_components : list Component := [Mcp; Guide; Tools].

Record BuildOptions : Type := {
  bo_target : Target;
  bo_name : str;
  bo_title : option str;
  bo_catalog_name : str;
  bo_base_model : option str;
  bo_components : list Component;
  bo_mcp_command : option str;
  bo_mcp_url : option str;
  bo_tenant : option str;
  bo_web_url : option str;
  bo_harness : option CustomHarness
}.

Definition remote_endpoint (o : BuildOptions) : option str := given (bo_mcp_url o).

Inductive PluginError : Type :=
| NothingMatched
| NoContent (bundle_id : Z) (concept_id : str)
| NeedsHarness
| UnknownTarget (target : Target)
| TreeRefused (e : TreeError)
| TextRefused (e : TextError)
| BothWaysToTheServer
| NoRemoteForm
| NoEndpoint
| NeedsHttps.

(** Rust code that returns a [Result] and may panic. *)
Abbreviation fallible A := (outcome (result A PluginError)).
Definition fbind {A B} (m : fallible A) (k : A -> fallible B) : fallible B :=
  obind m (fun r => match r with Ok a => k a | Err e => Ret (Err e) end).
Notation "'let!' x ':=' m 'in' k" := (fbind m (fun x => k))
  (at level 10, x pattern, m at level 100, k at level 200) : result_scope.
Definition lift_tree {A} (r : result A TreeError) : fallible A := Ret (rmap_err TreeRefused r).
Definition lift_text {A} (r : result A TextError) : fallible A := Ret (rmap_err TextRefused r).
Definition refuse {A} (e : PluginError) : fallible A := Ret (Err e).
Definition yield {A} (a : A) : fallible A := Ret (Ok a).
Definition index {A} (o : option A) : fallible A := match o with Some a => yield a | None => Panic end.
Fixpoint fmapm {A B} (f : A -> fallible B) (l : list A) : fallible (list B) :=
  match l with
  | [] => yield []
  | x :: l' => let! y := f x in let! ys := fmapm f l' in yield (y :: ys)
  end.

Definition profile (o : BuildOptions) : fallible Profile :=
  match bo_target o with
  | TCustom => match bo_harness o with
               | Some h => obind (harness_profile h) yield
               | None => refuse NeedsHarness
               end
  | t => match profile_of t with Some p => yield p | None => refuse (UnknownTarget t) end
  end.

Definition validate_records (records : list ConceptRecord) : fallible unit :=
  if is_nil records then refuse NothingMatched
  else match List.find (fun r => is_nil (cr_bytes r) && bool_decide (cr_resource r = None)) records with
       | Some r => refuse (NoContent (cr_bundle_id r) (cr_concept_id r))
       | None => yield tt
       end.

Definition validate_options (o : BuildOptions) (p : Profile) : fallible unit :=
  let! _ := lift_text (validated_web_url (bo_web_url o)) in
  let! _ := lift_text (validated_mcp_url (bo_mcp_url o)) in
  match remote_endpoint o with
  | None => yield tt
  | Some _ =>
      match given (bo_mcp_command o), pr_mcp p with
      | Some _, _ => refuse BothWaysToTheServer
      | None, Some spec => match ms_remote spec with Some _ => yield tt | None => refuse NoRemoteForm end
      | None, None => yield tt
      end
  end.

(** ** Files *)

Record PluginFile : Type := { pf_path : str; pf_bytes : str; pf_sha256 : str; pf_executable : bool }.

(** The lockfile's entry for one written file. *)
Record LockEntry : Type := {
  le_bundle_id : Z;
  le_concept_id : str;
  le_path : str;
  le_file : str;
  le_file_hash : str;
  le_content_sha256 : str;
  le_exact : bool;
  le_package_concept_id : option str;
  le_package : option (str * str);
  le_freshness : option Freshness;
  le_origin : option Origin
}.

Record BundleState : Type := {
  bs_id : Z;
  bs_name : str;
  bs_sync_hash : option str;
  bs_last_synced_at : option Z;
  bs_catalog_generation : option Z;
  bs_freshness_state : option str;
  bs_freshness_reasons : list str;
  bs_embedding_contract : option str
}.
Record Snapshot : Type := { sn_version : str; sn_sql_version : str; sn_bundles : list BundleState }.

(** The policy blocks of a lockfile, when the freshness surface had a say. *)
Record LockPolicy : Type := {
  lp_stale : StalePolicy;
  lp_freshness_available : bool;
  lp_closure : option ClosureReport;
  lp_excluded : list StaleConcept
}.

(** What a lockfile holds before it is JSON; a file as path, digest, length
    and executable bit. *)
Record Lock : Type := {
  lk_name : str;
  lk_target : str;
  lk_root : str;
  lk_snapshot : Snapshot;
  lk_files : list (str * str * nat * bool);
  lk_entries : list LockEntry;
  lk_harness : option CustomHarness;
  lk_policy : option LockPolicy
}.

Record IndexInputs : Type := {
  ix_profile : Profile;
  ix_name : str;
  ix_title : str;
  ix_listed : list (str * ConceptRecord);
  ix_packages : list (str * ConceptRecord);
  ix_package_prefix : str;
  ix_freshness_link : option str;
  ix_stale_count : nat
}.

(** The prose and the JSON of a plugin, and SHA-256. *)
Class Texts : Type := {
  tx_evidence :: Evidence;
  tx_sha256_hex : str -> str;
  tx_index : BuildOptions -> Selection -> list ConceptRecord -> IndexInputs -> str;
  tx_freshness_md : list ConceptRecord -> list StaleConcept -> Selection -> str;
  tx_guide : Profile -> BuildOptions -> str;
  tx_mcp_remote : McpSpec -> str -> option str -> str;
  tx_mcp_local : McpSpec -> str -> option str -> str;
  tx_manifest : str -> BuildOptions -> Selection -> option str -> bool -> str;
  tx_plugin_json : str -> BuildOptions -> Selection -> list ConceptRecord -> Snapshot -> list PluginFile -> str;
  tx_lock : Lock -> str
}.

Section build.
Context `{Texts, Unicode}.

Definition file (path bytes : str) : PluginFile :=
  {| pf_path := path; pf_bytes := bytes; pf_sha256 := tx_sha256_hex bytes; pf_executable := false |}.
Definition with_executable (b : bool) (f : PluginFile) : PluginFile :=
  {| pf_path := pf_path f; pf_bytes := pf_bytes f; pf_sha256 := pf_sha256 f; pf_executable := b |}.

Definition lock_entry (r : ConceptRecord) (f : PluginFile) (member : option ResourceFile)
    (member_freshness : option Freshness) (package : option (str * str)) (engaged : bool) : LockEntry :=
  let o := cr_origin r in
  {| le_bundle_id := cr_bundle_id r;
     le_concept_id := match member with Some m => rf_concept_id m | None => cr_concept_id r end;
     le_path := match member with Some m => rf_concept_id m | None => cr_path r end;
     le_file := pf_path f;
     le_file_hash := match member with Some m => rf_file_hash m | None => cr_file_hash r end;
     le_content_sha256 := pf_sha256 f;
     le_exact := cr_exact r;
     le_package_concept_id := match member with
                              | Some _ => Some (cr_concept_id r)
                              | None => rs_package_concept_id <$> cr_resource r
                              end;
     le_package := package;
     le_freshness := if engaged then Some (default (cr_freshness r) member_freshness) else None;
     le_origin := if engaged && (o_pick o || o_seed o || o_closure o) then Some o else None |}.

(** What one record adds to the tree. *)
Record Materialized : Type := {
  mt_listed : list (str * ConceptRecord);
  mt_packages : list (str * ConceptRecord);
  mt_files : list PluginFile;
  mt_entries : list LockEntry
}.

Definition join_path (dir path : str) : str := dir ++ [slash] ++ path.

(** One member of a package: its warning, if it is stale, and itself. *)
Definition member_files (r : ConceptRecord) (p : PackageRecord) (base dir : str) (engaged : bool) (m : ResourceFile)
  : fallible (list PluginFile * LockEntry) :=
  let fresh := member_fresh p (rf_concept_id m) in
  let! path := lift_tree (tree_path (rf_path m)) in
  let f := with_executable (bool_decide (rf_class m = lit "script")) (file (join_path base path) (rf_bytes m)) in
  let warning := adjacent_warning_path (pf_path f) in
  yield ((if bool_decide (is_stale <$> fresh = Some true)
          then [file warning (stale_member_warning_doc r m warning)] else []) ++ [f],
         lock_entry r f (Some m) fresh (Some (pk_hash p, dir)) engaged).

Definition package_files (l : Layout) (package_dirs : list (Z * list ascii * str)) (engaged : bool) (r : ConceptRecord)
    (p : PackageRecord) : fallible Materialized :=
  let! dir := index (bt_get (key r) package_dirs) in
  let base := join_path (la_packages_dir l) dir in
  let manifest := file (under base "SKILL.md") (cr_bytes r) in
  let! members := fmapm (member_files r p base dir engaged) (pk_resources p) in
  let warning := adjacent_warning_path (under base "SKILL.md") in
  yield {| mt_listed := [];
           mt_packages := [(dir, r)];
           mt_files := [manifest] ++ concat (map fst members)
                       ++ (if is_stale (cr_freshness r) then [file warning (stale_warning_doc r warning)] else []);
           mt_entries := lock_entry r manifest None None (Some (pk_hash p, dir)) engaged :: map snd members |}.

Definition is_script (r : ConceptRecord) : bool :=
  match cr_resource r with Some res => bool_decide (rs_class res = lit "script") | None => false end.

Definition document_files (l : Layout) (bundle_dirs : list (Z * str)) (multi_bundle engaged : bool) (r : ConceptRecord)
  : fallible Materialized :=
  let! path := lift_tree (tree_path (cr_path r)) in
  let! relative := (if multi_bundle
                    then let! dir := index (bt_get (cr_bundle_id r) bundle_dirs) in yield (join_path dir path)
                    else yield path) in
  let dir := if is_script r then la_scripts_dir l else la_content_dir l in
  let file_path := join_path dir relative in
  let stale := is_stale (cr_freshness r) in
  let bytes := if stale && negb (cr_exact r) then with_stale_banner (cr_bytes r) (stale_banner r) else cr_bytes r in
  let f := with_executable (is_script r) (file file_path bytes) in
  let warning := adjacent_warning_path file_path in
  yield {| mt_listed := [(relative_prefix (index_dir l) dir ++ relative, r)];
           mt_packages := [];
           mt_files := f :: (if stale && cr_exact r then [file warning (stale_warning_doc r warning)] else []);
           mt_entries := [lock_entry r f None None None engaged] |}.

Definition record_files (l : Layout) (bundle_dirs : list (Z * str)) (package_dirs : list (Z * list ascii * str))
    (multi_bundle engaged : bool) (r : ConceptRecord) : fallible Materialized :=
  match cr_package r with
  | Some p => package_files l package_dirs engaged r p
  | None => document_files l bundle_dirs multi_bundle engaged r
  end.

(** A harness that discovers skills by directory loads no renamed package. *)
Definition check_directory (package_dirs : list (Z * list ascii * str)) (r : ConceptRecord) : fallible unit :=
  match cr_package r with
  | None => yield tt
  | Some p =>
      let! dir := index (bt_get (key r) package_dirs) in
      if decide (dir = slug (pk_name p)) then yield tt
      else refuse (TreeRefused (PackageCollides (pk_name p) dir (cr_bundle_id r)))
  end.

Definition content_files (l : Layout) (plugin_name : str) (records : list ConceptRecord)
    (multi_bundle discovers_by_directory engaged : bool) : fallible Materialized :=
  let bundle_dirs := bundle_directories records in
  let package_dirs := package_directories records plugin_name in
  let! _ := (if discovers_by_directory then fmapm (check_directory package_dirs) records else yield []) in
  let! parts := fmapm (record_files l bundle_dirs package_dirs multi_bundle engaged) records in
  yield {| mt_listed := concat (map mt_listed parts);
           mt_packages := concat (map mt_packages parts);
           mt_files := concat (map mt_files parts);
           mt_entries := concat (map mt_entries parts) |}.

(** ** The optional parts *)

Definition TOKEN_ENV : str := lit "OKF_MCP_TOKEN".
Definition TOKEN_PLACEHOLDER : str := lit "TOKEN".

(** The header of a remote entry: a reference to the variable, or a word that
    is no token. *)
Definition authorization (t : TokenRef) : option str :=
  match t with
  | TokenDollar => Some (lit "Bearer ${" ++ TOKEN_ENV ++ lit "}")
  | TokenDollarEnv => Some (lit "Bearer ${env:" ++ TOKEN_ENV ++ lit "}")
  | Merge => Some (lit "Bearer " ++ TOKEN_PLACEHOLDER)
  | NamedEnvVar | Forbidden => None
  end.

Definition remote_mcp_config (spec : McpSpec) (o : BuildOptions) : fallible str :=
  let! url := lift_text (validated_mcp_url (bo_mcp_url o)) in
  match url, ms_remote spec with
  | None, _ => refuse NoEndpoint
  | Some _, None => refuse NoRemoteForm
  | Some url, Some remote =>
      match ms_format spec with
      | AgentPluginJson =>
          if starts_with (lit "http://") url && negb (is_loopback_endpoint url) then refuse NeedsHttps
          else yield (tx_mcp_remote spec url (authorization (rs_token_ref remote)))
      | _ => yield (tx_mcp_remote spec url (authorization (rs_token_ref remote)))
      end
  end.

Definition local_mcp_config (spec : McpSpec) (o : BuildOptions) : fallible str :=
  let! command := lift_text (validated_command (bo_mcp_command o)) in
  let tenant := t ← bo_tenant o; if is_nil (trim t) then None else Some t in
  match ms_format spec with
  | AgentPluginJson =>
      let! command := lift_text (validated_plugin_command command) in yield (tx_mcp_local spec command tenant)
  | _ => yield (tx_mcp_local spec command tenant)
  end.

Definition mcp_config (spec : McpSpec) (o : BuildOptions) : fallible str :=
  match remote_endpoint o with Some _ => remote_mcp_config spec o | None => local_mcp_config spec o end.

(** [sort_unstable] and [dedup] of the components, in declaration order. *)
Definition chosen (o : BuildOptions) : list Component :=
  List.filter (fun c => bool_decide (c ∈ bo_components o)) all_components.

Definition docs_dir (p : Profile) (l : Layout) : str :=
  match pr_shape p with
  | Skills | AgentPlugin => la_content_dir l
  | InstructionFile => lit "knowledge"
  | PromptBundle | Generic => under (la_root l) "knowledge"
  end.
Definition tools_dir (p : Profile) (l : Layout) : str :=
  match pr_shape p with
  | Skills => under (la_root l) "scripts"
  | AgentPlugin => la_scripts_dir l
  | InstructionFile => lit "tools"
  | PromptBundle | Generic => under (la_root l) "tools"
  end.

Definition extra (p : Profile) (l : Layout) (o : BuildOptions) (c : Component) : fallible (list PluginFile) :=
  match c with
  | Mcp =>
      match pr_mcp p with
      | None => yield []
      | Some spec =>
          let name := (location spec (bool_decide (is_Some (remote_endpoint o)))).1 in
          let path := match pr_shape p with AgentPlugin => join_path (la_root l) name | _ => name end in
          let! text := mcp_config spec o in yield [file path text]
      end
  | Guide => yield [file (under (docs_dir p l) "USING-THE-CATALOG.md") (tx_guide p o)]
  | Tools => yield [with_executable true (file (under (tools_dir p l) "okf.sh") (tools_script (bo_web_url o)))]
  end.

Definition extras (p : Profile) (l : Layout) (o : BuildOptions) : fallible (list PluginFile) :=
  let! files := fmapm (extra p l o) (chosen o) in yield (concat files).

(** ** [assemble_with_report] *)

Definition MANIFEST_FILE : str := lit "okf-workspace.yaml".
Definition LOCK_FILE : str := lit "okf-workspace.lock".
Definition FRESHNESS_FILE : str := lit "FRESHNESS.md".

Record Plugin : Type := {
  pl_target : str;
  pl_plugin_name : str;
  pl_root : str;
  pl_files : list PluginFile;
  pl_concept_count : nat;
  pl_package_count : nat;
  pl_concepts : list ConceptRecord;
  pl_warnings : list StaleConcept;
  pl_excluded : list StaleConcept;
  pl_freshness_available : bool
}.

Definition file_facts (f : PluginFile) : str * str * nat * bool :=
  (pf_path f, pf_sha256 f, length (pf_bytes f), pf_executable f).

Definition lockfile (name : str) (o : BuildOptions) (root : str) (s : Selection) (snapshot : Snapshot)
    (entries : list LockEntry) (files : list PluginFile) (report : BuildReport) (engaged : bool) : Lock :=
  {| lk_name := name; lk_target := target_id (bo_target o); lk_root := root; lk_snapshot := snapshot;
     lk_files := map file_facts files; lk_entries := entries;
     lk_harness := match bo_target o with TCustom => bo_harness o | _ => None end;
     lk_policy := if engaged
                  then Some {| lp_stale := sel_stale_policy s; lp_freshness_available := rp_freshness_available report;
                               lp_closure := rp_closure report; lp_excluded := rp_excluded report |}
                  else None |}.

(** [filter(|t| !t.trim().is_empty())], or the name. *)
Definition title_of (o : BuildOptions) (name : str) : str :=
  match bo_title o with Some t => if is_nil (trim t) then name else t | None => name end.

Definition stale_member_warnings (require_closure : bool) (r : ConceptRecord) : list StaleConcept :=
  map (fun m => stale_member r m require_closure) (stale_members r).

Definition prompt_files (p : Profile) (l : Layout) (o : BuildOptions) (base_model title : str) (records : list ConceptRecord)
  : list PluginFile :=
  match pr_shape p with
  | PromptBundle =>
      let prompt := system_prompt title (bo_catalog_name o) records in
      [file (under (la_root l) "Modelfile") (modelfile base_model prompt); file (under (la_root l) "system-prompt.md") prompt]
  | _ => []
  end.

(** The manifest of an Agent Plugin goes second. *)
Definition with_plugin_json (p : Profile) (l : Layout) (name : str) (o : BuildOptions) (s : Selection)
    (records : list ConceptRecord) (snapshot : Snapshot) (files : list PluginFile) : list PluginFile :=
  match pr_shape p with
  | AgentPlugin =>
      take 1 files ++ [file (under (la_root l) "plugin.json") (tx_plugin_json name o s records snapshot files)] ++ drop 1 files
  | _ => files
  end.

Definition assemble_with_report (o : BuildOptions) (s : Selection) (snapshot : Snapshot) (records : list ConceptRecord)
    (report : BuildReport) : fallible Plugin :=
  let! _ := validate_records records in
  let! p := profile o in
  let! name := lift_tree (package_name (bo_name o)) in
  let! base_model := lift_text (validated_base_model (bo_base_model o)) in
  let! _ := validate_options o p in
  let title := title_of o name in
  let l := layout p name in
  let multi_bundle := (1 <? length (remove_dups (map cr_bundle_id records)))%nat in
  let discovers := match pr_shape p with AgentPlugin | Skills => true | _ => false end in
  let is_engaged := engaged s records in
  let! content := content_files l name records multi_bundle discovers is_engaged in
  let stale := List.filter (fun r => is_stale (cr_freshness r)) records in
  let member_stale := length (concat (map stale_members records)) in
  let freshness_doc := if is_nil stale && (member_stale =? 0)%nat && is_nil (rp_excluded report) then None
                       else Some (tx_freshness_md records (rp_excluded report) s) in
  let text := tx_index o s records
    {| ix_profile := p; ix_name := name; ix_title := title; ix_listed := mt_listed content;
       ix_packages := mt_packages content; ix_package_prefix := relative_prefix (index_dir l) (la_packages_dir l);
       ix_freshness_link := (fun _ => relative_prefix (index_dir l) (la_meta_dir l) ++ FRESHNESS_FILE) <$> freshness_doc;
       ix_stale_count := length stale + member_stale + length (rp_excluded report) |} in
  let! more := extras p l o in
  let wrote_an_entry := bool_decide (is_Some (pr_mcp p)) && bool_decide (Mcp ∈ bo_components o) in
  let manifest := tx_manifest name o s (if wrote_an_entry then remote_endpoint o else None) is_engaged in
  let files := [file (la_index_path l) text] ++ prompt_files p l o base_model title records ++ mt_files content
               ++ match freshness_doc with Some doc => [file (meta_path l FRESHNESS_FILE) doc] | None => [] end
               ++ more ++ [file (meta_path l MANIFEST_FILE) manifest] in
  let files := with_plugin_json p l name o s records snapshot files in
  let lock := lockfile name o (la_root l) s snapshot (mt_entries content) files report is_engaged in
  let files := files ++ [file (meta_path l LOCK_FILE) (tx_lock lock)] in
  let! _ := lift_tree (ensure_unique_paths (map pf_path files)) in
  yield {| pl_target := target_id (bo_target o); pl_plugin_name := name; pl_root := la_root l; pl_files := files;
           pl_concept_count := length records; pl_package_count := length (mt_packages content); pl_concepts := records;
           pl_warnings := map (fun r => stale_of r (sel_require_closure s)) stale
                          ++ concat (map (stale_member_warnings (sel_require_closure s)) records);
           pl_excluded := rp_excluded report; pl_freshness_available := rp_freshness_available report |}.

End build.
