(* ===== verification/PluginBuildProps.v ===== *)
(** * What [assemble_with_report] builds

    The tree of a plugin is whole: every record is at its place with its own
    bytes, a stale one says so, no two files share a place, every path is safe
    to write, the links of the index lead to the files, and the lockfile
    accounts for all of it. *)
From stdpp Require Import prelude strings gmap list sorting.
From Stdlib Require Import Ascii ZArith Lia.
From S2P Require Import Prelude Str BTree Net Security Catalog TypedWalk Selection PluginTree PluginTreeProps PluginText PluginBuild.

(** ** Code that may fail and must not panic *)

Definition safely {A} (m : fallible A) (Q : A -> Prop) : Prop :=
  match m with Panic => False | Ret (Err _) => True | Ret (Ok a) => Q a end.

Lemma safely_bind {A B} (m : fallible A) (k : A -> fallible B) P Q :
  safely m P -> (forall a, P a -> safely (k a) Q) -> safely (fbind m k) Q.
Proof. destruct m as [|[a|e]]; [done| |done]. intros Hp Hk. exact (Hk a Hp). Qed.

Lemma safely_weaken {A} (m : fallible A) (P Q : A -> Prop) : safely m P -> (forall a, P a -> Q a) -> safely m Q.
Proof. destruct m as [|[a|e]]; cbn; eauto. Qed.

Lemma safely_tree {A} (m : result A TreeError) (Q : A -> Prop) : (forall a, m = Ok a -> Q a) -> safely (lift_tree m) Q.
Proof. destruct m; cbn; eauto. Qed.

Lemma safely_text {A} (m : result A TextError) (Q : A -> Prop) : (forall a, m = Ok a -> Q a) -> safely (lift_text m) Q.
Proof. destruct m; cbn; eauto. Qed.

Lemma safely_index {A} (m : option A) (Q : A -> Prop) : is_Some m -> (forall a, m = Some a -> Q a) -> safely (index m) Q.
Proof. intros [a ->]. cbn. eauto. Qed.

Lemma safely_mapm {A B} (f : A -> fallible B) l (Q : A -> B -> Prop) :
  (forall x, x ∈ l -> safely (f x) (Q x)) -> safely (fmapm f l) (Forall2 Q l).
Proof.
  induction l as [|x l IH]; intros H; [constructor|]. cbn [fmapm]. apply (safely_bind _ _ (Q x)); [apply H; by left|].
  intros y Hy. apply (safely_bind _ _ (Forall2 Q l)); [apply IH; intros z Hz; apply H; by right|]. intros ys Hys. by constructor.
Qed.

Lemma safely_any {A} (m : fallible A) : safely m (fun _ => True) <-> m <> Panic.
Proof. by destruct m as [|[a|e]]. Qed.

Lemma safely_eq {A} (m : fallible A) P : safely m P -> safely m (fun a => m = yield a /\ P a).
Proof. destruct m as [|[a|e]]; cbn; auto. Qed.

Lemma map_sublist {A B} (f : A -> B) l k : l `sublist_of` k -> map f l `sublist_of` map f k.
Proof. induction 1; by constructor. Qed.

(** ** Marks and controls across an ordinary character *)

Lemma plain_char_ascii c : plain_char c = true -> (byte c < 127)%N.
Proof. intros Hc. by destruct (plain_char_facts c Hc) as (_ & Hlt & _). Qed.

Lemma ascii_low c a b : (byte c < 127)%N -> (128 <= a)%N -> in_range a b c = false /\ (byte c =? a)%N = false.
Proof.
  intros Hlt Ha. split; [|apply N.eqb_neq; lia].
  unfold in_range. apply andb_false_iff. left. apply N.leb_gt. lia.
Qed.

Lemma has_control_split s c t : (byte c < 127)%N -> has_control (s ++ c :: t) = has_control s || has_control (c :: t).
Proof.
  intros Hc. induction s as [|a s IH]; [done|]. destruct s as [|b s].
  - cbn [app]. destruct (ascii_low c 128 159 Hc) as [Hl _]; [lia|].
    change (has_control (a :: c :: t)) with
      (in_range 0 31 a || bool_decide (a = "127"%char) || (bool_decide (a = "194"%char) && in_range 128 159 c) || has_control (c :: t)).
    rewrite Hl, andb_false_r. cbn [has_control]. by rewrite !orb_false_r.
  - cbn [app] in IH |- *. cbn [has_control] in IH |- *. rewrite IH. by rewrite !orb_assoc.
Qed.

Lemma has_direction_mark_split s c t :
  (byte c < 127)%N -> has_direction_mark (s ++ c :: t) = has_direction_mark s || has_direction_mark (c :: t).
Proof.
  intros Hc. destruct (ascii_low c 128 200 Hc) as [_ H1]; [lia|]. destruct (ascii_low c 129 200 Hc) as [_ H2]; [lia|].
  destruct (ascii_low c 142 143 Hc) as [H3 _]; [lia|]. destruct (ascii_low c 170 174 Hc) as [H4 _]; [lia|].
  destruct (ascii_low c 166 169 Hc) as [H5 _]; [lia|].
  induction s as [|a s IH]; [done|]. destruct s as [|b [|d s]].
  - cbn [app]. destruct t as [|e t]; [done|].
    change (has_direction_mark (a :: c :: e :: t)) with
      ((byte a =? 226)%N && (((byte c =? 128)%N && (in_range 142 143 e || in_range 170 174 e)) || ((byte c =? 129)%N && in_range 166 169 e))
       || has_direction_mark (c :: e :: t)).
    by rewrite H1, H2, andb_false_r.
  - cbn [app] in IH |- *. change (has_direction_mark (a :: b :: c :: t)) with
      ((byte a =? 226)%N && (((byte b =? 128)%N && (in_range 142 143 c || in_range 170 174 c)) || ((byte b =? 129)%N && in_range 166 169 c))
       || has_direction_mark (b :: c :: t)).
    by rewrite H3, H4, H5, !andb_false_r, IH.
  - cbn [app] in IH |- *. set (rest := d :: s ++ c :: t) in *.
    change (has_direction_mark (a :: b :: rest)) with
      ((byte a =? 226)%N && (((byte b =? 128)%N && (in_range 142 143 d || in_range 170 174 d)) || ((byte b =? 129)%N && in_range 166 169 d))
       || has_direction_mark (b :: rest)).
    rewrite IH. change (has_direction_mark (a :: b :: d :: s)) with
      ((byte a =? 226)%N && (((byte b =? 128)%N && (in_range 142 143 d || in_range 170 174 d)) || ((byte b =? 129)%N && in_range 166 169 d))
       || has_direction_mark (b :: d :: s)).
    by rewrite orb_assoc.
Qed.

(** ** The path of a warning *)

Lemma trim_end_snoc p (s : str) c : p c = false -> trim_end_matches p (s ++ [c]) = s ++ [c].
Proof.
  intros Hc. unfold trim_end_matches. rewrite reverse_snoc. cbn [trim_start_matches]. rewrite Hc.
  by rewrite reverse_cons, reverse_involutive.
Qed.

(** What a name becomes with the suffix of a warning. *)
Lemma warned_writable name stem : writable name -> (name = stem \/ exists ext, name = stem ++ dot :: ext) -> 
  writable (stem ++ STALE_WARNING_SUFFIX).
Proof.
  intros (Hsafe & Hs & Hb & Hc) Hstem.
  assert (forall c, c ∈ stem -> c ∈ name) as Hsub.
  { intros c Hin. destruct Hstem as [->|(ext & ->)]; [done|]. apply elem_of_app. by left. }
  assert (forall c, c ∈ stem ++ STALE_WARNING_SUFFIX -> c ∈ name \/ c ∈ STALE_WARNING_SUFFIX) as Hall.
  { intros c [Hin|Hin]%elem_of_app; [left; by apply Hsub|by right]. }
  assert (slash ∉ STALE_WARNING_SUFFIX /\ backslash ∉ STALE_WARNING_SUFFIX /\ colon ∉ STALE_WARNING_SUFFIX) as (S1 & S2 & S3) by by_decide.
  unfold writable. split_and!; [|intros [?|?]%Hall; done..].
  unfold safe_segment in Hsafe |- *. rewrite !andb_true_iff, !negb_true_iff in Hsafe. destruct Hsafe as [[[[_ _] _] _] Hm].
  assert (has_control stem || has_direction_mark stem = false) as Hms.
  { destruct Hstem as [->|(ext & ->)]; [done|]. rewrite has_control_split, has_direction_mark_split in Hm by done.
    rewrite !orb_false_iff in Hm. destruct Hm as [[-> _] [-> _]]. done. }
  change STALE_WARNING_SUFFIX with (dot :: lit "stale-warning.md").
  assert (trim_end_matches space_or_dot (stem ++ dot :: lit "stale-warning.md") = stem ++ dot :: lit "stale-warning.md") as ->.
  { transitivity (trim_end_matches space_or_dot ((stem ++ lit ".stale-warning.m") ++ ["d"%char])); [by rewrite <- (assoc_L app)|].
    rewrite trim_end_snoc by by_eval. by rewrite <- (assoc_L app). }
  rewrite !andb_true_iff, !negb_true_iff, !bool_decide_eq_false. split_and!.
  - by destruct stem.
  - by destruct stem.
  - intros He. apply (f_equal length) in He. rewrite length_app in He. cbn in He. lia.
  - intros He. apply (f_equal length) in He. rewrite length_app in He. cbn in He. lia.
  - rewrite has_control_split, has_direction_mark_split by done. apply orb_false_iff in Hms as [-> ->]. by_eval.
Qed.

(** The file beside a file is as safe to write. *)
Lemma adjacent_plain path : plain_path path -> plain_path (adjacent_warning_path path).
Proof.
  intros Hp. unfold adjacent_warning_path.
  assert (forall name, writable name ->
    writable ((match rsplit_once dot name with Some (stem, _) => if is_nil stem then name else stem | None => name end)
              ++ STALE_WARNING_SUFFIX)) as Hname.
  { intros name Hn. apply (warned_writable name); [done|]. destruct (rsplit_once dot name) as [[stem ext]|] eqn:Hd; [|by left].
    apply rsplit_once_Some in Hd as [-> _]. destruct stem; [by left|right; eauto]. }
  destruct (rsplit_once slash path) as [[dir name]|] eqn:Hr.
  - apply rsplit_once_Some in Hr as [-> Hni]. unfold plain_path in Hp. rewrite split_on_concat, (split_on_plain slash name), Forall_app, Forall_singleton in Hp by done.
    destruct Hp as [Hd Hn]. destruct (is_nil dir) eqn:En.
    { destruct dir; [|done]. apply Forall_singleton in Hd as (Hd & _). by vm_compute in Hd. }
    apply plain_path_app; [done|]. by apply plain_path_one, Hname.
  - cbn [is_nil]. apply plain_path_one, Hname. apply rsplit_once_None in Hr. unfold plain_path in Hp.
    rewrite split_on_plain in Hp by done. by rewrite Forall_singleton in Hp.
Qed.

(** ** Directories of bundles *)

(** What a build is given: the records of a selection. *)
Record loaded (records : list ConceptRecord) : Prop := {
  ld_nodup : NoDup (map key records);
  ld_count : length records < MOST_ATTEMPTS;
  ld_ids r : r ∈ records -> (0 <= cr_bundle_id r <= i64_max)%Z
}.

Lemma bundle_names_ok records : (forall r, r ∈ records -> (0 <= cr_bundle_id r)%Z) ->
  let names := bundle_names records in
  bt_sorted names /\ (forall r, r ∈ records -> is_Some (bt_get (cr_bundle_id r) names)) /\
  forall id name, bt_get id names = Some name -> (0 <= id)%Z.
Proof.
  unfold bundle_names. induction records as [|r records IH] using rev_ind; intros Hids.
  { split_and!; [constructor|by intros ? ?%not_elem_of_nil|done]. }
  rewrite fold_left_app. cbn [fold_left]. destruct IH as (Hs & Hall & Hn); [intros q Hq; apply Hids, elem_of_app; by left|].
  set (names := fold_left _ records []) in *. destruct (bt_get (cr_bundle_id r) names) as [old|] eqn:Hold.
  - split_and!; [done| |done]. intros q [Hq| ->%list_elem_of_singleton]%elem_of_app; [by apply Hall|by rewrite Hold].
  - split_and!; [by apply bt_insert_sorted|..].
    + intros q Hq. rewrite bt_get_insert_decide by done. case_decide as He; [done|].
      apply elem_of_app in Hq as [Hq| ->%list_elem_of_singleton]; [by apply Hall|done].
    + intros id name. rewrite bt_get_insert_decide by done. case_decide as He; [|apply Hn].
      intros _. subst id. apply Hids, elem_of_app. right. by left.
Qed.

Lemma bundle_dir_writable name id : (0 <= id)%Z -> writable (slug name ++ lit "-" ++ show_Z id).
Proof.
  intros Hid. apply hyphenated_writable. pose proof (slug_valid name) as [Hv _]%andb_true_iff.
  apply hyphenated_app; [done|]. change (hyphenated true true (show_Z id) = true). by apply show_Z_hyphenated.
Qed.

(** Every bundle of the records has a directory with a writable name. *)
Lemma bundle_directories_ok records : (forall r, r ∈ records -> (0 <= cr_bundle_id r)%Z) ->
  let dirs := bundle_directories records in
  (forall r, r ∈ records -> is_Some (bt_get (cr_bundle_id r) dirs)) /\
  forall id d, bt_get id dirs = Some d -> writable d.
Proof.
  intros Hids. destruct (bundle_names_ok records Hids) as (Hs & Hall & Hn). unfold bundle_directories.
  set (names := bundle_names records) in *.
  assert (forall entries, entries `sublist_of` names ->
    let dirs := (fold_left bundle_step entries ([], [])).2 in
    bt_sorted dirs /\ (forall id name, (id, name) ∈ entries -> is_Some (bt_get id dirs)) /\
    forall id d, bt_get id dirs = Some d -> writable d) as H.
  { induction entries as [|[id name] entries IH] using rev_ind; intros Hsub.
    { split_and!; [constructor|by intros ? ? ?%not_elem_of_nil|done]. }
    rewrite fold_left_app. cbn [fold_left]. destruct IH as (Hsd & Hd & Hw).
    { etrans; [|exact Hsub]. by apply sublist_inserts_r. }
    assert (0 <= id)%Z as Hid.
    { apply (Hn id name), bt_get_elem; [done|]. refine (elem_of_sublist _ _ _ _ Hsub). apply elem_of_app. right. by left. }
    set (acc := fold_left bundle_step entries ([], [])) in *. unfold bundle_step. cbn [fst snd].
    split_and!; [by apply bt_insert_sorted|..].
    - intros id' name' Hin. rewrite bt_get_insert_decide by done. case_decide as He; [done|].
      apply elem_of_app in Hin as [Hin|[= -> ->]%list_elem_of_singleton]; [by apply (Hd id' name')|done].
    - intros id' d. rewrite bt_get_insert_decide by done. case_decide as He; [|apply Hw]. intros [= <-].
      case_bool_decide; [by apply bundle_dir_writable|apply valid_name_writable, slug_valid]. }
  destruct (H names (reflexivity _)) as (_ & Hd & Hw). split; [|exact Hw].
  intros r Hr. destruct (Hall r Hr) as [name Hname%bt_get_elem]; [|done]. by apply (Hd _ name).
Qed.

(** ** The profile *)

(** The directory of a harness the user described, when it names one, is a path
    that can be written. *)
Definition harness_rooted (o : BuildOptions) : Prop :=
  match bo_harness o with
  | Some h => match ch_skills_dir h with Some d => plain_path d | None => True end
  | None => True
  end.

(** A harness [CustomHarness::new] accepts is one, unless a segment of its
    directory is made of dots alone: [...] passes the checks of
    [validated_skills_dir], and no platform-neutral path has it. *)
Lemma harness_new_rooted label shape dir h o :
  harness_new label shape dir = Ok h -> bo_harness o = Some h ->
  (forall d, ch_skills_dir h = Some d -> Forall (fun s => forallb (fun c => bool_decide (c = dot)) s = false) (split_on slash d)) ->
  harness_rooted o.
Proof.
  unfold harness_new, harness_rooted. intros Hnew -> Hd. destruct (is_nil _); [done|]. destruct (_ || _); [done|].
  apply rbind_ok in Hnew as (dirs & Hdir & [= <-]). cbn [ch_skills_dir] in *.
  destruct dirs as [d|]; [|done]. specialize (Hd d eq_refl).
  assert (exists given, validated_skills_dir given = Ok d) as (given & Hv).
  { revert Hdir. destruct shape; try done. destruct (dir ≫= _) as [g|]; [|done]. intros Hdir. exists g.
    by destruct (validated_skills_dir g); [injection Hdir as ->|]. }
  unfold validated_skills_dir in Hv. destruct (_ && _) eqn:Hok; [|done]. injection Hv as Hv. rewrite Hv in Hok.
  apply andb_true_iff in Hok as [_ Hok]. rewrite forallb_forall in Hok. unfold plain_path. rewrite Forall_forall in Hd |- *.
  intros seg Hseg. apply plain_chars_writable; [|by apply Hd]. apply list_elem_of_In, Hok in Hseg.
  by apply andb_true_iff in Hseg as [_ ?].
Qed.

Definition ordinary_mcp (p : Profile) : bool :=
  match pr_mcp p with
  | Some spec => ordinary (location spec true).1 && ordinary (location spec false).1
  | None => true
  end.

Lemma registry_ordinary p : p ∈ PROFILES -> ordinary_mcp p = true.
Proof.
  intros Hp. assert (forallb ordinary_mcp PROFILES = true) as H by by_eval. rewrite forallb_forall in H.
  by apply H, list_elem_of_In.
Qed.

Lemma profile_of_registry t p : profile_of t = Some p -> p ∈ PROFILES.
Proof. intros [H _]%List.find_some. by apply list_elem_of_In. Qed.

Lemma base_ok s : exists p, base s = Ret p /\ p ∈ PROFILES /\ pr_shape p = s.
Proof.
  unfold base. destruct (profile_of (base_target s)) as [p|] eqn:Hp; [|by destruct s].
  exists p. split_and!; [done|by eapply profile_of_registry|]. destruct s; by injection Hp as <-.
Qed.

Lemma profile_safe o : harness_rooted o -> safely (profile o) (fun p => rooted p /\ ordinary_mcp p = true).
Proof.
  intros Hh. assert (forall t, safely (match profile_of t with Some p => yield p | None => refuse (UnknownTarget t) end)
                               (fun p => rooted p /\ ordinary_mcp p = true)) as Hreg.
  { intros t. destruct (profile_of t) as [p|] eqn:Hp; [|done]. apply profile_of_registry in Hp.
    split; [by apply registry_rooted|by apply registry_ordinary]. }
  unfold profile. destruct (bo_target o); try apply Hreg. unfold harness_rooted in Hh.
  destruct (bo_harness o) as [h|]; [|done]. unfold harness_profile. destruct (base_ok (ch_shape h)) as (b & -> & Hb & Hshape).
  cbn. split; [|by apply registry_ordinary in Hb]. apply registry_rooted in Hb. unfold rooted in *. rewrite Hshape in Hb.
  cbn [pr_shape pr_root]. destruct (ch_shape h), (ch_skills_dir h); done.
Qed.

Lemma meta_path_plain l name : la_meta_dir l = [] \/ plain_path (la_meta_dir l) -> plain_path name -> plain_path (meta_path l name).
Proof.
  intros Hm Hn. unfold meta_path. destruct (is_nil (la_meta_dir l)) eqn:He; [done|]. destruct Hm as [Hm|Hm]; [by rewrite Hm in He|].
  by apply plain_path_app.
Qed.

Section sound.
Context `{Texts, Unicode}.

(** ** What is in place *)

(** A file as it was asked for, with its own digest. *)
Definition has_file (files : list PluginFile) (path bytes : str) (executable : bool) : Prop :=
  exists f, f ∈ files /\ pf_path f = path /\ pf_bytes f = bytes /\ pf_executable f = executable /\
            pf_sha256 f = tx_sha256_hex bytes.

(** A document: its bytes, with the banner when it was reconstructed and is
    stale, and a warning beside it when it is exact and stale. *)
Definition document_in_place (l : Layout) (files : list PluginFile) (r : ConceptRecord) : Prop :=
  exists path place, tree_path (cr_path r) = Ok path /\ (place = path \/ exists dir, place = join_path dir path) /\
    let at_ := join_path (if is_script r then la_scripts_dir l else la_content_dir l) place in
    let stale := is_stale (cr_freshness r) in
    has_file files at_ (if stale && negb (cr_exact r) then with_stale_banner (cr_bytes r) (stale_banner r) else cr_bytes r)
             (is_script r) /\
    (stale && cr_exact r = true ->
     has_file files (adjacent_warning_path at_) (stale_warning_doc r (adjacent_warning_path at_)) false).

(** A package: its manifest and its members, byte for byte, in a directory
    that is an Agent Skills name; what is stale has a warning beside it. *)
Definition package_in_place (l : Layout) (files : list PluginFile) (r : ConceptRecord) (p : PackageRecord) : Prop :=
  exists dir, valid_name dir = true /\
    let base := join_path (la_packages_dir l) dir in
    let manifest := under base "SKILL.md" in
    has_file files manifest (cr_bytes r) false /\
    (is_stale (cr_freshness r) = true ->
     has_file files (adjacent_warning_path manifest) (stale_warning_doc r (adjacent_warning_path manifest)) false) /\
    forall m, m ∈ pk_resources p -> exists path, tree_path (rf_path m) = Ok path /\
      let at_ := join_path base path in
      has_file files at_ (rf_bytes m) (bool_decide (rf_class m = lit "script")) /\
      (is_stale <$> member_fresh p (rf_concept_id m) = Some true ->
       has_file files (adjacent_warning_path at_) (stale_member_warning_doc r m (adjacent_warning_path at_)) false).

Definition in_place (l : Layout) (files : list PluginFile) (r : ConceptRecord) : Prop :=
  match cr_package r with Some p => package_in_place l files r p | None => document_in_place l files r end.

(** The concepts a record brings: itself and the members of its package. *)
Definition identities (r : ConceptRecord) : list (Z * str) :=
  (cr_bundle_id r, cr_concept_id r)
  :: match cr_package r with Some p => map (fun m => (cr_bundle_id r, rf_concept_id m)) (pk_resources p) | None => [] end.

(** Each identity has one entry, at a file of its own, with its digest. *)
Definition accounted (ids : list (Z * str)) (files : list PluginFile) (entries : list LockEntry) : Prop :=
  map (fun e => (le_bundle_id e, le_concept_id e)) entries = ids /\
  map (fun e => (le_file e, le_content_sha256 e)) entries `sublist_of` map (fun f => (pf_path f, pf_sha256 f)) files.

(** A link of the index leads to the file of its record. *)
Definition leads (l : Layout) (files : list PluginFile) (link : str) (r : ConceptRecord) : Prop :=
  exists f, f ∈ files /\ follow (segments (index_dir l)) link = split_on slash (pf_path f) /\
    (is_stale (cr_freshness r) = false \/ cr_exact r = true -> pf_bytes f = cr_bytes r).

Definition packaged (r : ConceptRecord) : bool := match cr_package r with Some _ => true | None => false end.

Record sound_part (l : Layout) (r : ConceptRecord) (m : Materialized) : Prop := {
  sp_plain : Forall (fun f => plain_path (pf_path f)) (mt_files m);
  sp_place : in_place l (mt_files m) r;
  sp_accounted : accounted (identities r) (mt_files m) (mt_entries m);
  sp_listed : map snd (mt_listed m) = (if packaged r then [] else [r]);
  sp_leads link r' : (link, r') ∈ mt_listed m -> r' = r /\ leads l (mt_files m) link r
}.

Lemma has_file_mono files files' path bytes x :
  files ⊆ files' -> has_file files path bytes x -> has_file files' path bytes x.
Proof. intros Hs (f & Hf & ?). exists f. split; [by apply Hs|done]. Qed.

Lemma has_file_here files path bytes x :
  with_executable x (file path bytes) ∈ files -> has_file files path bytes x.
Proof. intros Hf. by eexists. Qed.

Lemma in_place_mono l files files' r : files ⊆ files' -> in_place l files r -> in_place l files' r.
Proof.
  intros Hs. unfold in_place. destruct (cr_package r) as [p|].
  - intros (dir & Hd & Hm & Hw & Hall). exists dir. cbn zeta in *. split; [done|]. split; [by eapply has_file_mono|].
    split; [intros Hst; eapply has_file_mono; eauto|]. intros m Hin. destruct (Hall m Hin) as (path & Hp & Hf & Hmw).
    exists path. split; [done|]. split; [by eapply has_file_mono|]. intros Hst. eapply has_file_mono; eauto.
  - intros (path & place & Hp & Hpl & Hf & Hw). exists path, place. cbn zeta in *. split; [done|]. split; [done|].
    split; [by eapply has_file_mono|]. intros Hst. eapply has_file_mono; eauto.
Qed.

Lemma leads_mono l files files' link r : files ⊆ files' -> leads l files link r -> leads l files' link r.
Proof. intros Hs (f & Hf & ?). exists f. split; [by apply Hs|done]. Qed.

(** The layout is safe to write below. *)
Record laid (l : Layout) : Prop := {
  li_index : plain_path (la_index_path l);
  li_content : plain_path (la_content_dir l);
  li_packages : plain_path (la_packages_dir l);
  li_scripts : plain_path (la_scripts_dir l);
  li_meta : la_meta_dir l = [] \/ plain_path (la_meta_dir l)
}.

Lemma join_plain dir path : plain_path dir -> plain_path path -> plain_path (join_path dir path).
Proof. apply plain_path_app. Qed.

Lemma document_sound l dirs multi engaged r :
  laid l -> cr_package r = None ->
  is_Some (bt_get (cr_bundle_id r) dirs) -> (forall id d, bt_get id dirs = Some d -> writable d) ->
  safely (document_files l dirs multi engaged r) (sound_part l r).
Proof.
  intros L Hnone Hdir Hw. unfold document_files.
  apply (safely_bind _ _ (fun path => tree_path (cr_path r) = Ok path)); [by apply safely_tree|]. intros path Hpath.
  assert (plain_path path) as Hplain by by apply tree_path_writable in Hpath.
  apply (safely_bind _ _ (fun place => plain_path place /\ (place = path \/ exists dir, place = join_path dir path))).
  { destruct multi; [|by split; [|left]]. apply (safely_bind _ _ (fun d => writable d)).
    - apply safely_index; [done|]. intros d. apply Hw.
    - intros d Hd. split; [by apply join_plain, Hplain; apply plain_path_one|right; by exists d]. }
  intros place [Hpp Hplace]. set (dir := if is_script r then la_scripts_dir l else la_content_dir l).
  assert (plain_path dir) as Hdp by (unfold dir; destruct (is_script r); apply L).
  assert (plain_path (join_path dir place)) as Hat by by apply join_plain.
  set (bytes := if is_stale (cr_freshness r) && negb (cr_exact r) then with_stale_banner (cr_bytes r) (stale_banner r) else cr_bytes r).
  cbn [safely yield]. split; cbn [mt_files mt_entries mt_listed].
  - constructor; [done|]. destruct (is_stale _ && cr_exact r); repeat constructor. by apply adjacent_plain.
  - unfold in_place. rewrite Hnone. exists path, place. cbn zeta. split; [done|]. split; [done|]. split.
    + apply has_file_here. by left.
    + intros ->. apply has_file_here. right. by left.
  - unfold accounted, identities. rewrite Hnone. split; [done|]. cbn. apply sublist_skip, sublist_nil_l.
  - unfold packaged. by rewrite Hnone.
  - intros link r' [= -> ->]%list_elem_of_singleton. split; [done|]. eexists. split; [by left|]. split.
    + cbn. rewrite relative_prefix_follows; [|apply plain_path_split, Hdp|].
      * destruct (plain_path_split dir Hdp) as [-> _]. unfold join_path. cbn [app]. by rewrite split_on_concat.
      * eapply Forall_impl; [exact Hpp|]. apply writable_plain.
    + intros Hfe. cbn. unfold bytes. destruct Hfe as [->| ->]; [done|]. by rewrite andb_false_r.
Qed.

(** A member of a package at [base], in the files it adds. *)
Definition member_in_place (base : str) (r : ConceptRecord) (p : PackageRecord) (files : list PluginFile) (m : ResourceFile) : Prop :=
  exists path, tree_path (rf_path m) = Ok path /\
    let at_ := join_path base path in
    has_file files at_ (rf_bytes m) (bool_decide (rf_class m = lit "script")) /\
    (is_stale <$> member_fresh p (rf_concept_id m) = Some true ->
     has_file files (adjacent_warning_path at_) (stale_member_warning_doc r m (adjacent_warning_path at_)) false).

Record sound_member (base : str) (r : ConceptRecord) (p : PackageRecord) (m : ResourceFile)
    (part : list PluginFile * LockEntry) : Prop := {
  sm_plain : Forall (fun f => plain_path (pf_path f)) part.1;
  sm_place : member_in_place base r p part.1 m;
  sm_accounted : accounted [(cr_bundle_id r, rf_concept_id m)] part.1 [part.2]
}.

Lemma member_sound r p base dir engaged m : plain_path base ->
  safely (member_files r p base dir engaged m) (sound_member base r p m).
Proof.
  intros Hb. unfold member_files.
  apply (safely_bind _ _ (fun path => tree_path (rf_path m) = Ok path)); [by apply safely_tree|]. intros path Hpath.
  assert (plain_path (join_path base path)) as Hat by (apply join_plain; [done|by apply tree_path_writable in Hpath]).
  assert (plain_path (adjacent_warning_path (join_path base path))) as Hwarn by by apply adjacent_plain.
  cbn [safely yield]. set (here := with_executable _ _). split; cbn [fst snd].
  - apply Forall_app. split; [|by repeat constructor]. case_bool_decide; by repeat constructor.
  - exists path. split; [done|]. cbn zeta. split; [apply has_file_here, elem_of_app; right; by left|].
    intros ->. rewrite bool_decide_eq_true_2 by done. apply has_file_here. by left.
  - split; [done|]. rewrite map_app. by apply sublist_inserts_l.
Qed.

Lemma accounted_app ids1 ids2 fs1 fs2 es1 es2 :
  accounted ids1 fs1 es1 -> accounted ids2 fs2 es2 -> accounted (ids1 ++ ids2) (fs1 ++ fs2) (es1 ++ es2).
Proof. intros [<- H1] [<- H2]. split; rewrite !map_app; [done|]. by apply sublist_app. Qed.

Lemma accounted_more ids fs fs' es : accounted ids fs es -> accounted ids (fs ++ fs') es.
Proof. intros [Hi Hs]. split; [done|]. rewrite map_app. by apply sublist_inserts_r. Qed.

Lemma accounted_before ids fs fs' es : accounted ids fs es -> accounted ids (fs' ++ fs) es.
Proof. intros [Hi Hs]. split; [done|]. rewrite map_app. by apply sublist_inserts_l. Qed.

Lemma members_sound base r p ms parts : Forall2 (sound_member base r p) ms parts ->
  Forall (fun f => plain_path (pf_path f)) (concat (map fst parts)) /\
  (forall m, m ∈ ms -> member_in_place base r p (concat (map fst parts)) m) /\
  accounted (map (fun m => (cr_bundle_id r, rf_concept_id m)) ms) (concat (map fst parts)) (map snd parts).
Proof.
  induction 1 as [|m part ms parts [Hp Hi Ha] _ (IHp & IHi & IHa)]; cbn [map concat].
  - split_and!; [constructor|by intros ? ?%not_elem_of_nil|by split].
  - split_and!; [by apply Forall_app| |by apply (accounted_app [_] _ _ _ [_])].
    assert (forall files files' m, files ⊆ files' -> member_in_place base r p files m -> member_in_place base r p files' m) as Hmono.
    { intros files files' n Hs (path & Hpath & Hf & Hw). exists path. split; [done|]. split; [by eapply has_file_mono|].
      intros Hst. eapply has_file_mono; eauto. }
    intros n [->|Hn]%elem_of_cons; [eapply Hmono; [|exact Hi]; set_solver|]. eapply Hmono; [|by apply IHi]. set_solver.
Qed.

Lemma package_sound l dirs engaged r p :
  laid l -> cr_package r = Some p ->
  is_Some (bt_get (key r) dirs) -> (forall k d, bt_get k dirs = Some d -> valid_name d = true) ->
  safely (package_files l dirs engaged r p) (sound_part l r).
Proof.
  intros L Hp Hdir Hv. unfold package_files.
  apply (safely_bind _ _ (fun dir => valid_name dir = true)); [apply safely_index; [done|]; intros d; apply Hv|]. intros dir Hd.
  set (base := join_path (la_packages_dir l) dir).
  assert (plain_path base) as Hb by (apply join_plain; [apply L|by apply plain_path_one, valid_name_writable]).
  assert (plain_path (under base "SKILL.md")) as Hm by (apply under_plain; [done|by_eval]).
  apply (safely_bind _ _ (Forall2 (sound_member base r p) (pk_resources p))); [apply safely_mapm; intros m _; by apply member_sound|].
  intros parts (Hpl & Hpi & Hpa)%members_sound. cbn [safely yield].
  set (files := [file (under base "SKILL.md") (cr_bytes r)] ++ concat (map fst parts) ++ _).
  assert (concat (map fst parts) ⊆ files) as Hsub by (unfold files; set_solver).
  split; cbn [mt_files mt_entries mt_listed].
  - unfold files. constructor; [done|]. apply Forall_app. split; [done|]. destruct (is_stale _); repeat constructor.
    by apply adjacent_plain.
  - unfold in_place. rewrite Hp. exists dir. split; [done|]. cbn zeta. split; [apply has_file_here; by left|]. split.
    + intros Hst. apply has_file_here. unfold files. rewrite Hst. apply elem_of_app. right. apply elem_of_app. right. by left.
    + intros m Hin. destruct (Hpi m Hin) as (path & Hpath & Hf & Hw). exists path. split; [done|].
      split; [by eapply has_file_mono|]. intros Hst. eapply has_file_mono; eauto.
  - unfold identities. rewrite Hp. apply (accounted_app [_] _ [_] _ [_]); [by split|]. by apply accounted_more.
  - unfold packaged. by rewrite Hp.
  - by intros link r' ?%not_elem_of_nil.
Qed.

(** ** The content *)

Record sound_content (l : Layout) (records : list ConceptRecord) (m : Materialized) : Prop := {
  sc_plain : Forall (fun f => plain_path (pf_path f)) (mt_files m);
  sc_place r : r ∈ records -> in_place l (mt_files m) r;
  sc_accounted : accounted (concat (map identities records)) (mt_files m) (mt_entries m);
  sc_listed : map snd (mt_listed m) = List.filter (fun r => negb (packaged r)) records;
  sc_leads link r : (link, r) ∈ mt_listed m -> leads l (mt_files m) link r
}.

Lemma parts_sound l records parts : Forall2 (sound_part l) records parts ->
  sound_content l records {| mt_listed := concat (map mt_listed parts); mt_packages := concat (map mt_packages parts);
                             mt_files := concat (map mt_files parts); mt_entries := concat (map mt_entries parts) |}.
Proof.
  induction 1 as [|r part records parts [Hp Hi Ha Hn Hl] _ [IHp IHi IHa IHn IHl]]; cbn [map concat mt_files mt_entries mt_listed] in *.
  - split; cbn; [constructor|by intros ? ?%not_elem_of_nil|by split|done|by intros ? ? ?%not_elem_of_nil].
  - split; cbn [map concat mt_files mt_entries mt_listed].
    + by apply Forall_app.
    + intros q [->|Hq]%elem_of_cons; [eapply in_place_mono; [|exact Hi]; set_solver|].
      eapply in_place_mono; [|by apply IHi]. set_solver.
    + by apply accounted_app.
    + rewrite map_app, Hn, IHn. cbn [List.filter]. by destruct (packaged r).
    + intros link q [Hq|Hq]%elem_of_app.
      * apply Hl in Hq as [-> Hq]. eapply leads_mono; [|exact Hq]. set_solver.
      * apply IHl in Hq. eapply leads_mono; [|exact Hq]. set_solver.
Qed.

Lemma content_sound l name records multi discovers engaged : laid l -> loaded records ->
  safely (content_files l name records multi discovers engaged) (sound_content l records).
Proof.
  intros L [Hnd Hcount Hids]. unfold content_files.
  destruct (bundle_directories_ok records) as [Hbd Hbw]; [intros r Hr; by apply Hids|].
  destruct (package_directories_ok name records Hnd) as (Hpd & _ & _ & Hpv). specialize (Hpv Hcount Hids).
  apply (safely_bind _ _ (fun _ => True)).
  { destruct discovers; [|done]. eapply safely_weaken; [apply (safely_mapm _ _ (fun _ _ => True))|done].
    intros r Hr. unfold check_directory. destruct (cr_package r) as [p|] eqn:Hp; [|done].
    apply (safely_bind _ _ (fun _ => True)); [apply safely_index; [|done]|].
    - destruct (Hpd r p Hr Hp) as [d ->]. done.
    - intros d _. by case_decide. }
  intros _ _. apply (safely_bind _ _ (Forall2 (sound_part l) records)).
  - apply safely_mapm. intros r Hr. unfold record_files. destruct (cr_package r) as [p|] eqn:Hp.
    + apply package_sound; [done..| |done]. destruct (Hpd r p Hr Hp) as [d ->]. done.
    + apply document_sound; auto.
  - intros parts Hparts. cbn [safely yield]. by apply parts_sound.
Qed.

(** ** The whole tree *)

Lemma mcp_config_safe spec o : safely (mcp_config spec o) (fun _ => True).
Proof.
  unfold mcp_config. destruct (remote_endpoint o).
  - unfold remote_mcp_config. eapply safely_bind; [by apply (safely_text _ (fun _ => True))|]. intros [url|] _; [|done].
    destruct (ms_remote spec); [|done]. destruct (ms_format spec); try done. by destruct (_ && _).
  - unfold local_mcp_config. eapply safely_bind; [by apply (safely_text _ (fun _ => True))|]. intros command _.
    destruct (ms_format spec); try done. eapply safely_bind; [by apply (safely_text _ (fun _ => True))|]. done.
Qed.

Lemma extras_plain p l o : laid l -> ordinary_mcp p = true -> pr_shape p = InstructionFile \/ plain_path (la_root l) ->
  safely (extras p l o) (Forall (fun f => plain_path (pf_path f))).
Proof.
  intros L Hm Hroot. unfold extras.
  apply (safely_bind _ _ (Forall2 (fun _ => Forall (fun f => plain_path (pf_path f))) (chosen o))).
  - apply safely_mapm. intros c _. destruct c; cbn [extra].
    + unfold ordinary_mcp in Hm. destruct (pr_mcp p) as [spec|]; [|constructor]. apply andb_true_iff in Hm as [Hm1 Hm2].
      eapply safely_bind; [apply mcp_config_safe|]. intros text _. repeat constructor. cbn [pf_path file].
      assert (forall b, plain_path (location spec b).1) as Hname by (intros []; by apply ordinary_plain).
      destruct (pr_shape p) eqn:Hs; try apply Hname. apply join_plain; [by destruct Hroot|apply Hname].
    + repeat constructor. apply under_plain; [|by_eval]. unfold docs_dir.
      destruct (pr_shape p) eqn:Hs; try apply L; [by apply ordinary_plain|..]; (apply under_plain; [by destruct Hroot|by_eval]).
    + repeat constructor. apply under_plain; [|by_eval]. unfold tools_dir.
      destruct (pr_shape p) eqn:Hs; try apply L; try (by apply ordinary_plain); (apply under_plain; [by destruct Hroot|by_eval]).
  - intros parts Hparts. cbn [safely yield]. clear Hm Hroot. induction Hparts; cbn; [constructor|]. by apply Forall_app.
Qed.

Lemma prompt_files_plain p l o base_model title records : pr_shape p = InstructionFile \/ plain_path (la_root l) ->
  Forall (fun f => plain_path (pf_path f)) (prompt_files p l o base_model title records).
Proof.
  intros Hroot. unfold prompt_files. destruct (pr_shape p) eqn:Hs; try constructor.
  all: destruct Hroot as [|Hroot]; [done|]. all: repeat constructor; by apply under_plain; [|by_eval].
Qed.

(** The manifest of an Agent Plugin goes between the index and the rest. *)
Lemma with_plugin_json_at p l name o s records snapshot f rest : pr_shape p = InstructionFile \/ plain_path (la_root l) ->
  exists extra, with_plugin_json p l name o s records snapshot (f :: rest) = f :: extra ++ rest /\
    Forall (fun f => plain_path (pf_path f)) extra.
Proof.
  intros Hroot. unfold with_plugin_json. destruct (pr_shape p) eqn:Hs; try by (exists []).
  eexists [_]. split; [done|]. destruct Hroot as [|Hroot]; [done|]. repeat constructor. by apply under_plain; [|by_eval].
Qed.

(** What a plugin that was assembled is. *)
Record sound (o : BuildOptions) (s : Selection) (records : list ConceptRecord) (pl : Plugin) (l : Layout)
    (ix : IndexInputs) (others : list PluginFile) (lock : Lock) : Prop := {
  so_files : pl_files pl = others ++ [file (meta_path l LOCK_FILE) (tx_lock lock)];
  so_index : head (pl_files pl) = Some (file (la_index_path l) (tx_index o s records ix));
  so_unique : ensure_unique_paths (map pf_path (pl_files pl)) = Ok tt;
  so_plain : Forall (fun f => plain_path (pf_path f)) (pl_files pl);
  so_place r : r ∈ records -> in_place l (pl_files pl) r;
  so_documents : map snd (ix_listed ix) = List.filter (fun r => negb (packaged r)) records;
  so_leads link r : (link, r) ∈ ix_listed ix -> leads l (pl_files pl) link r;
  so_listed : lk_files lock = map file_facts others;
  so_accounted : accounted (concat (map identities records)) others (lk_entries lock)
}.

Lemma assemble_sound o s snapshot records report : loaded records -> harness_rooted o ->
  safely (assemble_with_report o s snapshot records report) (fun pl => exists p name ix others lock,
    profile o = yield p /\ package_name (bo_name o) = Ok name /\
    (pl_concepts pl = records /\ records <> [] /\ pl_freshness_available pl = rp_freshness_available report) /\
    sound o s records pl (layout p name) ix others lock).
Proof.
  intros Hl Hh. unfold assemble_with_report.
  apply (safely_bind _ _ (fun _ => records <> [])).
  { unfold validate_records. destruct records; [done|]. cbn [is_nil]. by destruct (List.find _ _). }
  intros _ Hnonempty. eapply safely_bind; [apply safely_eq, profile_safe, Hh|]. intros p (Hprof & Hr & Hm).
  apply (safely_bind _ _ (fun name => package_name (bo_name o) = Ok name)); [by apply safely_tree|]. intros name Hname.
  eapply safely_bind; [by apply (safely_text _ (fun _ => True))|]. intros base_model _.
  apply (safely_bind _ _ (fun _ => True)).
  { unfold validate_options. eapply safely_bind; [by apply (safely_text _ (fun _ => True))|]. intros _ _.
    eapply safely_bind; [by apply (safely_text _ (fun _ => True))|]. intros _ _.
    destruct (remote_endpoint o); [|done]. destruct (given (bo_mcp_command o)); [done|]. destruct (pr_mcp p) as [spec|]; [|done].
    by destruct (ms_remote spec). }
  intros _ _. assert (valid_name name = true) as Hv.
  { unfold package_name in Hname. destruct (is_nil _); [injection Hname as <-; by_eval|].
    destruct (existsb _ _); [|done]. injection Hname as <-. apply slug_valid. }
  destruct (layout_plain p name Hr Hv) as (H1 & H2 & H3 & H4 & H5 & Hroot). set (l := layout p name) in *.
  assert (laid l) as L by by split. assert (forall n, ordinary (lit n) = true -> plain_path (meta_path l (lit n))) as Hmeta.
  { intros n Hn. apply meta_path_plain; [done|by apply ordinary_plain]. }
  eapply safely_bind; [by apply content_sound|]. intros content C.
  eapply safely_bind; [by apply extras_plain|]. intros more Hmore. cbv zeta.
  match goal with |- context [tx_index o s records ?i] => set (ix := i) end.
  match goal with |- context [if ?b then None else Some (tx_freshness_md ?r ?e ?s)] =>
    set (freshness_doc := if b then None else Some (tx_freshness_md r e s)) in * end.
  set (manifest := tx_manifest _ _ _ _ _).
  set (rest := prompt_files p l o base_model _ records ++ mt_files content ++ _).
  destruct (with_plugin_json_at p l name o s records snapshot (file (la_index_path l) (tx_index o s records ix)) rest Hroot)
    as (added & Hfiles & Hadded).
  change ([file (la_index_path l) (tx_index o s records ix)] ++ rest) with (file (la_index_path l) (tx_index o s records ix) :: rest).
  rewrite Hfiles.
  set (others := _ :: added ++ rest). set (lock := lockfile _ _ _ _ _ _ _ _ _). set (last := file (meta_path l LOCK_FILE) _).
  apply (safely_bind _ _ (fun _ => ensure_unique_paths (map pf_path (others ++ [last])) = Ok tt)); [by apply safely_tree; intros []|].
  intros _ Hu. cbn [safely yield]. exists p, name, ix, others, lock. split; [done|]. split; [done|]. split; [done|].
  assert (mt_files content ⊆ others ++ [last]) as Hsub by (unfold others, rest; set_solver).
  split; cbn [pl_files]; [done|done|done|..].
  - apply Forall_app. split; [|repeat constructor; by apply Hmeta; by_eval]. constructor; [done|]. apply Forall_app. split; [done|].
    unfold rest. rewrite !Forall_app. split_and!; [by apply prompt_files_plain|apply C| |done|repeat constructor; by apply Hmeta; by_eval].
    destruct freshness_doc; repeat constructor. by apply Hmeta; by_eval.
  - intros r Hin. eapply in_place_mono; [exact Hsub|]. by apply C.
  - apply C.
  - intros link r Hin. eapply leads_mono; [exact Hsub|]. by apply C.
  - done.
  - unfold others. apply (accounted_before _ _ [_]), accounted_before. unfold rest. apply accounted_before, accounted_more, C.
Qed.

(** C16: For a target of the registry, or a described harness whose directory
    has no segment of dots alone ([harness_new_rooted]; with one, [...] for
    instance, the paths below it are not safe), assembling loaded records never
    panics, and the plugin it returns is a tree every platform can write: each path consists of safe segments only, no two are
    the same up to case and composition, and none is a directory of another.
    Every record is at its place with its own bytes: a package whole in a
    directory named like an Agent Skill, a document under the content or the
    scripts directory; what is stale carries its banner or has its warning
    beside it.  The first file is the index; it lists exactly the documents,
    and each of its links leads to the file of its document. *)
Theorem assembled_tree o s snapshot records report : loaded records -> harness_rooted o ->
  match assemble_with_report o s snapshot records report with
  | Panic => False
  | Ret (Err _) => True
  | Ret (Ok pl) =>
      exists p name ix, profile o = yield p /\ package_name (bo_name o) = Ok name /\
        let l := layout p name in
        let paths := map pf_path (pl_files pl) in
        Forall plain_path paths /\ NoDup (map collision_key paths) /\
        (forall a b d, a ∈ paths -> b ∈ paths -> d ∈ directories_of b -> collision_key a <> collision_key d) /\
        (forall r, r ∈ records -> in_place l (pl_files pl) r) /\
        head (pl_files pl) = Some (file (la_index_path l) (tx_index o s records ix)) /\
        map snd (ix_listed ix) = List.filter (fun r => negb (packaged r)) records /\
        forall link r, (link, r) ∈ ix_listed ix -> leads l (pl_files pl) link r
  end.
Proof.
  intros Hl Hh. pose proof (assemble_sound o s snapshot records report Hl Hh) as H1. revert H1.
  destruct (assemble_with_report o s snapshot records report) as [|[pl|e]]; [done| |done].
  intros (p & name & ix & others & lock & Hp & Hn & _ & S). exists p, name, ix. split; [done|]. split; [done|]. cbn zeta.
  destruct (proj1 (ensure_unique_paths_exact _) (so_unique _ _ _ _ _ _ _ _ S)) as [Hu1 Hu2].
  split; [by apply Forall_map, S|]. split; [done|]. split; [done|]. split; [apply S|]. split; [apply S|]. split; apply S.
Qed.

(** C17: The lockfile is the last file of the tree and accounts for the rest:
    it lists the path, digest, length and mode of every other file, and it has
    one entry for each record and each member of a package, in order, each at
    a file of its own whose digest the entry records. *)
Theorem lockfile_accounts o s snapshot records report pl : loaded records -> harness_rooted o ->
  assemble_with_report o s snapshot records report = yield pl ->
  exists path lock others, pl_files pl = others ++ [file path (tx_lock lock)] /\
    lk_files lock = map file_facts others /\
    map (fun e => (le_bundle_id e, le_concept_id e)) (lk_entries lock) = concat (map identities records) /\
    NoDup (map le_file (lk_entries lock)) /\
    forall e, e ∈ lk_entries lock -> exists f, f ∈ others /\ pf_path f = le_file e /\ pf_sha256 f = le_content_sha256 e.
Proof.
  intros Hl Hh Ha. pose proof (assemble_sound o s snapshot records report Hl Hh) as H1. rewrite Ha in H1.
  destruct H1 as (p & name & ix & others & lock & _ & _ & _ & S). destruct (so_accounted _ _ _ _ _ _ _ _ S) as [Hids Hsub].
  exists (meta_path (layout p name) LOCK_FILE), lock, others. split; [apply S|]. split; [apply S|]. split; [done|]. split.
  - destruct (proj1 (ensure_unique_paths_exact _) (so_unique _ _ _ _ _ _ _ _ S)) as [Hu _]. rewrite (so_files _ _ _ _ _ _ _ _ S) in Hu.
    rewrite !map_app, NoDup_app in Hu. destruct Hu as [Hu _]. apply (NoDup_fmap_1 collision_key) in Hu.
    apply (sublist_NoDup _ (map pf_path others)); [done|]. apply (map_sublist fst) in Hsub. by rewrite !map_map in Hsub.
  - intros e He. assert ((le_file e, le_content_sha256 e) ∈ map (fun f => (pf_path f, pf_sha256 f)) others) as Hin.
    { eapply elem_of_sublist; [|exact Hsub]. by apply (list_elem_of_fmap_2 (fun e => (le_file e, le_content_sha256 e))). }
    apply list_elem_of_fmap in Hin as (f & [= -> ->] & Hf). by exists f.
Qed.

End sound.
