(* ===== verification/PluginExamples.v ===== *)
(** * A plugin to try

    A document, a reconstructed one that is stale, a script, and a package
    with a stale member, assembled for a harness that discovers skills by
    directory; and the theorems on plugins at this build. *)
From stdpp Require Import prelude strings gmap list sorting.
From Stdlib Require Import Ascii ZArith Lia.
From S2P Require Import Prelude Str BTree Security Catalog TypedWalk Selection PluginTree PluginTreeProps PluginText PluginTextProps PluginBuild PluginBuildProps.

(** Texts that show what they are made from. *)
#[export] Instance demo_texts : Texts := {|
  tx_evidence := {| evidence_json := fun bundle concept f => show_Z bundle ++ lit ":" ++ concept ++ f_state f |};
  tx_sha256_hex := fun bytes => lit "digest of " ++ bytes;
  tx_index := fun _ _ _ ix => join [nl] (map fst (ix_listed ix));
  tx_freshness_md := fun _ _ _ => lit "# Freshness";
  tx_guide := fun _ _ => lit "# Guide";
  tx_mcp_remote := fun spec url auth => ms_path spec ++ url ++ default [] auth;
  tx_mcp_local := fun spec command tenant => ms_path spec ++ command ++ default [] tenant;
  tx_manifest := fun name _ _ endpoint _ => name ++ default [] endpoint;
  tx_plugin_json := fun name _ _ _ _ files => name ++ show_Z (Z.of_nat (length files));
  tx_lock := fun lk => lk_name lk ++ show_Z (Z.of_nat (length (lk_files lk)))
|}.
#[export] Instance demo_unicode : Unicode := {| nfc := fun s => s; to_lowercase := map to_ascii_lowercase |}.

Definition stale_freshness : Freshness :=
  {| f_state := lit "stale"; f_reasons := [lit "source_changed"]; f_scope := lit "bundle"; f_stale_since := None;
     f_observed_revision := Some (lit "r2"); f_indexed_revision := Some (lit "r1"); f_published_revision := None;
     f_catalog_generation := Some 4%Z; f_last_reconciled_at := None |}.

Definition a_record (bundle : Z) (id path : string) (bytes : str) (exact : bool) (p : option PackageRecord)
    (res : option ResourceRecord) (f : Freshness) : ConceptRecord :=
  {| cr_bundle_id := bundle; cr_bundle_name := lit "My Docs"; cr_concept_id := lit id; cr_path := lit path; cr_title := None;
     cr_description := None; cr_type := None; cr_tags := []; cr_file_hash := lit "hash"; cr_trust_tier := []; cr_status := [];
     cr_exact := exact; cr_bytes := bytes; cr_package := p; cr_resource := res; cr_freshness := f;
     cr_origin := {| o_pick := true; o_seed := false; o_closure := false |} |}.

Definition a_member : ResourceFile :=
  {| rf_concept_id := lit "skills/x/scripts/run.sh"; rf_class := lit "script"; rf_path := lit "scripts/run.sh";
     rf_sha256 := lit "sha"; rf_file_hash := lit "hash"; rf_bytes := lit "#!/bin/sh" |}.

Definition demo_records : list ConceptRecord :=
  [ a_record 1 "a" "notes/a b.md" (lit "text") true None None unknown;
    a_record 2 "b" "b.md" (lit "---" ++ [nl] ++ lit "type: Note" ++ [nl] ++ lit "---" ++ [nl] ++ lit "text") false None None
      stale_freshness;
    a_record 2 "c" "tools/c.sh" (lit "exit 0") true None
      (Some {| rs_class := lit "script"; rs_source_path := lit "c.sh"; rs_package_concept_id := lit "x"; rs_sha256 := lit "s" |})
      stale_freshness;
    a_record 1 "x" "skills/x/SKILL.md" (lit "skill") true
      (Some {| pk_name := lit "X Tools"; pk_root := lit "skills/x"; pk_hash := lit "hash"; pk_resources := [a_member];
               pk_member_freshness := [(lit "skills/x/scripts/run.sh", stale_freshness)] |}) None unknown ].

Definition demo_options : BuildOptions :=
  {| bo_target := TClaudeCode; bo_name := lit " Team Docs "; bo_title := None; bo_catalog_name := lit "team";
     bo_base_model := None; bo_components := [Tools; Mcp; Guide; Mcp]; bo_mcp_command := None;
     bo_mcp_url := Some (lit "https://okf.example/mcp"); bo_tenant := None; bo_web_url := Some (lit "https://okf.example/");
     bo_harness := None |}.

Definition demo_snapshot : Snapshot := {| sn_version := lit "1"; sn_sql_version := lit "1"; sn_bundles := [] |}.
Definition demo_report : BuildReport :=
  {| rp_freshness_available := true; rp_closure := None; rp_excluded := []; rp_capabilities := parse_capabilities None |}.
Definition demo_build : fallible Plugin :=
  assemble_with_report demo_options (picks_only [] false) demo_snapshot demo_records demo_report.

Definition paths_of (m : fallible Plugin) : list str := match m with Ret (Ok pl) => map pf_path (pl_files pl) | _ => [] end.

Lemma demo_records_loaded : loaded demo_records.
Proof.
  split; [|unfold MOST_ATTEMPTS; cbn; lia|].
  - by_decide.
  - intros r Hr. assert (forallb (fun r => (0 <=? cr_bundle_id r)%Z && (cr_bundle_id r <=? i64_max)%Z) demo_records = true) as H by by_eval.
    rewrite forallb_forall in H. apply list_elem_of_In, H in Hr. lia.
Qed.

Lemma assembled_tree_witness : loaded demo_records /\ harness_rooted demo_options /\
  exists pl p name, demo_build = yield pl /\ length (pl_files pl) = 14 /\ profile demo_options = yield p /\ name = lit "team-docs" /\
    Forall plain_path (map pf_path (pl_files pl)) /\ NoDup (map collision_key (map pf_path (pl_files pl))) /\
    forall r, r ∈ demo_records -> in_place (layout p name) (pl_files pl) r.
Proof.
  split; [exact demo_records_loaded|]. split; [exact I|].
  assert (length (paths_of demo_build) = 14) as Hlen by by_eval.
  pose proof (assembled_tree demo_options (picks_only [] false) demo_snapshot demo_records demo_report demo_records_loaded I) as H.
  fold demo_build in H. revert H Hlen. generalize demo_build. intros [|[pl|e]]; [done| |done]. cbn [paths_of]. rewrite length_map.
  intros (p & name & ix & Hp & Hn & Hplain & Hnd & _ & Hin & _) Hlen. exists pl, p, name. split; [done|]. split; [done|].
  split; [done|]. split; [|by split_and!].
  assert (package_name (bo_name demo_options) = Ok (lit "team-docs")) as Hn' by by_eval. rewrite Hn' in Hn. by injection Hn.
Defined.

Definition entries_of_lock (m : fallible Plugin) : nat := match m with Ret (Ok pl) => length (pl_files pl) | _ => 0 end.

Lemma lockfile_accounts_witness : exists pl lock, demo_build = yield pl /\
  map (fun e => (le_bundle_id e, le_concept_id e)) (lk_entries lock)
  = [(1%Z, lit "a"); (2%Z, lit "b"); (2%Z, lit "c"); (1%Z, lit "x"); (1%Z, lit "skills/x/scripts/run.sh")] /\
  NoDup (map le_file (lk_entries lock)) /\ length (lk_files lock) = 13.
Proof.
  assert (exists pl, demo_build = yield pl /\ length (pl_files pl) = 14) as (pl & Hb & Hlen).
  { assert (entries_of_lock demo_build = 14) as H by by_eval. revert H. generalize demo_build.
    intros [|[pl|e]] H; [done| |done]. by exists pl. }
  destruct (lockfile_accounts demo_options (picks_only [] false) demo_snapshot demo_records demo_report pl demo_records_loaded I Hb)
    as (path & lock & others & Hfiles & Hlisted & Hids & Hnd & _).
  exists pl, lock. split; [done|]. split; [|split; [done|]].
  - rewrite Hids. by_eval.
  - rewrite Hlisted, length_map. rewrite Hfiles, length_app in Hlen. cbn in Hlen. lia.
Defined.

(** A directory of dots is accepted where a user says where an agent reads
    its skills, and is no name a file may have anywhere else in the tree. *)
Example skills_directory_of_dots :
  is_ok (harness_new (lit "Agent") Skills (Some (lit "..."))) = true /\ safe_segment (lit "...") = false.
Proof. split; by_eval. Qed.

(** Two stale members that differ in their extension want one warning file,
    and the tree is refused: no plugin can be built with this package. *)
Definition twin (file : string) : ResourceFile :=
  {| rf_concept_id := lit file; rf_class := lit "script"; rf_path := lit file; rf_sha256 := lit "sha"; rf_file_hash := lit "hash";
     rf_bytes := lit "text" |}.
Definition twin_package : ConceptRecord :=
  a_record 1 "x" "skills/x/SKILL.md" (lit "skill") true
    (Some {| pk_name := lit "X"; pk_root := lit "skills/x"; pk_hash := lit "hash"; pk_resources := [twin "run.py"; twin "run.sh"];
             pk_member_freshness := [(lit "run.py", stale_freshness); (lit "run.sh", stale_freshness)] |}) None unknown.

Example twin_warnings_collide :
  assemble_with_report demo_options (picks_only [] false) demo_snapshot [twin_package] demo_report
  = refuse (TreeRefused (OnePath (lit ".claude/skills/x/run.stale-warning.md"))).
Proof. by_eval. Qed.

(** The warning names the file it is about without its extension. *)
Example warning_loses_the_extension :
  contains (lit "(`c` and,") (warning_doc 1 (lit "c") None (lit "tools/c.sh") stale_freshness
                                (adjacent_warning_path (lit "scripts/tools/c.sh"))) = true.
Proof. by_eval. Qed.
