(* ===== verification/Archive.v ===== *)
(** * Writing a plugin below a directory ([pgokf-workspace/src/archive.rs])

    [write_to_dir] in its three passes: every path is validated, every file is
    staged beside its destination, and each is renamed into place.  The
    directory is a map from paths to nodes, and any system call may fail. *)
From stdpp Require Import prelude strings gmap list.
From Stdlib Require Import Ascii ZArith Lia.
From S2P Require Import Prelude Str Selection PluginTree PluginBuild.

(** ** A directory *)

(** A path below the directory the tree is written to, as its segments; the
    directory itself is the empty path. *)
Abbreviation path := (list str).

Inductive entry : Type := EDir | EFile (bytes : str) (executable : bool) | ELink.
#[export] Instance entry_eq_dec : EqDecision entry.
Proof. solve_decision. Defined.

Abbreviation fs := (@gmap path (@list_eq_dec str (@list_eq_dec ascii Ascii.eq_dec))
  (@list_countable str _ (@list_countable ascii Ascii.eq_dec Ascii.countable)) entry).

(** The system calls that fail, for whatever reason there is outside the
    model: by the file being staged and the directory for [create_dir_all], by
    the path for the others; a write may stop after some bytes. *)
Class Disk : Type := {
  mkdir_fails : path -> path -> bool;
  open_fails : path -> bool;
  write_stops : path -> option nat;
  chmod_fails : path -> bool;
  remove_fails : path -> bool;
  rename_fails : path -> bool
}.

Inductive IoError : Type :=
| NotADirectory (p : path)
| AlreadyThere (p : path)
| NotThere (p : path)
| DirectoryThere (p : path)
| CallFailed (p : path).

Inductive WriteError : Type :=
| OutsideWorkspace (path : str)
| BeneathLink (p : path)
| ThroughLink (p : path)
| IsDirectory (p : path)
| Exists (p : path)
| CallError (e : IoError)
| NoFileWritten (e : WriteError)
| NotRenamed (p : path) (written : nat) (e : WriteError).

(** Code that changes the directory and may fail; [None] when a call would
    go through a symbolic link, to a place this model does not have. *)
Definition io (A : Type) : Type := fs -> option (fs * result A WriteError).
Definition ioret {A} (a : A) : io A := fun s => Some (s, Ok a).
Definition iofail {A} (e : WriteError) : io A := fun s => Some (s, Err e).
Definition iobind {A B} (m : io A) (k : A -> io B) : io B :=
  fun s => match m s with
           | None => None
           | Some (s', Ok a) => k a s'
           | Some (s', Err e) => Some (s', Err e)
           end.
(** The arm of [if let Err]. *)
Definition iocatch {A B} (m : io A) (h : WriteError -> io B) (k : A -> io B) : io B :=
  fun s => match m s with
           | None => None
           | Some (s', Ok a) => k a s'
           | Some (s', Err e) => h e s'
           end.
Notation "'let%' x ':=' m 'in' k" := (iobind m (fun x => k))
  (at level 10, x pattern, m at level 100, k at level 200) : result_scope.

Definition ancestors (p : path) : list path := map (fun n => take n p) (seq 0 (length p)).
Definition through_link (s : fs) (p : path) : bool := existsb (fun q => bool_decide (s !! q = Some ELink)) (ancestors p).

(** A call on a path, when no directory of it is a link. *)
Definition at_path {A} (p : path) (call : fs -> fs * result A WriteError) : io A :=
  fun s => if through_link s p then None else Some (call s).

Section archive.
Context `{Disk}.

(** ** The calls *)

(** [symlink_metadata], with any error as [None]. *)
Definition lstat (p : path) : io (option entry) := at_path p (fun s => (s, Ok (s !! p))).

(** One directory of [create_dir_all]: it is there, or it is made; what is
    there and no directory refuses. *)
Definition make_dir (temp : path) (p : path) : io unit :=
  fun s => match s !! p with
           | Some EDir => Some (s, Ok tt)
           | Some (EFile _ _) => Some (s, Err (CallError (NotADirectory p)))
           | Some ELink => None
           | None => if mkdir_fails temp p then Some (s, Err (CallError (CallFailed p))) else Some (<[p := EDir]> s, Ok tt)
           end.

Fixpoint each {A} (f : A -> io unit) (l : list A) : io unit :=
  match l with
  | [] => ioret tt
  | x :: l' => let% _ := f x in each f l'
  end.

(** The directories from the outermost. *)
Definition create_dir_all (temp : path) (p : path) : io unit := each (make_dir temp) (ancestors p ++ [p]).

(** [create_new]: whatever is there already refuses, a link included. *)
Definition open_new (p : path) : io unit :=
  at_path p (fun s =>
    match s !! p with
    | Some _ => (s, Err (CallError (AlreadyThere p)))
    | None => if open_fails p then (s, Err (CallError (CallFailed p))) else (<[p := EFile [] false]> s, Ok tt)
    end).

Definition write_all (p : path) (bytes : str) : io unit :=
  fun s => Some (match write_stops p with
                 | Some n => (<[p := EFile (take n bytes) false]> s, Err (CallError (CallFailed p)))
                 | None => (<[p := EFile bytes false]> s, Ok tt)
                 end).

(** [set_permissions] by the path, which follows a link. *)
Definition mark_executable (p : path) : io unit :=
  fun s => match through_link s p, s !! p with
           | true, _ | _, Some ELink => None
           | _, None => Some (s, Err (CallError (NotThere p)))
           | _, Some EDir => Some (if chmod_fails p then (s, Err (CallError (CallFailed p))) else (s, Ok tt))
           | _, Some (EFile bytes _) =>
               Some (if chmod_fails p then (s, Err (CallError (CallFailed p))) else (<[p := EFile bytes true]> s, Ok tt))
           end.

Definition remove_file (p : path) : io unit :=
  at_path p (fun s =>
    if remove_fails p then (s, Err (CallError (CallFailed p)))
    else match s !! p with
         | Some (EFile _ _) | Some ELink => (delete p s, Ok tt)
         | Some EDir => (s, Err (CallError (DirectoryThere p)))
         | None => (s, Err (CallError (NotThere p)))
         end).

(** [rename] of a file: it replaces a file or a link, never a directory. *)
Definition rename (from to : path) : io unit :=
  at_path to (fun s =>
    if rename_fails to then (s, Err (CallError (CallFailed to)))
    else match s !! from, s !! to with
         | None, _ => (s, Err (CallError (NotThere from)))
         | Some _, Some EDir => (s, Err (CallError (DirectoryThere to)))
         | Some e, _ => (<[to := e]> (delete from s), Ok tt)
         end).

(** ** Pass one *)

Definition STAGING_PREFIX : str := lit ".okf-tmp-".

Definition safe_name (segment : str) : bool :=
  let squared := trim_end_matches space_or_dot segment in
  negb (is_nil segment || is_nil squared || bool_decide (segment = lit ".") || bool_decide (squared = lit "..")
        || contains_char colon segment || starts_with STAGING_PREFIX segment).

Definition safe_relative (p : str) : result path WriteError :=
  if is_nil p || (contains_char backslash p || has_control p) || starts_with [slash] p then Err (OutsideWorkspace p)
  else if forallb safe_name (split_on slash p) then Ok (split_on slash p) else Err (OutsideWorkspace p).

Fixpoint refuse_symlinks (current : path) (components : list str) : io unit :=
  match components with
  | [] => ioret tt
  | c :: rest =>
      let current := current ++ [c] in
      let% meta := lstat current in
      match meta with
      | Some ELink => iofail (BeneathLink current)
      | _ => refuse_symlinks current rest
      end
  end.

Definition validate_one (overwrite : bool) (f : PluginFile) : io path :=
  let% target := (fun s => Some (s, safe_relative (pf_path f))) in
  let% _ := refuse_symlinks [] target in
  let% meta := lstat target in
  match meta with
  | Some ELink => iofail (ThroughLink target)
  | Some EDir => iofail (IsDirectory target)
  | Some (EFile _ _) => if overwrite then ioret target else iofail (Exists target)
  | None => ioret target
  end.

Fixpoint validate (overwrite : bool) (files : list PluginFile) : io (list path) :=
  match files with
  | [] => ioret []
  | f :: files' =>
      let% target := validate_one overwrite f in
      let% targets := validate overwrite files' in ioret (target :: targets)
  end.

(** ** Pass two *)

Definition staging_path (target : path) : path := removelast target ++ [STAGING_PREFIX ++ List.last target []].

Definition write_one (temp : path) (bytes : str) (executable : bool) : io unit :=
  let% _ := create_dir_all temp (removelast temp) in
  let% _ := open_new temp in
  let% _ := write_all temp bytes in
  if executable then mark_executable temp else ioret tt.

(** [cleanup]: what cannot be removed stays. *)
Fixpoint cleanup (temps : list path) : io unit :=
  match temps with
  | [] => ioret tt
  | temp :: temps' => iocatch (remove_file temp) (fun _ => cleanup temps') (fun _ => cleanup temps')
  end.

Fixpoint stage (staged : list (path * path)) (todo : list (PluginFile * path)) : io (list (path * path)) :=
  match todo with
  | [] => ioret staged
  | (f, target) :: todo' =>
      let temp := staging_path target in
      iocatch (write_one temp (pf_bytes f) (pf_executable f))
        (fun e => let% _ := cleanup (map fst staged) in iofail (NoFileWritten e))
        (fun _ => stage (staged ++ [(temp, target)]) todo')
  end.

(** ** Pass three *)

Fixpoint place (written : list path) (staged : list (path * path)) : io (list path) :=
  match staged with
  | [] => ioret written
  | (temp, target) :: rest =>
      iocatch (rename temp target)
        (fun e => let% _ := cleanup (map fst staged) in iofail (NotRenamed target (length written) e))
        (fun _ => place (written ++ [target]) rest)
  end.

Definition write_to_dir (files : list PluginFile) (overwrite : bool) : io (list path) :=
  let% targets := validate overwrite files in
  let% staged := stage [] (combine files targets) in
  place [] staged.

End archive.
