(* ===== verification/ArchiveProps.v ===== *)
(** * Writing a plugin writes all of it or leaves what was there *)
From stdpp Require Import prelude strings gmap list.
From Stdlib Require Import Ascii ZArith Lia.
From S2P Require Import Prelude Str Selection PluginTree PluginBuild Archive.

(** ** Programs that follow no link *)

Definition runs {A} (m : io A) (s : fs) (Q : fs -> result A WriteError -> Prop) : Prop :=
  exists s' r, m s = Some (s', r) /\ Q s' r.

Lemma runs_ret {A} (a : A) (s : fs) (Q : fs -> result A WriteError -> Prop) : Q s (Ok a) -> runs (ioret a) s Q.
Proof. intros HQ. by exists s, (Ok a). Qed.

Lemma runs_fail {A} e (s : fs) (Q : fs -> result A WriteError -> Prop) : Q s (Err e) -> runs (iofail e) s Q.
Proof. intros HQ. by exists s, (Err e). Qed.

Lemma runs_weaken {A} (m : io A) (s : fs) (P Q : fs -> result A WriteError -> Prop) :
  runs m s P -> (forall s' r, P s' r -> Q s' r) -> runs m s Q.
Proof. intros (s' & r & Hm & HP) H. exists s', r. auto. Qed.

Lemma runs_bind {A B} (m : io A) (k : A -> io B) (s : fs) (Q : fs -> result B WriteError -> Prop) :
  runs m s (fun s' r => match r with Ok a => runs (k a) s' Q | Err e => Q s' (Err e) end) -> runs (iobind m k) s Q.
Proof.
  intros (s' & r & Hm & Hr). unfold iobind, runs. rewrite Hm. destruct r as [a|e]; [exact Hr|]. by exists s', (Err e).
Qed.

Lemma runs_catch {A B} (m : io A) (h : WriteError -> io B) (k : A -> io B) (s : fs) (Q : fs -> result B WriteError -> Prop) :
  runs m s (fun s' r => match r with Ok a => runs (k a) s' Q | Err e => runs (h e) s' Q end) -> runs (iocatch m h k) s Q.
Proof. intros (s' & r & Hm & Hr). unfold iocatch, runs. rewrite Hm. by destruct r. Qed.

(** ** Paths *)

Lemma elem_of_ancestors p q : q ∈ ancestors p <-> exists n, n < length p /\ q = take n p.
Proof.
  unfold ancestors. rewrite list_elem_of_fmap. split.
  - intros (n & -> & Hn%elem_of_seq). exists n. split; [lia|done].
  - intros (n & Hn & ->). exists n. split; [done|]. apply elem_of_seq. lia.
Qed.

Lemma ancestor_shorter p q : q ∈ ancestors p -> length q < length p.
Proof. intros (n & Hn & ->)%elem_of_ancestors. rewrite length_take. lia. Qed.

Lemma ancestors_snoc p c : ancestors (p ++ [c]) = ancestors p ++ [p].
Proof.
  unfold ancestors. rewrite length_app, seq_app, map_app. cbn. f_equal.
  - apply map_ext_in. intros n Hn%in_seq. rewrite take_app_le by lia. done.
  - by rewrite take_app_length.
Qed.

Lemma through_link_spec (s : fs) p : through_link s p = true <-> exists q, q ∈ ancestors p /\ s !! q = Some ELink.
Proof.
  unfold through_link. rewrite existsb_exists. split.
  - intros (q & Hq%list_elem_of_In & He%bool_decide_eq_true). eauto.
  - intros (q & Hq%list_elem_of_In & He). exists q. split; [done|]. by apply bool_decide_eq_true.
Qed.

(** A directory without new links is as safe to go through. *)
Definition no_new_links (s s' : fs) : Prop := forall q, s' !! q = Some ELink -> s !! q = Some ELink.

Lemma clear_mono (s s' : fs) p : no_new_links s s' -> through_link s p = false -> through_link s' p = false.
Proof.
  intros Hn Hc. destruct (through_link s' p) eqn:E; [|done]. apply through_link_spec in E as (q & Hq & He).
  rewrite <- Hc. symmetry. apply through_link_spec. eauto.
Qed.

Lemma snoc_case (p : path) : p <> [] -> exists q c, p = q ++ [c].
Proof. destruct p as [|c q _] using rev_ind; [done|]. eauto. Qed.

Lemma staging_snoc q c : staging_path (q ++ [c]) = q ++ [STAGING_PREFIX ++ c].
Proof. unfold staging_path. by rewrite removelast_last, List.last_last. Qed.

Lemma staging_ancestors t : t <> [] -> ancestors (staging_path t) = ancestors t.
Proof. intros (q & c & ->)%snoc_case. by rewrite staging_snoc, !ancestors_snoc. Qed.

Lemma staging_clear (s : fs) t : t <> [] -> through_link s (staging_path t) = through_link s t.
Proof. intros Ht. unfold through_link. by rewrite staging_ancestors. Qed.

Lemma staging_parent t : t <> [] -> removelast (staging_path t) = removelast t.
Proof. intros (q & c & ->)%snoc_case. by rewrite staging_snoc, !removelast_last. Qed.

Lemma staging_inj t t' : t <> [] -> t' <> [] -> staging_path t = staging_path t' -> t = t'.
Proof.
  intros (q & c & ->)%snoc_case (q' & c' & ->)%snoc_case. rewrite !staging_snoc. intros [-> Hc]%app_inj_tail.
  apply app_inv_head in Hc. by subst.
Qed.

(** ** What staging adds *)

(** An entry that was there is as it was; what is new is a directory. *)
Definition kept (a b : option entry) : Prop := b = a \/ a = None /\ b = Some EDir.

Lemma kept_refl a : kept a a.
Proof. by left. Qed.

Lemma kept_trans a b c : kept a b -> kept b c -> kept a c.
Proof. unfold kept. naive_solver. Qed.

#[export] Hint Resolve kept_refl : core.

(** Nothing changed but for new directories and the files at [temps]. *)
Definition grown (temps : list path) (s s' : fs) : Prop := forall q, q ∉ temps -> kept (s !! q) (s' !! q).

Definition is_file (e : option entry) : Prop := match e with Some (EFile _ _) => True | _ => False end.

Section archive.
Context `{Disk}.

Lemma make_dir_spec temp p s : s !! p <> Some ELink ->
  runs (make_dir temp p) s (fun s' r => grown [] s s' /\ (forall q, q <> p -> s' !! q = s !! q) /\ (r = Ok tt -> s' !! p = Some EDir)).
Proof.
  intros Hl. unfold make_dir, runs. destruct (s !! p) as [[| |]|] eqn:Hp; [..|].
  - exists s, (Ok tt). split_and!; [done|intros q _; auto|done|done].
  - eexists s, (Err _). split_and!; [done|intros q _; auto|done|done].
  - done.
  - destruct (mkdir_fails temp p).
    + eexists s, (Err _). split_and!; [done|intros q _; auto|done|done].
    + exists (<[p := EDir]> s), (Ok tt). split_and!; [done|..|by rewrite lookup_insert_eq].
      * intros q _. destruct (decide (q = p)) as [->|]; [right; by rewrite lookup_insert_eq|left; by rewrite lookup_insert_ne].
      * intros q Hq. by rewrite lookup_insert_ne.
Qed.

Lemma each_dirs temp l s : NoDup l -> (forall q, q ∈ l -> s !! q <> Some ELink) ->
  runs (each (make_dir temp) l) s
    (fun s' r => grown [] s s' /\ (forall q, q ∉ l -> s' !! q = s !! q) /\ (r = Ok tt -> forall q, q ∈ l -> s' !! q = Some EDir)).
Proof.
  revert s. induction l as [|p l IH]; intros s Hnd Hl; cbn [each].
  - apply runs_ret. split_and!; [intros q _; auto|done|by intros _ q ?%not_elem_of_nil].
  - apply NoDup_cons in Hnd as [Hp Hnd]. apply runs_bind. eapply runs_weaken; [apply make_dir_spec, Hl; by left|].
    intros s1 [[]|e] (Hg & Hf & Hd).
    + eapply runs_weaken; [apply IH; [done|]|].
      * intros q Hq. rewrite Hf by (intros ->; done). apply Hl. by right.
      * intros s2 r (Hg2 & Hf2 & Hd2). split_and!.
        -- intros q Hq. eapply kept_trans; [by apply Hg|by apply Hg2].
        -- intros q [? ?]%not_elem_of_cons. by rewrite Hf2, Hf.
        -- intros Hr q [->|Hq]%elem_of_cons; [rewrite Hf2 by done; by apply Hd|by apply Hd2].
    + split_and!; [done| |done]. intros q [? _]%not_elem_of_cons. by apply Hf.
Qed.

Lemma NoDup_ancestors p : NoDup (ancestors p ++ [p]).
Proof.
  rewrite <- (ancestors_snoc p []). unfold ancestors. apply NoDup_fmap_2_strong; [|apply NoDup_seq].
  intros n m Hn%elem_of_seq Hm%elem_of_seq He. apply (f_equal length) in He. rewrite !length_take, !length_app in *. cbn in *. lia.
Qed.

(** [create_dir_all] of the directory of a staged file. *)
Lemma create_dir_all_spec temp s : temp <> [] -> through_link s temp = false ->
  runs (create_dir_all temp (removelast temp)) s
    (fun s' r => grown [] s s' /\ s' !! temp = s !! temp /\ (r = Ok tt -> s' !! removelast temp = Some EDir)).
Proof.
  intros (q & c & ->)%snoc_case Hc. rewrite removelast_last. eapply runs_weaken; [apply each_dirs; [apply NoDup_ancestors|]|].
  - intros a Ha He. apply not_true_iff_false in Hc. apply Hc, through_link_spec. exists a. by rewrite ancestors_snoc.
  - intros s' r (Hg & Hf & Hd). split_and!; [done| |].
    + apply Hf. rewrite <- (ancestors_snoc q c). intros Hin%ancestor_shorter. lia.
    + intros Hr. apply Hd; [done|]. apply elem_of_app. right. by left.
Qed.

Lemma grown_links temps s s' : grown temps s s' -> (forall t, t ∈ temps -> s' !! t <> Some ELink) -> no_new_links s s'.
Proof.
  intros Hg Ht q Hq. destruct (decide (q ∈ temps)) as [Hin|Hni]; [by destruct (Ht q Hin)|].
  destruct (Hg q Hni) as [He|[_ He]]; [by rewrite <- He|]. by rewrite Hq in He.
Qed.

(** One staged file: it is there with its bytes and its mode, in a directory;
    if that failed, at most the start of it is there. *)
Lemma write_one_spec temp bytes x s : temp <> [] -> through_link s temp = false ->
  runs (write_one temp bytes x) s (fun s' r =>
    match r with
    | Ok _ => grown [temp] s s' /\ s !! temp = None /\ s' !! temp = Some (EFile bytes x) /\ s' !! removelast temp = Some EDir
    | Err _ => grown [] s s' \/ (grown [temp] s s' /\ s !! temp = None /\ is_file (s' !! temp))
    end).
Proof.
  intros Hne Hc. unfold write_one. apply runs_bind. eapply runs_weaken; [by apply create_dir_all_spec|].
  intros s1 [[]|e] (Hg & Ht & Hd); [|by left]. specialize (Hd eq_refl).
  assert (through_link s1 temp = false) as Hc1.
  { eapply clear_mono; [|exact Hc]. apply (grown_links []); [done|]. by intros t ?%not_elem_of_nil. }
  assert (removelast temp <> temp) as Hpar.
  { destruct (snoc_case temp Hne) as (q & c & ->). rewrite removelast_last. intros He. apply (f_equal length) in He.
    rewrite length_app in He. cbn in He. lia. }
  assert (forall e, grown [temp] s (<[temp := e]> s1)) as Hgrown.
  { intros e q Hq. rewrite lookup_insert_ne by set_solver. apply Hg. set_solver. }
  apply runs_bind. unfold open_new, at_path, runs at 1. rewrite Hc1. destruct (s1 !! temp) eqn:Ht1.
  { eexists s1, (Err _). split; [done|]. by left. }
  destruct (open_fails temp); [eexists s1, (Err _); split; [done|by left]|].
  eexists _, (Ok tt). split; [done|]. apply runs_bind. unfold write_all, runs at 1.
  destruct (write_stops temp) as [n|]; rewrite insert_insert_eq.
  { eexists _, (Err _). split; [done|]. right. split_and!; [apply Hgrown|by rewrite <- Ht|by rewrite lookup_insert_eq]. }
  eexists _, (Ok tt). split; [done|].
  assert (forall y, grown [temp] s (<[temp := EFile bytes y]> s1) /\ s !! temp = None
    /\ (<[temp := EFile bytes y]> s1 : fs) !! temp = Some (EFile bytes y)
    /\ (<[temp := EFile bytes y]> s1 : fs) !! removelast temp = Some EDir) as Hdone.
  { intros y. split_and!; [apply Hgrown|by rewrite <- Ht|by rewrite lookup_insert_eq|by rewrite lookup_insert_ne]. }
  destruct x; [|apply runs_ret, Hdone]. unfold mark_executable, runs.
  assert (through_link (<[temp := EFile bytes false]> s1) temp = false) as ->.
  { eapply clear_mono; [|exact Hc1]. intros q. destruct (decide (q = temp)) as [->|]; [by rewrite lookup_insert_eq|].
    by rewrite lookup_insert_ne. }
  rewrite lookup_insert_eq. destruct (chmod_fails temp).
  - eexists _, (Err _). split; [done|]. right. split_and!; [apply Hgrown|by rewrite <- Ht|by rewrite lookup_insert_eq].
  - eexists _, (Ok tt). split; [done|]. rewrite insert_insert_eq. apply Hdone.
Qed.

(** ** Cleaning up *)

Lemma cleanup_spec l s : (forall t, t ∈ l -> through_link s t = false) ->
  runs (cleanup l) s (fun s' r => r = Ok tt /\ forall q, s' !! q = s !! q /\ (q ∈ l -> is_file (s !! q) -> remove_fails q = true)
                                                   \/ q ∈ l /\ s' !! q = None).
Proof.
  revert s. induction l as [|t l IH]; intros s Hc; cbn [cleanup].
  { apply runs_ret. split; [done|]. intros q. left. split; [done|]. by intros ?%not_elem_of_nil. }
  apply runs_catch. unfold remove_file, at_path, runs at 1. rewrite (Hc t) by by left.
  assert (forall s', no_new_links s s' -> forall q, q ∈ l -> through_link s' q = false) as Hmono.
  { intros s' Hn q Hq. eapply clear_mono; [exact Hn|]. apply Hc. by right. }
  assert ((is_file (s !! t) -> remove_fails t = true) ->
    runs (cleanup l) s (fun s' r => r = Ok tt /\ forall q, s' !! q = s !! q /\ (q ∈ t :: l -> is_file (s !! q) -> remove_fails q = true)
                                                   \/ q ∈ t :: l /\ s' !! q = None)) as Hkeep.
  { intros Ht. eapply runs_weaken; [apply IH, Hmono; by intros q|]. intros s' r (-> & Hq). split; [done|]. intros q.
    destruct (Hq q) as [[He Hr]|[Hin He]]; [left|right; by split; [right|]]. split; [done|].
    intros [->|Hin]%elem_of_cons; [done|by apply Hr]. }
  destruct (remove_fails t) eqn:Hf; [eexists s, (Err _); split; [done|by apply Hkeep]|].
  destruct (s !! t) as [e|] eqn:Ht; [|eexists s, (Err _); split; [done|by apply Hkeep]].
  assert (e = EDir \/ runs (cleanup l) (delete t s) (fun s' r => r = Ok tt /\ forall q,
    s' !! q = s !! q /\ (q ∈ t :: l -> is_file (s !! q) -> remove_fails q = true) \/ q ∈ t :: l /\ s' !! q = None)) as [->|Hgo].
  { destruct (decide (e = EDir)) as [|Hne]; [by left|right].
    eapply runs_weaken; [apply IH, Hmono; intros q; by rewrite lookup_delete_Some; intros []|].
    intros s' r (-> & Hq). split; [done|]. intros q. destruct (decide (q = t)) as [->|Hqt].
    - right. split; [by left|]. destruct (Hq t) as [[-> _]|[_ ->]]; [by rewrite lookup_delete_eq|done].
    - destruct (Hq q) as [[He Hr]|[Hin He]]; [left|right; by split; [right|]]. rewrite lookup_delete_ne in He, Hr by done.
      split; [done|]. intros [->|Hin]%elem_of_cons; [done|by apply Hr]. }
  - eexists s, (Err _). split; [done|by apply Hkeep].
  - destruct e; [|exists (delete t s), (Ok tt); by split..]. eexists s, (Err _). split; [done|]. by apply Hkeep.
Qed.

(** ** Pass two *)

Definition temps (l : list (PluginFile * path)) : list path := map (fun p => staging_path p.2) l.
Definition paired (l : list (PluginFile * path)) : list (path * path) := map (fun p => (staging_path p.2, p.2)) l.

Lemma paired_temps l : map fst (paired l) = temps l.
Proof. unfold paired, temps. by rewrite map_map. Qed.

(** The files that are staged, and what else there is. *)
Record staged_ok (s0 s : fs) (l : list (PluginFile * path)) : Prop := {
  st_grown : grown (temps l) s0 s;
  st_new f t : (f, t) ∈ l -> s0 !! staging_path t = None;
  st_there f t : (f, t) ∈ l -> s !! staging_path t = Some (EFile (pf_bytes f) (pf_executable f));
  st_parent f t : (f, t) ∈ l -> s !! removelast t = Some EDir;
  st_nodup : NoDup (temps l)
}.

Lemma temps_app l l' : temps (l ++ l') = temps l ++ temps l'.
Proof. apply map_app. Qed.

Lemma elem_of_temps q l : q ∈ temps l <-> exists f t, (f, t) ∈ l /\ q = staging_path t.
Proof.
  unfold temps. rewrite list_elem_of_fmap. split; [intros ([f t] & -> & Hin); eauto|].
  intros (f & t & Hin & ->). by exists (f, t).
Qed.

Lemma staged_links s0 s l : staged_ok s0 s l -> no_new_links s0 s.
Proof.
  intros S. eapply grown_links; [apply S|]. intros q (f & t & Hin & ->)%elem_of_temps. by rewrite (st_there _ _ _ S f t Hin).
Qed.

(** What a failed pass leaves: entries as they were, new directories, and of
    the temporary files those that failed or could not be removed. *)
Definition left_over (l : list (PluginFile * path)) (bad : path) (s0 s : fs) : Prop :=
  forall q, kept (s0 !! q) (s !! q) \/
    (s0 !! q = None /\ is_file (s !! q) /\ q ∈ temps l /\ (q = bad \/ remove_fails q = true)).

Lemma staged_snoc s0 s s' l f t : staged_ok s0 s l -> grown [staging_path t] s s' -> s !! staging_path t = None ->
  s' !! staging_path t = Some (EFile (pf_bytes f) (pf_executable f)) -> s' !! removelast t = Some EDir ->
  staged_ok s0 s' (l ++ [(f, t)]).
Proof.
  intros S Hg Hn Ht Hd.
  assert (staging_path t ∉ temps l) as Hni.
  { intros (f' & t' & Hin & He)%elem_of_temps. rewrite He, (st_there _ _ _ S f' t' Hin) in Hn. done. }
  assert (forall q e, q <> staging_path t -> s !! q = Some e -> s' !! q = Some e) as Hold.
  { intros q e Hq He. destruct (Hg q) as [->|[Hx _]]; [set_solver|done|]. by rewrite He in Hx. }
  assert (forall f' t', (f', t') ∈ l -> staging_path t' <> staging_path t) as Hne.
  { intros f' t' Hin He. apply Hni, elem_of_temps. eauto. }
  split.
  - intros q Hq. rewrite temps_app, not_elem_of_app in Hq. destruct Hq as [Hq Hqt]. cbn in Hqt. rewrite list_elem_of_singleton in Hqt.
    eapply kept_trans; [by apply S|]. apply Hg. set_solver.
  - intros f' t' [Hin|[= -> ->]%list_elem_of_singleton]%elem_of_app; [by eapply S|].
    destruct (st_grown _ _ _ S _ Hni) as [He|[He _]]; [by rewrite <- He|done].
  - intros f' t' [Hin|[= -> ->]%list_elem_of_singleton]%elem_of_app; [|done]. apply Hold; [by eapply Hne|by eapply S].
  - intros f' t' [Hin|[= -> ->]%list_elem_of_singleton]%elem_of_app; [|done]. apply Hold; [|by eapply S].
    intros He. rewrite <- He, (st_parent _ _ _ S f' t' Hin) in Hn. done.
  - rewrite temps_app, NoDup_app. split_and!; [apply S| |apply NoDup_singleton].
    intros q Hq ->%list_elem_of_singleton. by apply Hni.
Qed.

(** A file that failed: its temporary is as it was, or it is new. *)
Definition half_staged (t : path) (s s' : fs) : Prop :=
  grown [staging_path t] s s' /\ (s' !! staging_path t = s !! staging_path t \/ s !! staging_path t = None /\
    (is_file (s' !! staging_path t) \/ s' !! staging_path t = Some EDir)).

Lemma stage_left s0 s s1 s2 l all t : staged_ok s0 s l -> half_staged t s s1 ->
  (forall q, q ∈ temps l \/ q = staging_path t -> q ∈ temps all) ->
  (forall q, s2 !! q = s1 !! q /\ (q ∈ temps l -> is_file (s1 !! q) -> remove_fails q = true) \/ q ∈ temps l /\ s2 !! q = None) ->
  left_over all (staging_path t) s0 s2.
Proof.
  intros S [Hg Ht] Hall Hq q.
  assert (kept (s0 !! q) (s !! q) \/ q ∈ temps l /\ s0 !! q = None /\ is_file (s !! q)) as Hs.
  { destruct (decide (q ∈ temps l)) as [Hin|]; [|left; by apply S]. right. split; [done|].
    apply elem_of_temps in Hin as (f' & t' & Hin & ->). by rewrite (st_new _ _ _ S f' t' Hin), (st_there _ _ _ S f' t' Hin). }
  destruct (Hq q) as [[He Hr]|[Hin He]].
  - rewrite He. destruct (decide (q = staging_path t)) as [->|Hqt].
    + destruct Ht as [->|[Hn [Hf|Hd]]].
      * destruct Hs as [Hs|(Hin & Hn0 & Hf)]; [by left|right]. split_and!; auto.
      * destruct Hs as [Hs|(Hin & Hn0 & Hf')]; [|by rewrite Hn in Hf'].
        destruct Hs as [Hs|[Hs Hs']]; [|by rewrite Hn in Hs']. right. rewrite <- Hs, Hn. split_and!; auto.
      * destruct Hs as [Hs|(Hin & Hn0 & Hf')]; [|by rewrite Hn in Hf']. left. rewrite Hd. rewrite Hn in Hs.
        destruct Hs as [Hs|[_ Hs]]; [|done]. right. by rewrite <- Hs.
    + destruct Hs as [Hs|(Hin & Hn0 & Hf)].
      * left. eapply kept_trans; [exact Hs|]. apply Hg. set_solver.
      * right. assert (s1 !! q = s !! q) as He1.
        { destruct (Hg q) as [?|[Hx _]]; [set_solver|done|]. by rewrite Hx in Hf. }
        rewrite He1 in Hr |- *. split_and!; auto.
  - left. rewrite He. destruct Hs as [Hs|(_ & Hn0 & _)]; [|by left].
    apply elem_of_temps in Hin as (f' & t' & Hin & ->). left. symmetry. by apply (st_new _ _ _ S f' t').
Qed.

Lemma stage_spec s0 todo l s : (forall f t, (f, t) ∈ l ++ todo -> t <> [] /\ through_link s0 t = false) ->
  staged_ok s0 s l ->
  runs (stage (paired l) todo) s (fun s' r =>
    match r with
    | Ok staged => staged = paired (l ++ todo) /\ staged_ok s0 s' (l ++ todo)
    | Err e => exists bad e', e = NoFileWritten e' /\ left_over (l ++ todo) bad s0 s'
    end).
Proof.
  revert l s. induction todo as [|[f t] todo IH]; intros l s Hc S; cbn [stage].
  { rewrite app_nil_r. by apply runs_ret. }
  destruct (Hc f t) as [Hne Hct]; [apply elem_of_app; right; by left|].
  assert (forall s', no_new_links s0 s' -> through_link s' (staging_path t) = false) as Hclear.
  { intros s' Hn. rewrite staging_clear by done. by eapply clear_mono. }
  assert (staging_path t <> []) as Hsne by (destruct (snoc_case t Hne) as (q & c & ->); rewrite staging_snoc; by destruct q).
  apply runs_catch. eapply runs_weaken; [apply write_one_spec; [done|by apply Hclear, staged_links with l]|].
  intros s1 [[]|e] Hw.
  - destruct Hw as (Hg & Hn & Ht & Hd). rewrite staging_parent in Hd by done.
    pose proof (staged_snoc _ _ _ _ f t S Hg Hn Ht Hd) as S'.
    change [(staging_path t, t)] with (paired [(f, t)]). assert (paired l ++ paired [(f, t)] = paired (l ++ [(f, t)])) as ->
      by (unfold paired; by rewrite map_app).
    replace (l ++ (f, t) :: todo) with ((l ++ [(f, t)]) ++ todo) in * by by rewrite <- (assoc_L app). by apply IH.
  - apply runs_bind. rewrite paired_temps.
    assert (half_staged t s s1) as [Hg Ht].
    { unfold half_staged. destruct Hw as [Hg|(Hg & Hn & Hf)]; [|by eauto 6]. split; [intros q _; apply Hg; set_solver|].
      destruct (Hg (staging_path t)) as [?|[? ?]]; [set_solver|by left|by eauto 6]. }
    assert (no_new_links s s1) as Hn1.
    { intros q Hq. destruct (decide (q = staging_path t)) as [->|Hqt].
      - rewrite Hq in Ht. cbn in Ht. by destruct Ht as [Ht|[_ [[]|Ht]]].
      - destruct (Hg q) as [He|[_ He]]; [set_solver|by rewrite <- He|by rewrite Hq in He]. }
    eapply runs_weaken; [apply cleanup_spec|].
    + intros q (f' & t' & Hin & ->)%elem_of_temps. destruct (Hc f' t') as [Hne' Hc']; [apply elem_of_app; by left|].
      rewrite staging_clear by done. eapply clear_mono; [exact Hn1|]. eapply clear_mono; [by eapply staged_links|done].
    + intros s2 r (-> & Hq). apply runs_fail. exists (staging_path t), e. split; [done|].
      eapply stage_left; [exact S|by split| |exact Hq]. intros q Hin. rewrite temps_app, elem_of_app.
      destruct Hin as [Hin| ->]; [by left|right; by left].
Qed.

(** ** Pass three *)

Record placing (s0 s : fs) (placed rest : list (PluginFile * path)) : Prop := {
  pc_else q : q ∉ map snd placed -> q ∉ temps rest -> kept (s0 !! q) (s !! q);
  pc_placed f t : (f, t) ∈ placed -> s !! t = Some (EFile (pf_bytes f) (pf_executable f));
  pc_new f t : (f, t) ∈ rest -> s0 !! staging_path t = None;
  pc_there f t : (f, t) ∈ rest -> s !! staging_path t = Some (EFile (pf_bytes f) (pf_executable f));
  pc_nodup : NoDup (temps (placed ++ rest))
}.

(** What the first pass makes sure of for the targets. *)
Record clear_targets (s0 : fs) (l : list (PluginFile * path)) : Prop := {
  ct_named f t : (f, t) ∈ l -> t <> [];
  ct_clear f t : (f, t) ∈ l -> through_link s0 t = false;
  ct_apart f t f' t' : (f, t) ∈ l -> (f', t') ∈ l -> t <> staging_path t'
}.

Lemma elem_of_targets q (l : list (PluginFile * path)) : q ∈ map snd l <-> exists f, (f, q) ∈ l.
Proof.
  rewrite list_elem_of_fmap. split; [intros ([f t] & -> & Hin); eauto|]. intros (f & Hin). by exists (f, q).
Qed.

Lemma placing_links s0 s placed rest : placing s0 s placed rest -> no_new_links s0 s.
Proof.
  intros P q Hq. destruct (decide (q ∈ map snd placed)) as [(f & Hin)%elem_of_targets|Hp].
  { by rewrite (pc_placed _ _ _ _ P f q Hin) in Hq. }
  destruct (decide (q ∈ temps rest)) as [(f & t & Hin & ->)%elem_of_temps|Hr].
  { by rewrite (pc_there _ _ _ _ P f t Hin) in Hq. }
  destruct (pc_else _ _ _ _ P q Hp Hr) as [He|[_ He]]; [by rewrite <- He|by rewrite Hq in He].
Qed.

Lemma placing_step s0 s placed f t rest : clear_targets s0 (placed ++ (f, t) :: rest) -> placing s0 s placed ((f, t) :: rest) ->
  placing s0 (<[t := EFile (pf_bytes f) (pf_executable f)]> (delete (staging_path t) s)) (placed ++ [(f, t)]) rest.
Proof.
  intros C P. assert (forall f' t', (f', t') ∈ placed ++ (f, t) :: rest -> t <> staging_path t') as Hap.
  { intros f' t' Hin. apply (ct_apart _ _ C f t f' t'); [|done]. apply elem_of_app. right. by left. }
  pose proof (pc_nodup _ _ _ _ P) as Hnd. rewrite temps_app in Hnd. cbn [temps map snd] in Hnd. fold (temps rest) in Hnd.
  apply NoDup_app in Hnd as (_ & Hd & [Hni _]%NoDup_cons).
  assert (forall f' t', (f', t') ∈ rest -> staging_path t' <> staging_path t) as Hne.
  { intros f' t' Hin He. apply Hni, elem_of_temps. eauto. }
  split.
  - intros q Hp Hr. rewrite map_app, not_elem_of_app in Hp. destruct Hp as [Hp Hqt]. cbn in Hqt. rewrite list_elem_of_singleton in Hqt.
    rewrite lookup_insert_ne by done. destruct (decide (q = staging_path t)) as [->|Hqs].
    + rewrite lookup_delete_eq. left. symmetry. apply (pc_new _ _ _ _ P f t). by left.
    + rewrite lookup_delete_ne by done. apply P; [done|]. cbn. by apply not_elem_of_cons.
  - intros f' t' [Hin|[= -> ->]%list_elem_of_singleton]%elem_of_app; [|by rewrite lookup_insert_eq].
    rewrite lookup_insert_ne, lookup_delete_ne; [by apply P| |].
    + intros He. apply (ct_apart _ _ C f' t' f t); [apply elem_of_app; by left|apply elem_of_app; right; by left|done].
    + intros <-. apply (Hd (staging_path t)); [apply elem_of_temps; eauto|by left].
  - intros f' t' Hin. apply (pc_new _ _ _ _ P f' t'). by right.
  - intros f' t' Hin. rewrite lookup_insert_ne, lookup_delete_ne; [apply (pc_there _ _ _ _ P f' t'); by right| |].
    + intros He. by apply (Hne f' t').
    + apply Hap with f'. apply elem_of_app. right. by right.
  - rewrite <- (assoc_L app). apply P.
Qed.

(** Either all is in place, or some files are and the rest is as it was, but
    for temporary files that could not be removed. *)
Definition place_post (s0 : fs) (all : list (PluginFile * path)) (s' : fs) (r : result (list path) WriteError) : Prop :=
  match r with
  | Ok written => written = map snd all /\ placing s0 s' all []
  | Err e => exists done f t left e', all = done ++ (f, t) :: left /\ e = NotRenamed t (length done) e' /\
      (forall f' t', (f', t') ∈ done -> s' !! t' = Some (EFile (pf_bytes f') (pf_executable f'))) /\
      forall q, q ∉ map snd done -> kept (s0 !! q) (s' !! q) \/
        (s0 !! q = None /\ is_file (s' !! q) /\ q ∈ temps ((f, t) :: left) /\ remove_fails q = true)
  end.

Lemma place_spec s0 rest placed s : clear_targets s0 (placed ++ rest) -> placing s0 s placed rest ->
  runs (place (map snd placed) (paired rest)) s (place_post s0 (placed ++ rest)).
Proof.
  revert placed s. induction rest as [|[f t] rest IH]; intros placed s C P; cbn [paired map place].
  { rewrite app_nil_r in *. by apply runs_ret. }
  fold (paired rest). cbn [fst snd]. apply runs_catch.
  assert ((f, t) ∈ placed ++ (f, t) :: rest) as Hin by (apply elem_of_app; right; by left).
  assert (forall f' t', (f', t') ∈ placed ++ (f, t) :: rest -> through_link s t' = false) as Hclear.
  { intros f' t' Hin'. eapply clear_mono; [by eapply placing_links|]. by eapply C. }
  assert (forall e, runs (let% _ := cleanup (map fst ((staging_path t, t) :: paired rest)) in
                          iofail (A:=list path) (NotRenamed t (length (map snd placed)) e)) s (place_post s0 (placed ++ (f, t) :: rest))) as Hfail.
  { intros e. apply runs_bind. change ((staging_path t, t) :: paired rest) with (paired ((f, t) :: rest)). rewrite paired_temps.
    eapply runs_weaken; [apply cleanup_spec|].
    - intros q (f' & t' & Hin' & ->)%elem_of_temps. assert ((f', t') ∈ placed ++ (f, t) :: rest) as Hall by (apply elem_of_app; by right).
      rewrite staging_clear by by eapply C. by eapply Hclear.
    - intros s' r (-> & Hq). apply runs_fail. exists placed, f, t, rest, e. split; [done|]. split; [by rewrite length_map|]. split.
      + intros f' t' Hin'. destruct (Hq t') as [[-> _]|[Ht _]]; [by apply P|]. exfalso.
        apply elem_of_temps in Ht as (f2 & t2 & Hin2 & He). revert He.
        apply (ct_apart _ _ C f' t' f2 t2); apply elem_of_app; [by left|by right].
      + intros q Hp. destruct (decide (q ∈ temps ((f, t) :: rest))) as [Hr|Hr].
        * pose proof Hr as (f' & t' & Hin' & Heq)%elem_of_temps. pose proof (pc_new _ _ _ _ P f' t' Hin') as Hn.
          pose proof (pc_there _ _ _ _ P f' t' Hin') as Ht. rewrite <- Heq in Hn, Ht.
          destruct (Hq q) as [[He Hrem]|[_ He]]; [right|left; left; by rewrite He, Hn].
          rewrite He, Ht in *. split_and!; [done|done|done|]. by apply Hrem.
        * left. destruct (Hq q) as [[-> _]|[? _]]; [by apply P|done]. }
  unfold rename, at_path, runs at 1. rewrite (Hclear f t Hin).
  destruct (rename_fails t); [eexists s, (Err _); split; [done|apply Hfail]|].
  rewrite (pc_there _ _ _ _ P f t) by by left.
  assert (runs (place (map snd placed ++ [t]) (paired rest)) (<[t := EFile (pf_bytes f) (pf_executable f)]> (delete (staging_path t) s)) (place_post s0 (placed ++ (f, t) :: rest))) as Hgo.
  { assert (map snd placed ++ [t] = map snd (placed ++ [(f, t)])) as -> by by rewrite map_app.
    pose proof (placing_step _ _ _ _ _ _ C P) as P'.
    replace (placed ++ (f, t) :: rest) with ((placed ++ [(f, t)]) ++ rest) in * by by rewrite <- (assoc_L app). by apply IH. }
  destruct (s !! t) as [[]|]; [eexists s, (Err _); split; [done|apply Hfail]|..]; (eexists _, (Ok tt); split; [done|exact Hgo]).
Qed.

(** ** Pass one *)

Definition validation_error (e : WriteError) : Prop :=
  match e with NoFileWritten _ | NotRenamed _ _ _ => False | _ => True end.

(** A target that was let through. *)
Record let_through (overwrite : bool) (s : fs) (f : PluginFile) (t : path) : Prop := {
  lt_safe : safe_relative (pf_path f) = Ok t;
  lt_clear : through_link s t = false;
  lt_link : s !! t <> Some ELink;
  lt_new : overwrite = false -> s !! t = None
}.

Lemma refuse_symlinks_spec current rest s : (forall q, q ∈ ancestors current ++ [current] -> s !! q <> Some ELink) ->
  runs (refuse_symlinks current rest) s (fun s' r => s' = s /\
    match r with
    | Ok _ => forall q, q ∈ ancestors (current ++ rest) ++ [current ++ rest] -> s !! q <> Some ELink
    | Err e => validation_error e
    end).
Proof.
  revert current. induction rest as [|c rest IH]; intros current Hc; cbn [refuse_symlinks].
  { apply runs_ret. by rewrite app_nil_r. }
  apply runs_bind. unfold lstat, at_path, runs at 1.
  assert (through_link s (current ++ [c]) = false) as ->.
  { destruct (through_link _ _) eqn:E; [|done]. apply through_link_spec in E as (q & Hq & He). rewrite ancestors_snoc in Hq.
    by destruct (Hc q Hq). }
  eexists s, (Ok _). split; [done|].
  assert (s !! (current ++ [c]) <> Some ELink -> runs (refuse_symlinks (current ++ [c]) rest) s (fun s' r => s' = s /\
    match r with
    | Ok _ => forall q, q ∈ ancestors (current ++ c :: rest) ++ [current ++ c :: rest] -> s !! q <> Some ELink
    | Err e => validation_error e
    end)) as Hgo.
  { intros Hn. replace (current ++ c :: rest) with ((current ++ [c]) ++ rest) by by rewrite <- (assoc_L app). apply IH.
    rewrite ancestors_snoc. intros q [Hq|Hq%list_elem_of_singleton]%elem_of_app; [by apply Hc|by subst]. }
  destruct (s !! (current ++ [c])) as [[]|]; try (by apply Hgo). by apply runs_fail.
Qed.

Lemma validate_one_spec overwrite f s : s !! ([] : path) <> Some ELink ->
  runs (validate_one overwrite f) s (fun s' r => s' = s /\
    match r with Ok t => let_through overwrite s f t | Err e => validation_error e end).
Proof.
  intros Hroot. unfold validate_one. apply runs_bind. exists s, (safe_relative (pf_path f)). split; [done|].
  destruct (safe_relative (pf_path f)) as [t|e] eqn:Hs.
  2: { split; [done|]. unfold safe_relative in Hs. destruct (_ || _ || _); [by injection Hs as <-|].
     destruct (forallb _ _); [done|by injection Hs as <-]. }
  apply runs_bind. eapply runs_weaken; [apply refuse_symlinks_spec; by intros q ->%list_elem_of_singleton|].
  intros s' [[]|e] [-> Hl]; [|done]. cbn [app] in Hl. apply runs_bind. unfold lstat, at_path, runs at 1.
  assert (through_link s t = false) as Hc.
  { destruct (through_link _ _) eqn:E; [|done]. apply through_link_spec in E as (q & Hq & He).
    destruct (Hl q); [apply elem_of_app; by left|done]. }
  assert (s !! t <> Some ELink) as Hnl by (apply Hl, elem_of_app; right; by left).
  rewrite Hc. eexists s, (Ok _). split; [done|]. destruct (s !! t) as [[]|] eqn:Ht; [by apply runs_fail| |by apply runs_fail|].
  - destruct overwrite; [|by apply runs_fail]. apply runs_ret. split; [done|]. split; [done|done|by rewrite Ht|done].
  - apply runs_ret. split; [done|]. split; [done|done|by rewrite Ht|done].
Qed.

Lemma validate_spec overwrite files s : s !! ([] : path) <> Some ELink ->
  runs (validate overwrite files) s (fun s' r => s' = s /\
    match r with Ok targets => Forall2 (let_through overwrite s) files targets | Err e => validation_error e end).
Proof.
  intros Hroot. induction files as [|f files IH]; cbn [validate]; [apply runs_ret; by split|].
  apply runs_bind. eapply runs_weaken; [by apply validate_one_spec|]. intros s' [t|e] [-> Ht]; [|done].
  apply runs_bind. eapply runs_weaken; [exact IH|]. intros s' [targets|e] [-> Hts]; [|done].
  apply runs_ret. split; [done|]. by constructor.
Qed.

(** A safe path is never a staging name. *)
Definition staging_name (q : path) : Prop := exists p c, q = p ++ [STAGING_PREFIX ++ c].

Lemma safe_relative_spec p t : safe_relative p = Ok t -> t = split_on slash p /\ Forall (fun c => safe_name c = true) t.
Proof.
  unfold safe_relative. destruct (_ || _ || _); [done|]. destruct (forallb safe_name (split_on slash p)) eqn:Hs; [|done].
  intros [= <-]. split; [done|]. apply Forall_forall. intros c Hc. rewrite forallb_forall in Hs. by apply Hs, list_elem_of_In.
Qed.

Lemma safe_not_staging p t : safe_relative p = Ok t -> t <> [] /\ ~ staging_name t.
Proof.
  intros [Ht Hs]%safe_relative_spec. split; [rewrite Ht; apply split_on_not_nil|]. intros (q & c & ->).
  apply Forall_app in Hs as [_ Hs]. rewrite Forall_singleton in Hs. unfold safe_name in Hs. apply negb_true_iff in Hs.
  rewrite !orb_false_iff in Hs. destruct Hs as [_ Hs].
  assert (starts_with STAGING_PREFIX (STAGING_PREFIX ++ c) = true) as He by (apply starts_with_spec; eauto). congruence.
Qed.

Lemma staging_path_name t : t <> [] -> staging_name (staging_path t).
Proof. intros (q & c & ->)%snoc_case. rewrite staging_snoc. by exists q, c. Qed.

Lemma through_targets overwrite s files targets : Forall2 (let_through overwrite s) files targets ->
  clear_targets s (combine files targets) /\ map snd (combine files targets) = targets /\
  (forall f t, (f, t) ∈ combine files targets -> let_through overwrite s f t).
Proof.
  intros Hf.
  assert (forall f t, (f, t) ∈ combine files targets -> let_through overwrite s f t) as Hall.
  { induction Hf; [by intros ? ? ?%not_elem_of_nil|]. intros f t [[= -> ->]|Hin]%elem_of_cons; auto. }
  split_and!; [split|clear Hall; by induction Hf; cbn; congruence|done].
  - intros f t Hin. by destruct (safe_not_staging _ _ (lt_safe _ _ _ _ (Hall f t Hin))).
  - intros f t Hin. by apply (Hall f t Hin).
  - intros f t f' t' Hin Hin' He. destruct (safe_not_staging _ _ (lt_safe _ _ _ _ (Hall f t Hin))) as [_ Hn]. apply Hn.
    rewrite He. apply staging_path_name. by destruct (safe_not_staging _ _ (lt_safe _ _ _ _ (Hall f' t' Hin'))).
Qed.

Lemma in_place_pairs (s : fs) done : (forall f t, (f, t) ∈ done -> s !! t = Some (EFile (pf_bytes f) (pf_executable f))) ->
  Forall2 (fun f t => s !! t = Some (EFile (pf_bytes f) (pf_executable f))) (map fst done) (map snd done).
Proof.
  induction done as [|[f t] done IH]; intros Hd; cbn; [constructor|]. constructor; [apply Hd; by left|].
  apply IH. intros f' t' Hin. apply Hd. by right.
Qed.

(** ** All of it *)


End archive.
