(* ===== verification/ArchiveWrites.v ===== *)
(** * An assembled plugin can be written

    Below an empty directory, with no call failing, every tree that
    [assemble_with_report] returns is written whole, unless one of its names
    is reserved for staging. *)
From stdpp Require Import prelude strings gmap list.
From Stdlib Require Import Ascii ZArith Lia.
From S2P Require Import Prelude Str BTree Net Selection PluginTree PluginTreeProps PluginText PluginBuild PluginBuildProps Archive ArchiveProps.

(** A disk on which every call succeeds. *)
Definition good_disk : Disk :=
  {| mkdir_fails := fun _ _ => false; open_fails := fun _ => false; write_stops := fun _ => None;
     chmod_fails := fun _ => false; remove_fails := fun _ => false; rename_fails := fun _ => false |}.

(** ** Names *)

Definition unreserved (p : str) : Prop := Forall (fun c => starts_with STAGING_PREFIX c = false) (split_on slash p).

Lemma has_control_slash s t : has_control (s ++ slash :: t) = has_control s || has_control t.
Proof. rewrite has_control_split by done. f_equal. destruct t; [done|]. by cbn. Qed.

Lemma plain_no_control ps : Forall writable ps -> has_control (join [slash] ps) = false.
Proof.
  induction 1 as [|c ps (Hs & _) Hps IH]; [done|]. unfold safe_segment in Hs. rewrite !andb_true_iff, !negb_true_iff in Hs.
  destruct Hs as [_ [Hc _]%orb_false_iff]. destruct ps as [|d ps]; [done|]. rewrite join_cons2. cbn [app].
  rewrite has_control_slash, Hc. exact IH.
Qed.

Lemma join_notin (c : ascii) ps : c <> slash -> Forall (fun p => c ∉ p) ps -> c ∉ join [slash] ps.
Proof.
  intros Hc. induction 1 as [|p ps Hp Hps IH]; [by intros ?%not_elem_of_nil|]. destruct ps as [|q ps]; [done|].
  rewrite join_cons2. cbn [app]. by intros [?|[?|?]%elem_of_cons]%elem_of_app.
Qed.

(** A writable path that uses no staging name is one [safe_relative] takes. *)
Lemma plain_safe_relative p : plain_path p -> unreserved p -> safe_relative p = Ok (split_on slash p).
Proof.
  unfold plain_path, unreserved, safe_relative. intros Hp Hu. pose proof (join_split_on slash p) as Hj.
  assert (has_control p = false) as -> by (rewrite <- Hj; by apply plain_no_control).
  assert (contains_char backslash p = false) as ->.
  { unfold contains_char. apply bool_decide_eq_false. rewrite <- Hj. apply join_notin; [by by_decide|].
    eapply Forall_impl; [exact Hp|]. by intros c (_ & _ & Hb & _). }
  assert (is_nil p = false /\ starts_with [slash] p = false) as [-> ->].
  { destruct p as [|c p]; [by apply Forall_singleton in Hp as (Hp & _)|]. split; [done|].
    destruct (starts_with [slash] (c :: p)) eqn:E; [|done]. apply starts_with_spec in E as (r & [= -> ->]).
    change (slash :: r) with ([] ++ slash :: r) in Hp. rewrite split_on_app in Hp by by intros ?%not_elem_of_nil.
    apply Forall_cons in Hp as [(Hp & _) _]. by vm_compute in Hp. }
  cbn [orb]. assert (forallb safe_name (split_on slash p) = true) as ->; [|done].
  apply forallb_forall. intros c Hc%list_elem_of_In. rewrite Forall_forall in Hp, Hu. destruct (Hp c Hc) as (Hs & _ & _ & Hcol).
  specialize (Hu c Hc). unfold safe_segment in Hs. rewrite !andb_true_iff, !negb_true_iff in Hs.
  destruct Hs as [[[[H1 H2] H3] H4] _]. unfold safe_name. rewrite H1, H2, H3, H4, Hu. cbn [orb].
  unfold contains_char. by rewrite bool_decide_eq_false_2.
Qed.

(** ** Directories of a path *)

Lemma prefixes_inner pre segs n : pre <> [] -> n < length segs -> n <> 0 -> 
  pre ++ [slash] ++ join [slash] (take n segs) ∈ prefixes pre segs.
Proof.
  revert pre n. induction segs as [|a segs IH]; intros pre n Hpre Hn Hn0; [cbn in Hn; lia|].
  destruct segs as [|b segs]; [cbn in Hn; lia|]. destruct n as [|n]; [done|]. cbn [prefixes take].
  destruct pre as [|x pre]; [done|]. cbn [is_nil]. destruct n as [|n].
  { cbn [take join]. by left. }
  right. cbn [take]. rewrite join_cons2. cbn [length] in Hn.
  pose proof (IH ((x :: pre) ++ [slash] ++ a) (S n) ltac:(done) ltac:(cbn; lia) ltac:(done)) as Hin.
  cbn [take] in Hin. rewrite <- !(assoc_L app) in Hin. exact Hin.
Qed.

(** Every proper beginning of a path is one of its directories. *)
Lemma ancestor_directory p q : plain_path p -> q ∈ ancestors (split_on slash p) -> q <> [] -> join [slash] q ∈ directories_of p.
Proof.
  intros Hp (n & Hn & ->)%elem_of_ancestors Hne. unfold directories_of, plain_path in *. destruct (split_on slash p) as [|a segs]; [cbn in Hn; lia|].
  apply Forall_cons in Hp as [(Ha & _) _]. destruct n as [|n]; [done|]. destruct segs as [|b segs]; [cbn in Hn; lia|].
  cbn [prefixes is_nil take app]. destruct a as [|x a]; [by vm_compute in Ha|]. destruct n as [|n]; [cbn [take join]; by left|].
  right. cbn [take]. rewrite join_cons2. cbn [length] in Hn.
  pose proof (prefixes_inner (x :: a) (b :: segs) (S n) ltac:(done) ltac:(cbn; lia) ltac:(done)) as Hin. exact Hin.
Qed.

(** ** The passes, call by call *)

Section good.
#[local] Existing Instance good_disk.

(** Where there is a directory or nothing. *)
Definition open_place (e : option entry) : Prop := e = None \/ e = Some EDir.

Lemma each_dirs_good temp l (s : fs) : (forall q, q ∈ l -> open_place (s !! q)) ->
  exists s', each (make_dir temp) l s = Some (s', Ok tt) /\ forall q, s' !! q = if decide (q ∈ l) then Some EDir else s !! q.
Proof.
  revert s. induction l as [|p l IH]; intros s Hl; cbn [each]; [by exists s|].
  assert (exists s1, make_dir temp p s = Some (s1, Ok tt) /\ forall q, s1 !! q = if decide (q = p) then Some EDir else s !! q) as (s1 & H1 & Hs1).
  { unfold make_dir. cbn. destruct (Hl p) as [Hp|Hp]; [by left| |]; rewrite Hp.
    - exists (<[p := EDir]> s). split; [done|]. intros q. rewrite lookup_insert. by repeat case_decide.
    - exists s. split; [done|]. intros q. case_decide; by subst. }
  destruct (IH s1) as (s2 & H2 & Hs2).
  { intros q Hq. rewrite Hs1. case_decide; [by right|]. apply Hl. by right. }
  exists s2. split; [unfold iobind; by rewrite H1|]. intros q. rewrite Hs2, Hs1.
  destruct (decide (q ∈ l)), (decide (q = p)), (decide (q ∈ p :: l)); set_solver.
Qed.

Lemma write_one_good temp bytes x (s : fs) : temp <> [] -> (forall q, q ∈ ancestors temp -> open_place (s !! q)) -> s !! temp = None ->
  exists s', write_one temp bytes x s = Some (s', Ok tt) /\
    forall q, s' !! q = if decide (q = temp) then Some (EFile bytes x) else if decide (q ∈ ancestors temp) then Some EDir else s !! q.
Proof.
  intros (p & c & ->)%snoc_case Ha Ht. unfold write_one, create_dir_all. rewrite removelast_last, ancestors_snoc in *.
  destruct (each_dirs_good (p ++ [c]) _ s Ha) as (s1 & H1 & Hs1). unfold iobind. rewrite H1.
  assert (p ++ [c] ∉ ancestors p ++ [p]) as Hni by (rewrite <- (ancestors_snoc p c); intros Hin%ancestor_shorter; lia).
  assert (s1 !! (p ++ [c]) = None) as Hn1 by by rewrite Hs1, decide_False.
  assert (forall e, through_link (<[p ++ [c] := e]> s1) (p ++ [c]) = false /\ through_link s1 (p ++ [c]) = false) as Hclear.
  { intros e. split; (destruct (through_link _ _) eqn:E; [|done]); apply through_link_spec in E as (q & Hq & He); rewrite ancestors_snoc in Hq.
    - rewrite lookup_insert_ne, Hs1, decide_True in He by (done || intros <-; done). done.
    - by rewrite Hs1, decide_True in He. }
  destruct (Hclear (EFile bytes false)) as [Hc2 Hc1]. unfold open_new, at_path. rewrite Hc1, Hn1. cbn.
  unfold write_all. cbn. rewrite insert_insert_eq.
  assert (forall e q, (<[p ++ [c] := e]> s1 : fs) !! q = if decide (q = p ++ [c]) then Some e
                      else if decide (q ∈ ancestors p ++ [p]) then Some EDir else s !! q) as Hl.
  { intros e q. rewrite lookup_insert. repeat case_decide; subst; try done; by rewrite Hs1; case_decide. }
  destruct x; [|eexists; split; [done|apply Hl]]. unfold mark_executable. rewrite Hc2, lookup_insert_eq. cbn. rewrite insert_insert_eq.
  eexists. split; [done|apply Hl].
Qed.

(** The targets of a tree: named, apart, no one below another. *)
Record tree (targets : list path) : Prop := {
  tr_named t : t ∈ targets -> t <> [];
  tr_nodup : NoDup targets;
  tr_below t t' : t ∈ targets -> t' ∈ targets -> t ∉ ancestors t';
  tr_staging t t' : t ∈ targets -> t' ∈ targets -> t <> staging_path t' /\ staging_path t ∉ ancestors t'
}.

(** While files are staged: directories of targets, and the temporary files
    so far. *)
Definition staging_state (targets : list path) (done : list (PluginFile * path)) (s : fs) : Prop :=
  (forall f t, (f, t) ∈ done -> s !! staging_path t = Some (EFile (pf_bytes f) (pf_executable f))) /\
  forall q e, s !! q = Some e -> (e = EDir /\ exists t, t ∈ targets /\ q ∈ ancestors t) \/ (q ∈ temps done /\ exists b x, e = EFile b x).

Lemma stage_good targets l todo s : tree targets -> map snd (l ++ todo) = targets -> staging_state targets l s ->
  exists s', stage (paired l) todo s = Some (s', Ok (paired (l ++ todo))) /\ staging_state targets (l ++ todo) s'.
Proof.
  intros T. revert l s. induction todo as [|[f t] todo IH]; intros l s Ht [Hd He]; cbn [stage].
  { exists s. by rewrite app_nil_r. }
  assert (t ∈ targets) as Hin by (rewrite <- Ht, map_app; apply elem_of_app; right; by left).
  assert (forall f' t', (f', t') ∈ l -> t' ∈ targets /\ t' <> t) as Hl.
  { intros f' t' Hft. assert (t' ∈ map snd l) as Ht' by (apply elem_of_targets; eauto). pose proof (tr_nodup _ T) as Hnd.
    rewrite <- Ht, map_app in Hnd |- *. split; [apply elem_of_app; by left|]. intros ->. apply NoDup_app in Hnd as (_ & Hnd & _).
    apply (Hnd t Ht'). by left. }
  pose proof (tr_named _ T t Hin) as Hne.
  assert (staging_path t ∉ temps l) as Hnt.
  { intros (f' & t' & Hft & Heq)%elem_of_temps. destruct (Hl f' t' Hft) as [Hin' Hdiff]. apply Hdiff. symmetry.
    apply staging_inj; [done|by apply (tr_named _ T)|done]. }
  destruct (write_one_good (staging_path t) (pf_bytes f) (pf_executable f) s) as (s1 & H1 & Hs1).
  - destruct (snoc_case t Hne) as (p & c & ->). rewrite staging_snoc. by destruct p.
  - intros q Hq. rewrite staging_ancestors in Hq by done. destruct (s !! q) as [e|] eqn:Hsq; [|by left].
    destruct (He q e Hsq) as [[-> _]|[(f' & t' & Hft & ->)%elem_of_temps _]]; [by right|].
    destruct (Hl f' t' Hft) as [Hin' _]. by destruct (tr_staging _ T t' t Hin' Hin).
  - destruct (s !! staging_path t) as [e|] eqn:Hsq; [|done].
    destruct (He _ e Hsq) as [[_ (t' & Hin' & Ha)]|[Hx _]]; [by destruct (tr_staging _ T t t' Hin Hin')|done].
  - unfold iocatch. rewrite H1. change [(staging_path t, t)] with (paired [(f, t)]).
    assert (paired l ++ paired [(f, t)] = paired (l ++ [(f, t)])) as -> by (unfold paired; by rewrite map_app).
    replace (l ++ (f, t) :: todo) with ((l ++ [(f, t)]) ++ todo) in * by by rewrite <- (assoc_L app). apply IH; [done|]. split.
    + intros f' t' [Hft|[= -> ->]%list_elem_of_singleton]%elem_of_app; [|by rewrite Hs1, decide_True].
      rewrite Hs1, decide_False, decide_False; [by apply Hd| |].
      * destruct (Hl f' t' Hft) as [Hin' _]. rewrite staging_ancestors by done. by destruct (tr_staging _ T t' t Hin' Hin).
      * intros Heq. apply Hnt. rewrite <- Heq. apply elem_of_temps. eauto.
    + intros q e. rewrite Hs1, temps_app. case_decide as Hq; [intros [= <-]; right; split; [rewrite elem_of_app; right; subst; by left|eauto]|].
      case_decide as Ha; [intros [= <-]; left; split; [done|]; exists t; by rewrite staging_ancestors in Ha|].
      intros [?|[? ?]]%He; [by left|right]. rewrite elem_of_app. auto.
Qed.

(** While files are put in place: directories of targets, the files in place
    and the temporary ones of the rest. *)
Definition placing_state (targets : list path) (rest : list (PluginFile * path)) (s : fs) : Prop :=
  (forall f t, (f, t) ∈ rest -> s !! staging_path t = Some (EFile (pf_bytes f) (pf_executable f))) /\
  forall q e, s !! q = Some e -> (e = EDir /\ exists t, t ∈ targets /\ q ∈ ancestors t) \/ exists b x, e = EFile b x.

Lemma place_good targets l rest s : tree targets -> map snd (l ++ rest) = targets -> placing_state targets rest s ->
  (forall f t, (f, t) ∈ l -> s !! t = Some (EFile (pf_bytes f) (pf_executable f))) ->
  exists s', place (map snd l) (paired rest) s = Some (s', Ok targets) /\
    forall f t, (f, t) ∈ l ++ rest -> s' !! t = Some (EFile (pf_bytes f) (pf_executable f)).
Proof.
  intros T. revert l s. induction rest as [|[f t] rest IH]; intros l s Ht [Hd He] Hl0; cbn [paired map place].
  { exists s. rewrite <- Ht, app_nil_r. by split. }
  fold (paired rest). cbn [fst snd].
  assert (t ∈ targets) as Hin by (rewrite <- Ht, map_app; apply elem_of_app; right; by left).
  assert (forall f' t', (f', t') ∈ rest -> t' ∈ targets /\ t' <> t) as Hl.
  { intros f' t' Hft. assert (t' ∈ map snd rest) as Ht' by (apply elem_of_targets; eauto). pose proof (tr_nodup _ T) as Hnd.
    rewrite <- Ht, map_app in Hnd |- *. split; [apply elem_of_app; right; by right|]. intros ->. apply NoDup_app in Hnd as (_ & _ & Hnd).
    cbn in Hnd. by apply NoDup_cons in Hnd as [Hnd _]. }
  assert (forall f' t', (f', t') ∈ l -> t' ∈ targets /\ t' <> t) as Hl'.
  { intros f' t' Hft. assert (t' ∈ map snd l) as Ht' by (apply elem_of_targets; eauto). pose proof (tr_nodup _ T) as Hnd.
    rewrite <- Ht, map_app in Hnd |- *. split; [apply elem_of_app; by left|]. intros ->. apply NoDup_app in Hnd as (_ & Hnd & _).
    apply (Hnd t Ht'). by left. }
  unfold iocatch, rename, at_path. assert (through_link s t = false) as ->.
  { destruct (through_link s t) eqn:E; [|done]. apply through_link_spec in E as (q & _ & Hq). by destruct (He q _ Hq) as [[? _]|(? & ? & ?)]. }
  cbn [rename_fails good_disk]. rewrite (Hd f t) by by left.
  assert (s !! t <> Some EDir) as Hnd.
  { intros Hq. destruct (He t _ Hq) as [[_ (t' & Hin' & Ha)]|(? & ? & ?)]; [|done]. by apply (tr_below _ T t t' Hin Hin'). }
  destruct (IH (l ++ [(f, t)]) (<[t := EFile (pf_bytes f) (pf_executable f)]> (delete (staging_path t) s))) as (s' & Hs' & Hall).
  - by rewrite <- (assoc_L app).
  - split.
    + intros f' t' Hft. destruct (Hl f' t' Hft) as [Hin' Hdiff]. rewrite lookup_insert_ne, lookup_delete_ne; [apply Hd; by right| |].
      * intros Heq. apply Hdiff. symmetry. apply staging_inj; [by apply (tr_named _ T)..|done].
      * intros Heq. by destruct (tr_staging _ T t t' Hin Hin').
    + intros q e. rewrite lookup_insert. case_decide; [intros [= <-]; right; eauto|]. rewrite lookup_delete.
      case_decide; [done|apply He].
  - intros f' t' [Hft|[= -> ->]%list_elem_of_singleton]%elem_of_app; [|by rewrite lookup_insert_eq].
    destruct (Hl' f' t' Hft) as [Hin' Hdiff]. rewrite lookup_insert_ne, lookup_delete_ne; [by apply Hl0| |done].
    intros Heq. by destruct (tr_staging _ T t' t Hin' Hin).
  - exists s'. rewrite map_app in Hs'. cbn in Hs'. rewrite <- (assoc_L app) in Hall. split; [|exact Hall]. destruct (s !! t) as [[]|]; done.
Qed.

(** ** An empty directory *)

Lemma empty_clear p : through_link (∅ : fs) p = false.
Proof.
  destruct (through_link ∅ p) eqn:E; [|done]. apply through_link_spec in E as (q & _ & Hq). by rewrite lookup_empty in Hq.
Qed.

Lemma refuse_symlinks_empty current rest : refuse_symlinks current rest ∅ = Some (∅, Ok tt).
Proof.
  revert current. induction rest as [|c rest IH]; intros current; [done|]. cbn [refuse_symlinks].
  unfold iobind, lstat, at_path. by rewrite empty_clear, lookup_empty.
Qed.

Lemma validate_empty overwrite files targets : Forall2 (fun f t => safe_relative (pf_path f) = Ok t) files targets ->
  validate overwrite files ∅ = Some (∅, Ok targets).
Proof.
  induction 1 as [|f t files targets Hft _ IH]; [done|]. cbn [validate].
  assert (validate_one overwrite f ∅ = Some (∅, Ok t)) as Hone.
  { unfold validate_one, iobind. rewrite Hft, refuse_symlinks_empty. unfold lstat, at_path. by rewrite empty_clear, lookup_empty. }
  unfold iobind. by rewrite Hone, IH.
Qed.

Lemma write_to_empty files targets overwrite : Forall2 (fun f t => safe_relative (pf_path f) = Ok t) files targets -> tree targets ->
  exists s, write_to_dir files overwrite ∅ = Some (s, Ok targets) /\
    forall f t, (f, t) ∈ combine files targets -> s !! t = Some (EFile (pf_bytes f) (pf_executable f)).
Proof.
  intros Hf T. unfold write_to_dir. unfold iobind at 1. rewrite (validate_empty overwrite files targets Hf).
  assert (map snd (combine files targets) = targets) as Ht by (clear T; induction Hf; cbn; congruence).
  destruct (stage_good targets [] (combine files targets) ∅ T) as (s1 & H1 & Hd & He); [done|by split; [intros ? ? ?%not_elem_of_nil|]|].
  unfold iobind. change (stage [] (combine files targets) ∅) with (stage (paired []) (combine files targets) ∅). rewrite H1.
  destruct (place_good targets [] (combine files targets) s1 T) as (s2 & H2 & Hall); [done| |by intros ? ? ?%not_elem_of_nil|by exists s2].
  split; [exact Hd|]. intros q e [?|[_ ?]]%He; [by left|by right].
Qed.

End good.

(** ** Assembled trees *)

Section built.
Context `{Texts, Unicode}.

Lemma plain_tree paths : Forall plain_path paths -> Forall unreserved paths -> NoDup (map collision_key paths) ->
  (forall a b d, a ∈ paths -> b ∈ paths -> d ∈ directories_of b -> collision_key a <> collision_key d) ->
  tree (map (split_on slash) paths).
Proof.
  intros Hp Hu Hnd Hdir. rewrite !Forall_forall in Hp, Hu.
  assert (forall t, t ∈ map (split_on slash) paths -> exists p, p ∈ paths /\ t = split_on slash p) as Hof.
  { intros t (p & -> & Hin)%list_elem_of_fmap. eauto. }
  assert (forall t q, t ∈ map (split_on slash) paths -> q = t \/ q ∈ ancestors t -> ~ staging_name q) as Hname.
  { intros t q (p & Hin & ->)%Hof Hq (d & c & ->). specialize (Hu p Hin). unfold unreserved in Hu. rewrite Forall_forall in Hu.
    assert (STAGING_PREFIX ++ c ∈ split_on slash p) as Hc.
    { destruct Hq as [<-|(n & _ & Hq)%elem_of_ancestors]; [apply elem_of_app; right; by left|].
      rewrite <- (take_drop n (split_on slash p)), <- Hq, !elem_of_app. left. right. by left. }
    apply Hu in Hc. assert (starts_with STAGING_PREFIX (STAGING_PREFIX ++ c) = true) by (apply starts_with_spec; eauto). congruence. }
  assert (forall t, t ∈ map (split_on slash) paths -> t <> []) as Hne.
  { intros t (p & _ & ->)%Hof. apply split_on_not_nil. }
  split; [exact Hne|..].
  - apply NoDup_fmap_2_strong; [|by apply NoDup_fmap_1 in Hnd]. intros a b _ _ Hab.
    rewrite <- (join_split_on slash a), <- (join_split_on slash b). by f_equal.
  - intros t t' Ht Ht' Ha. pose proof (Hne t Ht) as Hnil. apply Hof in Ht as (a & Ha' & ->). apply Hof in Ht' as (b & Hb & ->).
    pose proof (ancestor_directory b (split_on slash a) (Hp b Hb) Ha Hnil) as Hd.
    rewrite join_split_on in Hd. by apply (Hdir a b a Ha' Hb Hd).
  - intros t t' Ht Ht'. split.
    + intros ->. apply (Hname (staging_path t') (staging_path t') Ht); [by left|]. by apply staging_path_name, Hne.
    + intros Ha. apply (Hname t' (staging_path t) Ht'); [by right|]. by apply staging_path_name, Hne.
Qed.

(** C19: A plugin that was assembled, for a target of the registry or a
    described harness whose directory has no segment of dots alone (a plugin
    for [...] is assembled and then refused by [safe_relative]), is written
    whole below an empty directory when no call fails and no name in it starts
    like a staging name: every file ends up at the path its name spells, with
    its bytes and its mode. *)
Theorem built_plugin_writes o s snapshot records report pl overwrite : loaded records -> harness_rooted o ->
  assemble_with_report o s snapshot records report = yield pl -> Forall (fun f => unreserved (pf_path f)) (pl_files pl) ->
  exists after, @write_to_dir good_disk (pl_files pl) overwrite ∅ = Some (after, Ok (map (fun f => split_on slash (pf_path f)) (pl_files pl))) /\
    forall f, f ∈ pl_files pl -> after !! split_on slash (pf_path f) = Some (EFile (pf_bytes f) (pf_executable f)).
Proof.
  intros Hl Hh Ha Hu. pose proof (assemble_sound o s snapshot records report Hl Hh) as H1. rewrite Ha in H1.
  destruct H1 as (p & name & ix & others & lock & _ & _ & _ & S). pose proof (so_plain _ _ _ _ _ _ _ _ S) as Hplain.
  destruct (proj1 (ensure_unique_paths_exact _) (so_unique _ _ _ _ _ _ _ _ S)) as [Hu1 Hu2].
  assert (tree (map (fun f => split_on slash (pf_path f)) (pl_files pl))) as T.
  { rewrite <- (map_map pf_path (split_on slash)). apply plain_tree; [by apply Forall_map|by apply Forall_map|done|done]. }
  destruct (write_to_empty (pl_files pl) (map (fun f => split_on slash (pf_path f)) (pl_files pl)) overwrite) as (after & Hw & Hall);
    [|exact T|].
  - clear -Hplain Hu. induction Hplain as [|f files Hf _ IH]; [constructor|]. apply Forall_cons in Hu as [Hfu Hu].
    constructor; [by apply plain_safe_relative|by apply IH].
  - exists after. split; [exact Hw|]. intros f Hf. apply Hall. clear -Hf. induction (pl_files pl) as [|g files IH]; [by apply not_elem_of_nil in Hf|].
    cbn. apply elem_of_cons in Hf as [->|Hf]; [by left|right; by apply IH].
Qed.

End built.
