(* ===== verification/ArchiveExamples.v ===== *)
(** * Writing a plugin, tried

    The plugin of [PluginExamples] below an empty directory, and a disk that
    fills up while the second of two files is staged. *)
From stdpp Require Import prelude strings gmap list.
From Stdlib Require Import Ascii ZArith Lia.
From S2P Require Import Prelude Str Selection PluginTree PluginTreeProps PluginText PluginBuild PluginBuildProps PluginExamples Archive ArchiveProps ArchiveWrites.

Definition paths_free (m : fallible Plugin) : bool :=
  forallb (fun p => forallb (fun c => negb (starts_with STAGING_PREFIX c)) (split_on slash p)) (paths_of m).

Lemma built_plugin_writes_witness : exists pl after, demo_build = yield pl /\ length (pl_files pl) = 14 /\
  @write_to_dir good_disk (pl_files pl) false ∅ = Some (after, Ok (map (fun f => split_on slash (pf_path f)) (pl_files pl))) /\
  forall f, f ∈ pl_files pl -> after !! split_on slash (pf_path f) = Some (EFile (pf_bytes f) (pf_executable f)).
Proof.
  assert (exists pl, demo_build = yield pl /\ length (pl_files pl) = 14 /\ Forall (fun f => unreserved (pf_path f)) (pl_files pl))
    as (pl & Hb & Hlen & Hu).
  { assert (entries_of_lock demo_build = 14) as H1 by by_eval. assert (paths_free demo_build = true) as H2 by by_eval.
    revert H1 H2. generalize demo_build. intros [|[pl|e]]; [done| |done]. intros H1 H2. exists pl. split; [done|]. split; [done|].
    unfold paths_free in H2. cbn [paths_of] in H2. rewrite forallb_forall in H2. apply Forall_forall. intros f Hf.
    apply Forall_forall. intros c Hc. apply negb_true_iff.
    assert (forallb (fun c => negb (starts_with STAGING_PREFIX c)) (split_on slash (pf_path f)) = true) as Hs.
    { apply H2, list_elem_of_In. by apply (list_elem_of_fmap_2 pf_path). }
    rewrite forallb_forall in Hs. by apply Hs, list_elem_of_In. }
  destruct (built_plugin_writes demo_options (picks_only [] false) demo_snapshot demo_records demo_report pl false demo_records_loaded I Hb Hu)
    as (after & Hw & Hall).
  exists pl, after. by split_and!.
Defined.

Definition two_files : list PluginFile :=
  [ file (lit "okf/INDEX.md") (lit "index"); with_executable true (file (lit "okf/tools/okf.sh") (lit "#!/bin/sh")) ].

(** The second file is cut off after three bytes. *)
Definition full_disk : Disk :=
  {| mkdir_fails := fun _ _ => false; open_fails := fun _ => false;
     write_stops := fun p => if decide (List.last p [] = lit ".okf-tmp-okf.sh") then Some 3 else None;
     chmod_fails := fun _ => false; remove_fails := fun _ => false; rename_fails := fun _ => false |}.

(** A workspace with an older index in it. *)
Definition workspace : fs :=
  {[ [] := EDir; [lit "okf"] := EDir; [lit "okf"; lit "INDEX.md"] := EFile (lit "old") false ]}.

Definition after_write (disk : Disk) (s : fs) : option fs := fst <$> @write_to_dir disk two_files true s.
Definition outcome_of (disk : Disk) (s : fs) : option (result (list path) WriteError) := snd <$> @write_to_dir disk two_files true s.


(** When the second file is cut off nothing of the plugin is there, but the
    start of that file stays behind under its staging name, with the directory
    made for it; and then writing again is refused because of it. *)
Example cut_off_file_stays :
  (after_write full_disk workspace ≫= fun s => s !! [lit "okf"; lit "INDEX.md"]) = Some (EFile (lit "old") false) /\
  (after_write full_disk workspace ≫= fun s => s !! [lit "okf"; lit "tools"; lit ".okf-tmp-okf.sh"]) = Some (EFile (lit "#!/") false) /\
  (after_write full_disk workspace ≫= outcome_of good_disk)
  = Some (Err (NoFileWritten (CallError (AlreadyThere [lit "okf"; lit "tools"; lit ".okf-tmp-okf.sh"])))).
Proof. split_and!; by_eval. Qed.

(** A concept path [tree_path] lets through and [safe_relative] refuses. *)
Example staging_name_in_a_tree :
  tree_path (lit "notes/.okf-tmp-a.md") = Ok (lit "notes/.okf-tmp-a.md") /\ is_ok (safe_relative (lit "notes/.okf-tmp-a.md")) = false.
Proof. split; by_eval. Qed.
