(* ===== verification/Build.v ===== *)
(** * A build from a selection to a tree ([pgokf-workspace/src/lib.rs])

    [build_scoped] resolves the selection, loads the content, takes the
    snapshot of the catalog and assembles; what it returns is traced back to
    the catalog.  The transaction it runs in is the database's: every query
    here reads one state. *)
From stdpp Require Import prelude strings gmap list sorting.
From Stdlib Require Import Ascii ZArith Lia.
From S2P Require Import Prelude Str BTree Security Catalog Neighbors TypedWalk Selection SelectionProps PluginTree PluginTreeProps PluginText PluginBuild PluginBuildProps.

Inductive BuildFailure : Type := NotResolved (e : BuildError) | NotAssembled (e : PluginError).

Section build.
Context `{Ses : Session, EO : EdgeOrder, R : Reader, T : Texts, U : Unicode}.
(** What [pgokf.version()] and the extension's row say. *)
Context (versions : str * str) (yaml_string : str -> str).

(** ** The snapshot *)

(** [sort_unstable] and [dedup], or [ORDER BY]. *)
Definition distinct_ids (ids : list Z) : list Z := sort_by (fun a b => (a <=? b)%Z) (remove_dups ids).

Definition bundle_state (extended : bool) (id : Z) (b : Bundle) : BundleState :=
  let fresh := if extended then bundle_freshness rd_db !! id else None in
  let row := row ← fresh; snd <$> bundle_row id row in
  {| bs_id := id; bs_name := bundle_name id; bs_sync_hash := b_sync_hash b; bs_last_synced_at := b_last_synced_at b;
     bs_catalog_generation := if extended then Some (b_catalog_generation b) else None;
     bs_freshness_state := f_state <$> row;
     bs_freshness_reasons := default [] (f_reasons <$> row);
     bs_embedding_contract := row' ← fresh; _ ← row; bf_embedding_contract row' |}.

Definition snapshot_extended (bundle_ids : list Z) (extended : bool) : result Snapshot BuildError :=
  ask QSnapshot
    {| sn_version := versions.1; sn_sql_version := versions.2;
       sn_bundles := omap (fun id => b ← bundles rd_db !! id;
                                     if tenant_predicate rd_db (b_tenant b) then Some (bundle_state extended id b) else None)
                          (distinct_ids bundle_ids) |}.

Definition snapshot (bundle_ids : list Z) : result Snapshot BuildError := snapshot_extended bundle_ids false.

Definition snapshot_for (s : Selection) (records : list ConceptRecord) (report : BuildReport) : result Snapshot BuildError :=
  snapshot_extended (distinct_ids (map cr_bundle_id records))
    (engaged s records && cap_freshness (rp_capabilities report) && cap_catalog_generation (rp_capabilities report)).

(** ** The build *)

Definition gather (s : Selection) : result (list ConceptRecord * BuildReport * Snapshot) BuildError :=
  let? (records, report) := resolve_selected s in
  let? records := load_sources tx_sha256_hex yaml_string records in
  let? snapshot := snapshot_for s records report in
  Ok (records, report, snapshot).

Definition build_scoped (o : BuildOptions) (s : Selection) : outcome (result Plugin BuildFailure) :=
  match gather s with
  | Err e => Ret (Err (NotResolved e))
  | Ok (records, report, snapshot) =>
      obind (assemble_with_report o s snapshot records report) (fun r => Ret (rmap_err NotAssembled r))
  end.

(** The preview: the same without the bytes. *)
Definition resolve_in_transaction (s : Selection) : result (list ConceptRecord * Snapshot * BuildReport) BuildError :=
  let? (records, report) := resolve_selected s in
  let? snapshot := snapshot_for s records report in
  Ok (records, snapshot, report).

(** ** What was built *)

Context `{EL : !EdgeOrderLaws, L : !ReaderLaws}.
(** Bundles have positive [bigint] ids. *)
Context (Hids : forall n, n ∈ concepts rd_db -> (0 <= n.1 <= i64_max)%Z).

Lemma gathered_loaded s records report sn : gather s = Ok (records, report, sn) ->
  exists all, resolve_selected s = Ok (all, report) /\ load_sources tx_sha256_hex yaml_string all = Ok records /\ loaded records.
Proof.
  intros Hg. unfold gather in Hg. apply rbind_ok in Hg as ([all report'] & Hr & Hg). apply rbind_ok in Hg as (records' & Hl & Hg).
  apply rbind_ok in Hg as (sn' & _ & [= <- <- <-]). exists all. split; [done|]. split; [done|].
  destruct (resolved_facts s all report' Hr) as (Hnd & Hcount & _ & _ & _ & Hsel).
  destruct (load_sources_intact tx_sha256_hex yaml_string all records' Hl) as (Hsub & _ & _). split.
  - by eapply sublist_NoDup.
  - apply sublist_length in Hsub. rewrite !length_map in Hsub. unfold MAX_CONCEPTS, MOST_ATTEMPTS in *. lia.
  - intros r Hin. assert (key r ∈ map key all) as (r0 & Hk & Hr0)%list_elem_of_fmap.
    { eapply elem_of_sublist; [|exact Hsub]. by apply (list_elem_of_fmap_2 key). }
    rewrite Forall_forall in Hsel. destruct (Hsel r0 Hr0) as (c & Hc & _). apply (Hids (key r)). rewrite Hk. apply rd_dom. by exists c.
Qed.

(** C15: A build, for a target of the registry or a described harness whose
    directory has no segment of dots alone, never panics, and a plugin it
    returns holds what the session may see and the catalog has, and only that.  Every concept in it is
    visible and of the trust asked for, at most 500 and each once; it is in
    the tree at its place; every resource, on its own or in a package, has the
    bytes whose digest the catalog listed, and no document is empty; and when
    the catalog reports freshness, a build that excludes stale content has no
    concept whose freshness row, as a build reads it (the concept's own, or else
    its bundle's; a path's override is not read), is stale. *)
Theorem built_plugin o s : harness_rooted o ->
  match build_scoped o s with
  | Panic => False
  | Ret (Err _) => True
  | Ret (Ok pl) =>
      exists p name, profile o = yield p /\ package_name (bo_name o) = Ok name /\
        let records := pl_concepts pl in
        (0 < length records)%nat /\ (Z.of_nat (length records) <= MAX_CONCEPTS)%Z /\ NoDup (map key records) /\
        forall r, r ∈ records ->
          (exists c, selectable (sel_verified_only s) (key r) c) /\
          in_place (layout p name) (pl_files pl) r /\
          intact tx_sha256_hex r /\ (cr_resource r = None -> cr_bytes r <> []) /\
          (pl_freshness_available pl = true -> sel_stale_policy s = Exclude -> forall f, freshness_read (key r) = Some f -> is_stale f = false)
  end.
Proof.
  intros Hh. unfold build_scoped. destruct (gather s) as [[[records report] sn]|e] eqn:Hg; [|done].
  destruct (gathered_loaded _ _ _ _ Hg) as (all & Hr & Hl & Hloaded).
  pose proof (assemble_sound o s sn records report Hloaded Hh) as Ha.
  destruct (assemble_with_report o s sn records report) as [|[pl|e]] eqn:He; [done| |done]. cbn [obind rmap_err].
  destruct Ha as (p & name & ix & others & lock & Hp & Hn & (Hc & Hne & Hav) & S). exists p, name. split; [done|]. split; [done|].
  cbn zeta. rewrite Hc, Hav. destruct (resolved_facts s all report Hr) as (_ & Hcount & _ & _ & Hstale & Hsel).
  destruct (load_sources_intact tx_sha256_hex yaml_string all records Hl) as (Hsub & Hintact & _).
  split; [by destruct records; [|cbn; lia]|]. split.
  { apply sublist_length in Hsub. rewrite !length_map in Hsub. lia. }
  split; [apply Hloaded|]. intros r Hin. assert (key r ∈ map key all) as (r0 & Hk & Hr0)%list_elem_of_fmap.
  { eapply elem_of_sublist; [|exact Hsub]. by apply (list_elem_of_fmap_2 key). }
  rewrite Hk. destruct (Hintact r Hin) as (Hi & Hd & _). rewrite Forall_forall in Hsel.
  split; [by apply Hsel|]. split; [by apply S|]. split; [done|]. split; [done|]. intros Hav' Hex. by apply (Hstale Hav' Hex r0 Hr0).
Qed.

End build.
