(* ===== verification/BuildExamples.v ===== *)
(** * A build, end to end

    The catalog of [SelectionExamples], built for a harness that reads skills
    from a directory. *)
From stdpp Require Import prelude strings gmap list sorting.
From Stdlib Require Import Ascii ZArith Lia.
From S2P Require Import Prelude Str BTree Security Catalog Neighbors TypedWalk Selection SelectionProps SelectionExamples PluginTree PluginTreeProps PluginText PluginBuild PluginBuildProps PluginExamples Build.

(** The catalog lists the digest ["sha"] for everything. *)
#[local] Instance listed_texts : Texts :=
  {| tx_evidence := @tx_evidence demo_texts; tx_sha256_hex := fun _ => lit "sha"; tx_index := @tx_index demo_texts;
     tx_freshness_md := @tx_freshness_md demo_texts; tx_guide := @tx_guide demo_texts; tx_mcp_remote := @tx_mcp_remote demo_texts;
     tx_mcp_local := @tx_mcp_local demo_texts; tx_manifest := @tx_manifest demo_texts;
     tx_plugin_json := @tx_plugin_json demo_texts; tx_lock := @tx_lock demo_texts |}.

Definition demo_versions : str * str := (lit "0.9", lit "0.9").
Definition built : outcome (result Plugin BuildFailure) :=
  build_scoped demo_versions (fun s => s) demo_options (demo_selection Warn false).

Definition built_paths : list str := match built with Ret (Ok pl) => map pf_path (pl_files pl) | _ => [] end.

Example built_tree : built_paths =
  map lit [".claude/skills/team-docs/SKILL.md"; ".claude/skills/team-docs/references/a.md"; ".claude/skills/b/SKILL.md";
           ".claude/skills/b/scripts/c.sh"; ".mcp.json"; ".claude/skills/team-docs/references/USING-THE-CATALOG.md";
           ".claude/skills/team-docs/scripts/okf.sh"; "okf-workspace.yaml"; "okf-workspace.lock"]%string.
Proof. by_eval. Qed.

Lemma built_plugin_witness : exists pl p name, built = Ret (Ok pl) /\ length (pl_files pl) = 9 /\
  NoDup (map key (pl_concepts pl)) /\ forall r, r ∈ pl_concepts pl -> in_place (layout p name) (pl_files pl) r.
Proof.
  assert (forall n, n ∈ concepts rd_db -> (0 <= n.1 <= i64_max)%Z) as Hids.
  { intros n Hn. assert (forallb (fun n => (0 <=? n.1)%Z && (n.1 <=? i64_max)%Z) (elements (concepts rd_db)) = true) as H by by_eval.
    rewrite forallb_forall in H. apply elem_of_elements, list_elem_of_In, H in Hn. lia. }
  assert (length built_paths = 9) as Hlen by (rewrite built_tree; by_eval).
  pose proof (built_plugin demo_versions (fun s => s) Hids demo_options (demo_selection Warn false) I) as Hb. fold built in Hb.
  unfold built_paths in Hlen. revert Hb Hlen. generalize built. intros [|[pl|e]]; [done| |done]. rewrite length_map.
  intros (p & name & _ & _ & _ & _ & Hnd & Hall) Hlen. exists pl, p, name. split; [done|]. split; [done|]. split; [exact Hnd|].
  intros r Hr. by apply Hall.
Defined.
